(* ===== verification/_CoqProject ===== *)
-Q . S2P
Prelude.v
Matching.v
Policy.v
Selection.v
RateLimit.v
Bitstring.v
Interleave.v
Threads.v
StatusList.v
Registry.v
Claims.v
Transparency.v
Vc.v
Pairwise.v
Nullifier.v
SybilScore.v
Session.v
SybilConfig.v
RecoveryEditor.v
Recovery.v
SignInOtp.v
PairProtocol.v
RecoveryCodes.v
InviteCodes.v
OidcAuthorize.v
OidcFlow.v
Stats.v
StatsProofs.v
Disclosure.v
Issuance.v
Plugins.v
Ledger.v
Signet.v
Wizard.v
LedgerProofs.v
WizardProofs.v
WizardProgress.v
PluginKit.v
EmailPlugins.v
ChallengePlugins.v
KeyPlugin.v
KeyProofs.v
OAuthPlugins.v
PluginProofs.v
Admin.v
Groups.v
GroupProofs.v
ShareLinks.v
Merge.v
MergeProofs.v
Credentials.v
CredentialProofs.v
RecoveryEntry.v
MergeCeremony.v
AnonSeed.v
AnonPair.v
Vault.v
VaultProofs.v
Pairing.v
