(* ===== verification/Prelude.v ===== *)
(** * Minister: a verification development

    Minister is an identity service: users collect badges (verified facts about themselves),
    relying parties ask for some of them over OpenID Connect, and the service discloses as
    little as a policy needs, under pseudonyms that differ per party. This library models the
    core of the service (apps/minister/src and packages/shared of the repository) and proves
    the properties that make it correct.

    ** Parts, and the files that model them

    - Disclosure policies (lib/oidc-policy.ts). [Matching] is the augmenting-path matching of
      maxDistinctBranchMatch, [Policy] the policy trees, their bounds and evaluation,
      [Selection] the choice of a minimal anonymity set. Theorems: the evaluator decides a
      declarative meaning in which a threshold credits distinct badges, the matching is
      maximum, the bounds walk is exact, the selector is complete and, without thresholds,
      sound; one theorem exhibits the threshold policies on which it is not.
    - Rate limits (lib/rate-limit.ts): [RateLimit]. At most [max] calls of a key pass in any
      window, whatever the sweep of the table does, and a client cannot choose its key.
    - Status lists (lib/status-list/): [Bitstring] for the bits and constants, [StatusList]
      for allocation, revocation and publication, all under interference. Publication never
      clears a bit, and an allocated handle is revocable; one theorem exhibits the race of a
      late commit.
    - Anti-sybil scoring (lib/sybil-score.ts, lib/sybil-config.ts, lib/assurance.ts, and the
      registry packages/shared/src/badge-types.ts): [Registry], [SybilScore], [SybilConfig].
      The scorer refines an order-free reading, is monotone in the badges, and high buckets
      need breadth; a clean boot check means every lookup resolves.
    - Sessions (lib/session.ts): [Session], used by the editor's gate.
    - Recovery: [RecoveryEditor] for the admin editor of weights and threshold
      (lib/recovery-config-guardrails.ts, server/recovery-config-actions.ts), [Recovery] for
      attempts, tickets, re-proof links and the actions around them
      (lib/recovery-threshold.ts, lib/recovery-ticket.ts, lib/recovery-reproof.ts,
      server/recovery-threshold-actions.ts, the recovery provider of auth.ts). No edits let
      one badge recover an account, no edit weakens recovery within three days, an attempt's
      score is the sum of its proofs, and it is redeemed once.
    - One-time codes: [SignInOtp] (lib/signin-otp.ts), [RecoveryCodes] (lib/recovery-codes.ts)
      and [InviteCodes] (lib/invite-codes.ts and two actions of server/admin-actions.ts). What
      is single-use or limited stays so under interleaving, a transcribed recovery code
      redeems; one theorem exhibits overlapping sign-in guesses that escape the lockout.
      [RecoveryEntry] has the actions around recovery codes (server/recovery-code-actions.ts),
      which compose the gate of [Credentials], the codes and the tickets of [Recovery]: a
      recovered session costs a code, refusals are alike, a right code signs in; a lemma
      exhibits the code a mail outage uses up.
    - OpenID Connect: [OidcAuthorize] for the request (lib/oidc-authorize.ts,
      lib/oidc-clients.ts), [OidcFlow] for consent, token exchange and userinfo
      (server/oidc-actions.ts, server/oidc-consent-minimize.ts, server/wizard-helpers.ts,
      server/profile-validation.ts, lib/oidc-grants.ts, lib/oidc-claims.ts,
      lib/oidc-tokens.ts, lib/oidc-subject.ts, app/oidc/token/route.ts,
      app/oidc/userinfo/route.ts). It uses [Selection] to minimize, [SybilScore] for the
      bucket and [StatusList] for the handles of revocable badges. A code is exchanged once,
      by its client, with its verifier, for what was approved; what is stored discloses only
      the user's badges in granted scopes; userinfo repeats the ID token.

    - Credentials of badges: [Claims] for the claim schemas of the registry
      (packages/shared/src/badge-types.ts), [Vc] for issuing and re-minting
      (packages/vc/src/issue.ts, signer.ts, did.ts, and lib/disclosure-claims.ts), [Pairwise]
      for the pseudonyms (lib/pairwise-backend.ts), [Disclosure] for the options a badge is
      re-minted with (lib/oidc-claims.ts), which instantiates the re-mint of [OidcFlow], and
      [Issuance] for the one writer of badges (server/issue-badge.ts). What was issued can be
      disclosed with the same claims; a disclosure carries nothing of the stored credential
      but the fact and its month, and only fresh stamps; identifier families never share an
      input; moving the derivation to a remote service changes no pseudonym; consent and
      disclosure agree on the age of a badge.
    - The dedup ledger, by which one credential backs one account (lib/nullifier/): [Nullifier]
      for the encodings (encoding.ts) and the normal form of addresses (normalize.ts), [Ledger]
      for the interface, owner handles, the backend in the database and the drift check
      (index.ts, interim.ts, drift-cache.ts), [Signet] for the remote backend
      (signet-backend.ts), [LedgerProofs] for what a backend promises. Inputs of the keyed
      functions are unambiguous, two addresses share an anchor exactly when they are one
      mailbox, the remote backend keeps the promises over a network that loses calls and
      answers, and a relying party never sees two values of one entry.
    - The badge wizard (server/wizard.ts, server/wizard-actions.ts, server/wizard-helpers.ts,
      server/badge-actions.ts, server/auto-issue-email-domain.ts, lib/freemail-domains.ts,
      packages/plugin-sdk/src/index.ts): [Plugins] for the types of the plugin SDK and the
      browser's copy of a state, [Wizard] for sessions, the batch and the actions, with the
      theorems in [WizardProofs] and [WizardProgress]. Under any interleaving no two accounts
      hold badges of one credential; a batch that fails leaves nothing; every request ends. Four
      theorems exhibit what is not covered: an outage at a later badge, a session submitted
      twice, a wizard restarted while it issues, and the badge issued at sign-in.
    - The badge plugins (plugins/, lib/tlsn-verifier.ts). [PluginKit]: what they share
      (oauth-common.ts), dates and texts included. [EmailPlugins]: email-domain and email-exact.
      [ChallengePlugins]: dns-txt, hackernews and wallet. [KeyPlugin]: public-key, with the SSH
      signature format byte by byte; its theorems are in [KeyProofs]. [OAuthPlugins]: github,
      reddit, google, youtube, instagram, steam, tlsn-attestation and invite-code.
      [PluginProofs]: the registry (registry.ts) and the theorems. Each plugin is a
      [PluginModel], a function of an environment, and [pluginIn] is the plugin the wizard
      calls. An SSH signature is accepted exactly when it is one of the pasted key over the
      challenge; a key or a domain badge is backed by a proof made in the same run; whoever
      holds a key gets its badge; every plugin hands over badges the wizard can issue. A lemma
      exhibits an e-mail badge issued without the mailed token.
    - Admin actions (server/admin-action.ts, server/admin-actions.ts,
      server/sybil-admin-actions.ts, lib/oidc-client-admin.ts): [Admin], on the users of
      [Session], the tables of [OidcFlow] and the configuration of [SybilConfig]. A ban ends
      sessions and tokens for good, clients stay well formed, one after the other the actions
      leave an admin, a change of a client ends its grants, and the score editor never touches
      recovery. Four lemmas exhibit what is left open: two admins who demote each other, a code
      exchanged after a ban, an exchange that overlaps an edit, and an app id set twice.
    - Groups (server/group-actions.ts, server/group-permissions.ts, lib/group-roles.ts,
      lib/reserved-slugs.ts, lib/user-sybil-bucket.ts): [Groups], with the theorems in
      [GroupProofs]. The actions refine a step relation of who may do what; a group has one
      owner under any interleaving; a membership that ends is revoked everywhere; a deleted
      group's name rests for thirty days. Four theorems exhibit what overlapping actions break:
      the quota of owned groups, the guard on admins, the revocation of a renewed membership
      and the rest of a name.
    - Share links (lib/share-links.ts, server/share-actions.ts, app/share/[token]/page.tsx):
      [ShareLinks]. A page shows only live links, to whom they ask for, with badges re-minted
      for the link; a dead link is never shown again; creation and the listings are sound.
    - Account merge (lib/merge.ts): [Merge], with the theorems in [MergeProofs]. A merge
      commits exactly under its conditions, a reversal inside the window restores every
      table, and both keep the schema's constraints; further theorems exhibit a chain of
      merges that fails, crossing merges, a replaced subject and a lifted ban.
    - The merge ceremony (lib/merge-proof.ts, server/merge-actions.ts): [MergeCeremony]. It
      runs on the merge's tables; every merge spends a link, and needs a trusted survivor and
      an authentic proof of the donor it names.
    - Credentials of accounts (lib/credential-lifecycle.ts, lib/credential-gate.ts,
      lib/credential-notify.ts, lib/passkey-enroll.ts, lib/email-signin-user.ts,
      server/credential-actions.ts, createAuthenticator of auth.ts): [Credentials], with the
      theorems in [CredentialProofs]. Addresses stay unique with one primary each, the gate
      opens exactly with a passkey out of quarantine, every passkey after the first is held,
      and sign-in needs a proof; further theorems exhibit overlapping removals of passkeys and
      a removed address that still signs in.
    - Public statistics (lib/stats-allowlist.ts, lib/stats-public.ts, the transparency page and
      its view): [Transparency] for what may be published and how it is printed; badge
      statistics (lib/cohort-filter.ts, lib/anonymity-sets.ts, lib/stats-recompute.ts): [Stats],
      with the theorems in [StatsProofs]. What the page shows is a function of the printed
      ranges; a recompute publishes exactly the holders; published rows are admitted rows, and
      one scheduled recompute runs per interval.
    - The private identity. [PairProtocol]: encodings, bound contexts, sealing, wrapping and
      derivation (packages/shared/src/pair-protocol.ts, anon-seed-crypto.ts,
      anon-seed-codec.ts). [AnonSeed]: enrollment and blobs (server/anon-seed-actions.ts), with
      the credential gate of [Credentials]. [AnonPair]: the pairing relay (server/anon-pair.ts
      and the routes under app/api/anon/pair). [Vault]: the vault of a device with its buffers
      and its store, the enrollment steps, and the pairing client (lib/anon-seed/vault.ts,
      root-store.ts, pair-client.ts, components/anon-seed/enrollment-flow.tsx), with the
      theorems in [VaultProofs] and [Pairing]. A root opens only in the context it was sealed
      for; an enrollment only moves on and a re-key passes all its gates; the relay hands a
      payload over once, within one account; a vault derives only from a root of the user and
      the epoch; pairing completes whatever others do. Further theorems exhibit overlapping
      actions (a re-key, a confirmation, a put), a device that missed a re-key, a lock while
      the store writes, and the shared entry of the password manager.

    ** How the code is modelled

    Definitions keep the names of the source. Pure functions are Rocq functions; fallible
    ones return [option] or [result]; actions are state transformers over records of tables,
    a table being a [gmap] by its key or a list of rows. Database calls are atomic, and
    handlers interleave between them, in two ways. [Interleave] runs one handler while an
    arbitrary peer function, constrained by a relation, changes the database between its
    steps: a rely condition for [StatusList]. [Threads] runs a pool of handlers under an
    arbitrary schedule; its rule [pool_accounts] bounds what the handlers obtain together by
    tokens that move between the database and them, and [steps_in] frames what they leave
    alone; [follows] is its rely-guarantee rule, an invariant and a preorder every step keeps,
    [stays] the rule for handlers that keep an invariant at every step, [owns] the rule for
    handlers that own tokens (a row in flight, a lock) which others must respect, [ends_within]
    bounds the operations of a handler, and [zoom] runs a handler of one component on a larger
    database. It serves all the other handlers.

    Numbers of the policy evaluator are IEEE doubles (the SpecFloat of the standard library,
    here [JsNum]); times, scores and counts, which are integers in the code, are [Z].
    Strings are sequences of 8-bit code units, case conversion is that of ASCII. The
    recursion of the matching runs on fuel [S nb], one more than there are badges, which
    [tryAssign_ok] shows to be enough because each call marks a badge; the retry loops of
    allocation (24), publication (4), the merge (5 attempts), releases after a commit (3) and
    the healing of a reference (3) have the bounds of the source, and the wait for a lock looks
    at it a number of times that is a parameter; the digits of a 32-bit number in base 36 are at
    most 7; nothing else needs fuel.

    Code outside the repository is a parameter: hashes, MACs, passwords, signatures and their
    verification, JWTs, base64url (concrete in [PairProtocol]), gzip, the JSON parser, the e-mail and id tests and messages
    of the schema library, Unicode normalization, mail, random draws and row ids, write
    conflicts of the database, the URL parser, OpenPGP and the libraries for SSH keys and wallet
    signatures, DNS resolvers, the sites plugins call and the local time zone, the oblivious PRF,
    the remote ledger and the remote derivation of pseudonyms, the primitives of [SeedWorld] (HPKE, HKDF, AES-GCM,
    base58check), browser storage and the passkey prompt. Theorems name what they assume of them;
    [SignetSpec] is the documented behaviour of the remote ledger, [SeedWorldLaws] and
    [SeedWorldShapes] that of the primitives, and concrete instances satisfy them.

    ** What is not modelled

    The user interface, the cryptography of the oblivious PRF and of the primitives above, key
    management, the HTML of mails, most audit metadata and HTTP headers. Statements of the
    database are atomic, so the window inside the conditional delete of an entry that
    lib/nullifier/interim.ts describes is not visible, and the lock of an entry lives until its
    window ends, which is what the timeouts of signet-backend.ts are chosen for. A request of a
    browser reaches the server. Of the service's own logic the profile and account actions are
    left out: name and avatar, the persona for a relying party, signing out everywhere and the
    end of setup.

    This file holds what the components share: notations, tactics and a hint database,
    fallible code, JavaScript's sort, sets and maps, numbers, and lemmas on lists and maps. *)

From Stdlib Require Import SpecFloat.
From stdpp Require Export sorting base gmap strings numbers pretty.
From stdpp Require Export list.

(** ** Notations and automation shared by the components *)

(** Character literals, as ["c"%char]. *)
Export Ascii.AsciiSyntax.
Delimit Scope char_scope with char.

Declare Scope minister_scope.
Delimit Scope minister_scope with minister.

(** JavaScript's [a ?? b] on an optional value. *)
Notation "a ?? b" := (default b a) (at level 60, right associativity) : minister_scope.

Create HintDb minister.

(** Split every boolean connective of the context into propositions. *)
Ltac bool_hyps :=
  repeat match goal with
  | H : _ && _ = true |- _ => apply andb_true_iff in H as [? ?]
  | H : _ || _ = false |- _ => apply orb_false_iff in H as [? ?]
  | H : negb _ = true |- _ => apply negb_true_iff in H
  | H : negb _ = false |- _ => apply negb_false_iff in H
  | H : Is_true _ |- _ => apply Is_true_true in H
  | H : bool_decide _ = true |- _ => apply bool_decide_eq_true_1 in H
  | H : bool_decide _ = false |- _ => apply bool_decide_eq_false_1 in H
  | H : (_ <=? _)%Z = true |- _ => apply Z.leb_le in H
  | H : (_ <=? _)%Z = false |- _ => apply Z.leb_gt in H
  | H : (_ <? _)%Z = true |- _ => apply Z.ltb_lt in H
  | H : (_ <? _)%Z = false |- _ => apply Z.ltb_ge in H
  | H : (_ =? _)%Z = true |- _ => apply Z.eqb_eq in H
  | H : (_ =? _)%Z = false |- _ => apply Z.eqb_neq in H
  end.

(** Invert a run of guards: case analysis on the scrutinees of a hypothesis, until
    it is an equation of values. *)
Ltac run_guards H :=
  repeat match type of H with
  | context [ match ?x with _ => _ end ] =>
      let E := fresh "E" in destruct x eqn:E; try discriminate H
  end; simplify_eq/=.

(** Sortedness of a concrete list of integers. *)
Ltac solve_sorted :=
  cbn; repeat first [apply SSorted_nil | apply SSorted_cons | apply List.Forall_nil
                    | apply List.Forall_cons]; lia.

(** ** Fallible code

    A value, or the error that a [throw] or an early return carries. *)
Inductive result (E A : Type) : Type :=
  | Ok (a : A)
  | Err (e : E).
Arguments Ok {E A} a.
Arguments Err {E A} e.

#[export] Instance result_ret E : MRet (result E) := fun A a => Ok a.
#[export] Instance result_bind E : MBind (result E) := fun A B f r =>
  match r with Ok a => f a | Err e => Err e end.

(** Throw unless a guard holds. *)
Definition guard_or {E} (b : bool) (e : E) : result E unit := if b then Ok tt else Err e.

(** The value of an optional read, or an error. *)
Definition some_or {E A} (o : option A) (e : E) : result E A :=
  match o with Some a => Ok a | None => Err e end.

Lemma bind_Ok {E A B} (r : result E A) (f : A → result E B) b :
  r ≫= f = Ok b ↔ ∃ a, r = Ok a ∧ f a = Ok b.
Proof. destruct r; simpl; naive_solver. Qed.

Lemma guard_or_Ok {E} (b : bool) (e : E) u : guard_or b e = Ok u ↔ b = true.
Proof. destruct b, u; simpl; naive_solver. Qed.

Lemma some_or_Ok {E A} (o : option A) (e : E) a : some_or o e = Ok a ↔ o = Some a.
Proof. destruct o; simpl; naive_solver. Qed.

(** Invert a successful run of [result] code. *)
Ltac run_ok H :=
  repeat match type of H with
  | _ ≫= _ = Ok _ => let a := fresh "a" in let E := fresh "E" in
      apply bind_Ok in H as (a & E & H); try run_ok E
  | guard_or _ _ = Ok _ => apply guard_or_Ok in H
  | some_or _ _ = Ok _ => apply some_or_Ok in H
  | mret _ = Ok _ => injection H as H
  end.

(** ** JavaScript numbers

    An IEEE-754 binary64 number, with the arithmetic of [SpecFloat] (the
    executable specification of the double-precision operations). *)
Module JsNum.

Definition t : Type := spec_float.

(** An integer literal, rounded to the nearest double. *)
Definition of_Z (z : Z) : t := binary_normalize 53 1024 z 0 false.

Definition sub (x y : t) : t := SFsub 53 1024 x y.
Definition mul (x y : t) : t := SFmul 53 1024 x y.

(** [x > y], false when either side is NaN. *)
Definition gtb (x y : t) : bool := SFltb y x.

(** [x === y]: NaN differs from itself, the two zeros are equal. *)
Definition eqb (x y : t) : bool := SFeqb x y.

End JsNum.

(** ** [Array.prototype.sort]

    Sorting is stable; [cmp x y] is negative when [x] goes first, positive when
    [y] does. *)

(** A consistent comparator: a total preorder read off the sign of the result.
    The result of a stable sort is determined by such a comparator. *)
Class Comparator {A : Type} (cmp : A → A → Z) : Prop := {
  cmp_sgn : ∀ x y, Z.sgn (cmp y x) = (- Z.sgn (cmp x y))%Z;
  cmp_trans : ∀ x y z, (cmp x y <= 0 → cmp y z <= 0 → cmp x z <= 0)%Z;
}.

Lemma cmp_flip {A} (cmp : A → A → Z) `{!Comparator cmp} x y :
  ((cmp y x <= 0 ↔ 0 <= cmp x y) ∧ (cmp y x = 0 ↔ cmp x y = 0) ∧ (cmp y x < 0 ↔ 0 < cmp x y))%Z.
Proof. pose proof (cmp_sgn x y). destruct (cmp x y), (cmp y x); simpl in *; lia. Qed.

(** Compare by [c1] and break ties by [c2]. *)
Definition cmp_lex {A} (c1 c2 : A → A → Z) (x y : A) : Z :=
  if (c1 x y =? 0)%Z then c2 x y else c1 x y.

#[export] Instance Comparator_lex {A} (c1 c2 : A → A → Z) :
  Comparator c1 → Comparator c2 → Comparator (cmp_lex c1 c2).
Proof.
  intros H1 H2. unfold cmp_lex. split.
  - intros x y. pose proof (cmp_flip c1 x y).
    destruct (Z.eqb_spec (c1 x y) 0), (Z.eqb_spec (c1 y x) 0); try lia; apply cmp_sgn.
  - intros x y z. pose proof (cmp_flip c1 x y). pose proof (cmp_flip c1 y z).
    pose proof (cmp_flip c1 x z). pose proof (cmp_trans (cmp := c1) x y z).
    pose proof (cmp_trans (cmp := c1) z y x). pose proof (cmp_trans (cmp := c1) z x y).
    pose proof (cmp_trans (cmp := c1) y z x). pose proof (cmp_trans (cmp := c2) x y z).
    destruct (Z.eqb_spec (c1 x y) 0), (Z.eqb_spec (c1 y z) 0), (Z.eqb_spec (c1 x z) 0); lia.
Qed.

(** Compare by a key. *)
Definition cmp_on {A B} (f : A → B) (c : B → B → Z) (x y : A) : Z := c (f x) (f y).

#[export] Instance Comparator_on {A B} (f : A → B) (c : B → B → Z) :
  Comparator c → Comparator (cmp_on f c).
Proof. intros Hc. unfold cmp_on. split; intros; [apply cmp_sgn|eapply cmp_trans; eauto]. Qed.

#[export] Instance Comparator_Zsub : Comparator Z.sub.
Proof. split; intros; lia. Qed.

Section JsSort.
Context {A : Type} (cmp : A → A → Z).

Fixpoint js_insert (x : A) (l : list A) : list A :=
  match l with
  | [] => [x]
  | y :: l' => if (cmp x y <=? 0)%Z then x :: y :: l' else y :: js_insert x l'
  end.

Definition js_sort (l : list A) : list A := foldr js_insert [] l.

Definition cmp_le (x y : A) : Prop := (cmp x y <= 0)%Z.

Lemma js_insert_perm x l : js_insert x l ≡ₚ x :: l.
Proof.
  induction l as [|y l IH]; simpl; [done|].
  destruct (cmp x y <=? 0)%Z; [done|]. rewrite IH. apply perm_swap.
Qed.

Lemma js_sort_perm l : js_sort l ≡ₚ l.
Proof. induction l as [|x l IH]; simpl; [done|]. by rewrite js_insert_perm, IH. Qed.

Lemma elem_of_js_sort x l : x ∈ js_sort l ↔ x ∈ l.
Proof. by rewrite js_sort_perm. Qed.

Lemma length_js_sort l : length (js_sort l) = length l.
Proof. by rewrite js_sort_perm. Qed.

Lemma js_sort_nil_inv l : js_sort l = [] → l = [].
Proof. intros H. apply length_zero_iff_nil. by rewrite <-length_js_sort, H. Qed.

Context `{!Comparator cmp}.

Lemma js_insert_sorted x l :
  StronglySorted cmp_le l → StronglySorted cmp_le (js_insert x l).
Proof using Type*.
  induction 1 as [|y l Hl IH Hy]; simpl; [repeat constructor|].
  destruct (Z.leb_spec (cmp x y) 0).
  - constructor; [by constructor|]. constructor; [done|].
    eapply Forall_impl; [exact Hy|]. intros z Hz. by eapply cmp_trans.
  - constructor; [done|]. rewrite js_insert_perm. constructor; [|done].
    unfold cmp_le. pose proof (cmp_flip cmp x y). lia.
Qed.

Lemma js_sort_sorted l : StronglySorted cmp_le (js_sort l).
Proof using Type*.
  induction l; simpl; [constructor|]. by apply js_insert_sorted.
Qed.

End JsSort.

(** Sorting commutes with a relation the comparators cannot tell apart. *)
Lemma js_sort_related {A B} (R : A → B → Prop) (cmp : A → A → Z) (cmp' : B → B → Z) l l' :
  (∀ x x' y y', R x x' → R y y' → cmp x y = cmp' x' y') →
  Forall2 R l l' → Forall2 R (js_sort cmp l) (js_sort cmp' l').
Proof.
  intros Hcmp. assert (Hins : ∀ x x' l l', R x x' → Forall2 R l l' → Forall2 R (js_insert cmp x l) (js_insert cmp' x' l')).
  { intros x x' k k' Hx. induction 1 as [|y y' k k' Hy Hk IH]; simpl; [by repeat constructor|].
    rewrite (Hcmp x x' y y') by done. destruct (cmp' x' y' <=? 0)%Z; repeat constructor; auto. }
  induction 1; simpl; [constructor|]. by apply Hins.
Qed.

(** ** Insertion-ordered sets

    A JavaScript [Set] iterates in insertion order and ignores a value it
    already has. *)
Section JsSet.
Context {A : Type} `{!EqDecision A}.

Definition set_add (x : A) (s : list A) : list A :=
  if decide (x ∈ s) then s else s ++ [x].

Definition set_add_all (l s : list A) : list A := foldl (fun acc x => set_add x acc) s l.

(** [[...new Set(l)]] *)
Definition set_of (l : list A) : list A := set_add_all l [].

Lemma elem_of_set_add x y s : x ∈ set_add y s ↔ x = y ∨ x ∈ s.
Proof. unfold set_add. case_decide; set_solver. Qed.

Lemma elem_of_set_add_all x l s : x ∈ set_add_all l s ↔ x ∈ l ∨ x ∈ s.
Proof.
  unfold set_add_all. revert s. induction l as [|y l IH]; intros s; simpl; [set_solver|].
  rewrite IH, elem_of_set_add. set_solver.
Qed.

Lemma elem_of_set_of x l : x ∈ set_of l ↔ x ∈ l.
Proof. unfold set_of. rewrite elem_of_set_add_all. set_solver. Qed.

Lemma NoDup_set_add x s : NoDup s → NoDup (set_add x s).
Proof.
  unfold set_add. case_decide; [done|]. intros Hs.
  apply NoDup_app. split_and!; [done|set_solver|apply NoDup_singleton].
Qed.

Lemma NoDup_set_add_all l s : NoDup s → NoDup (set_add_all l s).
Proof.
  unfold set_add_all. revert s. induction l as [|y l IH]; intros s Hs; simpl; [done|].
  by apply IH, NoDup_set_add.
Qed.

Lemma NoDup_set_of l : NoDup (set_of l).
Proof. apply NoDup_set_add_all, NoDup_nil_2. Qed.

End JsSet.

#[export] Hint Resolve NoDup_set_add NoDup_set_add_all NoDup_set_of : minister.

(** ** Insertion-ordered maps

    A JavaScript [Map]: [set] replaces the value of a present key in place and appends
    a new key at the end. *)
Section JsMap.
Context {K V : Type} `{!EqDecision K}.

Fixpoint jget (k : K) (m : list (K * V)) : option V :=
  match m with
  | [] => None
  | (k', v) :: m' => if decide (k = k') then Some v else jget k m'
  end.

Fixpoint jset (k : K) (v : V) (m : list (K * V)) : list (K * V) :=
  match m with
  | [] => [(k, v)]
  | (k', v') :: m' => if decide (k = k') then (k, v) :: m' else (k', v') :: jset k v m'
  end.

Lemma jget_None k m : jget k m = None ↔ k ∉ m.*1.
Proof.
  induction m as [|[k' v'] m IH]; simpl; [set_solver|]. case_decide; set_solver.
Qed.

Lemma jset_fresh k v m : k ∉ m.*1 → jset k v m = m ++ [(k, v)].
Proof.
  induction m as [|[k' v'] m IH]; simpl; [done|]. intros [Hk Hm]%not_elem_of_cons.
  rewrite decide_False by done. by rewrite IH.
Qed.

Lemma jset_present k v v0 m m' :
  NoDup m.*1 → m ≡ₚ (k, v0) :: m' → jset k v m ≡ₚ (k, v) :: m'.
Proof.
  intros Hnd Hp. revert m' Hp. induction m as [|[k' v'] m IH]; intros m' Hp.
  { by apply Permutation_nil_l in Hp. }
  simpl in *. apply NoDup_cons in Hnd as [Hk Hnd].
  assert ((k, v0) ∈ (k', v') :: m) as [Heq|Hin]%elem_of_cons by (rewrite Hp; left).
  - simplify_eq. rewrite decide_True by done. constructor. by apply Permutation_cons_inv in Hp.
  - rewrite decide_False by (intros ->; apply Hk; by apply (list_elem_of_fmap_2 fst) in Hin).
    apply Permutation_cons_inv_l in Hp as Hq. destruct Hq as (m1 & m2 & Hm & Hq).
    destruct m1 as [|[k1 v1] m1]; simpl in Hm; simplify_eq.
    { simpl in *. exfalso. apply Hk. by apply (list_elem_of_fmap_2 fst) in Hin. }
    rewrite (IH Hnd (m1 ++ m2)).
    + simpl. rewrite perm_swap, <-Permutation_middle. done.
    + done.
Qed.

Lemma jget_lookup k v m : NoDup m.*1 → jget k m = Some v ↔ (k, v) ∈ m.
Proof.
  induction m as [|[k' v'] m IH]; simpl; [set_solver|]. intros [Hk Hnd]%NoDup_cons.
  rewrite elem_of_cons, <-(IH Hnd). case_decide as Hd; subst.
  - split; [naive_solver|]. intros [?|Hg]; [naive_solver|].
    apply IH in Hg; [|done]. by apply (list_elem_of_fmap_2 fst) in Hg.
  - naive_solver.
Qed.

Lemma jset_keys k v m : (jset k v m).*1 = set_add k m.*1.
Proof.
  unfold set_add. induction m as [|[k' v'] m IH]; cbn -[decide].
  { case_decide as Hk; [by apply elem_of_nil in Hk|done]. }
  destruct (decide (k = k')) as [->|Hne]; cbn -[decide].
  - rewrite decide_True by left. done.
  - rewrite IH. destruct (decide (k ∈ m.*1)) as [Hk|Hk].
    + rewrite decide_True by (by right). done.
    + rewrite decide_False by (rewrite elem_of_cons; tauto). done.
Qed.

Lemma jget_jset k k' v m : jget k (jset k' v m) = if decide (k = k') then Some v else jget k m.
Proof.
  induction m as [|[k1 v1] m IH]; simpl; [repeat case_decide; congruence|].
  repeat (case_decide; simpl); subst; try congruence.
Qed.

End JsMap.

(** Maps with the same keys, in the same order, and related values. *)
Section RelatedMaps.
Context {K V W : Type} `{!EqDecision K} (R : V → W → Prop).

Definition related_maps (m : list (K * V)) (m' : list (K * W)) : Prop := Forall2 (fun e e' => e.1 = e'.1 ∧ R e.2 e'.2) m m'.

Lemma jget_related k m m' : related_maps m m' → option_Forall2 R (jget k m) (jget k m').
Proof.
  induction 1 as [|[k1 v] [k2 w] m m' [Hk Hv] Hm IH]; simpl in *; [constructor|]. subst.
  case_decide; [by constructor|done].
Qed.

Lemma jset_related k v w m m' : R v w → related_maps m m' → related_maps (jset k v m) (jset k w m').
Proof.
  intros Hvw. induction 1 as [|[k1 v1] [k2 w1] m m' [Hk Hv] Hm IH]; simpl in *; [by repeat constructor|]. subst.
  case_decide; by constructor.
Qed.
End RelatedMaps.

(** ** Counting *)
Section Counting.
Context {A : Type} (P Q : A → Prop) `{!∀ x, Decision (P x), !∀ x, Decision (Q x)}.

Lemma length_filter_le l :
  (∀ x, x ∈ l → P x → Q x) → length (filter P l) ≤ length (filter Q l).
Proof.
  induction l as [|x l IH]; intros HPQ; [done|].
  assert (length (filter P l) ≤ length (filter Q l)) by (apply IH; set_solver).
  rewrite !filter_cons. case_decide as HP; case_decide as HQ; simpl; try lia.
  destruct HQ. apply HPQ; [left|done].
Qed.

Lemma length_filter_lt l y :
  (∀ x, x ∈ l → P x → Q x) → y ∈ l → Q y → ¬ P y →
  length (filter P l) < length (filter Q l).
Proof.
  induction l as [|x l IH]; intros HPQ Hy HQy HPy; [set_solver|].
  assert (length (filter P l) ≤ length (filter Q l))
    by (apply length_filter_le; set_solver).
  rewrite !filter_cons. apply elem_of_cons in Hy as [->|Hy].
  - rewrite decide_False by done. rewrite decide_True by done. simpl. lia.
  - assert (length (filter P l) < length (filter Q l)) by (apply IH; set_solver).
    case_decide as HP; case_decide as HQ; simpl; try lia.
    destruct HQ. apply HPQ; [left|done].
Qed.

End Counting.

(** A partial injection that is defined on a duplicate-free list. *)
Lemma omap_inj_NoDup {A B} (f : A → option B) (l : list A) :
  (∀ x y z, f x = Some z → f y = Some z → x = y) →
  (∀ x, x ∈ l → is_Some (f x)) → NoDup l →
  NoDup (omap f l) ∧ length (omap f l) = length l.
Proof.
  intros Hinj Hdef Hnd. induction Hnd as [|x l Hx Hnd IH]; [by split; [constructor|]|].
  destruct IH as [IH1 IH2]; [intros; apply Hdef; by right|].
  destruct (Hdef x) as [z E]; [left|]. cbn. rewrite E. split; [|by f_equal/=].
  constructor; [|done]. intros (y & Hy & E')%list_elem_of_omap.
  apply Hx. by rewrite (Hinj x y z).
Qed.

Lemma size_remove `{Countable A} (X : gset A) (x : A) :
  x ∈ X → size X = S (size (X ∖ {[x]})).
Proof.
  intros Hx. assert (size ({[x]} : gset A) ≤ size X) as Hle by (apply subseteq_size; set_solver).
  rewrite size_difference by set_solver. rewrite size_singleton in *. lia.
Qed.

(** [List.map] seen through indexing. *)
Lemma lookup_map {A B} (f : A → B) (l : list A) i : map f l !! i = f <$> l !! i.
Proof. apply (list_lookup_fmap f). Qed.

Lemma lookup_map_Some {A B} (f : A → B) (l : list A) i y :
  map f l !! i = Some y ↔ ∃ x, l !! i = Some x ∧ y = f x.
Proof. rewrite lookup_map, fmap_Some. naive_solver. Qed.

Lemma elem_of_map {A B} (f : A → B) (l : list A) y : y ∈ map f l ↔ ∃ x, y = f x ∧ x ∈ l.
Proof. apply (list_elem_of_fmap f). Qed.

(** Filters that keep, or drop, every element. *)
Lemma filter_keeps {A} (P : A → Prop) `{!∀ x, Decision (P x)} (l : list A) : Forall P l → filter P l = l.
Proof. induction 1 as [|x l Hx _ IH]; [done|]. rewrite filter_cons_True by done. by rewrite IH. Qed.

Lemma filter_drops {A} (P : A → Prop) `{!∀ x, Decision (P x)} (l : list A) : Forall (fun x => ¬ P x) l → filter P l = [].
Proof. induction 1 as [|x l Hx _ IH]; [done|]. by rewrite filter_cons_False. Qed.

Lemma elem_of_filter_b {A} (f : A → bool) (l : list A) x :
  x ∈ List.filter f l ↔ x ∈ l ∧ f x = true.
Proof. by rewrite !list_elem_of_In, filter_In. Qed.

(** A set of positions that hold values is no larger than the list of values. *)
Lemma positions_le_values {A} (l : list (option A)) (L : list nat) :
  NoDup L → (∀ i, i ∈ L → ∃ x, l !! i = Some (Some x)) → length L ≤ length (omap id l).
Proof.
  revert L. induction l as [|o l IH] using rev_ind; intros L Hnd HL.
  { destruct L as [|i L]; [done|]. destruct (HL i) as [x Hx]; [left|done]. }
  set (L' := filter (fun i => i ≠ length l) L).
  assert (Hle : length L ≤ length L' + length (omap id [o])).
  { destruct o as [x|].
    - assert (L ⊆+ length l :: L') as Hsub%submseteq_length; [|cbn in *; lia].
      apply NoDup_submseteq; [done|]. intros i Hi. destruct (decide (i = length l)) as [->|]; [left|].
      right. by apply list_elem_of_filter.
    - assert (L ⊆+ L') as Hsub%submseteq_length; [|cbn; lia].
      apply NoDup_submseteq; [done|]. intros i Hi. apply list_elem_of_filter. split; [|done].
      intros ->. destruct (HL _ Hi) as [x Hx]. by rewrite list_lookup_middle in Hx. }
  assert (length L' ≤ length (omap id l)).
  { apply IH; [by apply NoDup_filter|]. intros i [Hne Hi]%list_elem_of_filter.
    destruct (HL i Hi) as [x Hx]. exists x. apply lookup_app_Some in Hx as [Hx|[? Hx]]; [done|].
    apply list_lookup_singleton_Some in Hx as [? ?]. lia. }
  rewrite omap_app, length_app. lia.
Qed.

(** A check over the entries of a finite map. *)
Lemma map_forallb `{Countable K} {A} (f : K * A → bool) (m : gmap K A) k x :
  forallb f (map_to_list m) = true → m !! k = Some x → f (k, x) = true.
Proof.
  rewrite forallb_forall. intros Hall Hk. by apply Hall, list_elem_of_In, elem_of_map_to_list.
Qed.

(** ** Strings *)

(** [String.prototype.toLowerCase] on ASCII letters. *)
Definition lower_char (c : Ascii.ascii) : Ascii.ascii :=
  let n := Ascii.nat_of_ascii c in
  if Nat.leb 65 n && Nat.leb n 90 then Ascii.ascii_of_nat (n + 32) else c.

Fixpoint toLowerCase (s : string) : string :=
  match s with EmptyString => EmptyString | String c s' => String (lower_char c) (toLowerCase s') end.

Lemma toLowerCase_idemp s : toLowerCase (toLowerCase s) = toLowerCase s.
Proof.
  induction s as [|c s IH]; simpl; [done|]. rewrite IH. f_equal.
  destruct c as [[] [] [] [] [] [] [] []]; reflexivity.
Qed.

(** [s.split(c)] *)
Fixpoint split_on (d : Ascii.ascii) (s : string) : list string :=
  match s with
  | EmptyString => [EmptyString]
  | String c s' =>
      if decide (c = d) then EmptyString :: split_on d s'
      else match split_on d s' with
           | p :: ps => String c p :: ps
           | [] => [String c EmptyString]
           end
  end.

Lemma split_on_cons d s : ∃ p ps, split_on d s = p :: ps.
Proof. destruct s as [|c s]; simpl; [eauto|]. case_decide; [eauto|]. destruct (split_on d s); eauto. Qed.

Lemma split_on_app d a b : split_on d (a +:+ String d b) = split_on d a ++ split_on d b.
Proof.
  induction a as [|c a IH]; [simpl; by rewrite decide_True|].
  change (String c a +:+ String d b) with (String c (a +:+ String d b)). cbn [split_on].
  rewrite IH. case_decide; [done|]. by destruct (split_on_cons d a) as (p & ps & ->).
Qed.

(** Every code unit satisfies a test. *)
Definition all_chars (f : Ascii.ascii → bool) (s : string) : bool := forallb f (String.list_ascii_of_string s).

Definition in_range (lo hi : nat) (c : Ascii.ascii) : bool :=
  Nat.leb lo (Ascii.nat_of_ascii c) && Nat.leb (Ascii.nat_of_ascii c) hi.
Definition is_lower_letter : Ascii.ascii → bool := in_range 97 122.
Definition is_upper_letter : Ascii.ascii → bool := in_range 65 90.
Definition is_digit_char : Ascii.ascii → bool := in_range 48 57.

(** A string without the separator is one part. *)
Lemma split_on_free d s : all_chars (fun c => negb (bool_decide (c = d))) s = true → split_on d s = [s].
Proof.
  unfold all_chars. induction s as [|c s IH]; simpl; [done|]. intros [Hc Hs]%andb_true_iff.
  bool_hyps. rewrite decide_False by done. by rewrite IH.
Qed.
