(* ===== verification/Matching.v ===== *)
(** * Bipartite matching of policy branches and badges

    The matching loop of [maxDistinctBranchMatch] in lib/oidc-policy.ts, over an
    arbitrary adjacency list, and the proof that it computes the size of a
    maximum matching (Kuhn's algorithm, with a Koenig vertex cover as the
    certificate of optimality). *)

From S2P Require Import Prelude.

Section Kuhn.

(** [adjacency !! branch] lists the badge indices that alone satisfy [branch];
    [nb] is [badges.length]. *)
Context (adjacency : list (list nat)) (nb : nat).

(** The mutable state of the closure: [visited] (fresh per top-level call) and
    [badgeMatch], whose [-1] is [None]. *)
Record kuhn_state := KuhnState {
  visited : list bool;
  badgeMatch : list (option nat);
}.

Definition mark (bi : nat) (s : kuhn_state) : kuhn_state :=
  KuhnState (<[bi:=true]> (visited s)) (badgeMatch s).

Definition assign (bi branch : nat) (s : kuhn_state) : kuhn_state :=
  KuhnState (visited s) (<[bi:=Some branch]> (badgeMatch s)).

(** The [for (const bi of adjacency[branch])] loop; [rec] is the recursive call. *)
Fixpoint tryRow (rec : nat → kuhn_state → bool * kuhn_state) (branch : nat)
    (row : list nat) (s : kuhn_state) : bool * kuhn_state :=
  match row with
  | [] => (false, s)
  | bi :: row' =>
      match visited s !! bi with
      | Some true => tryRow rec branch row' s
      | _ =>
          let s := mark bi s in
          match badgeMatch s !! bi with
          | Some (Some owner) =>
              let '(moved, s') := rec owner s in
              if moved then (true, assign bi branch s') else tryRow rec branch row' s'
          | _ => (true, assign bi branch s)
          end
      end
  end.

(** Every recursive call marks one more badge, so [S nb] is enough fuel
    ([tryAssign_ok]). *)
Fixpoint tryAssign (fuel : nat) (branch : nat) (s : kuhn_state) : bool * kuhn_state :=
  match fuel with
  | O => (false, s)
  | S fuel' => tryRow (tryAssign fuel') branch (default [] (adjacency !! branch)) s
  end.

(** One iteration of the outer loop, with its fresh [visited] array. *)
Definition matchBranch (acc : nat * list (option nat)) (branch : nat) :
    nat * list (option nat) :=
  let '(ok, s) := tryAssign (S nb) branch (KuhnState (replicate nb false) acc.2) in
  (if ok then S acc.1 else acc.1, badgeMatch s).

Definition matchLoop (branches : list nat) : nat * list (option nat) :=
  foldl matchBranch (0, replicate nb None) branches.

Definition maxMatching : nat := (matchLoop (seq 0 (length adjacency))).1.

(** ** Specification *)

Definition edge (br b : nat) : Prop := ∃ row, adjacency !! br = Some row ∧ b ∈ row.

(** A matching: pairs of a branch and a badge, no branch and no badge twice. *)
Definition is_matching (N : list (nat * nat)) : Prop :=
  NoDup N.*1 ∧ NoDup N.*2 ∧ ∀ p, p ∈ N → edge p.1 p.2.

Context (rows_in_range : ∀ br b, edge br b → b < nb).

(** ** Invariants of the state *)

Definition vis (s : kuhn_state) (b : nat) : Prop := visited s !! b = Some true.
Definition owned (M : list (option nat)) (b br : nat) : Prop := M !! b = Some (Some br).

Record wf (s : kuhn_state) : Prop := Wf {
  wf_vis : length (visited s) = nb;
  wf_len : length (badgeMatch s) = nb;
}.

(** The assignment restricted to the badges that satisfy [P] is a matching. *)
Record matched_on (P : nat → Prop) (M : list (option nat)) : Prop := MatchedOn {
  mo_edge : ∀ b br, P b → owned M b br → edge br b;
  mo_inj : ∀ b1 b2 br, P b1 → P b2 → owned M b1 br → owned M b2 br → b1 = b2;
}.

Definition holds (P : nat → Prop) (M : list (option nat)) (br : nat) : Prop :=
  ∃ b, P b ∧ owned M b br.

Definition fresh (s : kuhn_state) (b : nat) : Prop := ¬ vis s b.

#[local] Instance vis_dec s b : Decision (vis s b).
Proof. unfold vis. apply _. Defined.

#[local] Instance fresh_dec s b : Decision (fresh s b).
Proof. unfold fresh. apply _. Defined.

(** The effect of a successful augmentation of [branch] from [s]. *)
Record augmented (branch : nat) (s s' : kuhn_state) : Prop := Augmented {
  au_keep : ∀ b, vis s b → badgeMatch s' !! b = badgeMatch s !! b;
  au_new : holds (fresh s) (badgeMatch s') branch;
  au_match : matched_on (fresh s) (badgeMatch s');
  au_same : ∀ br, br ≠ branch →
    holds (fresh s) (badgeMatch s') br ↔ holds (fresh s) (badgeMatch s) br;
}.

(** The effect of a failed search: the assignment is untouched and the newly
    visited badges are closed under alternating paths. *)
Record closed (s s' : kuhn_state) : Prop := Closed {
  cl_same : badgeMatch s' = badgeMatch s;
  cl_grow : ∀ b, vis s b → vis s' b;
  cl_step : ∀ b, vis s' b → fresh s b →
    ∃ br, owned (badgeMatch s) b br ∧ ∀ b', edge br b' → vis s' b';
}.

Definition unvisited (s : kuhn_state) : nat :=
  length (filter (fresh s) (seq 0 nb)).

(** ** Marking and assigning *)

Lemma wf_mark bi s : wf s → wf (mark bi s).
Proof. intros [? ?]. split; simpl; [by rewrite length_insert|done]. Qed.

Lemma wf_assign bi br s : wf s → wf (assign bi br s).
Proof. intros [? ?]. split; simpl; [done|by rewrite length_insert]. Qed.

Lemma vis_mark bi s b : wf s → bi < nb → vis (mark bi s) b ↔ b = bi ∨ vis s b.
Proof.
  intros [Hv _] Hbi. unfold vis; simpl.
  destruct (decide (b = bi)) as [->|Hne].
  - rewrite list_lookup_insert_eq by lia. naive_solver.
  - rewrite list_lookup_insert_ne by done. naive_solver.
Qed.

Lemma owned_assign bi br s b c :
  wf s → bi < nb →
  owned (badgeMatch (assign bi br s)) b c ↔
    (b = bi ∧ c = br) ∨ (b ≠ bi ∧ owned (badgeMatch s) b c).
Proof.
  intros [_ Hm] Hbi. unfold owned; simpl.
  destruct (decide (b = bi)) as [->|Hne].
  - rewrite list_lookup_insert_eq by lia. naive_solver.
  - rewrite list_lookup_insert_ne by done. naive_solver.
Qed.

Lemma unvisited_mark bi s :
  wf s → bi < nb → fresh s bi → unvisited (mark bi s) < unvisited s.
Proof.
  intros Hwf Hbi Hfr. apply (length_filter_lt _ _ _ bi); unfold fresh in *.
  - intros x _. rewrite vis_mark by done. naive_solver.
  - apply elem_of_seq. lia.
  - done.
  - rewrite vis_mark by done. naive_solver.
Qed.

Lemma unvisited_grow s s' :
  (∀ b, vis s b → vis s' b) → unvisited s' ≤ unvisited s.
Proof. intros H. apply length_filter_le. unfold fresh. naive_solver. Qed.

(** ** The search *)

(** What a call of [tryAssign] may assume: the assignment is a matching and
    [branch] owns no unvisited badge. *)
Record ready (branch : nat) (s : kuhn_state) : Prop := Ready {
  rd_wf : wf s;
  rd_match : matched_on (λ _, True) (badgeMatch s);
  rd_free : ¬ holds (fresh s) (badgeMatch s) branch;
}.

Definition outcome (branch : nat) (row : list nat) (s : kuhn_state)
    (r : bool * kuhn_state) : Prop :=
  wf r.2 ∧
  if r.1 then augmented branch s r.2 else closed s r.2 ∧ ∀ b, b ∈ row → vis r.2 b.

Definition row_of (branch : nat) : list nat := default [] (adjacency !! branch).

Definition rec_ok (rec : nat → kuhn_state → bool * kuhn_state) (k : nat) : Prop :=
  ∀ br s, ready br s → unvisited s < k → outcome br (row_of br) s (rec br s).

Lemma edge_row_of br b : edge br b ↔ b ∈ row_of br.
Proof.
  unfold edge, row_of. destruct (adjacency !! br); simpl; [naive_solver|].
  split; [naive_solver|set_solver].
Qed.

Lemma owned_fun M b br br' : owned M b br → owned M b br' → br = br'.
Proof. unfold owned. congruence. Qed.

(** Taking a free badge. *)
Lemma augment_free branch bi s :
  ready branch s → bi < nb → fresh s bi → edge branch bi →
  (∀ br, ¬ owned (badgeMatch s) bi br) →
  augmented branch s (assign bi branch (mark bi s)).
Proof.
  intros [Hwf [He Hi] Hfree] Hbi Hfr Hedge Hun.
  assert (Hwf' := wf_mark bi s Hwf).
  assert (HO : ∀ b c, owned (badgeMatch (assign bi branch (mark bi s))) b c ↔
    (b = bi ∧ c = branch) ∨ (b ≠ bi ∧ owned (badgeMatch s) b c))
    by (intros; by apply (owned_assign bi branch (mark bi s))).
  split.
  - intros b Hb. simpl. apply list_lookup_insert_ne. intros ->. by apply Hfr.
  - exists bi. rewrite HO. naive_solver.
  - split.
    + intros b br _. rewrite HO. naive_solver.
    + intros b1 b2 br F1 F2. rewrite !HO.
      intros [[-> ->]|[? O1]] [[-> ?]|[? O2]]; simplify_eq; [done| | |by eauto].
      all: destruct Hfree; eexists; eauto.
  - intros br Hbr. split.
    + intros (b & Hb & Ho). rewrite HO in Ho. exists b. naive_solver.
    + intros (b & Hb & Ho). exists b. rewrite HO. split; [done|]. right.
      split; [intros ->; by destruct (Hun br)|done].
Qed.

(** Taking a badge whose owner could move elsewhere. *)
Lemma augment_move branch owner bi s s' :
  ready branch s → bi < nb → fresh s bi → edge branch bi →
  owned (badgeMatch s) bi owner →
  wf s' → augmented owner (mark bi s) s' →
  augmented branch s (assign bi branch s').
Proof.
  intros [Hwf [He Hi] Hfree] Hbi Hfr Hedge Hown Hwf' [Hkeep (b0 & Fb0 & Ob0) [He' Hi'] Hsame].
  assert (HV : ∀ b, vis (mark bi s) b ↔ b = bi ∨ vis s b) by (intros; by apply vis_mark).
  assert (HF : ∀ b, fresh (mark bi s) b ↔ b ≠ bi ∧ fresh s b)
    by (intros b; unfold fresh; rewrite HV; naive_solver).
  assert (HO : ∀ b c, owned (badgeMatch (assign bi branch s')) b c ↔
    (b = bi ∧ c = branch) ∨ (b ≠ bi ∧ owned (badgeMatch s') b c))
    by (intros; by apply owned_assign).
  assert (Hne : branch ≠ owner) by (intros ->; apply Hfree; by exists bi).
  assert (Hold : ∀ b, fresh s b → b ≠ bi → ¬ owned (badgeMatch s') b branch).
  { intros b Fb Hb Ob. apply Hfree.
    destruct (proj1 (Hsame branch Hne)) as (b1 & [? F1]%HF & O1);
      [exists b; by rewrite HF|]. by exists b1. }
  apply HF in Fb0 as [Hb0 Fb0].
  split.
  - intros b Hb. simpl. rewrite list_lookup_insert_ne by (intros ->; by apply Hfr).
    rewrite Hkeep by (apply HV; by right). done.
  - exists bi. rewrite HO. naive_solver.
  - split.
    + intros b br Fb. rewrite HO. intros [[-> ->]|[Hb Ob]]; [done|].
      apply He'; [by rewrite HF|done].
    + intros b1 b2 br F1 F2. rewrite !HO.
      intros [[-> ->]|[? O1]] [[-> ?]|[? O2]]; simplify_eq; [done| | |].
      * by destruct (Hold b2).
      * by destruct (Hold b1).
      * by apply (Hi' b1 b2 br); [apply HF..| |].
  - intros br Hbr. split.
    + intros (b & Fb & [[-> ->]|[Hb Ob]]%HO); [done|].
      destruct (decide (br = owner)) as [->|Hbo]; [by exists bi|].
      destruct (proj1 (Hsame br Hbo)) as (b1 & [? F1]%HF & O1); [|by exists b1].
      exists b. by rewrite HF.
    + intros (b & Fb & Ob). destruct (decide (br = owner)) as [->|Hbo].
      { exists b0. rewrite HO. naive_solver. }
      destruct (proj2 (Hsame br Hbo)) as (b1 & [? F1]%HF & O1).
      { exists b. rewrite HF. split_and!; [|done..].
        intros ->. apply Hbo. eapply owned_fun; eauto. }
      exists b1. rewrite HO. naive_solver.
Qed.

(** A failed detour before a successful augmentation is harmless. *)
Lemma augment_weaken branch s s' f :
  ready branch s → badgeMatch s' = badgeMatch s → (∀ b, vis s b → vis s' b) →
  augmented branch s' f → augmented branch s f.
Proof.
  intros [Hwf [He Hi] Hfree] HM Hgrow [Hkeep (b0 & Fb0 & Ob0) [He' Hi'] Hsame].
  rewrite HM in Hkeep, Hsame.
  assert (HF : ∀ b, fresh s' b → fresh s b) by (unfold fresh; naive_solver).
  assert (Hclash : ∀ b1 b2 br, fresh s' b1 → fresh s b2 → ¬ fresh s' b2 →
    owned (badgeMatch f) b1 br → owned (badgeMatch f) b2 br → False).
  { intros b1 b2 br F1 F2 V2%dec_stable O1 O2. unfold owned in O2. rewrite Hkeep in O2 by done.
    destruct (decide (br = branch)) as [->|Hbr]; [apply Hfree; by exists b2|].
    destruct (proj1 (Hsame br Hbr)) as (b3 & F3 & O3); [by exists b1|].
    apply F3. by rewrite (Hi b3 b2 br). }
  split.
  - intros b Hb. apply Hkeep. auto.
  - exists b0. auto.
  - split.
    + intros b br Fb Ob. destruct (decide (fresh s' b)) as [F|V%dec_stable]; [auto|].
      unfold owned in Ob. rewrite Hkeep in Ob by done. by apply He.
    + intros b1 b2 br F1 F2 O1 O2.
      destruct (decide (fresh s' b1)) as [F1'|V1], (decide (fresh s' b2)) as [F2'|V2].
      * by eapply Hi'.
      * by destruct (Hclash b1 b2 br).
      * by destruct (Hclash b2 b1 br).
      * apply dec_stable in V1, V2. unfold owned in O1, O2.
        rewrite Hkeep in O1, O2 by done. by apply (Hi b1 b2 br).
  - intros br Hbr. split; intros (b & Fb & Ob).
    + destruct (decide (fresh s' b)) as [F|V%dec_stable].
      * destruct (proj1 (Hsame br Hbr)) as (b1 & ? & ?); [by exists b|]. exists b1. auto.
      * exists b. split; [done|]. unfold owned in *. by rewrite <-Hkeep.
    + destruct (decide (fresh s' b)) as [F|V%dec_stable].
      * destruct (proj2 (Hsame br Hbr)) as (b1 & ? & ?); [by exists b|]. exists b1. auto.
      * exists b. split; [done|]. unfold owned in *. by rewrite Hkeep.
Qed.

Lemma closed_refl s : closed s s.
Proof. split; [done|done|]. intros b ? []. done. Qed.

(** A failed search through [bi] followed by a failed search of the rest. *)
Lemma closed_through bi owner s s' f :
  wf s → bi < nb → owned (badgeMatch s) bi owner →
  closed (mark bi s) s' → (∀ b, edge owner b → vis s' b) → closed s' f →
  closed s f.
Proof.
  intros Hwf Hbi Hown [HM1 Hg1 Hs1] Hrow [HM2 Hg2 Hs2]. split.
  - rewrite HM2. by rewrite HM1.
  - intros b Hb. apply Hg2, Hg1, vis_mark; auto.
  - intros b Vb Fb.
    destruct (decide (vis s' b)) as [V'|F']; [|rewrite HM1 in Hs2; by apply Hs2].
    destruct (decide (vis (mark bi s) b)) as [[->|?]%vis_mark|F1]; [|done..|].
    + exists owner. auto.
    + destruct (Hs1 b V' F1) as (br & ? & ?). exists br. auto.
Qed.

Lemma tryRow_ok rec k branch row s :
  rec_ok rec k → ready branch s → unvisited s < S k →
  (∀ b, b ∈ row → edge branch b) →
  outcome branch row s (tryRow rec branch row s).
Proof using rows_in_range.
  intros Hrec. revert s. induction row as [|bi row IH]; intros s Hrd Hk Hrow; simpl.
  { split; [apply Hrd|]. split; [apply closed_refl|set_solver]. }
  assert (Hedge : edge branch bi) by (apply Hrow; left).
  assert (Hbi := rows_in_range _ _ Hedge).
  assert (Hrow' : ∀ b, b ∈ row → edge branch b) by (intros; apply Hrow; by right).
  destruct (visited s !! bi) as [[]|] eqn:Hv; cycle 1.
  2: { apply lookup_ge_None in Hv. rewrite (wf_vis _ (rd_wf _ _ Hrd)) in Hv. lia. }
  2: { destruct (IH s Hrd Hk Hrow') as [Hwf' Hout]. split; [done|].
       destruct (tryRow rec branch row s) as [[] f]; simpl in *; [done|].
       destruct Hout as [Hc Hr]. split; [done|].
       intros b [->|?]%elem_of_cons; [by apply (cl_grow _ _ Hc)|auto]. }
  assert (Hfr : fresh s bi) by (unfold fresh, vis; congruence).
  assert (Hwf := rd_wf _ _ Hrd).
  destruct (badgeMatch s !! bi) as [[owner|]|] eqn:Hm; cycle 1.
  1,2: split; [by apply wf_assign, wf_mark|]; simpl;
       apply augment_free; unfold owned; naive_solver.
  assert (Hmk := unvisited_mark bi s Hwf Hbi Hfr).
  assert (Hrd1 : ready owner (mark bi s)).
  { split; [by apply wf_mark|apply Hrd|]. intros (b & Fb & Ob). apply Fb, vis_mark; [done..|].
    left. by apply (mo_inj _ _ (rd_match _ _ Hrd) b bi owner). }
  destruct (Hrec owner (mark bi s) Hrd1) as [Hwf1 Hout1]; [lia|].
  destruct (rec owner (mark bi s)) as [[] s']; simpl in *.
  { split; [by apply wf_assign|]. by apply augment_move with owner. }
  destruct Hout1 as [Hc1 Hr1].
  assert (Hg : ∀ b, vis s b → vis s' b)
    by (intros b ?; apply (cl_grow _ _ Hc1), vis_mark; auto).
  assert (HM : badgeMatch s' = badgeMatch s) by (apply (cl_same _ _ Hc1)).
  assert (Hrd2 : ready branch s').
  { split; [done|rewrite HM; apply Hrd|]. rewrite HM. intros (b & Fb & Ob).
    apply (rd_free _ _ Hrd). exists b. unfold fresh in *. naive_solver. }
  destruct (IH s' Hrd2) as [Hwf2 Hout2]; [pose proof (unvisited_grow _ _ Hg); lia|done|].
  split; [done|]. destruct (tryRow rec branch row s') as [[] f]; simpl in *.
  - by apply augment_weaken with s'.
  - destruct Hout2 as [Hc2 Hr2]. split.
    + apply closed_through with bi owner s'; [done..| |done].
      intros b Hb%edge_row_of. auto.
    + intros b [->|?]%elem_of_cons; [|auto].
      apply (cl_grow _ _ Hc2), (cl_grow _ _ Hc1), vis_mark; auto.
Qed.

Lemma tryAssign_ok fuel : rec_ok (tryAssign fuel) fuel.
Proof using rows_in_range.
  induction fuel as [|fuel IH]; intros br s Hrd Hlt; [lia|].
  apply tryRow_ok with fuel; [done..|]. intros b. apply edge_row_of.
Qed.

(** ** The outer loop: a matching and a vertex cover of the same size *)

Definition all (_ : nat) : Prop := True.

Definition covers (A C : gset nat) (br : nat) : Prop :=
  ∀ b, edge br b → br ∈ A ∨ b ∈ C.

Record loop_inv (branches : list nat) (acc : nat * list (option nat)) : Prop := LoopInv {
  li_len : length acc.2 = nb;
  li_match : matched_on all acc.2;
  li_seen : ∀ br, holds all acc.2 br → br ∈ branches;
  li_size : ∃ L, NoDup L ∧ length L = acc.1 ∧ ∀ br, br ∈ L ↔ holds all acc.2 br;
  li_cover : ∃ A C : gset nat, size A + size C ≤ acc.1 ∧ ∀ br, br ∈ branches → covers A C br;
}.

Definition start (M : list (option nat)) : kuhn_state := KuhnState (replicate nb false) M.

Lemma fresh_start M b : fresh (start M) b.
Proof. unfold fresh, vis, start; simpl. intros H%lookup_replicate. naive_solver. Qed.

Lemma holds_fresh_start M M' br : holds (fresh (start M)) M' br ↔ holds all M' br.
Proof. split; intros (b & _ & Ho); exists b; (split; [|done]); [done|apply fresh_start]. Qed.

Lemma unvisited_start M : unvisited (start M) < S nb.
Proof.
  unfold unvisited. apply Nat.lt_succ_r.
  rewrite <-(length_seq nb 0) at 2. apply length_filter.
Qed.

(** The cover after a failed search: trade the branches of the alternating tree
    for the badges it visited. *)
Lemma cover_shift (A C V T : gset nat) (own : nat → option nat) :
  (∀ b1 b2 br, own b1 = Some br → own b2 = Some br → b1 = b2) →
  (∀ b, b ∈ V → b ∉ C → ∃ br, own b = Some br ∧ br ∈ A ∧ br ∈ T) →
  size (A ∖ T) + size (C ∪ V) ≤ size A + size C.
Proof.
  intros Hinj HV. set (I := omap own (elements (V ∖ C))).
  destruct (omap_inj_NoDup own (elements (V ∖ C))) as [Hnd Hlen]; [done| |apply NoDup_elements|].
  { intros b Hb. destruct (HV b) as (br & -> & _); set_solver. }
  fold I in Hnd, Hlen. change (length (elements (V ∖ C))) with (size (V ∖ C)) in Hlen.
  assert (HI : ∀ br, br ∈ I → br ∈ A ∧ br ∈ T).
  { intros br (b & Hb & E)%list_elem_of_omap.
    destruct (HV b) as (br' & E' & ? & ?); [set_solver..|]. by simplify_eq. }
  assert (HsI : size (list_to_set I : gset nat) = length I) by by apply size_list_to_set.
  assert (H1 : size (A ∖ T) ≤ size (A ∖ list_to_set I)) by (apply subseteq_size; set_solver).
  rewrite (size_difference A (list_to_set I)) in H1 by set_solver.
  assert (size (list_to_set I : gset nat) ≤ size A) by (apply subseteq_size; set_solver).
  replace (C ∪ V) with (C ∪ (V ∖ C))
    by (apply set_eq; intros x; destruct (decide (x ∈ C)); set_solver).
  rewrite (size_union C) by set_solver. lia.
Qed.

Lemma loop_inv_success branches m M branch s :
  loop_inv branches (m, M) → branch ∉ branches → wf s →
  augmented branch (start M) s →
  loop_inv (branches ++ [branch]) (S m, badgeMatch s).
Proof.
  intros [Hlen [He Hi] Hseen (L & HL & HLl & HLh) (A & C & Hsz & Hcov)] Hbr Hwf [_ Hnew [He' Hi'] Hsame].
  simpl in *. rewrite holds_fresh_start in Hnew.
  assert (Hs : ∀ br, br ≠ branch → holds all (badgeMatch s) br ↔ holds all M br)
    by (intros br Hne; rewrite <-!(holds_fresh_start M); by apply Hsame).
  split; simpl.
  - apply Hwf.
  - split; [intros b br _; apply He', fresh_start|].
    intros b1 b2 br _ _. apply Hi'; apply fresh_start.
  - intros br Hh. destruct (decide (br = branch)) as [->|Hne]; [set_solver|].
    apply elem_of_app. left. by apply Hseen, Hs.
  - exists (branch :: L). split_and!.
    + constructor; [|done]. rewrite HLh. intros ?%Hseen. done.
    + simpl. by f_equal.
    + intros br. rewrite elem_of_cons, HLh.
      destruct (decide (br = branch)) as [->|Hne]; [naive_solver|]. rewrite Hs by done. naive_solver.
  - exists ({[branch]} ∪ A), C. split.
    + rewrite size_union_alt, size_singleton. assert (size (A ∖ {[branch]}) ≤ size A)
        by (apply subseteq_size; set_solver). lia.
    + intros br [?%Hcov| ->%list_elem_of_singleton]%elem_of_app b Hb; [|set_solver].
      destruct (H b Hb); set_solver.
Qed.

Lemma loop_inv_failure branches m M branch s :
  loop_inv branches (m, M) → branch ∉ branches → wf s →
  closed (start M) s → (∀ b, edge branch b → vis s b) →
  loop_inv (branches ++ [branch]) (m, badgeMatch s).
Proof.
  intros [Hlen [He Hi] Hseen HL (A & C & Hsz & Hcov)] Hbr Hwf [-> _ Hstep] Hrow. simpl in *.
  split; simpl; [done|done| |done|].
  { intros br ?%Hseen. set_solver. }
  set (V := list_to_set (filter (vis s) (seq 0 nb)) : gset nat).
  assert (HV : ∀ b, b ∈ V ↔ vis s b).
  { intros b. unfold V. rewrite elem_of_list_to_set, list_elem_of_filter, elem_of_seq.
    split; [naive_solver|]. intros Hb. split; [done|].
    apply lookup_lt_Some in Hb. rewrite (wf_vis _ Hwf) in Hb. lia. }
  assert (HS : ∀ b, vis s b → ∃ br, owned M b br ∧ ∀ b', edge br b' → vis s b')
    by (intros b Hb; apply Hstep; [done|apply fresh_start]).
  set (own b := mjoin (M !! b)).
  assert (Hown : ∀ b br, own b = Some br ↔ owned M b br).
  { intros b br. unfold own, owned. destruct (M !! b) as [[]|]; naive_solver. }
  set (T := {[branch]} ∪ list_to_set (omap own (elements V)) : gset nat).
  exists (A ∖ T), (C ∪ V). split.
  - etrans; [apply (cover_shift A C V T own)|done].
    + intros b1 b2 br O1%Hown O2%Hown. by apply (Hi b1 b2 br).
    + intros b Hb Hc. destruct (HS b) as (br & Ho & _); [by apply HV|].
      exists br. split_and!; [by apply Hown| |].
      * destruct (Hcov br (Hseen br (ex_intro _ b (conj I Ho))) b); [by apply He|done..].
      * apply elem_of_union_r, elem_of_list_to_set, list_elem_of_omap.
        exists b. rewrite Hown. set_solver.
  - intros br Hbr' b Hb.
    destruct (decide (br ∈ T)) as [[ ->%elem_of_singleton|HT]%elem_of_union|HT].
    + right. apply elem_of_union_r, HV. auto.
    + apply elem_of_list_to_set, list_elem_of_omap in HT as (b' & Hb' & O%Hown).
      apply elem_of_elements, HV in Hb'. destruct (HS b' Hb') as (br' & O' & Hv).
      assert (br' = br) as -> by (by eapply owned_fun). right. apply elem_of_union_r, HV. auto.
    + apply elem_of_app in Hbr' as [Hbr'| ->%list_elem_of_singleton]; [|set_solver].
      destruct (Hcov br Hbr' b Hb); set_solver.
Qed.

Lemma loop_inv_step branches acc branch :
  loop_inv branches acc → branch ∉ branches →
  loop_inv (branches ++ [branch]) (matchBranch acc branch).
Proof using rows_in_range.
  destruct acc as [m M]. intros Hinv Hbr. unfold matchBranch. simpl fst; simpl snd.
  fold (start M).
  assert (Hrd : ready branch (start M)).
  { destruct Hinv as [Hlen [He Hi] Hseen _ _]. split.
    - split; [simpl; by rewrite length_replicate|done].
    - split; [intros ? ? _; by apply He|intros ? ? ? _ _; by apply Hi].
    - rewrite holds_fresh_start. intros ?%Hseen. done. }
  destruct (tryAssign_ok (S nb) branch (start M) Hrd (unvisited_start M)) as [Hwf Hout].
  destruct (tryAssign (S nb) branch (start M)) as [[] s]; simpl in *.
  - by apply loop_inv_success with M.
  - destruct Hout as [Hc Hr]. apply loop_inv_failure with M; [done..|].
    intros b Hb%edge_row_of. auto.
Qed.

Lemma loop_inv_all branches : NoDup branches → loop_inv branches (matchLoop branches).
Proof using rows_in_range.
  unfold matchLoop. induction branches as [|br l IH] using rev_ind; intros Hnd.
  - split; simpl; [by rewrite length_replicate|..].
    + split; unfold owned; [intros b br _ H%lookup_replicate|intros ? ? ? _ _ H%lookup_replicate]; naive_solver.
    + intros br (b & _ & H%lookup_replicate). naive_solver.
    + exists []. split_and!; [constructor|done|]. intros br. split; [set_solver|].
      intros (b & _ & H%lookup_replicate). naive_solver.
    + exists ∅, ∅. split; [done|]. set_solver.
  - rewrite foldl_snoc. apply NoDup_app in Hnd as (Hnd & Hbr & _).
    apply loop_inv_step; [auto|]. set_solver.
Qed.

(** Weak duality: a cover bounds every matching. *)
Lemma matching_le_cover (A C : gset nat) N :
  is_matching N → (∀ p, p ∈ N → p.1 ∈ A ∨ p.2 ∈ C) → length N ≤ size A + size C.
Proof.
  intros (H1 & H2 & _) Hcov. revert A C Hcov.
  induction N as [|[br b] N IH]; intros A C Hcov; simpl; [lia|].
  apply NoDup_cons in H1 as [Hb1 H1], H2 as [Hb2 H2]. simpl in *.
  assert (Hnot : ∀ p, p ∈ N → p.1 ≠ br ∧ p.2 ≠ b).
  { intros p Hp. split; intros <-; [apply Hb1|apply Hb2]; by apply list_elem_of_fmap_2. }
  destruct (Hcov (br, b)) as [HA|HC]; [left|..]; simpl in *.
  - rewrite (size_remove A br HA). apply le_n_S, (IH H1 H2).
    intros p Hp. destruct (Hnot p Hp). destruct (Hcov p); [by right|set_solver..].
  - rewrite (size_remove C b HC), Nat.add_succ_r. apply le_n_S, (IH H1 H2).
    intros p Hp. destruct (Hnot p Hp). destruct (Hcov p); [by right|set_solver..].
Qed.

Lemma pick_owners M L :
  (∀ br, br ∈ L → holds all M br) →
  ∃ N, N.*1 = L ∧ ∀ p, p ∈ N → owned M p.2 p.1.
Proof.
  induction L as [|br L IH]; intros HL; [exists []; set_solver|].
  destruct IH as (N & <- & HN); [set_solver|].
  destruct (HL br) as (b & _ & Hb); [left|].
  exists ((br, b) :: N). split; [done|]. intros p [->|?]%elem_of_cons; auto.
Qed.

Lemma owned_NoDup M N :
  NoDup N.*1 → (∀ p, p ∈ N → owned M p.2 p.1) → NoDup N.*2.
Proof.
  induction N as [|[br b] N IH]; intros Hnd HN; [constructor|].
  apply NoDup_cons in Hnd as [Hbr Hnd]. constructor; [|apply IH; set_solver]. simpl.
  intros ([br' b'] & -> & Hp)%list_elem_of_fmap_1.
  apply Hbr, list_elem_of_fmap. exists (br', b'). split; [|done].
  apply (owned_fun M b'); [apply (HN (br, b')); left|apply (HN (br', b')); by right].
Qed.

(** The loop returns the size of a maximum matching. *)
Lemma maxMatching_spec :
  (∃ N, is_matching N ∧ length N = maxMatching) ∧
  (∀ N, is_matching N → length N ≤ maxMatching).
Proof using rows_in_range.
  destruct (loop_inv_all (seq 0 (length adjacency))) as
    [_ [He Hi] _ (L & HL & HLl & HLh) (A & C & Hsz & Hcov)]; [apply NoDup_seq|].
  fold maxMatching in HLl, Hsz. split.
  - destruct (pick_owners (matchLoop (seq 0 (length adjacency))).2 L) as (N & <- & HN);
      [intros; by apply HLh|].
    exists N. split; [|by rewrite <-HLl, length_fmap].
    split_and!; [done|by eapply owned_NoDup|]. intros p Hp. by apply He, HN.
  - intros N HN. etrans; [apply (matching_le_cover A C N HN)|done].
    intros p Hp. assert (He' := proj2 (proj2 HN) p Hp). apply Hcov; [|done].
    destruct He' as (row & Hrow & _). apply elem_of_seq. apply lookup_lt_Some in Hrow. lia.
Qed.

End Kuhn.
