(* ===== verification/Policy.v ===== *)
(** * Disclosure policies

    The policy trees of lib/oidc-policy.ts: structural bounds, depth, mentioned
    badge types and evaluation against a set of badges.  [sat] is the declarative
    meaning of a policy; [evaluate] decides it. *)

From S2P Require Import Prelude Matching.

(** ** Data *)

(** [string | number | boolean] *)
Inductive PolicyAttrValue :=
  | AttrString (s : string)
  | AttrNumber (x : JsNum.t)
  | AttrBoolean (b : bool).

(** [===] on attribute values. *)
Definition attr_eqb (v w : PolicyAttrValue) : bool :=
  match v, w with
  | AttrString s, AttrString t => bool_decide (s = t)
  | AttrNumber x, AttrNumber y => JsNum.eqb x y
  | AttrBoolean b, AttrBoolean c => Bool.eqb b c
  | _, _ => false
  end.

Record BadgeLeaf := {
  leaf_type : string;
  leaf_where : option (gmap string PolicyAttrValue);
  leaf_maxAgeDays : option JsNum.t;
}.

Inductive PolicyNode :=
  | Leaf (leaf : BadgeLeaf)
  | AllOf (nodes : list PolicyNode)
  | AnyOf (nodes : list PolicyNode)
  | AtLeast (n : Z) (nodes : list PolicyNode).

Record UserBadge := {
  badge_id : string;
  badge_type : string;
  badge_attributes : gmap string PolicyAttrValue;
  badge_issuedAt : JsNum.t;
}.

(** Induction over policy trees with the hypothesis for every child. *)
Lemma PolicyNode_tree_ind (P : PolicyNode → Prop) :
  (∀ leaf, P (Leaf leaf)) →
  (∀ cs, Forall P cs → P (AllOf cs)) →
  (∀ cs, Forall P cs → P (AnyOf cs)) →
  (∀ n cs, Forall P cs → P (AtLeast n cs)) →
  ∀ p, P p.
Proof.
  intros HL HA HO HN. fix IH 1. intros [leaf|cs|cs|n cs]; [apply HL|apply HA|apply HO|apply HN];
    induction cs as [|c cs IHcs]; constructor; auto.
Qed.

(** ** Structural bounds *)

Definition MAX_POLICY_DEPTH : Z := 8.
Definition MAX_ATLEAST_N : Z := 16.
Definition MAX_NODE_CHILDREN : Z := 16.
Definition MAX_POLICY_NODES : Z := 64.

(** The closure variables of [policyBoundsViolation]: the node counter and the
    first violation. *)
Record walk_state := WalkState { total : Z; overflow : option string }.

Definition hit (st : walk_state) (reason : string) : walk_state :=
  WalkState (total st) (Some reason).

Fixpoint walk (n : PolicyNode) (st : walk_state) : walk_state :=
  let walkAll := fix walkAll (children : list PolicyNode) (st : walk_state) :=
    match children with
    | [] => st
    | child :: rest =>
        let st := walk child st in
        match overflow st with Some _ => st | None => walkAll rest st end
    end in
  let visit (children : list PolicyNode) (st : walk_state) :=
    if (Z.of_nat (length children) >? MAX_NODE_CHILDREN)%Z
    then hit st "policy node has too many children"
    else walkAll children st in
  match overflow st with
  | Some _ => st
  | None =>
      let st := WalkState (total st + 1) None in
      if (total st >? MAX_POLICY_NODES)%Z then hit st "policy has too many nodes"
      else
        match n with
        | Leaf _ => st
        | AllOf children => visit children st
        | AnyOf children => visit children st
        | AtLeast k children =>
            if (k >? MAX_ATLEAST_N)%Z then hit st "atLeast.n exceeds the maximum"
            else visit children st
        end
  end.

Definition policyBoundsViolation (node : PolicyNode) : option string :=
  overflow (walk node (WalkState 0 None)).

(** [policyDepth] and its [maxChildDepth]. *)
Definition maxChildDepth (depth : PolicyNode → Z) (children : list PolicyNode) : Z :=
  (fix go (max : Z) (cs : list PolicyNode) : Z :=
     match cs with
     | [] => max
     | c :: cs' => let d := depth c in go (if (d >? max)%Z then d else max) cs'
     end) 0%Z children.

Fixpoint policyDepth (node : PolicyNode) : Z :=
  match node with
  | Leaf _ => 1
  | AllOf cs => 1 + maxChildDepth policyDepth cs
  | AnyOf cs => 1 + maxChildDepth policyDepth cs
  | AtLeast _ cs => 1 + maxChildDepth policyDepth cs
  end.

(** [policyBadgeTypes]: a JavaScript [Set] filled by [collectTypes]. *)
Fixpoint collectTypes (node : PolicyNode) (out : list string) : list string :=
  let each := fix each (cs : list PolicyNode) (out : list string) :=
    match cs with [] => out | c :: cs' => each cs' (collectTypes c out) end in
  match node with
  | Leaf leaf => set_add (leaf_type leaf) out
  | AllOf cs => each cs out
  | AnyOf cs => each cs out
  | AtLeast _ cs => each cs out
  end.

Definition policyBadgeTypes (node : PolicyNode) : list string := collectTypes node [].

(** ** Evaluation *)

Definition SECONDS_PER_DAY : JsNum.t := JsNum.of_Z 86400.

Definition badgeSatisfiesLeaf (leaf : BadgeLeaf) (candidate : UserBadge) (now : JsNum.t) : bool :=
  bool_decide (badge_type candidate = leaf_type leaf) &&
  negb (match leaf_maxAgeDays leaf with
        | Some maxAgeDays =>
            JsNum.gtb (JsNum.sub now (badge_issuedAt candidate)) (JsNum.mul maxAgeDays SECONDS_PER_DAY)
        | None => false
        end) &&
  match leaf_where leaf with
  | Some w =>
      forallb (fun '(key, value) =>
        match badge_attributes candidate !! key with
        | Some v => attr_eqb v value
        | None => false
        end) (map_to_list w)
  | None => true
  end.

Definition leafSatisfied (leaf : BadgeLeaf) (badges : list UserBadge) (now : JsNum.t) : bool :=
  existsb (fun candidate => badgeSatisfiesLeaf leaf candidate now) badges.

(** The ascending indices of the badges that satisfy [p]. *)
Definition witnesses (p : UserBadge → bool) (badges : list UserBadge) : list nat :=
  filter (fun bi => from_option p false (badges !! bi) = true) (seq 0 (length badges)).

Fixpoint evaluate (policy : PolicyNode) (badges : list UserBadge) (now : JsNum.t) : bool :=
  match policy with
  | Leaf leaf => leafSatisfied leaf badges now
  | AllOf nodes => forallb (fun node => evaluate node badges now) nodes
  | AnyOf nodes => existsb (fun node => evaluate node badges now) nodes
  | AtLeast n nodes =>
      if (n <=? 0)%Z then true
      else
        let adjacency :=
          map (fun branch => witnesses (fun b => evaluate branch [b] now) badges) nodes in
        (n <=? Z.of_nat (maxMatching adjacency (length badges)))%Z
  end.

Definition maxDistinctBranchMatch (branches : list PolicyNode) (badges : list UserBadge)
    (now : JsNum.t) : nat :=
  maxMatching (map (fun branch => witnesses (fun b => evaluate branch [b] now) badges) branches)
    (length badges).

Lemma evaluate_atLeast n nodes badges now :
  evaluate (AtLeast n nodes) badges now =
  if (n <=? 0)%Z then true
  else (n <=? Z.of_nat (maxDistinctBranchMatch nodes badges now))%Z.
Proof. done. Qed.

(** ** Declarative meaning *)

Definition meets (leaf : BadgeLeaf) (b : UserBadge) (now : JsNum.t) : Prop :=
  badge_type b = leaf_type leaf ∧
  (∀ d, leaf_maxAgeDays leaf = Some d →
     JsNum.gtb (JsNum.sub now (badge_issuedAt b)) (JsNum.mul d SECONDS_PER_DAY) = false) ∧
  (∀ w key value, leaf_where leaf = Some w → w !! key = Some value →
     ∃ v, badge_attributes b !! key = Some v ∧ attr_eqb v value = true).

(** [n] branches are credited, each with a badge of its own that satisfies it alone. *)
Definition distinct_credits (branches : list (UserBadge → Prop)) (badges : list UserBadge)
    (N : list (nat * nat)) : Prop :=
  NoDup N.*1 ∧ NoDup N.*2 ∧
  ∀ br bi, (br, bi) ∈ N →
    ∃ P b, branches !! br = Some P ∧ badges !! bi = Some b ∧ P b.

Fixpoint sat (policy : PolicyNode) (badges : list UserBadge) (now : JsNum.t) : Prop :=
  match policy with
  | Leaf leaf => ∃ b, b ∈ badges ∧ meets leaf b now
  | AllOf nodes => foldr and True (map (fun node => sat node badges now) nodes)
  | AnyOf nodes => foldr or False (map (fun node => sat node badges now) nodes)
  | AtLeast n nodes =>
      ∃ N, distinct_credits (map (fun node b => sat node [b] now) nodes) badges N ∧
           (n <= Z.of_nat (length N))%Z
  end.

(** ** Evaluation decides the declarative meaning *)

Lemma badgeSatisfiesLeaf_meets leaf b now :
  badgeSatisfiesLeaf leaf b now = true ↔ meets leaf b now.
Proof.
  unfold badgeSatisfiesLeaf, meets. rewrite !andb_true_iff, bool_decide_eq_true, negb_true_iff.
  assert (Hw : match leaf_where leaf with
    | Some w => forallb (fun '(key, value) =>
        match badge_attributes b !! key with Some v => attr_eqb v value | None => false end)
        (map_to_list w)
    | None => true end = true ↔
    ∀ w key value, leaf_where leaf = Some w → w !! key = Some value →
      ∃ v, badge_attributes b !! key = Some v ∧ attr_eqb v value = true).
  { destruct (leaf_where leaf) as [w|]; [|naive_solver]. rewrite forallb_forall. split.
    - intros H w' key value [= <-] Hk. specialize (H (key, value)). simpl in H.
      destruct (badge_attributes b !! key) eqn:E;
        [|discriminate H; apply list_elem_of_In, elem_of_map_to_list; done].
      eexists. split; [done|]. apply H, list_elem_of_In, elem_of_map_to_list. done.
    - intros H [key value] Hin%list_elem_of_In%elem_of_map_to_list.
      destruct (H w key value eq_refl Hin) as (v & -> & Hv). done. }
  rewrite Hw. destruct (leaf_maxAgeDays leaf); naive_solver.
Qed.

Lemma elem_of_witnesses p badges bi :
  bi ∈ witnesses p badges ↔ ∃ b, badges !! bi = Some b ∧ p b = true.
Proof.
  unfold witnesses. rewrite list_elem_of_filter, elem_of_seq. split.
  - intros [Hp _]. destruct (badges !! bi) as [b|]; [|done]. naive_solver.
  - intros (b & Hb & Hp). apply lookup_lt_Some in Hb as Hlt. rewrite Hb. simpl. split; [done|lia].
Qed.

Lemma foldr_and_Forall {A} (P : A → Prop) l : foldr and True (map P l) ↔ Forall P l.
Proof. induction l; simpl; rewrite ?Forall_cons; [by split|]. naive_solver. Qed.

Lemma foldr_or_Exists {A} (P : A → Prop) l : foldr or False (map P l) ↔ Exists P l.
Proof. induction l; simpl; rewrite ?Exists_cons, ?Exists_nil; naive_solver. Qed.

(** The matchings of the adjacency list are the distinct credits. *)
Lemma matching_credits (p : PolicyNode → UserBadge → bool) (P : PolicyNode → UserBadge → Prop)
    nodes badges N :
  (∀ c b, c ∈ nodes → p c b = true ↔ P c b) →
  is_matching (map (fun c => witnesses (p c) badges) nodes) N ↔
  distinct_credits (map P nodes) badges N.
Proof.
  intros Hp. unfold is_matching, distinct_credits.
  assert (HE : ∀ br bi, edge (map (fun c => witnesses (p c) badges) nodes) br bi ↔
    ∃ Q b, map P nodes !! br = Some Q ∧ badges !! bi = Some b ∧ Q b).
  { intros br bi. unfold edge. setoid_rewrite lookup_map_Some. split.
    - intros (row & (c & Hc & ->) & (b & Hb & Hpb)%elem_of_witnesses).
      exists (P c), b. split_and!; [by exists c|done|].
      apply Hp; [by eapply list_elem_of_lookup_2|done].
    - intros (Q & b & (c & Hc & ->) & Hb & HQ). eexists. split; [by exists c|].
      apply elem_of_witnesses. exists b. split; [done|].
      apply Hp; [by eapply list_elem_of_lookup_2|done]. }
  setoid_rewrite HE. split; intros (H1 & H2 & H3); split_and!; [done..| |done|done|].
  - intros br bi Hin. apply (H3 (br, bi) Hin).
  - intros [br bi] Hin. by apply H3.
Qed.

(** [maxDistinctBranchMatch] is the largest number of credits. *)
Lemma maxDistinctBranchMatch_spec nodes badges now :
  (∃ N, distinct_credits (map (fun c b => evaluate c [b] now = true) nodes) badges N ∧
        length N = maxDistinctBranchMatch nodes badges now) ∧
  (∀ N, distinct_credits (map (fun c b => evaluate c [b] now = true) nodes) badges N →
        length N ≤ maxDistinctBranchMatch nodes badges now).
Proof.
  assert (HC : ∀ N, is_matching (map (fun c => witnesses (fun b => evaluate c [b] now) badges) nodes) N ↔
    distinct_credits (map (fun c b => evaluate c [b] now = true) nodes) badges N)
    by (intros N; by apply (matching_credits (fun c b => evaluate c [b] now))).
  setoid_rewrite <-HC. apply maxMatching_spec.
  intros br bi (row & (c & _ & ->)%lookup_map_Some & (b & Hb & _)%elem_of_witnesses).
  by eapply lookup_lt_Some.
Qed.

Lemma distinct_credits_ext (P Q : PolicyNode → UserBadge → Prop) nodes badges N :
  (∀ c b, c ∈ nodes → P c b ↔ Q c b) →
  distinct_credits (map P nodes) badges N ↔ distinct_credits (map Q nodes) badges N.
Proof.
  assert (Hdir : ∀ P Q : PolicyNode → UserBadge → Prop,
    (∀ c b, c ∈ nodes → P c b ↔ Q c b) →
    distinct_credits (map P nodes) badges N → distinct_credits (map Q nodes) badges N).
  { clear. intros P Q HPQ (H1 & H2 & H3). split_and!; [done..|].
    intros br bi Hin. destruct (H3 br bi Hin) as (R & b & (c & Hc & ->)%lookup_map_Some & Hb & HR).
    exists (Q c), b. split_and!; [apply lookup_map_Some; by exists c|done|].
    apply HPQ; [by eapply list_elem_of_lookup_2|done]. }
  intros H. split; apply Hdir; [done|]. intros c b Hc. by rewrite H.
Qed.

Lemma evaluate_sat policy badges now :
  evaluate policy badges now = true ↔ sat policy badges now.
Proof.
  revert badges. induction policy as [leaf|cs IH|cs IH|n cs IH] using PolicyNode_tree_ind;
    intros badges.
  - simpl. unfold leafSatisfied. rewrite existsb_exists.
    setoid_rewrite badgeSatisfiesLeaf_meets. by setoid_rewrite list_elem_of_In.
  - simpl. rewrite forallb_forall, foldr_and_Forall, Forall_forall. rewrite Forall_forall in IH.
    setoid_rewrite list_elem_of_In. setoid_rewrite list_elem_of_In in IH. naive_solver.
  - simpl. rewrite existsb_exists, foldr_or_Exists, Exists_exists. rewrite Forall_forall in IH.
    setoid_rewrite list_elem_of_In. setoid_rewrite list_elem_of_In in IH. naive_solver.
  - rewrite evaluate_atLeast. simpl. rewrite Forall_forall in IH.
    destruct (maxDistinctBranchMatch_spec cs badges now) as [(N & HN & HlN) Hmax].
    assert (HE : ∀ N, distinct_credits (map (fun c b => evaluate c [b] now = true) cs) badges N ↔
      distinct_credits (map (fun c b => sat c [b] now) cs) badges N)
      by (intros N'; apply distinct_credits_ext; intros; by apply IH).
    setoid_rewrite HE in Hmax. rewrite HE in HN.
    destruct (Z.leb_spec n 0) as [Hn|Hn]; [|rewrite Z.leb_le]; split.
    + intros _. exists N. split; [done|lia].
    + done.
    + intros H. exists N. split; [done|lia].
    + intros (N' & HN'%Hmax & Hle). lia.
Qed.

(** ** Disclosing more badges never breaks a satisfied policy *)

(** An injection of the badge positions that preserves the badges. *)
Lemma submseteq_positions (l k : list UserBadge) :
  l ⊆+ k → ∃ f : nat → nat, Inj (=) (=) f ∧ ∀ i b, l !! i = Some b → k !! f i = Some b.
Proof.
  intros [k' Hk]%submseteq_Permutation. symmetry in Hk.
  apply Permutation_inj in Hk as (_ & f & Hf & Hl). exists f. split; [done|].
  intros i b Hi. rewrite <-Hl. by apply lookup_app_l_Some.
Qed.

Lemma distinct_credits_positions branches l k f N :
  Inj (=) (=) f → (∀ i b, l !! i = Some b → k !! f i = Some b) →
  distinct_credits branches l N →
  distinct_credits branches k (prod_map id f <$> N).
Proof.
  intros Hf Hl (H1 & H2 & H3). split_and!.
  - rewrite <-list_fmap_compose. by erewrite list_fmap_ext by (intros ? [] ?; reflexivity).
  - rewrite <-list_fmap_compose.
    erewrite (list_fmap_ext (snd ∘ prod_map id f) (f ∘ snd)) by (intros ? [] ?; reflexivity).
    rewrite list_fmap_compose. by apply NoDup_fmap_2.
  - intros br bi ([br' bi'] & [= -> ->] & Hin)%list_elem_of_fmap_1.
    destruct (H3 br' bi' Hin) as (P & b & ? & ? & ?). exists P, b. auto.
Qed.

Lemma sat_mono policy l k now : l ⊆+ k → sat policy l now → sat policy k now.
Proof.
  intros Hlk. induction policy as [leaf|cs IH|cs IH|n cs IH] using PolicyNode_tree_ind; simpl.
  - intros (b & Hb & Hm). exists b. split; [|done].
    by eapply elem_of_submseteq.
  - rewrite !foldr_and_Forall, !Forall_forall. rewrite Forall_forall in IH. naive_solver.
  - rewrite !foldr_or_Exists, !Exists_exists. rewrite Forall_forall in IH. naive_solver.
  - intros (N & HN & Hn). destruct (submseteq_positions l k Hlk) as (f & Hf & Hl).
    exists (prod_map id f <$> N). split; [by apply distinct_credits_positions with l|].
    by rewrite length_fmap.
Qed.

Lemma evaluate_mono policy l k now :
  l ⊆+ k → evaluate policy l now = true → evaluate policy k now = true.
Proof. intros Hlk. rewrite !evaluate_sat. by apply sat_mono. Qed.

(** ** Bounds *)

(** The number of nodes of a tree, leaves and composites. *)
Fixpoint nodeCount (p : PolicyNode) : Z :=
  match p with
  | Leaf _ => 1
  | AllOf cs => 1 + foldr Z.add 0 (map nodeCount cs)
  | AnyOf cs => 1 + foldr Z.add 0 (map nodeCount cs)
  | AtLeast _ cs => 1 + foldr Z.add 0 (map nodeCount cs)
  end%Z.

(** Every node of the tree respects the breadth limits. *)
Fixpoint breadthOk (p : PolicyNode) : Prop :=
  match p with
  | Leaf _ => True
  | AllOf cs => (Z.of_nat (length cs) <= 16)%Z ∧ foldr and True (map breadthOk cs)
  | AnyOf cs => (Z.of_nat (length cs) <= 16)%Z ∧ foldr and True (map breadthOk cs)
  | AtLeast n cs =>
      (n <= 16)%Z ∧ (Z.of_nat (length cs) <= 16)%Z ∧ foldr and True (map breadthOk cs)
  end.

Definition sumCount (cs : list PolicyNode) : Z := foldr Z.add 0%Z (map nodeCount cs).

Lemma nodeCount_pos p : (0 < nodeCount p)%Z.
Proof.
  assert (Hs : ∀ cs, Forall (fun c => (0 < nodeCount c)%Z) cs →
    (0 <= foldr Z.add 0 (map nodeCount cs))%Z).
  { induction 1; simpl in *; lia. }
  induction p as [leaf|cs IH|cs IH|n cs IH] using PolicyNode_tree_ind; simpl;
    [lia|specialize (Hs cs IH); lia..].
Qed.

Lemma sumCount_nonneg cs : (0 <= sumCount cs)%Z.
Proof. unfold sumCount. induction cs as [|c cs IH]; simpl; [lia|]. pose proof (nodeCount_pos c). lia. Qed.

(** The child loop and the per-node checks of [walk]. *)
Fixpoint walkList (cs : list PolicyNode) (st : walk_state) : walk_state :=
  match cs with
  | [] => st
  | c :: rest =>
      let st := walk c st in
      match overflow st with Some _ => st | None => walkList rest st end
  end.

Definition walkChildren (cs : list PolicyNode) (st : walk_state) : walk_state :=
  if (Z.of_nat (length cs) >? MAX_NODE_CHILDREN)%Z
  then hit st "policy node has too many children" else walkList cs st.

Lemma walk_unfold p t :
  walk p (WalkState t None) =
  if (t + 1 >? MAX_POLICY_NODES)%Z
  then WalkState (t + 1) (Some "policy has too many nodes")
  else match p with
       | Leaf _ => WalkState (t + 1) None
       | AllOf cs | AnyOf cs => walkChildren cs (WalkState (t + 1) None)
       | AtLeast n cs =>
           if (n >? MAX_ATLEAST_N)%Z
           then WalkState (t + 1) (Some "atLeast.n exceeds the maximum")
           else walkChildren cs (WalkState (t + 1) None)
       end.
Proof. by destruct p. Qed.

Definition within (t count : Z) (ok : Prop) : Prop :=
  (t + count <= MAX_POLICY_NODES)%Z ∧ ok.

(** A walk within the limits counts the whole tree, and a walk that records no
    violation is within the limits. *)
Definition counted (run : walk_state → walk_state) (count : Z) (ok : Prop) : Prop :=
  ∀ t, (within t count ok → run (WalkState t None) = WalkState (t + count) None) ∧
       (overflow (run (WalkState t None)) = None → (t <= MAX_POLICY_NODES)%Z → within t count ok).

Lemma walkList_counted cs :
  Forall (fun c => counted (walk c) (nodeCount c) (breadthOk c)) cs →
  counted (walkList cs) (sumCount cs) (foldr and True (map breadthOk cs)).
Proof.
  unfold within. induction 1 as [|c cs Hc Hcs IH]; intros t; unfold within.
  { unfold sumCount; simpl. split; [intros _; f_equal; lia|intros; split; [lia|done]]. }
  cbn [walkList map foldr].
  change (sumCount (c :: cs)) with (nodeCount c + sumCount cs)%Z.
  pose proof (sumCount_nonneg cs). destruct (Hc t) as [Hc1 Hc2]. unfold within in *. split.
  - intros (Hle & Hb & Hbs). rewrite Hc1 by (split; [lia|done]). simpl.
    rewrite (proj1 (IH _)) by (split; [lia|done]). f_equal. lia.
  - destruct (overflow (walk c (WalkState t None))) eqn:E; [by rewrite E|]. intros Ho Ht.
    destruct (Hc2 eq_refl Ht) as [Hle Hb]. rewrite Hc1 in Ho by done.
    destruct (proj2 (IH _) Ho Hle). split; [lia|done].
Qed.

Lemma walkChildren_counted cs :
  counted (walkList cs) (sumCount cs) (foldr and True (map breadthOk cs)) →
  counted (walkChildren cs) (sumCount cs)
    ((Z.of_nat (length cs) <= 16)%Z ∧ foldr and True (map breadthOk cs)).
Proof.
  intros Hcs t. destruct (Hcs t) as [H1 H2]. unfold walkChildren, within, MAX_NODE_CHILDREN in *.
  destruct (Z.gtb_spec (Z.of_nat (length cs)) 16); simpl; split; try naive_solver lia.
Qed.

Lemma walk_counted p : counted (walk p) (nodeCount p) (breadthOk p).
Proof.
  induction p as [leaf|cs IH|cs IH|n cs IH] using PolicyNode_tree_ind; intros t;
    rewrite walk_unfold; unfold within, MAX_POLICY_NODES.
  { simpl. destruct (Z.gtb_spec (t + 1) 64); simpl; split; naive_solver lia. }
  all: destruct (walkChildren_counted cs (walkList_counted cs IH) (t + 1)%Z) as [H1 H2].
  all: unfold within, MAX_POLICY_NODES in *; cbn [nodeCount breadthOk];
    fold (sumCount cs); rewrite Z.add_assoc; pose proof (sumCount_nonneg cs).
  all: destruct (Z.gtb_spec (t + 1) 64); cbn [overflow]; [split; naive_solver lia|].
  1,2: split; [done|intros Ho _; apply H2; [done|lia]].
  unfold MAX_ATLEAST_N. destruct (Z.gtb_spec n 16); cbn [overflow]; [split; naive_solver lia|].
  split; [intros (? & ? & ?); by apply H1|]. intros Ho _. destruct (H2 Ho); [lia|]. done.
Qed.

Lemma policyBoundsViolation_None p :
  policyBoundsViolation p = None ↔ (nodeCount p <= MAX_POLICY_NODES)%Z ∧ breadthOk p.
Proof.
  unfold policyBoundsViolation. destruct (walk_counted p 0%Z) as [H1 H2]. unfold within in *. split.
  - intros H. by apply H2.
  - intros H. by rewrite H1.
Qed.

(** ** Depth and mentioned types *)

Fixpoint leaves (p : PolicyNode) : list BadgeLeaf :=
  match p with
  | Leaf leaf => [leaf]
  | AllOf cs | AnyOf cs | AtLeast _ cs => concat (map leaves cs)
  end.

Fixpoint collectAll (cs : list PolicyNode) (out : list string) : list string :=
  match cs with [] => out | c :: cs' => collectAll cs' (collectTypes c out) end.

Lemma collectTypes_spec p out x :
  x ∈ collectTypes p out ↔ x ∈ out ∨ x ∈ leaf_type <$> leaves p.
Proof.
  assert (Hall : ∀ cs, Forall (fun p => ∀ out, x ∈ collectTypes p out ↔
      x ∈ out ∨ x ∈ leaf_type <$> leaves p) cs →
    ∀ out, x ∈ collectAll cs out ↔ x ∈ out ∨ x ∈ leaf_type <$> concat (map leaves cs)).
  { induction 1 as [|c cs Hc Hcs IH]; intros out'; simpl; [set_solver|].
    rewrite IH, Hc, fmap_app, elem_of_app. naive_solver. }
  revert out. induction p as [leaf|cs IH|cs IH|n cs IH] using PolicyNode_tree_ind; intros out;
    [simpl; rewrite elem_of_set_add; set_solver|apply (Hall cs IH)..].
Qed.

Lemma collectTypes_NoDup p out : NoDup out → NoDup (collectTypes p out).
Proof.
  assert (Hall : ∀ cs, Forall (fun p => ∀ out, NoDup out → NoDup (collectTypes p out)) cs →
    ∀ out, NoDup out → NoDup (collectAll cs out)).
  { induction 1; intros; simpl; auto. }
  revert out. induction p as [leaf|cs IH|cs IH|n cs IH] using PolicyNode_tree_ind; intros out;
    [simpl; auto with minister|apply (Hall cs IH)..].
Qed.

(** ** Properties *)

(** C13: the evaluator decides the declarative meaning of a policy: a leaf needs a held badge
    that meets it, [allOf]/[anyOf] are conjunction and disjunction, and [atLeast n] holds
    exactly when [n] branches can be credited with pairwise distinct badges. *)
Theorem evaluate_decides_sat (policy : PolicyNode) (badges : list UserBadge) (now : JsNum.t) :
  evaluate policy badges now = true ↔ sat policy badges now.
Proof. apply evaluate_sat. Qed.

(** [maxDistinctBranchMatch] returns the size of a maximum matching of branches and badges:
    that many branches can be credited with distinct badges, and no crediting is larger. *)
Theorem branch_match_is_maximum (branches : list PolicyNode) (badges : list UserBadge)
    (now : JsNum.t) :
  let credited := distinct_credits (map (fun c b => evaluate c [b] now = true) branches) badges in
  (∃ N, credited N ∧ length N = maxDistinctBranchMatch branches badges now) ∧
  (∀ N, credited N → length N ≤ maxDistinctBranchMatch branches badges now).
Proof. apply maxDistinctBranchMatch_spec. Qed.

(** a policy that holds keeps holding when more badges are disclosed, in any order. *)
Theorem evaluate_monotone (policy : PolicyNode) (l k : list UserBadge) (now : JsNum.t) :
  l ⊆+ k → evaluate policy l now = true → evaluate policy k now = true.
Proof. apply evaluate_mono. Qed.

(** One badge meets both branches of a threshold of one; disclosing another badge in front of
    it keeps the policy satisfied. *)
Definition sample_badge (id type : string) : UserBadge :=
  {| badge_id := id; badge_type := type; badge_attributes := ∅; badge_issuedAt := JsNum.of_Z 0 |}.

Definition sample_leaf (type : string) : PolicyNode :=
  Leaf {| leaf_type := type; leaf_where := None; leaf_maxAgeDays := Some (JsNum.of_Z 30) |}.

Definition sample_threshold (n : Z) : PolicyNode :=
  AtLeast n [sample_leaf "oauth-account"; sample_leaf "oauth-account"].

Lemma evaluate_monotone_witness :
  evaluate (sample_threshold 1)
    [sample_badge "b2" "email-domain"; sample_badge "b1" "oauth-account"] (JsNum.of_Z 86400) = true.
Proof.
  apply (evaluate_monotone (sample_threshold 1) [sample_badge "b1" "oauth-account"]).
  - apply submseteq_cons. reflexivity.
  - vm_compute. reflexivity.
Defined.

(** A threshold of [n] needs [n] disclosed badges: one badge never counts for two branches. *)
Theorem threshold_needs_distinct_badges (n : Z) (branches : list PolicyNode)
    (badges : list UserBadge) (now : JsNum.t) :
  evaluate (AtLeast n branches) badges now = true →
  (n <= Z.of_nat (length badges))%Z ∧ (n <= Z.of_nat (length branches))%Z.
Proof.
  intros (N & (H1 & H2 & H3) & Hn)%evaluate_sat.
  assert (Hb : ∀ bi, bi ∈ N.*2 → bi ∈ seq 0 (length badges)).
  { intros bi ([br bi'] & -> & Hin)%list_elem_of_fmap_1.
    destruct (H3 _ _ Hin) as (P & b & _ & Hb%lookup_lt_Some & _). apply elem_of_seq. simpl. lia. }
  assert (Hc : ∀ br, br ∈ N.*1 → br ∈ seq 0 (length branches)).
  { intros br ([br' bi] & -> & Hin)%list_elem_of_fmap_1.
    destruct (H3 _ _ Hin) as (P & b & Hc%lookup_lt_Some & _ & _). rewrite length_map in Hc.
    apply elem_of_seq. simpl. lia. }
  apply NoDup_submseteq in Hb; [|done]. apply NoDup_submseteq in Hc; [|done].
  apply submseteq_length in Hb, Hc. rewrite length_fmap, length_seq in Hb, Hc. lia.
Qed.

Lemma threshold_needs_distinct_badges_witness :
  (2 <= Z.of_nat (length [sample_badge "b1" "oauth-account"; sample_badge "b2" "oauth-account"]))%Z ∧
  (2 <= Z.of_nat (length [sample_leaf "oauth-account"; sample_leaf "oauth-account"]))%Z.
Proof.
  apply (threshold_needs_distinct_badges 2
    [sample_leaf "oauth-account"; sample_leaf "oauth-account"]
    [sample_badge "b1" "oauth-account"; sample_badge "b2" "oauth-account"] (JsNum.of_Z 86400)).
  vm_compute. reflexivity.
Defined.

(** [policyBoundsViolation] accepts exactly the trees with at most 64 nodes in which every
    composite has at most 16 children and every threshold is at most 16, although the walk
    stops at the first violation. *)
Theorem bounds_check_exact (policy : PolicyNode) :
  policyBoundsViolation policy = None ↔
  (nodeCount policy <= MAX_POLICY_NODES)%Z ∧ breadthOk policy.
Proof. apply policyBoundsViolation_None. Qed.

(** [policyBadgeTypes] lists every badge type a leaf of the policy mentions, and no other,
    without repetition. *)
Theorem badge_types_exact (policy : PolicyNode) :
  NoDup (policyBadgeTypes policy) ∧
  ∀ t, t ∈ policyBadgeTypes policy ↔ ∃ leaf, leaf ∈ leaves policy ∧ leaf_type leaf = t.
Proof.
  split; [apply collectTypes_NoDup; constructor|]. intros t.
  unfold policyBadgeTypes. rewrite collectTypes_spec, list_elem_of_fmap. set_solver.
Qed.
