(* ===== verification/Selection.v ===== *)
(** * Minimal-anonymity selection

    [selectMinimalAnonymitySet] of lib/oidc-policy.ts: the ranked disclosures that
    the consent screen offers for a policy, and the badge types it reports missing. *)

From S2P Require Import Prelude Matching Policy.

(** ** Data *)

(** [types] is a JavaScript [Set]: a duplicate-free list in insertion order. *)
Record Selection := {
  sel_badgeIds : list string;
  sel_types : list string;
}.

Record SelectionResult := {
  satisfiable : bool;
  selectedBadgeIds : list string;
  alternatives : list (list string);
  gaps : list string;
}.

Definition MAX_ALTERNATIVES : nat := 16.
Definition MAX_ATLEAST_COMBINATIONS : Z := 500.

(** ** Ranking *)

(** [holderCounts.get(t) ?? 0] *)
Definition holders (holderCounts : gmap string Z) (t : string) : Z :=
  default 0%Z (holderCounts !! t).

Definition anonymityVector (types : list string) (holderCounts : gmap string Z) : list Z :=
  js_sort Z.sub (map (holders holderCounts) types).

(** The loop over the two vectors; a missing position counts as +Infinity.  Only
    the sign of the result is used, so an infinite difference is [1] or [-1]. *)
Fixpoint compareVectors (va vb : list Z) : Z :=
  match va, vb with
  | [], [] => 0
  | [], _ :: _ => -1
  | _ :: _, [] => 1
  | ai :: va', bi :: vb' => if (ai =? bi)%Z then compareVectors va' vb' else (bi - ai)%Z
  end.

(** [<] on strings compares code units. *)
Definition compareStrings (a b : string) : Z :=
  if String.ltb a b then -1 else if String.ltb b a then 1 else 0.

Definition sortStrings (l : list string) : list string := js_sort compareStrings l.
(** [join] with the NUL separator of the source. *)
Definition joinNul (l : list string) : string := String.concat (String (Ascii.ascii_of_nat 0) EmptyString) l.

Definition compareSelections (holderCounts : gmap string Z) (a b : Selection) : Z :=
  let byVector := compareVectors (anonymityVector (sel_types a) holderCounts)
                                 (anonymityVector (sel_types b) holderCounts) in
  if (byVector =? 0)%Z then
    let byLength := (Z.of_nat (length (sel_badgeIds a)) - Z.of_nat (length (sel_badgeIds b)))%Z in
    if (byLength =? 0)%Z then
      compareStrings (joinNul (sortStrings (sel_types a))) (joinNul (sortStrings (sel_types b)))
    else byLength
  else byVector.

Definition bestOf (holderCounts : gmap string Z) (selections : list Selection) : option Selection :=
  match selections with
  | [] => None
  | first :: rest =>
      Some (foldl (fun best s => if (compareSelections holderCounts s best <? 0)%Z then s else best)
              first rest)
  end.

Definition mergeSelections (parts : list Selection) : Selection :=
  {| sel_badgeIds := foldl (fun ids part => set_add_all (sel_badgeIds part) ids) [] parts;
     sel_types := foldl (fun types part => set_add_all (sel_types part) types) [] parts |}.

Definition selectionKey (s : Selection) : string := joinNul (sortStrings (sel_badgeIds s)).

Definition dedupeSelections (selections : list Selection) : list Selection :=
  (fix go (seen : gset string) (l : list Selection) : list Selection :=
     match l with
     | [] => []
     | sel :: l' =>
         let key := selectionKey sel in
         if decide (key ∈ seen) then go seen l' else sel :: go ({[key]} ∪ seen) l'
     end) ∅ selections.

Definition rankAndCap (holderCounts : gmap string Z) (selections : list Selection) : list Selection :=
  take MAX_ALTERNATIVES (dedupeSelections (js_sort (compareSelections holderCounts) selections)).

(** ** Combinations *)

(** The loop of [chooseCount] from [i], with [left] iterations to go. *)
Fixpoint chooseLoop (k : Z) (left : nat) (i result : Z) : Z :=
  match left with
  | O => result
  | S left' =>
      let result := (result * (k - i) / (i + 1))%Z in
      if (result >? MAX_ATLEAST_COMBINATIONS)%Z then MAX_ATLEAST_COMBINATIONS + 1
      else chooseLoop k left' (i + 1) result
  end.

Definition chooseCount (k n : Z) : Z :=
  if ((n <? 0) || (n >? k))%Z then 0
  else if ((n =? 0) || (n =? k))%Z then 1
  else chooseLoop k (Z.to_nat (Z.min n (k - n))) 0 1.

(** [pick(start, chosen)], on the items from [start] on. *)
Fixpoint pick {A} (n : nat) (items chosen : list A) : list (list A) :=
  if Nat.eqb (length chosen) n then [chosen]
  else match items with
       | [] => []
       | x :: rest => pick n rest (chosen ++ [x]) ++ pick n rest chosen
       end.

Definition nCombinations {A} (items : list A) (n : Z) : list (list A) :=
  if (n <=? 0)%Z then [[]]
  else if (n >? Z.of_nat (length items))%Z then []
  else pick (Z.to_nat n) items [].

(** ** Selections of a node *)

Fixpoint all_some {A} (l : list (option A)) : option (list A) :=
  match l with
  | [] => Some []
  | None :: _ => None
  | Some x :: l' => match all_some l' with Some xs => Some (x :: xs) | None => None end
  end.

Definition leafSelection (b : UserBadge) : Selection :=
  {| sel_badgeIds := [badge_id b]; sel_types := [badge_type b] |}.

Section Select.
Context (badges : list UserBadge) (holderCounts : gmap string Z) (now : JsNum.t).

(** The [isAtLeast] branch, from the children's best selections. *)
Definition atLeastSelections (n : Z) (childBests : list Selection) : list Selection :=
  if (n <=? 0)%Z then [{| sel_badgeIds := []; sel_types := [] |}]
  else if (Z.of_nat (length childBests) <? n)%Z then []
  else
    let sorted := js_sort (compareSelections holderCounts) childBests in
    let prefix := take (Nat.min (length sorted) (Z.to_nat n + 4)) sorted in
    let topN := mergeSelections (take (Z.to_nat n) sorted) in
    if (chooseCount (Z.of_nat (length prefix)) n >? MAX_ATLEAST_COMBINATIONS)%Z then [topN]
    else rankAndCap holderCounts (map mergeSelections (nCombinations prefix n)).

Fixpoint selectionsFor (node : PolicyNode) : list Selection :=
  match node with
  | Leaf leaf =>
      rankAndCap holderCounts
        (map leafSelection (List.filter (fun b => badgeSatisfiesLeaf leaf b now) badges))
  | AllOf nodes =>
      match all_some (map (fun child => bestOf holderCounts (selectionsFor child)) nodes) with
      | Some childBests => [mergeSelections childBests]
      | None => []
      end
  | AnyOf nodes =>
      rankAndCap holderCounts
        (omap id (map (fun child => bestOf holderCounts (selectionsFor child)) nodes))
  | AtLeast n nodes =>
      atLeastSelections n
        (omap id (map (fun child => bestOf holderCounts (selectionsFor child)) nodes))
  end.

Fixpoint findGaps (node : PolicyNode) (out : list string) : list string :=
  let unmet := fix unmet (cs : list PolicyNode) (out : list string) :=
    match cs with
    | [] => out
    | c :: cs' => unmet cs' (if evaluate c badges now then out else findGaps c out)
    end in
  let each := fix each (cs : list PolicyNode) (out : list string) :=
    match cs with [] => out | c :: cs' => each cs' (findGaps c out) end in
  match node with
  | Leaf leaf => if leafSatisfied leaf badges now then out else set_add (leaf_type leaf) out
  | AllOf nodes => unmet nodes out
  | AnyOf nodes => each nodes out
  | AtLeast _ nodes => unmet nodes out
  end.

Definition selectMinimalAnonymitySet (policy : PolicyNode) : SelectionResult :=
  match selectionsFor policy with
  | [] => {| satisfiable := false; selectedBadgeIds := []; alternatives := [];
             gaps := findGaps policy [] |}
  | best :: rest => {| satisfiable := true; selectedBadgeIds := sel_badgeIds best;
                       alternatives := map sel_badgeIds rest; gaps := [] |}
  end.

End Select.

(** A held pair of badges and a two-way threshold. *)
Definition demo_badge (id type : string) : UserBadge :=
  {| badge_id := id; badge_type := type; badge_attributes := ∅; badge_issuedAt := JsNum.of_Z 0 |}.

Definition demo_leaf (type : string) : PolicyNode :=
  Leaf {| leaf_type := type; leaf_where := None; leaf_maxAgeDays := None |}.

Example select_demo :
  selectMinimalAnonymitySet [demo_badge "b1" "oauth-account"; demo_badge "b2" "email-domain"]
    {[ "oauth-account" := 10%Z; "email-domain" := 400%Z ]} (JsNum.of_Z 100)
    (AnyOf [demo_leaf "oauth-account"; demo_leaf "email-domain"]) =
  {| satisfiable := true; selectedBadgeIds := ["b2"]; alternatives := [["b1"]]; gaps := [] |}.
Proof. vm_compute. reflexivity. Qed.

(** ** The ranking is a consistent comparator *)

#[export] Instance Comparator_vectors : Comparator compareVectors.
Proof.
  split.
  - intros x. induction x as [|a x IH]; intros [|b y]; simpl; try done.
    destruct (Z.eqb_spec a b), (Z.eqb_spec b a); subst; try lia. apply IH.
  - intros x. induction x as [|a x IH]; intros [|b y] [|c z]; simpl; try lia.
    destruct (Z.eqb_spec a b), (Z.eqb_spec b c), (Z.eqb_spec a c); subst; try lia. apply IH.
Qed.

Lemma compareStrings_compare a b :
  compareStrings a b = match String.compare a b with Lt => -1 | Eq => 0 | Gt => 1 end%Z.
Proof.
  unfold compareStrings, String.ltb. rewrite (String.compare_antisym b a).
  by destruct (String.compare a b).
Qed.

Lemma compareStrings_le a b : (compareStrings a b <= 0)%Z ↔ String.le a b.
Proof.
  rewrite compareStrings_compare. unfold String.le, String.leb.
  destruct (String.compare a b); simpl; split; try done; lia.
Qed.

#[export] Instance Comparator_strings : Comparator compareStrings.
Proof.
  split.
  - intros x y. rewrite !compareStrings_compare, (String.compare_antisym y x).
    by destruct (String.compare x y).
  - intros x y z. rewrite !compareStrings_le. intros. by trans y.
Qed.

#[export] Instance Comparator_selections h : Comparator (compareSelections h).
Proof.
  apply (Comparator_lex (cmp_on (fun s => anonymityVector (sel_types s) h) compareVectors)
    (cmp_lex (cmp_on (fun s => Z.of_nat (length (sel_badgeIds s))) Z.sub)
       (cmp_on (fun s => joinNul (sortStrings (sel_types s))) compareStrings))); apply _.
Qed.

(** ** Ranking keeps and orders the candidates *)

Section Ranking.
Context (h : gmap string Z).

Lemma bestOf_in l s : bestOf h l = Some s → s ∈ l.
Proof.
  destruct l as [|x l]; [done|]. intros [= <-]. revert x.
  induction l as [|y l IH]; intros x; simpl; [left|].
  destruct (_ <? 0)%Z; [right; apply IH|].
  destruct (proj1 (elem_of_cons _ _ _) (IH x)) as [->|]; [left|do 2 right; done].
Qed.

Lemma bestOf_None l : bestOf h l = None ↔ l = [].
Proof. by destruct l. Qed.

Lemma bestOf_least l s x : bestOf h l = Some s → x ∈ l → (compareSelections h s x <= 0)%Z.
Proof.
  destruct l as [|y l]; [done|]. intros [= <-]. revert x y.
  induction l as [|z l IH]; intros x y; simpl.
  - rewrite list_elem_of_singleton. intros ->. pose proof (cmp_flip (compareSelections h) y y). lia.
  - intros Hx. pose proof (cmp_flip (compareSelections h) z y).
    pose proof (IH (if (compareSelections h z y <? 0)%Z then z else y)
      (if (compareSelections h z y <? 0)%Z then z else y)) as Hhd.
    specialize (Hhd ltac:(left)).
    assert (x = y ∨ x = z ∨ x ∈ l) as [->|[->|Hx']] by set_solver.
    + destruct (Z.ltb_spec (compareSelections h z y) 0); [|done]. eapply cmp_trans; [done|lia].
    + destruct (Z.ltb_spec (compareSelections h z y) 0); [done|]. eapply cmp_trans; [done|lia].
    + apply IH. by right.
Qed.

Lemma dedupe_sublist l : dedupeSelections l `sublist_of` l.
Proof.
  unfold dedupeSelections. generalize (∅ : gset string).
  induction l as [|s l IH]; intros seen; [constructor|].
  case_decide; [apply sublist_cons|apply sublist_skip]; apply IH.
Qed.

Lemma dedupe_hd s l : ∃ l', dedupeSelections (s :: l) = s :: l'.
Proof. unfold dedupeSelections. rewrite decide_False by set_solver. eauto. Qed.

Lemma rankAndCap_in l s : s ∈ rankAndCap h l → s ∈ l.
Proof.
  unfold rankAndCap. intros Hs. apply (elem_of_js_sort (compareSelections h)).
  eapply elem_of_sublist; [|apply dedupe_sublist].
  eapply elem_of_sublist; [exact Hs|apply sublist_take].
Qed.

Lemma rankAndCap_length l : length (rankAndCap h l) ≤ MAX_ALTERNATIVES.
Proof. unfold rankAndCap. rewrite length_take. lia. Qed.

Lemma rankAndCap_nil l : rankAndCap h l = [] → l = [].
Proof.
  unfold rankAndCap. intros H. apply (js_sort_nil_inv (compareSelections h)).
  destruct (js_sort (compareSelections h) l) as [|s l'] eqn:E; [done|].
  destruct (dedupe_hd s l') as [l'' El]. rewrite El in H. done.
Qed.

Lemma rankAndCap_sorted l : StronglySorted (cmp_le (compareSelections h)) (rankAndCap h l).
Proof.
  unfold rankAndCap.
  assert (Hsub : ∀ l1 l2, l1 `sublist_of` l2 → StronglySorted (cmp_le (compareSelections h)) l2 →
    StronglySorted (cmp_le (compareSelections h)) l1).
  { induction 1 as [|x l1 l2 Hlk IH|x l1 l2 Hlk IH]; intros Hk; [done| |].
    - inversion Hk; subst. constructor; [auto|]. rewrite Forall_forall in *.
      intros y Hy. match goal with H : ∀ x, _ → _ |- _ => apply H end. by eapply elem_of_sublist.
    - inversion Hk; subst. auto. }
  eapply Hsub; [|apply js_sort_sorted, _].
  etrans; [apply sublist_take|apply dedupe_sublist].
Qed.

Lemma rankAndCap_best l s rest x :
  rankAndCap h l = s :: rest → x ∈ rest → (compareSelections h s x <= 0)%Z.
Proof.
  intros E Hx. pose proof (rankAndCap_sorted l) as Hs. rewrite E in Hs.
  inversion Hs as [|? ? _ Hall]; subst. rewrite Forall_forall in Hall. by apply Hall.
Qed.

End Ranking.

(** ** Combining selections *)

Lemma foldl_set_add_all {A B} `{EqDecision B} (f : A → list B) parts acc x :
  x ∈ foldl (fun ids part => set_add_all (f part) ids) acc parts ↔
  x ∈ acc ∨ ∃ part, part ∈ parts ∧ x ∈ f part.
Proof.
  revert acc. induction parts as [|p parts IH]; intros acc; simpl; [set_solver|].
  rewrite IH, elem_of_set_add_all. set_solver.
Qed.

Lemma elem_of_merge_ids parts id :
  id ∈ sel_badgeIds (mergeSelections parts) ↔ ∃ part, part ∈ parts ∧ id ∈ sel_badgeIds part.
Proof. simpl. rewrite foldl_set_add_all. set_solver. Qed.

Lemma all_some_elem {A} (l : list (option A)) xs x :
  all_some l = Some xs → x ∈ xs ↔ Some x ∈ l.
Proof.
  revert xs. induction l as [|[y|] l IH]; intros xs; simpl; intros H; simplify_eq; [set_solver|].
  destruct (all_some l) as [ys|]; simplify_eq. specialize (IH ys eq_refl).
  rewrite !elem_of_cons, IH. naive_solver.
Qed.

Lemma all_some_None {A} (l : list (option A)) : all_some l = None ↔ None ∈ l.
Proof.
  induction l as [|[y|] l IH]; simpl; [set_solver| |set_solver].
  rewrite elem_of_cons, <-IH. destruct (all_some l); naive_solver.
Qed.

Lemma elem_of_omap_id {A} (l : list (option A)) x : x ∈ omap id l ↔ Some x ∈ l.
Proof. rewrite list_elem_of_omap. set_solver. Qed.

Lemma pick_spec {A} n (items chosen c : list A) :
  c ∈ pick n items chosen → length c = n ∧ ∃ k, c = chosen ++ k ∧ k `sublist_of` items.
Proof.
  revert chosen. induction items as [|x items IH]; intros chosen; simpl;
    destruct (Nat.eqb_spec (length chosen) n) as [Hl|Hl].
  - intros ->%list_elem_of_singleton. split; [done|]. exists []. by rewrite app_nil_r.
  - set_solver.
  - intros ->%list_elem_of_singleton. split; [done|]. exists []. rewrite app_nil_r.
    split; [done|apply sublist_nil_l].
  - intros [Hc|Hc]%elem_of_app; apply IH in Hc as (? & k & -> & Hk); (split; [done|]).
    + exists (x :: k). rewrite <-app_assoc. split; [done|by apply sublist_skip].
    + exists k. split; [done|by apply sublist_cons].
Qed.

Lemma pick_nonempty {A} n (items chosen : list A) :
  length chosen ≤ n → n ≤ length chosen + length items → pick n items chosen ≠ [].
Proof.
  revert chosen. induction items as [|x items IH]; intros chosen H1 H2; simpl in *;
    destruct (Nat.eqb_spec (length chosen) n); [done|lia|done|].
  intros [Hnil _]%app_nil. revert Hnil. apply IH; rewrite length_app; simpl; lia.
Qed.

Lemma nCombinations_spec {A} (items : list A) n c :
  (0 < n)%Z → c ∈ nCombinations items n → length c = Z.to_nat n ∧ c `sublist_of` items.
Proof.
  unfold nCombinations. intros Hn. destruct (Z.leb_spec n 0); [lia|].
  destruct (_ >? _)%Z; [set_solver|]. intros (? & k & -> & ?)%pick_spec. by rewrite app_nil_l.
Qed.

Lemma nCombinations_nonempty {A} (items : list A) n :
  (0 < n <= Z.of_nat (length items))%Z → nCombinations items n ≠ [].
Proof.
  intros Hn. unfold nCombinations. destruct (Z.leb_spec n 0); [lia|].
  destruct (Z.gtb_spec n (Z.of_nat (length items))); [lia|]. apply pick_nonempty; simpl; lia.
Qed.

(** Every selection of an [atLeast] node merges the best of [n] of its branches. *)
Lemma atLeastSelections_in h n bests s :
  s ∈ atLeastSelections h n bests →
  ((n <= 0)%Z ∧ sel_badgeIds s = []) ∨
  ((0 < n)%Z ∧ ∃ parts, length parts = Z.to_nat n ∧ parts ⊆+ bests ∧ s = mergeSelections parts).
Proof.
  unfold atLeastSelections. destruct (Z.leb_spec n 0).
  { intros ->%list_elem_of_singleton. by left. }
  destruct (Z.ltb_spec (Z.of_nat (length bests)) n); [set_solver|].
  set (sorted := js_sort (compareSelections h) bests).
  assert (Hp : sorted ≡ₚ bests) by apply js_sort_perm.
  assert (Hl : length sorted = length bests) by by rewrite Hp.
  intros Hs. right. split; [done|]. revert Hs. destruct (_ >? _)%Z.
  - intros ->%list_elem_of_singleton. eexists. split_and!; [| |done].
    + rewrite length_take. lia.
    + rewrite <-Hp. apply sublist_submseteq, sublist_take.
  - intros (parts & -> & Hc)%rankAndCap_in%elem_of_map.
    apply nCombinations_spec in Hc as [Hc1 Hc2]; [|done].
    exists parts. split_and!; [done| |done].
    rewrite <-Hp. apply sublist_submseteq. etrans; [done|apply sublist_take].
Qed.

Lemma atLeastSelections_nonempty h n bests :
  (n <= Z.of_nat (length bests))%Z → atLeastSelections h n bests ≠ [].
Proof.
  intros Hn. unfold atLeastSelections. destruct (Z.leb_spec n 0); [done|].
  destruct (Z.ltb_spec (Z.of_nat (length bests)) n); [lia|].
  set (sorted := js_sort (compareSelections h) bests).
  assert (Hl : length sorted = length bests) by apply length_js_sort.
  destruct (_ >? _)%Z; [done|]. intros Hnil%rankAndCap_nil%map_eq_nil. revert Hnil.
  apply nCombinations_nonempty. rewrite length_take. lia.
Qed.

(** ** What a selection discloses *)

Section Disclosure.
Context (badges : list UserBadge) (h : gmap string Z) (now : JsNum.t).

Abbreviation selections := (selectionsFor badges h now).

(** The badges a list of ids discloses. *)
Definition disclosed (ids : list string) : list UserBadge :=
  filter (fun b => badge_id b ∈ ids) badges.

Definition held (id : string) : Prop := ∃ b, b ∈ badges ∧ badge_id b = id.

Lemma bests_in nodes s :
  Some s ∈ map (fun child => bestOf h (selections child)) nodes →
  ∃ c, c ∈ nodes ∧ s ∈ selections c.
Proof.
  intros (c & E & Hc)%elem_of_map. exists c. split; [done|]. by apply (bestOf_in h).
Qed.

Lemma selectionsFor_held p s id :
  s ∈ selections p → id ∈ sel_badgeIds s → held id.
Proof.
  revert s. induction p as [leaf|cs IH|cs IH|n cs IH] using PolicyNode_tree_ind; intros s Hs Hid;
    cbn [selectionsFor] in Hs.
  - apply rankAndCap_in in Hs. apply elem_of_map in Hs as (b & -> & [Hb _]%elem_of_filter_b).
    apply list_elem_of_singleton in Hid. by exists b.
  - rewrite Forall_forall in IH. destruct (all_some _) as [bests|] eqn:E; [|set_solver].
    apply list_elem_of_singleton in Hs as ->. apply elem_of_merge_ids in Hid as (part & Hpart & Hid).
    apply (all_some_elem _ _ _ E), bests_in in Hpart as (c & Hc & Hs). by apply (IH c Hc part).
  - rewrite Forall_forall in IH. apply rankAndCap_in, elem_of_omap_id, bests_in in Hs as (c & Hc & Hs).
    by apply (IH c Hc s).
  - rewrite Forall_forall in IH. apply atLeastSelections_in in Hs as [[_ E]|(_ & parts & _ & Hsub & ->)].
    + rewrite E in Hid. set_solver.
    + apply elem_of_merge_ids in Hid as (part & Hpart & Hid).
      eapply elem_of_submseteq in Hpart; [|exact Hsub].
      apply elem_of_omap_id, bests_in in Hpart as (c & Hc & Hs).
      by apply (IH c Hc part).
Qed.

(** Policies in which no threshold asks for a branch. *)
Fixpoint thresholdFree (p : PolicyNode) : bool :=
  match p with
  | Leaf _ => true
  | AllOf cs | AnyOf cs => forallb thresholdFree cs
  | AtLeast n _ => (n <=? 0)%Z
  end.

Lemma disclosed_mono ids ids' : ids ⊆ ids' → disclosed ids ⊆+ disclosed ids'.
Proof.
  intros Hsub. unfold disclosed. induction badges as [|b l IH]; [done|].
  rewrite !filter_cons. repeat case_decide; [by apply submseteq_skip|set_solver| |done].
  by apply submseteq_cons.
Qed.

Lemma forallb_elem {A} (f : A → bool) l x : forallb f l = true → x ∈ l → f x = true.
Proof. rewrite forallb_forall. setoid_rewrite <-list_elem_of_In. auto. Qed.

Lemma selectionsFor_sound p s :
  thresholdFree p = true → s ∈ selections p → evaluate p (disclosed (sel_badgeIds s)) now = true.
Proof.
  revert s. induction p as [leaf|cs IH|cs IH|n cs IH] using PolicyNode_tree_ind; intros s Hf Hs;
    cbn [selectionsFor thresholdFree] in *; try rewrite Forall_forall in IH.
  - apply rankAndCap_in in Hs. apply elem_of_map in Hs as (b & -> & [Hb Hm]%elem_of_filter_b).
    apply evaluate_sat. exists b. split; [|by apply badgeSatisfiesLeaf_meets].
    apply list_elem_of_filter. split; [left|done].
  - destruct (all_some _) as [bests|] eqn:E; [|set_solver].
    apply list_elem_of_singleton in Hs as ->. simpl. apply forallb_forall.
    intros c Hc%list_elem_of_In.
    destruct (bestOf h (selections c)) as [part|] eqn:Eb.
    + assert (Hpart : part ∈ bests)
        by (apply (all_some_elem _ _ _ E), elem_of_map; by exists c).
      eapply evaluate_mono; [|apply (IH c Hc part); [by eapply forallb_elem|by apply (bestOf_in h)]].
      apply disclosed_mono. intros id Hid. apply elem_of_merge_ids. eauto.
    + assert (None ∈ map (fun child => bestOf h (selections child)) cs) as Hn
        by (apply elem_of_map; by exists c).
      apply all_some_None in Hn. congruence.
  - apply rankAndCap_in, elem_of_omap_id, bests_in in Hs as (c & Hc & Hs). simpl.
    apply existsb_exists. exists c. rewrite <-list_elem_of_In. split; [done|].
    apply IH; [done|by eapply forallb_elem|done].
  - rewrite evaluate_atLeast. by rewrite Hf.
Qed.

(** A satisfied policy always has a selection. *)
Lemma selectionsFor_complete p : evaluate p badges now = true → selections p ≠ [].
Proof.
  induction p as [leaf|cs IH|cs IH|n cs IH] using PolicyNode_tree_ind; try rewrite Forall_forall in IH;
    cbn [selectionsFor].
  - intros (b & Hb & Hm)%evaluate_sat Hnil%rankAndCap_nil%map_eq_nil.
    assert (b ∈ List.filter (fun b => badgeSatisfiesLeaf leaf b now) badges) as Hin.
    { apply elem_of_filter_b. split; [done|]. by apply badgeSatisfiesLeaf_meets. }
    rewrite Hnil in Hin. set_solver.
  - simpl. rewrite forallb_forall. intros Hall.
    destruct (all_some _) eqn:E; [done|]. apply all_some_None, elem_of_map in E as (c & E & Hc).
    symmetry in E. apply bestOf_None in E. intros _.
    apply (IH c Hc); [by apply Hall, list_elem_of_In|done].
  - simpl. rewrite existsb_exists. intros (c & Hc%list_elem_of_In & Hev) Hnil%rankAndCap_nil.
    destruct (bestOf h (selections c)) as [s|] eqn:E.
    + assert (s ∈ omap id (map (fun child => bestOf h (selections child)) cs)) as Hin.
      { apply elem_of_omap_id, elem_of_map. by exists c. }
      rewrite Hnil in Hin. set_solver.
    + apply bestOf_None in E. by apply (IH c Hc).
  - intros (N & (H1 & _ & H3) & Hn)%evaluate_sat. apply atLeastSelections_nonempty.
    etrans; [exact Hn|]. apply Nat2Z.inj_le. rewrite <-(length_fmap fst).
    apply positions_le_values; [done|]. intros br ([br' bi] & -> & Hin)%list_elem_of_fmap_1.
    destruct (H3 _ _ Hin) as (P & b & (c & Hc & ->)%lookup_map_Some & Hb & Hsat).
    apply evaluate_sat in Hsat. setoid_rewrite lookup_map. simpl. rewrite Hc. simpl.
    destruct (bestOf h (selections c)) as [s|] eqn:E; [by eauto|].
    apply bestOf_None in E. exfalso. revert E. apply IH; [by eapply list_elem_of_lookup_2|].
    eapply evaluate_mono; [|exact Hsat]. apply singleton_submseteq_l. by eapply list_elem_of_lookup_2.
Qed.

End Disclosure.

(** ** The combination count guards the enumeration *)

(** The binomial coefficient, by Pascal's rule. *)
Fixpoint binom (k n : nat) : nat :=
  match n, k with
  | O, _ => 1
  | S _, O => 0
  | S n', S k' => binom k' n' + binom k' n
  end.

Lemma binom_0_r k : binom k 0 = 1.
Proof. by destruct k. Qed.

Lemma binom_gt k n : k < n → binom k n = 0.
Proof.
  revert n. induction k as [|k IH]; intros [|n] H; simpl; [lia|done|lia|].
  rewrite !IH by lia. done.
Qed.

Lemma binom_diag k : binom k k = 1.
Proof. induction k as [|k IH]; simpl; [done|]. rewrite IH, binom_gt by lia. done. Qed.

Lemma binom_absorb k n : n ≤ k → S n * binom k (S n) = (k - n) * binom k n.
Proof.
  revert n. induction k as [|k IH]; intros n Hn; [by replace n with 0 by lia|].
  destruct n as [|n]; cbn [binom].
  - rewrite binom_0_r. destruct k as [|k]; [done|]. specialize (IH 0). rewrite binom_0_r in IH. lia.
  - destruct (decide (n = k)) as [->|].
    { rewrite !(binom_gt k) by lia. lia. }
    pose proof (IH n ltac:(lia)). pose proof (IH (S n) ltac:(lia)). 
    replace (k - n) with (S (k - S n)) in * by lia.
    replace (S k - S n) with (S (k - S n)) by lia. lia.
Qed.

Lemma binom_sym k n : n ≤ k → binom k n = binom k (k - n).
Proof.
  revert n. induction k as [|k IH]; intros n Hn; [by replace n with 0 by lia|].
  destruct n as [|n]; [by rewrite binom_0_r, Nat.sub_0_r, binom_diag|].
  destruct (decide (n = k)) as [->|].
  - by rewrite binom_diag, Nat.sub_diag, binom_0_r.
  - replace (S k - S n) with (S (k - S n)) by lia. cbn [binom]. rewrite (IH n), (IH (S n)) by lia.
    replace (k - n) with (S (k - S n)) by lia. lia.
Qed.

Lemma binom_grows k n : 2 * n + 1 ≤ k → binom k n ≤ binom k (S n).
Proof. intros H. pose proof (binom_absorb k n ltac:(lia)). nia. Qed.

Lemma chooseLoop_spec k left i :
  2 * (i + left) ≤ k → (Z.of_nat (binom k i) <= 500)%Z →
  chooseLoop (Z.of_nat k) left (Z.of_nat i) (Z.of_nat (binom k i)) =
  Z.min 501 (Z.of_nat (binom k (i + left))).
Proof.
  revert i. induction left as [|left IH]; intros i Hk Hle; cbn [chooseLoop].
  { rewrite Nat.add_0_r. lia. }
  assert (Hstep : (Z.of_nat (binom k i) * (Z.of_nat k - Z.of_nat i) / (Z.of_nat i + 1) =
    Z.of_nat (binom k (S i)))%Z).
  { pose proof (binom_absorb k i ltac:(lia)). symmetry. apply Z.div_unique_exact; [lia|]. nia. }
  rewrite Hstep. unfold MAX_ATLEAST_COMBINATIONS.
  destruct (Z.gtb_spec (Z.of_nat (binom k (S i))) 500).
  - assert (Hmono : ∀ d, 2 * (S i + d) ≤ k → binom k (S i) ≤ binom k (S i + d)).
    { induction d as [|d IHd]; intros Hd; [by rewrite Nat.add_0_r|].
      etrans; [apply IHd; lia|]. rewrite Nat.add_succ_r. apply binom_grows. lia. }
    specialize (Hmono left ltac:(lia)). rewrite Nat.add_succ_r. simpl in *. lia.
  - replace (Z.of_nat i + 1)%Z with (Z.of_nat (S i)) by lia.
    rewrite IH by lia. by rewrite Nat.add_succ_r.
Qed.

Lemma chooseCount_binom k n :
  chooseCount (Z.of_nat k) (Z.of_nat n) = Z.min 501 (Z.of_nat (binom k n)).
Proof.
  unfold chooseCount.
  destruct (Z.ltb_spec (Z.of_nat n) 0); [lia|]. simpl orb.
  destruct (Z.gtb_spec (Z.of_nat n) (Z.of_nat k)); [rewrite binom_gt by lia; done|].
  destruct (Z.eqb_spec (Z.of_nat n) 0) as [Hn|]; simpl orb.
  { replace n with 0 by lia. by rewrite binom_0_r. }
  destruct (Z.eqb_spec (Z.of_nat n) (Z.of_nat k)).
  { replace n with k by lia. by rewrite binom_diag. }
  change 0%Z with (Z.of_nat 0). change 1%Z with (Z.of_nat 1). rewrite <-(binom_0_r k).
  rewrite chooseLoop_spec; [|lia|rewrite binom_0_r; lia]. do 2 f_equal. simpl.
  destruct (decide (n ≤ k - n)).
  - f_equal. lia.
  - rewrite (binom_sym k n) by lia. f_equal. lia.
Qed.

Lemma length_pick {A} n (items chosen : list A) :
  length chosen ≤ n → length (pick n items chosen) = binom (length items) (n - length chosen).
Proof.
  revert chosen. induction items as [|x items IH]; intros chosen H; simpl;
    destruct (Nat.eqb_spec (length chosen) n) as [<-|Hne].
  - by rewrite Nat.sub_diag.
  - destruct (n - length chosen) eqn:E; [lia|done].
  - by rewrite Nat.sub_diag.
  - rewrite length_app, !IH by (rewrite ?length_app; simpl; lia). rewrite length_app. simpl.
    destruct (n - length chosen) as [|m] eqn:E; [lia|].
    by replace (n - (length chosen + 1)) with m by lia.
Qed.

Lemma length_nCombinations {A} (items : list A) n :
  length (nCombinations items (Z.of_nat n)) = binom (length items) n.
Proof.
  unfold nCombinations. destruct (Z.leb_spec (Z.of_nat n) 0).
  { replace n with 0 by lia. by rewrite binom_0_r. }
  destruct (Z.gtb_spec (Z.of_nat n) (Z.of_nat (length items))); [by rewrite binom_gt by lia|].
  rewrite length_pick, Nat2Z.id by (simpl; lia). f_equal. simpl. lia.
Qed.

(** ** Gaps *)

Section Gaps.
Context (badges : list UserBadge) (now : JsNum.t).

Definition gap_leaf (p : PolicyNode) (t : string) : Prop :=
  ∃ leaf, leaf ∈ leaves p ∧ leaf_type leaf = t ∧ leafSatisfied leaf badges now = false.

Fixpoint gapsUnmet (cs : list PolicyNode) (out : list string) : list string :=
  match cs with
  | [] => out
  | c :: cs' => gapsUnmet cs' (if evaluate c badges now then out else findGaps badges now c out)
  end.

Fixpoint gapsAll (cs : list PolicyNode) (out : list string) : list string :=
  match cs with [] => out | c :: cs' => gapsAll cs' (findGaps badges now c out) end.

Definition gap_sound (p : PolicyNode) : Prop :=
  ∀ out t, t ∈ findGaps badges now p out → t ∈ out ∨ gap_leaf p t.

Lemma gap_loops cs :
  Forall gap_sound cs → ∀ out t, t ∈ gapsUnmet cs out ∨ t ∈ gapsAll cs out →
  t ∈ out ∨ ∃ c, c ∈ cs ∧ gap_leaf c t.
Proof.
  induction 1 as [|c cs Hc Hcs IH]; intros out t; simpl; [set_solver|]. intros [Ht|Ht].
  - destruct (IH _ t (or_introl Ht)) as [Ho|?]; [|set_solver].
    destruct (evaluate c badges now); [by left|]. destruct (Hc _ _ Ho); set_solver.
  - destruct (IH _ t (or_intror Ht)) as [Ho|?]; [|set_solver].
    destruct (Hc _ _ Ho); set_solver.
Qed.

Lemma gap_leaf_child cs t :
  (∃ c, c ∈ cs ∧ gap_leaf c t) → 
  ∃ leaf, leaf ∈ concat (map leaves cs) ∧ leaf_type leaf = t ∧ leafSatisfied leaf badges now = false.
Proof.
  intros (c & Hc & leaf & Hl & Hr). exists leaf. split; [|done].
  apply list_elem_of_In, in_concat. exists (leaves c). split; [|by apply list_elem_of_In].
  apply in_map. by apply list_elem_of_In.
Qed.

Lemma findGaps_sound p : gap_sound p.
Proof.
  induction p as [leaf|cs IH|cs IH|n cs IH] using PolicyNode_tree_ind; intros out t Ht.
  { simpl in Ht. destruct (leafSatisfied leaf badges now) eqn:E; [by left|].
    apply elem_of_set_add in Ht as [->|]; [|by left]. right. exists leaf. simpl. set_solver. }
  all: destruct (gap_loops cs IH out t) as [?|Hc]; [|by left|right; by apply gap_leaf_child].
  - left. exact Ht.
  - right. exact Ht.
  - left. exact Ht.
Qed.

End Gaps.

(** ** Properties *)

(** A disclosure that the consent screen preselects or offers contains only badges the user
    holds: selection never fabricates. *)
Theorem selection_only_held badges h now policy ids id :
  let r := selectMinimalAnonymitySet badges h now policy in
  ids ∈ selectedBadgeIds r :: alternatives r → id ∈ ids →
  ∃ b, b ∈ badges ∧ badge_id b = id.
Proof.
  unfold selectMinimalAnonymitySet.
  destruct (selectionsFor badges h now policy) as [|best rest] eqn:E; simpl.
  { intros ->%list_elem_of_singleton Hid. by apply not_elem_of_nil in Hid. }
  intros Hids Hid. assert (∃ s, s ∈ best :: rest ∧ ids = sel_badgeIds s) as (s & Hs & ->).
  { apply elem_of_cons in Hids as [->|(s & -> & Hs)%elem_of_map]; [exists best; split; [left|done]|].
    exists s. split; [by right|done]. }
  apply (selectionsFor_held badges h now policy s); [by rewrite E|done].
Qed.

Definition demo_held : list UserBadge :=
  [demo_badge "b1" "oauth-account"; demo_badge "b2" "email-domain"].
Definition demo_counts : gmap string Z := {[ "oauth-account" := 10%Z; "email-domain" := 400%Z ]}.
Definition demo_policy : PolicyNode :=
  AllOf [AnyOf [demo_leaf "oauth-account"; demo_leaf "email-domain"]; demo_leaf "oauth-account"].

Lemma selection_only_held_witness :
  ∃ b, b ∈ demo_held ∧ badge_id b = "b2".
Proof.
  apply (selection_only_held demo_held demo_counts (JsNum.of_Z 100) demo_policy ["b2"; "b1"]).
  - vm_compute. left.
  - left.
Defined.

(** When the badges the user holds satisfy the policy, selection finds a disclosure; it never
    reports a satisfiable policy as unsatisfiable. *)
Theorem selection_complete badges h now policy :
  evaluate policy badges now = true →
  satisfiable (selectMinimalAnonymitySet badges h now policy) = true.
Proof.
  intros He%(selectionsFor_complete badges h now). unfold selectMinimalAnonymitySet.
  by destruct (selectionsFor badges h now policy).
Qed.

Lemma selection_complete_witness :
  satisfiable (selectMinimalAnonymitySet demo_held demo_counts (JsNum.of_Z 100)
    (AtLeast 2 [demo_leaf "oauth-account"; demo_leaf "email-domain"])) = true.
Proof.
  apply (selection_complete demo_held demo_counts (JsNum.of_Z 100)). vm_compute. reflexivity.
Defined.

(** for a policy without thresholds, disclosing any of the offered selections satisfies the
    policy on the disclosed badges alone. *)
Theorem selection_satisfies badges h now policy ids :
  let r := selectMinimalAnonymitySet badges h now policy in
  thresholdFree policy = true → satisfiable r = true →
  ids ∈ selectedBadgeIds r :: alternatives r →
  evaluate policy (disclosed badges ids) now = true.
Proof.
  unfold selectMinimalAnonymitySet.
  destruct (selectionsFor badges h now policy) as [|best rest] eqn:E; simpl; [done|].
  intros Hf _ Hids. assert (∃ s, s ∈ best :: rest ∧ ids = sel_badgeIds s) as (s & Hs & ->).
  { apply elem_of_cons in Hids as [->|(s & -> & Hs)%elem_of_map]; [exists best; split; [left|done]|].
    exists s. split; [by right|done]. }
  apply (selectionsFor_sound badges h now policy s); [done|by rewrite E].
Qed.

Lemma selection_satisfies_witness :
  evaluate demo_policy (disclosed demo_held ["b2"; "b1"]) (JsNum.of_Z 100) = true.
Proof.
  apply (selection_satisfies demo_held demo_counts (JsNum.of_Z 100) demo_policy).
  - reflexivity.
  - vm_compute. reflexivity.
  - vm_compute. left.
Defined.

(** The preselected disclosure is ranked at least as private as every alternative offered,
    and at most 15 alternatives are offered. *)
Theorem selection_is_best badges h now policy best rest :
  selectionsFor badges h now policy = best :: rest →
  length rest ≤ 15 ∧ ∀ s, s ∈ rest → (compareSelections h best s <= 0)%Z.
Proof.
  assert (Hrank : ∀ l, rankAndCap h l = best :: rest →
    length rest ≤ 15 ∧ ∀ s, s ∈ rest → (compareSelections h best s <= 0)%Z).
  { intros l E. split; [|intros s; by eapply rankAndCap_best].
    pose proof (rankAndCap_length h l) as Hl. rewrite E in Hl. unfold MAX_ALTERNATIVES in Hl.
    simpl in Hl. lia. }
  assert (Hone : ∀ s, [s] = best :: rest →
    length rest ≤ 15 ∧ ∀ s, s ∈ rest → (compareSelections h best s <= 0)%Z).
  { intros s [= -> <-]. simpl. split; [lia|set_solver]. }
  destruct policy as [leaf|cs|cs|n cs]; cbn [selectionsFor]; [by eauto| |by eauto|].
  - destruct (all_some _); [by eauto|done].
  - unfold atLeastSelections. destruct (_ <=? _)%Z; [by eauto|]. destruct (_ <? _)%Z; [done|].
    destruct (_ >? _)%Z; [|by eauto]. intros H. by eapply Hone.
Qed.

Definition demo_any : PolicyNode := AnyOf [demo_leaf "oauth-account"; demo_leaf "email-domain"].

Lemma selection_is_best_witness :
  length [leafSelection (demo_badge "b1" "oauth-account")] ≤ 15 ∧
  ∀ s, s ∈ [leafSelection (demo_badge "b1" "oauth-account")] →
    (compareSelections demo_counts (leafSelection (demo_badge "b2" "email-domain")) s <= 0)%Z.
Proof.
  apply (selection_is_best demo_held demo_counts (JsNum.of_Z 100) demo_any).
  vm_compute. reflexivity.
Defined.

(** [chooseCount] is the binomial coefficient saturated at 501, and it is the number of
    combinations [nCombinations] builds: the enumeration it guards has at most 500 of them. *)
Theorem combinations_bounded {A} (items : list A) (n : nat) :
  chooseCount (Z.of_nat (length items)) (Z.of_nat n) =
    Z.min 501 (Z.of_nat (length (nCombinations items (Z.of_nat n)))) ∧
  (chooseCount (Z.of_nat (length items)) (Z.of_nat n) >? MAX_ATLEAST_COMBINATIONS)%Z =
    (500 <? length (nCombinations items (Z.of_nat n))).
Proof.
  rewrite length_nCombinations, chooseCount_binom. split; [done|].
  unfold MAX_ATLEAST_COMBINATIONS.
  destruct (Z.gtb_spec (Z.min 501 (Z.of_nat (binom (length items) n))) 500),
    (Nat.ltb_spec 500 (binom (length items) n)); lia.
Qed.

(** Every reported gap is the type of a leaf of the policy that no held badge satisfies. *)
Theorem gaps_are_unmet_leaves badges h now policy t :
  t ∈ gaps (selectMinimalAnonymitySet badges h now policy) →
  ∃ leaf, leaf ∈ leaves policy ∧ leaf_type leaf = t ∧ leafSatisfied leaf badges now = false.
Proof.
  unfold selectMinimalAnonymitySet. destruct (selectionsFor badges h now policy); simpl; [|set_solver].
  intros Ht%findGaps_sound. destruct Ht; [set_solver|done].
Qed.

Lemma gaps_are_unmet_leaves_witness :
  ∃ leaf, leaf ∈ leaves (demo_leaf "wallet-age") ∧ leaf_type leaf = "wallet-age" ∧
    leafSatisfied leaf demo_held (JsNum.of_Z 100) = false.
Proof.
  apply (gaps_are_unmet_leaves demo_held demo_counts). vm_compute. left.
Defined.

(** With a threshold the selector can call a policy satisfiable, and preselect a badge for
    it, although the evaluator rejects it on everything the user holds: the branches' best
    selections may share a badge, which the evaluator counts once. *)
Theorem selection_overcounts_thresholds :
  let policy := AtLeast 2 [demo_leaf "oauth-account"; demo_leaf "oauth-account"] in
  let r := selectMinimalAnonymitySet demo_held demo_counts (JsNum.of_Z 100) policy in
  satisfiable r = true ∧ selectedBadgeIds r = ["b1"] ∧
  evaluate policy demo_held (JsNum.of_Z 100) = false.
Proof. vm_compute. done. Qed.
