(* ===== verification/RateLimit.v ===== *)
(** * Sliding-window rate limiting

    lib/rate-limit.ts: the in-memory limiter, the resolution of the per-client
    bucket key, and the environment-configured caps. *)

From S2P Require Import Prelude.
Open Scope Z_scope.

(** ** The limiter *)

Record RateLimitVerdict := Verdict { allowed : bool; retryAfterSeconds : Z }.

Definition SWEEP_THRESHOLD : Z := 10000.

Section Limiter.
Context (windowMs max : Z).

(** The closure's [hits] map: for each key the instants of its counted hits. *)
Definition live (now : Z) (l : list Z) : list Z := filter (fun t => now - windowMs < t) l.

(** Keep the live hits of every key and drop the keys that have none. *)
Definition sweep (now : Z) (hits : gmap string (list Z)) : gmap string (list Z) :=
  omap (fun l => match live now l with [] => None | l' => Some l' end) hits.

(** [Math.ceil(x / 1000)] on integers. *)
Definition ceil1000 (x : Z) : Z := - ((- x) / 1000).

Definition check (hits : gmap string (list Z)) (key : string) (now : Z) :
    RateLimitVerdict * gmap string (list Z) :=
  let hits := if Z.of_nat (size hits) >? SWEEP_THRESHOLD then sweep now hits else hits in
  let l := live now (default [] (hits !! key)) in
  if Z.of_nat (length l) >=? max then
    let oldest := default now (head l) in
    (Verdict false (Z.max 1 (ceil1000 (oldest + windowMs - now))), <[key := l]> hits)
  else (Verdict true 0, <[key := l ++ [now]]> hits).

(** A run: the checks made so far, oldest first, with the verdict of each. *)
Definition run_step (st : gmap string (list Z) * list (string * Z * bool)) (e : string * Z) :
    gmap string (list Z) * list (string * Z * bool) :=
  let '(v, hits) := check st.1 e.1 e.2 in (hits, st.2 ++ [(e.1, e.2, allowed v)]).

Definition run (events : list (string * Z)) : gmap string (list Z) * list (string * Z * bool) :=
  foldl run_step (∅, []) events.

(** The instants at which [key] was let through. *)
Definition passed (key : string) (log : list (string * Z * bool)) : list Z :=
  (fun e => e.1.2) <$> filter (fun e => e.1.1 = key ∧ e.2 = true) log.

(** ** Invariant: the map agrees with the log on the current window *)

Lemma live_idemp now now' l : now <= now' → live now' (live now l) = live now' l.
Proof.
  intros Hle. unfold live. rewrite list_filter_filter.
  apply list_filter_iff. intros t. lia.
Qed.

Lemma live_app now l k : live now (l ++ k) = live now l ++ live now k.
Proof. apply filter_app. Qed.

Lemma lookup_sweep now hits key :
  live now (default [] (sweep now hits !! key)) = live now (default [] (hits !! key)).
Proof.
  unfold sweep. rewrite lookup_omap. destruct (hits !! key) as [l|]; [|done]. simpl.
  destruct (live now l) as [|t l'] eqn:E; [done|]. simpl. rewrite <-E.
  by apply live_idemp.
Qed.

(** The instants of the log, in order. *)
Definition ordered (events : list (string * Z)) : Prop := StronglySorted Z.le (snd <$> events).

Record agrees (now : Z) (hits : gmap string (list Z)) (log : list (string * Z * bool)) : Prop := {
  ag_live : ∀ key, live now (default [] (hits !! key)) = live now (passed key log);
  ag_past : ∀ key t, t ∈ passed key log → t <= now;
}.

Lemma agrees_later now now' hits log : now <= now' → agrees now hits log → agrees now' hits log.
Proof.
  intros Hle [H1 H2]. split.
  - intros key. rewrite <-(live_idemp now now' (default [] _)), H1 by done. by apply live_idemp.
  - intros key t Ht%H2. lia.
Qed.

Lemma passed_denied key log k now : passed k (log ++ [(key, now, false)]) = passed k log.
Proof.
  unfold passed. rewrite filter_app, fmap_app, filter_cons, filter_nil.
  rewrite decide_False by naive_solver. apply app_nil_r.
Qed.

Lemma passed_allowed key log k now :
  passed k (log ++ [(key, now, true)]) = passed k log ++ (if decide (key = k) then [now] else []).
Proof.
  unfold passed. rewrite filter_app, fmap_app, filter_cons, filter_nil. simpl.
  destruct (decide (key = k)).
  - by rewrite decide_True.
  - by rewrite decide_False by naive_solver.
Qed.

(** A check lets the key through exactly when the window has room. *)
Lemma check_verdict now hits log key :
  agrees now hits log →
  allowed (check hits key now).1 = (Z.of_nat (length (live now (passed key log))) <? max).
Proof.
  intros [H1 _]. unfold check.
  assert (Hl : live now (default [] ((if Z.of_nat (size hits) >? SWEEP_THRESHOLD
    then sweep now hits else hits) !! key)) = live now (passed key log)).
  { rewrite <-H1. destruct (_ >? _); [apply lookup_sweep|done]. }
  rewrite Hl. destruct (Z.geb_spec (Z.of_nat (length (live now (passed key log)))) max); simpl; lia.
Qed.

Lemma agrees_step now hits log key :
  0 < windowMs → agrees now hits log →
  agrees now (run_step (hits, log) (key, now)).1 (run_step (hits, log) (key, now)).2.
Proof.
  intros Hw [H1 H2]. unfold run_step; simpl. unfold check.
  set (hits' := if Z.of_nat (size hits) >? SWEEP_THRESHOLD then sweep now hits else hits).
  assert (H1' : ∀ k, live now (default [] (hits' !! k)) = live now (passed k log)).
  { intros k. rewrite <-H1. unfold hits'. destruct (_ >? _); [apply lookup_sweep|done]. }
  destruct (_ >=? max); simpl; split.
  - intros k. rewrite passed_denied, lookup_insert. case_decide as E; [subst; simpl|done].
    by rewrite live_idemp, H1' by lia.
  - intros k t. rewrite passed_denied. apply H2.
  - intros k. rewrite passed_allowed, lookup_insert. case_decide as E; [subst; simpl|].
    + by rewrite !live_app, live_idemp, H1' by lia.
    + by rewrite app_nil_r.
  - intros k t. rewrite passed_allowed, elem_of_app. intros [?%H2|Ht]; [done|].
    case_decide; set_solver by lia.
Qed.

Lemma agrees_run events now :
  0 < windowMs → ordered events → (∀ e, e ∈ events → e.2 <= now) →
  agrees now (run events).1 (run events).2.
Proof.
  intros Hw. unfold run, ordered. revert now.
  induction events as [|[key t] events IH] using rev_ind; intros now Hord Hnow.
  { split; [done|set_solver]. }
  rewrite foldl_snoc. rewrite fmap_app in Hord. apply StronglySorted_app in Hord as (Hle & Hord & _).
  apply agrees_later with t; [apply (Hnow (key, t)); set_solver|].
  set (st := foldl run_step (∅, []) events) in *.
  replace st with (st.1, st.2) by by destruct st. apply agrees_step; [done|].
  apply IH; [done|]. intros e He. apply Hle; set_solver.
Qed.

(** ** The window bound *)

Definition window_count (key : string) (t : Z) (log : list (string * Z * bool)) : nat :=
  length (filter (fun u => t - windowMs < u ∧ u <= t) (passed key log)).

Lemma window_count_bound events key t :
  0 < windowMs → 0 <= max → ordered events →
  Z.of_nat (window_count key t (run events).2) <= max.
Proof.
  intros Hw Hm. unfold run, ordered.
  induction events as [|[k now] events IH] using rev_ind; intros Hord; [done|].
  rewrite fmap_app in Hord. apply StronglySorted_app in Hord as (Hle & Hord & _).
  specialize (IH Hord). rewrite foldl_snoc.
  assert (Hag : agrees now (run events).1 (run events).2)
    by (apply agrees_run; [done..|]; intros e He; apply Hle; set_solver).
  pose proof (check_verdict now _ _ k Hag) as Hv. unfold run in *.
  set (st := foldl run_step (∅, []) events) in *. unfold run_step; simpl.
  destruct (check st.1 k now) as [[[] r] hits']; simpl in *; unfold window_count in *;
    [rewrite passed_allowed|by rewrite passed_denied].
  symmetry in Hv. apply Z.ltb_lt in Hv.
  case_decide as E; [subst k|by rewrite app_nil_r].
  rewrite filter_app, length_app, filter_cons, filter_nil. case_decide as Hin; simpl; [|lia].
  assert (Nat.le (length (filter (fun u => t - windowMs < u ∧ u <= t) (passed key st.2)))
    (length (live now (passed key st.2)))); [|lia].
  apply length_filter_le. intros u _ Hu. lia.
Qed.

Lemma ceil1000_le x : x <= 1000 * ceil1000 x.
Proof. unfold ceil1000. pose proof (Z.div_mod (- x) 1000). pose proof (Z.mod_pos_bound (- x) 1000). lia. Qed.

Lemma denied_verdict hits key now r hits' :
  check hits key now = (Verdict false r, hits') →
  ∃ l, hits' !! key = Some l ∧ max <= Z.of_nat (length l) ∧ live now l = l ∧
       1 <= r ∧ default now (head l) + windowMs - now <= 1000 * r.
Proof.
  unfold check. set (hs := if Z.of_nat (size hits) >? SWEEP_THRESHOLD then _ else _).
  destruct (Z.geb_spec (Z.of_nat (length (live now (default [] (hs !! key))))) max); [|done].
  intros [= <- <-]. eexists. rewrite lookup_insert_eq. split_and!; [done|done|by apply live_idemp|lia|].
  pose proof (ceil1000_le (default now (head (live now (default [] (hs !! key)))) + windowMs - now)). lia.
Qed.

End Limiter.

(** ** The bucket key *)

(** JavaScript white space among the 8-bit code units. *)
Definition is_space (c : Ascii.ascii) : bool :=
  let n := Ascii.nat_of_ascii c in
  (Nat.leb 9 n && Nat.leb n 13) || Nat.eqb n 32 || Nat.eqb n 160.

Fixpoint trim_start (s : string) : string :=
  match s with
  | String c s' => if is_space c then trim_start s' else s
  | EmptyString => EmptyString
  end.

Fixpoint trim_end (s : string) : string :=
  match s with
  | String c s' =>
      match trim_end s' with
      | EmptyString => if is_space c then EmptyString else String c EmptyString
      | t => String c t
      end
  | EmptyString => EmptyString
  end.

Definition trim (s : string) : string := trim_end (trim_start s).

(** [s.split(",")] *)
Fixpoint split_comma (s : string) : list string :=
  match s with
  | EmptyString => [EmptyString]
  | String c s' =>
      if decide (c = ","%char) then EmptyString :: split_comma s'
      else match split_comma s' with
           | p :: ps => String c p :: ps
           | [] => [String c EmptyString]
           end
  end.

(** [Number.parseInt(raw, 10)]: the leading digits after blanks and a sign. *)
Fixpoint digits (acc : option Z) (s : string) : option Z :=
  match s with
  | EmptyString => acc
  | String c s' =>
      let d := Z.of_nat (Ascii.nat_of_ascii c) - 48 in
      if (0 <=? d) && (d <=? 9) then digits (Some (default 0 acc * 10 + d)) s' else acc
  end.

Definition parseInt10 (raw : string) : option Z :=
  match trim_start raw with
  | String c s' =>
      if decide (c = "-"%char) then Z.opp <$> digits None s'
      else if decide (c = "+"%char) then digits None s'
      else digits None (String c s')
  | EmptyString => None
  end.

(** [Number.isFinite]: an integer that does not round to infinity as a double. *)
Definition is_finite (n : Z) : bool := Z.abs n <? 2 ^ 1024 - 2 ^ 970.

(** [process.env] *)
Abbreviation environment := (gmap string string).

(** A positive finite integer of the environment, or a fallback; an empty
    string is falsy. *)
Definition envMax (env : environment) (name : string) (fallback : Z) : Z :=
  match env !! name with
  | None | Some EmptyString => fallback
  | Some raw =>
      match parseInt10 raw with
      | Some n => if is_finite n && (n >? 0) then n else fallback
      | None => fallback
      end
  end.

Definition trustedProxyHops (env : environment) : Z :=
  match env !! "MINISTER_TRUSTED_PROXY_HOPS" with
  | None | Some EmptyString => 0
  | Some raw =>
      match parseInt10 raw with
      | Some n => if is_finite n && (n >? 0) then n else 0
      | None => 0
      end
  end.

Definition xff_parts (xff : string) : list string :=
  filter (fun p => p ≠ EmptyString) (trim <$> split_comma xff).

Definition clientIpFrom (env : environment) (headers : string → option string) : string :=
  let trustedHeader := default "cf-connecting-ip" (env !! "MINISTER_CLIENT_IP_HEADER") in
  let fromHeader :=
    if decide (trustedHeader = EmptyString) then EmptyString
    else default EmptyString (trim <$> headers trustedHeader) in
  if decide (fromHeader = EmptyString) then
    let hops := trustedProxyHops env in
    if hops >? 0 then
      match headers "x-forwarded-for" with
      | None | Some EmptyString => "unknown"
      | Some xff =>
          let parts := xff_parts xff in
          let idx := Z.max 0 (Z.of_nat (length parts) - hops) in
          match parts !! Z.to_nat idx with
          | None | Some EmptyString => "unknown"
          | Some trusted => trusted
          end
      end
    else "unknown"
  else fromHeader.

(** The limiters of the guarded surfaces: window and cap. *)
Definition MINUTE : Z := 60000.

Definition oidcTokenLimiter (env : environment) : Z * Z :=
  (MINUTE, envMax env "MINISTER_RL_TOKEN_MAX" 30).
Definition oidcUserinfoLimiter (env : environment) : Z * Z :=
  (MINUTE, envMax env "MINISTER_RL_USERINFO_MAX" 60).
Definition oidcAuthorizeLimiter (env : environment) : Z * Z :=
  (MINUTE, envMax env "MINISTER_RL_AUTHORIZE_MAX" 30).
Definition tlsnSubmitLimiter (env : environment) : Z * Z :=
  (MINUTE, envMax env "MINISTER_RL_TLSN_MAX" 10).
Definition signInEmailLimiter (env : environment) : Z * Z :=
  (15 * MINUTE, envMax env "MINISTER_RL_SIGNIN_MAX" 10).
Definition signInOtpIpLimiter (env : environment) : Z * Z :=
  (15 * MINUTE, envMax env "MINISTER_RL_OTP_IP_MAX" 30).
Definition signInOtpIdentityLimiter (env : environment) : Z * Z :=
  (15 * MINUTE, envMax env "MINISTER_RL_OTP_ID_MAX" 15).
Definition shareViewLimiter (env : environment) : Z * Z :=
  (MINUTE, envMax env "MINISTER_RL_SHARE_MAX" 60).
Definition anonSeedActionLimiter (env : environment) : Z * Z :=
  (MINUTE, envMax env "MINISTER_RL_ANON_SEED_MAX" 20).
Definition anonPairLimiter (env : environment) : Z * Z :=
  (MINUTE, envMax env "MINISTER_RL_ANON_PAIR_MAX" 120).

Lemma envMax_pos env name fallback : 0 < fallback → 0 < envMax env name fallback.
Proof.
  intros Hf. unfold envMax. destruct (env !! name) as [[|c s]|]; [done| |done].
  destruct (parseInt10 _) as [n|]; [|done]. destruct (is_finite n); simpl; [|done].
  destruct (Z.gtb_spec n 0); lia.
Qed.

Lemma split_comma_app a b : split_comma (a +:+ "," +:+ b) = split_comma a ++ split_comma b.
Proof.
  induction a as [|c a IH]; [done|]. change (String c a +:+ "," +:+ b) with (String c (a +:+ "," +:+ b)).
  cbn [split_comma]. case_decide; [by rewrite IH|]. rewrite IH.
  destruct (split_comma a) eqn:E; [|done]. destruct a as [|d a]; simpl in E; [done|].
  case_decide; [done|]. by destruct (split_comma a).
Qed.

Lemma xff_parts_app a b : xff_parts (a +:+ "," +:+ b) = xff_parts a ++ xff_parts b.
Proof. unfold xff_parts. by rewrite split_comma_app, fmap_app, filter_app. Qed.

(** ** Properties *)

(** C40: a limiter never lets a key through more than [max] times within any window of
    [windowMs] milliseconds, whatever the other keys do and whenever the map is swept. *)
Theorem rate_window_bound (windowMs max : Z) (events : list (string * Z)) (key : string) (t : Z) :
  0 < windowMs → 0 <= max → StronglySorted Z.le (snd <$> events) →
  Z.of_nat (window_count windowMs key t (run windowMs max events).2) <= max.
Proof. apply window_count_bound. Qed.

Definition burst : list (string * Z) := [("ip", 0); ("ip", 5); ("other", 6); ("ip", 9); ("ip", 12)].

Lemma rate_window_bound_witness :
  Z.of_nat (window_count 10 "ip" 9 (run 10 2 burst).2) <= 2.
Proof.
  apply (rate_window_bound 10 2 burst); [lia..|].
  solve_sorted.
Defined.

(** A limiter turns a key away only when its window is full: the verdict is [allowed]
    exactly when fewer than [max] passes of that key lie in the window ending now. *)
Theorem rate_verdict_exact (windowMs max : Z) (events : list (string * Z)) (key : string) (now : Z) :
  0 < windowMs → StronglySorted Z.le (snd <$> (events ++ [(key, now)])) →
  allowed (check windowMs max (run windowMs max events).1 key now).1 =
    (Z.of_nat (length (filter (fun u => now - windowMs < u)
       (passed key (run windowMs max events).2))) <? max).
Proof.
  intros Hw Hord. rewrite fmap_app in Hord. apply StronglySorted_app in Hord as (Hle & Hord & _).
  apply check_verdict, agrees_run; [done..|]. intros e He. apply Hle; set_solver.
Qed.

Lemma rate_verdict_exact_witness :
  allowed (check 10 2 (run 10 2 burst).1 "ip" 12).1 =
    (Z.of_nat (length (filter (fun u => 12 - 10 < u) (passed "ip" (run 10 2 burst).2))) <? 2).
Proof.
  apply (rate_verdict_exact 10 2 burst); [lia|].
  solve_sorted.
Defined.

(** The Retry-After hint is sufficient: a key turned away that waits the advertised number
    of seconds is let through by its next check. *)
Theorem retry_after_suffices (windowMs max : Z) (events : list (string * Z)) (key : string)
    (now r : Z) hits' :
  0 < windowMs → 0 < max → StronglySorted Z.le (snd <$> (events ++ [(key, now)])) →
  check windowMs max (run windowMs max events).1 key now = (Verdict false r, hits') →
  allowed (check windowMs max hits' key (now + 1000 * r)).1 = true.
Proof.
  intros Hw Hm Hord Hden.
  assert (Hord' := Hord). rewrite fmap_app in Hord'. apply StronglySorted_app in Hord' as (Hle & _ & _).
  assert (Hag : agrees windowMs now (run windowMs max (events ++ [(key, now)])).1
                                    (run windowMs max (events ++ [(key, now)])).2).
  { apply agrees_run; [done..|]. intros e [He| ->%list_elem_of_singleton]%elem_of_app; [|done].
    apply Hle; set_solver. }
  assert (Hb := window_count_bound windowMs max (events ++ [(key, now)]) key now Hw ltac:(lia) Hord).
  destruct (denied_verdict windowMs max _ _ _ _ _ Hden) as (l & Hl & Hlen & Hlive & Hr & Hold).
  revert Hag Hb. unfold run, run_step. rewrite foldl_snoc. simpl.
  fold (run_step windowMs max). fold (run windowMs max events). rewrite Hden. simpl.
  set (log := _ ++ _). intros Hag Hb.
  rewrite (check_verdict windowMs max _ _ log) by (apply agrees_later with now; [lia|done]).
  assert (Hpl : live windowMs now (passed key log) = l)
    by (rewrite <-(ag_live _ _ _ _ Hag key), Hl; done).
  rewrite <-(live_idemp windowMs now), Hpl by lia.
  assert (Hcount : Z.of_nat (length l) <= max).
  { etrans; [|exact Hb]. unfold window_count. rewrite <-Hpl. apply inj_le.
    apply length_filter_le. intros u Hu ?. split; [done|]. by apply (ag_past _ _ _ _ Hag key). }
  destruct l as [|t l]; simpl in *; [lia|]. unfold live.
  rewrite filter_cons, decide_False by lia. apply Z.ltb_lt.
  pose proof (length_filter (fun t => now + 1000 * r - windowMs < t) l). lia.
Qed.

Lemma retry_after_suffices_witness :
  allowed (check 10 2 (check 10 2 (run 10 2 burst).1 "ip" 12).2 "ip" (12 + 1000 * 1)).1 = true.
Proof.
  apply (retry_after_suffices 10 2 burst "ip" 12 1); [lia..| |vm_compute; reflexivity].
  solve_sorted.
Defined.

(** Behind [H] trusted proxies the bucket key is the entry written by the outermost of
    them; whatever a client puts in front of it in X-Forwarded-For does not change the key. *)
Theorem client_ip_unforgeable (env : environment) (headers : string → option string)
    (forged own : string) (ip : string) (rest : list string) :
  env !! "MINISTER_CLIENT_IP_HEADER" = Some EmptyString →
  headers "x-forwarded-for" = Some (forged +:+ "," +:+ own) →
  xff_parts own = ip :: rest →
  trustedProxyHops env = Z.of_nat (length (ip :: rest)) →
  clientIpFrom env headers = ip.
Proof.
  intros Henv Hx Hown Hh. unfold clientIpFrom. rewrite Henv, Hh. simpl default.
  rewrite !decide_True by done. destruct (Z.gtb_spec (Z.of_nat (length (ip :: rest))) 0); [|simpl in *; lia].
  rewrite Hx. assert (Hip : ip ≠ EmptyString).
  { assert (ip ∈ xff_parts own) as Hin by (rewrite Hown; left).
    by apply list_elem_of_filter in Hin as [? _]. }
  destruct (forged +:+ "," +:+ own) as [|c s] eqn:E; [by destruct forged|]. rewrite <-E.
  rewrite xff_parts_app, Hown, length_app.
  replace (Z.to_nat _) with (length (xff_parts forged) + 0)%nat by lia.
  rewrite lookup_app_r, Nat.add_0_r, Nat.sub_diag by lia. simpl. by destruct ip.
Qed.

Lemma client_ip_unforgeable_witness :
  clientIpFrom {[ "MINISTER_CLIENT_IP_HEADER" := ""; "MINISTER_TRUSTED_PROXY_HOPS" := "2" ]}
    (fun h => if decide (h = "x-forwarded-for") then Some "6.6.6.6, 9.9.9.9, 10.0.0.1" else None)
  = "9.9.9.9".
Proof.
  apply (client_ip_unforgeable _ _ "6.6.6.6" " 9.9.9.9, 10.0.0.1" "9.9.9.9" ["10.0.0.1"]);
    vm_compute; reflexivity.
Defined.
