(* ===== verification/Bitstring.v ===== *)
(** * Status-list bitstrings

    lib/status-list/bitstring.ts and constants.ts: the most-significant-bit-first
    encoding of a revocation shard.  A thrown range error is [None]. *)

From S2P Require Import Prelude.
Open Scope Z_scope.

Definition SHARD_SIZE_BITS : Z := 8192.
Definition SHARD_SIZE_BYTES : Z := SHARD_SIZE_BITS / 8.

(** A [Uint8Array]: bytes as integers in [[0, 256)]. *)
Abbreviation bytes := (list Z).

Definition newBitstring : bytes := replicate (Z.to_nat SHARD_SIZE_BYTES) 0.

Definition assertIndex (index : Z) : bool := (0 <=? index) && (index <? SHARD_SIZE_BITS).

Definition byteIndex (index : Z) : nat := Z.to_nat (Z.shiftr index 3).
Definition bitMask (index : Z) : Z := Z.shiftr 128 (Z.land index 7).

Definition getBit (bits : bytes) (index : Z) : option bool :=
  if assertIndex index then
    let byte := default 0 (bits !! byteIndex index) in
    Some (negb (Z.land byte (bitMask index) =? 0))
  else None.

(** Whether the bit changed, and the array after the (in-range) store. *)
Definition setBit (bits : bytes) (index : Z) : option (bool * bytes) :=
  if assertIndex index then
    let prev := default 0 (bits !! byteIndex index) in
    if negb (Z.land prev (bitMask index) =? 0) then Some (false, bits)
    else Some (true, <[byteIndex index := Z.lor prev (bitMask index)]> bits)
  else None.

(** ** Bits *)

Definition full (bits : bytes) : Prop := length bits = Z.to_nat SHARD_SIZE_BYTES.

(** Bit [i] of a shard, as a proposition. *)
Definition isSet (bits : bytes) (i : Z) : Prop := getBit bits i = Some true.

Lemma assertIndex_spec i : assertIndex i = true ↔ 0 <= i < SHARD_SIZE_BITS.
Proof. unfold assertIndex. rewrite andb_true_iff, Z.leb_le, Z.ltb_lt. done. Qed.

Lemma bitMask_pow i : 0 <= i → bitMask i = 2 ^ (7 - i mod 8).
Proof.
  intros Hi. unfold bitMask. change 7 with (Z.ones 3) at 1. rewrite Z.land_ones by lia.
  change (2 ^ 3) with 8. pose proof (Z.mod_pos_bound i 8 ltac:(lia)).
  rewrite Z.shiftr_div_pow2 by lia. change 128 with (2 ^ 7).
  rewrite <-Z.pow_sub_r by lia. done.
Qed.

Lemma land_pow2 b m : 0 <= m → negb (Z.land b (2 ^ m) =? 0) = Z.testbit b m.
Proof.
  intros Hm. rewrite Z.land_comm. destruct (Z.testbit b m) eqn:E.
  - apply negb_true_iff, Z.eqb_neq. intros H0.
    assert (Ht : Z.testbit (Z.land (2 ^ m) b) m = false) by (rewrite H0; apply Z.bits_0).
    rewrite Z.land_spec, Z.pow2_bits_true, E in Ht by lia. done.
  - apply negb_false_iff, Z.eqb_eq. apply Z.bits_inj'. intros n Hn.
    rewrite Z.land_spec, Z.bits_0, Z.pow2_bits_eqb by lia.
    destruct (Z.eqb_spec m n); [subst; by rewrite E|done].
Qed.

(** [getBit] reads one bit of one byte. *)
Lemma getBit_spec bits i :
  0 <= i < SHARD_SIZE_BITS →
  getBit bits i = Some (Z.testbit (default 0 (bits !! Z.to_nat (i / 8))) (7 - i mod 8)).
Proof.
  intros Hi. unfold getBit. rewrite (proj2 (assertIndex_spec i)) by done.
  rewrite bitMask_pow by lia. unfold byteIndex. rewrite Z.shiftr_div_pow2 by lia.
  change (2 ^ 3) with 8. f_equal. apply land_pow2.
  pose proof (Z.mod_pos_bound i 8 ltac:(lia)). lia.
Qed.

Lemma setBit_length bits i b bits' : setBit bits i = Some (b, bits') → length bits' = length bits.
Proof.
  unfold setBit. intros H. run_guards H; rewrite ?length_insert; done.
Qed.

Lemma setBit_some bits i : 0 <= i < SHARD_SIZE_BITS → is_Some (setBit bits i).
Proof.
  intros Hi. unfold setBit. rewrite (proj2 (assertIndex_spec i)) by done.
  destruct (negb _); eauto.
Qed.

Lemma setBit_range bits i r : setBit bits i = Some r → 0 <= i < SHARD_SIZE_BITS.
Proof.
  unfold setBit. destruct (assertIndex i) eqn:E; [|done]. intros _. by apply assertIndex_spec.
Qed.

(** Setting a bit sets exactly that bit. *)
Lemma setBit_get bits i b bits' j :
  full bits → setBit bits i = Some (b, bits') → 0 <= j < SHARD_SIZE_BITS →
  getBit bits' j = Some (if decide (i = j) then true else default false (getBit bits j)).
Proof.
  intros Hfull Hset Hj. assert (Hi := setBit_range _ _ _ Hset).
  revert Hset. unfold setBit. rewrite (proj2 (assertIndex_spec i)) by done.
  pose proof (Z.mod_pos_bound i 8 ltac:(lia)). pose proof (Z.mod_pos_bound j 8 ltac:(lia)).
  pose proof (Z.div_mod i 8). pose proof (Z.div_mod j 8).
  rewrite bitMask_pow, land_pow2 by lia. unfold byteIndex. rewrite Z.shiftr_div_pow2 by lia.
  change (2 ^ 3) with 8. rewrite !(getBit_spec _ j) by done. simpl.
  destruct (Z.testbit _ _) eqn:Eb; intros [= <- <-].
  - case_decide; [subst|done]. by rewrite Eb.
  - assert (Hlt : (Z.to_nat (i / 8) < length bits)%nat).
    { rewrite Hfull. change SHARD_SIZE_BYTES with 1024. change SHARD_SIZE_BITS with 8192 in *.
      apply Z2Nat.inj_lt; [apply Z.div_pos; lia|lia|]. apply Z.div_lt_upper_bound; lia. }
    destruct (decide (i / 8 = j / 8)) as [Eq|Ne].
    + rewrite <-Eq, list_lookup_insert_eq by done. simpl. rewrite Z.lor_spec, Z.pow2_bits_eqb by lia.
      f_equal. destruct (Z.eqb_spec (7 - i mod 8) (7 - j mod 8)).
      * rewrite decide_True by lia. apply orb_true_r.
      * rewrite decide_False by (intros ->; lia). apply orb_false_r.
    + rewrite list_lookup_insert_ne.
      * rewrite decide_False by (intros ->; lia). done.
      * intros E. apply Ne. apply Z2Nat.inj in E; [done|apply Z.div_pos; lia..].
Qed.

(** [setBit] reports whether the bit was clear. *)
Lemma setBit_changed bits i b bits' :
  setBit bits i = Some (b, bits') → getBit bits i = Some (negb b).
Proof.
  unfold setBit, getBit. destruct (assertIndex i); [|done].
  destruct (negb _); by intros [= <- <-].
Qed.

Lemma full_new : full newBitstring.
Proof. apply length_replicate. Qed.

Lemma isSet_new i : ¬ isSet newBitstring i.
Proof.
  unfold isSet, newBitstring. intros H.
  assert (Hi : 0 <= i < SHARD_SIZE_BITS).
  { apply assertIndex_spec. unfold getBit in H. by destruct (assertIndex i). }
  rewrite getBit_spec in H by done.
  destruct (replicate _ _ !! _) as [x|] eqn:E; simpl in H; [|by rewrite Z.bits_0 in H].
  apply lookup_replicate in E as [-> _]. by rewrite Z.bits_0 in H.
Qed.

Lemma isSet_range bits i : isSet bits i → 0 <= i < SHARD_SIZE_BITS.
Proof. unfold isSet, getBit. destruct (assertIndex i) eqn:E; [|done]. by rewrite <-assertIndex_spec. Qed.

(** Bits only ever go from clear to set. *)
Definition bits_le (a b : bytes) : Prop := full b ∧ ∀ i, isSet a i → isSet b i.

Lemma setBit_isSet bits i b bits' j :
  full bits → setBit bits i = Some (b, bits') → isSet bits' j ↔ i = j ∨ isSet bits j.
Proof.
  intros Hf Hs. assert (Hi := setBit_range _ _ _ Hs). split.
  - intros Hj. assert (Hr := isSet_range _ _ Hj). unfold isSet in *.
    rewrite (setBit_get bits i b bits' j) in Hj by done.
    case_decide; [by left|]. right. destruct (getBit bits j); naive_solver.
  - intros [->|Hj]; unfold isSet in *.
    + rewrite (setBit_get bits j b bits' j) by done. by rewrite decide_True.
    + rewrite (setBit_get bits i b bits' j) by (done || by eapply isSet_range).
      case_decide; [done|]. by rewrite Hj.
Qed.

(** ** Properties *)

(** A shard's bits are independent cells: setting bit [i] of a full shard never fails for an
    index in range, reports whether the bit was clear, sets bit [i] and leaves every other bit
    alone. *)
Theorem setBit_sets_one_bit (bits : bytes) (i j : Z) :
  full bits → 0 <= i < SHARD_SIZE_BITS → 0 <= j < SHARD_SIZE_BITS →
  ∃ changed bits', setBit bits i = Some (changed, bits') ∧ full bits' ∧
    getBit bits i = Some (negb changed) ∧ getBit bits' i = Some true ∧
    (i ≠ j → getBit bits' j = getBit bits j).
Proof.
  intros Hf Hi Hj. destruct (setBit_some bits i Hi) as [[b bits'] Hs].
  exists b, bits'. split_and!; [done|unfold full; by erewrite setBit_length|by eapply setBit_changed| |].
  - rewrite (setBit_get bits i b bits' i) by done. by rewrite decide_True.
  - intros Hne. rewrite (setBit_get bits i b bits' j) by done. rewrite decide_False by done.
    by rewrite getBit_spec.
Qed.

Lemma setBit_sets_one_bit_witness :
  ∃ changed bits', setBit newBitstring 8191 = Some (changed, bits') ∧ full bits' ∧
    getBit newBitstring 8191 = Some (negb changed) ∧ getBit bits' 8191 = Some true ∧
    (8191 ≠ 8190 → getBit bits' 8190 = getBit newBitstring 8190).
Proof.
  apply (setBit_sets_one_bit newBitstring 8191 8190);
    [reflexivity|unfold SHARD_SIZE_BITS; lia|unfold SHARD_SIZE_BITS; lia].
Defined.
