(* ===== verification/Interleave.v ===== *)
(** * Programs that interleave with their peers

    A server function is a sequence of atomic database actions; between two of
    them other requests may change the database.  [prog DB A] makes that
    explicit: before each action the environment's next step is applied.  Claims
    about such programs are stated against a rely relation that every step of the
    environment is assumed to respect. *)

From S2P Require Import Prelude.

Section Prog.
Context {DB : Type}.

(** The environment's steps, the index of the next one, and the database. *)
Definition prog (A : Type) : Type := (nat → DB → DB) → nat → DB → A * nat * DB.

#[export] Instance prog_ret : MRet prog := fun A x peer k db => (x, k, db).

#[export] Instance prog_bind : MBind prog := fun A B f p peer k db =>
  let '(x, k', db') := p peer k db in f x peer k' db'.

(** One atomic action on the current database. *)
Definition atomic {A} (f : DB → A * DB) : prog A := fun peer k db =>
  let '(x, db') := f (peer k db) in (x, S k, db').

Definition query {A} (f : DB → A) : prog A := atomic (fun db => (f db, db)).
Definition update (f : DB → DB) : prog unit := atomic (fun db => (tt, f db)).

(** The environment that does nothing. *)
Definition alone : nat → DB → DB := fun _ db => db.

(** Run without interference. *)
Definition run_alone {A} (p : prog A) (db : DB) : A * DB :=
  let '(x, _, db') := p alone 0 db in (x, db').

(** [triple R P p Q]: started in a database that satisfies [P], with every step of
    the environment in [R], [p] ends with a result and a database that satisfy [Q]. *)
Definition triple {A} (R : DB → DB → Prop) (P : DB → Prop) (p : prog A) (Q : A → DB → Prop) : Prop :=
  ∀ peer, (∀ k db, R db (peer k db)) →
  ∀ k db, P db → Q (p peer k db).1.1 (p peer k db).2.

Lemma triple_ret {A} R (P : DB → Prop) (x : A) (Q : A → DB → Prop) :
  (∀ db, P db → Q x db) → triple R P (mret x) Q.
Proof. intros H peer _ k db. apply H. Qed.

Lemma triple_bind {A B} R P (p : prog A) (f : A → prog B) (M : A → DB → Prop) (Q : B → DB → Prop) :
  triple R P p M → (∀ x, triple R (M x) (f x) Q) → triple R P (p ≫= f) Q.
Proof.
  intros Hp Hf peer Hpeer k db HP. unfold mbind, prog_bind.
  specialize (Hp peer Hpeer k db HP). destruct (p peer k db) as [[x k'] db']. simpl in *.
  by apply (Hf x peer Hpeer k' db').
Qed.

Lemma triple_atomic {A} R P (f : DB → A * DB) (Q : A → DB → Prop) :
  (∀ db db', P db → R db db' → Q (f db').1 (f db').2) → triple R P (atomic f) Q.
Proof.
  intros H peer Hpeer k db HP. unfold atomic. specialize (H db (peer k db) HP (Hpeer k db)).
  by destruct (f (peer k db)).
Qed.

Lemma triple_query {A} R P (f : DB → A) (Q : A → DB → Prop) :
  (∀ db db', P db → R db db' → Q (f db') db') → triple R P (query f) Q.
Proof. intros H. by apply triple_atomic. Qed.

Lemma triple_update R P (f : DB → DB) (Q : unit → DB → Prop) :
  (∀ db db', P db → R db db' → Q tt (f db')) → triple R P (update f) Q.
Proof. intros H. by apply triple_atomic. Qed.

Lemma triple_weaken {A} R P P' (p : prog A) (Q Q' : A → DB → Prop) :
  triple R P p Q → (∀ db, P' db → P db) → (∀ x db, Q x db → Q' x db) → triple R P' p Q'.
Proof. intros H HP HQ peer Hpeer k db HP'. apply HQ, H; auto. Qed.

End Prog.

Arguments prog : clear implicits.
