(* ===== verification/Threads.v ===== *)
(** * Pools of request handlers

    A handler is a sequence of atomic database operations. Handlers of different requests
    interleave between any two of them, in any order: a pool runs under an arbitrary
    schedule. The accounting rule at the end bounds what the handlers of a pool can obtain
    together, by tokens that move between the database and the handlers. *)

From S2P Require Import Prelude.

Open Scope nat_scope.

(** ** Handlers *)

(** The result, or one atomic operation [f] and what follows, which may depend on the
    state the operation found. *)
Inductive thread (DB A : Type) : Type :=
  | Ret (a : A)
  | Step (f : DB → DB) (k : DB → thread DB A).
Arguments Ret {DB A} a.
Arguments Step {DB A} f k.

#[export] Instance thread_ret DB : MRet (thread DB) := fun A a => Ret a.

Fixpoint thread_bind_ {DB A B} (k : A → thread DB B) (t : thread DB A) : thread DB B :=
  match t with
  | Ret a => k a
  | Step f k' => Step f (fun db => thread_bind_ k (k' db))
  end.
#[export] Instance thread_bind DB : MBind (thread DB) := @thread_bind_ DB.

(** An atomic operation: a single statement, or a transaction. *)
Definition act {DB A} (f : DB → A * DB) : thread DB A :=
  Step (fun db => (f db).2) (fun db => Ret (f db).1).
Definition read {DB A} (f : DB → A) : thread DB A := act (fun db => (f db, db)).
Definition write {DB} (f : DB → DB) : thread DB unit := act (fun db => (tt, f db)).

(** A handler that no other handler interrupts. *)
Fixpoint run_solo {DB A} (t : thread DB A) (db : DB) : A * DB :=
  match t with
  | Ret a => (a, db)
  | Step f k => run_solo (k db) (f db)
  end.

Lemma run_solo_bind {DB A B} (t : thread DB A) (k : A → thread DB B) db :
  run_solo (t ≫= k) db = run_solo (k (run_solo t db).1) (run_solo t db).2.
Proof. revert db. induction t as [a|f k' IH]; intros db; simpl; [done|apply IH]. Qed.

Lemma run_solo_read {DB A B} (f : DB → A) (k : A → thread DB B) db :
  run_solo (read f ≫= k) db = run_solo (k (f db)) db.
Proof. done. Qed.

(** *** Handlers that throw *)

(** The rest of the handler runs unless an exception was thrown. *)
Definition tbind {DB E A B} (t : thread DB (result E A)) (k : A → thread DB (result E B)) : thread DB (result E B) :=
  r ← t; match r with Ok a => k a | Err e => mret (Err e) end.

(** A pure step that may throw. *)
Definition attempt {DB E A} (r : result E A) : thread DB (result E A) := mret r.

Notation "x ←! t ; k" := (tbind t (fun x => k)) (at level 20, t at level 100, k at level 200, right associativity) : minister_scope.

Lemma run_solo_tbind {DB E A B} (t : thread DB (result E A)) (k : A → thread DB (result E B)) db :
  run_solo (tbind t k) db =
    match (run_solo t db).1 with
    | Ok a => run_solo (k a) (run_solo t db).2
    | Err e => (Err e, (run_solo t db).2)
    end.
Proof. unfold tbind. rewrite run_solo_bind. by destruct (run_solo t db).1. Qed.

(** *** Handlers of a part of the database *)
Fixpoint zoom {DB S A} (get : DB → S) (set : S → DB → DB) (t : thread S A) : thread DB A :=
  match t with
  | Ret a => Ret a
  | Step f k => Step (fun db => set (f (get db)) db) (fun db => zoom get set (k (get db)))
  end.

Lemma run_solo_zoom {DB S A} (get : DB → S) (set : S → DB → DB) (t : thread S A) db :
  (∀ x db, get (set x db) = x) → (∀ x y db, set x (set y db) = set x db) → (∀ db, set (get db) db = db) →
  run_solo (zoom get set t) db = ((run_solo t (get db)).1, set (run_solo t (get db)).2 db).
Proof.
  intros Hgs Hss Hsg. revert db. induction t as [a|f k IH]; intros db; simpl; [by rewrite Hsg|].
  by rewrite IH, Hgs, Hss.
Qed.

(** ** Pools *)

(** The handler at position [i] makes its next operation. *)
Definition pool_step {DB A} (i : nat) (st : list (thread DB A) * DB) : list (thread DB A) * DB :=
  match st.1 !! i with
  | Some (Step f k) => (<[i := k st.2]> st.1, f st.2)
  | _ => st
  end.

(** A run of the pool under a schedule. *)
Definition pool_run {DB A} (sched : list nat) (st : list (thread DB A) * DB) :
    list (thread DB A) * DB :=
  foldl (fun st i => pool_step i st) st sched.

(** The results of the handlers that have finished. *)
Definition returned {DB A} (ts : list (thread DB A)) : list A :=
  omap (fun t => match t with Ret a => Some a | Step _ _ => None end) ts.

(** ** Token accounting

    [I m db] holds when the database accounts for [m] tokens. A handler that holds [n]
    tokens may, at each operation, move tokens between itself and the database; it ends
    with a result its tokens pay for. *)
Section Tokens.
Context {DB : Type} (I : nat → DB → Prop).

Fixpoint uses {A} (Q : A → nat → Prop) (n : nat) (t : thread DB A) : Prop :=
  match t with
  | Ret a => Q a n
  | Step f k => ∀ m db, I m db → ∃ m' n', m' + n' ≤ m + n ∧ I m' (f db) ∧ uses Q n' (k db)
  end.

Lemma uses_impl {A} (Q Q' : A → nat → Prop) n t :
  (∀ a n, Q a n → Q' a n) → uses Q n t → uses Q' n t.
Proof.
  intros HQ. revert n. induction t as [a|f k IH]; intros n H; simpl in *; [by apply HQ|].
  intros m db HI. destruct (H m db HI) as (m' & n' & ? & ? & ?). eauto 6.
Qed.

Lemma uses_bind {A B} (Q : B → nat → Prop) n (t : thread DB A) (k : A → thread DB B) :
  uses (fun a n' => uses Q n' (k a)) n t → uses Q n (t ≫= k).
Proof.
  revert n. induction t as [a|f k' IH]; intros n H; simpl in *; [done|].
  intros m db HI. destruct (H m db HI) as (m' & n' & ? & ? & ?). exists m', n'. eauto.
Qed.

Lemma uses_ret {A} (Q : A → nat → Prop) n a : Q a n → uses Q n (mret a : thread DB A).
Proof. done. Qed.

(** A read moves no token; what it found is known of some state of the database. *)
Lemma uses_read {A B} (Q : B → nat → Prop) n (f : DB → A) (k : A → thread DB B) :
  (∀ m db, I m db → uses Q n (k (f db))) → uses Q n (read f ≫= k).
Proof. intros H m db HI. exists m, n. split_and!; [lia|done|]. simpl. by eapply H. Qed.

(** An operation that keeps the accounting. *)
Lemma uses_act {A B} (Q : B → nat → Prop) n (f : DB → A * DB) (k : A → thread DB B) :
  (∀ m db, I m db → ∃ m' n', m' + n' ≤ m + n ∧ I m' (f db).2 ∧ uses Q n' (k (f db).1)) →
  uses Q n (act f ≫= k).
Proof. intros H m db HI. by apply H. Qed.

Lemma uses_write {B} (Q : B → nat → Prop) n (f : DB → DB) (k : unit → thread DB B) :
  (∀ m db, I m db → ∃ m' n', m' + n' ≤ m + n ∧ I m' (f db) ∧ uses Q n' (k tt)) →
  uses Q n (write f ≫= k).
Proof. intros H m db HI. by apply H. Qed.

(** *** The accounting rule *)

Context {A : Type} (Q : A → nat → Prop).

(** Handlers with the tokens they hold. *)
Definition funded (ts : list (thread DB A)) (ns : list nat) : Prop := Forall2 (fun t n => uses Q n t) ts ns.

Lemma sum_list_insert (ns : list nat) i n n' :
  ns !! i = Some n → sum_list (<[i := n']> ns) + n = sum_list ns + n'.
Proof using.
  clear. revert i. induction ns as [|x ns IH]; intros [|i] H; simplify_eq/=; [lia|].
  specialize (IH i H). lia.
Qed.

Lemma pool_step_funded i ts db ns m :
  I m db → funded ts ns →
  ∃ m' ns', I m' (pool_step i (ts, db)).2 ∧ funded (pool_step i (ts, db)).1 ns' ∧
    m' + sum_list ns' ≤ m + sum_list ns.
Proof using.
  intros HI Hf. unfold pool_step. simpl.
  destruct (ts !! i) as [[a|f k]|] eqn:E; [by exists m, ns| |by exists m, ns].
  destruct (Forall2_lookup_l _ _ _ _ _ Hf E) as (n & Hn & Hu).
  destruct (Hu m db HI) as (m' & n' & Hle & HI' & Hu'). exists m', (<[i := n']> ns). simpl.
  split_and!; [done| |].
  - by apply Forall2_insert.
  - pose proof (sum_list_insert ns i n n' Hn). lia.
Qed.

Lemma pool_run_funded sched ts db ns m :
  I m db → funded ts ns →
  ∃ m' ns', I m' (pool_run sched (ts, db)).2 ∧ funded (pool_run sched (ts, db)).1 ns' ∧
    m' + sum_list ns' ≤ m + sum_list ns.
Proof using.
  unfold pool_run. revert ts db ns m. induction sched as [|i sched IH]; intros ts db ns m HI Hf; cbn [foldl].
  { by exists m, ns. }
  destruct (pool_step_funded i ts db ns m HI Hf) as (m1 & ns1 & H1 & H2 & Hle).
  destruct (pool_step i (ts, db)) as [ts1 db1] eqn:E.
  destruct (IH ts1 db1 ns1 m1 H1 H2) as (m2 & ns2 & ? & ? & ?). exists m2, ns2. split_and!; [done..|lia].
Qed.

Lemma returned_funded (cost : A → nat) ts ns :
  (∀ a n, Q a n → cost a ≤ n) → funded ts ns → sum_list (cost <$> returned ts) ≤ sum_list ns.
Proof using.
  intros Hcost. unfold returned. induction 1 as [|t n ts ns Hu Hf IH]; [done|].
  destruct t as [a|f k]; cbn in *; [apply Hcost in Hu|]; lia.
Qed.

Lemma returned_post (P : A → Prop) ts ns :
  (∀ a n, Q a n → P a) → funded ts ns → Forall P (returned ts).
Proof using.
  intros HP. unfold returned. induction 1 as [|t n ts ns Hu Hf IH]; [constructor|].
  destruct t as [a|f k]; cbn in *; [|done]. constructor; [by eapply HP|done].
Qed.

(** Handlers that start without tokens obtain together at most what the database had, keep
    its invariant, and return results that satisfy their postcondition. *)
Lemma pool_accounts (cost : A → nat) (P : A → Prop) sched ts db m :
  (∀ a n, Q a n → cost a ≤ n ∧ P a) → I m db → Forall (uses Q 0) ts →
  sum_list (cost <$> returned (pool_run sched (ts, db)).1) ≤ m ∧
  Forall P (returned (pool_run sched (ts, db)).1) ∧
  ∃ m', I m' (pool_run sched (ts, db)).2.
Proof using.
  intros HQ HI Hts. assert (Hf : funded ts (replicate (length ts) 0)).
  { apply Forall2_same_length_lookup_2; [by rewrite length_replicate|].
    intros i t n Ht [-> _]%lookup_replicate. rewrite Forall_lookup in Hts. by eapply Hts. }
  destruct (pool_run_funded sched ts db _ m HI Hf) as (m' & ns' & HI' & Hf' & Hle).
  assert (Hz : sum_list (replicate (length ts) 0) = 0) by (clear; induction (length ts); simpl; lia).
  split_and!; [|eapply returned_post; [|done]; naive_solver|eauto].
  assert (sum_list (cost <$> returned (pool_run sched (ts, db)).1) ≤ sum_list ns'); [|lia].
  apply returned_funded; [naive_solver|done].
Qed.

End Tokens.

(** ** Frames

    A handler all of whose operations stay within a relation on databases. *)
Section Frame.
Context {DB : Type} (R : DB → DB → Prop).

Fixpoint steps_in {A} (t : thread DB A) : Prop :=
  match t with
  | Ret _ => True
  | Step f k => ∀ db, R db (f db) ∧ steps_in (k db)
  end.

Lemma steps_in_ret {A} (a : A) : steps_in (mret a).
Proof. done. Qed.

Lemma steps_in_bind {A B} (t : thread DB A) (k : A → thread DB B) :
  steps_in t → (∀ a, steps_in (k a)) → steps_in (t ≫= k).
Proof.
  intros Ht Hk. induction t as [a|f k' IH]; simpl in *; [apply Hk|].
  intros db. destruct (Ht db). split; [done|]. by apply IH.
Qed.

Lemma steps_in_act {A} (f : DB → A * DB) : (∀ db, R db (f db).2) → steps_in (act f).
Proof. intros H db. by split. Qed.

Lemma steps_in_write (f : DB → DB) : (∀ db, R db (f db)) → steps_in (write f).
Proof. intros H db. by split. Qed.

Lemma steps_in_read `{!Reflexive R} {A} (f : DB → A) : steps_in (read f).
Proof. intros db. by split. Qed.

Lemma steps_in_run `{!PreOrder R} {A} (t : thread DB A) db : steps_in t → R db (run_solo t db).2.
Proof.
  revert db. induction t as [a|f k IH]; intros db H; simpl in *; [done|].
  destruct (H db). etrans; [done|]. by apply IH.
Qed.

(** Handlers that stay within the relation do so under every schedule. *)
Lemma steps_in_pool `{!PreOrder R} {A} (ts : list (thread DB A)) sched db :
  Forall steps_in ts → R db (pool_run sched (ts, db)).2.
Proof.
  unfold pool_run. revert ts db. induction sched as [|i sched IH]; intros ts db Hts; cbn [foldl]; [done|].
  unfold pool_step at 2. cbn [fst snd].
  destruct (ts !! i) as [[a|f k]|] eqn:E; [by apply IH| |by apply IH].
  assert (steps_in (Step f k)) as Hs by (rewrite Forall_lookup in Hts; by eapply Hts).
  destruct (Hs db) as [HR Hk]. etrans; [exact HR|]. apply IH. by apply Forall_insert.
Qed.

Lemma steps_in_uses {A} (I : nat → DB → Prop) (t : thread DB A) n :
  (∀ m db db', I m db → R db db' → I m db') → steps_in t → uses I (fun _ n' => n' = n) n t.
Proof.
  intros HI. revert n. induction t as [a|f k IH]; intros n H; simpl in *; [done|].
  intros m db Hm. destruct (H db). exists m, n. split_and!; [lia|eauto|by apply IH].
Qed.

(** A framed handler in front of a continuation keeps the accounting. *)
Lemma uses_frame {A B} (I : nat → DB → Prop) (Q : B → nat → Prop) n (t : thread DB A) (k : A → thread DB B) :
  (∀ m db db', I m db → R db db' → I m db') → steps_in t → (∀ a, uses I Q n (k a)) → uses I Q n (t ≫= k).
Proof.
  intros HI Ht Hk. apply uses_bind. eapply uses_impl; [|by apply steps_in_uses].
  intros a n' ->. apply Hk.
Qed.

End Frame.

(** A handler of a part, framed in its part. *)
Lemma steps_in_zoom {DB S A} (RS : S → S → Prop) (R : DB → DB → Prop) (get : DB → S) (set : S → DB → DB) (t : thread S A) :
  (∀ x db, RS (get db) x → R db (set x db)) → steps_in RS t → steps_in R (zoom get set t).
Proof.
  intros H. induction t as [a|f k IH]; simpl; [done|]. intros Ht db. destruct (Ht (get db)). split; [by apply H|by apply IH].
Qed.

(** The accounting of a part holds in the larger database, beside what the part does not touch. *)
Lemma uses_zoom {DB S A} (get : DB → S) (set : S → DB → DB) (I : nat → S → Prop) (J : DB → Prop) (Q : A → nat → Prop) n (t : thread S A) :
  (∀ x db, get (set x db) = x) → (∀ x db, J db → J (set x db)) →
  uses I Q n t → uses (fun m db => I m (get db) ∧ J db) Q n (zoom get set t).
Proof.
  intros Hgs HJ. revert n. induction t as [a|f k IH]; intros n H; simpl in *; [done|].
  intros m db [HI Hdb]. destruct (H m (get db) HI) as (m' & n' & ? & ? & ?). exists m', n'. rewrite Hgs. eauto 6.
Qed.

(** ** Invariants

    A handler each of whose operations keeps an invariant; what it returns satisfies [Q],
    which may use that the invariant held whenever the handler read. *)
Section Invariant.
Context {DB : Type} (I : DB → Prop).

Fixpoint stays {A} (Q : A → Prop) (t : thread DB A) : Prop :=
  match t with
  | Ret a => Q a
  | Step f k => ∀ db, I db → I (f db) ∧ stays Q (k db)
  end.

Lemma stays_impl {A} (Q Q' : A → Prop) t : (∀ a, Q a → Q' a) → stays Q t → stays Q' t.
Proof. intros HQ. induction t as [a|f k IH]; simpl; [apply HQ|]. intros H db Hdb. destruct (H db Hdb). auto. Qed.

Lemma stays_ret {A} (Q : A → Prop) (a : A) : Q a → stays Q (mret a).
Proof. done. Qed.

Lemma stays_bind {A B} (Q : B → Prop) (t : thread DB A) (k : A → thread DB B) :
  stays (fun a => stays Q (k a)) t → stays Q (t ≫= k).
Proof.
  induction t as [a|f k' IH]; simpl; [done|]. intros H db Hdb. destruct (H db Hdb). split; [done|]. by apply IH.
Qed.

Lemma stays_tbind {E A B} (Q : result E B → Prop) (t : thread DB (result E A)) (k : A → thread DB (result E B)) :
  stays (fun r => match r with Ok a => stays Q (k a) | Err e => Q (Err e) end) t → stays Q (tbind t k).
Proof. intros H. apply stays_bind. eapply stays_impl; [|exact H]. by intros [a|e]. Qed.

Lemma stays_act {A} (Q : A → Prop) (f : DB → A * DB) :
  (∀ db, I db → I (f db).2 ∧ Q (f db).1) → stays Q (act f).
Proof. done. Qed.

Lemma stays_read {A} (Q : A → Prop) (f : DB → A) : (∀ db, I db → Q (f db)) → stays Q (read f).
Proof. intros H db Hdb. split; [done|]. by apply H. Qed.

Lemma stays_write (Q : unit → Prop) (f : DB → DB) : (∀ db, I db → I (f db)) → Q tt → stays Q (write f).
Proof. intros H HQ db Hdb. split; [by apply H|done]. Qed.

(** A handler that never writes what the invariant is about. *)
Lemma stays_frame {A} (R : DB → DB → Prop) (t : thread DB A) :
  (∀ db db', I db → R db db' → I db') → steps_in R t → stays (fun _ => True) t.
Proof.
  intros HI. induction t as [a|f k IH]; simpl; [done|]. intros H db Hdb. destruct (H db). split; [by eapply HI|by apply IH].
Qed.

Lemma stays_solo {A} (Q : A → Prop) t db : stays Q t → I db → I (run_solo t db).2 ∧ Q (run_solo t db).1.
Proof. revert db. induction t as [a|f k IH]; simpl; intros db Hs Hdb; [done|]. destruct (Hs db Hdb). by apply IH. Qed.

(** Handlers that keep the invariant do so under every schedule. *)
Lemma stays_pool {A} (Q : A → Prop) (ts : list (thread DB A)) sched db :
  Forall (stays Q) ts → I db → I (pool_run sched (ts, db)).2 ∧ Forall Q (returned (pool_run sched (ts, db)).1).
Proof.
  unfold pool_run. revert ts db. induction sched as [|i sched IH]; intros ts db Hts Hdb; cbn [foldl].
  - split; [done|]. unfold returned. induction Hts as [|[a|f k] ts Ht Hts IHt]; cbn; [constructor|by constructor|done].
  - unfold pool_step at 2 4. cbn [fst snd].
    destruct (ts !! i) as [[a|f k]|] eqn:E; [by apply IH| |by apply IH].
    assert (stays Q (Step f k)) as Hs by (rewrite Forall_lookup in Hts; by eapply Hts).
    destruct (Hs db Hdb). apply IH; [by apply Forall_insert|done].
Qed.

End Invariant.

(** ** Rely and guarantee

    Handlers whose operations keep an invariant and move within a preorder [R]; between two
    operations of a handler the database moves within [R] as well, so a fact that [R] keeps
    stays true once a handler has read it. *)
Section RelyGuarantee.
Context {DB : Type} (I : DB → Prop) (R : DB → DB → Prop) `{!PreOrder R}.

(** [db0] is the database after the handler's last operation. *)
Fixpoint follows {A} (Q : A → Prop) (db0 : DB) (t : thread DB A) : Prop :=
  match t with
  | Ret a => Q a
  | Step f k => ∀ db, I db → R db0 db → I (f db) ∧ R db (f db) ∧ follows Q (f db) (k db)
  end.

Lemma follows_impl {A} (Q Q' : A → Prop) db0 t : (∀ a, Q a → Q' a) → follows Q db0 t → follows Q' db0 t.
Proof using.
  intros HQ. revert db0. induction t as [a|f k IH]; intros db0; simpl; [apply HQ|].
  intros H db Hdb HR. destruct (H db Hdb HR) as (? & ? & ?). auto.
Qed.

Lemma follows_ret {A} (Q : A → Prop) db0 (a : A) : Q a → follows Q db0 (mret a).
Proof using. done. Qed.

(** A handler may start later. *)
Lemma follows_later {A} (Q : A → Prop) db0 db1 t : R db0 db1 → follows Q db0 t → follows Q db1 t.
Proof using Type*.
  destruct t as [a|f k]; simpl; [done|]. intros H01 H db Hdb HR. apply H; [done|]. by etrans.
Qed.

(** An operation in front of a handler: what follows may use what the operation found. *)
Lemma follows_act {A B} (Q : B → Prop) db0 (f : DB → A * DB) (k : A → thread DB B) :
  (∀ db, I db → R db0 db → I (f db).2 ∧ R db (f db).2 ∧ follows Q (f db).2 (k (f db).1)) →
  follows Q db0 (act f ≫= k).
Proof using. done. Qed.

Lemma follows_read {A B} (Q : B → Prop) db0 (f : DB → A) (k : A → thread DB B) :
  (∀ db, I db → R db0 db → follows Q db (k (f db))) → follows Q db0 (read f ≫= k).
Proof using Type*. intros H db Hdb HR. split; [done|]. split; [done|]. by apply H. Qed.

Lemma follows_map {A B} (g : A → B) db0 t :
  follows (fun _ => True) db0 t → follows (fun _ => True) db0 (x ← t; mret (g x)).
Proof using.
  revert db0. induction t as [a|f k IH]; intros db0 Ht; [done|]. intros db Hdb HR.
  destruct (Ht db Hdb HR) as (? & ? & ?). split_and!; [done|done|]. by apply IH.
Qed.

(** Handlers that follow the protocol keep the invariant and the preorder under every
    schedule. *)
Lemma follows_pool {A} (Q : A → Prop) (ts : list (thread DB A)) sched db :
  Forall (follows Q db) ts → I db →
  I (pool_run sched (ts, db)).2 ∧ R db (pool_run sched (ts, db)).2 ∧ Forall Q (returned (pool_run sched (ts, db)).1).
Proof using Type*.
  unfold pool_run. revert ts db. induction sched as [|i sched IH]; intros ts db Hts Hdb; cbn [foldl].
  - split_and!; [done|done|]. unfold returned.
    induction Hts as [|[a|f k] ts Ht Hts IHt]; cbn; [constructor|by constructor|done].
  - unfold pool_step at 2 4 6. cbn [fst snd].
    destruct (ts !! i) as [[a|f k]|] eqn:E; [by apply IH| |by apply IH].
    assert (follows Q db (Step f k)) as Hs by (rewrite Forall_lookup in Hts; by eapply Hts).
    destruct (Hs db Hdb ltac:(done)) as (HI & HR & Hk). destruct (IH (<[i := k db]> ts) (f db)) as (H1 & H2 & H3); [|done|].
    + apply Forall_insert; [|done]. eapply Forall_impl; [exact Hts|]. intros t. by apply follows_later.
    + split_and!; [done|by etrans|done].
Qed.

Lemma follows_solo {A} (Q : A → Prop) t db :
  follows Q db t → I db → I (run_solo t db).2 ∧ R db (run_solo t db).2 ∧ Q (run_solo t db).1.
Proof using Type*.
  revert db. induction t as [a|f k IH]; simpl; intros db Hs Hdb; [done|].
  destruct (Hs db Hdb ltac:(done)) as (HI & HR & Hk). destruct (IH _ _ Hk HI) as (? & ? & ?).
  split_and!; [done|by etrans|done].
Qed.

End RelyGuarantee.

(** ** Ownership

    Handlers that own tokens, such as the rows they have inserted and not yet confirmed.
    [I g db] is an invariant of the database and of all the tokens owned at the moment; [R g]
    is what the owner of [g] may rely on while others move. An operation may change what its
    handler owns, never what the others do. *)
Section Ownership.
Context {T : Type} `{Countable T} {DB : Type}.
Context (I : gset T → DB → Prop) (R : gset T → DB → DB → Prop).
Context `{!∀ g, PreOrder (R g)}.

(** A handler that owns [g] when [db0] is the database after its last operation, never owns
    a token outside [U], and ends with [Q] of its result, its tokens and the database. *)
Fixpoint owns {A} (U : T → Prop) (Q : A → gset T → DB → Prop) (g : gset T) (db0 : DB) (t : thread DB A) : Prop :=
  match t with
  | Ret a => Q a g db0
  | Step f k => ∀ F db, g ## F → I (g ∪ F) db → R g db0 db →
      ∃ g', set_Forall U g' ∧ g' ## F ∧ I (g' ∪ F) (f db) ∧ R F db (f db) ∧ owns U Q g' (f db) (k db)
  end.

(** A postcondition that others keep. *)
Definition kept {A} (Q : A → gset T → DB → Prop) : Prop := ∀ a g db db', R g db db' → Q a g db → Q a g db'.

Lemma owns_impl {A} U (Q Q' : A → gset T → DB → Prop) g db0 t :
  (∀ a g db, Q a g db → Q' a g db) → owns U Q g db0 t → owns U Q' g db0 t.
Proof using.
  intros HQ. revert g db0. induction t as [a|f k IH]; intros g db0; simpl; [apply HQ|].
  intros H1 F db HF HI HR. destruct (H1 F db HF HI HR) as (g' & ? & ? & ? & ? & ?). exists g'. split_and!; auto.
Qed.

Lemma owns_later {A} U (Q : A → gset T → DB → Prop) g db0 db1 t : kept Q → R g db0 db1 → owns U Q g db0 t → owns U Q g db1 t.
Proof using Type*.
  intros HQ H01. destruct t as [a|f k]; simpl; [by apply HQ|]. intros H1 F db HF HI HR. apply H1; [done|done|]. by etrans.
Qed.

Lemma owns_bind {A B} U (Q : B → gset T → DB → Prop) g db0 (t : thread DB A) (k : A → thread DB B) :
  owns U (fun a g db => owns U Q g db (k a)) g db0 t → owns U Q g db0 (t ≫= k).
Proof using.
  revert g db0. induction t as [a|f k' IH]; intros g db0; simpl; [done|].
  intros H1 F db HF HI HR. destruct (H1 F db HF HI HR) as (g' & ? & ? & ? & ? & ?). exists g'. split_and!; try done. by apply IH.
Qed.

Lemma owns_ret {A} U (Q : A → gset T → DB → Prop) g db0 a : Q a g db0 → owns U Q g db0 (mret a).
Proof using. done. Qed.

(** One operation. *)
Lemma owns_act {A B} U (Q : B → gset T → DB → Prop) g db0 (f : DB → A * DB) (k : A → thread DB B) :
  (∀ F db, g ## F → I (g ∪ F) db → R g db0 db →
     ∃ g', set_Forall U g' ∧ g' ## F ∧ I (g' ∪ F) (f db).2 ∧ R F db (f db).2 ∧ owns U Q g' (f db).2 (k (f db).1)) →
  owns U Q g db0 (act f ≫= k).
Proof using. done. Qed.

Lemma owns_read {A B} U (Q : B → gset T → DB → Prop) g db0 (f : DB → A) (k : A → thread DB B) :
  set_Forall U g → (∀ F db, g ## F → I (g ∪ F) db → R g db0 db → owns U Q g db (k (f db))) → owns U Q g db0 (read f ≫= k).
Proof using Type*. intros HU H1 F db HF HI HR. exists g. split_and!; [done..|]. by eapply H1. Qed.

(** A handler in front of a continuation, by what the handler ends with. *)
Lemma owns_then {A B} U (P : A → gset T → DB → Prop) (Q : B → gset T → DB → Prop) g db0 (t : thread DB A) (k : A → thread DB B) :
  owns U P g db0 t → (∀ a g' db, P a g' db → owns U Q g' db (k a)) → owns U Q g db0 (t ≫= k).
Proof using. intros Ht Hk. apply owns_bind. eapply owns_impl; [|exact Ht]. exact Hk. Qed.

Lemma owns_thenT {E A B} U (P : result E A → gset T → DB → Prop) (Q : result E B → gset T → DB → Prop) g db0
    (t : thread DB (result E A)) (k : A → thread DB (result E B)) :
  owns U P g db0 t → (∀ e g' db, P (Err e) g' db → Q (Err e) g' db) → (∀ a g' db, P (Ok a) g' db → owns U Q g' db (k a)) →
  owns U Q g db0 (tbind t k).
Proof using. intros Ht He Hk. eapply owns_then; [exact Ht|]. intros [a|e] g' db HP; [by apply Hk|by apply He]. Qed.

(** A single operation, by what it ends with. *)
Lemma owns_step {A} U (Q : A → gset T → DB → Prop) g db0 (f : DB → A * DB) :
  (∀ F db, g ## F → I (g ∪ F) db → R g db0 db →
     ∃ g', set_Forall U g' ∧ g' ## F ∧ I (g' ∪ F) (f db).2 ∧ R F db (f db).2 ∧ Q (f db).1 g' (f db).2) →
  owns U Q g db0 (act f).
Proof using. done. Qed.

(** What a handler may rely on, when it ends. *)
Lemma kept_owns {A B} U (Q : B → gset T → DB → Prop) (k : A → thread DB B) : kept Q → kept (fun a g db => owns U Q g db (k a)).
Proof using Type*. intros HQ a g db db' HR. by apply owns_later. Qed.

(** *** Pools *)

Context (R_mono : ∀ g g' db db', g ⊆ g' → R g' db db' → R g db db').

(** The tokens of the handlers before [n], and of all of them but [i]. *)
Definition total (n : nat) (g : nat → gset T) : gset T := ⋃ (g <$> seq 0 n).
Definition without_at (i : nat) (g : nat → gset T) (j : nat) : gset T := if decide (j = i) then ∅ else g j.
Definition with_at (i : nat) (x : gset T) (g : nat → gset T) (j : nat) : gset T := if decide (j = i) then x else g j.

Lemma elem_of_total n g x : x ∈ total n g ↔ ∃ i, (i < n)%nat ∧ x ∈ g i.
Proof using.
  unfold total. rewrite elem_of_union_list. split.
  - intros (X & (i & -> & Hi%elem_of_seq)%list_elem_of_fmap & Hx). exists i. split; [lia|done].
  - intros (i & Hi & Hx). exists (g i). split; [|done]. apply list_elem_of_fmap. exists i. split; [done|]. apply elem_of_seq. lia.
Qed.

Lemma total_with_at n g i x : i < n → total n (with_at i x g) = x ∪ total n (without_at i g).
Proof using.
  intros Hi. apply leibniz_equiv. intros y. rewrite elem_of_union, !elem_of_total. unfold with_at, without_at. split.
  - intros (j & Hj & Hy). destruct (decide (j = i)) as [->|Hji]; [by left|]. right. exists j. by rewrite decide_False.
  - intros [Hy|(j & Hj & Hy)]; [exists i; by rewrite decide_True|]. exists j.
    destruct (decide (j = i)) as [->|Hji]; [by apply not_elem_of_empty in Hy|done].
Qed.

(** The handlers of a pool: [U i] bounds the tokens of the one at [i], [Q i] is its
    postcondition. *)
Definition pool_owns {A} (U : nat → T → Prop) (Q : nat → A → gset T → DB → Prop) (g : nat → gset T) (ts : list (thread DB A)) (db : DB) : Prop :=
  (∀ i t, ts !! i = Some t → owns (U i) (Q i) (g i) db t ∧ set_Forall (U i) (g i)) ∧
  (∀ i j, i ≠ j → i < length ts → j < length ts → g i ## g j) ∧ I (total (length ts) g) db.

Lemma pool_step_owns {A} U (Q : nat → A → gset T → DB → Prop) g ts db i :
  (∀ i, kept (Q i)) → pool_owns U Q g ts db →
  ∃ g', pool_owns U Q g' (pool_step i (ts, db)).1 (pool_step i (ts, db)).2.
Proof using Type*.
  intros HQ (Ht & Hd & HI). unfold pool_step. cbn [fst snd].
  destruct (ts !! i) as [[a|f k]|] eqn:E; [by exists g| |by exists g]. cbn [fst snd].
  pose proof (lookup_lt_Some _ _ _ E) as Hi. destruct (Ht i _ E) as [Ho HU].
  assert (total (length ts) g = g i ∪ total (length ts) (without_at i g)) as Htot.
  { rewrite <-(total_with_at _ g i (g i)) by done. unfold total. f_equal. apply list_fmap_ext. intros j y _. unfold with_at.
    by destruct (decide (y = i)) as [->|]. }
  assert (g i ## total (length ts) (without_at i g)) as Hdis.
  { intros x Hx (j & Hj & Hxj)%elem_of_total. unfold without_at in Hxj. destruct (decide (j = i)); [by apply not_elem_of_empty in Hxj|].
    by apply (Hd i j ltac:(done) Hi Hj x). }
  rewrite Htot in HI. destruct (Ho _ _ Hdis HI ltac:(done)) as (g' & HU' & Hd' & HI' & HR & Ho').
  exists (with_at i g' g). split_and!.
  - intros j t Hj. unfold with_at. destruct (decide (j = i)) as [->|Hji].
    + rewrite list_lookup_insert_eq in Hj by done. injection Hj as <-. done.
    + rewrite list_lookup_insert_ne in Hj by done. destruct (Ht j t Hj) as [Hoj HUj]. split; [|done].
      eapply owns_later; [apply HQ| |done]. eapply R_mono; [|done]. intros x Hx. apply elem_of_total. exists j.
      split; [by eapply lookup_lt_Some|]. unfold without_at. by rewrite decide_False.
  - rewrite length_insert. intros j1 j2 Hne Hl1 Hl2 x. unfold with_at.
    assert (∀ j, j ≠ i → j < length ts → x ∈ g j → x ∈ total (length ts) (without_at i g)) as Hin.
    { intros j Hji Hj Hx. apply elem_of_total. exists j. split; [done|]. unfold without_at. by rewrite decide_False. }
    destruct (decide (j1 = i)) as [->|H1]; destruct (decide (j2 = i)) as [->|H2]; [done| | |by apply Hd].
    + intros Hx Hx2. by apply (Hd' x Hx), (Hin j2).
    + intros Hx1 Hx. by apply (Hd' x Hx), (Hin j1).
  - rewrite length_insert, total_with_at by done. done.
Qed.

(** Under every schedule the invariant holds of the database and the tokens of the handlers;
    one that has finished has its postcondition. *)
Lemma owns_pool {A} U (Q : nat → A → gset T → DB → Prop) g ts db sched :
  (∀ i, kept (Q i)) → pool_owns U Q g ts db →
  ∃ g', pool_owns U Q g' (pool_run sched (ts, db)).1 (pool_run sched (ts, db)).2.
Proof using Type*.
  intros HQ. unfold pool_run. revert g ts db. induction sched as [|i sched IH]; intros g ts db Hp; cbn [foldl]; [by exists g|].
  destruct (pool_step_owns U Q g ts db i HQ Hp) as [g' Hp']. rewrite (surjective_pairing (pool_step i (ts, db))). by eapply IH.
Qed.

End Ownership.

Lemma pool_run_length {DB A} sched (ts : list (thread DB A)) db : length (pool_run sched (ts, db)).1 = length ts.
Proof.
  unfold pool_run. revert ts db. induction sched as [|i sched IH]; intros ts db; cbn [foldl]; [done|].
  rewrite (surjective_pairing (pool_step i (ts, db))), IH. unfold pool_step. cbn [fst snd].
  destruct (ts !! i) as [[a|f k]|]; [done|apply length_insert|done].
Qed.

(** ** Progress

    A handler that makes at most [n] operations, whatever it finds, and returns what satisfies
    [Q]. *)
Fixpoint ends_within {DB A} (Q : A → Prop) (n : nat) (t : thread DB A) {struct t} : Prop :=
  match t with
  | Ret a => Q a
  | Step _ k => match n with O => False | S m => ∀ db, ends_within Q m (k db) end
  end.

Lemma ends_within_mono {DB A} (P Q : A → Prop) n m (t : thread DB A) :
  n ≤ m → (∀ a, P a → Q a) → ends_within P n t → ends_within Q m t.
Proof.
  intros Hle HPQ. revert n m Hle. induction t as [a|f k IH]; intros n m Hle; [apply HPQ|]. destruct n as [|n]; [done|].
  destruct m as [|m]; [lia|]. intros H db. eapply IH; [|apply H]. lia.
Qed.

Lemma ends_within_bind {DB A B} (P : A → Prop) (Q : B → Prop) n m (t : thread DB A) (k : A → thread DB B) :
  ends_within P n t → (∀ a, P a → ends_within Q m (k a)) → ends_within Q (n + m) (t ≫= k).
Proof.
  intros Ht Hk. revert n Ht. induction t as [a|f k' IH]; intros n Ht.
  - eapply (ends_within_mono Q); [|done|by apply Hk]. lia.
  - destruct n as [|n]; [done|]. intros db. apply IH. apply Ht.
Qed.

Lemma ends_within_tbind {DB E A B} (P : result E A → Prop) (Q : result E B → Prop) n m (t : thread DB (result E A)) (k : A → thread DB (result E B)) :
  ends_within P n t → (∀ e, P (Err e) → Q (Err e)) → (∀ a, P (Ok a) → ends_within Q m (k a)) → ends_within Q (n + m) (tbind t k).
Proof. intros Ht He Hk. eapply ends_within_bind; [exact Ht|]. intros [a|e] HP; [by apply Hk|by apply He]. Qed.

(** A handler that has had its turns is done. *)
Lemma ends_within_pool {DB A} (Q : A → Prop) sched (ts : list (thread DB A)) db i n t :
  ts !! i = Some t → ends_within Q n t → n ≤ count_occ Nat.eq_dec sched i →
  ∃ a, (pool_run sched (ts, db)).1 !! i = Some (Ret a) ∧ Q a.
Proof.
  unfold pool_run. revert ts db n t. induction sched as [|j sched IH]; intros ts db n t Ht Hn Hc; cbn [foldl].
  - destruct t as [a|f k]; [by exists a|]. destruct n; [done|]. simpl in Hc. lia.
  - unfold pool_step at 2. cbn [fst snd]. destruct (Nat.eq_dec j i) as [->|Hji].
    + rewrite Ht. rewrite count_occ_cons_eq in Hc by done. destruct t as [a|f k]; [apply (IH _ _ 0 (Ret a)); [done|done|lia]|].
      destruct n as [|n]; [done|]. apply (IH _ _ n (k db)); [|apply Hn|lia]. apply list_lookup_insert_eq. by eapply lookup_lt_Some.
    + rewrite count_occ_cons_neq in Hc by done. destruct (ts !! j) as [[a|f k]|]; try by eapply IH.
      eapply IH; [|exact Hn|done]. by rewrite list_lookup_insert_ne.
Qed.
