(* ===== verification/StatusList.v ===== *)
(** * Revocation status lists

    lib/status-list/{allocate,revoke,publish}.ts: per-relying-party revocation
    handles, their lazy allocation, the revocation of a fact's handles, and the
    publication of the signed lists.  A thrown error is [None]. *)

From S2P Require Import Prelude Interleave Bitstring.
Open Scope Z_scope.

(** ** Constants *)
Definition KMS_RAW_SIGN_MAX_BYTES : Z := 4096.
Definition VALIDITY_WINDOW_MS : Z := 15 * 60000.
Definition HEARTBEAT_MS : Z := VALIDITY_WINDOW_MS / 3.
Definition JITTER_MAX_MS : Z := 4 * 60000.
Definition LIST_TTL_MS : Z := 60000.
Definition MAX_RANDOM_ATTEMPTS : nat := 24.
Definition PUBLISH_MAX_ATTEMPTS : nat := 4.

(** ** Tables *)

Record StatusListRow := {
  sl_clientId : string;
  sl_shardNo : Z;
  sl_version : Z;
  sl_bits : bytes;
  sl_signedJwt : string;
  sl_publishedAt : Z;
}.

(** Keyed by (statusAnchor, clientId), the table's first unique constraint. *)
Record BadgeStatusEntry := {
  en_listId : string;
  en_bitIndex : Z;
  en_revokedAt : option Z;
  en_revealAfter : option Z;
}.

Inductive AuditRow :=
  | AnchorRevoked (actor : option string) (anchor reason : string) (entries : Z)
  | ListPublished (listId : string) (version : Z) (changed : bool) (revokedBits : Z).

Record DB := {
  db_lists : gmap string StatusListRow;
  db_entries : gmap (string * string) BadgeStatusEntry;
  db_tombstones : gmap string (Z * string);
  db_audit : list AuditRow;
}.

Definition with_lists (m : gmap string StatusListRow) (db : DB) : DB :=
  {| db_lists := m; db_entries := db_entries db;
     db_tombstones := db_tombstones db; db_audit := db_audit db |}.
Definition with_entries (m : gmap (string * string) BadgeStatusEntry) (db : DB) : DB :=
  {| db_lists := db_lists db; db_entries := m;
     db_tombstones := db_tombstones db; db_audit := db_audit db |}.
Definition with_tombstones (m : gmap string (Z * string)) (db : DB) : DB :=
  {| db_lists := db_lists db; db_entries := db_entries db;
     db_tombstones := m; db_audit := db_audit db |}.
Definition audit (row : AuditRow) (db : DB) : DB :=
  {| db_lists := db_lists db; db_entries := db_entries db;
     db_tombstones := db_tombstones db; db_audit := db_audit db ++ [row] |}.

(** ** Anchors and URLs *)

Definition groupMembershipAnchor (membershipId : string) : string := "gm:" +:+ membershipId.
Definition genericBadgeAnchor (badgeId : string) : string := "badge:" +:+ badgeId.
Definition statusListUrl (origin listId : string) : string := origin +:+ "/status/" +:+ listId.

(** ** Allocation *)

Record AllocatedStatus := { al_listId : string; al_bitIndex : Z }.
Record ShardRow := { sh_id : string; sh_shardNo : Z }.

(** The outcome of [badgeStatusEntry.create]: the violated unique constraint, if any. *)
Inductive ConstraintKind := AnchorTaken | IndexTaken.

Definition index_taken (db : DB) (listId : string) (bitIndex : Z) : bool :=
  existsb (fun '(_, e) => bool_decide (en_listId e = listId) && (en_bitIndex e =? bitIndex))
    (map_to_list (db_entries db)).

Definition createEntry (key : string * string) (e : BadgeStatusEntry) (db : DB) :
    option ConstraintKind * DB :=
  match db_entries db !! key with
  | Some _ => (Some AnchorTaken, db)
  | None =>
      if index_taken db (en_listId e) (en_bitIndex e) then (Some IndexTaken, db)
      else (None, with_entries (<[key := e]> (db_entries db)) db)
  end.

Definition findExisting (statusAnchor clientId : string) (db : DB) : option AllocatedStatus :=
  (fun e => {| al_listId := en_listId e; al_bitIndex := en_bitIndex e |}) <$>
    db_entries db !! (statusAnchor, clientId).

(** [statusList.findUnique] on (clientId, shardNo). *)
Definition findShard (clientId : string) (shardNo : Z) (db : DB) : option ShardRow :=
  (fun '(id, row) => {| sh_id := id; sh_shardNo := sl_shardNo row |}) <$>
    head (filter (fun '(_, row) => sl_clientId row = clientId ∧ sl_shardNo row = shardNo)
            (map_to_list (db_lists db))).

(** [findFirst] by descending [shardNo]. *)
Definition topShard (clientId : string) (db : DB) : option ShardRow :=
  foldr (fun '(id, row) best =>
      if decide (sl_clientId row = clientId) then
        match best with
        | Some b => if sh_shardNo b <? sl_shardNo row
                    then Some {| sh_id := id; sh_shardNo := sl_shardNo row |} else best
        | None => Some {| sh_id := id; sh_shardNo := sl_shardNo row |}
        end
      else best) None (map_to_list (db_lists db)).

Definition countEntries (listId : string) (db : DB) : Z :=
  Z.of_nat (length (filter (fun '(_, e) => en_listId e = listId) (map_to_list (db_entries db)))).

Definition anchorRevokedAt (statusAnchor : string) (db : DB) : option Z :=
  fst <$> db_tombstones db !! statusAnchor.

Definition clearEntry (e : BadgeStatusEntry) : bool := bool_decide (en_revokedAt e = None).

Definition stamp (revokedAt revealAfter : Z) (e : BadgeStatusEntry) : BadgeStatusEntry :=
  {| en_listId := en_listId e; en_bitIndex := en_bitIndex e;
     en_revokedAt := Some revokedAt; en_revealAfter := Some revealAfter |}.

(** [updateMany] guarded on [revokedAt: null]. *)
Definition forceRevokeEntry (now : Z) (statusAnchor clientId : string) (db : DB) : DB :=
  with_entries (alter (fun e => if clearEntry e then stamp now now e else e)
                  (statusAnchor, clientId) (db_entries db)) db.

Section Allocate.
(** The generated id of a new list, the random draws of the two shard attempts,
    and the wall clock. *)
Context (cuid : gmap string StatusListRow → string) (draw1 draw2 : nat → Z) (now : Z).

Definition createShard (clientId : string) (shardNo : Z) (db : DB) : option ShardRow * DB :=
  match findShard clientId shardNo db with
  | Some _ => (None, db)
  | None =>
      let id := cuid (db_lists db) in
      (Some {| sh_id := id; sh_shardNo := shardNo |},
       with_lists (<[id := {| sl_clientId := clientId; sl_shardNo := shardNo; sl_version := 0;
                              sl_bits := newBitstring; sl_signedJwt := "";
                              sl_publishedAt := now |}]> (db_lists db)) db)
  end.

Definition getOrCreateShard (clientId : string) (shardNo : Z) : prog DB (option ShardRow) :=
  created ← atomic (createShard clientId shardNo);
  match created with
  | Some row => mret (Some row)
  | None => query (findShard clientId shardNo)
  end.

Definition currentWritableShard (clientId : string) : prog DB (option ShardRow) :=
  top ← query (topShard clientId);
  match top with
  | None => getOrCreateShard clientId 0
  | Some top =>
      count ← query (countEntries (sh_id top));
      if 3 * SHARD_SIZE_BITS <=? 4 * count
      then getOrCreateShard clientId (sh_shardNo top + 1)
      else mret (Some top)
  end.

Fixpoint allocateInShard (attempts attempt : nat) (draw : nat → Z) (list : ShardRow)
    (statusAnchor clientId : string) (revokedAt : option Z) : prog DB (option AllocatedStatus) :=
  match attempts with
  | O => mret None
  | S attempts' =>
      let bitIndex := draw attempt in
      outcome ← atomic (createEntry (statusAnchor, clientId)
        {| en_listId := sh_id list; en_bitIndex := bitIndex;
           en_revokedAt := revokedAt; en_revealAfter := revokedAt |});
      match outcome with
      | None => mret (Some {| al_listId := sh_id list; al_bitIndex := bitIndex |})
      | Some AnchorTaken =>
          raced ← query (findExisting statusAnchor clientId);
          match raced with
          | Some raced => mret (Some raced)
          | None => allocateInShard attempts' (S attempt) draw list statusAnchor clientId revokedAt
          end
      | Some IndexTaken =>
          allocateInShard attempts' (S attempt) draw list statusAnchor clientId revokedAt
      end
  end.

(** The two shard attempts of [allocateStatusEntry]. *)
Definition allocateFresh (statusAnchor clientId : string) (revokedAt : option Z) :
    prog DB (option AllocatedStatus) :=
  shard ← currentWritableShard clientId;
  match shard with
  | None => mret None
  | Some shard =>
      first ← allocateInShard MAX_RANDOM_ATTEMPTS 0 draw1 shard statusAnchor clientId revokedAt;
      match first with
      | Some alloc => mret (Some alloc)
      | None =>
          next ← getOrCreateShard clientId (sh_shardNo shard + 1);
          match next with
          | None => mret None
          | Some next =>
              allocateInShard MAX_RANDOM_ATTEMPTS 0 draw2 next statusAnchor clientId revokedAt
          end
      end
  end.

Definition allocateStatusEntry (statusAnchor clientId : string) :
    prog DB (option AllocatedStatus) :=
  revokedAt ← query (anchorRevokedAt statusAnchor);
  existing ← query (findExisting statusAnchor clientId);
  match existing with
  | Some existing =>
      match revokedAt with
      | Some _ => _ ← update (forceRevokeEntry now statusAnchor clientId); mret (Some existing)
      | None => mret (Some existing)
      end
  | None =>
      alloc ← allocateFresh statusAnchor clientId revokedAt;
      match alloc with
      | None => mret None
      | Some alloc =>
          revoked ← match revokedAt with
                    | Some _ => mret true
                    | None => again ← query (anchorRevokedAt statusAnchor);
                              mret (match again with Some _ => true | None => false end)
                    end;
          if (revoked : bool)
          then _ ← update (forceRevokeEntry now statusAnchor clientId); mret (Some alloc)
          else mret (Some alloc)
      end
  end.

End Allocate.

(** ** Revocation *)

(** The keys of the still-clear entries of an anchor. *)
Definition clearKeys (anchor : string) (db : DB) : list (string * string) :=
  fst <$> filter (fun '(key, e) => key.1 = anchor ∧ en_revokedAt e = None) (map_to_list (db_entries db)).

(** The [for (const entry of entries)] loop: each entry gets its own jitter. *)
Definition stampAll (now : Z) (jitter : nat → Z) (l : list (nat * (string * string)))
    (m : gmap (string * string) BadgeStatusEntry) : gmap (string * string) BadgeStatusEntry :=
  foldl (fun m '(i, key) => alter (stamp now (now + jitter i)) key m) m l.

(** The writes of the transaction: the tombstone (the first one wins), the entries
    read earlier, each with its own jitter, and the audit row. *)
Definition revokeWrites (now : Z) (jitter : nat → Z) (anchor reason : string)
    (actor : option string) (keys : list (string * string)) (db : DB) : DB :=
  let db := match db_tombstones db !! anchor with
            | Some _ => db
            | None => with_tombstones (<[anchor := (now, reason)]> (db_tombstones db)) db
            end in
  let entries := stampAll now jitter (imap pair keys) (db_entries db) in
  audit (AnchorRevoked actor anchor reason (Z.of_nat (length keys))) (with_entries entries db).

Definition revokeStatusAnchor (now : Z) (jitter : nat → Z) (anchor reason : string)
    (actor : option string) (db : DB) : Z * DB :=
  let keys := clearKeys anchor db in
  (Z.of_nat (length keys), revokeWrites now jitter anchor reason actor keys db).

(** ** Publication *)

Record StatusListCredentialPayload := {
  pl_iss : string;
  pl_sub : string;
  pl_iat : Z;
  pl_exp : Z;
  pl_jti : string;
  pl_statusListVersion : Z;
  pl_subjectId : string;
  pl_encodedList : string;
  pl_ttl : Z;
}.

Record PublishResult := {
  pr_published : bool;
  pr_version : option Z;
  pr_changed : bool;
  pr_revokedBits : Z;
}.

Definition notPublished : PublishResult :=
  {| pr_published := false; pr_version := None; pr_changed := false; pr_revokedBits := 0 |}.

Section Publish.
(** Minister's public origin and DID, the generated jti, the gzip + base64url
    encoder, the JWS signing input of a payload, and the key's signature. *)
Context (origin did : string) (randomUUID : string)
        (encodeList : bytes → string)
        (signingInput : StatusListCredentialPayload → string)
        (sign : string → option string).

Definition buildStatusListPayload (listId : string) (bits : bytes) (version nowMs : Z) :
    StatusListCredentialPayload :=
  let url := statusListUrl origin listId in
  {| pl_iss := did; pl_sub := url; pl_iat := nowMs / 1000;
     pl_exp := (nowMs + VALIDITY_WINDOW_MS) / 1000; pl_jti := randomUUID;
     pl_statusListVersion := version; pl_subjectId := url +:+ "#list";
     pl_encodedList := encodeList bits; pl_ttl := LIST_TTL_MS |}.

Definition signStatusListCredential (payload : StatusListCredentialPayload) : option string :=
  let input := signingInput payload in
  if Z.of_nat (String.length input) >? KMS_RAW_SIGN_MAX_BYTES then None
  else (fun signature => input +:+ "." +:+ signature) <$> sign input.

(** A revoked entry whose jitter floor has passed, or was never set. *)
Definition due (nowMs : Z) (e : BadgeStatusEntry) : bool :=
  negb (clearEntry e) && match en_revealAfter e with Some t => t <=? nowMs | None => true end.

Definition eligible (listId : string) (nowMs : Z) (db : DB) : list Z :=
  (fun '(_, e) => en_bitIndex e) <$>
    filter (fun '(_, e) => en_listId e = listId ∧ due nowMs e = true) (map_to_list (db_entries db)).

(** The loop over the eligible entries: the bits, whether one changed, how many. *)
Fixpoint setBits (bits : bytes) (changed : bool) (revokedBits : Z) (indices : list Z) :
    option (bytes * bool * Z) :=
  match indices with
  | [] => Some (bits, changed, revokedBits)
  | i :: rest =>
      match setBit bits i with
      | None => None
      | Some (true, bits') => setBits bits' true (revokedBits + 1) rest
      | Some (false, bits') => setBits bits' changed revokedBits rest
      end
  end.

(** [updateMany] guarded on the version that was read; the number of rows written. *)
Definition guardedWrite (listId : string) (readVersion : Z) (newRow : StatusListRow → StatusListRow)
    (db : DB) : nat * DB :=
  match db_lists db !! listId with
  | Some row => if sl_version row =? readVersion
                then (1%nat, with_lists (<[listId := newRow row]> (db_lists db)) db)
                else (0%nat, db)
  | None => (0%nat, db)
  end.

Definition published (bits : option bytes) (version : Z) (signedJwt : string) (nowMs : Z)
    (row : StatusListRow) : StatusListRow :=
  {| sl_clientId := sl_clientId row; sl_shardNo := sl_shardNo row; sl_version := version;
     sl_bits := default (sl_bits row) bits; sl_signedJwt := signedJwt; sl_publishedAt := nowMs |}.

Fixpoint publishAttempts (attempts : nat) (listId : string) (nowMs : Z) (force : bool) :
    prog DB (option PublishResult) :=
  match attempts with
  | O => mret (Some notPublished)
  | S attempts' =>
      row ← query (fun db => db_lists db !! listId);
      match row with
      | None => mret (Some notPublished)
      | Some row =>
          indices ← query (eligible listId nowMs);
          match setBits (sl_bits row) false 0 indices with
          | None => mret None
          | Some (bits, changed, revokedBits) =>
              let neverPublished := bool_decide (sl_signedJwt row = "") in
              let stale := HEARTBEAT_MS <=? nowMs - sl_publishedAt row in
              if negb changed && negb neverPublished && negb stale && negb force
              then mret (Some notPublished)
              else
                let version := Z.max (sl_version row + 1) (nowMs / 1000) in
                match signStatusListCredential (buildStatusListPayload listId bits version nowMs) with
                | None => mret None
                | Some signedJwt =>
                    count ← atomic (guardedWrite listId (sl_version row)
                      (published (if changed then Some bits else None) version signedJwt nowMs));
                    if Nat.eqb count 0 then publishAttempts attempts' listId nowMs force
                    else
                      _ ← update (audit (ListPublished listId version changed revokedBits));
                      mret (Some {| pr_published := true; pr_version := Some version;
                                    pr_changed := changed; pr_revokedBits := revokedBits |})
                end
          end
      end
  end.

Definition publishList (listId : string) (nowMs : Z) (force : bool) : prog DB (option PublishResult) :=
  publishAttempts PUBLISH_MAX_ATTEMPTS listId nowMs force.

Record PublisherRunSummary := {
  ps_lists : Z;
  ps_published : Z;
  ps_changed : Z;
  ps_failed : list string;
}.

(** One pass: a list whose publication throws is collected and the sweep goes on. *)
Fixpoint sweepLists (ids : list string) (nowMs : Z) (sum : PublisherRunSummary) :
    prog DB PublisherRunSummary :=
  match ids with
  | [] => mret sum
  | id :: rest =>
      result ← publishList id nowMs false;
      sweepLists rest nowMs
        match result with
        | None => {| ps_lists := ps_lists sum; ps_published := ps_published sum;
                     ps_changed := ps_changed sum; ps_failed := ps_failed sum ++ [id] |}
        | Some r => {| ps_lists := ps_lists sum;
                       ps_published := ps_published sum + (if pr_published r then 1 else 0);
                       ps_changed := ps_changed sum + (if pr_changed r then 1 else 0);
                       ps_failed := ps_failed sum |}
        end
  end.

Definition runPublisherOnce (nowMs : Z) : prog DB PublisherRunSummary :=
  ids ← query (fun db => fst <$> map_to_list (db_lists db));
  sweepLists ids nowMs
    {| ps_lists := Z.of_nat (length ids); ps_published := 0; ps_changed := 0; ps_failed := [] |}.

End Publish.

(** *** Properties of one publication *)

Lemma setBits_spec indices bits changed n bits' changed' n' :
  full bits → setBits bits changed n indices = Some (bits', changed', n') →
  full bits' ∧ (∀ j, isSet bits' j ↔ j ∈ indices ∨ isSet bits j) ∧
  (changed' = false → bits' = bits ∧ changed = false).
Proof.
  revert bits changed n. induction indices as [|i rest IH]; intros bits changed n Hf Hs; simpl in Hs.
  { simplify_eq. split_and!; [done|set_solver|done]. }
  destruct (setBit bits i) as [[b bits1]|] eqn:E; [|done].
  assert (Hf1 : full bits1) by (unfold full; by erewrite setBit_length).
  assert (Hs1 : ∀ j, isSet bits1 j ↔ i = j ∨ isSet bits j) by (intros; by eapply setBit_isSet).
  destruct b.
  - destruct (IH _ _ _ Hf1 Hs) as (H1 & H2 & H3). split_and!; [done| |].
    + intros j. rewrite H2, Hs1, elem_of_cons. naive_solver.
    + intros Hc. destruct (H3 Hc). done.
  - assert (bits1 = bits) as ->.
    { revert E. unfold setBit. intros E. run_guards E. done. }
    destruct (IH _ _ _ Hf1 Hs) as (H1 & H2 & H3). split_and!; [done| |done].
    intros j. rewrite H2, elem_of_cons. specialize (Hs1 j). naive_solver.
Qed.

(** ** Handles under interleaving *)

(** No bit is handed out twice, and every handle is a bit of its shard. *)
Definition handles_ok (db : DB) : Prop :=
  (∀ k1 k2 e1 e2, db_entries db !! k1 = Some e1 → db_entries db !! k2 = Some e2 →
     en_listId e1 = en_listId e2 → en_bitIndex e1 = en_bitIndex e2 → k1 = k2) ∧
  (∀ k e, db_entries db !! k = Some e → 0 <= en_bitIndex e < SHARD_SIZE_BITS).

Definition same_handle (e e' : BadgeStatusEntry) : Prop :=
  en_listId e = en_listId e' ∧ en_bitIndex e = en_bitIndex e'.

Definition revoked (e : BadgeStatusEntry) : Prop := en_revokedAt e ≠ None.

(** Once the anchor has its tombstone, the handle of [key] is revoked. *)
Definition settled (key : string * string) (db : DB) : Prop :=
  is_Some (db_tombstones db !! key.1) → ∀ e, db_entries db !! key = Some e → revoked e.

(** What a call relies on: other requests keep handles, tombstones and the
    invariants, and leave [key] settled (a revocation commits its tombstone
    together with the entries that exist at that moment). *)
Record peers_ok (key : string * string) (db db' : DB) : Prop := {
  po_keep : ∀ k e, db_entries db !! k = Some e →
    ∃ e', db_entries db' !! k = Some e' ∧ same_handle e e';
  po_tomb : ∀ a, is_Some (db_tombstones db !! a) → is_Some (db_tombstones db' !! a);
  po_ok : handles_ok db → handles_ok db';
  po_settled : settled key db → settled key db';
}.

Definition holds_handle (key : string * string) (a : AllocatedStatus) (db : DB) : Prop :=
  ∃ e, db_entries db !! key = Some e ∧ al_listId a = en_listId e ∧ al_bitIndex a = en_bitIndex e.

Definition knows_revoked (anchor : string) (r : option Z) (db : DB) : Prop :=
  is_Some r → is_Some (db_tombstones db !! anchor).

Lemma holds_handle_stable key a db db' :
  peers_ok key db db' → holds_handle key a db → holds_handle key a db'.
Proof.
  intros HR (e & He & H1 & H2). destruct (po_keep _ _ _ HR _ _ He) as (e' & He' & E1 & E2).
  exists e'. split; [done|]. by rewrite H1, H2, E1, E2.
Qed.

Lemma knows_revoked_stable key anchor r db db' :
  peers_ok key db db' → knows_revoked anchor r db → knows_revoked anchor r db'.
Proof. intros HR H Hr. apply (po_tomb _ _ _ HR), H, Hr. Qed.

Lemma index_taken_spec db listId i :
  index_taken db listId i = true ↔
  ∃ k e, db_entries db !! k = Some e ∧ en_listId e = listId ∧ en_bitIndex e = i.
Proof.
  unfold index_taken. rewrite existsb_exists. split.
  - intros ([k e] & Hin%list_elem_of_In%elem_of_map_to_list & Hb). bool_hyps. eauto.
  - intros (k & e & He & <- & <-). exists (k, e).
    rewrite <-list_elem_of_In, elem_of_map_to_list. split; [done|].
    by rewrite bool_decide_eq_true_2, Z.eqb_refl.
Qed.

(** A created entry takes a free bit; a refused one changes nothing. *)
Lemma createEntry_spec key e db :
  0 <= en_bitIndex e < SHARD_SIZE_BITS → handles_ok db →
  handles_ok (createEntry key e db).2 ∧
  db_tombstones (createEntry key e db).2 = db_tombstones db ∧
  ((createEntry key e db).1 = None → db_entries (createEntry key e db).2 !! key = Some e).
Proof.
  intros Hr [Hu Hrange]. unfold createEntry. destruct (db_entries db !! key) eqn:Ek; [done|].
  destruct (index_taken db (en_listId e) (en_bitIndex e)) eqn:Et; [done|]. simpl.
  assert (Hfree : ∀ k e', db_entries db !! k = Some e' → en_listId e = en_listId e' →
    en_bitIndex e = en_bitIndex e' → False).
  { intros k e' He' H1 H2. apply not_true_iff_false in Et. apply Et, index_taken_spec. eauto. }
  split_and!; [split|done|by rewrite lookup_insert_eq].
  - intros k1 k2 e1 e2. simpl. rewrite !lookup_insert.
    repeat case_decide; intros ? ? Hl Hi; simplify_eq; [done| | |by eauto].
    + exfalso. by eapply Hfree.
    + exfalso. by eapply (Hfree k1).
  - intros k e'. simpl. rewrite lookup_insert. case_decide; intros; simplify_eq; [done|by eauto].
Qed.

Lemma forceRevoke_spec now key db :
  handles_ok db → handles_ok (forceRevokeEntry now key.1 key.2 db) ∧
  settled key (forceRevokeEntry now key.1 key.2 db) ∧
  ∀ a, holds_handle key a db → holds_handle key a (forceRevokeEntry now key.1 key.2 db).
Proof.
  set (f e := if clearEntry e then stamp now now e else e).
  assert (Hf : ∀ e, same_handle (f e) e) by (intros e; unfold f; destruct (clearEntry e); done).
  assert (Hrev : ∀ e, revoked (f e)).
  { intros e. unfold f, clearEntry, revoked. case_bool_decide; done. }
  assert (HE : ∀ k, db_entries (forceRevokeEntry now key.1 key.2 db) !! k =
    if decide (key = k) then f <$> db_entries db !! k else db_entries db !! k).
  { intros k. unfold forceRevokeEntry. destruct key. simpl. rewrite lookup_alter. case_decide; by subst. }
  assert (Hinv : ∀ k e, db_entries (forceRevokeEntry now key.1 key.2 db) !! k = Some e →
    ∃ e0, db_entries db !! k = Some e0 ∧ same_handle e e0).
  { intros k e. rewrite HE. case_decide; [|intros; by exists e].
    intros (e0 & ? & ->)%fmap_Some. eexists; split; [done|apply Hf]. }
  intros [Hu Hr]. split_and!; [split|..].
  - intros k1 k2 e1 e2 (a1 & ? & S1 & T1)%Hinv (a2 & ? & S2 & T2)%Hinv ? ?.
    apply (Hu k1 k2 a1 a2); congruence.
  - intros k e (a1 & Ha & _ & ->)%Hinv. by eapply Hr.
  - intros _ e. rewrite HE, decide_True by done. intros (e0 & _ & ->)%fmap_Some. apply Hrev.
  - intros a (e & He & H1 & H2). exists (f e). rewrite HE, decide_True, He by done.
    destruct (Hf e) as [-> ->]. done.
Qed.

Section AllocateProofs.
Context (cuid : gmap string StatusListRow → string) (draw1 draw2 : nat → Z) (now : Z).
Context (anchor clientId : string).
Context (draw1_range : ∀ n, 0 <= draw1 n < SHARD_SIZE_BITS).
Context (draw2_range : ∀ n, 0 <= draw2 n < SHARD_SIZE_BITS).

Abbreviation key := (anchor, clientId).
Abbreviation R := (peers_ok key).

Definition pre (r : option Z) (db : DB) : Prop := handles_ok db ∧ knows_revoked anchor r db.

Definition post (r : option Z) (res : option AllocatedStatus) (db : DB) : Prop :=
  pre r db ∧ ∀ a, res = Some a → holds_handle key a db.

Lemma pre_stable r db db' : R db db' → pre r db → pre r db'.
Proof. intros HR [H1 H2]. split; [by apply HR|by eapply knows_revoked_stable]. Qed.

Lemma createShard_entries c n db :
  db_entries (createShard cuid now c n db).2 = db_entries db ∧
  db_tombstones (createShard cuid now c n db).2 = db_tombstones db.
Proof. unfold createShard. by destruct (findShard c n db). Qed.

Lemma getOrCreateShard_ok r c n :
  triple R (pre r) (getOrCreateShard cuid now c n) (fun _ => pre r).
Proof.
  apply triple_bind with (fun _ => pre r).
  - apply triple_atomic. intros db db' Hp HR. apply (pre_stable _ _ _ HR) in Hp.
    destruct (createShard_entries c n db') as [E1 E2].
    destruct Hp as [[Hu Hr] Hk]. split; [split|]; unfold knows_revoked; rewrite ?E1, ?E2; auto.
  - intros [row|]; [by apply triple_ret|]. apply triple_query.
    intros db db' Hp HR. by eapply pre_stable.
Qed.

Lemma currentWritableShard_ok r c :
  triple R (pre r) (currentWritableShard cuid now c) (fun _ => pre r).
Proof.
  apply triple_bind with (fun _ => pre r).
  { apply triple_query. intros db db' Hp HR. by eapply pre_stable. }
  intros [top|]; [|apply getOrCreateShard_ok].
  apply triple_bind with (fun _ => pre r).
  { apply triple_query. intros db db' Hp HR. by eapply pre_stable. }
  intros count. destruct (_ <=? _); [apply getOrCreateShard_ok|by apply triple_ret].
Qed.

Lemma allocateInShard_ok r draw list attempts attempt :
  (∀ n, 0 <= draw n < SHARD_SIZE_BITS) →
  triple R (pre r) (allocateInShard attempts attempt draw list anchor clientId r) (post r).
Proof.
  intros Hd. revert attempt. induction attempts as [|n IH]; intros attempt.
  { apply triple_ret. intros db Hp. split; [done|by intros]. }
  cbn [allocateInShard].
  apply triple_bind with (fun out db => pre r db ∧
    (out = None → holds_handle key {| al_listId := sh_id list; al_bitIndex := draw attempt |} db)).
  - apply triple_atomic. intros db db' Hp HR. apply (pre_stable _ _ _ HR) in Hp as [Hok Hk].
    destruct (createEntry_spec key {| en_listId := sh_id list; en_bitIndex := draw attempt;
      en_revokedAt := r; en_revealAfter := r |} db' (Hd attempt) Hok) as (H1 & H2 & H3).
    split; [split; [done|unfold knows_revoked; by rewrite H2]|].
    intros Hn. eexists. split; [by apply H3|done].
  - intros [[|]|].
    + apply triple_bind with (fun raced db => pre r db ∧ ∀ a, raced = Some a → holds_handle key a db).
      * apply triple_query. intros db db' [Hp _] HR. split; [by eapply pre_stable|].
        unfold findExisting. intros a (e & He & ->)%fmap_Some. by exists e.
      * intros [raced|]; [by apply triple_ret|]. eapply triple_weaken; [apply IH|naive_solver|done].
    + eapply triple_weaken; [apply IH|naive_solver|done].
    + apply triple_ret. intros db [Hp Hh]. split; [done|]. intros a [= <-]. auto.
Qed.

Lemma allocateFresh_ok r :
  triple R (pre r) (allocateFresh cuid draw1 draw2 now anchor clientId r) (post r).
Proof using draw1_range draw2_range.
  assert (Hnone : ∀ db, pre r db → post r None db) by (intros db Hp; split; [done|by intros]).
  eapply triple_bind; [apply currentWritableShard_ok|]. intros [shard|]; [|by apply triple_ret].
  eapply triple_bind; [by apply allocateInShard_ok|]. intros [alloc|]; [by apply triple_ret|].
  eapply triple_bind; [eapply triple_weaken; [apply getOrCreateShard_ok| |done]; by intros db [? _]|].
  intros [next|]; [|by apply triple_ret]. by apply allocateInShard_ok.
Qed.

Definition handed_out (res : option AllocatedStatus) (db : DB) : Prop :=
  handles_ok db ∧
  ∀ a, res = Some a → holds_handle key a db ∧ settled key db.

Lemma force_handed_out r alloc :
  triple R (post r (Some alloc))
    (_ ← update (forceRevokeEntry now anchor clientId); mret (Some alloc)) handed_out.
Proof.
  apply triple_bind with (fun _ => handed_out (Some alloc)); [|intros _; by apply triple_ret].
  apply triple_update. intros db db' [Hp Hh] HR. apply (pre_stable _ _ _ HR) in Hp as [Hok _].
  destruct (forceRevoke_spec now key db' Hok) as (H1 & H2 & H3). split; [done|].
  intros a [= <-]. split; [|done]. apply H3. by eapply holds_handle_stable; [|apply Hh].
Qed.

Lemma allocateStatusEntry_ok :
  triple R (fun db => handles_ok db ∧ settled key db)
    (allocateStatusEntry cuid draw1 draw2 now anchor clientId) handed_out.
Proof using draw1_range draw2_range.
  apply triple_bind with (fun r db => pre r db ∧ settled key db).
  { apply triple_query. intros db db' [Hok Hs] HR. split; [split; [by apply HR|]|by apply HR].
    unfold knows_revoked, anchorRevokedAt. by rewrite fmap_is_Some. }
  intros r. apply triple_bind with (fun ex db => post r ex db ∧ settled key db).
  { apply triple_query. intros db db' [Hp Hs] HR. split; [split|by apply HR].
    - by eapply pre_stable.
    - unfold findExisting. intros a (e & He & ->)%fmap_Some. by exists e. }
  intros [existing|].
  - destruct r.
    + eapply triple_weaken; [apply force_handed_out|by intros db [? _]|done].
    + apply triple_ret. intros db [[[Hok _] Hh] Hs]. split; [done|].
      intros a Ha. split; [by apply Hh|done].
  - eapply triple_bind; [eapply triple_weaken; [apply (allocateFresh_ok r)| |done]; by intros db [[? _] _]|].
    intros [alloc|]; [|apply triple_ret; intros db [[Hok _] _]; split; [done|by intros]].
    apply triple_bind with (fun b db => post r (Some alloc) db ∧
      (b = false → db_tombstones db !! anchor = None)).
    + destruct r; [apply triple_ret; by split|].
      apply triple_bind with (fun again db => post None (Some alloc) db ∧
        (again = None → db_tombstones db !! anchor = None)).
      * apply triple_query. intros db db' [Hp Hh] HR. split; [split|].
        -- by eapply pre_stable.
        -- intros a Ha. eapply holds_handle_stable; [done|by apply Hh].
        -- unfold anchorRevokedAt. by rewrite fmap_None.
      * intros [z|]; apply triple_ret; naive_solver.
    + intros [|].
      * eapply triple_weaken; [apply force_handed_out|by intros db [? _]|done].
      * apply triple_ret. intros db [[[Hok _] Hh] Hn]. split; [done|].
        intros a Ha. split; [by apply Hh|]. intros [? Ht]. simpl in Ht. by rewrite Hn in Ht.
Qed.

End AllocateProofs.

(** ** Revocation settles every handle of its anchor *)

Lemma stampAll_lookup now jitter l m k :
  let m' := stampAll now jitter l m in
  (k ∉ l.*2 → m' !! k = m !! k) ∧
  ∀ e, m !! k = Some e → ∃ e', m' !! k = Some e' ∧ same_handle e e' ∧ (k ∈ l.*2 ∨ revoked e → revoked e').
Proof.
  revert m. unfold stampAll. induction l as [|[i key] l IH]; intros m; simpl.
  { split; [done|]. intros e He. exists e. split_and!; [done|done|set_solver]. }
  destruct (IH (alter (stamp now (now + jitter i)) key m)) as [IH1 IH2]. split.
  - intros Hk. rewrite IH1 by set_solver. rewrite lookup_alter_ne; [done|set_solver].
  - intros e He. destruct (decide (key = k)) as [->|Hne].
    + destruct (IH2 (stamp now (now + jitter i) e)) as (e' & E' & [S1 S2] & Hr).
      { by rewrite lookup_alter_eq, He. }
      exists e'. split_and!; [done|by split|]. intros _. apply Hr. right. done.
    + destruct (IH2 e) as (e' & E' & S & Hr); [by rewrite lookup_alter_ne|].
      exists e'. split_and!; [done|done|]. intros [?|?]; apply Hr; [left|right]; set_solver.
Qed.

Lemma imap_pair_snd {A} (l : list A) : (imap pair l).*2 = l.
Proof.
  apply list_eq. intros i. rewrite list_lookup_fmap, list_lookup_imap.
  by destruct (l !! i).
Qed.

Lemma elem_of_clearKeys anchor db k :
  k ∈ clearKeys anchor db ↔
  k.1 = anchor ∧ ∃ e, db_entries db !! k = Some e ∧ en_revokedAt e = None.
Proof.
  unfold clearKeys. rewrite list_elem_of_fmap. split.
  - intros ([k' e] & -> & [[? ?] Hin%elem_of_map_to_list]%list_elem_of_filter). naive_solver.
  - intros (Ha & e & He & Hr). exists (k, e). split; [done|]. apply list_elem_of_filter.
    split; [done|]. by apply elem_of_map_to_list.
Qed.

Section Revoke.
Context (now : Z) (jitter : nat → Z) (anchor reason : string) (actor : option string).

Lemma revokeWrites_tombs keys db a :
  is_Some (db_tombstones (revokeWrites now jitter anchor reason actor keys db) !! a) ↔
  a = anchor ∨ is_Some (db_tombstones db !! a).
Proof.
  unfold revokeWrites. simpl. destruct (db_tombstones db !! anchor) eqn:E; simpl.
  - split; [by right|]. intros [->|?]; [by rewrite E|done].
  - rewrite lookup_insert. case_decide; [naive_solver|]. split; [by right|naive_solver].
Qed.

Lemma revokeWrites_entry keys db k :
  let db' := revokeWrites now jitter anchor reason actor keys db in
  (k ∉ keys → db_entries db' !! k = db_entries db !! k) ∧
  ∀ e, db_entries db !! k = Some e →
    ∃ e', db_entries db' !! k = Some e' ∧ same_handle e e' ∧ (k ∈ keys ∨ revoked e → revoked e').
Proof.
  pose proof (stampAll_lookup now jitter (imap pair keys) (db_entries db) k) as H.
  rewrite imap_pair_snd in H. unfold revokeWrites. simpl.
  by destruct (db_tombstones db !! anchor).
Qed.

Lemma revokeWrites_entry_inv keys db k e' :
  db_entries (revokeWrites now jitter anchor reason actor keys db) !! k = Some e' →
  ∃ e, db_entries db !! k = Some e ∧ same_handle e e'.
Proof.
  intros He'. destruct (revokeWrites_entry keys db k) as [H1 H2].
  destruct (db_entries db !! k) as [e|] eqn:E.
  - destruct (H2 e eq_refl) as (e'' & E'' & S & _). rewrite He' in E''. simplify_eq. eauto.
  - destruct (decide (k ∈ keys)) as [Hin|Hin]; [|rewrite H1 in He' by done; congruence].
    exfalso. revert He'. unfold revokeWrites. simpl.
    assert (Hnone : ∀ l m, m !! k = None → stampAll now jitter l m !! k = None).
    { induction l as [|[i key] l IH]; intros m Hm; [done|]. simpl. apply IH.
      rewrite lookup_alter. case_decide; [subst; by rewrite Hm|done]. }
    destruct (db_tombstones db !! anchor); simpl; by rewrite Hnone.
Qed.

(** A revocation transaction is a well-behaved peer of every allocation. *)
Lemma revoke_peers_ok key db :
  peers_ok key db (revokeStatusAnchor now jitter anchor reason actor db).2.
Proof.
  unfold revokeStatusAnchor. simpl. set (keys := clearKeys anchor db). split.
  - intros k e He. destruct (revokeWrites_entry keys db k) as [_ H2].
    destruct (H2 e He) as (e' & ? & ? & _). eauto.
  - intros a Ha. apply revokeWrites_tombs. by right.
  - intros [Hu Hr]. split.
    + intros k1 k2 e1 e2 (a1 & A1 & [S1 T1])%revokeWrites_entry_inv
        (a2 & A2 & [S2 T2])%revokeWrites_entry_inv ? ?. apply (Hu k1 k2 a1 a2); congruence.
    + intros k e' (e & He & [_ <-])%revokeWrites_entry_inv. by eapply Hr.
  - intros Hs Ht e' He'. apply revokeWrites_tombs in Ht.
    destruct (revokeWrites_entry_inv _ _ _ _ He') as (e & He & _).
    destruct (revokeWrites_entry keys db key) as [_ H2].
    destruct (H2 e He) as (e'' & E'' & _ & Hr). rewrite He' in E''. simplify_eq. apply Hr.
    destruct (decide (en_revokedAt e = None)) as [Hn|]; [|by right].
    destruct Ht as [Ha|Ht]; [left|exfalso; by apply (Hs Ht e He)].
    apply elem_of_clearKeys. split; [done|]. eauto.
Qed.

End Revoke.

(** ** Publication under interleaving *)

(** A list row is unchanged, or has a later version and at least the same bits. *)
Definition row_advances (row row' : StatusListRow) : Prop :=
  row' = row ∨ (sl_version row < sl_version row' ∧ ∀ i, isSet (sl_bits row) i → isSet (sl_bits row') i).

Definition lists_full (db : DB) : Prop :=
  ∀ id row, db_lists db !! id = Some row → full (sl_bits row).

Definition advances (db db' : DB) : Prop :=
  (∀ id row, db_lists db !! id = Some row →
     ∃ row', db_lists db' !! id = Some row' ∧ row_advances row row') ∧
  (lists_full db → lists_full db').

Lemma row_advances_trans r1 r2 r3 : row_advances r1 r2 → row_advances r2 r3 → row_advances r1 r3.
Proof.
  intros [->|[? H1]] [->|[? H2]]; [by left|by right|by right|right]. split; [lia|auto].
Qed.

Lemma advances_refl db : advances db db.
Proof. split; [|done]. intros id row H. exists row. split; [done|by left]. Qed.

Lemma advances_trans db1 db2 db3 : advances db1 db2 → advances db2 db3 → advances db1 db3.
Proof.
  intros [H1 F1] [H2 F2]. split; [|auto]. intros id row Hr.
  destruct (H1 id row Hr) as (r2 & E2 & A2). destruct (H2 id r2 E2) as (r3 & E3 & A3).
  exists r3. split; [done|by eapply row_advances_trans].
Qed.

Section PublishProofs.
Context (origin did randomUUID : string) (encodeList : bytes → string)
        (signingInput : StatusListCredentialPayload → string) (sign : string → option string).

Abbreviation attempts_ := (publishAttempts origin did randomUUID encodeList signingInput sign).
Abbreviation publish_ := (publishList origin did randomUUID encodeList signingInput sign).
Abbreviation signed_ := (fun listId bits version nowMs =>
  signStatusListCredential signingInput sign
    (buildStatusListPayload origin did randomUUID encodeList listId bits version nowMs)).

(** The database descends from [db0] and its shards have their size. *)
Definition since (db0 db : DB) : Prop := advances db0 db ∧ lists_full db.

Lemma since_stable db0 db db' : advances db db' → since db0 db → since db0 db'.
Proof. intros HR [H1 H2]. split; [by eapply advances_trans|by apply HR]. Qed.

(** The row read earlier is the current one, or an older version of it. *)
Definition seen (listId : string) (row : StatusListRow) (db : DB) : Prop :=
  full (sl_bits row) ∧
  ∃ row', db_lists db !! listId = Some row' ∧ (row' = row ∨ sl_version row < sl_version row').

Lemma seen_stable listId row db db' : advances db db' → seen listId row db → seen listId row db'.
Proof.
  intros [HR _] (Hf & row' & Hr & Hc). split; [done|].
  destruct (HR _ _ Hr) as (row'' & Hr' & Hadv). exists row''. split; [done|].
  destruct Hadv as [->|[? _]]; [done|]. right. destruct Hc as [->|]; lia.
Qed.

(** A guarded write advances the row it read, and nothing else. *)
Lemma guardedWrite_advances db0 db listId row bits version jwt nowMs changed :
  since db0 db → seen listId row db → sl_version row < version →
  full bits → (∀ j, isSet (sl_bits row) j → isSet bits j) →
  since db0 (guardedWrite listId (sl_version row)
    (published (if (changed : bool) then Some bits else None) version jwt nowMs) db).2.
Proof.
  intros Hs (Hfr & row' & Hr & Hc) Hv Hf Hsub. unfold guardedWrite. rewrite Hr.
  destruct (Z.eqb_spec (sl_version row') (sl_version row)) as [E|]; [|done].
  destruct Hc as [->|]; [|lia]. simpl. apply since_stable with db; [|done].
  split.
  - intros id r Hid. simpl. rewrite lookup_insert. case_decide; [|exists r; split; [done|by left]].
    subst id. rewrite Hr in Hid. simplify_eq. eexists. split; [done|]. right. simpl.
    split; [done|]. destruct changed; simpl; auto.
  - intros Hall id r. simpl. rewrite lookup_insert. case_decide; [|apply Hall].
    intros [= <-]. by destruct changed.
Qed.

Lemma publishAttempts_advances db0 n listId nowMs force :
  triple advances (since db0) (attempts_ n listId nowMs force) (fun _ => since db0).
Proof.
  induction n as [|n IH]; cbn [publishAttempts]; [by apply triple_ret|].
  apply triple_bind with (fun row db => since db0 db ∧ from_option (fun r => seen listId r db) True row).
  { apply triple_query. intros db db' Hs HR. apply (since_stable _ _ _ HR) in Hs. split; [done|].
    destruct (db_lists db' !! listId) as [row|] eqn:E; [|done]. simpl.
    split; [by apply (proj2 Hs listId)|]. exists row. by split; [|left]. }
  intros [row|]; [|apply triple_ret; by intros db [? _]].
  apply triple_bind with (fun _ db => since db0 db ∧ seen listId row db).
  { apply triple_query. intros db db' [Hs Hseen] HR. split; [by eapply since_stable|by eapply seen_stable]. }
  intros indices. destruct (setBits _ _ _ _) as [[[bits changed] nbits]|] eqn:Eb;
    [|apply triple_ret; by intros db [? _]].
  destruct (_ && _); [apply triple_ret; by intros db [? _]|].
  destruct (signStatusListCredential _ _ _) as [jwt|]; [|apply triple_ret; by intros db [? _]].
  apply triple_bind with (fun _ => since db0).
  - apply triple_atomic. intros db db' [Hs Hseen] HR.
    apply (since_stable _ _ _ HR) in Hs. apply (seen_stable _ _ _ _ HR) in Hseen.
    destruct (setBits_spec _ _ _ _ _ _ _ (proj1 Hseen) Eb) as (Hf & Hset & _).
    apply guardedWrite_advances; [done|done|lia|done|]. intros j Hj. apply Hset. by right.
  - intros count. destruct (Nat.eqb count 0); [apply IH|].
    apply triple_bind with (fun _ => since db0); [|intros _; by apply triple_ret].
    apply triple_update. intros db db' Hs HR. apply (since_stable _ _ _ HR) in Hs. exact Hs.
Qed.

Lemma setBits_total indices bits changed n :
  (∀ i, i ∈ indices → 0 <= i < SHARD_SIZE_BITS) → is_Some (setBits bits changed n indices).
Proof.
  revert bits changed n. induction indices as [|i rest IH]; intros bits changed n Hr; simpl; [by eauto|].
  destruct (setBit_some bits i) as [[[] bits'] ->]; [apply Hr; left|..];
    apply IH; intros; apply Hr; by right.
Qed.

Lemma publish_alone db listId row nowMs force :
  db_lists db !! listId = Some row → full (sl_bits row) →
  (∀ i, i ∈ eligible listId nowMs db → 0 <= i < SHARD_SIZE_BITS) →
  (∀ payload, is_Some (signStatusListCredential signingInput sign payload)) →
  ∃ r row', (run_alone (publish_ listId nowMs force) db).1 = Some r ∧
    db_lists (run_alone (publish_ listId nowMs force) db).2 !! listId = Some row' ∧
    (∀ j, isSet (sl_bits row') j ↔ j ∈ eligible listId nowMs db ∨ isSet (sl_bits row) j) ∧
    (if pr_published r
     then sl_version row < sl_version row' ∧
          Some (sl_signedJwt row') = signed_ listId (sl_bits row') (sl_version row') nowMs
     else row' = row).
Proof.
  intros Hr Hf Hrange Hsign.
  destruct (setBits_total (eligible listId nowMs db) (sl_bits row) false 0 Hrange) as [[[bits changed] n] Eb].
  destruct (setBits_spec _ _ _ _ _ _ _ Hf Eb) as (Hf' & Hset & Hch).
  unfold publish_, publishList, run_alone, PUBLISH_MAX_ATTEMPTS. cbn [publishAttempts].
  unfold mbind, prog_bind, query, atomic, alone. rewrite Hr, Eb.
  destruct (negb changed && _ && _ && _) eqn:Eskip.
  - exists notPublished, row. split_and!; [done|done| |done].
    intros j. rewrite <-Hset. destruct changed; [done|]. by destruct Hch as [-> _].
  - set (version := Z.max (sl_version row + 1) (nowMs / 1000)).
    destruct (Hsign (buildStatusListPayload origin did randomUUID encodeList listId bits version nowMs))
      as [jwt Hj]. rewrite Hj. unfold guardedWrite. rewrite Hr, Z.eqb_refl. simpl.
    assert (Hb : default (sl_bits row) (if changed then Some bits else None) = bits).
    { destruct changed; [done|]. by destruct Hch as [-> _]. }
    eexists _, _. split_and!; [done|by rewrite lookup_insert_eq| |]; simpl; rewrite Hb; [done|].
    split; [lia|done].
Qed.

End PublishProofs.

(** ** Properties *)


Definition demo_row : StatusListRow :=
  {| sl_clientId := "rp"; sl_shardNo := 0; sl_version := 7; sl_bits := newBitstring;
     sl_signedJwt := "old"; sl_publishedAt := 0 |}.
Definition demo_entry : BadgeStatusEntry :=
  {| en_listId := "L"; en_bitIndex := 5; en_revokedAt := Some 10; en_revealAfter := Some 20 |}.
Definition demo_db : DB :=
  {| db_lists := {[ "L" := demo_row ]}; db_entries := {[ ("gm:1", "rp") := demo_entry ]};
     db_tombstones := {[ "gm:1" := (10, "kick") ]}; db_audit := [] |}.

Lemma demo_full : lists_full demo_db.
Proof. intros id row. simpl. intros [_ <-]%lookup_singleton_Some. reflexivity. Qed.

(** A peer that publishes the same list between our read and our write. *)
Definition demo_peer (n : nat) (db : DB) : DB :=
  if Nat.eqb n 2 then
    match db_lists db !! "L" with
    | Some row => with_lists (<[ "L" := published None (sl_version row + 1) "peer" 30 row ]> (db_lists db)) db
    | None => db
    end
  else db.

Lemma demo_peer_advances n db : advances db (demo_peer n db).
Proof.
  unfold demo_peer. destruct (Nat.eqb n 2); [|apply advances_refl].
  destruct (db_lists db !! "L") as [row|] eqn:E; [|apply advances_refl]. split.
  - intros id r Hr. simpl. rewrite lookup_insert. case_decide; [|exists r; split; [done|by left]].
    subst id. simplify_eq. eexists. split; [done|]. right. simpl. split; [lia|done].
  - intros Hf id r. simpl. rewrite lookup_insert. case_decide; [|apply Hf].
    intros [= <-]. simpl. by eapply Hf.
Qed.


(** One publication of a list, when signing works: afterwards the set bits are exactly the
    bits set before together with the handles of the revoked entries whose reveal time has
    come, and either nothing was due and the row is untouched, or the row has a later version
    and carries the signature over exactly these bits and that version. *)
Theorem publish_folds_due_revocations origin did randomUUID encodeList signingInput sign
    db listId row nowMs force :
  db_lists db !! listId = Some row → full (sl_bits row) →
  (∀ i, i ∈ eligible listId nowMs db → 0 <= i < SHARD_SIZE_BITS) →
  (∀ payload, is_Some (signStatusListCredential signingInput sign payload)) →
  let out := run_alone (publishList origin did randomUUID encodeList signingInput sign
                          listId nowMs force) db in
  ∃ r row', out.1 = Some r ∧ db_lists out.2 !! listId = Some row' ∧
    (∀ j, isSet (sl_bits row') j ↔ j ∈ eligible listId nowMs db ∨ isSet (sl_bits row) j) ∧
    (if pr_published r
     then sl_version row < sl_version row' ∧
          Some (sl_signedJwt row') = signStatusListCredential signingInput sign
            (buildStatusListPayload origin did randomUUID encodeList listId
               (sl_bits row') (sl_version row') nowMs)
     else row' = row).
Proof. apply publish_alone. Qed.

Lemma publish_folds_due_revocations_witness :
  let out := run_alone (publishList "https://m" "did" "uuid" (fun _ => "u") (fun _ => "input")
                          (fun _ => Some "sig") "L" 50 false) demo_db in
  ∃ r row', out.1 = Some r ∧ db_lists out.2 !! "L" = Some row' ∧
    (∀ j, isSet (sl_bits row') j ↔ j ∈ eligible "L" 50 demo_db ∨ isSet (sl_bits demo_row) j) ∧
    (if pr_published r
     then sl_version demo_row < sl_version row' ∧
          Some (sl_signedJwt row') = signStatusListCredential (fun _ => "input") (fun _ => Some "sig")
            (buildStatusListPayload "https://m" "did" "uuid" (fun _ => "u") "L"
               (sl_bits row') (sl_version row') 50)
     else row' = demo_row).
Proof.
  apply (publish_folds_due_revocations "https://m" "did" "uuid" (fun _ => "u")
    (fun _ => "input") (fun _ => Some "sig") demo_db "L" demo_row 50 false).
  - reflexivity.
  - reflexivity.
  - intros i Hi. vm_compute in Hi. apply list_elem_of_singleton in Hi as ->.
    unfold SHARD_SIZE_BITS. lia.
  - intros payload. exists "input.sig". reflexivity.
Defined.


(** A kick that commits while the handle is being allocated. *)
Definition kick (n : nat) (db : DB) : DB :=
  if Nat.eqb n 3 then (revokeStatusAnchor 40 (fun _ => 0) "gm:2" "kick" None db).2 else db.

Lemma peers_ok_refl key db : peers_ok key db db.
Proof. split; [|done..]. intros k e He. exists e. split; [done|by split]. Qed.

Lemma kick_peers_ok key n db : peers_ok key db (kick n db).
Proof. unfold kick. destruct (Nat.eqb n 3); [apply revoke_peers_ok|apply peers_ok_refl]. Qed.

Lemma demo_handles_ok : handles_ok demo_db.
Proof.
  split; simpl.
  - intros k1 k2 e1 e2 [<- <-]%lookup_singleton_Some [<- <-]%lookup_singleton_Some. done.
  - intros k e [_ <-]%lookup_singleton_Some. unfold SHARD_SIZE_BITS. simpl. lia.
Qed.


(** A revocation that commits atomically marks every handle of the fact revoked, leaves
    every other fact alone, is idempotent on handles already revoked (their reveal time is
    kept), and preserves the allocation invariants. *)
Theorem revocation_settles_anchor now jitter anchor reason actor (db : DB) (key : string * string) :
  let db' := (revokeStatusAnchor now jitter anchor reason actor db).2 in
  (key.1 = anchor → settled key db') ∧
  (key ∉ clearKeys anchor db → db_entries db' !! key = db_entries db !! key) ∧
  is_Some (db_tombstones db' !! anchor) ∧
  (handles_ok db → handles_ok db').
Proof.
  split_and!.
  - intros Ha _ e' He'. unfold revokeStatusAnchor in He'.
    destruct (revokeWrites_entry_inv now jitter anchor reason actor _ _ _ _ He') as (e & He & _).
    destruct (revokeWrites_entry now jitter anchor reason actor (clearKeys anchor db) db key) as [_ H2].
    destruct (H2 e He) as (e'' & E'' & _ & Hr).
    assert (e'' = e') as -> by (cbn [snd] in He'; congruence). apply Hr.
    destruct (decide (en_revokedAt e = None)) as [Hn|]; [|by right].
    left. apply elem_of_clearKeys. eauto.
  - apply (revokeWrites_entry now jitter anchor reason actor (clearKeys anchor db) db key).
  - apply (revokeWrites_tombs now jitter anchor reason actor). by left.
  - apply (revoke_peers_ok now jitter anchor reason actor key db).
Qed.

(** When the revoking transaction reads the fact's entries before an allocation and commits
    after the allocation's re-check, the new handle stays clear although the tombstone exists:
    the reconcile step of [allocateStatusEntry] does not cover a commit that is still pending. *)
Theorem late_commit_leaves_handle_clear :
  let read := clearKeys "gm:2" demo_db in
  let out := run_alone (allocateStatusEntry (fun _ => "L2") (fun _ => 9) (fun _ => 9) 60 "gm:2" "rp") demo_db in
  let final := revokeWrites 70 (fun _ => 0) "gm:2" "kick" None read out.2 in
  out.1 = Some {| al_listId := "L"; al_bitIndex := 9 |} ∧
  is_Some (db_tombstones final !! "gm:2") ∧
  (en_revokedAt <$> db_entries final !! ("gm:2", "rp")) = Some None.
Proof. vm_compute. eauto. Qed.
