(* ===== verification/Registry.v ===== *)
(** * The badge-type registry (packages/shared/src/badge-types.ts)

    The slugs of the registry in declaration order, with the sybil-resistance label and
    the revocable flag. The claim schemas are in [Claims]; display text and icons are left
    out. *)

From S2P Require Import Prelude.

Open Scope Z_scope.

Inductive SybilResistance := NoResistance | Weak | Moderate.

#[export] Instance SybilResistance_eq_dec : EqDecision SybilResistance.
Proof. solve_decision. Defined.

Record BadgeTypeMeta := {
  bt_type : string;
  bt_sybilResistance : SybilResistance;
  bt_revocable : bool;
}.

Definition OAUTH_PROVIDERS : list string :=
  ["github"; "google"; "discord"; "reddit"; "steam"; "hackernews"; "instagram"; "youtube"].
Definition ACCOUNT_AGE_MONTHS : list Z := [12; 24; 36; 60].
Definition FOLLOWERS_BUCKETS : list Z := [10; 50; 100; 500; 1000].
Definition AGE_THRESHOLDS : list Z := [16; 18; 21; 25; 30; 35; 40; 45; 55; 65].

Definition meta (type : string) (r : SybilResistance) (revocable : bool) : BadgeTypeMeta :=
  {| bt_type := type; bt_sybilResistance := r; bt_revocable := revocable |}.

Definition ageOverEntry (threshold : Z) : BadgeTypeMeta :=
  meta ("age-over-" +:+ pretty threshold) NoResistance false.

Definition BADGE_TYPES : list BadgeTypeMeta :=
  [ meta "email-domain" Weak false;
    meta "email-exact" Weak false;
    meta "domain-control" Moderate false;
    meta "oauth-account" Weak false;
    meta "account-age" Moderate false;
    meta "social-following" Moderate false;
    meta "residency-country" NoResistance false;
    meta "residency-state" NoResistance false;
    meta "residency-city" NoResistance false;
    meta "invite-code" NoResistance false;
    meta "tlsn-attestation" NoResistance false;
    meta "wallet-control" Weak false;
    meta "wallet-age" Moderate false;
    meta "onchain-event" Moderate false;
    meta "public-key" Weak false;
    meta "group-membership" NoResistance true ]
  ++ map ageOverEntry AGE_THRESHOLDS.

Definition getBadgeType (slug : string) : option BadgeTypeMeta :=
  snd <$> list_find (fun m => bt_type m = slug) BADGE_TYPES.

Definition knownBadgeTypes : list string := map bt_type BADGE_TYPES.
