(* ===== verification/Claims.v ===== *)
(** * Claim schemas of the badge types (packages/shared/src/badge-types.ts)

    Each badge type has a schema that the claims of a credential must pass, at issuance and
    again at every disclosure. The combinators are those of the validation library: an object
    schema keeps the keys of its shape, in the order of the shape, drops the other keys or,
    when strict, refuses them. Objects are association lists in key order; numbers are
    integers. The library's e-mail test is a parameter. *)

From S2P Require Import Prelude Registry.

Open Scope Z_scope.

(** ** JSON *)

Inductive Json :=
  | JNull
  | JBool (b : bool)
  | JNum (z : Z)
  | JStr (s : string)
  | JArr (l : list Json)
  | JObj (o : list (string * Json)).

Abbreviation JObject := (list (string * Json)).

(** ** Schema combinators *)

(** A check of a string schema: the string, as it leaves the check. *)
Definition Check : Type := string → option string.

Definition min1 : Check := fun s => if bool_decide (s = "") then None else Some s.
Definition lowered : Check := fun s => Some (toLowerCase s).
Definition matching (re : string → bool) : Check := fun s => if re s then Some s else None.

Definition runChecks (checks : list Check) (s : string) : option string :=
  foldl (fun acc check => acc ≫= check) (Some s) checks.

Definition zstring (checks : list Check) (v : Json) : option Json :=
  match v with
  | JStr s => JStr <$> runChecks checks s
  | _ => None
  end.

Definition zenum (values : list string) (v : Json) : option Json :=
  match v with JStr s => if decide (s ∈ values) then Some v else None | _ => None end.

(** A union of number literals. *)
Definition zliterals (values : list Z) (v : Json) : option Json :=
  match v with JNum z => if decide (z ∈ values) then Some v else None | _ => None end.

Record Field := { f_key : string; f_optional : bool; f_schema : Json → option Json }.

Definition required (key : string) (schema : Json → option Json) : Field :=
  {| f_key := key; f_optional := false; f_schema := schema |}.
Definition optional (key : string) (schema : Json → option Json) : Field :=
  {| f_key := key; f_optional := true; f_schema := schema |}.

Fixpoint parseFields (shape : list Field) (o : JObject) : option JObject :=
  match shape with
  | [] => Some []
  | f :: shape' =>
      match jget (f_key f) o with
      | None => if f_optional f then parseFields shape' o else None
      | Some v => v' ← f_schema f v; rest ← parseFields shape' o; Some ((f_key f, v') :: rest)
      end
  end.

Record Schema := { sc_strict : bool; sc_shape : list Field }.

Definition parse (s : Schema) (o : JObject) : option JObject :=
  if sc_strict s && negb (forallb (fun k => bool_decide (k ∈ map f_key (sc_shape s))) (o.*1)) then None
  else parseFields (sc_shape s) o.

(** ** Regular expressions of the registry *)

(** [/^[a-z0-9.-]+\.[a-z]{2,}$/]: from the end, letters, a dot, then the class. *)
Definition is_domain_char (c : Ascii.ascii) : bool :=
  is_lower_letter c || is_digit_char c || bool_decide (c = "."%char) || bool_decide (c = "-"%char).

Fixpoint letters_run (l : list Ascii.ascii) : nat * list Ascii.ascii :=
  match l with
  | c :: l' => if is_lower_letter c then let '(n, rest) := letters_run l' in (S n, rest) else (O, l)
  | [] => (O, [])
  end.

Definition DOMAIN_RE (s : string) : bool :=
  let '(tld, rest) := letters_run (reverse (String.list_ascii_of_string s)) in
  match rest with
  | c :: (_ :: _) as host => bool_decide (c = "."%char) && Nat.leb 2 tld && forallb is_domain_char host
  | _ => false
  end.

(** [/^[a-z0-9]+(?:-[a-z0-9]+)*$/] *)
Definition SLUG_RE (s : string) : bool :=
  forallb (fun part => negb (bool_decide (part = "")) && all_chars (fun c => is_lower_letter c || is_digit_char c) part)
    (split_on "-"%char s).

(** [/^[A-Z]{2}$/] *)
Definition COUNTRY_RE (s : string) : bool :=
  Nat.eqb (String.length s) 2 && all_chars is_upper_letter s.

(** ** The schemas *)

Definition GROUP_ROLES : list string := ["owner"; "admin"; "member"].
Definition PUBLIC_KEY_KINDS : list string := ["pgp"; "ssh"].
Definition WALLET_CHAINS : list string := ["ethereum"; "bitcoin"].
Definition ONCHAIN_EVENTS : list string := ["eth2-genesis-depositor"].

Definition object (shape : list Field) : Schema := {| sc_strict := false; sc_shape := shape |}.
Definition strict (shape : list Field) : Schema := {| sc_strict := true; sc_shape := shape |}.
Definition text : Json → option Json := zstring [min1].

Definition EmailDomainClaims : Schema :=
  object [required "domain" (zstring [min1; lowered; matching DOMAIN_RE])].
Definition EmailExactClaims (isEmail : string → bool) : Schema :=
  object [required "email" (zstring [matching isEmail; lowered])].
Definition DomainControlClaims : Schema :=
  object [required "domain" (zstring [min1; lowered; matching DOMAIN_RE])].
Definition OAuthAccountClaims : Schema :=
  object [required "provider" (zenum OAUTH_PROVIDERS); optional "handle" text].
Definition AccountAgeClaims : Schema :=
  strict [required "provider" (zenum OAUTH_PROVIDERS); required "olderThanMonths" (zliterals [12; 24; 36; 60])].
Definition SocialFollowingClaims : Schema :=
  strict [required "provider" (zenum OAUTH_PROVIDERS);
          required "followersAtLeast" (zliterals [10; 50; 100; 500; 1000])].
Definition AgeOverClaimsFor (threshold : Z) : Schema :=
  object [required "threshold" (zliterals [threshold])].
Definition ResidencyCountryClaims : Schema :=
  object [required "country" (zstring [matching COUNTRY_RE])].
Definition ResidencyStateClaims : Schema :=
  object [required "country" (zstring [matching COUNTRY_RE]); required "state" text].
Definition ResidencyCityClaims : Schema :=
  object [required "country" (zstring [matching COUNTRY_RE]); required "state" text; required "city" text].
Definition InviteCodeClaims : Schema := object [required "label" text].
Definition TlsnAttestationClaims : Schema := strict [required "domain" text; required "claim" text].
Definition PublicKeyClaims : Schema :=
  strict [required "kind" (zenum PUBLIC_KEY_KINDS); required "fingerprint" text; required "algorithm" text].
Definition WalletControlClaims : Schema := strict [required "chain" (zenum WALLET_CHAINS)].
Definition WalletAgeClaims : Schema :=
  strict [required "chain" (zenum WALLET_CHAINS); required "olderThanMonths" (zliterals [12; 24; 36; 60])].
Definition OnchainEventClaims : Schema := strict [required "event" (zenum ONCHAIN_EVENTS)].
Definition GroupMembershipClaims : Schema :=
  strict [required "group" (zstring [min1; matching SLUG_RE]); required "role" (zenum GROUP_ROLES);
          required "groupId" text].

(** The [schema] member of the registry's entries, in the registry's order. *)
Definition BADGE_SCHEMAS (isEmail : string → bool) : list (string * Schema) :=
  [ ("email-domain", EmailDomainClaims);
    ("email-exact", EmailExactClaims isEmail);
    ("domain-control", DomainControlClaims);
    ("oauth-account", OAuthAccountClaims);
    ("account-age", AccountAgeClaims);
    ("social-following", SocialFollowingClaims);
    ("residency-country", ResidencyCountryClaims);
    ("residency-state", ResidencyStateClaims);
    ("residency-city", ResidencyCityClaims);
    ("invite-code", InviteCodeClaims);
    ("tlsn-attestation", TlsnAttestationClaims);
    ("wallet-control", WalletControlClaims);
    ("wallet-age", WalletAgeClaims);
    ("onchain-event", OnchainEventClaims);
    ("public-key", PublicKeyClaims);
    ("group-membership", GroupMembershipClaims) ]
  ++ map (fun t => ("age-over-" +:+ pretty t, AgeOverClaimsFor t)) AGE_THRESHOLDS.

Definition schemaOf (isEmail : string → bool) (badgeType : string) : option Schema :=
  jget badgeType (BADGE_SCHEMAS isEmail).

(** ** Lemmas *)

(** The keys of the result are keys of the shape, once each. *)
Lemma parseFields_keys shape o o' :
  parseFields shape o = Some o' → o'.*1 `sublist_of` map f_key shape.
Proof.
  revert o'. induction shape as [|f shape IH]; intros o' H; simpl in *; [by simplify_eq/=|].
  destruct (jget (f_key f) o) as [v|].
  - destruct (f_schema f v) as [v'|]; simpl in H; [|done].
    destruct (parseFields shape o) as [rest|] eqn:E; simplify_eq/=. constructor. by apply IH.
  - destruct (f_optional f); [|done]. constructor. by apply IH.
Qed.

(** What a field makes of a value it accepts again. *)
Definition stable (f : Field) : Prop := ∀ v v', f_schema f v = Some v' → f_schema f v' = Some v'.

Lemma parseFields_ext shape o o' :
  (∀ k, k ∈ map f_key shape → jget k o = jget k o') → parseFields shape o = parseFields shape o'.
Proof.
  induction shape as [|f shape IH]; intros H; [done|]. simpl.
  rewrite (H (f_key f)) by (simpl; left). by rewrite IH by (intros k Hk; apply H; simpl; by right).
Qed.

Lemma parseFields_idemp shape o o' :
  NoDup (map f_key shape) → Forall stable shape →
  parseFields shape o = Some o' → parseFields shape o' = Some o'.
Proof.
  intros Hnd Hst. revert o'. induction shape as [|f shape IH]; intros o' H; cbn [parseFields] in *; [by simplify_eq/=|].
  apply NoDup_cons in Hnd as [Hf Hnd]. apply Forall_cons in Hst as [Hs Hst].
  destruct (jget (f_key f) o) as [v|].
  - destruct (f_schema f v) as [v'|] eqn:Ev; simpl in H; [|done].
    destruct (parseFields shape o) as [rest|] eqn:E; [|done]. injection H as <-.
    cbn [jget]. rewrite decide_True by done. rewrite (Hs _ _ Ev). simpl.
    rewrite (parseFields_ext shape _ rest).
    + by rewrite IH.
    + intros k Hk. cbn [jget]. rewrite decide_False; [done|]. by intros ->.
  - destruct (f_optional f) eqn:Eo; [|done]. apply IH in H as H'; [|done..].
    assert (jget (f_key f) o' = None) as ->; [|by rewrite ?Eo].
    apply jget_None. intros Hk. apply parseFields_keys in H.
    apply Hf. eapply sublist_subseteq; [done|]. exact Hk.
Qed.

(** Schemas whose keys are distinct and whose fields are stable. *)
Definition stable_schema (s : Schema) : Prop := NoDup (map f_key (sc_shape s)) ∧ Forall stable (sc_shape s).

Lemma parse_shape s o o' : parse s o = Some o' → parseFields (sc_shape s) o = Some o'.
Proof. unfold parse. by destruct (sc_strict s && _). Qed.

Lemma parse_keys s o o' k : parse s o = Some o' → k ∈ o'.*1 → k ∈ map f_key (sc_shape s).
Proof. intros H%parse_shape%parseFields_keys Hk. by eapply sublist_subseteq. Qed.

Lemma parse_idemp s o o' : stable_schema s → parse s o = Some o' → parse s o' = Some o'.
Proof.
  intros [Hnd Hst] H. pose proof (parse_keys s o o') as Hk. apply parse_shape in H as Hp.
  unfold parse. destruct (sc_strict s); simpl; [|by eapply parseFields_idemp].
  rewrite (proj2 (forallb_forall _ _)); [by eapply parseFields_idemp|].
  intros k Hin. apply bool_decide_eq_true_2. apply Hk; [done|]. by apply list_elem_of_In.
Qed.

Lemma stable_zenum k b l : stable {| f_key := k; f_optional := b; f_schema := zenum l |}.
Proof. intros v v' H. cbn in *. destruct v; simpl in *; try done. case_decide; simplify_eq/=. by rewrite decide_True. Qed.

Lemma stable_zliterals k b l : stable {| f_key := k; f_optional := b; f_schema := zliterals l |}.
Proof. intros v v' H. cbn in *. destruct v; simpl in *; try done. case_decide; simplify_eq/=. by rewrite decide_True. Qed.

(** Checks, in sequence, that accept again what they let through. *)
Definition settled_checks (checks : list Check) : Prop :=
  ∀ s s', runChecks checks s = Some s' → runChecks checks s' = Some s'.

Lemma stable_zstring k b checks : settled_checks checks →
  stable {| f_key := k; f_optional := b; f_schema := zstring checks |}.
Proof.
  intros Hc v v' H. cbn in *. destruct v; simpl in *; try done.
  destruct (runChecks checks s) as [s'|] eqn:E; simplify_eq/=. by rewrite (Hc _ _ E).
Qed.

Lemma settled_min1 : settled_checks [min1].
Proof. intros s s' H. cbn in *. unfold min1 in *. by case_bool_decide; simplify_eq/=; case_bool_decide. Qed.

Lemma settled_matching re : settled_checks [matching re].
Proof. intros s s' H. cbn in *. unfold matching in *. destruct (re s) eqn:E; simplify_eq/=. by rewrite E. Qed.

Lemma settled_min1_matching re : settled_checks [min1; matching re].
Proof.
  intros s s' H. cbn in *. unfold min1, matching in *. case_bool_decide; [done|]. cbn in *.
  destruct (re s) eqn:E; simplify_eq/=. rewrite bool_decide_eq_false_2 by done. cbn. by rewrite E.
Qed.

Lemma settled_domain : settled_checks [min1; lowered; matching DOMAIN_RE].
Proof.
  intros s s' H. cbn in *. unfold min1, lowered, matching in *. case_bool_decide as Hs; [done|]. cbn in *.
  destruct (DOMAIN_RE (toLowerCase s)) eqn:E; simplify_eq/=.
  rewrite bool_decide_eq_false_2 by (by destruct s). cbn. rewrite toLowerCase_idemp. by rewrite E.
Qed.

Lemma settled_email isEmail : (∀ s, isEmail s = true → isEmail (toLowerCase s) = true) →
  settled_checks [matching isEmail; lowered].
Proof.
  intros He s s' H. cbn in *. unfold lowered, matching in *. destruct (isEmail s) eqn:E; simplify_eq/=.
  rewrite (He _ E). cbn. by rewrite toLowerCase_idemp.
Qed.

#[export] Hint Resolve stable_zenum stable_zliterals stable_zstring settled_min1 settled_matching
  settled_min1_matching settled_domain settled_email : minister.

(** Every schema of the registry is stable, when the e-mail test ignores case. *)
Lemma schemas_stable isEmail t s :
  (∀ s, isEmail s = true → isEmail (toLowerCase s) = true) →
  schemaOf isEmail t = Some s → stable_schema s.
Proof.
  intros He H. assert (Hall : Forall (fun e => stable_schema e.2) (BADGE_SCHEMAS isEmail)).
  { unfold BADGE_SCHEMAS. cbn [app map].
    repeat (apply List.Forall_cons; [split; [cbn; apply (bool_decide_unpack _); vm_compute; exact I|
      cbn; repeat (apply List.Forall_cons; [unfold required, optional, text; auto with minister|]); apply List.Forall_nil]|]).
    apply List.Forall_nil. }
  unfold schemaOf in H. revert H Hall. generalize (BADGE_SCHEMAS isEmail). intros l.
  induction l as [|[k s0] l IH]; simpl; [done|]. intros H [Hs Hl]%Forall_cons.
  destruct (decide (t = k)); simplify_eq/=; [done|by apply IH].
Qed.
