(* ===== verification/Transparency.v ===== *)
(** * The public face of the badge statistics (lib/stats-allowlist.ts, lib/stats-public.ts,
    lib/transparency-view.ts, lib/anonymity-hint.ts, the data of app/transparency/page.tsx)

    What may be published: the attribute keys and values of the allowlist, and counts as
    printed ranges. The theorems show that the page is a function of the printed ranges, and
    that it shows exactly the rows of the table that the allowlist admits. Counts are integers;
    the percentage is computed in IEEE doubles. The order of [localeCompare] is a parameter;
    thousands are grouped with commas. *)

From Stdlib Require Import SpecFloat.
From S2P Require Import Prelude Registry Claims.

Open Scope Z_scope.

(** ** The allowlist (lib/stats-allowlist.ts) *)

Definition PUBLISHABLE_KEYS : list string :=
  ["provider"; "olderThanMonths"; "followersAtLeast"; "chain"; "event"; "threshold"; "kind"; "country"].

Definition FORBIDDEN_KEYS : list string := ["email"; "domain"; "fingerprint"; "state"; "city"; "handle"].

Definition ALLOWLISTED_KEYS_BY_TYPE : list (string * list string) :=
  [ ("oauth-account", ["provider"]);
    ("account-age", ["provider"; "olderThanMonths"]);
    ("social-following", ["provider"; "followersAtLeast"]);
    ("residency-country", ["country"]);
    ("wallet-control", ["chain"]);
    ("wallet-age", ["chain"; "olderThanMonths"]);
    ("onchain-event", ["event"]);
    ("public-key", ["kind"]) ]
  ++ map (fun t => ("age-over-" +:+ pretty t, ["threshold"])) AGE_THRESHOLDS.

(** What the check at module load throws. *)
Inductive AllowlistError := UnknownType (type : string) | ForbiddenKey (type key : string) | NonPublishableKey (type key : string).

Fixpoint checkKeys (type : string) (keys : list string) : option AllowlistError :=
  match keys with
  | [] => None
  | key :: keys' =>
      if bool_decide (key ∈ FORBIDDEN_KEYS) then Some (ForbiddenKey type key)
      else if negb (bool_decide (key ∈ PUBLISHABLE_KEYS)) then Some (NonPublishableKey type key)
      else checkKeys type keys'
  end.

Fixpoint assertAllowlistIntegrity (entries : list (string * list string)) : option AllowlistError :=
  match entries with
  | [] => None
  | (type, keys) :: entries' =>
      if negb (bool_decide (type ∈ knownBadgeTypes)) then Some (UnknownType type)
      else match checkKeys type keys with
           | Some e => Some e
           | None => assertAllowlistIntegrity entries'
           end
  end.

Definition isAllowlistedKey (type key : string) : bool :=
  match jget type ALLOWLISTED_KEYS_BY_TYPE with Some keys => bool_decide (key ∈ keys) | None => false end.

Definition VALUE_DOMAIN : list (string * (string → bool)) :=
  [ ("provider", fun v => bool_decide (v ∈ OAUTH_PROVIDERS));
    ("olderThanMonths", fun v => existsb (fun m => bool_decide (pretty m = v)) ACCOUNT_AGE_MONTHS);
    ("followersAtLeast", fun v => existsb (fun b => bool_decide (pretty b = v)) FOLLOWERS_BUCKETS);
    ("chain", fun v => bool_decide (v ∈ WALLET_CHAINS));
    ("event", fun v => bool_decide (v ∈ ONCHAIN_EVENTS));
    ("threshold", fun v => existsb (fun t => bool_decide (pretty t = v)) AGE_THRESHOLDS);
    ("kind", fun v => bool_decide (v ∈ PUBLIC_KEY_KINDS));
    ("country", COUNTRY_RE) ].

Definition isAllowlistedValue (type key value : string) : bool :=
  if negb (isAllowlistedKey type key) then false
  else match jget key VALUE_DOMAIN with Some inDomain => inDomain value | None => false end.

Definition allowlistedKeysFor (type : string) : list string := default [] (jget type ALLOWLISTED_KEYS_BY_TYPE).

Definition allowlistedTypeKeyPairs : list (string * string) :=
  '(type, keys) ← ALLOWLISTED_KEYS_BY_TYPE; key ← keys; [(type, key)].

(** ** Printed counts (lib/stats-public.ts) *)

Definition DEFAULT_SUPPRESSION_K : Z := 5.
Definition LARGE_COUNT_THRESHOLD : Z := 1000.

(** A number, or the sentinel. *)
Definition suppress (count k : Z) : Z + string :=
  if count <=? 0 then inl 0 else if count <? k then inr ("<" +:+ pretty k) else inl count.

(** [Math.round(count / step) * step], for a positive step. *)
Definition roundTo (step count : Z) : Z := (2 * count + step) / (2 * step) * step.

(** [Math.floor(Math.log10(count))], from the number of decimal digits. *)
Definition magnitude (count : Z) : Z := Z.of_nat (String.length (pretty count)) - 1.

Definition roundPublic (count : Z) : Z :=
  if count <=? 0 then 0
  else if count <? LARGE_COUNT_THRESHOLD then roundTo 10 count
  else roundTo (10 ^ (magnitude count - 1)) count.

Record CountBucket := { cb_lower : Z; cb_upper : Z; cb_label : string }.

Definition COUNT_BUCKETS : list CountBucket :=
  [ {| cb_lower := 1; cb_upper := 4; cb_label := "<5" |};
    {| cb_lower := 5; cb_upper := 9; cb_label := "5–9" |};
    {| cb_lower := 10; cb_upper := 24; cb_label := "10–24" |};
    {| cb_lower := 25; cb_upper := 49; cb_label := "25–49" |};
    {| cb_lower := 50; cb_upper := 99; cb_label := "50–99" |};
    {| cb_lower := 100; cb_upper := 249; cb_label := "100–249" |};
    {| cb_lower := 250; cb_upper := 499; cb_label := "250–499" |};
    {| cb_lower := 500; cb_upper := 999; cb_label := "500–999" |} ].

Definition inBucket (count : Z) (b : CountBucket) : bool := (cb_lower b <=? count) && (count <=? cb_upper b).

(** [toLocaleString]: a comma before each third digit from the right. *)
Fixpoint group3 (l : list Ascii.ascii) : list Ascii.ascii :=
  match l with
  | a :: b :: c :: (_ :: _) as rest => a :: b :: c :: ","%char :: group3 rest
  | _ => l
  end.
Definition toLocaleString (z : Z) : string :=
  let digits := String.string_of_list_ascii (reverse (group3 (reverse (String.list_ascii_of_string (pretty (Z.abs z)))))) in
  if z <? 0 then "-" +:+ digits else digits.

Definition publicCountBucket (count : Z) : string :=
  if count <=? 0 then "0"
  else if LARGE_COUNT_THRESHOLD <=? count then toLocaleString (count / 1000 * 1000) +:+ "+"
  else match List.find (inBucket count) COUNT_BUCKETS with Some b => cb_label b | None => "0" end.

Definition publicCountLowerBound (count : Z) : Z :=
  if count <=? 0 then 0
  else if LARGE_COUNT_THRESHOLD <=? count then count / 1000 * 1000
  else match List.find (inBucket count) COUNT_BUCKETS with Some b => cb_lower b | None => 0 end.

(** ** Anonymity hints (lib/anonymity-hint.ts) *)

Inductive AnonymityBucket := VerySmall | Small | Medium | Large.

Definition HINTS (b : AnonymityBucket) : string :=
  match b with
  | VerySmall => "Few people hold this — least private"
  | Small => "Some people hold this"
  | Medium => "Many people hold this"
  | Large => "Very many people hold this — most private"
  end.

Definition anonymityHint (holderCount : Z) : AnonymityBucket * string :=
  let bucket :=
    if holderCount <? 10 then VerySmall
    else if holderCount <? 100 then Small
    else if holderCount <? 1000 then Medium
    else Large in
  (bucket, HINTS bucket).

(** ** The rows of the page (lib/transparency-view.ts) *)

Record BadgeStatInput := { bs_badgeType : string; bs_attributeKey : string; bs_attributeValue : string; bs_count : Z }.

Definition publicCountDisplay (count : Z) : string := publicCountBucket count.
Definition publicSortKey (count : Z) : Z := publicCountLowerBound count.

Record PublicAttrValue := { pv_value : string; pv_display : string }.
Record PublicAttrGroup := { pg_key : string; pg_values : list PublicAttrValue }.
Record PublicTypeRow := {
  pt_type : string;
  pt_totalDisplay : string;
  pt_rawTotal : Z;
  pt_attributes : list PublicAttrGroup;
}.

Record PublicCohortRow := {
  pc_label : string;
  pc_numeratorDisplay : string;
  pc_denominatorDisplay : string;
  pc_percentDisplay : option string;
}.

(** [Math.round] of a double: the closest integer, a half rounding up. *)
Definition mathRound (x : JsNum.t) : Z :=
  match x with
  | S754_finite s m e =>
      let z := if s then Z.neg m else Z.pos m in
      if 0 <=? e then z * 2 ^ e else (2 * z + 2 ^ (- e)) / (2 * 2 ^ (- e))
  | _ => 0
  end.

Definition percentOf (lowerNum lowerDen : Z) : Z :=
  let pct := JsNum.mul (SFdiv 53 1024 (JsNum.of_Z lowerNum) (JsNum.of_Z lowerDen)) (JsNum.of_Z 100) in
  mathRound (SFdiv 53 1024 pct (JsNum.of_Z 5)) * 5.

Definition buildPublicCohortRow (label : string) (numerator denominator : Z) : PublicCohortRow :=
  let bothSurvive := (DEFAULT_SUPPRESSION_K <=? numerator) && (DEFAULT_SUPPRESSION_K <=? denominator) in
  let percentDisplay :=
    if bothSurvive then
      let lowerNum := publicCountLowerBound numerator in
      let lowerDen := publicCountLowerBound denominator in
      if 0 <? lowerDen then Some (pretty (percentOf lowerNum lowerDen) +:+ "%") else None
    else None in
  {| pc_label := label; pc_numeratorDisplay := publicCountDisplay numerator;
     pc_denominatorDisplay := publicCountDisplay denominator; pc_percentDisplay := percentDisplay |}.

Section View.
Context (localeCompare : string → string → Z).

Abbreviation TypeMap := (list (string * PublicTypeRow)).
Abbreviation AttrMap := (list (string * list (string * list (string * Z)))).

(** The row of a type, created when it is missing. *)
Definition typeRow (type : string) (byType : TypeMap) : PublicTypeRow * TypeMap :=
  match jget type byType with
  | Some row => (row, byType)
  | None =>
      let row := {| pt_type := type; pt_totalDisplay := publicCountDisplay 0; pt_rawTotal := 0; pt_attributes := [] |} in
      (row, jset type row byType)
  end.

(** One row of the table. *)
Definition addStat (st : TypeMap * AttrMap) (stat : BadgeStatInput) : TypeMap * AttrMap :=
  let '(byType, attrAccum) := st in
  if bool_decide (bs_attributeKey stat = "") && bool_decide (bs_attributeValue stat = "") then
    let '(row, byType) := typeRow (bs_badgeType stat) byType in
    (jset (bs_badgeType stat)
       {| pt_type := pt_type row; pt_totalDisplay := publicCountDisplay (bs_count stat);
          pt_rawTotal := bs_count stat; pt_attributes := pt_attributes row |} byType, attrAccum)
  else if negb (isAllowlistedKey (bs_badgeType stat) (bs_attributeKey stat)) then st
  else if negb (isAllowlistedValue (bs_badgeType stat) (bs_attributeKey stat) (bs_attributeValue stat)) then st
  else
    let '(_, byType) := typeRow (bs_badgeType stat) byType in
    let byKey := default [] (jget (bs_badgeType stat) attrAccum) in
    let values := default [] (jget (bs_attributeKey stat) byKey) in
    (byType, jset (bs_badgeType stat)
       (jset (bs_attributeKey stat) (values ++ [(bs_attributeValue stat, bs_count stat)]) byKey) attrAccum).

(** Descending by the printed bound, ties by name. *)
Definition byPublished {A} (count : A → Z) (name : A → string) : A → A → Z :=
  cmp_lex (fun a b => publicSortKey (count b) - publicSortKey (count a)) (fun a b => localeCompare (name a) (name b)).

Definition shapeGroup (e : string * list (string * Z)) : PublicAttrGroup :=
  {| pg_key := e.1;
     pg_values := map (fun v => {| pv_value := v.1; pv_display := publicCountDisplay v.2 |})
                      (js_sort (byPublished snd fst) e.2) |}.

(** The groups of one type, attached to its row. *)
Definition attach (byType : TypeMap) (e : string * list (string * list (string * Z))) : TypeMap :=
  match jget e.1 byType with
  | None => byType
  | Some row =>
      jset e.1 {| pt_type := pt_type row; pt_totalDisplay := pt_totalDisplay row; pt_rawTotal := pt_rawTotal row;
                  pt_attributes := js_sort (fun a b => localeCompare (pg_key a) (pg_key b)) (map shapeGroup e.2) |} byType
  end.

Definition buildPublicTypeRows (stats : list BadgeStatInput) : list PublicTypeRow :=
  let '(byType, attrAccum) := foldl addStat ([], []) stats in
  js_sort (byPublished pt_rawTotal pt_type) (foldl attach byType attrAccum).*2.

(** What the page prints of a row: everything but the raw total. *)
Definition printed (row : PublicTypeRow) : string * string * list PublicAttrGroup :=
  (pt_type row, pt_totalDisplay row, pt_attributes row).

(** A published cohort, with its counts when they were computed. *)
Record CohortView := { cv_label : string; cv_stat : option (Z * Z) }.

Definition cohortRow (def : CohortView) : PublicCohortRow :=
  buildPublicCohortRow (cv_label def) (default 0 (fst <$> cv_stat def)) (default 0 (snd <$> cv_stat def)).

(** The statistics the page prints. *)
Definition transparencyPage (badgeStats : list BadgeStatInput) (cohortDefs : list CohortView) :
    list (string * string * list PublicAttrGroup) * list PublicCohortRow :=
  (map printed (buildPublicTypeRows badgeStats), map cohortRow cohortDefs).

End View.

(** ** Printed ranges *)

Lemma group3_inj l k : group3 l = group3 k → l = k.
Proof.
  revert k. induction l as [l IH] using (well_founded_induction (well_founded_ltof _ (@length _))).
  intros k. unfold ltof in IH.
  destruct l as [|a [|b [|c [|d l]]]], k as [|a' [|b' [|c' [|d' k]]]]; cbn [group3]; intros E; simplify_eq; try done.
  f_equal. f_equal. f_equal. apply IH; [simpl; lia|done].
Qed.

Lemma toLocaleString_inj x y : 0 <= x → 0 <= y → toLocaleString x = toLocaleString y → x = y.
Proof.
  intros Hx Hy. unfold toLocaleString. rewrite !(proj2 (Z.ltb_ge _ _)) by done.
  intros E%(f_equal String.list_ascii_of_string). rewrite !String.list_ascii_of_string_of_list_ascii in E.
  apply (inj reverse), group3_inj, (inj reverse), (f_equal String.string_of_list_ascii) in E.
  rewrite !String.string_of_list_ascii_of_string in E. apply (inj pretty) in E. lia.
Qed.

(** The bucket of a count below the large threshold. *)
Lemma find_bucket count : 0 < count < 1000 →
  ∃ b, List.find (inBucket count) COUNT_BUCKETS = Some b ∧ b ∈ COUNT_BUCKETS ∧ cb_lower b <= count <= cb_upper b.
Proof.
  intros Hc. destruct (List.find (inBucket count) COUNT_BUCKETS) as [b|] eqn:E.
  - exists b. split; [done|]. apply List.find_some in E as [Hb Hin]. apply list_elem_of_In in Hb.
    unfold inBucket in Hin. split; [done|lia].
  - exfalso. pose proof (List.find_none _ _ E) as HN.
    assert (Hall : Forall (fun b => inBucket count b = false) COUNT_BUCKETS)
      by (apply Forall_forall; intros b Hb; apply HN; by apply list_elem_of_In).
    unfold COUNT_BUCKETS in Hall. rewrite !Forall_cons in Hall. unfold inBucket in Hall. simpl in Hall. lia.
Qed.

(** The three forms of a printed count. *)
Inductive prints (count : Z) : string → Z → Prop :=
  | prints_none : count <= 0 → prints count "0" 0
  | prints_large : 1000 <= count → prints count (toLocaleString (count / 1000 * 1000) +:+ "+") (count / 1000 * 1000)
  | prints_bucket b : b ∈ COUNT_BUCKETS → cb_lower b <= count <= cb_upper b → prints count (cb_label b) (cb_lower b).

Lemma count_prints count : prints count (publicCountBucket count) (publicCountLowerBound count).
Proof.
  unfold publicCountBucket, publicCountLowerBound, LARGE_COUNT_THRESHOLD.
  destruct (Z.leb_spec count 0); [by constructor|]. destruct (Z.leb_spec 1000 count); [by constructor|].
  destruct (find_bucket count) as (b & -> & Hb & Hc); [lia|]. by constructor.
Qed.

Lemma plus_ends s : last (String.list_ascii_of_string (s +:+ "+")) = Some "+"%char.
Proof.
  induction s as [|c s IH]; [done|]. change (String c s +:+ "+") with (String c (s +:+ "+")). cbn [String.list_ascii_of_string].
  rewrite last_cons, IH. done.
Qed.

Lemma app_plus_inj s t : s +:+ "+" = t +:+ "+" → s = t.
Proof.
  revert t. induction s as [|c s IH]; intros [|d t] E; try done.
  - change ("" +:+ "+") with "+" in E. change (String d t +:+ "+") with (String d (t +:+ "+")) in E. by destruct t.
  - change ("" +:+ "+") with "+" in E. change (String c s +:+ "+") with (String c (s +:+ "+")) in E. by destruct s.
  - injection E as -> E. f_equal. by apply IH.
Qed.

(** What distinguishes the fixed labels. *)
Lemma labels_distinct :
  ∀ b b', b ∈ COUNT_BUCKETS → b' ∈ COUNT_BUCKETS → cb_label b = cb_label b' → b = b'.
Proof.
  intros b b' Hb Hb'. unfold COUNT_BUCKETS in *. rewrite !elem_of_cons, elem_of_nil in Hb, Hb'.
  destruct_or! Hb; destruct_or! Hb'; subst; simpl; intros E; first [done|contradiction|by discriminate].
Qed.

Lemma labels_fixed : ∀ b, b ∈ COUNT_BUCKETS →
  cb_label b ≠ "0" ∧ last (String.list_ascii_of_string (cb_label b)) ≠ Some "+"%char.
Proof. apply Forall_forall. unfold COUNT_BUCKETS. repeat constructor; by vm_compute. Qed.

Lemma label_not_plus b s : b ∈ COUNT_BUCKETS → cb_label b ≠ s +:+ "+".
Proof. intros Hb E. apply (labels_fixed b Hb). rewrite E. apply plus_ends. Qed.
Lemma zero_not_plus s : "0" ≠ s +:+ "+".
Proof. intros E. apply (f_equal (last ∘ String.list_ascii_of_string)) in E. cbn in E. by rewrite plus_ends in E. Qed.

(** The printed range determines the bound that orders the rows. *)
Lemma prints_inj a b s t x y : prints a s x → prints b t y → s = t → x = y.
Proof.
  destruct 1 as [Ha|Ha|c Hc Ha]; destruct 1 as [Hb|Hb|c' Hc' Hb]; intros E; try done.
  - by destruct (zero_not_plus _ E).
  - by destruct (labels_fixed c' Hc').
  - by destruct (zero_not_plus _ (eq_sym E)).
  - assert (∀ z, 1000 <= z → 0 <= z / 1000 * 1000) as Hd by (intros z Hz; pose proof (Z.div_pos z 1000); lia).
    apply toLocaleString_inj; [auto..|]. by apply app_plus_inj in E.
  - by destruct (label_not_plus c' _ Hc' (eq_sym E)).
  - by destruct (labels_fixed c Hc).
  - by destruct (label_not_plus c _ Hc E).
  - by rewrite (labels_distinct c c').
Qed.

Lemma label_bound a b : publicCountBucket a = publicCountBucket b → publicCountLowerBound a = publicCountLowerBound b.
Proof. intros E. eapply prints_inj; [apply count_prints..|done]. Qed.

(** The bound tells whether a side survives the suppression. *)
Lemma survives_bound count : (DEFAULT_SUPPRESSION_K <=? count) = (DEFAULT_SUPPRESSION_K <=? publicCountLowerBound count).
Proof.
  unfold DEFAULT_SUPPRESSION_K. destruct (count_prints count) as [Hc|Hc|b Hb Hc].
  - lia.
  - pose proof (Z.div_le_lower_bound count 1000 1). lia.
  - unfold COUNT_BUCKETS in Hb. rewrite !elem_of_cons, elem_of_nil in Hb. destruct_or! Hb; subst; simpl in *; try done; lia.
Qed.

(** ** The page is a function of what it prints *)

Definition same_stat (s s' : BadgeStatInput) : Prop :=
  bs_badgeType s = bs_badgeType s' ∧ bs_attributeKey s = bs_attributeKey s' ∧
  bs_attributeValue s = bs_attributeValue s' ∧ publicCountBucket (bs_count s) = publicCountBucket (bs_count s').

Definition same_range (x y : Z) : Prop := publicCountBucket x = publicCountBucket y.

Definition same_cohort (d d' : CohortView) : Prop :=
  cv_label d = cv_label d' ∧
  same_range (default 0 (fst <$> cv_stat d)) (default 0 (fst <$> cv_stat d')) ∧
  same_range (default 0 (snd <$> cv_stat d)) (default 0 (snd <$> cv_stat d')).

Definition same_value (v v' : string * Z) : Prop := v.1 = v'.1 ∧ same_range v.2 v'.2.
Definition same_group : list (string * list (string * Z)) → list (string * list (string * Z)) → Prop :=
  related_maps (Forall2 same_value).
Definition same_row (r r' : PublicTypeRow) : Prop := printed r = printed r' ∧ same_range (pt_rawTotal r) (pt_rawTotal r').

Lemma cohortRow_ranges d d' : same_cohort d d' → cohortRow d = cohortRow d'.
Proof.
  intros (Hl & Hn & Hd). unfold cohortRow, buildPublicCohortRow, publicCountDisplay. rewrite Hl, Hn, Hd.
  by rewrite (survives_bound (default 0 (fst <$> cv_stat d))), (survives_bound (default 0 (snd <$> cv_stat d))),
    (label_bound _ _ Hn), (label_bound _ _ Hd), <-!survives_bound.
Qed.

Section Ranges.
Context (localeCompare : string → string → Z).

Lemma typeRow_ranges type m m' : related_maps same_row m m' →
  same_row (typeRow type m).1 (typeRow type m').1 ∧ related_maps same_row (typeRow type m).2 (typeRow type m').2.
Proof.
  intros Hm. unfold typeRow. pose proof (jget_related same_row type m m' Hm) as Hg.
  destruct Hg as [r r' Hr|]; [done|]. split; [done|]. by apply jset_related.
Qed.

Lemma addStat_ranges s s' m m' a a' : same_stat s s' → related_maps same_row m m' → related_maps same_group a a' →
  related_maps same_row (addStat (m, a) s).1 (addStat (m', a') s').1 ∧
  related_maps same_group (addStat (m, a) s).2 (addStat (m', a') s').2.
Proof.
  intros (Ht & Hk & Hv & Hc) Hm Ha. unfold addStat. rewrite <-Ht, <-Hk, <-Hv.
  destruct (typeRow_ranges (bs_badgeType s) m m' Hm) as [Hr Hm2].
  destruct (typeRow (bs_badgeType s) m) as [r m2], (typeRow (bs_badgeType s) m') as [r' m2']. simpl in *.
  destruct (_ && _); simpl; [|destruct (negb _); [done|destruct (negb _); [done|]]; simpl].
  - split; [|done]. apply jset_related; [|done]. destruct Hr as [Hp _]. unfold printed in Hp.
    split; [|done]. unfold printed, publicCountDisplay. simpl. rewrite Hc. congruence.
  - split; [done|]. apply jset_related; [|done]. 
    assert (Hbk : same_group (default [] (jget (bs_badgeType s) a)) (default [] (jget (bs_badgeType s) a'))).
    { destruct (jget_related same_group (bs_badgeType s) a a' Ha); [done|]. constructor. }
    apply jset_related; [|done]. apply Forall2_app; [|by repeat constructor].
    destruct (jget_related (Forall2 same_value) (bs_attributeKey s) _ _ Hbk); [done|]. constructor.
Qed.

Lemma shapeGroup_ranges e e' : e.1 = e'.1 → Forall2 same_value e.2 e'.2 → shapeGroup localeCompare e = shapeGroup localeCompare e'.
Proof.
  intros Hk Hv. unfold shapeGroup. rewrite Hk. f_equal.
  assert (Hs : Forall2 same_value (js_sort (byPublished localeCompare snd fst) e.2) (js_sort (byPublished localeCompare snd fst) e'.2)).
  { apply js_sort_related; [|done]. intros x x' y y' [Hx Hx'] [Hy Hy']. unfold byPublished, cmp_lex, publicSortKey.
    by rewrite Hx, Hy, (label_bound _ _ Hx'), (label_bound _ _ Hy'). }
  induction Hs as [|v v' l l' [Hx Hx'] Hl IH]; simpl; [done|]. f_equal; [|exact IH].
  unfold publicCountDisplay. by rewrite Hx, Hx'.
Qed.

Lemma attach_ranges e e' m m' : e.1 = e'.1 → same_group e.2 e'.2 → related_maps same_row m m' →
  related_maps same_row (attach localeCompare m e) (attach localeCompare m' e').
Proof.
  intros He Hg Hm. unfold attach. rewrite <-He.
  destruct (jget_related same_row e.1 m m' Hm) as [r r' [Hp Hr]|]; [|done].
  apply jset_related; [|done]. split; [|done]. injection Hp as Ht Hd _. unfold printed. simpl. rewrite Ht, Hd.
  f_equal. f_equal. induction Hg as [|x x' l l' [Hx Hv] Hl IH]; simpl; [done|]. f_equal; [|exact IH]. by apply shapeGroup_ranges.
Qed.

Lemma foldl_ranges stats stats' st st' : Forall2 same_stat stats stats' →
  related_maps same_row st.1 st'.1 → related_maps same_group st.2 st'.2 →
  related_maps same_row (foldl addStat st stats).1 (foldl addStat st' stats').1 ∧
  related_maps same_group (foldl addStat st stats).2 (foldl addStat st' stats').2.
Proof.
  intros Hs. revert st st'. induction Hs as [|s s' l l' Hx Hl IH]; intros [m a] [m' a'] Hm Ha; simpl; [done|].
  destruct (addStat_ranges s s' m m' a a' Hx Hm Ha). by apply IH.
Qed.

Lemma rows_ranges stats stats' : Forall2 same_stat stats stats' →
  Forall2 same_row (buildPublicTypeRows localeCompare stats) (buildPublicTypeRows localeCompare stats').
Proof.
  intros Hs. unfold buildPublicTypeRows.
  destruct (foldl_ranges stats stats' ([], []) ([], []) Hs) as [Hm Ha]; [constructor..|].
  destruct (foldl addStat ([], []) stats) as [m a], (foldl addStat ([], []) stats') as [m' a']. cbn [fst snd] in *.
  apply js_sort_related.
  { intros x x' y y' [Hx Hx'] [Hy Hy']. unfold byPublished, cmp_lex, publicSortKey.
    injection Hx as Hx _ _. injection Hy as Hy _ _. by rewrite (label_bound _ _ Hx'), (label_bound _ _ Hy'), Hx, Hy. }
  assert (Hatt : related_maps same_row (foldl (attach localeCompare) m a) (foldl (attach localeCompare) m' a')).
  { revert m m' Hm. induction Ha as [|e e' a a' [He Hg] Ha IH]; intros m m' Hm; simpl; [done|]. apply IH. by apply attach_ranges. }
  induction Hatt as [|e e' l l' [_ He] Hl IH]; simpl; by constructor.
Qed.
End Ranges.

(** C32: what the public page prints is a function of the printed ranges: two states of the
    statistics whose counts print the same ranges give the same page, with the same rows in the
    same order and the same percentages, so that no difference inside a range can be observed. *)
Theorem page_is_ranges localeCompare stats stats' defs defs' :
  Forall2 same_stat stats stats' → Forall2 same_cohort defs defs' →
  transparencyPage localeCompare stats defs = transparencyPage localeCompare stats' defs'.
Proof.
  intros Hs Hd. unfold transparencyPage. f_equal.
  - induction (rows_ranges localeCompare stats stats' Hs) as [|r r' l l' [Hr _] Hl IH]; simpl; [done|]. f_equal; [exact Hr|exact IH].
  - induction Hd as [|d d' l l' Hx Hl IH]; simpl; [done|]. f_equal; [by apply cohortRow_ranges|exact IH].
Qed.

(** ** What the page shows *)

(** A total, and an attribute row the allowlist admits. *)
Definition isTotal (s : BadgeStatInput) : Prop := bs_attributeKey s = "" ∧ bs_attributeValue s = "".
Definition admitted (s : BadgeStatInput) : Prop :=
  isAllowlistedValue (bs_badgeType s) (bs_attributeKey s) (bs_attributeValue s) = true.
#[global] Instance isTotal_dec s : Decision (isTotal s) := ltac:(unfold isTotal; apply _).
#[global] Instance admitted_dec s : Decision (admitted s) := ltac:(unfold admitted; apply _).

(** The total of a type: that of the last row that gives it. *)
Definition totalOf (t : string) (stats : list BadgeStatInput) : Z :=
  default 0 (bs_count <$> last (filter (fun s => isTotal s ∧ bs_badgeType s = t) stats)).

(** The values admitted under a key of a type. *)
Definition valuesOf (t k : string) (stats : list BadgeStatInput) : list (string * Z) :=
  (fun s => (bs_attributeValue s, bs_count s)) <$>
    filter (fun s => admitted s ∧ bs_badgeType s = t ∧ bs_attributeKey s = k) stats.

(** What the check at module load ensures of every entry. *)
Lemma checkKeys_ok t keys k : checkKeys t keys = None → k ∈ keys → (k ∈ PUBLISHABLE_KEYS) ∧ (k ∉ FORBIDDEN_KEYS).
Proof.
  induction keys as [|x keys IH]; simpl; [set_solver|].
  case_bool_decide as Hf; [done|]. case_bool_decide as Hp; [|done]. simpl. intros E [->|Hk]%elem_of_cons; auto.
Qed.

Lemma integrity_ok entries t keys k : assertAllowlistIntegrity entries = None → jget t entries = Some keys → k ∈ keys →
  (t ∈ knownBadgeTypes) ∧ (k ∈ PUBLISHABLE_KEYS) ∧ (k ∉ FORBIDDEN_KEYS).
Proof.
  induction entries as [|[t' ks] entries IH]; [done|]. cbn [assertAllowlistIntegrity jget].
  case_bool_decide as Ht; [|done]. simpl. destruct (checkKeys t' ks) eqn:Ec; [done|].
  case_decide; [intros; simplify_eq|by apply IH]. split; [done|]. by eapply checkKeys_ok.
Qed.

Lemma allowlist_sound t k : isAllowlistedKey t k = true → (t ∈ knownBadgeTypes) ∧ (k ∈ PUBLISHABLE_KEYS) ∧ (k ∉ FORBIDDEN_KEYS).
Proof.
  unfold isAllowlistedKey. destruct (jget t ALLOWLISTED_KEYS_BY_TYPE) as [keys|] eqn:E; [|done]. intros Hk%bool_decide_eq_true.
  apply (integrity_ok ALLOWLISTED_KEYS_BY_TYPE t keys k); [by vm_compute|done|done].
Qed.

Lemma allowlisted_value_key t k v : isAllowlistedValue t k v = true → isAllowlistedKey t k = true.
Proof. unfold isAllowlistedValue. by destruct (isAllowlistedKey t k). Qed.

Lemma total_not_admitted s : isTotal s → ¬ admitted s.
Proof.
  intros [Hk _] Ha%allowlisted_value_key%allowlist_sound. rewrite Hk in Ha. destruct Ha as (_ & Ha & _).
  by apply (bool_decide_eq_true _) in Ha; vm_compute in Ha.
Qed.

(** A type has a row on the page. *)
Definition appears (t : string) (stats : list BadgeStatInput) : Prop :=
  ∃ s, s ∈ stats ∧ bs_badgeType s = t ∧ (isTotal s ∨ admitted s).

Lemma appears_snoc t stats s :
  appears t (stats ++ [s]) ↔ appears t stats ∨ (t = bs_badgeType s ∧ (isTotal s ∨ admitted s)).
Proof.
  unfold appears. split.
  - intros (x & [Hx|Hx%list_elem_of_singleton]%elem_of_app & Ht & Hs); [left; eauto|]. subst. by right.
  - intros [(x & Hx & Hs)|[-> Hs]]; [exists x|exists s]; (split; [|done]); apply elem_of_app; [by left|right; by apply list_elem_of_singleton].
Qed.

(** The maps built from the rows read so far. *)
Record accum_ok (stats : list BadgeStatInput) (m : list (string * PublicTypeRow))
    (a : list (string * list (string * list (string * Z)))) : Prop := {
  ak_types : NoDup m.*1;
  ak_row t row : jget t m = Some row →
    pt_type row = t ∧ pt_rawTotal row = totalOf t stats ∧ pt_totalDisplay row = publicCountBucket (totalOf t stats) ∧ pt_attributes row = [];
  ak_dom t : t ∈ m.*1 ↔ appears t stats;
  ak_groups : NoDup a.*1;
  ak_keys t bk : jget t a = Some bk → NoDup bk.*1;
  ak_values t k : default [] (jget k (default [] (jget t a))) = valuesOf t k stats;
  ak_known : a.*1 ⊆ m.*1;
}.

(** One row of the table. *)
Definition ignored (s : BadgeStatInput) : Prop := ¬ isTotal s ∧ ¬ admitted s.

Lemma addStat_total m a s : isTotal s →
  addStat (m, a) s = (let '(row, m) := typeRow (bs_badgeType s) m in
    jset (bs_badgeType s) {| pt_type := pt_type row; pt_totalDisplay := publicCountDisplay (bs_count s);
          pt_rawTotal := bs_count s; pt_attributes := pt_attributes row |} m, a).
Proof.
  intros [Hk Hv]. unfold addStat. rewrite (bool_decide_true _ Hk), (bool_decide_true _ Hv). simpl.
  by destruct (typeRow (bs_badgeType s) m).
Qed.

Lemma addStat_admitted m a s : admitted s →
  addStat (m, a) s = ((typeRow (bs_badgeType s) m).2,
    let byKey := default [] (jget (bs_badgeType s) a) in
    jset (bs_badgeType s) (jset (bs_attributeKey s)
      (default [] (jget (bs_attributeKey s) byKey) ++ [(bs_attributeValue s, bs_count s)]) byKey) a).
Proof.
  intros Ha. unfold addStat. pose proof (allowlisted_value_key _ _ _ Ha) as Hk. rewrite Hk.
  unfold admitted in Ha. rewrite Ha. simpl.
  destruct (bool_decide _ && bool_decide _) eqn:E.
  - exfalso. apply andb_true_iff in E as [E1%bool_decide_eq_true E2%bool_decide_eq_true]. by apply (total_not_admitted s).
  - by destruct (typeRow (bs_badgeType s) m).
Qed.

Lemma addStat_ignored m a s : ignored s → addStat (m, a) s = (m, a).
Proof.
  intros [Ht Ha]. unfold addStat. destruct (bool_decide _ && bool_decide _) eqn:E.
  { apply andb_true_iff in E as [E1%bool_decide_eq_true E2%bool_decide_eq_true]. by destruct Ht. }
  destruct (isAllowlistedKey _ _); simpl; [|done]. unfold admitted in Ha.
  destruct (isAllowlistedValue _ _ _); [by destruct Ha|done].
Qed.

Lemma totalOf_snoc t stats s :
  totalOf t (stats ++ [s]) = if decide (isTotal s ∧ bs_badgeType s = t) then bs_count s else totalOf t stats.
Proof.
  unfold totalOf. rewrite filter_app, filter_cons, filter_nil. case_decide; [by rewrite last_snoc|by rewrite app_nil_r].
Qed.

Lemma elem_of_valuesOf t k stats e : e ∈ valuesOf t k stats ↔
  ∃ s, e = (bs_attributeValue s, bs_count s) ∧ (admitted s ∧ bs_badgeType s = t ∧ bs_attributeKey s = k) ∧ s ∈ stats.
Proof. unfold valuesOf. rewrite list_elem_of_fmap. by setoid_rewrite list_elem_of_filter. Qed.

Lemma valuesOf_snoc t k stats s :
  valuesOf t k (stats ++ [s]) = valuesOf t k stats ++
    (if decide (admitted s ∧ bs_badgeType s = t ∧ bs_attributeKey s = k) then [(bs_attributeValue s, bs_count s)] else []).
Proof.
  unfold valuesOf. rewrite filter_app, filter_cons, filter_nil, fmap_app. by case_decide.
Qed.

Lemma typeRow_get t t' m : jget t' (typeRow t m).2 = if decide (t' = t) then Some (typeRow t m).1 else jget t' m.
Proof.
  unfold typeRow. destruct (jget t m) as [row|] eqn:E; simpl; [|apply jget_jset].
  case_decide; [by subst|done].
Qed.

Lemma typeRow_keys t m : (typeRow t m).2.*1 = set_add t m.*1.
Proof.
  unfold typeRow. destruct (jget t m) as [row|] eqn:E; simpl; [|apply jset_keys].
  unfold set_add. rewrite decide_True; [done|]. destruct (decide (t ∈ m.*1)) as [|Hn]; [done|].
  by apply jget_None in Hn; rewrite Hn in E.
Qed.

(** A type without a row has no total. *)
Lemma typeRow_row stats m a t : accum_ok stats m a →
  let row := (typeRow t m).1 in
  pt_type row = t ∧ pt_rawTotal row = totalOf t stats ∧ pt_totalDisplay row = publicCountBucket (totalOf t stats) ∧ pt_attributes row = [].
Proof.
  intros H. unfold typeRow. destruct (jget t m) as [row|] eqn:E; simpl; [by apply (ak_row _ _ _ H)|].
  assert (totalOf t stats = 0) as ->; [|done].
  unfold totalOf. destruct (last _) as [s|] eqn:El; [|done]. exfalso.
  apply last_Some_elem_of, list_elem_of_filter in El as [[Ht Hs] Hin].
  apply jget_None in E. apply E, (ak_dom _ _ _ H). exists s. by split_and!; [..|left].
Qed.

Lemma addStat_ok stats m a s : accum_ok stats m a → accum_ok (stats ++ [s]) (addStat (m, a) s).1 (addStat (m, a) s).2.
Proof.
  intros H. pose proof (typeRow_row stats m a (bs_badgeType s) H) as Hrow. cbv zeta in Hrow.
  pose proof (fun t => typeRow_get (bs_badgeType s) t m) as Hget. pose proof (typeRow_keys (bs_badgeType s) m) as Hkeys.
  destruct (decide (isTotal s)) as [Ht|Ht]; [|destruct (decide (admitted s)) as [Ha|Ha]].
  - pose proof (total_not_admitted s Ht) as Hna. rewrite addStat_total by done.
    destruct (typeRow (bs_badgeType s) m) as [row m'] eqn:E. cbn [fst snd] in *.
    assert (Hk : ∀ v, (jset (bs_badgeType s) v m').*1 = set_add (bs_badgeType s) m.*1).
    { intros v. rewrite jset_keys, Hkeys. unfold set_add at 1. rewrite decide_True; [done|]. apply elem_of_set_add. by left. }
    split.
    + rewrite Hk. apply NoDup_set_add, (ak_types _ _ _ H).
    + intros t row'. rewrite jget_jset, totalOf_snoc. case_decide as Hd.
      * intros ?. simplify_eq. simpl. rewrite decide_True by done. naive_solver.
      * rewrite decide_False by naive_solver. rewrite Hget, decide_False by done. apply (ak_row _ _ _ H).
    + intros t. rewrite Hk, elem_of_set_add, (ak_dom _ _ _ H), appears_snoc. tauto.
    + apply (ak_groups _ _ _ H).
    + apply (ak_keys _ _ _ H).
    + intros t k. rewrite valuesOf_snoc, decide_False by naive_solver. rewrite app_nil_r. apply (ak_values _ _ _ H).
    + rewrite Hk. intros t Hin. apply elem_of_set_add. right. by apply (ak_known _ _ _ H).
  - rewrite addStat_admitted by done. cbn [fst snd]. set (byKey := default [] (jget (bs_badgeType s) a)).
    assert (Htot : ∀ t, totalOf t (stats ++ [s]) = totalOf t stats) by (intros t; rewrite totalOf_snoc, decide_False by naive_solver; done).
    split.
    + rewrite Hkeys. apply NoDup_set_add, (ak_types _ _ _ H).
    + intros t row'. rewrite Htot, Hget. case_decide as Hd; [|apply (ak_row _ _ _ H)]. intros ?. by simplify_eq.
    + intros t. rewrite Hkeys, elem_of_set_add, (ak_dom _ _ _ H), appears_snoc. tauto.
    + cbv zeta. rewrite jset_keys. apply NoDup_set_add, (ak_groups _ _ _ H).
    + intros t bk. cbv zeta. rewrite jget_jset. case_decide; [|apply (ak_keys _ _ _ H)]. intros ?. simplify_eq.
      rewrite jset_keys. apply NoDup_set_add. subst byKey.
      destruct (jget (bs_badgeType s) a) eqn:E; [by apply (ak_keys _ _ _ H _ _ E)|constructor].
    + intros t k. cbv zeta. rewrite valuesOf_snoc, jget_jset, <-(ak_values _ _ _ H). case_decide as Hd; simpl.
      * subst t. rewrite jget_jset. case_decide as Hk; simpl; [subst; by rewrite decide_True|].
        rewrite decide_False by naive_solver. by rewrite app_nil_r.
      * rewrite decide_False by naive_solver. by rewrite app_nil_r.
    + cbv zeta. rewrite jset_keys, Hkeys. intros t. rewrite !elem_of_set_add. intros [->|Hin]; [by left|right]. by apply (ak_known _ _ _ H).
  - rewrite addStat_ignored by done. cbn [fst snd]. split; try apply H.
    + intros t row. rewrite totalOf_snoc, decide_False by naive_solver. apply (ak_row _ _ _ H).
    + intros t. rewrite (ak_dom _ _ _ H), appears_snoc. tauto.
    + intros t k. rewrite valuesOf_snoc, decide_False by naive_solver. rewrite app_nil_r. apply (ak_values _ _ _ H).
Qed.

Lemma accum_all stats : accum_ok stats (foldl addStat ([], []) stats).1 (foldl addStat ([], []) stats).2.
Proof.
  induction stats as [|s stats IH] using rev_ind.
  - split; simpl; try (by constructor); try done. intros t. split; [by intros ?%elem_of_nil|]. by intros (s & ?%elem_of_nil & _).
  - rewrite foldl_app. simpl. destruct (foldl addStat ([], []) stats) as [m a]. by apply addStat_ok.
Qed.

Section Shown.
Context (localeCompare : string → string → Z).

(** A row with the groups of its type. *)
Definition withGroups (bk : list (string * list (string * Z))) (row : PublicTypeRow) : PublicTypeRow :=
  {| pt_type := pt_type row; pt_totalDisplay := pt_totalDisplay row; pt_rawTotal := pt_rawTotal row;
     pt_attributes := js_sort (fun a b => localeCompare (pg_key a) (pg_key b)) (map (shapeGroup localeCompare) bk) |}.

Lemma attach_get t e m :
  jget t (attach localeCompare m e) = if decide (t = e.1) then withGroups e.2 <$> jget t m else jget t m.
Proof.
  unfold attach. destruct (jget e.1 m) as [row|] eqn:E.
  - rewrite jget_jset. case_decide; [|done]. subst. by rewrite E.
  - case_decide; [|done]. subst. by rewrite E.
Qed.

Lemma attach_keys e m : (attach localeCompare m e).*1 = m.*1.
Proof.
  unfold attach. destruct (jget e.1 m) as [row|] eqn:E; [|done]. rewrite jset_keys. unfold set_add.
  rewrite decide_True; [done|]. destruct (decide (e.1 ∈ m.*1)) as [|Hn]; [done|]. apply jget_None in Hn. congruence.
Qed.

Lemma attach_all_keys a m : (foldl (attach localeCompare) m a).*1 = m.*1.
Proof. revert m. induction a as [|e a IH]; intros m; simpl; [done|]. by rewrite IH, attach_keys. Qed.

Lemma attach_all_get t a m : NoDup a.*1 →
  jget t (foldl (attach localeCompare) m a) =
    match jget t a with Some bk => withGroups bk <$> jget t m | None => jget t m end.
Proof.
  revert m. induction a as [|[t' bk] a IH]; intros m; simpl; [done|]. intros [Hn Hnd]%NoDup_cons.
  rewrite (IH _ Hnd), attach_get. simpl. case_decide as Hd; [|done]. subst.
  by rewrite (proj2 (jget_None t' a) Hn).
Qed.

(** The rows of the page, before they are sorted. *)
Lemma page_rows stats row : row ∈ buildPublicTypeRows localeCompare stats ↔
  ∃ row0, let '(m, a) := foldl addStat ([], []) stats in
    jget (pt_type row0) m = Some row0 ∧ row = match jget (pt_type row0) a with Some bk => withGroups bk row0 | None => row0 end.
Proof.
  unfold buildPublicTypeRows. pose proof (accum_all stats) as H.
  destruct (foldl addStat ([], []) stats) as [m a]. cbn [fst snd] in H.
  rewrite elem_of_js_sort, list_elem_of_fmap.
  assert (Hnd : NoDup (foldl (attach localeCompare) m a).*1) by (rewrite attach_all_keys; apply H).
  split.
  - intros ([t r] & -> & Hin). simpl. apply jget_lookup in Hin; [|done]. rewrite attach_all_get in Hin by apply H.
    destruct (jget t m) as [row0|] eqn:Em; [|by destruct (jget t a)].
    destruct (ak_row _ _ _ H _ _ Em) as (Ht & _). exists row0. rewrite Ht. split; [done|].
    destruct (jget t a); simpl in Hin; congruence.
  - intros (row0 & Em & ->). exists (pt_type row0, match jget (pt_type row0) a with Some bk => withGroups bk row0 | None => row0 end).
    split; [done|]. apply jget_lookup; [done|]. rewrite attach_all_get, Em by apply H. by destruct (jget _ a).
Qed.

(** A value printed under a key of a type. *)
Definition shown (page : list (string * string * list PublicAttrGroup)) (t k v d : string) : Prop :=
  ∃ total groups g, (t, total, groups) ∈ page ∧ g ∈ groups ∧ pg_key g = k ∧ {| pv_value := v; pv_display := d |} ∈ pg_values g.

Lemma shapeGroup_values k l v d :
  {| pv_value := v; pv_display := d |} ∈ pg_values (shapeGroup localeCompare (k, l)) ↔ ∃ n, (v, n) ∈ l ∧ d = publicCountBucket n.
Proof.
  unfold shapeGroup. simpl. rewrite elem_of_map. setoid_rewrite elem_of_js_sort. split.
  - intros ([v' n] & E & Hin). simplify_eq/=. eauto.
  - intros (n & Hin & ->). by exists (v, n).
Qed.

(** A printed row, and the row it prints. *)
Lemma page_row stats defs r : r ∈ (transparencyPage localeCompare stats defs).1 ↔
  ∃ row, row ∈ buildPublicTypeRows localeCompare stats ∧ r = printed row.
Proof.
  unfold transparencyPage. simpl. rewrite elem_of_map. naive_solver.
Qed.

(** The values shown are those collected. *)
Lemma shown_values stats defs t k v d :
  shown (transparencyPage localeCompare stats defs).1 t k v d ↔ ∃ n, (v, n) ∈ valuesOf t k stats ∧ d = publicCountBucket n.
Proof.
  pose proof (accum_all stats) as H. unfold shown. setoid_rewrite page_row. setoid_rewrite page_rows.
  destruct (foldl addStat ([], []) stats) as [m a]. cbn [fst snd] in H. rewrite <-(ak_values _ _ _ H). split.
  - intros (total & groups & g & (row & (row0 & Em & ->) & E) & Hg & <- & Hv).
    destruct (ak_row _ _ _ H _ _ Em) as (_ & _ & _ & Hat). unfold printed in E.
    destruct (jget (pt_type row0) a) as [bk|] eqn:Ea; simplify_eq/=; [|rewrite Hat in Hg; by apply elem_of_nil in Hg].
    rewrite Ea. simpl. apply elem_of_js_sort, elem_of_map in Hg.
    destruct Hg as ([k l] & -> & Hin). apply jget_lookup in Hin; [|by eapply (ak_keys _ _ _ H)].
    simpl. rewrite Hin. by apply shapeGroup_values in Hv.
  - intros (n & Hn & ->). destruct (jget t a) as [bk|] eqn:Ea; [|by apply elem_of_nil in Hn]. simpl in Hn.
    destruct (jget k bk) as [l|] eqn:El; [|by apply elem_of_nil in Hn]. simpl in Hn.
    destruct (jget t m) as [row0|] eqn:Em.
    2: { apply jget_None in Em. destruct Em. apply (ak_known _ _ _ H). destruct (decide (t ∈ a.*1)) as [|Hn']; [done|].
         apply jget_None in Hn'. congruence. }
    destruct (ak_row _ _ _ H _ _ Em) as (Ht & _). subst t.
    exists (pt_totalDisplay row0), (pt_attributes (withGroups bk row0)), (shapeGroup localeCompare (k, l)). split_and!.
    + exists (withGroups bk row0). split; [|done]. exists row0. by rewrite Ea.
    + simpl. apply elem_of_js_sort. apply elem_of_map. exists (k, l). split; [done|]. apply jget_lookup; [by eapply (ak_keys _ _ _ H)|done].
    + done.
    + apply shapeGroup_values. eauto.
Qed.

(** The types of the page are those of the map. *)
Lemma page_types stats defs :
  map (fun r => r.1.1) (transparencyPage localeCompare stats defs).1 ≡ₚ (foldl addStat ([], []) stats).1.*1.
Proof.
  unfold transparencyPage, buildPublicTypeRows. pose proof (accum_all stats) as H.
  destruct (foldl addStat ([], []) stats) as [m a]. cbn [fst snd] in *.
  rewrite js_sort_perm, List.map_map, <-(attach_all_keys a m).
  assert (Ht : ∀ t row, (t, row) ∈ foldl (attach localeCompare) m a → pt_type row = t).
  { intros t row Hin. apply jget_lookup in Hin; [|rewrite attach_all_keys; apply H]. rewrite attach_all_get in Hin by apply H.
    destruct (jget t m) as [row0|] eqn:Em; [|by destruct (jget t a)]. destruct (ak_row _ _ _ H _ _ Em) as (Ht & _).
    destruct (jget t a); simplify_eq/=; done. }
  induction (foldl (attach localeCompare) m a) as [|[t row] l IH]; [done|]. simpl.
  rewrite (Ht t row) by left. constructor. apply IH. intros t' row' Hin. apply Ht. by right.
Qed.
End Shown.

(** The public page shows exactly what the allowlist admits: a type appears once, when the
    table has its total or an admitted attribute row, with the range of its total; and a value
    appears under a key of a type exactly when the table has the row and the value is in the
    closed domain of a publishable key of a registered type, with the range of its count. *)
Theorem page_shows_admitted localeCompare stats defs :
  let page := (transparencyPage localeCompare stats defs).1 in
  NoDup (map (fun r => r.1.1) page) ∧
  (∀ t, t ∈ map (fun r => r.1.1) page ↔ appears t stats) ∧
  (∀ t total groups, (t, total, groups) ∈ page → total = publicCountBucket (totalOf t stats)) ∧
  (∀ t k v d, shown page t k v d ↔
     ∃ s, s ∈ stats ∧ bs_badgeType s = t ∧ bs_attributeKey s = k ∧ bs_attributeValue s = v ∧
       isAllowlistedValue t k v = true ∧ (t ∈ knownBadgeTypes) ∧ (k ∈ PUBLISHABLE_KEYS) ∧ (k ∉ FORBIDDEN_KEYS) ∧
       d = publicCountBucket (bs_count s)).
Proof.
  intros page. pose proof (accum_all stats) as H. pose proof (page_types localeCompare stats defs) as Hp. split_and!.
  - subst page. rewrite Hp. apply H.
  - intros t. subst page. rewrite Hp. apply H.
  - intros t total groups. subst page. rewrite page_row. setoid_rewrite page_rows. intros (row & (row0 & Hrow) & E).
    destruct (foldl addStat ([], []) stats) as [m a]. destruct Hrow as [Em ->].
    destruct (ak_row _ _ _ H _ _ Em) as (_ & _ & Hd & _). unfold printed in E. destruct (jget (pt_type row0) a); by simplify_eq/=.
  - intros t k v d. subst page. rewrite shown_values. setoid_rewrite elem_of_valuesOf. split.
    + intros (n & (s & E & (Ha & Ht & Hk) & Hin) & ->). injection E as -> ->. subst t k. exists s.
      destruct (allowlist_sound _ _ (allowlisted_value_key _ _ _ Ha)) as (H1 & H2 & H3). by do 7 (split; [done|]).
    + intros (s & Hin & Ht & Hk & Hv & Ha & _ & _ & _ & ->). exists (bs_count s). split; [|done].
      exists s. unfold admitted. rewrite Ht, Hk, Hv. by split_and!.
Qed.

(** ** A concrete page *)

Module PageDemo.
Definition compare (s t : string) : Z := if bool_decide (s = t) then 0 else if String.ltb s t then -1 else 1.
Definition stat (t k v : string) (n : Z) : BadgeStatInput :=
  {| bs_badgeType := t; bs_attributeKey := k; bs_attributeValue := v; bs_count := n |}.

Definition before : list BadgeStatInput :=
  [stat "oauth-account" "" "" 27; stat "oauth-account" "provider" "github" 12; stat "oauth-account" "provider" "google" 20;
   stat "oauth-account" "handle" "alice" 1; stat "wallet-control" "" "" 1400].
Definition after : list BadgeStatInput :=
  [stat "oauth-account" "" "" 49; stat "oauth-account" "provider" "github" 24; stat "oauth-account" "provider" "google" 10;
   stat "oauth-account" "handle" "alice" 4; stat "wallet-control" "" "" 1999].

(** The page of both, with a cohort. *)
Lemma page_example : transparencyPage compare before [{| cv_label := "c"; cv_stat := Some (7, 23) |}] =
  ([("wallet-control", "1,000+", []);
    ("oauth-account", "25–49", [{| pg_key := "provider"; pg_values :=
       [{| pv_value := "github"; pv_display := "10–24" |}; {| pv_value := "google"; pv_display := "10–24" |}] |}])],
   [{| pc_label := "c"; pc_numeratorDisplay := "5–9"; pc_denominatorDisplay := "10–24"; pc_percentDisplay := Some "50%" |}]).
Proof. vm_compute. reflexivity. Qed.
End PageDemo.

Lemma page_is_ranges_witness :
  transparencyPage PageDemo.compare PageDemo.before [{| cv_label := "c"; cv_stat := Some (7, 23) |}] =
  transparencyPage PageDemo.compare PageDemo.after [{| cv_label := "c"; cv_stat := Some (5, 10) |}].
Proof.
  apply (page_is_ranges PageDemo.compare); repeat constructor.
Defined.

(** A cohort's share is not bounded by the denominator: nothing orders the two counts. *)
Lemma share_exceeds_hundred : pc_percentDisplay (buildPublicCohortRow "c" 30 10) = Some "250%".
Proof. vm_compute. reflexivity. Qed.
