(* ===== verification/Vc.v ===== *)
(** * Verifiable credentials (packages/vc/src/issue.ts, signer.ts, did.ts; lib/disclosure-claims.ts)

    A badge is stored as a signed credential about the user's stable identifier. A disclosure
    re-mints it: the stored credential is verified, its claims go through the current schema
    of its type, and a new one is signed about a pseudonym, with disclosure-time stamps and a
    coarse issuance month. Payloads are JSON objects in key order; numbers are integers. The
    signature, its verification with the decoding of the payload, and base64url are
    parameters. *)

From S2P Require Import Prelude Interleave RateLimit Registry Claims.

Open Scope Z_scope.
Open Scope minister_scope.

(** ** JSON text *)

Definition hex_digit (n : nat) : Ascii.ascii :=
  Ascii.ascii_of_nat (if Nat.ltb n 10 then 48 + n else 87 + n)%nat.

(** The escapes of [JSON.stringify] on a code unit. *)
Definition escape (c : Ascii.ascii) : string :=
  let n := Ascii.nat_of_ascii c in
  if Nat.eqb n 34 then String "\" (String c "")
  else if Nat.eqb n 92 then "\\"
  else if Nat.eqb n 8 then "\b"
  else if Nat.eqb n 9 then "\t"
  else if Nat.eqb n 10 then "\n"
  else if Nat.eqb n 12 then "\f"
  else if Nat.eqb n 13 then "\r"
  else if Nat.ltb n 32 then "\u00" +:+ String (hex_digit (n / 16)) (String (hex_digit (n mod 16)) "")
  else String c "".

Definition dquote : string := String (Ascii.ascii_of_nat 34) "".

Definition quote (s : string) : string :=
  dquote +:+ foldr (fun c acc => escape c +:+ acc) "" (String.list_ascii_of_string s) +:+ dquote.

Fixpoint stringify (j : Json) : string :=
  match j with
  | JNull => "null"
  | JBool true => "true"
  | JBool false => "false"
  | JNum z => pretty z
  | JStr s => quote s
  | JArr l =>
      "[" +:+ (fix go (l : list Json) : string :=
                 match l with
                 | [] => ""
                 | [x] => stringify x
                 | x :: l' => stringify x +:+ "," +:+ go l'
                 end) l +:+ "]"
  | JObj o =>
      "{" +:+ (fix go (o : list (string * Json)) : string :=
                 match o with
                 | [] => ""
                 | [(k, v)] => quote k +:+ ":" +:+ stringify v
                 | (k, v) :: o' => quote k +:+ ":" +:+ stringify v +:+ "," +:+ go o'
                 end) o +:+ "}"
  end.

(** ** The issuer *)

(** The issuer's identifiers, base64url, the badge key's signature ([None]: it throws), and
    the verification of a compact token under the badge key: the header's [typ] and the parsed
    payload, [None] inside when the payload is not JSON. *)
Record VcWorld := {
  vw_domain : string;
  vw_did : string;
  vw_kid : string;
  vw_base64url : string → string;
  vw_sign : string → option string;
  vw_verify : string → option (option string * option Json);
}.

Definition buildDid (domain : string) : string := "did:web:" +:+ domain.
Definition buildKid (did fragment : string) : string := did +:+ "#" +:+ fragment.
Definition buildUserDid (domain userId : string) : string := "did:web:" +:+ domain +:+ ":users:" +:+ userId.
Definition buildPairwiseDid (domain pairwiseSub : string) : string := "did:web:" +:+ domain +:+ ":u:" +:+ pairwiseSub.

(** [signCompactJwt] *)
Definition signCompactJwt (w : VcWorld) (header payload : JObject) : option string :=
  let encodedHeader := vw_base64url w (stringify (JObj header)) in
  let encodedPayload := vw_base64url w (stringify (JObj payload)) in
  let signingInput := encodedHeader +:+ "." +:+ encodedPayload in
  signature ← vw_sign w signingInput;
  Some (signingInput +:+ "." +:+ vw_base64url w signature).

Definition VC_CONTEXT : string := "https://www.w3.org/ns/credentials/v2".
Definition VC_BASE_TYPE : string := "VerifiableCredential".

Definition vcHeader (w : VcWorld) : JObject :=
  [("alg", JStr "EdDSA"); ("kid", JStr (vw_kid w)); ("typ", JStr "vc+jwt")].

(** [charAt(0).toUpperCase() + slice(1)], on ASCII letters. *)
Definition upper_char (c : Ascii.ascii) : Ascii.ascii :=
  if is_lower_letter c then Ascii.ascii_of_nat (Ascii.nat_of_ascii c - 32) else c.
Definition capitalize (s : string) : string :=
  match s with EmptyString => EmptyString | String c s' => String (upper_char c) s' end.

Definition ministerCredentialType (badgeType : string) : string :=
  "Minister" +:+ foldr String.append "" (map capitalize (split_on "-"%char badgeType)) +:+ "Credential".

(** ** Durations *)

Inductive Duration := Seconds (n : Z) | DurationText (s : string).

Definition UNIT_SECONDS : list (string * Z) :=
  [("s", 1); ("sec", 1); ("secs", 1); ("second", 1); ("seconds", 1);
   ("m", 60); ("min", 60); ("mins", 60); ("minute", 60); ("minutes", 60);
   ("h", 3600); ("hr", 3600); ("hrs", 3600); ("hour", 3600); ("hours", 3600);
   ("d", 86400); ("day", 86400); ("days", 86400);
   ("w", 604800); ("week", 604800); ("weeks", 604800);
   ("y", 31557600); ("yr", 31557600); ("yrs", 31557600); ("year", 31557600); ("years", 31557600)].

Definition DEFAULT_EXPIRY_SECONDS : Z := 31557600.

(** The leading digits of a string, with their value, and the rest. *)
Fixpoint leadingDigits (acc : option Z) (s : string) : option Z * string :=
  match s with
  | String c s' =>
      if is_digit_char c
      then leadingDigits (Some (default 0 acc * 10 + (Z.of_nat (Ascii.nat_of_ascii c) - 48))) s'
      else (acc, s)
  | EmptyString => (acc, s)
  end.

(** The two groups of [/^\s*(\d+)\s*([a-z]+)\s*$/i]. *)
Definition durationMatch (s : string) : option (Z * string) :=
  match leadingDigits None (trim s) with
  | (Some count, rest) =>
      let rawUnit := trim_start rest in
      if negb (bool_decide (rawUnit = "")) && all_chars (fun c => is_lower_letter c || is_upper_letter c) rawUnit
      then Some (count, rawUnit) else None
  | (None, _) => None
  end.

Definition durationToSeconds (value : option Duration) : result string Z :=
  match value with
  | None => Ok DEFAULT_EXPIRY_SECONDS
  | Some (Seconds n) => Ok n
  | Some (DurationText s) =>
      match durationMatch s with
      | None => Err "issueVc: unparseable expiresIn"
      | Some (count, rawUnit) =>
          match jget (toLowerCase rawUnit) UNIT_SECONDS with
          | None => Err "issueVc: unknown duration unit in expiresIn"
          | Some unit => Ok (count * unit)
          end
      end
  end.

(** ** Issuance *)

Record IssueOptions := {
  io_jti : option string;
  io_expiresIn : option Duration;
  io_notBefore : option Z;
  io_extraContexts : list string;
}.

(** [{ ...o, ...more }] *)
Definition spread (o more : JObject) : JObject := foldl (fun acc '(k, v) => jset k v acc) o more.

Definition issuePayload (w : VcWorld) (now : Z) (badgeType subjectId : string) (claims : JObject)
    (options : IssueOptions) : result string JObject :=
  let credentialSubject := spread [("id", JStr subjectId)] claims in
  let vc := JObj [("@context", JArr (JStr VC_CONTEXT :: map JStr (io_extraContexts options)));
                  ("type", JArr [JStr VC_BASE_TYPE; JStr (ministerCredentialType badgeType)]);
                  ("credentialSubject", JObj credentialSubject)] in
  let nowSec := now / 1000 in
  duration ← durationToSeconds (io_expiresIn options);
  Ok ([("vc", vc); ("iss", JStr (vw_did w)); ("sub", JStr subjectId); ("iat", JNum nowSec)]
      ++ (match io_jti options with Some jti => if bool_decide (jti = "") then [] else [("jti", JStr jti)] | None => [] end)
      ++ (match io_notBefore options with Some nb => [("nbf", JNum (nb / 1000))] | None => [] end)
      ++ [("exp", JNum (nowSec + duration))]).

Definition issueVc (w : VcWorld) (now : Z) (badgeType subjectId : string) (claims : JObject)
    (options : IssueOptions) : result string string :=
  payload ← issuePayload w now badgeType subjectId claims options;
  some_or (signCompactJwt w (vcHeader w) payload) "sign".

(** ** The coarse issuance month *)

(** The proleptic Gregorian year and month of a day number, in 400-year eras from March 1st. *)
Definition yearMonth (days : Z) : Z * Z :=
  let z := days + 719468 in
  let era := z / 146097 in
  let doe := z mod 146097 in
  let yoe := (doe - doe / 1460 + doe / 36524 - doe / 146096) / 365 in
  let doy := doe - (365 * yoe + yoe / 4 - yoe / 100) in
  let mp := (5 * doy + 2) / 153 in
  let m := if mp <? 10 then mp + 3 else mp - 9 in
  (yoe + era * 400 + (if m <=? 2 then 1 else 0), m).

Fixpoint zeros (n : nat) : string := match n with O => "" | S n' => String "0" (zeros n') end.

(** [padStart(width, "0")] of a non-negative number. *)
Definition padded (width : nat) (z : Z) : string :=
  let s := pretty z in zeros (width - String.length s) +:+ s.

(** The first seven code units of [toISOString]. *)
Definition isoMonth (days : Z) : string :=
  let '(y, m) := yearMonth days in
  if (0 <=? y) && (y <=? 9999) then padded 4 y +:+ "-" +:+ padded 2 m
  else (if y <? 0 then "-" else "+") +:+ padded 6 (Z.abs y).

(** The greatest time value of a [Date], in milliseconds. *)
Definition MAX_TIME : Z := 8640000000000000.

(** [issuanceMonthOf] on Unix seconds. *)
Definition issuanceMonthOf (instant : Z) : result string string :=
  if MAX_TIME <? Z.abs (instant * 1000) then Err "issuanceMonthOf: invalid instant"
  else Ok (isoMonth (instant / 86400)).

(** ** Re-minting *)

Definition ISSUANCE_MONTH_CLAIM : string := "issuanceMonth".
Definition NULLIFIER_CLAIM : string := "nullifier".
Definition RESERVED_CREDENTIAL_SUBJECT_KEYS : list string := ["id"; ISSUANCE_MONTH_CLAIM; NULLIFIER_CLAIM].

Definition stripReservedClaims (claims : JObject) : JObject :=
  filter (fun '(k, _) => k ∉ RESERVED_CREDENTIAL_SUBJECT_KEYS) claims.

Definition DEFAULT_DISCLOSURE_TTL_SECONDS : Z := 60 * 60.

Record CredentialStatusEntry := {
  cs_id : string;
  cs_statusListIndex : string;
  cs_statusListCredential : string;
}.

Definition statusJson (e : CredentialStatusEntry) : Json :=
  JObj [("id", JStr (cs_id e)); ("type", JStr "BitstringStatusListEntry"); ("statusPurpose", JStr "revocation");
        ("statusListIndex", JStr (cs_statusListIndex e)); ("statusListCredential", JStr (cs_statusListCredential e))].

(** Times are in milliseconds; a sanitizer that answers [None] throws. *)
Record RemintOptions := {
  ro_subjectId : string;
  ro_jti : string;
  ro_maxExpiresAt : option Z;
  ro_notBefore : option Z;
  ro_sanitizeClaims : option (JObject → list Json → option JObject);
  ro_disclosureTtlSeconds : option Z;
  ro_nullifier : option string;
  ro_credentialStatus : option CredentialStatusEntry;
}.

Definition unverified : string :=
  "reMintVc: original VC failed verification against the issuer key — refusing to re-sign unverified content".

(** The integrity gate: the payload object the issuer's key signed as a credential. *)
Definition verifiedPayload (w : VcWorld) (originalVcJwt : string) : result string JObject :=
  match vw_verify w originalVcJwt with
  | Some (Some typ, Some (JObj decoded)) =>
      if bool_decide (typ = "vc+jwt") then
        match jget "iss" decoded with
        | Some (JStr iss) => if bool_decide (iss = vw_did w) then Ok decoded else Err unverified
        | _ => Err unverified
        end
      else Err unverified
  | _ => Err unverified
  end.

(** The members of the stored credential that a disclosure uses. *)
Record Original := {
  og_context : option Json;
  og_type : list Json;
  og_subject : JObject;
  og_iat : Z;
  og_exp : option Z;
}.

Definition readOriginal (decoded : JObject) : result string Original :=
  match jget "vc" decoded with
  | Some (JObj original) =>
      match jget "type" original with
      | Some (JArr (t :: types)) =>
          match jget "credentialSubject" original with
          | Some (JObj subject) =>
              match jget "iat" decoded with
              | Some (JNum iat) =>
                  Ok {| og_context := match jget "@context" original with Some JNull | None => None | c => c end;
                        og_type := t :: types; og_subject := subject; og_iat := iat;
                        og_exp := match jget "exp" decoded with Some (JNum e) => Some e | _ => None end |}
              | _ => Err "reMintVc: original VC has no numeric `iat` — cannot derive an honest issuance bucket"
              end
          | _ => Err "reMintVc: original VC is missing `credentialSubject`"
          end
      | _ => Err "reMintVc: original VC `type` is not a non-empty array"
      end
  | _ => Err "reMintVc: original VC is missing its `vc` claim"
  end.

(** The claims of the disclosure, before the reserved keys are stamped. *)
Definition disclosedClaims (options : RemintOptions) (o : Original) : result string JObject :=
  let claims := stripReservedClaims (og_subject o) in
  sanitizedClaims ← match ro_sanitizeClaims options with
                    | Some sanitize => some_or (sanitize claims (og_type o)) "parse"
                    | None => Ok claims
                    end;
  Ok (stripReservedClaims sanitizedClaims).

(** [min] over an optional bound. *)
Definition clamp (bound : option Z) (t : Z) : Z := match bound with Some b => Z.min t b | None => t end.

(** The expiry of a disclosure: a time after now, within both lifetimes. *)
Definition remintExp (now : Z) (options : RemintOptions) (originalExp : option Z) : result string Z :=
  let ttl := ro_disclosureTtlSeconds options ?? DEFAULT_DISCLOSURE_TTL_SECONDS in
  let cap := (fun ms => ms / 1000) <$> ro_maxExpiresAt options in
  if ttl <=? 0 then Err "reMintVc: disclosureTtlSeconds must be a positive integer"
  else if bool_decide (originalExp = None) && bool_decide (cap = None)
  then Err "reMintVc: cannot determine exp (original VC has no `exp` and no maxExpiresAt)"
  else Ok (clamp cap (clamp originalExp (now / 1000 + ttl))).

Definition remintPayload (w : VcWorld) (now : Z) (options : RemintOptions) (o : Original) : result string JObject :=
  safeClaims ← disclosedClaims options o;
  month ← issuanceMonthOf (og_iat o);
  let credentialSubject :=
    spread safeClaims
      ([("id", JStr (ro_subjectId options)); (ISSUANCE_MONTH_CLAIM, JStr month)]
       ++ match ro_nullifier options with Some n => [(NULLIFIER_CLAIM, JStr n)] | None => [] end) in
  let vc := JObj ([("@context", og_context o ?? JArr [JStr VC_CONTEXT]); ("type", JArr (og_type o));
                   ("credentialSubject", JObj credentialSubject)]
                  ++ match ro_credentialStatus options with Some e => [("credentialStatus", statusJson e)] | None => [] end) in
  expSec ← remintExp now options (og_exp o);
  let nowSec := now / 1000 in
  Ok [("vc", vc); ("iss", JStr (vw_did w)); ("sub", JStr (ro_subjectId options)); ("iat", JNum nowSec);
      ("nbf", JNum (match ro_notBefore options with Some nb => nb / 1000 | None => nowSec end));
      ("jti", JStr (ro_jti options)); ("exp", JNum expSec)].

Definition reMintVc (w : VcWorld) (now : Z) (originalVcJwt : string) (options : RemintOptions) : result string string :=
  decoded ← verifiedPayload w originalVcJwt;
  original ← readOriginal decoded;
  payload ← remintPayload w now options original;
  some_or (signCompactJwt w (vcHeader w) payload) "sign".

(** ** The disclosure sanitizer (lib/disclosure-claims.ts) *)

Definition SCHEMA_BY_CREDENTIAL_TYPE (isEmail : string → bool) : list (string * Schema) :=
  map (fun '(t, s) => (ministerCredentialType t, s)) (BADGE_SCHEMAS isEmail).

Fixpoint sanitizeDisclosedClaims (isEmail : string → bool) (claims : JObject) (vcType : list Json) : option JObject :=
  match vcType with
  | [] => Some claims
  | t :: vcType' =>
      match (match t with JStr t => jget t (SCHEMA_BY_CREDENTIAL_TYPE isEmail) | _ => None end) with
      | Some schema => parse schema claims
      | None => sanitizeDisclosedClaims isEmail claims vcType'
      end
  end.

(** ** Lemmas *)

Lemma spread_fresh (o more : JObject) :
  NoDup more.*1 → (∀ k, k ∈ more.*1 → k ∉ o.*1) → spread o more = o ++ more.
Proof.
  unfold spread. revert o. induction more as [|[k v] more IH]; intros o Hnd Hk; cbn [foldl]; [by rewrite app_nil_r|].
  apply NoDup_cons in Hnd as [Hkm Hnd].
  rewrite jset_fresh by (apply Hk; left). rewrite IH; [by rewrite <-(assoc_L (++))|done|].
  intros k' Hk'. rewrite fmap_app, elem_of_app. intros [H|H].
  - destruct (Hk k'); [by right|done].
  - apply list_elem_of_singleton in H as ->. done.
Qed.

Lemma stripReserved_keys claims k : k ∈ (stripReservedClaims claims).*1 → k ∉ RESERVED_CREDENTIAL_SUBJECT_KEYS.
Proof. intros ([k' v] & -> & [H _]%list_elem_of_filter)%list_elem_of_fmap. exact H. Qed.

Lemma stripReserved_clean (claims : JObject) :
  (∀ k, k ∈ claims.*1 → k ∉ RESERVED_CREDENTIAL_SUBJECT_KEYS) → stripReservedClaims claims = claims.
Proof.
  intros H. unfold stripReservedClaims. induction claims as [|[k v] claims IH]; [done|].
  rewrite filter_cons, decide_True by (apply H; left). by rewrite IH by (intros; apply H; by right).
Qed.

Lemma stripReserved_idemp claims : stripReservedClaims (stripReservedClaims claims) = stripReservedClaims claims.
Proof. apply stripReserved_clean, stripReserved_keys. Qed.

(** The stamped members of the subject. *)
Definition stamps (options : RemintOptions) (month : string) : JObject :=
  [("id", JStr (ro_subjectId options)); (ISSUANCE_MONTH_CLAIM, JStr month)]
  ++ match ro_nullifier options with Some n => [(NULLIFIER_CLAIM, JStr n)] | None => [] end.

Lemma stamps_keys options month :
  NoDup (stamps options month).*1 ∧ ∀ k, k ∈ (stamps options month).*1 → k ∈ RESERVED_CREDENTIAL_SUBJECT_KEYS.
Proof.
  unfold stamps. destruct (ro_nullifier options); split; cbn; try (intros k; set_solver);
    apply (bool_decide_unpack _); vm_compute; exact I.
Qed.

Lemma stamped_subject options month claims :
  spread (stripReservedClaims claims) (stamps options month) = stripReservedClaims claims ++ stamps options month.
Proof.
  destruct (stamps_keys options month) as [Hnd Hk]. apply spread_fresh; [done|].
  intros k Hin Hk'. by apply stripReserved_keys in Hk'; apply Hk', Hk.
Qed.

Lemma jget_app_r {V} k (o more : list (string * V)) : k ∉ o.*1 → jget k (o ++ more) = jget k more.
Proof.
  induction o as [|[k' v] o IH]; simpl; [done|]. intros [H1 H2]%not_elem_of_cons.
  rewrite decide_False by done. by apply IH.
Qed.

Lemma jget_app_l {V} k (o more : list (string * V)) : k ∉ more.*1 → jget k (o ++ more) = jget k o.
Proof.
  intros Hk. induction o as [|[k' v] o IH]; simpl; [by apply jget_None|]. case_decide; [done|by apply IH].
Qed.

Lemma disclosedClaims_clean options o claims :
  disclosedClaims options o = Ok claims → stripReservedClaims claims = claims.
Proof. unfold disclosedClaims. intros H. run_ok H. injection H as <-. apply stripReserved_idemp. Qed.

(** The payload of a disclosure, in full. *)
Definition disclosure (w : VcWorld) (now : Z) (options : RemintOptions) (o : Original)
    (claims : JObject) (month : string) (expSec : Z) : JObject :=
  [("vc", JObj ([("@context", og_context o ?? JArr [JStr VC_CONTEXT]); ("type", JArr (og_type o));
                 ("credentialSubject", JObj (claims ++ stamps options month))]
                ++ match ro_credentialStatus options with Some e => [("credentialStatus", statusJson e)] | None => [] end));
   ("iss", JStr (vw_did w)); ("sub", JStr (ro_subjectId options)); ("iat", JNum (now / 1000));
   ("nbf", JNum (match ro_notBefore options with Some nb => nb / 1000 | None => now / 1000 end));
   ("jti", JStr (ro_jti options)); ("exp", JNum expSec)].

Lemma remintPayload_eq w now options o :
  remintPayload w now options o =
    (claims ← disclosedClaims options o; month ← issuanceMonthOf (og_iat o);
     expSec ← remintExp now options (og_exp o); Ok (disclosure w now options o claims month expSec)).
Proof.
  unfold remintPayload. destruct (disclosedClaims options o) as [claims|e] eqn:Ec; [|done]. cbn [mbind result_bind].
  destruct (issuanceMonthOf (og_iat o)) as [month|e]; [|done]. cbn [mbind result_bind].
  destruct (remintExp now options (og_exp o)) as [expSec|e]; [|done]. cbn [mbind result_bind].
  pose proof (stamped_subject options month claims) as Hs. rewrite (disclosedClaims_clean _ _ _ Ec) in Hs.
  unfold disclosure. rewrite <-Hs. done.
Qed.

Lemma remint_ok w now jwt options out :
  reMintVc w now jwt options = Ok out →
  ∃ decoded o claims month expSec,
    verifiedPayload w jwt = Ok decoded ∧ readOriginal decoded = Ok o ∧ disclosedClaims options o = Ok claims ∧
    issuanceMonthOf (og_iat o) = Ok month ∧ remintExp now options (og_exp o) = Ok expSec ∧
    signCompactJwt w (vcHeader w) (disclosure w now options o claims month expSec) = Some out.
Proof.
  unfold reMintVc. intros H. apply bind_Ok in H as (d & Hd & H). apply bind_Ok in H as (o & Ho & H).
  apply bind_Ok in H as (p & Hp & H). rewrite remintPayload_eq in Hp.
  apply bind_Ok in Hp as (claims & Hc & Hp). apply bind_Ok in Hp as (month & Hm & Hp).
  apply bind_Ok in Hp as (expSec & He & Hp). injection Hp as <-. apply some_or_Ok in H.
  by exists d, o, claims, month, expSec.
Qed.

(** The expiry is the least of the presentation window and the two lifetimes. *)
Lemma remintExp_ok now options e expSec :
  remintExp now options e = Ok expSec ↔
  0 < ro_disclosureTtlSeconds options ?? DEFAULT_DISCLOSURE_TTL_SECONDS ∧
  (e ≠ None ∨ ro_maxExpiresAt options ≠ None) ∧
  expSec = clamp ((fun ms => ms / 1000) <$> ro_maxExpiresAt options)
             (clamp e (now / 1000 + (ro_disclosureTtlSeconds options ?? DEFAULT_DISCLOSURE_TTL_SECONDS))).
Proof.
  unfold remintExp. set (ttl := ro_disclosureTtlSeconds options ?? DEFAULT_DISCLOSURE_TTL_SECONDS).
  destruct (Z.leb_spec ttl 0) as [Hle|Hlt]; [split; [done|lia]|].
  destruct e as [e|], (ro_maxExpiresAt options) as [m|]; simpl; naive_solver.
Qed.

(** Two stored credentials of one type that agree outside the reserved keys, were issued in
    the same month, and outlive the presentation window. *)
Record alike (now : Z) (options : RemintOptions) (o1 o2 : Original) : Prop := {
  al_context : og_context o1 = og_context o2;
  al_type : og_type o1 = og_type o2;
  al_claims : stripReservedClaims (og_subject o1) = stripReservedClaims (og_subject o2);
  al_month : issuanceMonthOf (og_iat o1) = issuanceMonthOf (og_iat o2);
  al_exp1 : ∃ e, og_exp o1 = Some e ∧ now / 1000 + (ro_disclosureTtlSeconds options ?? DEFAULT_DISCLOSURE_TTL_SECONDS) <= e;
  al_exp2 : ∃ e, og_exp o2 = Some e ∧ now / 1000 + (ro_disclosureTtlSeconds options ?? DEFAULT_DISCLOSURE_TTL_SECONDS) <= e;
}.

Lemma alike_payload w now options o1 o2 :
  alike now options o1 o2 → remintPayload w now options o1 = remintPayload w now options o2.
Proof.
  intros [Hc Ht Hs Hm (e1 & E1 & H1) (e2 & E2 & H2)]. rewrite !remintPayload_eq.
  unfold disclosedClaims, remintExp, disclosure. rewrite Hc, Ht, Hs, Hm, E1, E2. cbn [clamp].
  by rewrite !Z.min_l.
Qed.

(** The registry's credential types are distinct, and no schema has a reserved key. *)
Lemma schemaOf_elem isEmail t s : schemaOf isEmail t = Some s → (t, s) ∈ BADGE_SCHEMAS isEmail.
Proof.
  unfold schemaOf. generalize (BADGE_SCHEMAS isEmail). intros l. induction l as [|[k s0] l IH]; simpl; [done|].
  case_decide; intros Hk; simplify_eq; [by left|right; by apply IH].
Qed.

Lemma schema_by_type isEmail t s : schemaOf isEmail t = Some s →
  jget (ministerCredentialType t) (SCHEMA_BY_CREDENTIAL_TYPE isEmail) = Some s ∧
  Forall (fun k => k ∉ RESERVED_CREDENTIAL_SUBJECT_KEYS) (map f_key (sc_shape s)).
Proof.
  intros H%schemaOf_elem. split.
  - apply jget_lookup; [apply (bool_decide_unpack _); vm_compute; exact I|].
    unfold SCHEMA_BY_CREDENTIAL_TYPE. apply list_elem_of_fmap. by exists (t, s).
  - assert (Hall : Forall (fun e => Forall (fun k => k ∉ RESERVED_CREDENTIAL_SUBJECT_KEYS) (map f_key (sc_shape e.2)))
              (BADGE_SCHEMAS isEmail)) by (apply (bool_decide_unpack _); vm_compute; exact I).
    rewrite Forall_forall in Hall. exact (Hall _ H).
Qed.

Lemma sanitize_registered isEmail t s claims : schemaOf isEmail t = Some s →
  sanitizeDisclosedClaims isEmail claims [JStr VC_BASE_TYPE; JStr (ministerCredentialType t)] = parse s claims.
Proof.
  intros [H _]%schema_by_type. cbn [sanitizeDisclosedClaims].
  assert (jget VC_BASE_TYPE (SCHEMA_BY_CREDENTIAL_TYPE isEmail) = None) as -> by (vm_compute; reflexivity).
  by rewrite H.
Qed.

(** The claims a registered schema lets through. *)
Lemma parsed_claims isEmail t s c claims :
  (∀ s, isEmail s = true → isEmail (toLowerCase s) = true) →
  schemaOf isEmail t = Some s → parse s c = Some claims →
  parse s claims = Some claims ∧ NoDup claims.*1 ∧ (∀ k, k ∈ claims.*1 → k ∉ RESERVED_CREDENTIAL_SUBJECT_KEYS).
Proof.
  intros He Hs Hp. pose proof (schemas_stable _ _ _ He Hs) as Hst. split_and!.
  - by eapply parse_idemp.
  - destruct Hst as [Hnd _]. eapply sublist_NoDup; [exact Hnd|]. by eapply parseFields_keys, parse_shape.
  - intros k Hk. destruct (schema_by_type _ _ _ Hs) as [_ Hf]. rewrite Forall_forall in Hf.
    apply Hf. by eapply parse_keys.
Qed.

(** The options [issueBadge] issues with. *)
Definition badgeOptions (badgeId : string) : IssueOptions :=
  {| io_jti := Some badgeId; io_expiresIn := Some (DurationText "1y"); io_notBefore := None; io_extraContexts := [] |}.

(** What the disclosure reads of a credential the issuer made. *)
Lemma read_issued w now t subject claims badgeId :
  NoDup claims.*1 → "id" ∉ claims.*1 →
  ∃ payload, issuePayload w now t subject claims (badgeOptions badgeId) = Ok payload ∧
    jget "iss" payload = Some (JStr (vw_did w)) ∧
    readOriginal payload =
      Ok {| og_context := Some (JArr [JStr VC_CONTEXT]);
            og_type := [JStr VC_BASE_TYPE; JStr (ministerCredentialType t)];
            og_subject := ("id", JStr subject) :: claims; og_iat := now / 1000;
            og_exp := Some (now / 1000 + 31557600) |}.
Proof.
  intros Hnd Hid. eexists. split; [reflexivity|]. unfold badgeOptions.
  rewrite spread_fresh; [|done|intros k Hk; simpl; intros ->%list_elem_of_singleton; done].
  split; [done|]. cbn [io_jti]. case_bool_decide; reflexivity.
Qed.

(** ** Disclosed credentials *)

(** C17: A disclosure carries nothing of a stored credential that links its holder across
    audiences except the fact itself and its month: stored credentials of the same type whose
    claims agree, issued in the same month and outliving the presentation window, re-mint to
    the same token (or the same error) under the same options, whatever their subjects, ids,
    issuance instants, expiries, stored statuses or reserved claims are. *)
Theorem remint_unlinkable w now options jwt1 jwt2 d1 d2 o1 o2 :
  verifiedPayload w jwt1 = Ok d1 → verifiedPayload w jwt2 = Ok d2 →
  readOriginal d1 = Ok o1 → readOriginal d2 = Ok o2 →
  alike now options o1 o2 →
  reMintVc w now jwt1 options = reMintVc w now jwt2 options.
Proof.
  intros V1 V2 R1 R2 Ha. unfold reMintVc. rewrite V1, V2. cbn. rewrite R1, R2. cbn.
  by rewrite (alike_payload w now options o1 o2).
Qed.

(** What a re-minted credential says. It is signed only for a payload that verified as a
    credential of this issuer; its subject and [sub] are the pairwise subject; its reserved
    claims are the fresh ones and nothing the stored credential or the sanitizer put there; its
    other claims are the sanitized stored ones; its status is the caller's; it expires within
    the presentation window and never after the stored credential or the cap. *)
Theorem remint_stamps w now jwt options out :
  reMintVc w now jwt options = Ok out →
  ∃ decoded o month expSec subject,
    vw_verify w jwt = Some (Some "vc+jwt", Some (JObj decoded)) ∧
    jget "iss" decoded = Some (JStr (vw_did w)) ∧
    readOriginal decoded = Ok o ∧
    signCompactJwt w (vcHeader w)
      [("vc", JObj ([("@context", og_context o ?? JArr [JStr VC_CONTEXT]); ("type", JArr (og_type o));
                     ("credentialSubject", JObj subject)]
                    ++ match ro_credentialStatus options with Some e => [("credentialStatus", statusJson e)] | None => [] end));
       ("iss", JStr (vw_did w)); ("sub", JStr (ro_subjectId options)); ("iat", JNum (now / 1000));
       ("nbf", JNum (match ro_notBefore options with Some nb => nb / 1000 | None => now / 1000 end));
       ("jti", JStr (ro_jti options)); ("exp", JNum expSec)] = Some out ∧
    jget "id" subject = Some (JStr (ro_subjectId options)) ∧
    issuanceMonthOf (og_iat o) = Ok month ∧ jget ISSUANCE_MONTH_CLAIM subject = Some (JStr month) ∧
    jget NULLIFIER_CLAIM subject = JStr <$> ro_nullifier options ∧
    (∃ claims, disclosedClaims options o = Ok claims ∧
       ∀ k, k ∉ RESERVED_CREDENTIAL_SUBJECT_KEYS → jget k subject = jget k claims) ∧
    expSec <= now / 1000 + (ro_disclosureTtlSeconds options ?? DEFAULT_DISCLOSURE_TTL_SECONDS) ∧
    (∀ e, og_exp o = Some e → expSec <= e) ∧
    (∀ cap, ro_maxExpiresAt options = Some cap → expSec <= cap / 1000).
Proof.
  intros (d & o & claims & month & expSec & Hv & Hr & Hc & Hm & He & Hs)%remint_ok.
  unfold verifiedPayload in Hv. destruct (vw_verify w jwt) as [[[typ|] [[]|]]|] eqn:Ev; try done.
  case_bool_decide; [|done]. destruct (jget "iss" o0) as [[]|] eqn:Ei; try done. case_bool_decide; simplify_eq.
  assert (Hres : ∀ k, k ∈ RESERVED_CREDENTIAL_SUBJECT_KEYS → k ∉ claims.*1).
  { intros k Hk Hin. rewrite <-(disclosedClaims_clean _ _ _ Hc) in Hin. by apply stripReserved_keys in Hin. }
  exists d, o, month, expSec, (claims ++ stamps options month). apply remintExp_ok in He as (Httl & _ & ->).
  split_and!; [done..| | | | | | | |].
  - rewrite jget_app_r by (apply Hres; set_solver). done.
  - done.
  - rewrite jget_app_r by (apply Hres; set_solver). done.
  - rewrite jget_app_r by (apply Hres; set_solver). unfold stamps. by destruct (ro_nullifier options).
  - exists claims. split; [done|]. intros k Hk. apply jget_app_l. intros Hin. by apply Hk, (stamps_keys options month).
  - destruct (og_exp o), (ro_maxExpiresAt options); simpl; lia.
  - intros e ->. destruct (ro_maxExpiresAt options); simpl; lia.
  - intros cap ->. simpl. lia.
Qed.


(** ** Witnesses *)
Module VcDemo.

Definition anyEmail (s : string) : bool := true.

(** Two users' stored credentials for the same domain, issued a day apart. *)
Definition stored (now : Z) (userId badgeId : string) : JObject :=
  match issuePayload {| vw_domain := "minister.example"; vw_did := "did:web:minister.example"; vw_kid := "k";
                        vw_base64url := id; vw_sign := Some; vw_verify := fun _ => None |}
          now "email-domain" (buildUserDid "minister.example" userId) [("domain", JStr "example.com")] (badgeOptions badgeId) with
  | Ok p => p
  | Err _ => []
  end.

Definition w : VcWorld :=
  {| vw_domain := "minister.example"; vw_did := "did:web:minister.example"; vw_kid := "did:web:minister.example#key-2";
     vw_base64url := id; vw_sign := fun _ => Some "sig";
     vw_verify := fun jwt =>
       if bool_decide (jwt = "vc1") then Some (Some "vc+jwt", Some (JObj (stored 1752400000000 "u1" "b1")))
       else if bool_decide (jwt = "vc2") then Some (Some "vc+jwt", Some (JObj (stored 1752486400123 "u2" "b2")))
       else None |}.

Definition options : RemintOptions :=
  {| ro_subjectId := "did:web:minister.example:u:p"; ro_jti := "j"; ro_maxExpiresAt := None; ro_notBefore := None;
     ro_sanitizeClaims := Some (sanitizeDisclosedClaims anyEmail); ro_disclosureTtlSeconds := None;
     ro_nullifier := Some "mnv1:n"; ro_credentialStatus := None |}.

Definition original (iat : Z) (userId : string) : Original :=
  {| og_context := Some (JArr [JStr VC_CONTEXT]);
     og_type := [JStr VC_BASE_TYPE; JStr "MinisterEmailDomainCredential"];
     og_subject := [("id", JStr (buildUserDid "minister.example" userId)); ("domain", JStr "example.com")];
     og_iat := iat; og_exp := Some (iat + 31557600) |}.

Lemma demo_alike : alike 1752500000000 options (original 1752400000 "u1") (original 1752486400 "u2").
Proof. split; try (vm_compute; reflexivity); eexists; (split; [reflexivity|vm_compute; discriminate]). Qed.

End VcDemo.

Lemma remint_unlinkable_witness :
  reMintVc VcDemo.w 1752500000000 "vc1" VcDemo.options = reMintVc VcDemo.w 1752500000000 "vc2" VcDemo.options.
Proof.
  apply (remint_unlinkable VcDemo.w 1752500000000 VcDemo.options "vc1" "vc2"
           (VcDemo.stored 1752400000000 "u1" "b1") (VcDemo.stored 1752486400123 "u2" "b2")
           (VcDemo.original 1752400000 "u1") (VcDemo.original 1752486400 "u2"));
    [vm_compute; reflexivity..|apply VcDemo.demo_alike].
Defined.

Lemma remint_stamps_witness :
  ∃ out decoded, reMintVc VcDemo.w 1752500000000 "vc1" VcDemo.options = Ok out ∧
    vw_verify VcDemo.w "vc1" = Some (Some "vc+jwt", Some (JObj decoded)).
Proof.
  destruct (reMintVc VcDemo.w 1752500000000 "vc1" VcDemo.options) as [out|e] eqn:E; [|vm_compute in E; discriminate].
  destruct (remint_stamps _ _ _ _ _ E) as (decoded & o & month & expSec & subject & Hv & _).
  exists out, decoded. split; [reflexivity|exact Hv].
Defined.

