(* ===== verification/Pairwise.v ===== *)
(** * Pairwise identifiers (lib/pairwise-backend.ts, lib/oidc-client-admin.ts)

    Pseudonyms are keyed hashes of tagged inputs, computed in process or by a remote service
    (Signet) that holds the same key. A backend setting selects the source: the local value, the
    local value with an asynchronous comparison, the remote value with the local one as
    fallback, or the remote value alone. The hash and the remote service are parameters. *)

From S2P Require Import Prelude Registry Claims.

Open Scope Z_scope.
Open Scope minister_scope.

(** ** Tagged inputs *)

Definition pairwiseSubInput (userId clientId : string) : string := userId +:+ ":" +:+ clientId.
Definition pairwiseJtiInput (badgeId clientId : string) : string := "jti:" +:+ badgeId +:+ ":" +:+ clientId.
Definition shareLinkPairwiseSubInput (userId shareLinkId : string) : string :=
  "sharelink:" +:+ userId +:+ ":" +:+ shareLinkId.
Definition shareLinkPairwiseJtiInput (badgeId shareLinkId : string) : string :=
  "jti:sharelink:" +:+ badgeId +:+ ":" +:+ shareLinkId.

Inductive PairwiseFamily := FSub | FJti | FShareLinkSub | FShareLinkJti.

Definition taggedInput (family : PairwiseFamily) (a b : string) : string :=
  match family with
  | FSub => pairwiseSubInput a b
  | FJti => pairwiseJtiInput a b
  | FShareLinkSub => shareLinkPairwiseSubInput a b
  | FShareLinkJti => shareLinkPairwiseJtiInput a b
  end.

(** The admin guard on client ids: [/^mc_[A-Za-z0-9_-]+$/]. *)
Definition is_id_char (c : Ascii.ascii) : bool :=
  is_lower_letter c || is_upper_letter c || is_digit_char c || bool_decide (c = "_"%char) || bool_decide (c = "-"%char).

Definition CLIENT_ID_RE (s : string) : bool :=
  String.prefix "mc_" s && Nat.ltb 3 (String.length s) && all_chars is_id_char s.

Definition LEGACY_CLIENT_IDS : list string := ["demo_client"].

Definition isValidClientId (clientId : string) : bool :=
  bool_decide (clientId ∈ LEGACY_CLIENT_IDS) || CLIENT_ID_RE clientId.

Definition validateClientId (clientId : string) : result string string :=
  if isValidClientId clientId then Ok clientId
  else Err ("Invalid client_id " +:+ clientId +:+ ": must match ^mc_[A-Za-z0-9_-]+$").

(** ** The backends *)

Inductive SubBackend := BLocal | BShadow | BSignetFallback | BSignet.

(** What a call of the remote service comes back with. *)
Inductive SignetReply := Unreachable (error : string) | Reply (status : Z) (json : Json).

Record PairwiseEnv := {
  pe_backend : option string;
  pe_secret : option string;
  pe_hmac : string → string → string;
  pe_signet : string → SignetReply;
}.

Definition PAIRWISE_OUTPUT_LEN : nat := 43.
Definition MAX_PAIRWISE_INPUT_BYTES : nat := 512.
Definition MAX_INFLIGHT_SHADOW : nat := 64.

Definition pairwiseSecret (env : PairwiseEnv) : result string string :=
  match pe_secret env with
  | Some s => if bool_decide (s = "") then Err "OIDC_PAIRWISE_SECRET must be set" else Ok s
  | None => Err "OIDC_PAIRWISE_SECRET must be set"
  end.

Definition deriveLocalPairwise (env : PairwiseEnv) (input : string) : result string string :=
  secret ← pairwiseSecret env; Ok (pe_hmac env secret input).

Definition selectSubBackend (env : PairwiseEnv) : result string SubBackend :=
  let v := pe_backend env ?? "local" in
  if bool_decide (v = "local") then Ok BLocal
  else if bool_decide (v = "shadow") then Ok BShadow
  else if bool_decide (v = "signet-fallback") then Ok BSignetFallback
  else if bool_decide (v = "signet") then Ok BSignet
  else Err ("Unknown MINISTER_SUB_BACKEND: " +:+ v).

(** One validated round trip to the remote service. *)
Definition signetPairwise (env : PairwiseEnv) (input : string) : result string string :=
  match pe_signet env input with
  | Unreachable e => Err e
  | Reply status json =>
      if negb (status =? 200) then Err "pairwise: signet /prf/pairwise returned an error status"
      else match json with
           | JObj o =>
               match jget "output" o with
               | Some (JStr output) =>
                   if Nat.eqb (String.length output) PAIRWISE_OUTPUT_LEN && all_chars is_id_char output
                   then Ok output else Err "pairwise: signet returned a malformed pairwise output"
               | _ => Err "pairwise: signet response lacks a string output field"
               end
           | JArr _ => Err "pairwise: signet response lacks a string output field"
           | _ => Err "pairwise: signet returned a non-object body"
           end
  end.

(** [Buffer.byteLength(input, "utf8")] of 8-bit code units. *)
Definition byteLength (s : string) : nat :=
  sum_list (map (fun c => if Nat.ltb (Ascii.nat_of_ascii c) 128 then 1 else 2) (String.list_ascii_of_string s))%nat.

Definition capInput (input : string) : result string unit :=
  if Nat.eqb (byteLength input) 0 || Nat.ltb MAX_PAIRWISE_INPUT_BYTES (byteLength input)
  then Err "pairwise: tagged input length out of range" else Ok tt.

(** *** Telemetry and the comparisons in flight *)

Inductive PairwiseEvent :=
  | ShadowMismatch (family : PairwiseFamily)
  | ShadowCompareOk (family : PairwiseFamily)
  | ShadowError (family : PairwiseFamily) (error : string)
  | ShadowSkipped (family : PairwiseFamily)
  | ServeMismatch (family : PairwiseFamily)
  | Fallback (family : PairwiseFamily) (error : string).

Record Compare := { cm_family : PairwiseFamily; cm_input : string; cm_local : string }.

Record PairwiseState := { ps_inFlight : list Compare; ps_events : list PairwiseEvent }.

Definition emit (e : PairwiseEvent) (st : PairwiseState) : PairwiseState :=
  {| ps_inFlight := ps_inFlight st; ps_events := ps_events st ++ [e] |}.

Definition startShadowCompare (family : PairwiseFamily) (input local : string) (st : PairwiseState) : PairwiseState :=
  if Nat.leb MAX_INFLIGHT_SHADOW (length (ps_inFlight st)) then emit (ShadowSkipped family) st
  else {| ps_inFlight := ps_inFlight st ++ [{| cm_family := family; cm_input := input; cm_local := local |}];
          ps_events := ps_events st |}.

(** The comparison at position [i] completes. *)
Definition settleCompare (env : PairwiseEnv) (i : nat) (st : PairwiseState) : PairwiseState :=
  match ps_inFlight st !! i with
  | None => st
  | Some c =>
      emit (match signetPairwise env (cm_input c) with
            | Ok remote => if bool_decide (remote = cm_local c) then ShadowCompareOk (cm_family c) else ShadowMismatch (cm_family c)
            | Err e => ShadowError (cm_family c) e
            end)
        {| ps_inFlight := delete i (ps_inFlight st); ps_events := ps_events st |}
  end.

(** *** The seam *)

Definition derivePairwise (env : PairwiseEnv) (family : PairwiseFamily) (input : string) (st : PairwiseState) :
    result string string * PairwiseState :=
  match capInput input with
  | Err e => (Err e, st)
  | Ok _ =>
      match selectSubBackend env with
      | Err e => (Err e, st)
      | Ok BLocal => (deriveLocalPairwise env input, st)
      | Ok BShadow =>
          match deriveLocalPairwise env input with
          | Err e => (Err e, st)
          | Ok local => (Ok local, startShadowCompare family input local st)
          end
      | Ok BSignetFallback =>
          match deriveLocalPairwise env input with
          | Err e => (Err e, st)
          | Ok local =>
              match signetPairwise env input with
              | Ok remote => if bool_decide (remote = local) then (Ok remote, st) else (Ok local, emit (ServeMismatch family) st)
              | Err e => (Ok local, emit (Fallback family e) st)
              end
          end
      | Ok BSignet => (signetPairwise env input, st)
      end
  end.

Definition derivePairwiseSub (env : PairwiseEnv) (userId clientId : string) :=
  derivePairwise env FSub (pairwiseSubInput userId clientId).
Definition derivePairwiseJti (env : PairwiseEnv) (badgeId clientId : string) :=
  derivePairwise env FJti (pairwiseJtiInput badgeId clientId).
Definition deriveShareLinkPairwiseSub (env : PairwiseEnv) (userId shareLinkId : string) :=
  derivePairwise env FShareLinkSub (shareLinkPairwiseSubInput userId shareLinkId).
Definition deriveShareLinkPairwiseJti (env : PairwiseEnv) (badgeId shareLinkId : string) :=
  derivePairwise env FShareLinkJti (shareLinkPairwiseJtiInput badgeId shareLinkId).

(** A subject that a merge will store, checked against the local value when there is one. *)
Definition derivePairwiseSubForPersistence (env : PairwiseEnv) (userId clientId : string) (st : PairwiseState) :
    result string string * PairwiseState :=
  let input := pairwiseSubInput userId clientId in
  match derivePairwise env FSub input st with
  | (Err e, st') => (Err e, st')
  | (Ok served, st') =>
      match pairwiseSecret env with
      | Err _ => (Ok served, st')
      | Ok secret =>
          if bool_decide (served = pe_hmac env secret input) then (Ok served, st')
          else (Err "pairwise: merge-time sub crosscheck failed — the backend-served sub diverges from the local golden value; aborting merge (safe to retry)", st')
      end
  end.

(** ** Lemmas *)

Abbreviation colon_free s := (all_chars (fun c => negb (bool_decide (c = ":"%char))) s = true).

Definition tags (family : PairwiseFamily) : list string :=
  match family with
  | FSub => []
  | FJti => ["jti"]
  | FShareLinkSub => ["sharelink"]
  | FShareLinkJti => ["jti"; "sharelink"]
  end.

Lemma split_taggedInput family a b :
  colon_free a → colon_free b → split_on ":"%char (taggedInput family a b) = tags family ++ [a; b].
Proof.
  intros Ha Hb. assert (split_on ":"%char (pairwiseSubInput a b) = [a; b]) as H.
  { unfold pairwiseSubInput. change (":" +:+ b) with (String ":"%char b).
    rewrite split_on_app, (split_on_free _ a), (split_on_free _ b) by done. done. }
  destruct family; [exact H|..]; cbn [tags app].
  - change (taggedInput FJti a b) with ("jti" +:+ String ":"%char (pairwiseSubInput a b)).
    rewrite split_on_app, H. done.
  - change (taggedInput FShareLinkSub a b) with ("sharelink" +:+ String ":"%char (pairwiseSubInput a b)).
    rewrite split_on_app, H. done.
  - change (taggedInput FShareLinkJti a b) with ("jti:sharelink" +:+ String ":"%char (pairwiseSubInput a b)).
    rewrite split_on_app, H. done.
Qed.

Lemma all_chars_impl f g s : (∀ c, f c = true → g c = true) → all_chars f s = true → all_chars g s = true.
Proof. unfold all_chars. rewrite !forallb_forall. auto. Qed.

(** An id of the admin guard's character set has no colon. *)
Lemma client_id_colon_free clientId : isValidClientId clientId = true → colon_free clientId.
Proof.
  unfold isValidClientId, CLIENT_ID_RE. intros [H|H]%orb_true_iff.
  - bool_hyps. apply list_elem_of_singleton in H as ->. reflexivity.
  - bool_hyps. eapply all_chars_impl; [|done]. intros c. destruct c as [[] [] [] [] [] [] [] []]; vm_compute; congruence.
Qed.

(** The shadow comparisons reported so far. *)
Definition is_outcome (e : PairwiseEvent) : bool :=
  match e with ShadowMismatch _ | ShadowCompareOk _ | ShadowError _ _ | ShadowSkipped _ => true | _ => false end.
Definition outcomes (st : PairwiseState) : nat := length (filter (fun e => is_outcome e = true) (ps_events st)).

Lemma outcomes_emit e st : outcomes (emit e st) = (outcomes st + if is_outcome e then 1 else 0)%nat.
Proof.
  unfold outcomes, emit. cbn [ps_events]. rewrite filter_app, length_app. f_equal. by destruct e.
Qed.

(** A run of derivations and completing comparisons. *)
Inductive PairwiseOp := Derive (family : PairwiseFamily) (input : string) | Settle (i : nat).

Definition runOp (env : PairwiseEnv) (acc : nat * PairwiseState) (op : PairwiseOp) : nat * PairwiseState :=
  match op with
  | Settle i => (acc.1, settleCompare env i acc.2)
  | Derive family input =>
      match derivePairwise env family input acc.2 with
      | (Ok _, st') => (S acc.1, st')
      | (Err _, st') => (acc.1, st')
      end
  end.

Definition runOps (env : PairwiseEnv) (ops : list PairwiseOp) : nat * PairwiseState :=
  foldl (runOp env) (0%nat, {| ps_inFlight := []; ps_events := [] |}) ops.

Definition accounted (acc : nat * PairwiseState) : Prop :=
  (length (ps_inFlight acc.2) <= MAX_INFLIGHT_SHADOW)%nat ∧
  (outcomes acc.2 + length (ps_inFlight acc.2) = acc.1)%nat.

Lemma settle_accounted env i n st : accounted (n, st) → accounted (n, settleCompare env i st).
Proof.
  intros [Hle Heq]. cbn [fst snd] in *. unfold settleCompare. destruct (ps_inFlight st !! i) as [c|] eqn:E; [|done].
  assert (length (ps_inFlight st) = S (length (delete i (ps_inFlight st)))) as Hlen.
  { pose proof (length_delete (ps_inFlight st) i (mk_is_Some _ _ E)) as Hd. pose proof (lookup_lt_Some _ _ _ E). lia. }
  split; cbn [fst snd]; rewrite ?outcomes_emit; cbn [emit ps_inFlight].
  - lia.
  - assert (∀ r : result string string, is_outcome (match r with Ok remote => if bool_decide (remote = cm_local c)
        then ShadowCompareOk (cm_family c) else ShadowMismatch (cm_family c) | Err e => ShadowError (cm_family c) e end) = true) as ->
      by (by intros []; [case_bool_decide|]).
    unfold outcomes in *. cbn [ps_events] in *. lia.
Qed.

Lemma start_accounted family input local n st :
  accounted (n, st) → accounted (S n, startShadowCompare family input local st).
Proof.
  intros [Hle Heq]. cbn [fst snd] in *. unfold startShadowCompare.
  destruct (Nat.leb_spec MAX_INFLIGHT_SHADOW (length (ps_inFlight st))).
  - split; cbn [fst snd]; rewrite ?outcomes_emit; cbn [emit ps_inFlight is_outcome]; lia.
  - split; cbn [fst snd ps_inFlight]; rewrite length_app; cbn [length]; [lia|].
    unfold outcomes in *. cbn [ps_events] in *. lia.
Qed.

(** ** Pairwise values *)

(** Pseudonyms of different contexts never share a hash input. For ids without a colon
    (database ids, and client ids that pass the admin guard) the tagged input determines the
    derivation family and both ids. *)
Theorem tagged_inputs_disjoint family family' a b a' b' :
  colon_free a → (colon_free b ∨ isValidClientId b = true) →
  colon_free a' → (colon_free b' ∨ isValidClientId b' = true) →
  taggedInput family a b = taggedInput family' a' b' → family = family' ∧ a = a' ∧ b = b'.
Proof.
  intros Ha Hb Ha' Hb' H. apply (f_equal (split_on ":"%char)) in H.
  assert (colon_free b) by (destruct Hb; auto using client_id_colon_free).
  assert (colon_free b') by (destruct Hb'; auto using client_id_colon_free).
  rewrite !split_taggedInput in H by done.
  destruct family, family'; cbn in H; by simplify_eq.
Qed.


(** No shadow comparison is lost, and at most 64 are in flight. In every run of
    derivations and completions under the shadow backend, the derivations served are exactly
    the comparisons reported (equal, different, failed or skipped) and those in flight. *)
Theorem shadow_accounted env ops :
  selectSubBackend env = Ok BShadow →
  let '(served, st) := runOps env ops in
  (length (ps_inFlight st) <= MAX_INFLIGHT_SHADOW)%nat ∧
  (outcomes st + length (ps_inFlight st) = served)%nat.
Proof.
  intros Hb. assert (∀ acc, accounted acc → accounted (foldl (runOp env) acc ops)) as H.
  { induction ops as [|op ops IH]; intros acc Hacc; [done|]. cbn [foldl]. apply IH. destruct acc as [n st].
    destruct op as [family input|i]; cbn [runOp fst snd]; [|by apply settle_accounted].
    unfold derivePairwise. destruct (capInput input); [|done]. rewrite Hb.
    destruct (deriveLocalPairwise env input); [|done]. by apply start_accounted. }
  specialize (H (0%nat, {| ps_inFlight := []; ps_events := [] |})). unfold runOps.
  destruct (foldl _ _ _) as [served st]. apply H. split; [unfold MAX_INFLIGHT_SHADOW; cbn; lia|done].
Qed.

(** ** Witnesses *)
Module PairwiseDemo.

(** A remote service that is down for one input and answers another with a different value. *)
Definition env (backend : string) : PairwiseEnv :=
  {| pe_backend := Some backend; pe_secret := Some "k"; pe_hmac := fun s i => s +:+ i;
     pe_signet := fun i => if bool_decide (i = "u1:mc_a") then Unreachable "timeout"
       else Reply 200 (JObj [("output", JStr "AAAAAAAAAAAAAAAAAAAAAAAAAAAAAAAAAAAAAAAAAAA")]) |}.

Definition empty : PairwiseState := {| ps_inFlight := []; ps_events := [] |}.

End PairwiseDemo.

Lemma tagged_inputs_disjoint_witness :
  taggedInput FJti "b1" "mc_a" = taggedInput FJti "b1" "mc_a" ∧ FJti = FJti ∧ "b1" = "b1" ∧ "mc_a" = "mc_a".
Proof.
  split; [reflexivity|].
  apply (tagged_inputs_disjoint FJti FJti "b1" "mc_a" "b1" "mc_a"); try reflexivity; right; reflexivity.
Defined.


Lemma shadow_accounted_witness :
  let '(served, st) := runOps (PairwiseDemo.env "shadow") [Derive FSub "u1:mc_a"; Derive FSub "u2:mc_a"; Settle 0] in
  served = 2%nat ∧ ps_events st = [ShadowError FSub "timeout"] ∧ (outcomes st + length (ps_inFlight st) = served)%nat.
Proof.
  pose proof (shadow_accounted (PairwiseDemo.env "shadow") [Derive FSub "u1:mc_a"; Derive FSub "u2:mc_a"; Settle 0] eq_refl) as H.
  vm_compute in H. vm_compute. split; [reflexivity|]. split; [reflexivity|]. exact (proj2 H).
Defined.
