(* ===== verification/Nullifier.v ===== *)
(** * Sybil anchors and their encoding (lib/nullifier/encoding.ts, lib/nullifier/normalize.ts)

    A credential that may back one account only has an anchor, such as a normalized e-mail
    address. The ledger stores a keyed image of the anchor and the badge type, and relying
    parties see an image of that image per client. The fields that are hashed are prefixed
    with their length, so that no two field lists share an input. The MAC, the key derivation
    and base64url are parameters; bytes are integers. *)

From S2P Require Import Prelude RateLimit Registry Pairwise.

Open Scope Z_scope.
Open Scope minister_scope.

(** ** Bytes *)

(** [Buffer.from(s, "utf8")] of 8-bit code units. *)
Definition utf8_char (c : Ascii.ascii) : list Z :=
  let n := Z.of_nat (Ascii.nat_of_ascii c) in
  if n <? 128 then [n] else [Z.lor 192 (Z.shiftr n 6); Z.lor 128 (Z.land n 63)].
Definition utf8 (s : string) : list Z := concat (map utf8_char (String.list_ascii_of_string s)).

(** The inverse, on the head of a byte sequence. *)
Definition utf8_head (l : list Z) : option (Ascii.ascii * list Z) :=
  match l with
  | a :: l' =>
      if a <? 128 then Some (Ascii.ascii_of_nat (Z.to_nat a), l')
      else match l' with
           | b :: l'' => Some (Ascii.ascii_of_nat (Z.to_nat (Z.lor (Z.shiftl (Z.land a 3) 6) (Z.land b 63))), l'')
           | [] => None
           end
  | [] => None
  end.

Lemma utf8_head_char c u : utf8_head (utf8_char c ++ u) = Some (c, u).
Proof. by destruct c as [[] [] [] [] [] [] [] []]. Qed.

Lemma utf8_char_cons c : ∃ a l, utf8_char c = a :: l.
Proof. unfold utf8_char. case_match; eauto. Qed.

Lemma utf8_inj s s' : utf8 s = utf8 s' → s = s'.
Proof.
  revert s'. induction s as [|c s IH]; intros [|c' s'] H; [done| | |].
  - unfold utf8 in H. cbn in H. destruct (utf8_char_cons c') as (a & l & E). rewrite E in H. discriminate.
  - unfold utf8 in H. cbn in H. destruct (utf8_char_cons c) as (a & l & E). rewrite E in H. discriminate.
  - change (utf8 (String c s)) with (utf8_char c ++ utf8 s) in H. change (utf8 (String c' s')) with (utf8_char c' ++ utf8 s') in H.
    apply (f_equal utf8_head) in H. rewrite !utf8_head_char in H. injection H as -> H. f_equal. by apply IH.
Qed.

Lemma length_utf8 s : length (utf8 s) = byteLength s.
Proof.
  unfold byteLength. induction s as [|c s IH]; [done|]. change (utf8 (String c s)) with (utf8_char c ++ utf8 s). rewrite length_app, IH.
  cbn [String.list_ascii_of_string map sum_list_with]. unfold utf8_char.
  destruct (Nat.ltb_spec (Ascii.nat_of_ascii c) 128), (Z.ltb_spec (Z.of_nat (Ascii.nat_of_ascii c)) 128); try lia; cbn; unfold sum_list; lia.
Qed.

(** ** Length prefixes *)

Definition MAX_FIELD_BYTES : Z := 65535.
Definition MAX_ANCHOR_BYTES : nat := 512.
Definition MAX_BADGE_TYPE_BYTES : nat := 64.
Definition MAX_CLIENT_ID_BYTES : nat := 256.

Definition capField (value : string) (maxBytes : nat) (field : string) : result string unit :=
  let len := byteLength value in
  if Nat.ltb maxBytes len
  then Err ("nullifier field " +:+ field +:+ " too long: " +:+ pretty len +:+ " > " +:+ pretty maxBytes +:+ " bytes")
  else Ok tt.

Definition lp (bytes : list Z) : result string (list Z) :=
  let n := length bytes in
  if MAX_FIELD_BYTES <? Z.of_nat n then Err ("nullifier LP field too long: " +:+ pretty n +:+ " bytes")
  else Ok ([Z.shiftr (Z.of_nat n) 8; Z.land (Z.of_nat n) 255] ++ bytes).

Definition lpStr (value : string) : result string (list Z) := lp (utf8 value).

(** [Buffer.concat] of prefixed fields. *)
Fixpoint lpAll (fields : list (list Z)) : result string (list Z) :=
  match fields with
  | [] => Ok []
  | x :: fields' => p ← lp x; rest ← lpAll fields'; Ok (p ++ rest)
  end.

Record MacWorld := {
  mw_secret : option string;
  mw_hkdf : string → list Z;
  mw_hmac : list Z → list Z → list Z;
  mw_base64url : list Z → string;
}.

Definition HKDF_INFO : string := "minister/v1/nullifier-interim".

Definition interimKey (w : MacWorld) : result string (list Z) :=
  match mw_secret w with
  | None | Some "" => Err "OIDC_PAIRWISE_SECRET must be set (nullifier interim backend)"
  | Some secret => Ok (mw_hkdf w secret)
  end.

Definition dedupInput (anchor badgeType : string) : result string (list Z) :=
  lpAll [utf8 "dedup"; utf8 anchor; utf8 badgeType].

Definition deriveDedupValue (w : MacWorld) (anchor badgeType : string) : result string (list Z) :=
  _ ← capField anchor MAX_ANCHOR_BYTES "anchor";
  _ ← capField badgeType MAX_BADGE_TYPE_BYTES "badge_type";
  msg ← dedupInput anchor badgeType;
  key ← interimKey w;
  Ok (mw_hmac w key msg).

Definition VOPRF_PROTOCOL_TAG : string := "minister/null/v1".

Definition buildVoprfDedupInput (anchor badgeType : string) : result string (list Z) :=
  _ ← capField anchor MAX_ANCHOR_BYTES "anchor";
  _ ← capField badgeType MAX_BADGE_TYPE_BYTES "badge_type";
  lpAll [utf8 VOPRF_PROTOCOL_TAG; utf8 "dedup"; utf8 anchor; utf8 badgeType].

Definition capClientId (clientId : string) : result string unit := capField clientId MAX_CLIENT_ID_BYTES "clientId".

Definition disclosedInput (value : list Z) (clientId : string) : result string (list Z) :=
  lpAll [utf8 "rp"; value; utf8 clientId].

Definition deriveDisclosedNullifier (w : MacWorld) (value : list Z) (clientId : string) : result string string :=
  _ ← capField clientId MAX_CLIENT_ID_BYTES "clientId";
  msg ← disclosedInput value clientId;
  key ← interimKey w;
  Ok ("mnv1:" +:+ mw_base64url w (mw_hmac w key msg)).

(** *** Prefixed fields are unambiguous *)

Lemma lp_inj x y p q u v : lp x = Ok p → lp y = Ok q → p ++ u = q ++ v → x = y ∧ u = v.
Proof.
  unfold lp. destruct (Z.ltb_spec MAX_FIELD_BYTES (Z.of_nat (length x))) as [|Hx]; [done|].
  destruct (Z.ltb_spec MAX_FIELD_BYTES (Z.of_nat (length y))) as [|Hy]; [done|]. intros [= <-] [= <-]. cbn. intros [= Hhi Hlo Hrest].
  unfold MAX_FIELD_BYTES in *.
  assert (length x = length y) as Hlen.
  { change 255 with (Z.ones 8) in Hlo. rewrite !Z.land_ones in Hlo by lia. rewrite !Z.shiftr_div_pow2 in Hhi by lia.
    pose proof (Z.div_mod (Z.of_nat (length x)) (2 ^ 8)). pose proof (Z.div_mod (Z.of_nat (length y)) (2 ^ 8)). lia. }
  by apply app_inj_1 in Hrest.
Qed.

(** A list of fields is determined by its encoding. *)
Lemma lpAll_inj xs ys m : lpAll xs = Ok m → lpAll ys = Ok m → xs = ys.
Proof.
  revert ys m. induction xs as [|x xs IH]; intros [|y ys] m; cbn [lpAll]; [done| | |].
  - intros [= <-] H. apply bind_Ok in H as (p & Hp & H). apply bind_Ok in H as (r & _ & H). unfold lp in Hp. destruct (_ <? _); [done|].
    injection Hp as <-. discriminate.
  - intros H [= <-]. apply bind_Ok in H as (p & Hp & H). apply bind_Ok in H as (r & _ & H). unfold lp in Hp. destruct (_ <? _); [done|].
    injection Hp as <-. discriminate.
  - intros H H'. apply bind_Ok in H as (p & Hp & H). apply bind_Ok in H as (r & Hr & [= <-]).
    apply bind_Ok in H' as (q & Hq & H'). apply bind_Ok in H' as (r' & Hr' & [= Heq]).
    destruct (lp_inj x y p q r r' Hp Hq) as [-> ->]; [done|]. f_equal. by eapply IH.
Qed.

(** The three uses of the encoding, and the fields they encode. *)
Inductive MacUse :=
  | UseDedup (anchor badgeType : string)
  | UseVoprf (anchor badgeType : string)
  | UseDisclose (value : list Z) (clientId : string).

Definition macInput (u : MacUse) : result string (list Z) :=
  match u with
  | UseDedup anchor badgeType => dedupInput anchor badgeType
  | UseVoprf anchor badgeType => buildVoprfDedupInput anchor badgeType
  | UseDisclose value clientId => disclosedInput value clientId
  end.

Definition macFields (u : MacUse) : list (list Z) :=
  match u with
  | UseDedup anchor badgeType => [utf8 "dedup"; utf8 anchor; utf8 badgeType]
  | UseVoprf anchor badgeType => [utf8 VOPRF_PROTOCOL_TAG; utf8 "dedup"; utf8 anchor; utf8 badgeType]
  | UseDisclose value clientId => [utf8 "rp"; value; utf8 clientId]
  end.

Lemma macInput_fields u m : macInput u = Ok m → lpAll (macFields u) = Ok m.
Proof.
  destruct u as [a t|a t|v c]; cbn [macInput macFields]; [done| |done]. unfold buildVoprfDedupInput. intros H.
  apply bind_Ok in H as (_ & _ & H). by apply bind_Ok in H as (_ & _ & H).
Qed.

(** Credentials, client images and the inputs of the remote service never share an input:
    equal bytes come from the same use and the same fields, whatever the fields contain. *)
Theorem mac_inputs_unambiguous u u' m : macInput u = Ok m → macInput u' = Ok m → u = u'.
Proof.
  intros H H'. pose proof (lpAll_inj _ _ _ (macInput_fields _ _ H) (macInput_fields _ _ H')) as Hf.
  destruct u as [a t|a t|v c], u' as [a' t'|a' t'|v' c']; cbn [macFields] in Hf; try discriminate Hf.
  - injection Hf as Ha%utf8_inj Ht%utf8_inj. congruence.
  - injection Hf as Ha%utf8_inj Ht%utf8_inj. congruence.
  - injection Hf as -> Hc%utf8_inj. congruence.
Qed.

(** ** Normalization of addresses *)

Definition ANCHOR_NORMALIZATION_VERSION : Z := 1.
Definition PLUS_TAG_IGNORING_PROVIDERS : list string := ["outlook.com"; "hotmail.com"; "live.com"].

(** Everything before the first separator. *)
Fixpoint before (d : Ascii.ascii) (s : string) : string :=
  match s with
  | EmptyString => EmptyString
  | String c s' => if decide (c = d) then EmptyString else String c (before d s')
  end.
Definition stripPlusTag (localPart : string) : string := before "+"%char localPart.

(** [s.replace(/\./gu, "")] *)
Fixpoint without (d : Ascii.ascii) (s : string) : string :=
  match s with
  | EmptyString => EmptyString
  | String c s' => if decide (c = d) then without d s' else String c (without d s')
  end.

(** The parts before and after the last separator. *)
Fixpoint split_last (d : Ascii.ascii) (s : string) : option (string * string) :=
  match s with
  | EmptyString => None
  | String c s' =>
      match split_last d s' with
      | Some (l, r) => Some (String c l, r)
      | None => if decide (c = d) then Some (EmptyString, s') else None
      end
  end.

Definition is_ascii (c : Ascii.ascii) : bool := Nat.ltb (Ascii.nat_of_ascii c) 128.

Definition normalizeEmailAnchor (email : string) : result string string :=
  let trimmed := trim email in
  if negb (all_chars is_ascii trimmed) then Err "normalizeEmailAnchor: non-ASCII character in address"
  else
    let lowered := toLowerCase trimmed in
    match split_last "@"%char lowered with
    | None | Some ("", _) | Some (_, "") => Err "normalizeEmailAnchor: address has no local@domain split"
    | Some (local, domain) =>
        let domain := if bool_decide (domain = "googlemail.com") then "gmail.com" else domain in
        let local :=
          if bool_decide (domain = "gmail.com") then without "."%char (stripPlusTag local)
          else if bool_decide (domain ∈ PLUS_TAG_IGNORING_PROVIDERS) then stripPlusTag local
          else local in
        if bool_decide (local = "") then Err "normalizeEmailAnchor: address normalizes to an empty local part"
        else Ok (local +:+ "@" +:+ domain)
    end.

(** *** The anchor decides the mailbox

    What the providers document, as rewrite steps on (local part, domain). *)

Inductive inbox_step : string * string → string * string → Prop :=
  | step_google l : inbox_step (l, "googlemail.com") (l, "gmail.com")
  | step_dot l l' : inbox_step (l +:+ String "."%char l', "gmail.com") (l +:+ l', "gmail.com")
  | step_tag l t d : d = "gmail.com" ∨ d ∈ PLUS_TAG_IGNORING_PROVIDERS → inbox_step (l +:+ String "+"%char t, d) (l, d).

Definition fold_address (p : string * string) : string * string :=
  let d := if bool_decide (p.2 = "googlemail.com") then "gmail.com" else p.2 in
  (if bool_decide (d = "gmail.com") then without "."%char (stripPlusTag p.1)
   else if bool_decide (d ∈ PLUS_TAG_IGNORING_PROVIDERS) then stripPlusTag p.1 else p.1, d).

Definition address (email : string) : option (string * string) := split_last "@"%char (toLowerCase (trim email)).

Lemma before_app d l t : before d (l +:+ String d t) = before d l.
Proof.
  induction l as [|c l IH]; simpl; [by rewrite decide_True|]. case_decide; [done|]. by f_equal.
Qed.

Lemma without_app d l t : without d (l +:+ t) = without d l +:+ without d t.
Proof. induction l as [|c l IH]; simpl; [done|]. case_decide; [done|]. by rewrite IH. Qed.

(** A dot never changes what is left without dots and tag. *)
Lemma fold_dot l l' : without "."%char (stripPlusTag (l +:+ String "."%char l')) = without "."%char (stripPlusTag (l +:+ l')).
Proof.
  unfold stripPlusTag. induction l as [|c l IH]; simpl; [done|]. destruct (decide (c = "+"%char)); [done|]. cbn. by rewrite IH.
Qed.

Lemma fold_step p q : inbox_step p q → fold_address p = fold_address q.
Proof.
  intros [l|l l'|l t d Hd]; unfold fold_address; cbn [fst snd].
  - done.
  - cbn. f_equal. apply fold_dot.
  - assert (bool_decide (d = "googlemail.com") = false) as ->.
    { apply bool_decide_eq_false_2. intros ->. destruct Hd as [Hd|Hd]; [discriminate|]. revert Hd. by apply (bool_decide_unpack _). }
    unfold stripPlusTag. rewrite before_app. case_bool_decide as Hg; [done|]. destruct Hd as [Hd|Hd]; [done|].
    by rewrite bool_decide_eq_true_2 by done.
Qed.

Lemma before_split d s : before d s = s ∨ ∃ t, s = before d s +:+ String d t.
Proof.
  induction s as [|c s IH]; simpl; [by left|]. case_decide as Hc; [subst; right; by exists s|].
  destruct IH as [->|[t Ht]]; [by left|]. right. exists t. change (String c s = String c (before d s +:+ String d t)). by f_equal.
Qed.

Lemma reach_tag l d : d = "gmail.com" ∨ d ∈ PLUS_TAG_IGNORING_PROVIDERS → rtc inbox_step (l, d) (stripPlusTag l, d).
Proof.
  intros Hd. unfold stripPlusTag. destruct (before_split "+"%char l) as [->|[t Ht]]; [done|].
  rewrite Ht at 1. by apply rtc_once, step_tag.
Qed.

Lemma string_app_assoc (a b c : string) : a +:+ (b +:+ c) = (a +:+ b) +:+ c.
Proof. induction a as [|x a IH]; [done|]. change (String x (a +:+ (b +:+ c)) = String x ((a +:+ b) +:+ c)). by f_equal. Qed.

Lemma reach_dots a l : rtc inbox_step (a +:+ l, "gmail.com") (a +:+ without "."%char l, "gmail.com").
Proof.
  revert a. induction l as [|c l IH]; intros a; simpl; [done|]. case_decide as Hc; [subst c|].
  - eapply rtc_l; [apply step_dot|]. apply IH.
  - specialize (IH (a +:+ String c EmptyString)). by rewrite <-!string_app_assoc in IH.
Qed.

(** Every address rewrites to its folded form. *)
Lemma reach_fold p : rtc inbox_step p (fold_address p).
Proof.
  destruct p as [l d]. unfold fold_address. cbn [fst snd]. destruct (decide (d = "googlemail.com")) as [->|Hg].
  - eapply rtc_l; [apply step_google|]. cbn. etrans; [apply reach_tag; by left|]. apply (reach_dots "").
  - rewrite (bool_decide_eq_false_2 _ Hg). case_bool_decide as Hm; [subst d; etrans; [apply reach_tag; by left|]; apply (reach_dots "")|].
    case_bool_decide as Hp; [apply reach_tag; by right|done].
Qed.

Lemma split_last_None d s : split_last d s = None ↔ all_chars (fun c => negb (bool_decide (c = d))) s = true.
Proof.
  unfold all_chars. induction s as [|c s IH]; simpl; [done|]. rewrite andb_true_iff, <-IH.
  destruct (split_last d s) as [[l r]|]; [split; [done|]; by intros [_ ?]|].
  case_decide as Hc; [subst|]; [rewrite bool_decide_eq_true_2 by done|rewrite bool_decide_eq_false_2 by done]; simpl; split; (done || by intros []).
Qed.

(** The part after the last separator has none, and the parts determine the string. *)
Lemma split_last_Some d s l r : split_last d s = Some (l, r) → s = l +:+ String d r ∧ split_last d r = None.
Proof.
  revert l r. induction s as [|c s IH]; simpl; intros l r; [done|]. destruct (split_last d s) as [[l0 r0]|] eqn:E.
  - intros [= <- <-]. destruct (IH l0 r0 eq_refl) as [-> Hr]. done.
  - case_decide as Hc; [|done]. intros [= <- <-]. by subst.
Qed.

Lemma split_last_app d l r : split_last d r = None → split_last d (l +:+ String d r) = Some (l, r).
Proof.
  intros Hr. induction l as [|c l IH]; simpl; [by rewrite Hr, decide_True|]. change (l +:+ String d r) with (String.append l (String d r)) in IH.
  by rewrite IH.
Qed.

Lemma normalize_fold email a :
  normalizeEmailAnchor email = Ok a →
  ∃ p, address email = Some p ∧ a = (fold_address p).1 +:+ String "@"%char (fold_address p).2.
Proof.
  unfold normalizeEmailAnchor, address. destruct (negb _); [done|].
  destruct (split_last _ _) as [[l d]|] eqn:E; [|done]. destruct l as [|c l]; [done|]. destruct d as [|c' d]; [done|].
  intros H. exists (String c l, String c' d). split; [done|]. unfold fold_address. cbn [fst snd].
  case_bool_decide as Hempty; [done|]. by injection H as <-.
Qed.

Lemma fold_domain_free p email : address email = Some p → split_last "@"%char (fold_address p).2 = None.
Proof.
  destruct p as [l d]. intros [_ Hd]%split_last_Some. unfold fold_address. cbn [fst snd]. by case_bool_decide.
Qed.

(** C38: The anchor of an address is the mailbox, no more and no less. Two addresses have the
    same anchor exactly when the providers' documented rules connect them: the two Google
    domains, dots at Google, tags at Google and Microsoft; every other pair that differs after
    trimming and lower case has different anchors. *)
Theorem anchor_is_mailbox email email' a a' :
  normalizeEmailAnchor email = Ok a → normalizeEmailAnchor email' = Ok a' →
  ∃ p p', address email = Some p ∧ address email' = Some p' ∧ (a = a' ↔ rtsc inbox_step p p').
Proof.
  intros (p & Hp & ->)%normalize_fold (p' & Hp' & ->)%normalize_fold. exists p, p'. split_and!; [done|done|]. split.
  - intros Heq. assert (fold_address p = fold_address p') as Hf.
    { apply (f_equal (split_last "@"%char)) in Heq.
      rewrite !(split_last_app "@"%char) in Heq by (by eapply fold_domain_free). revert Heq.
      destruct (fold_address p), (fold_address p'). cbn [fst snd]. congruence. }
    etrans; [apply rtc_rtsc_rl, reach_fold|]. rewrite Hf. apply rtc_rtsc_lr, reach_fold.
  - intros H. assert (fold_address p = fold_address p') as ->; [|done].
    clear Hp Hp'. induction H as [x|x y z Hs _ IH]; [done|]. rewrite <-IH. destruct Hs as [Hs|Hs]; [|symmetry]; by apply fold_step.
Qed.

Lemma anchor_is_mailbox_witness :
  ∃ p p', address "J.o.hn+news@GoogleMail.com" = Some p ∧ address "john@gmail.com" = Some p' ∧ rtsc inbox_step p p'.
Proof.
  destruct (anchor_is_mailbox "J.o.hn+news@GoogleMail.com" "john@gmail.com" "john@gmail.com" "john@gmail.com") as (p & p' & Hp & Hp' & Hiff);
    [vm_compute; reflexivity|vm_compute; reflexivity|].
  exists p, p'. split; [exact Hp|]. split; [exact Hp'|]. by apply Hiff.
Defined.
