(* ===== verification/SybilScore.v ===== *)
(** * The anti-sybil scorer (lib/sybil-score.ts, lib/sybil-config.ts)

    The scorer folds a user's badges into a raw score and a bucket: badges are grouped
    by category, correlated families collapse to their best member, the members of a
    category count with geometric decay up to a cap, and the buckets 3 and 4 also need
    enough qualifying categories. The weights, caps and cutoffs are integer columns. *)

From S2P Require Import Prelude Registry.

Open Scope Z_scope.

(** ** Data *)

(** A value of the badge's attribute JSON: numbers are integers (months, follower
    counts), everything that is neither a string nor a number is [AttrOther]. *)
Inductive AttrValue := AttrString (s : string) | AttrNumber (z : Z) | AttrOther.

(** [sb_attributes] is [None] for a JSON container that is not an object. *)
Record ScorableBadge := {
  sb_type : string;
  sb_attributes : option (gmap string AttrValue);
  sb_expiresAt : option Z;
  sb_issuer : string;
}.

Record Cutoffs := { b1 : Z; b2 : Z; b3 : Z; b4 : Z; b3Cats : Z; b4Cats : Z }.

Record SybilScoringConfig := {
  weights : gmap string (gmap string Z);
  categoryByType : gmap string string;
  caps : gmap string Z;
  cutoffs : Cutoffs;
}.

Record SybilScoreResult := { raw : Z; bucket : Z }.

Record WeightRowInput := {
  wr_badgeType : string;
  wr_qualifier : string;
  wr_sybilWeight : Z;
  wr_category : string;
}.

(** ** The configuration builder *)

Definition addWeightRow (acc : gmap string (gmap string Z) * gmap string string)
    (row : WeightRowInput) : gmap string (gmap string Z) * gmap string string :=
  let byQual := default ∅ (acc.1 !! wr_badgeType row) in
  (<[wr_badgeType row := <[wr_qualifier row := wr_sybilWeight row]> byQual]> acc.1,
   <[wr_badgeType row := wr_category row]> acc.2).

Definition buildSybilScoringConfig (weightRows : list WeightRowInput)
    (categories : list (string * Z)) (cuts : Cutoffs) : SybilScoringConfig :=
  let acc := foldl addWeightRow (∅, ∅) weightRows in
  {| weights := acc.1; categoryByType := acc.2;
     caps := foldl (fun m cat => <[cat.1 := cat.2]> m) ∅ categories; cutoffs := cuts |}.

(** ** The scorer *)

Definition CATEGORY_QUALIFY_THRESHOLD : Z := 8.

(** A template literal's rendering of a string or a number. *)
Definition render (v : AttrValue) : option string :=
  match v with
  | AttrString s => Some s
  | AttrNumber z => Some (pretty z)
  | AttrOther => None
  end.

Definition attr_string (v : option AttrValue) : option string :=
  match v with Some (AttrString s) => Some s | _ => None end.

(** The chain of a type qualified by provider and bucket. *)
Definition providerChain (attrs : gmap string AttrValue) (bucketKey : string) : list string :=
  match attr_string (attrs !! "provider") with
  | Some provider =>
      match attrs !! bucketKey ≫= render with
      | Some q => [provider +:+ ":" +:+ q]
      | None => []
      end ++ [provider]
  | None => []
  end ++ ["*"].

Definition qualifierChain (type : string) (attributes : option (gmap string AttrValue)) :
    list string :=
  let attrs := default ∅ attributes in
  if decide (type = "oauth-account") then
    match attr_string (attrs !! "provider") with Some p => [p; "*"] | None => ["*"] end
  else if decide (type = "account-age") then providerChain attrs "olderThanMonths"
  else if decide (type = "wallet-age") then
    match attrs !! "olderThanMonths" ≫= render with Some q => [q; "*"] | None => ["*"] end
  else if decide (type = "social-following") then providerChain attrs "followersAtLeast"
  else ["*"].

Fixpoint firstRow (byQualifier : gmap string Z) (chain : list string) : Z :=
  match chain with
  | [] => 0
  | qualifier :: rest =>
      match byQualifier !! qualifier with Some weight => weight | None => firstRow byQualifier rest end
  end.

Definition weightFor (config : SybilScoringConfig) (badge : ScorableBadge) : Z :=
  match weights config !! sb_type badge with
  | None => 0
  | Some byQualifier => firstRow byQualifier (qualifierChain (sb_type badge) (sb_attributes badge))
  end.

Definition familyKey (type : string) (seq : nat) : string :=
  if String.prefix "age-over-" type then "family:age-over"
  else if String.prefix "residency-" type then "family:residency"
  else "single:" +:+ pretty seq.

(** [perCategory] and [memberSeq]: a category maps each family key to its best weight. *)
Abbreviation ScoreState := (list (string * list (string * Z)) * nat)%type.

Section Score.
Context (config : SybilScoringConfig) (now : Z) (nativeIssuerDid : string).

Definition expired (badge : ScorableBadge) : bool :=
  match sb_expiresAt badge with Some t => t <? now | None => false end.

(** One pass of the loop over the badges. *)
Definition addBadge (st : ScoreState) (badge : ScorableBadge) : ScoreState :=
  let '(perCategory, memberSeq) := st in
  if negb (bool_decide (sb_issuer badge = nativeIssuerDid)) then st
  else if expired badge then st
  else
    let weight := weightFor config badge in
    if weight <=? 0 then st
    else match categoryByType config !! sb_type badge with
    | None => st
    | Some category =>
        let families := default [] (jget category perCategory) in
        let key := familyKey (sb_type badge) memberSeq in
        let memberSeq' := if String.prefix "single:" key then S memberSeq else memberSeq in
        let families' :=
          match jget key families with
          | Some prev => if prev <? weight then jset key weight families else families
          | None => jset key weight families
          end in
        (jset category families' perCategory, memberSeq')
    end.

(** [memberWeights.forEach((w, i) => contribution += Math.floor(w / 2 ** i))] from index [i]. *)
Fixpoint decay (i : nat) (memberWeights : list Z) : Z :=
  match memberWeights with
  | [] => 0
  | w :: rest => w / 2 ^ Z.of_nat i + decay (S i) rest
  end.

Definition capped (category : string) (contribution : Z) : Z :=
  match caps config !! category with Some cap => Z.min contribution cap | None => contribution end.

Definition categoryContribution (category : string) (values : list Z) : Z :=
  capped category (decay 0 (js_sort (fun a b => b - a) values)).

(** One pass of the loop over the categories: [raw] and [qualifyingCats]. *)
Definition addCategory (acc : Z * Z) (entry : string * list (string * Z)) : Z * Z :=
  let contribution := categoryContribution entry.1 entry.2.*2 in
  (acc.1 + contribution,
   acc.2 + if CATEGORY_QUALIFY_THRESHOLD <=? contribution then 1 else 0).

Definition bucketFor (cuts : Cutoffs) (raw qualifyingCats : Z) : Z :=
  if (b4 cuts <=? raw) && (b4Cats cuts <=? qualifyingCats) then 4
  else if (b3 cuts <=? raw) && (b3Cats cuts <=? qualifyingCats) then 3
  else if b2 cuts <=? raw then 2
  else if b1 cuts <=? raw then 1
  else 0.

Definition sybilScore (badges : list ScorableBadge) : SybilScoreResult :=
  let perCategory := (foldl addBadge ([], 0%nat) badges).1 in
  let '(r, qualifyingCats) := foldl addCategory (0, 0) perCategory in
  {| raw := r; bucket := bucketFor (cutoffs config) r qualifyingCats |}.

End Score.

(** ** Order-free reading of the score

    A badge that counts contributes a weight to a family of a category. The members of
    a category are the best weight of each correlated family and every other weight. *)

Inductive Family := AgeOver | Residency | Single.

#[export] Instance Family_eq_dec : EqDecision Family.
Proof. solve_decision. Defined.

Definition familyOf (type : string) : Family :=
  if String.prefix "age-over-" type then AgeOver
  else if String.prefix "residency-" type then Residency else Single.

Definition contribution : Type := string * Family * Z.

Definition counted (config : SybilScoringConfig) (now : Z) (did : string) (badge : ScorableBadge) :
    option contribution :=
  if bool_decide (sb_issuer badge = did) && negb (expired now badge)
     && (0 <? weightFor config badge)
  then (fun category => (category, familyOf (sb_type badge), weightFor config badge)) <$>
       categoryByType config !! sb_type badge
  else None.

Definition weightIn (c : string) (f : Family) (x : contribution) : option Z :=
  if decide (x.1 = (c, f)) then Some x.2 else None.

Definition weightsIn (c : string) (f : Family) (cs : list contribution) : list Z :=
  omap (weightIn c f) cs.

Fixpoint maxw (l : list Z) : option Z :=
  match l with
  | [] => None
  | w :: l' => Some (match maxw l' with Some m => Z.max m w | None => w end)
  end.

Definition members (cs : list contribution) (c : string) : list Z :=
  option_list (maxw (weightsIn c AgeOver cs)) ++
  option_list (maxw (weightsIn c Residency cs)) ++ weightsIn c Single cs.

Definition categoriesOf (cs : list contribution) : list string := set_of (map (fun x => x.1.1) cs).

Definition contributionOf (config : SybilScoringConfig) (cs : list contribution) (c : string) : Z :=
  categoryContribution config c (members cs c).

Definition sumZ {A} (f : A → Z) (l : list A) : Z := foldr (fun x acc => f x + acc) 0 l.

Definition qualifies (v : Z) : Z := if CATEGORY_QUALIFY_THRESHOLD <=? v then 1 else 0.

Definition rawOf (config : SybilScoringConfig) (cs : list contribution) : Z :=
  sumZ (contributionOf config cs) (categoriesOf cs).

Definition qualifyingOf (config : SybilScoringConfig) (cs : list contribution) : Z :=
  sumZ (fun c => qualifies (contributionOf config cs c)) (categoriesOf cs).

Definition referenceScore (config : SybilScoringConfig) (cs : list contribution) : SybilScoreResult :=
  {| raw := rawOf config cs;
     bucket := bucketFor (cutoffs config) (rawOf config cs) (qualifyingOf config cs) |}.

(** *** Lemmas on members and sums *)

Lemma maxw_perm l l' : l ≡ₚ l' → maxw l = maxw l'.
Proof.
  induction 1 as [|w l l' _ IH|v w l|l1 l2 l3 _ IH1 _ IH2]; simpl; [done|by rewrite IH| |congruence].
  destruct (maxw l); f_equal; lia.
Qed.

Lemma maxw_snoc l w : maxw (l ++ [w]) = Some (match maxw l with Some m => Z.max m w | None => w end).
Proof. by rewrite (maxw_perm (l ++ [w]) (w :: l)) by solve_Permutation. Qed.

Lemma weightsIn_snoc c f cs x :
  weightsIn c f (cs ++ [x]) = weightsIn c f cs ++ option_list (weightIn c f x).
Proof. unfold weightsIn. rewrite omap_app. simpl. by destruct (weightIn c f x). Qed.

Lemma weightsIn_cons c f cs x :
  weightsIn c f (x :: cs) = option_list (weightIn c f x) ++ weightsIn c f cs.
Proof. unfold weightsIn. simpl. by destruct (weightIn c f x). Qed.

#[export] Instance omap_Proper {A B} (f : A → option B) : Proper ((≡ₚ) ==> (≡ₚ)) (omap f).
Proof. intros l l' Hp. by rewrite Hp. Qed.

#[export] Instance members_Proper : Proper ((≡ₚ) ==> (=) ==> (≡ₚ)) members.
Proof.
  intros cs cs' Hp c c' <-. unfold members, weightsIn.
  rewrite (maxw_perm _ _ (omap_Proper (weightIn c AgeOver) _ _ Hp)).
  rewrite (maxw_perm _ _ (omap_Proper (weightIn c Residency) _ _ Hp)).
  by rewrite (omap_Proper (weightIn c Single) _ _ Hp).
Qed.

Lemma sumZ_perm {A} (f : A → Z) l l' : l ≡ₚ l' → sumZ f l = sumZ f l'.
Proof. induction 1; simpl; lia. Qed.

Lemma sumZ_ext {A} (f g : A → Z) l : (∀ x, x ∈ l → f x = g x) → sumZ f l = sumZ g l.
Proof.
  induction l as [|x l IH]; intros H; simpl; [done|].
  rewrite (H x) by left. rewrite IH; [done|]. intros; apply H; by right.
Qed.

Lemma sumZ_le {A} (f g : A → Z) l : (∀ x, x ∈ l → f x <= g x) → sumZ f l <= sumZ g l.
Proof.
  induction l as [|x l IH]; intros H; simpl; [done|].
  assert (f x <= g x) by (apply H; left). assert (sumZ f l <= sumZ g l); [|lia].
  apply IH. intros; apply H; by right.
Qed.

Lemma desc_Comparator : Comparator (fun a b : Z => b - a).
Proof. split; intros; lia. Qed.
#[export] Hint Resolve desc_Comparator : typeclass_instances.

#[export] Instance desc_AntiSymm : AntiSymm (=) (cmp_le (fun a b : Z => b - a)).
Proof. intros a b. unfold cmp_le. lia. Qed.

Abbreviation desc := (js_sort (fun a b : Z => b - a)).

Lemma desc_perm l l' : l ≡ₚ l' → desc l = desc l'.
Proof.
  intros Hp. apply (StronglySorted_unique (cmp_le (fun a b => b - a))).
  - apply js_sort_sorted, _.
  - apply js_sort_sorted, _.
  - by rewrite !js_sort_perm.
Qed.

Lemma categoriesOf_perm cs cs' : cs ≡ₚ cs' → categoriesOf cs ≡ₚ categoriesOf cs'.
Proof.
  intros Hp. apply NoDup_Permutation; [apply NoDup_set_of..|]. intros c.
  unfold categoriesOf. rewrite !elem_of_set_of. by rewrite Hp.
Qed.

Lemma contributionOf_perm config cs cs' c :
  cs ≡ₚ cs' → contributionOf config cs c = contributionOf config cs' c.
Proof.
  intros Hp. unfold contributionOf, categoryContribution. f_equal. f_equal.
  apply desc_perm. by rewrite Hp.
Qed.

Lemma referenceScore_perm config cs cs' :
  cs ≡ₚ cs' → referenceScore config cs = referenceScore config cs'.
Proof.
  intros Hp. unfold referenceScore, rawOf, qualifyingOf.
  rewrite (sumZ_perm _ _ _ (categoriesOf_perm _ _ Hp)).
  rewrite (sumZ_perm (fun c => qualifies (contributionOf config cs c)) _ _ (categoriesOf_perm _ _ Hp)).
  rewrite (sumZ_ext _ (contributionOf config cs')) by (intros; by apply contributionOf_perm).
  rewrite (sumZ_ext (fun c => qualifies (contributionOf config cs c))
    (fun c => qualifies (contributionOf config cs' c))); [done|].
  intros c _. by rewrite (contributionOf_perm config cs cs').
Qed.

(** *** The fold computes the members *)

(** The update of one family's best weight. *)
Definition best (key : string) (weight : Z) (families : list (string * Z)) : list (string * Z) :=
  match jget key families with
  | Some prev => if prev <? weight then jset key weight families else families
  | None => jset key weight families
  end.

Definition entry (key : string) (o : option Z) : list (string * Z) := pair key <$> option_list o.

Lemma best_spec key w o rest fams :
  NoDup fams.*1 → fams ≡ₚ entry key o ++ rest → key ∉ rest.*1 →
  best key w fams ≡ₚ entry key (Some (match o with Some m => Z.max m w | None => w end)) ++ rest ∧
  NoDup (best key w fams).*1.
Proof.
  intros Hnd Hp Hk. assert (Hset : NoDup (jset key w fams).*1).
  { rewrite jset_keys. by apply NoDup_set_add. }
  unfold best. destruct o as [m|]; simpl in *.
  - rewrite (proj2 (jget_lookup key m fams Hnd)) by (rewrite Hp; left).
    destruct (Z.ltb_spec m w).
    + split; [|done]. rewrite Z.max_r by lia. by eapply jset_present.
    + split; [|done]. by rewrite Z.max_l by lia.
  - assert (Hf : key ∉ fams.*1) by (by rewrite Hp).
    rewrite (proj2 (jget_None key fams) Hf). split; [|done].
    rewrite jset_fresh by done. rewrite Hp. solve_Permutation.
Qed.

Definition singleKeys (seq : nat) (S : list (string * Z)) : Prop :=
  ∀ k, k ∈ S.*1 → ∃ n, (n < seq)%nat ∧ k = "single:" +:+ pretty n.

(** What the family map of a category holds after the contributions [cs]. *)
Definition famOK (cs : list contribution) (seq : nat) (c : string) (fams : list (string * Z)) : Prop :=
  NoDup fams.*1 ∧ ∃ S,
    fams ≡ₚ entry "family:age-over" (maxw (weightsIn c AgeOver cs)) ++
            entry "family:residency" (maxw (weightsIn c Residency cs)) ++ S ∧
    S.*2 = weightsIn c Single cs ∧ singleKeys seq S.

Lemma single_inj (n m : nat) : "single:" +:+ pretty n = "single:" +:+ pretty m → n = m.
Proof. intros H. apply (inj pretty). by simplify_eq/=. Qed.

Lemma single_prefix s : String.prefix "single:" ("single:" +:+ s) = true.
Proof. simpl. by destruct s. Qed.

Lemma entry_keys k k' o : k ∈ (entry k' o).*1 → k = k'.
Proof. destruct o; simpl; set_solver. Qed.

Lemma singleKeys_fresh seq S : singleKeys seq S → "single:" +:+ pretty seq ∉ S.*1.
Proof. intros HS (n & ? & ?%single_inj)%HS. lia. Qed.

Lemma singleKeys_other seq S k : singleKeys seq S → String.prefix "single:" k = false → k ∉ S.*1.
Proof. intros HS Hk (n & _ & ->)%HS. by destruct (pretty n). Qed.

Lemma famOK_step cs seq c f w fams type :
  famOK cs seq c fams → familyOf type = f →
  famOK (cs ++ [(c, f, w)])
    (if String.prefix "single:" (familyKey type seq) then S seq else seq) c
    (best (familyKey type seq) w fams).
Proof.
  intros (Hnd & S & Hp & HS & Hk) Hf. revert Hf. unfold famOK, familyOf, familyKey.
  rewrite !weightsIn_snoc. unfold weightIn. simpl.
  destruct (String.prefix "age-over-" type); [|destruct (String.prefix "residency-" type)];
    intros <-; rewrite ?single_prefix; repeat first [rewrite decide_True by done | rewrite decide_False by congruence]; simpl; rewrite ?app_nil_r, ?maxw_snoc.
  - edestruct (best_spec "family:age-over" w) as [H1 H2]; [done|exact Hp| |].
    { rewrite fmap_app, not_elem_of_app. split; [by intros ?%entry_keys|].
      by apply (singleKeys_other seq). }
    split; [done|]. by exists S.
  - edestruct (best_spec "family:residency" w) as [H1 H2]; [done| | |].
    { rewrite Hp. rewrite app_assoc, (Permutation_app_comm (entry "family:age-over" _)), <-app_assoc.
      done. }
    { rewrite fmap_app, not_elem_of_app. split; [by intros ?%entry_keys|].
      by apply (singleKeys_other seq). }
    split; [done|]. exists S. split; [|done]. rewrite H1. simpl. solve_Permutation.
  - edestruct (best_spec ("single:" +:+ pretty seq) w None) as [H1 H2]; [done|exact Hp| |].
    { rewrite !fmap_app, !not_elem_of_app. split_and!; [by intros ?%entry_keys..|].
      by apply singleKeys_fresh. }
    split; [done|]. exists (S ++ [("single:" +:+ pretty seq, w)]). split_and!.
    + rewrite H1. simpl. solve_Permutation.
    + rewrite fmap_app. by rewrite HS.
    + intros k. rewrite fmap_app, elem_of_app. intros [(n & ? & ->)%Hk|Hin]; [exists n; split; [lia|done]|].
      apply list_elem_of_singleton in Hin as ->. exists seq. split; [lia|done].
Qed.

Lemma famOK_other cs seq seq' c c' f w fams :
  famOK cs seq c fams → c' ≠ c → (seq <= seq')%nat → famOK (cs ++ [(c', f, w)]) seq' c fams.
Proof.
  intros (Hnd & S & Hp & HS & Hk) Hc Hseq. split; [done|].
  rewrite !weightsIn_snoc. unfold weightIn. simpl.
  rewrite !decide_False by congruence. simpl. rewrite !app_nil_r. exists S. split_and!; [done..|].
  intros k (n & ? & ->)%Hk. exists n. split; [lia|done].
Qed.

Section Refinement.
Context (config : SybilScoringConfig) (now : Z) (did : string).

Definition scoreOK (cs : list contribution) (st : ScoreState) : Prop :=
  st.1.*1 = categoriesOf cs ∧ ∀ c, famOK cs st.2 c (default [] (jget c st.1)).

Lemma addBadge_counted st badge :
  addBadge config now did st badge =
  match counted config now did badge with
  | Some (c, f, w) =>
      let key := familyKey (sb_type badge) st.2 in
      (jset c (best key w (default [] (jget c st.1))) st.1,
       if String.prefix "single:" key then S st.2 else st.2)
  | None => st
  end.
Proof.
  destruct st as [pc seq]. unfold addBadge, counted, best. simpl.
  destruct (bool_decide _); simpl; [|done]. destruct (expired now badge); simpl; [done|].
  rewrite Z.ltb_antisym. destruct (weightFor config badge <=? 0); simpl; [done|].
  by destruct (categoryByType config !! sb_type badge).
Qed.

Lemma addBadge_ok cs st badge :
  scoreOK cs st →
  scoreOK (cs ++ option_list (counted config now did badge)) (addBadge config now did st badge).
Proof.
  intros [Hk Hf]. rewrite addBadge_counted.
  destruct (counted config now did badge) as [[[c f] w]|] eqn:E; simpl; [|by rewrite app_nil_r].
  assert (Hfam : familyOf (sb_type badge) = f).
  { revert E. unfold counted. case_match; [|done]. destruct (_ !! _); naive_solver. }
  split; simpl.
  - rewrite jset_keys, Hk. unfold categoriesOf, set_of, set_add_all.
    by rewrite map_app, foldl_app.
  - intros c'. rewrite jget_jset. case_decide as Hc; [subst c'; simpl; by apply famOK_step|].
    eapply famOK_other; [apply Hf|done|]. case_match; lia.
Qed.

Lemma fold_ok badges cs st :
  scoreOK cs st →
  scoreOK (cs ++ omap (counted config now did) badges) (foldl (addBadge config now did) st badges).
Proof.
  revert cs st. induction badges as [|b badges IH]; intros cs st Hok; simpl; [by rewrite app_nil_r|].
  apply (addBadge_ok _ _ b) in Hok. apply IH in Hok. revert Hok.
  destruct (counted config now did b); simpl; rewrite <-?app_assoc; done.
Qed.

Lemma addCategory_sum pc r q :
  foldl (addCategory config) (r, q) pc =
  (r + sumZ (fun e => categoryContribution config e.1 e.2.*2) pc,
   q + sumZ (fun e => qualifies (categoryContribution config e.1 e.2.*2)) pc).
Proof.
  revert r q. induction pc as [|e pc IH]; intros r q; simpl; [f_equal; lia|].
  etrans; [apply IH|]. unfold qualifies. simpl. f_equal; lia.
Qed.

(** The scorer is its order-free reading. *)
Lemma sybilScore_reference badges :
  sybilScore config now did badges = referenceScore config (omap (counted config now did) badges).
Proof.
  unfold sybilScore. destruct (fold_ok badges [] ([], 0%nat)) as [Hk Hf].
  { split; [done|]. intros c. split; [constructor|]. exists []. split_and!; [done..|].
    intros k Hin. by apply elem_of_nil in Hin. }
  simpl in Hk, Hf. set (cs := omap (counted config now did) badges) in *.
  set (pc := (foldl (addBadge config now did) ([], 0%nat) badges).1) in *.
  assert (Hnd : NoDup pc.*1) by (rewrite Hk; apply NoDup_set_of).
  assert (Hval : ∀ e, e ∈ pc → categoryContribution config e.1 e.2.*2 = contributionOf config cs e.1).
  { intros [c fams] He. specialize (Hf c). rewrite (proj2 (jget_lookup c fams pc Hnd) He) in Hf.
    destruct Hf as (_ & S & Hp & HS & _). unfold contributionOf, categoryContribution.
    f_equal. f_equal. apply desc_perm. simpl. rewrite Hp. unfold members. rewrite <-HS, !fmap_app.
    by destruct (maxw (weightsIn c AgeOver cs)), (maxw (weightsIn c Residency cs)). }
  assert (Hsum : ∀ g, sumZ (fun e => g (categoryContribution config e.1 e.2.*2)) pc =
    sumZ (fun c => g (contributionOf config cs c)) (categoriesOf cs)).
  { intros g. rewrite <-Hk. clearbody pc. clear -Hval. induction pc as [|e pc IH]; simpl; [done|].
    rewrite Hval by left. rewrite IH; [done|]. intros; apply Hval; by right. }
  pose proof (Hsum id) as Hid. cbn in Hid.
  rewrite addCategory_sum, !Z.add_0_l, Hid, (Hsum qualifies). done.
Qed.

End Refinement.

(** *** Monotonicity *)

Abbreviation insert_desc := (js_insert (fun a b : Z => b - a)).
Abbreviation desc_le := (cmp_le (fun a b : Z => b - a)).

Lemma insert_desc_head y l :
  StronglySorted desc_le (y :: l) → insert_desc y l = y :: l.
Proof.
  intros [_ Hy]%StronglySorted_inv. destruct l as [|z l]; [done|]. simpl.
  apply Forall_cons in Hy as [Hz _]. unfold cmp_le in Hz. by rewrite (proj2 (Z.leb_le _ _) Hz).
Qed.

Lemma div_pow_le x y i : x <= y → x / 2 ^ Z.of_nat i <= y / 2 ^ Z.of_nat i.
Proof. intros. apply Z.div_le_mono; lia. Qed.

(** A better member never lowers the decayed sum. *)
Lemma decay_insert_mono i x x' l :
  StronglySorted desc_le l → x <= x' → decay i (insert_desc x l) <= decay i (insert_desc x' l).
Proof.
  intros Hs Hx. revert i x x' Hx. induction Hs as [|y l Hs IH Hy]; intros i x x' Hx; simpl.
  { pose proof (div_pow_le x x' i Hx). lia. }
  pose proof (div_pow_le x x' i Hx).
  destruct (Z.leb_spec (y - x) 0), (Z.leb_spec (y - x') 0); simpl; try lia.
  - pose proof (div_pow_le y x' i). specialize (IH (S i) x y).
    rewrite (insert_desc_head y l) in IH by (by constructor). simpl in IH. lia.
  - specialize (IH (S i) x x' Hx). lia.
Qed.

(** A new member never lowers the decayed sum. *)
Lemma decay_insert_new i x l :
  StronglySorted desc_le l → 0 <= x → Forall (Z.le 0) l → decay i l <= decay i (insert_desc x l).
Proof.
  intros Hs Hx. revert i x Hx. induction Hs as [|y l Hs IH Hy]; intros i x Hx Hp; simpl.
  { pose proof (div_pow_le 0 x i Hx). rewrite Z.div_0_l in * by lia. lia. }
  apply Forall_cons in Hp as [Hy0 Hp]. destruct (Z.leb_spec (y - x) 0); simpl.
  - pose proof (div_pow_le y x i). specialize (IH (S i) y Hy0 Hp).
    rewrite (insert_desc_head y l) in IH by (by constructor). simpl in IH. lia.
  - specialize (IH (S i) x Hx Hp). lia.
Qed.

Definition nonneg (cs : list contribution) : Prop := ∀ x, x ∈ cs → 0 < x.2.

Lemma weightsIn_nonneg c f cs : nonneg cs → Forall (Z.le 0) (weightsIn c f cs).
Proof.
  intros Hn. apply Forall_forall. intros w (x & Hx & E)%list_elem_of_omap.
  unfold weightIn in E. case_decide; [|done]. simplify_eq. specialize (Hn x Hx). lia.
Qed.

Lemma maxw_nonneg l : Forall (Z.le 0) l → Forall (Z.le 0) (option_list (maxw l)).
Proof.
  destruct l as [|w l]; [done|]. simpl. intros [Hw _]%Forall_cons.
  apply Forall_singleton. destruct (maxw l); lia.
Qed.

Lemma members_nonneg c cs : nonneg cs → Forall (Z.le 0) (members cs c).
Proof.
  intros Hn. unfold members. rewrite !Forall_app.
  split_and!; [apply maxw_nonneg..|]; by apply weightsIn_nonneg.
Qed.

(** Adding a contribution adds a member to a category or improves one. *)
Lemma members_cons c cs (x : contribution) :
  let l := members cs c in
  members (x :: cs) c ≡ₚ l ∨ members (x :: cs) c ≡ₚ x.2 :: l ∨
  ∃ m rest, l ≡ₚ m :: rest ∧ members (x :: cs) c ≡ₚ Z.max m x.2 :: rest.
Proof.
  destruct x as [[c' f] w]. unfold members. rewrite !weightsIn_cons.
  unfold weightIn. simpl. destruct (decide (c' = c)) as [->|Hc]; [|left; by rewrite !decide_False by congruence].
  destruct f; repeat first [rewrite decide_True by done | rewrite decide_False by congruence]; simpl.
  - right. destruct (maxw (weightsIn c AgeOver cs)) as [m|]; simpl; [right|by left].
    eauto.
  - right. destruct (maxw (weightsIn c Residency cs)) as [m|]; simpl; [right|left].
    + exists m. eexists. split; [by rewrite <-Permutation_middle|]. by rewrite <-Permutation_middle.
    + by rewrite <-Permutation_middle.
  - right. left. rewrite app_assoc, <-Permutation_middle, <-app_assoc. done.
Qed.

Section Monotone.
Context (config : SybilScoringConfig) (caps_nonneg : ∀ c cap, caps config !! c = Some cap → 0 <= cap).

Lemma decay_nonneg i l : Forall (Z.le 0) l → 0 <= decay i l.
Proof using.
  clear. revert i. induction l as [|w l IH]; intros i Hp; simpl; [done|].
  apply Forall_cons in Hp as [Hw Hp]. specialize (IH (S i) Hp).
  pose proof (div_pow_le 0 w i Hw). rewrite Z.div_0_l in * by lia. lia.
Qed.

Lemma contributionOf_nonneg cs c : nonneg cs → 0 <= contributionOf config cs c.
Proof using caps_nonneg.
  intros Hn. assert (0 <= decay 0 (desc (members cs c))).
  { apply decay_nonneg. rewrite js_sort_perm. by apply members_nonneg. }
  unfold contributionOf, categoryContribution, capped.
  destruct (caps config !! c) eqn:E; [|done]. apply caps_nonneg in E. lia.
Qed.

Lemma contributionOf_cons cs x c :
  nonneg (x :: cs) → contributionOf config cs c <= contributionOf config (x :: cs) c.
Proof using.
  clear. intros Hn. assert (Hc : nonneg cs) by (intros y Hy; apply Hn; by right).
  assert (Hx : 0 < x.2) by (apply Hn; left).
  assert (decay 0 (desc (members cs c)) <= decay 0 (desc (members (x :: cs) c))).
  { pose proof (members_nonneg c cs Hc) as Hm.
    destruct (members_cons c cs x) as [Hp|[Hp|(m & rest & Hl & Hp)]]; rewrite (desc_perm _ _ Hp).
    - done.
    - simpl. apply decay_insert_new; [apply js_sort_sorted, _|lia|by rewrite js_sort_perm].
    - rewrite (desc_perm _ _ Hl). simpl. apply decay_insert_mono; [apply js_sort_sorted, _|lia]. }
  unfold contributionOf, categoryContribution, capped. destruct (caps config !! c); lia.
Qed.

Lemma categoriesOf_cons cs x :
  categoriesOf (x :: cs) ≡ₚ categoriesOf cs ∨ categoriesOf (x :: cs) ≡ₚ x.1.1 :: categoriesOf cs.
Proof using.
  clear. assert (Hnd : ∀ cs, NoDup (categoriesOf cs)) by (intros; apply NoDup_set_of).
  assert (Hin : ∀ c, c ∈ categoriesOf (x :: cs) ↔ c = x.1.1 ∨ c ∈ categoriesOf cs).
  { intros c. unfold categoriesOf. rewrite !elem_of_set_of. simpl. apply elem_of_cons. }
  destruct (decide (x.1.1 ∈ categoriesOf cs)); [left|right]; apply NoDup_Permutation; try done.
  - intros c. rewrite Hin. naive_solver.
  - by apply NoDup_cons.
  - intros c. rewrite Hin, elem_of_cons. done.
Qed.

Lemma sum_categories_cons (g : Z → Z) cs x :
  (∀ a b, a <= b → g a <= g b) → (∀ a, 0 <= a → 0 <= g a) → nonneg (x :: cs) →
  sumZ (fun c => g (contributionOf config cs c)) (categoriesOf cs) <=
  sumZ (fun c => g (contributionOf config (x :: cs) c)) (categoriesOf (x :: cs)).
Proof using caps_nonneg.
  intros Hg Hg0 Hn. etrans.
  { apply (sumZ_le _ (fun c => g (contributionOf config (x :: cs) c))).
    intros c _. by apply Hg, contributionOf_cons. }
  destruct (categoriesOf_cons cs x) as [Hp|Hp]; rewrite (sumZ_perm _ _ _ Hp); simpl; [done|].
  assert (0 <= g (contributionOf config (x :: cs) x.1.1)); [|lia].
  by apply Hg0, contributionOf_nonneg.
Qed.

Lemma bucketFor_mono cuts r r' q q' :
  r <= r' → q <= q' → bucketFor cuts r q <= bucketFor cuts r' q'.
Proof using. clear. intros. unfold bucketFor. repeat case_match; bool_hyps; try lia;
  repeat match goal with H : _ && _ = false |- _ => apply andb_false_iff in H as [H|H]; bool_hyps end; lia.
Qed.

Lemma qualifies_mono a b : a <= b → qualifies a <= qualifies b.
Proof using. clear. unfold qualifies, CATEGORY_QUALIFY_THRESHOLD. repeat case_match; bool_hyps; lia. Qed.

Lemma referenceScore_cons cs x :
  nonneg (x :: cs) →
  raw (referenceScore config cs) <= raw (referenceScore config (x :: cs)) ∧
  bucket (referenceScore config cs) <= bucket (referenceScore config (x :: cs)).
Proof using caps_nonneg.
  intros Hn. assert (Hr : rawOf config cs <= rawOf config (x :: cs)).
  { apply (sum_categories_cons id); auto. }
  split; [done|]. apply bucketFor_mono; [done|].
  apply (sum_categories_cons qualifies); [apply qualifies_mono| |done].
  intros a _. unfold qualifies. case_match; lia.
Qed.

Lemma referenceScore_app ks cs :
  nonneg (ks ++ cs) →
  raw (referenceScore config cs) <= raw (referenceScore config (ks ++ cs)) ∧
  bucket (referenceScore config cs) <= bucket (referenceScore config (ks ++ cs)).
Proof using caps_nonneg.
  induction ks as [|x ks IH]; [simpl; lia|]. rewrite <-app_comm_cons. intros Hn.
  destruct (referenceScore_cons (ks ++ cs) x Hn).
  assert (Hn' : nonneg (ks ++ cs)) by (intros y Hy; apply Hn; by right).
  specialize (IH Hn'). lia.
Qed.

End Monotone.

Lemma counted_nonneg config now did badges : nonneg (omap (counted config now did) badges).
Proof.
  intros x (b & _ & E)%list_elem_of_omap. unfold counted in E. case_match eqn:C; [|done].
  bool_hyps. destruct (_ !! _); [|done]. by simplify_eq/=.
Qed.

(** *** Breadth *)

Lemma sumZ_qualifies {A} (f : A → Z) l :
  sumZ (fun x => qualifies (f x)) l = Z.of_nat (length (filter (fun x => CATEGORY_QUALIFY_THRESHOLD <= f x) l)).
Proof.
  induction l as [|x l IH]; simpl; [done|]. rewrite filter_cons, IH. unfold qualifies.
  destruct (Z.leb_spec CATEGORY_QUALIFY_THRESHOLD (f x)).
  - rewrite decide_True by done. simpl. lia.
  - rewrite decide_False by lia. lia.
Qed.

Lemma categoriesOf_counted config now did badges c :
  c ∈ categoriesOf (omap (counted config now did) badges) →
  ∃ badge, badge ∈ badges ∧ sb_issuer badge = did ∧ expired now badge = false ∧
    0 < weightFor config badge ∧ categoryByType config !! sb_type badge = Some c.
Proof.
  unfold categoriesOf. rewrite elem_of_set_of, elem_of_map.
  intros (x & -> & (b & Hb & E)%list_elem_of_omap). exists b. split; [done|].
  unfold counted in E. case_match eqn:C; [|done]. bool_hyps.
  destruct (categoryByType config !! sb_type b); by simplify_eq/=.
Qed.

(** ** Properties *)

(** C34: the scorer computes its order-free reading (per category the best member of each
    correlated family and every other weight, decayed, capped and summed), so badges that are
    foreign, expired, unweighted or uncategorised contribute nothing and the order in which
    badges are held does not matter. *)
Theorem sybil_score_refines config now did badges :
  sybilScore config now did badges = referenceScore config (omap (counted config now did) badges) ∧
  ∀ badges', badges ≡ₚ badges' → sybilScore config now did badges = sybilScore config now did badges'.
Proof.
  split; [apply sybilScore_reference|]. intros badges' Hp.
  rewrite !sybilScore_reference. apply referenceScore_perm. by rewrite Hp.
Qed.

(** holding more badges never lowers the raw score or the bucket, when no configured
    category cap is negative. *)
Theorem sybil_score_monotone config now did badges badges' :
  (∀ c cap, caps config !! c = Some cap → 0 <= cap) → badges ⊆+ badges' →
  raw (sybilScore config now did badges) <= raw (sybilScore config now did badges') ∧
  bucket (sybilScore config now did badges) <= bucket (sybilScore config now did badges').
Proof.
  intros Hcaps [ks Hp]%submseteq_Permutation. rewrite !sybilScore_reference.
  assert (Hp' : omap (counted config now did) badges' ≡ₚ
    omap (counted config now did) ks ++ omap (counted config now did) badges).
  { rewrite Hp, omap_app. apply Permutation_app_comm. }
  rewrite (referenceScore_perm config _ _ Hp'). apply referenceScore_app; [done|].
  rewrite <-omap_app. apply counted_nonneg.
Qed.

Definition demo_config : SybilScoringConfig :=
  buildSybilScoringConfig
    [ {| wr_badgeType := "oauth-account"; wr_qualifier := "*"; wr_sybilWeight := 9; wr_category := "social" |};
      {| wr_badgeType := "age-over-18"; wr_qualifier := "*"; wr_sybilWeight := 25; wr_category := "human" |};
      {| wr_badgeType := "age-over-21"; wr_qualifier := "*"; wr_sybilWeight := 27; wr_category := "human" |} ]
    [("social", 30); ("human", 40)]
    {| b1 := 5; b2 := 15; b3 := 28; b4 := 60; b3Cats := 2; b4Cats := 3 |}.

Definition demo_badge (type issuer : string) : ScorableBadge :=
  {| sb_type := type; sb_attributes := None; sb_expiresAt := None; sb_issuer := issuer |}.

Lemma sybil_score_monotone_witness :
  raw (sybilScore demo_config 0 "did" [demo_badge "age-over-18" "did"]) <=
  raw (sybilScore demo_config 0 "did" [demo_badge "age-over-21" "did"; demo_badge "age-over-18" "did"]) ∧
  bucket (sybilScore demo_config 0 "did" [demo_badge "age-over-18" "did"]) <=
  bucket (sybilScore demo_config 0 "did" [demo_badge "age-over-21" "did"; demo_badge "age-over-18" "did"]).
Proof.
  apply (sybil_score_monotone demo_config 0 "did").
  - intros c cap. change (caps demo_config) with (<["human":=40]> (<["social":=30]> (∅ : gmap string Z))).
    rewrite !lookup_insert. repeat case_decide; intros; simplify_eq; lia.
  - by apply submseteq_cons.
Defined.

(** A bucket of 3 or more is backed by breadth: at least as many distinct categories as
    the smaller of the two floors each reach the qualifying contribution of 8, and each of
    them holds a native, unexpired badge of positive weight. *)
Theorem high_bucket_needs_breadth config now did badges :
  3 <= bucket (sybilScore config now did badges) →
  ∃ cats : list string, NoDup cats ∧
    Z.min (b3Cats (cutoffs config)) (b4Cats (cutoffs config)) <= Z.of_nat (length cats) ∧
    ∀ c, c ∈ cats →
      8 <= contributionOf config (omap (counted config now did) badges) c ∧
      ∃ badge, badge ∈ badges ∧ sb_issuer badge = did ∧ expired now badge = false ∧
        0 < weightFor config badge ∧ categoryByType config !! sb_type badge = Some c.
Proof.
  rewrite sybilScore_reference. set (cs := omap (counted config now did) badges).
  intros Hb. exists (filter (fun c => CATEGORY_QUALIFY_THRESHOLD <= contributionOf config cs c) (categoriesOf cs)).
  split_and!.
  - apply NoDup_filter, NoDup_set_of.
  - rewrite <-sumZ_qualifies. revert Hb. simpl. unfold bucketFor, qualifyingOf.
    repeat case_match; bool_hyps; lia.
  - intros c [Hc Hin]%list_elem_of_filter. split; [done|]. by apply categoriesOf_counted.
Qed.

Lemma high_bucket_needs_breadth_witness :
  let badges := [demo_badge "age-over-18" "did"; demo_badge "oauth-account" "did"] in
  ∃ cats : list string, NoDup cats ∧ Z.min 2 3 <= Z.of_nat (length cats) ∧
    ∀ c, c ∈ cats →
      8 <= contributionOf demo_config (omap (counted demo_config 0 "did") badges) c ∧
      ∃ badge, badge ∈ badges ∧ sb_issuer badge = "did" ∧ expired 0 badge = false ∧
        0 < weightFor demo_config badge ∧ categoryByType demo_config !! sb_type badge = Some c.
Proof. apply (high_bucket_needs_breadth demo_config 0 "did"). by vm_compute. Defined.
