(* ===== verification/Session.v ===== *)
(** * Sessions and assurance gates (lib/session.ts, lib/assurance.ts)

    The session a request carries, its validation against the user row, and the admin,
    assurance-level and recency gates of sensitive actions. *)

From S2P Require Import Prelude.

Open Scope Z_scope.

(** ** Assurance *)

Inductive CredentialKind := Passkey | EmailLink | RecoveryCode | Totp.

Definition aalForCredential (kind : CredentialKind) : Z :=
  match kind with Passkey => 2 | Totp => 2 | EmailLink => 1 | RecoveryCode => 1 end.

Definition CREDENTIAL_QUARANTINE_MS : Z := 72 * 60 * 60 * 1000.
Definition MERGE_REVERSAL_DAYS : Z := 7.
Definition RECOVERY_CODE_COUNT : Z := 10.
Definition RECOVERY_THRESHOLD : Z := 100.

(** ** Sessions *)

(** The claims of the session token: the user id may be empty, and an old token has no
    generation, assurance level, authentication time or acting passkey. *)
Record Session := {
  s_userId : string;
  s_sessionGeneration : option Z;
  s_aal : option Z;
  s_recovered : bool;
  s_auth_time : option Z;
  s_cred : option string;
}.

(** The columns of the user row the session layer reads. *)
Record UserFlags := {
  u_sessionGeneration : Z;
  u_isAdmin : bool;
  u_isBanned : bool;
  u_mergedIntoUserId : option string;
  u_setupCompletedAt : option Z;
}.

Record SessionFlags := { sf_session : Session; sf_isAdmin : bool; sf_setupComplete : bool }.

Inductive ActionError :=
  | StepUpRequiredError (requiredAal currentAal : Z)
  | PlainError (message : string).

Section Gates.
(** The verified session token of the request, and the user table. *)
Context (auth : option Session) (users : gmap string UserFlags).

Definition loadSessionFlags : option SessionFlags :=
  match auth with
  | None => None
  | Some session =>
      if bool_decide (s_userId session = "") then None
      else
        let expectedGen := default 0 (s_sessionGeneration session) in
        match users !! s_userId session with
        | None => None
        | Some fresh =>
            if negb (u_sessionGeneration fresh =? expectedGen) then None
            else if u_isBanned fresh then None
            else if bool_decide (u_mergedIntoUserId fresh ≠ None) then None
            else Some {| sf_session := session; sf_isAdmin := u_isAdmin fresh;
                         sf_setupComplete := bool_decide (u_setupCompletedAt fresh ≠ None) |}
        end
  end.

Definition getCurrentSession : option Session := sf_session <$> loadSessionFlags.

Definition requireSession : result ActionError Session :=
  match getCurrentSession with
  | Some session =>
      if bool_decide (s_userId session = "") then Err (PlainError "Not signed in") else Ok session
  | None => Err (PlainError "Not signed in")
  end.

Definition requireAdmin : result ActionError Session :=
  match loadSessionFlags with
  | Some flags =>
      if bool_decide (s_userId (sf_session flags) = "") || negb (sf_isAdmin flags)
      then Err (PlainError "Not an admin") else Ok (sf_session flags)
  | None => Err (PlainError "Not an admin")
  end.

End Gates.

Definition requireAal (session : option Session) (floor : Z) : result ActionError unit :=
  let current := default 0 (session ≫= s_aal) in
  if current <? floor then Err (StepUpRequiredError floor current) else Ok tt.

Definition requireAuthRecency (session : option Session) (maxAgeSecs nowMs : Z) :
    result ActionError unit :=
  let nowSecs := nowMs / 1000 in
  let stale := Err (StepUpRequiredError 2 (default 0 (session ≫= s_aal))) in
  match session ≫= s_auth_time with
  | None => stale
  | Some authTime => if maxAgeSecs <? nowSecs - authTime then stale else Ok tt
  end.

(** ** Lemmas *)

(** A session that passes validation belongs to a present, unbanned, unmerged user whose
    generation it carries. *)
Definition live_session (users : gmap string UserFlags) (session : Session) : Prop :=
  s_userId session ≠ "" ∧ ∃ u, users !! s_userId session = Some u ∧
    u_sessionGeneration u = default 0 (s_sessionGeneration session) ∧
    u_isBanned u = false ∧ u_mergedIntoUserId u = None.

Lemma loadSessionFlags_live auth users flags :
  loadSessionFlags auth users = Some flags →
  auth = Some (sf_session flags) ∧ live_session users (sf_session flags) ∧
  (sf_isAdmin flags = true → ∃ u, users !! s_userId (sf_session flags) = Some u ∧ u_isAdmin u = true).
Proof.
  unfold loadSessionFlags. intros H. run_guards H. bool_hyps.
  split_and!; [done| |eauto]. split; [done|]. eexists. split_and!; [done..|].
  destruct (u_mergedIntoUserId _); [|done]. by exfalso; eauto.
Qed.

Lemma requireAdmin_live auth users session :
  requireAdmin auth users = Ok session →
  auth = Some session ∧ live_session users session ∧
  ∃ u, users !! s_userId session = Some u ∧ u_isAdmin u = true.
Proof.
  unfold requireAdmin. destruct (loadSessionFlags auth users) as [flags|] eqn:E; [|done].
  intros H. run_guards H. bool_hyps. destruct (loadSessionFlags_live _ _ _ E) as (? & ? & ?). auto.
Qed.

Lemma requireSession_live auth users session :
  requireSession auth users = Ok session → auth = Some session ∧ live_session users session.
Proof.
  unfold requireSession, getCurrentSession.
  destruct (loadSessionFlags auth users) as [flags|] eqn:E; [|done].
  simpl. intros H. run_guards H. destruct (loadSessionFlags_live _ _ _ E) as (? & ? & ?). auto.
Qed.
