(* ===== verification/SybilConfig.v ===== *)
(** * Scoring and recovery configuration (lib/sybil-config.ts, lib/assurance.ts,
    lib/recovery-config-guardrails.ts)

    The configuration tables, their seed, the loaders of the scorer and of the recovery
    engine, the delayed-apply resolution of pending values, and the boot-time drift check. *)

From S2P Require Import Prelude Registry SybilScore Session.

Open Scope Z_scope.

(** ** The recovery-weight oracle of lib/assurance.ts *)

Definition BADGE_ASSURANCE_WEIGHT : gmap string Z :=
  list_to_map [("IAL0", 0); ("IAL1", 15); ("IAL2", 60); ("IAL3", 100)].

Definition assuranceLevelFor (badgeType : string) : string :=
  if decide (badgeType = "tlsn-attestation") then "IAL3"
  else if String.prefix "age-over" badgeType || String.prefix "residency" badgeType then "IAL2"
  else if decide (badgeType = "oauth-account") then "IAL1"
  else if decide (badgeType = "email-domain" ∨ badgeType = "email-exact") then "IAL1"
  else if decide (badgeType = "invite-code") then "IAL0"
  else "IAL1".

Definition OAUTH_DEFAULT_WEIGHT : Z := 20.
Definition OAUTH_LOW_PROVENANCE : list string := ["discord"; "steam"].
Definition OAUTH_LOW_WEIGHT : Z := 10.

Definition RECOVERY_WEIGHT_BY_TYPE : gmap string Z :=
  list_to_map [("tlsn-attestation", 100); ("email-domain", 15); ("email-exact", 15);
               ("invite-code", 0); ("group-membership", 0)].

(** An absent or empty provenance is falsy. *)
Definition truthy (s : option string) : option string :=
  match s with Some p => if decide (p = "") then None else Some p | None => None end.

Definition recoveryWeightFor (badgeType : string) (provenance : option string) : Z :=
  if decide (badgeType = "oauth-account") then
    match truthy provenance with
    | Some p => if decide (p ∈ OAUTH_LOW_PROVENANCE) then OAUTH_LOW_WEIGHT else OAUTH_DEFAULT_WEIGHT
    | None => OAUTH_DEFAULT_WEIGHT
    end
  else match RECOVERY_WEIGHT_BY_TYPE !! badgeType with
  | Some override => override
  | None => default 0 (BADGE_ASSURANCE_WEIGHT !! assuranceLevelFor badgeType)
  end.

Definition RECOVERY_ELIGIBLE_TYPES : list string :=
  ["oauth-account"; "email-domain"; "email-exact"; "tlsn-attestation"].

(** ** Tables *)

(** A BadgeWeight row; the table is keyed by (badgeType, qualifier). *)
Record BadgeWeight := {
  bw_sybilWeight : Z;
  bw_recoveryWeight : Z;
  bw_pendingRecoveryWeight : option Z;
  bw_recoveryEffectiveAt : option Z;
  bw_category : string;
  bw_allowSoloRecovery : bool;
}.

Record RecoveryConfigRow := {
  rc_threshold : Z;
  rc_pendingThreshold : option Z;
  rc_thresholdEffectiveAt : option Z;
}.

Record GroupConfigValues := { foundingMinBucket : Z; maxOwnedGroups : Z }.

(** A row of the admin.recovery_config.updated audit. *)
Record ConfigAudit := {
  ca_actor : string; ca_field : string; ca_before : Z; ca_after : Z; ca_effectiveAt : option Z;
}.

(** The configuration tables; the singleton rows may be absent. *)
Record ConfigDB := {
  db_weights : gmap (string * string) BadgeWeight;
  db_categories : gmap string Z;
  db_buckets : option Cutoffs;
  db_recovery : option RecoveryConfigRow;
  db_group : option GroupConfigValues;
  db_audit : list ConfigAudit;
}.

(** ** Delayed-apply resolution *)

Definition effectiveRecoveryWeight (row : BadgeWeight) (now : Z) : Z :=
  match bw_pendingRecoveryWeight row, bw_recoveryEffectiveAt row with
  | Some pending, Some at_ => if at_ <=? now then pending else bw_recoveryWeight row
  | _, _ => bw_recoveryWeight row
  end.

Definition effectiveRecoveryThreshold (cfg : RecoveryConfigRow) (now : Z) : Z :=
  match rc_pendingThreshold cfg, rc_thresholdEffectiveAt cfg with
  | Some pending, Some at_ => if at_ <=? now then pending else rc_threshold cfg
  | _, _ => rc_threshold cfg
  end.

(** ** Loaders *)

Definition loadGroupConfig (db : ConfigDB) : option GroupConfigValues := db_group db.

(** The rows a [findMany] returns, in the order of the finite map. *)
Definition weightRowsOf (db : ConfigDB) : list WeightRowInput :=
  (fun '((t, q), row) => {| wr_badgeType := t; wr_qualifier := q;
     wr_sybilWeight := bw_sybilWeight row; wr_category := bw_category row |}) <$>
  map_to_list (db_weights db).

Definition CONFIG_CACHE_TTL_MS : Z := 60000.

Record ConfigCacheEntry := { ce_value : SybilScoringConfig; ce_expiresAt : Z }.

(** The loaded configuration ([None] is the fail-closed throw) and the new cache. *)
Definition loadSybilScoringConfig (now : Z) (db : ConfigDB) (configCache : option ConfigCacheEntry) :
    option SybilScoringConfig * option ConfigCacheEntry :=
  let reload :=
    match db_buckets db with
    | None => (None, configCache)
    | Some buckets =>
        let value := buildSybilScoringConfig (weightRowsOf db) (map_to_list (db_categories db)) buckets in
        (Some value, Some {| ce_value := value; ce_expiresAt := now + CONFIG_CACHE_TTL_MS |})
    end in
  match configCache with
  | Some entry => if now <? ce_expiresAt entry then (Some (ce_value entry), configCache) else reload
  | None => reload
  end.

Definition recoveryQualifierChain (type : string) (provenance : option string) : list string :=
  if decide (type = "oauth-account") then
    match truthy provenance with Some p => [p; "*"] | None => ["*"] end
  else ["*"].

Fixpoint firstRecoveryRow (db : ConfigDB) (type : string) (chain : list string) : option BadgeWeight :=
  match chain with
  | [] => None
  | qualifier :: rest =>
      match db_weights db !! (type, qualifier) with
      | Some row => Some row
      | None => firstRecoveryRow db type rest
      end
  end.

Definition recoveryWeightForLive (db : ConfigDB) (type : string) (provenance : option string)
    (now : Z) : option Z :=
  (fun row => effectiveRecoveryWeight row now) <$>
    firstRecoveryRow db type (recoveryQualifierChain type provenance).

Definition loadEffectiveThreshold (db : ConfigDB) (now : Z) : option Z :=
  (fun cfg => effectiveRecoveryThreshold cfg now) <$> db_recovery db.

(** ** The seed *)

Definition CAT_EMAIL : string := "email".
Definition CAT_SOCIAL_OAUTH : string := "social-oauth".
Definition CAT_WALLET : string := "wallet".
Definition CAT_HUMAN_ATTRIBUTE : string := "human-attribute".
Definition CAT_DOMAIN : string := "domain".
Definition CAT_ATTESTATION : string := "attestation".
Definition CAT_INVITE : string := "invite".
Definition CAT_GROUP : string := "group".

Definition WEIGHT_TABLE : list (string * string * Z * Z * string) :=
  [ ("email-domain", "*", 5, 15, CAT_EMAIL);
    ("email-exact", "*", 5, 15, CAT_EMAIL);
    ("oauth-account", "github", 8, 20, CAT_SOCIAL_OAUTH);
    ("oauth-account", "google", 12, 20, CAT_SOCIAL_OAUTH);
    ("oauth-account", "discord", 4, 10, CAT_SOCIAL_OAUTH);
    ("oauth-account", "steam", 5, 10, CAT_SOCIAL_OAUTH);
    ("oauth-account", "reddit", 4, 20, CAT_SOCIAL_OAUTH);
    ("oauth-account", "hackernews", 4, 20, CAT_SOCIAL_OAUTH);
    ("oauth-account", "*", 4, 20, CAT_SOCIAL_OAUTH);
    ("account-age", "github:12", 10, 15, CAT_SOCIAL_OAUTH);
    ("account-age", "github:24", 15, 15, CAT_SOCIAL_OAUTH);
    ("account-age", "github:36", 18, 15, CAT_SOCIAL_OAUTH);
    ("account-age", "github:60", 22, 15, CAT_SOCIAL_OAUTH);
    ("account-age", "reddit:12", 6, 15, CAT_SOCIAL_OAUTH);
    ("account-age", "reddit:24", 10, 15, CAT_SOCIAL_OAUTH);
    ("account-age", "reddit:36", 12, 15, CAT_SOCIAL_OAUTH);
    ("account-age", "reddit:60", 15, 15, CAT_SOCIAL_OAUTH);
    ("account-age", "hackernews:12", 6, 15, CAT_SOCIAL_OAUTH);
    ("account-age", "hackernews:24", 10, 15, CAT_SOCIAL_OAUTH);
    ("account-age", "hackernews:36", 12, 15, CAT_SOCIAL_OAUTH);
    ("account-age", "hackernews:60", 15, 15, CAT_SOCIAL_OAUTH);
    ("account-age", "*", 6, 15, CAT_SOCIAL_OAUTH);
    ("social-following", "github:10", 4, 15, CAT_SOCIAL_OAUTH);
    ("social-following", "github:50", 6, 15, CAT_SOCIAL_OAUTH);
    ("social-following", "github:100", 8, 15, CAT_SOCIAL_OAUTH);
    ("social-following", "github:500", 10, 15, CAT_SOCIAL_OAUTH);
    ("social-following", "github:1000", 12, 15, CAT_SOCIAL_OAUTH);
    ("social-following", "*", 4, 15, CAT_SOCIAL_OAUTH);
    ("wallet-control", "*", 2, 15, CAT_WALLET);
    ("wallet-age", "12", 6, 15, CAT_WALLET);
    ("wallet-age", "24", 10, 15, CAT_WALLET);
    ("wallet-age", "36", 13, 15, CAT_WALLET);
    ("wallet-age", "60", 16, 15, CAT_WALLET);
    ("wallet-age", "*", 6, 15, CAT_WALLET);
    ("onchain-event", "eth2-genesis-depositor", 30, 15, CAT_WALLET);
    ("onchain-event", "*", 10, 15, CAT_WALLET);
    ("residency-country", "*", 10, 60, CAT_HUMAN_ATTRIBUTE);
    ("residency-state", "*", 14, 60, CAT_HUMAN_ATTRIBUTE);
    ("residency-city", "*", 16, 60, CAT_HUMAN_ATTRIBUTE);
    ("domain-control", "*", 10, 15, CAT_DOMAIN);
    ("tlsn-attestation", "*", 10, 100, CAT_ATTESTATION);
    ("public-key", "*", 1, 15, CAT_ATTESTATION);
    ("invite-code", "*", 12, 0, CAT_INVITE);
    ("group-membership", "*", 0, 0, CAT_GROUP) ].

Definition SOLO_RECOVERY_TYPES : list string := ["tlsn-attestation"].

Definition seedRow (sybil recovery : Z) (category : string) (solo : bool) : BadgeWeight :=
  {| bw_sybilWeight := sybil; bw_recoveryWeight := recovery; bw_pendingRecoveryWeight := None;
     bw_recoveryEffectiveAt := None; bw_category := category; bw_allowSoloRecovery := solo |}.

Definition AGE_OVER_SEED_ROWS : list (string * string * BadgeWeight) :=
  map (fun t => ("age-over-" +:+ pretty t, "*", seedRow 25 60 CAT_HUMAN_ATTRIBUTE false)) AGE_THRESHOLDS.

Definition SYBIL_BADGE_WEIGHT_SEED : list (string * string * BadgeWeight) :=
  map (fun '(badgeType, qualifier, sybilWeight, recoveryWeight, category) =>
    (badgeType, qualifier, seedRow sybilWeight recoveryWeight category
       (bool_decide (badgeType ∈ SOLO_RECOVERY_TYPES)))) WEIGHT_TABLE
  ++ AGE_OVER_SEED_ROWS.

Definition SYBIL_CATEGORY_SEED : list (string * Z) :=
  [ (CAT_EMAIL, 10); (CAT_SOCIAL_OAUTH, 30); (CAT_WALLET, 30); (CAT_HUMAN_ATTRIBUTE, 40);
    (CAT_DOMAIN, 20); (CAT_ATTESTATION, 50); (CAT_INVITE, 15); (CAT_GROUP, 0) ].

Definition SYBIL_BUCKET_CONFIG_SEED : Cutoffs :=
  {| b1 := 5; b2 := 15; b3 := 28; b4 := 60; b3Cats := 2; b4Cats := 3 |}.

Definition RECOVERY_CONFIG_SEED : RecoveryConfigRow :=
  {| rc_threshold := 100; rc_pendingThreshold := None; rc_thresholdEffectiveAt := None |}.

Definition GROUP_CONFIG_SEED : GroupConfigValues :=
  {| foundingMinBucket := 2; maxOwnedGroups := 3 |}.

(** The tables after the seed. *)
Definition seedDB : ConfigDB :=
  {| db_weights := list_to_map SYBIL_BADGE_WEIGHT_SEED;
     db_categories := list_to_map SYBIL_CATEGORY_SEED;
     db_buckets := Some SYBIL_BUCKET_CONFIG_SEED;
     db_recovery := Some RECOVERY_CONFIG_SEED;
     db_group := Some GROUP_CONFIG_SEED;
     db_audit := [] |}.

(** ** The boot-time drift check *)

Record SybilConfigDrift := {
  missingStarRows : list string;
  danglingCategories : list string;
  missingSingletons : list string;
}.

(** [Array.prototype.sort] on strings, by code unit. *)
Fixpoint cmp_string (s1 s2 : string) : Z :=
  match s1, s2 with
  | EmptyString, EmptyString => 0
  | EmptyString, _ => -1
  | _, EmptyString => 1
  | String a s1', String b s2' =>
      let x := Z.of_nat (Ascii.nat_of_ascii a) in
      let y := Z.of_nat (Ascii.nat_of_ascii b) in
      if x =? y then cmp_string s1' s2' else x - y
  end.

Definition checkSybilConfigDrift (db : ConfigDB) : SybilConfigDrift :=
  let weightRows := weightRowsOf db in
  let starTypes := set_of (map wr_badgeType (filter (fun r => wr_qualifier r = "*") weightRows)) in
  let referencedCategories := set_of (map wr_category weightRows) in
  let categoryNames := (map_to_list (db_categories db)).*1 in
  {| missingStarRows := js_sort cmp_string (filter (fun t => t ∉ starTypes) knownBadgeTypes);
     danglingCategories := js_sort cmp_string (filter (fun c => c ∉ categoryNames) referencedCategories);
     missingSingletons :=
       match db_buckets db with None => ["SybilBucketConfig"] | Some _ => [] end ++
       match db_recovery db with None => ["RecoveryConfig"] | Some _ => [] end |}.

(** ** What the loaders find *)

Definition has_row (t q : string) (acc : gmap string (gmap string Z) * gmap string string) : Prop :=
  ∃ m, acc.1 !! t = Some m ∧ is_Some (m !! q).

Lemma addWeightRow_row t q acc row :
  (t = wr_badgeType row ∧ q = wr_qualifier row) ∨ has_row t q acc → has_row t q (addWeightRow acc row).
Proof.
  unfold addWeightRow, has_row. simpl. destruct (decide (t = wr_badgeType row)) as [->|Ht].
  - intros H. eexists. rewrite lookup_insert_eq. split; [done|]. rewrite lookup_insert.
    case_decide as Hq; [done|]. destruct H as [[_ ->]|(m & Hm & Hs)]; [done|]. by rewrite Hm.
  - rewrite lookup_insert_ne by done. naive_solver.
Qed.

Lemma fold_rows t q rows acc :
  (∃ row, row ∈ rows ∧ t = wr_badgeType row ∧ q = wr_qualifier row) ∨ has_row t q acc →
  has_row t q (foldl addWeightRow acc rows).
Proof.
  revert acc. induction rows as [|r rows IH]; intros acc H; simpl.
  { destruct H as [(row & Hin & _)|H]; [by apply elem_of_nil in Hin|done]. }
  apply IH. destruct H as [(row & [->|Hin]%elem_of_cons & ?)|H].
  - right. apply addWeightRow_row. by left.
  - left. eauto.
  - right. apply addWeightRow_row. by right.
Qed.

Lemma fold_categories t rows acc :
  let cats := (foldl addWeightRow acc rows).2 in
  (is_Some (acc.2 !! t) ∨ (∃ row, row ∈ rows ∧ t = wr_badgeType row) → is_Some (cats !! t)) ∧
  ∀ c, cats !! t = Some c → acc.2 !! t = Some c ∨ ∃ row, row ∈ rows ∧ c = wr_category row.
Proof.
  revert acc. induction rows as [|r rows IH]; intros acc; simpl.
  { split; [|by left]. intros [?|(row & Hin & _)]; [done|by apply elem_of_nil in Hin]. }
  destruct (IH (addWeightRow acc r)) as [IH1 IH2]. split.
  - intros H. apply IH1. simpl. rewrite lookup_insert. case_decide as Ht; [by left|].
    destruct H as [?|(row & [->|Hin]%elem_of_cons & ?)]; [by left|done|right; eauto].
  - intros c [Hc|(row & Hin & ->)]%IH2; [|right; exists row; split; [by right|done]].
    simpl in Hc. rewrite lookup_insert in Hc. case_decide; [|by left].
    right. exists r. split; [left|]. congruence.
Qed.

Lemma fold_caps c l (m : gmap string Z) :
  is_Some (foldl (fun m cat => <[cat.1 := cat.2]> m) m l !! c) ↔ c ∈ l.*1 ∨ is_Some (m !! c).
Proof.
  revert m. induction l as [|cat l IH]; intros m; simpl; [set_solver|].
  rewrite IH, elem_of_cons, lookup_insert. case_decide; naive_solver.
Qed.

Lemma js_sort_filter_nil {A} (cmp : A → A → Z) (P : A → Prop) `{!∀ x, Decision (P x)} l x :
  js_sort cmp (filter P l) = [] → x ∈ l → ¬ P x.
Proof.
  intros Hnil%js_sort_nil_inv Hx HP. assert (x ∈ filter P l) as Hf by (by apply list_elem_of_filter).
  rewrite Hnil in Hf. by apply elem_of_nil in Hf.
Qed.

Lemma star_row db t :
  t ∈ set_of (map wr_badgeType (filter (fun r => wr_qualifier r = "*") (weightRowsOf db))) →
  ∃ row, row ∈ weightRowsOf db ∧ t = wr_badgeType row ∧ "*" = wr_qualifier row ∧
    is_Some (db_weights db !! (t, "*")).
Proof.
  rewrite elem_of_set_of, elem_of_map.
  intros (row & -> & [Hq Hr]%list_elem_of_filter). exists row. split_and!; [done..|].
  revert Hr. unfold weightRowsOf. rewrite list_elem_of_fmap.
  intros ([[t q] bw] & -> & Hin%elem_of_map_to_list). simpl in *. subst. by rewrite Hin.
Qed.

(** A database without drift. *)
Definition noDrift : SybilConfigDrift :=
  {| missingStarRows := []; danglingCategories := []; missingSingletons := [] |}.

(** A type the scorer resolves in full: a fallback weight and a category with a cap. *)
Definition resolves (config : SybilScoringConfig) (t : string) : Prop :=
  (∃ m w, weights config !! t = Some m ∧ m !! "*" = Some w) ∧
  ∃ c cap, categoryByType config !! t = Some c ∧ caps config !! c = Some cap.

(** The provenances of the seeded oauth-account rows. *)
Definition seedProvenances : list string :=
  ["github"; "google"; "discord"; "steam"; "reddit"; "hackernews"; "*"].

Lemma seed_no_other_provenance p :
  p ∉ seedProvenances → db_weights seedDB !! ("oauth-account", p) = None.
Proof.
  intros Hp. apply not_elem_of_list_to_map_1.
  assert (Hall : Forall (fun k => k.1 = "oauth-account" → k.2 ∈ seedProvenances) SYBIL_BADGE_WEIGHT_SEED.*1)
    by (apply (bool_decide_unpack _); by vm_compute).
  intros Hin. rewrite Forall_forall in Hall. by apply Hp, (Hall _ Hin).
Qed.

Definition star_parity (t : string) : bool :=
  match db_weights seedDB !! (t, "*") with
  | Some row => bool_decide (bw_pendingRecoveryWeight row = None) &&
                (bw_recoveryWeight row =? recoveryWeightFor t None)
  | None => false
  end.

Lemma seed_star_rows t :
  t ∈ knownBadgeTypes → t ≠ "oauth-account" →
  ∃ row, db_weights seedDB !! (t, "*") = Some row ∧ bw_pendingRecoveryWeight row = None ∧
    bw_recoveryWeight row = recoveryWeightFor t None.
Proof.
  assert (Hall : forallb star_parity knownBadgeTypes = true) by (by vm_compute).
  rewrite forallb_forall in Hall. intros Ht _. apply list_elem_of_In, Hall in Ht.
  unfold star_parity in Ht. destruct (db_weights seedDB !! (t, "*")) as [row|]; [|done].
  bool_hyps. eauto.
Qed.

(** ** Properties *)

(** When the boot check reports no drift, the recovery weight of every registered badge
    type resolves for any provenance, the recovery threshold resolves, and the scorer's
    configuration loads and gives every registered type a fallback weight and a capped
    category. *)
Theorem clean_boot_check_resolves db now :
  checkSybilConfigDrift db = noDrift →
  (∀ t provenance, t ∈ knownBadgeTypes → is_Some (recoveryWeightForLive db t provenance now)) ∧
  is_Some (loadEffectiveThreshold db now) ∧
  ∃ config cache, loadSybilScoringConfig now db None = (Some config, Some cache) ∧
    ∀ t, t ∈ knownBadgeTypes → resolves config t.
Proof.
  unfold checkSybilConfigDrift, noDrift. intros [= Hstar Hcat Hsing].
  apply app_eq_nil in Hsing as [Hb Hr].
  unfold loadEffectiveThreshold, loadSybilScoringConfig.
  destruct (db_buckets db) as [cuts|]; [|done]. destruct (db_recovery db) as [rcfg|]; [|done].
  assert (Hrow : ∀ t, t ∈ knownBadgeTypes → _) by (intros t Ht; apply (star_row db t);
    destruct (decide (t ∈ set_of (map wr_badgeType (filter (fun r => wr_qualifier r = "*") (weightRowsOf db)))))
      as [?|Hn]; [done|by destruct (js_sort_filter_nil _ _ _ _ Hstar Ht)]).
  split_and!; [|done|].
  - intros t p Ht. destruct (Hrow t Ht) as (_ & _ & _ & _ & Hs). unfold recoveryWeightForLive.
    apply fmap_is_Some. destruct Hs as [row Hs]. unfold recoveryQualifierChain.
    repeat case_match; simpl; rewrite Hs; repeat case_match; eauto.
  - eexists _, _. split; [done|]. intros t Ht. destruct (Hrow t Ht) as (row & Hin & Et & Eq & _).
    split; simpl.
    + destruct (fold_rows t "*" (weightRowsOf db) (∅, ∅)) as (m & Hm & [w Hw]); [left; eauto|].
      eauto.
    + destruct (fold_categories t (weightRowsOf db) (∅, ∅)) as [H1 H2].
      destruct H1 as [c Hc]; [right; eauto|]. destruct (H2 c Hc) as [?|(rr & Hin' & ->)]; [done|].
      eexists. assert (is_Some (foldl (fun m cat => <[cat.1 := cat.2]> m) (∅ : gmap string Z)
        (map_to_list (db_categories db)) !! wr_category rr)) as [cap ?]; [|eauto].
      apply fold_caps. left. destruct (decide (wr_category rr ∈ (map_to_list (db_categories db)).*1))
        as [?|Hn]; [done|]. exfalso. apply (js_sort_filter_nil _ _ _ (wr_category rr) Hcat); [|done].
      rewrite elem_of_set_of, elem_of_map. eauto.
Qed.

Lemma clean_boot_check_resolves_witness :
  checkSybilConfigDrift seedDB = noDrift ∧ is_Some (loadEffectiveThreshold seedDB 0).
Proof.
  assert (H : checkSybilConfigDrift seedDB = noDrift) by (by vm_compute).
  split; [exact H|]. exact (proj1 (proj2 (clean_boot_check_resolves seedDB 0 H))).
Defined.

(** On the seeded tables the live recovery weight agrees with the constants of
    lib/assurance.ts for every registered badge type and every provenance. *)
Theorem seed_recovery_parity t provenance now :
  t ∈ knownBadgeTypes →
  recoveryWeightForLive seedDB t provenance now = Some (recoveryWeightFor t provenance).
Proof.
  intros Ht. destruct (decide (t = "oauth-account")) as [->|Hne].
  - unfold recoveryWeightForLive, recoveryQualifierChain, recoveryWeightFor.
    rewrite !decide_True by done. destruct (truthy provenance) as [p|]; [|by vm_compute]. clear Ht.
    destruct (decide (p ∈ seedProvenances)) as [Hp|Hp].
    + apply list_elem_of_In in Hp. repeat (destruct Hp as [<-|Hp]; [by vm_compute|]). done.
    + cbn [firstRecoveryRow]. rewrite seed_no_other_provenance by done.
      rewrite decide_False; [by vm_compute|]. intros Hl. apply Hp. revert Hl. unfold OAUTH_LOW_PROVENANCE, seedProvenances. set_solver.
  - destruct (seed_star_rows t Ht Hne) as (row & Hrow & Hp & Hw).
    unfold recoveryWeightForLive, recoveryQualifierChain. rewrite decide_False by done.
    cbn [firstRecoveryRow]. rewrite Hrow. simpl. unfold effectiveRecoveryWeight. rewrite Hp, Hw.
    unfold recoveryWeightFor. by rewrite !decide_False by done.
Qed.

Lemma seed_recovery_parity_witness :
  recoveryWeightForLive seedDB "oauth-account" (Some "steam") 0 = Some (recoveryWeightFor "oauth-account" (Some "steam")).
Proof. apply (seed_recovery_parity "oauth-account" (Some "steam") 0). apply list_elem_of_In. vm_compute. tauto. Defined.

(** The scorer's configuration on the seeded tables. *)
Definition seedConfig : SybilScoringConfig :=
  buildSybilScoringConfig (weightRowsOf seedDB) (map_to_list (db_categories seedDB)) SYBIL_BUCKET_CONFIG_SEED.

(** The seed gives the eth2-genesis-depositor qualifier of onchain-event weight 30, but the
    qualifier chain of that type is only the fallback row: no badge ever scores it. *)
Theorem genesis_row_unreachable attributes expiresAt issuer :
  ("onchain-event", "eth2-genesis-depositor", 30, 15, CAT_WALLET) ∈ WEIGHT_TABLE ∧
  weightFor seedConfig {| sb_type := "onchain-event"; sb_attributes := attributes;
                          sb_expiresAt := expiresAt; sb_issuer := issuer |} = 10.
Proof. split; [apply list_elem_of_In; vm_compute; tauto|by vm_compute]. Qed.
