(* ===== verification/RecoveryEditor.v ===== *)
(** * The recovery-config editor (lib/recovery-config-guardrails.ts,
    server/recovery-config-actions.ts)

    Recovery weights, the solo flag and the threshold are edited by admins. Each edit runs
    in one transaction under an advisory lock, so it is one step on the tables. A defensive
    edit applies at once; a weakening one is scheduled 72 hours ahead. *)

From S2P Require Import Prelude Registry SybilScore Session SybilConfig.

Open Scope Z_scope.

(** ** Guardrails *)

Definition RECOVERY_WEAKEN_DELAY_MS : Z := CREDENTIAL_QUARANTINE_MS.
Definition RECOVERY_WEIGHT_MIN : Z := 0.
Definition RECOVERY_WEIGHT_MAX : Z := 100.
Definition RECOVERY_THRESHOLD_MIN : Z := 100.
Definition RECOVERY_THRESHOLD_MAX : Z := 1000.

(** A requested number is [None] when it is not an integer. *)
Definition validateRecoveryWeightBounds (weight : option Z) : result ActionError Z :=
  match weight with
  | None => Err (PlainError "Recovery weight must be a whole number.")
  | Some w =>
      if (w <? RECOVERY_WEIGHT_MIN) || (RECOVERY_WEIGHT_MAX <? w)
      then Err (PlainError "Recovery weight must be between 0 and 100.")
      else Ok w
  end.

Definition validateThresholdBounds (threshold : option Z) : result ActionError Z :=
  match threshold with
  | None => Err (PlainError "Threshold must be a whole number.")
  | Some t =>
      if (t <? RECOVERY_THRESHOLD_MIN) || (RECOVERY_THRESHOLD_MAX <? t)
      then Err (PlainError "Threshold must be between 100 and 1000.")
      else Ok t
  end.

(** True when the combination would let one badge recover an account alone. *)
Definition soloBlockError (effectiveWeight effectiveThreshold : Z) (allowSolo : bool) : bool :=
  (effectiveThreshold <=? effectiveWeight) && negb allowSolo.

Inductive RecoveryWeightWrite :=
  | WeightImmediate (recoveryWeight : Z)
  | WeightScheduled (pendingRecoveryWeight recoveryEffectiveAt : Z).

Definition planRecoveryWeightWrite (currentLive requested now : Z) : RecoveryWeightWrite :=
  if requested <=? currentLive then WeightImmediate requested
  else WeightScheduled requested (now + RECOVERY_WEAKEN_DELAY_MS).

Inductive ThresholdWrite :=
  | ThresholdImmediate (threshold : Z)
  | ThresholdScheduled (pendingThreshold thresholdEffectiveAt : Z).

Definition planThresholdWrite (currentLive requested now : Z) : ThresholdWrite :=
  if currentLive <=? requested then ThresholdImmediate requested
  else ThresholdScheduled requested (now + RECOVERY_WEAKEN_DELAY_MS).

(** The worst values that could apply in the near future. *)
Definition worstThreshold (cfg : RecoveryConfigRow) : Z :=
  match rc_pendingThreshold cfg with
  | Some pending => Z.min (rc_threshold cfg) pending
  | None => rc_threshold cfg
  end.

Definition worstWeight (row : BadgeWeight) : Z :=
  match bw_pendingRecoveryWeight row with
  | Some pending => Z.max (bw_recoveryWeight row) pending
  | None => bw_recoveryWeight row
  end.

(** ** Table updates *)

Definition with_weights (m : gmap (string * string) BadgeWeight) (db : ConfigDB) : ConfigDB :=
  {| db_weights := m; db_categories := db_categories db; db_buckets := db_buckets db;
     db_recovery := db_recovery db; db_group := db_group db; db_audit := db_audit db |}.

Definition with_recovery (cfg : RecoveryConfigRow) (db : ConfigDB) : ConfigDB :=
  {| db_weights := db_weights db; db_categories := db_categories db; db_buckets := db_buckets db;
     db_recovery := Some cfg; db_group := db_group db; db_audit := db_audit db |}.

Definition with_audit (a : ConfigAudit) (db : ConfigDB) : ConfigDB :=
  {| db_weights := db_weights db; db_categories := db_categories db; db_buckets := db_buckets db;
     db_recovery := db_recovery db; db_group := db_group db; db_audit := db_audit db ++ [a] |}.

(** The column values of a planned write. *)
Definition applyWeightPlan (plan : RecoveryWeightWrite) (row : BadgeWeight) : BadgeWeight :=
  let set live pending at_ :=
    {| bw_sybilWeight := bw_sybilWeight row; bw_recoveryWeight := live;
       bw_pendingRecoveryWeight := pending; bw_recoveryEffectiveAt := at_;
       bw_category := bw_category row; bw_allowSoloRecovery := bw_allowSoloRecovery row |} in
  match plan with
  | WeightImmediate w => set w None None
  | WeightScheduled w at_ => set (bw_recoveryWeight row) (Some w) (Some at_)
  end.

Definition setSolo (allow : bool) (row : BadgeWeight) : BadgeWeight :=
  {| bw_sybilWeight := bw_sybilWeight row; bw_recoveryWeight := bw_recoveryWeight row;
     bw_pendingRecoveryWeight := bw_pendingRecoveryWeight row;
     bw_recoveryEffectiveAt := bw_recoveryEffectiveAt row;
     bw_category := bw_category row; bw_allowSoloRecovery := allow |}.

Definition applyThresholdPlan (plan : ThresholdWrite) (cfg : RecoveryConfigRow) : RecoveryConfigRow :=
  match plan with
  | ThresholdImmediate t =>
      {| rc_threshold := t; rc_pendingThreshold := None; rc_thresholdEffectiveAt := None |}
  | ThresholdScheduled t at_ =>
      {| rc_threshold := rc_threshold cfg; rc_pendingThreshold := Some t;
         rc_thresholdEffectiveAt := Some at_ |}
  end.

(** ** Actions *)

Section Actions.
(** The request's session token, the user table and the clock. *)
Context (auth : option Session) (users : gmap string UserFlags) (now : Z).

Definition RECOVERY_CONFIG_MAX_AUTH_AGE_SECS : Z := 600.

Definition gateRecoveryConfig : result ActionError Session :=
  session ← requireAdmin auth users;
  _ ← requireAal (Some session) 2;
  _ ← guard_or (negb (s_recovered session))
        (PlainError "A recovered session can't edit the recovery config. Re-authenticate with a passkey first.");
  _ ← requireAuthRecency (Some session) RECOVERY_CONFIG_MAX_AUTH_AGE_SECS now;
  mret session.

(** [z.string().min(1)] *)
Definition nonempty (s : string) : bool := negb (bool_decide (s = "")).

Definition weightPlanAt (plan : RecoveryWeightWrite) : option Z :=
  match plan with WeightScheduled _ at_ => Some at_ | WeightImmediate _ => None end.

Definition thresholdPlanAt (plan : ThresholdWrite) : option Z :=
  match plan with ThresholdScheduled _ at_ => Some at_ | ThresholdImmediate _ => None end.

(** The transaction of [updateRecoveryWeight]. *)
Definition weightTx (session : Session) (badgeType qualifier : string) (requested : option Z)
    (db : ConfigDB) : result ActionError (option Z * ConfigDB) :=
  recoveryWeight ← validateRecoveryWeightBounds requested;
  row ← some_or (db_weights db !! (badgeType, qualifier)) (PlainError "No badge-weight row.");
  cfg ← some_or (db_recovery db) (PlainError "Recovery config is not seeded.");
  _ ← guard_or (negb (soloBlockError recoveryWeight (worstThreshold cfg) (bw_allowSoloRecovery row)))
        (PlainError "A single badge would meet the recovery threshold on its own.");
  let plan := planRecoveryWeightWrite (bw_recoveryWeight row) recoveryWeight now in
  let entry := {| ca_actor := s_userId session;
                  ca_field := "recoveryWeight:" +:+ badgeType +:+ ":" +:+ qualifier;
                  ca_before := bw_recoveryWeight row; ca_after := recoveryWeight;
                  ca_effectiveAt := weightPlanAt plan |} in
  mret (weightPlanAt plan,
        with_audit entry
          (with_weights (<[(badgeType, qualifier) := applyWeightPlan plan row]> (db_weights db)) db)).

Definition updateRecoveryWeight (badgeType qualifier : string) (requested : option Z)
    (db : ConfigDB) : result ActionError (option Z * ConfigDB) :=
  session ← gateRecoveryConfig;
  _ ← guard_or (nonempty badgeType && nonempty qualifier) (PlainError "Invalid input");
  _ ← guard_or (bool_decide (badgeType ∈ RECOVERY_ELIGIBLE_TYPES))
        (PlainError "not recovery-eligible");
  weightTx session badgeType qualifier requested db.

(** A flag in the audit metadata. *)
Definition flag (b : bool) : Z := if b then 1 else 0.

(** The transaction of [setAllowSoloRecovery]. *)
Definition soloTx (session : Session) (badgeType qualifier : string) (allowSoloRecovery : bool)
    (db : ConfigDB) : result ActionError ConfigDB :=
  row ← some_or (db_weights db !! (badgeType, qualifier)) (PlainError "No badge-weight row.");
  if eqb (bw_allowSoloRecovery row) allowSoloRecovery then mret db
  else
    _ ← (if allowSoloRecovery then mret tt
         else
           cfg ← some_or (db_recovery db) (PlainError "Recovery config is not seeded.");
           guard_or (negb (soloBlockError (worstWeight row) (worstThreshold cfg) false))
             (PlainError "Can't disable solo recovery here."));
    let entry := {| ca_actor := s_userId session;
                    ca_field := "allowSoloRecovery:" +:+ badgeType +:+ ":" +:+ qualifier;
                    ca_before := flag (bw_allowSoloRecovery row); ca_after := flag allowSoloRecovery;
                    ca_effectiveAt := None |} in
    mret (with_audit entry
      (with_weights (<[(badgeType, qualifier) := setSolo allowSoloRecovery row]> (db_weights db)) db)).

Definition setAllowSoloRecovery (badgeType qualifier : string) (allowSoloRecovery : bool)
    (db : ConfigDB) : result ActionError ConfigDB :=
  session ← gateRecoveryConfig;
  _ ← guard_or (nonempty badgeType && nonempty qualifier) (PlainError "Invalid input");
  soloTx session badgeType qualifier allowSoloRecovery db.

(** The transaction of [updateRecoveryThreshold]. *)
Definition thresholdTx (session : Session) (requested : option Z) (db : ConfigDB) :
    result ActionError (option Z * ConfigDB) :=
  threshold ← validateThresholdBounds requested;
  cfg ← some_or (db_recovery db) (PlainError "Recovery config is not seeded.");
  let nonSoloRows := filter (fun '(_, row) => bw_allowSoloRecovery row = false)
                            (map_to_list (db_weights db)) in
  _ ← guard_or (forallb (fun '(_, row) => worstWeight row <? threshold) nonSoloRows)
        (PlainError "Can't lower the threshold: a row would then solo-recover an account.");
  let plan := planThresholdWrite (rc_threshold cfg) threshold now in
  let entry := {| ca_actor := s_userId session; ca_field := "threshold";
                  ca_before := rc_threshold cfg; ca_after := threshold;
                  ca_effectiveAt := thresholdPlanAt plan |} in
  mret (thresholdPlanAt plan, with_audit entry (with_recovery (applyThresholdPlan plan cfg) db)).

Definition updateRecoveryThreshold (requested : option Z) (db : ConfigDB) :
    result ActionError (option Z * ConfigDB) :=
  session ← gateRecoveryConfig;
  thresholdTx session requested db.

End Actions.

(** An edit request: who asks, when, and what. *)
Inductive Edit :=
  | EditWeight (badgeType qualifier : string) (requested : option Z)
  | EditSolo (badgeType qualifier : string) (allow : bool)
  | EditThreshold (requested : option Z).

Record Request := {
  rq_auth : option Session;
  rq_users : gmap string UserFlags;
  rq_now : Z;
  rq_edit : Edit;
}.

(** A rejected request rolls back and leaves the tables alone. *)
Definition runEdit (db : ConfigDB) (r : Request) : ConfigDB :=
  let keep {A} (o : result ActionError (A * ConfigDB)) :=
    match o with Ok p => p.2 | Err _ => db end in
  match rq_edit r with
  | EditWeight t q w => keep (updateRecoveryWeight (rq_auth r) (rq_users r) (rq_now r) t q w db)
  | EditSolo t q b =>
      match setAllowSoloRecovery (rq_auth r) (rq_users r) (rq_now r) t q b db with
      | Ok db' => db'
      | Err _ => db
      end
  | EditThreshold t => keep (updateRecoveryThreshold (rq_auth r) (rq_users r) (rq_now r) t db)
  end.

Definition runEdits (db : ConfigDB) (rs : list Request) : ConfigDB := foldl runEdit db rs.

(** ** Edits as steps *)

(** What an accepted edit at time [now] by [actor] does to the tables. *)
Inductive edited (now : Z) (actor : string) (db : ConfigDB) : ConfigDB → Prop :=
  | edited_same : edited now actor db db
  | edited_weight k row cfg w a :
      0 <= w → db_weights db !! k = Some row → db_recovery db = Some cfg →
      (bw_allowSoloRecovery row = false → w < worstThreshold cfg) → ca_actor a = actor →
      edited now actor db (with_audit a (with_weights
        (<[k := applyWeightPlan (planRecoveryWeightWrite (bw_recoveryWeight row) w now) row]>
           (db_weights db)) db))
  | edited_solo k row allow a :
      db_weights db !! k = Some row →
      (allow = false → ∃ cfg, db_recovery db = Some cfg ∧ worstWeight row < worstThreshold cfg) →
      ca_actor a = actor →
      edited now actor db (with_audit a (with_weights (<[k := setSolo allow row]> (db_weights db)) db))
  | edited_threshold cfg t a :
      db_recovery db = Some cfg →
      (∀ k row, db_weights db !! k = Some row → bw_allowSoloRecovery row = false → worstWeight row < t) →
      ca_actor a = actor →
      edited now actor db (with_audit a (with_recovery
        (applyThresholdPlan (planThresholdWrite (rc_threshold cfg) t now) cfg) db)).

Lemma soloBlock_spec w t solo :
  negb (soloBlockError w t solo) = true → solo = false → w < t.
Proof. unfold soloBlockError. intros H ->. rewrite andb_true_r in H. bool_hyps. lia. Qed.

Lemma weightTx_edited now session t q w db o db' :
  weightTx now session t q w db = Ok (o, db') → edited now (s_userId session) db db'.
Proof.
  unfold weightTx. intros H. run_ok H. simplify_eq.
  eapply edited_weight; [|done..| |done]; [|intros; by eapply soloBlock_spec].
  match goal with H : validateRecoveryWeightBounds _ = Ok _ |- _ =>
    unfold validateRecoveryWeightBounds in H; run_guards H end.
  bool_hyps. unfold RECOVERY_WEIGHT_MIN in *. done.
Qed.

Lemma soloTx_edited now session t q b db db' :
  soloTx session t q b db = Ok db' → edited now (s_userId session) db db'.
Proof.
  unfold soloTx. intros H. run_ok H. destruct (eqb _ _); [run_ok H; subst; constructor|].
  run_ok H. simplify_eq. eapply edited_solo; [done| |done].
  intros ->. run_ok E0. eauto using soloBlock_spec.
Qed.

Lemma thresholdTx_edited now session t db o db' :
  thresholdTx now session t db = Ok (o, db') → edited now (s_userId session) db db'.
Proof.
  unfold thresholdTx. intros H. run_ok H. simplify_eq. eapply edited_threshold; [done| |done].
  intros k row Hk Hs. match goal with E : forallb _ _ = true |- _ => rewrite forallb_forall in E;
    specialize (E (k, row)) end. rewrite Z.ltb_lt in *. apply E1. apply list_elem_of_In.
  apply list_elem_of_filter. split; [done|]. by apply elem_of_map_to_list.
Qed.

(** A request that passed the gate. *)
Definition gated (r : Request) (session : Session) : Prop :=
  gateRecoveryConfig (rq_auth r) (rq_users r) (rq_now r) = Ok session.

Lemma runEdit_edited r db :
  runEdit db r = db ∨ ∃ session, gated r session ∧ edited (rq_now r) (s_userId session) db (runEdit db r).
Proof.
  unfold runEdit, gated. destruct (rq_edit r) as [t q w|t q b|t].
  - destruct (updateRecoveryWeight _ _ _ _ _ _ _) as [[o db']|] eqn:H; [right|by left].
    unfold updateRecoveryWeight in H. run_ok H. eauto using weightTx_edited.
  - destruct (setAllowSoloRecovery _ _ _ _ _ _ _) as [db'|] eqn:H; [right|by left].
    unfold setAllowSoloRecovery in H. run_ok H. eauto using soloTx_edited.
  - destruct (updateRecoveryThreshold _ _ _ _ _) as [[o db']|] eqn:H; [right|by left].
    unfold updateRecoveryThreshold in H. run_ok H. eauto using thresholdTx_edited.
Qed.

(** ** The configuration invariant *)

(** A pending value is a weakening of its live column, and no row without the solo flag
    could reach the worst threshold on its own. *)
Record config_ok (db : ConfigDB) : Prop := {
  co_weight : ∀ k row p, db_weights db !! k = Some row → bw_pendingRecoveryWeight row = Some p →
    bw_recoveryWeight row <= p;
  co_threshold : ∀ cfg p, db_recovery db = Some cfg → rc_pendingThreshold cfg = Some p →
    p <= rc_threshold cfg;
  co_solo : ∀ cfg k row, db_recovery db = Some cfg → db_weights db !! k = Some row →
    bw_allowSoloRecovery row = false → worstWeight row < worstThreshold cfg;
}.

Lemma worstWeight_plan row w now :
  worstWeight (applyWeightPlan (planRecoveryWeightWrite (bw_recoveryWeight row) w now) row) <=
  Z.max w (worstWeight row).
Proof.
  unfold planRecoveryWeightWrite, worstWeight.
  destruct (w <=? bw_recoveryWeight row); simpl; case_match; lia.
Qed.

Lemma worstThreshold_plan cfg t now :
  Z.min t (worstThreshold cfg) <=
  worstThreshold (applyThresholdPlan (planThresholdWrite (rc_threshold cfg) t now) cfg).
Proof.
  unfold planThresholdWrite, worstThreshold.
  destruct (rc_threshold cfg <=? t); simpl; case_match; lia.
Qed.

Lemma edited_ok now actor db db' : config_ok db → edited now actor db db' → config_ok db'.
Proof.
  intros [Hw Ht Hs] [|k row cfg w a Hw0 Hrow Hcfg Hg _|k row allow a Hrow Hg _|cfg t a Hcfg Hg _]; [done|..];
    split; simpl.
  - intros k' row' p. rewrite lookup_insert. case_decide as Hk; [|by apply Hw].
    intros [= <-]. unfold planRecoveryWeightWrite. destruct (Z.leb_spec w (bw_recoveryWeight row)); simpl;
      intros; simplify_eq; lia.
  - done.
  - intros cfg' k' row' Hc'. rewrite lookup_insert. case_decide as Hk; [|by apply Hs].
    intros [= <-] Hsolo. pose proof (worstWeight_plan row w now). simplify_eq.
    assert (bw_allowSoloRecovery row = false)
      by (revert Hsolo; unfold planRecoveryWeightWrite; by case_match).
    specialize (Hg ltac:(done)). specialize (Hs _ _ _ Hcfg Hrow ltac:(done)). lia.
  - intros k' row' p. rewrite lookup_insert. case_decide as Hk; [|by apply Hw].
    intros [= <-]. simpl. by apply (Hw k).
  - done.
  - intros cfg' k' row' Hc'. rewrite lookup_insert. case_decide as Hk; [|by apply Hs].
    intros [= <-] Hsolo. simpl in Hsolo. subst allow. destruct (Hg eq_refl) as (c & ? & ?). by simplify_eq.
  - done.
  - intros cfg' p [= <-]. unfold planThresholdWrite. destruct (Z.leb_spec (rc_threshold cfg) t); simpl;
      intros; simplify_eq; lia.
  - intros cfg' k' row' [= <-] Hr Hsolo. pose proof (worstThreshold_plan cfg t now).
    specialize (Hg _ _ Hr Hsolo). specialize (Hs _ _ _ Hcfg Hr Hsolo). lia.
Qed.

Lemma runEdits_ok db rs : config_ok db → config_ok (runEdits db rs).
Proof.
  unfold runEdits. revert db. induction rs as [|r rs IH]; intros db Hok; simpl; [done|]. apply IH.
  destruct (runEdit_edited r db) as [->|(s & _ & He)]; [done|]. by eapply edited_ok.
Qed.

Lemma effective_le_worst row t : effectiveRecoveryWeight row t <= worstWeight row.
Proof. unfold effectiveRecoveryWeight, worstWeight. repeat case_match; simplify_eq; lia. Qed.

Lemma worst_le_effective cfg t : worstThreshold cfg <= effectiveRecoveryThreshold cfg t.
Proof. unfold effectiveRecoveryThreshold, worstThreshold. repeat case_match; simplify_eq; lia. Qed.

(** Weights stay non-negative under edits. *)
Definition weights_nonneg (db : ConfigDB) : Prop :=
  ∀ k row, db_weights db !! k = Some row →
    0 <= bw_recoveryWeight row ∧ ∀ p, bw_pendingRecoveryWeight row = Some p → 0 <= p.

Lemma edited_nonneg now actor db db' : weights_nonneg db → edited now actor db db' → weights_nonneg db'.
Proof.
  intros Hn [|k row cfg w a Hw0 Hrow Hcfg Hg _|k row allow a Hrow Hg _|cfg t a Hcfg Hg _]; [done|..|done];
    intros k' row'; simpl; rewrite lookup_insert; (case_decide; [|by apply Hn]); intros [= <-].
  - destruct (Hn _ _ Hrow). unfold planRecoveryWeightWrite. case_match; simpl; naive_solver.
  - by destruct (Hn _ _ Hrow).
Qed.

Lemma runEdit_nonneg db r : weights_nonneg db → weights_nonneg (runEdit db r).
Proof.
  intros Hn. destruct (runEdit_edited r db) as [->|(s & _ & He)]; [done|]. by eapply edited_nonneg.
Qed.

Lemma effective_nonneg db k row t :
  weights_nonneg db → db_weights db !! k = Some row → 0 <= effectiveRecoveryWeight row t.
Proof.
  intros Hn Hr. destruct (Hn _ _ Hr) as [? Hp]. unfold effectiveRecoveryWeight.
  repeat case_match; try done. by apply Hp.
Qed.

(** ** Delay of weakenings *)

(** Until time [horizon], [db'] is at least as hard to recover under as [db]. *)
Definition no_weaker (horizon : Z) (db db' : ConfigDB) : Prop :=
  (∀ k row, db_weights db !! k = Some row → ∃ row', db_weights db' !! k = Some row' ∧
     ∀ t, t < horizon → effectiveRecoveryWeight row' t <= effectiveRecoveryWeight row t) ∧
  (∀ cfg, db_recovery db = Some cfg → ∃ cfg', db_recovery db' = Some cfg' ∧
     ∀ t, t < horizon → effectiveRecoveryThreshold cfg t <= effectiveRecoveryThreshold cfg' t).

#[export] Instance no_weaker_PreOrder horizon : PreOrder (no_weaker horizon).
Proof.
  split.
  - intros db. split; eauto with lia.
  - intros db1 db2 db3 [H1 H2] [H3 H4]. split.
    + intros k row Hr. destruct (H1 _ _ Hr) as (row2 & Hr2 & L2). destruct (H3 _ _ Hr2) as (row3 & Hr3 & L3).
      exists row3. split; [done|]. intros t Ht. specialize (L2 t Ht). specialize (L3 t Ht). lia.
    + intros c Hc. destruct (H2 _ Hc) as (c2 & Hc2 & L2). destruct (H4 _ Hc2) as (c3 & Hc3 & L3).
      exists c3. split; [done|]. intros t Ht. specialize (L2 t Ht). specialize (L3 t Ht). lia.
Qed.

Lemma live_le_effective db k row t :
  config_ok db → db_weights db !! k = Some row → bw_recoveryWeight row <= effectiveRecoveryWeight row t.
Proof.
  intros Hok Hr. unfold effectiveRecoveryWeight.
  destruct (bw_pendingRecoveryWeight row) eqn:E; [|lia]. pose proof (co_weight _ Hok _ _ _ Hr E).
  repeat case_match; lia.
Qed.

Lemma effective_le_live db cfg t :
  config_ok db → db_recovery db = Some cfg → effectiveRecoveryThreshold cfg t <= rc_threshold cfg.
Proof.
  intros Hok Hr. unfold effectiveRecoveryThreshold.
  destruct (rc_pendingThreshold cfg) eqn:E; [|lia]. pose proof (co_threshold _ Hok _ _ Hr E).
  repeat case_match; lia.
Qed.

Lemma edited_no_weaker now actor db db' :
  config_ok db → edited now actor db db' → no_weaker (now + RECOVERY_WEAKEN_DELAY_MS) db db'.
Proof.
  intros Hok [|k row cfg w a Hw0 Hrow Hcfg Hg _|k row allow a Hrow Hg _|cfg t a Hcfg Hg _]; [done|..];
    (split; simpl; [intros k' row' Hr'|intros c Hc]).
  - rewrite lookup_insert. case_decide as Hk; [|eauto with lia]. subst k'.
    assert (row' = row) as -> by congruence. clear Hr'.
    eexists. split; [done|]. intros t Ht. pose proof (live_le_effective db k row t Hok Hrow).
    unfold planRecoveryWeightWrite. destruct (Z.leb_spec w (bw_recoveryWeight row)); simpl;
      unfold effectiveRecoveryWeight at 1; simpl; [lia|]. case_match; bool_hyps; lia.
  - eauto with lia.
  - rewrite lookup_insert. case_decide as Hk; [|eauto with lia]. subst k'. simplify_eq.
    eexists. split; [done|]. intros t Ht. by unfold effectiveRecoveryWeight.
  - eauto with lia.
  - eauto with lia.
  - assert (cfg = c) as -> by congruence. eexists. split; [done|]. intros t' Ht. pose proof (effective_le_live db c t' Hok Hcfg).
    unfold planThresholdWrite. destruct (Z.leb_spec (rc_threshold c) t); simpl;
      unfold effectiveRecoveryThreshold at 2; simpl; [lia|]. case_match; bool_hyps; lia.
Qed.

Lemma no_weaker_le h h' db db' : h' <= h → no_weaker h db db' → no_weaker h' db db'.
Proof.
  intros Hh [H1 H2]. split.
  - intros k row Hr. destruct (H1 _ _ Hr) as (r & ? & L). exists r. split; [done|]. intros; apply L; lia.
  - intros c Hc. destruct (H2 _ Hc) as (c' & ? & L). exists c'. split; [done|]. intros; apply L; lia.
Qed.

Lemma runEdits_no_weaker db rs t0 :
  config_ok db → Forall (fun r => t0 <= rq_now r) rs →
  no_weaker (t0 + RECOVERY_WEAKEN_DELAY_MS) db (runEdits db rs).
Proof.
  unfold runEdits. revert db. induction rs as [|r rs IH]; intros db Hok Hrs; simpl; [done|].
  apply Forall_cons in Hrs as [Hr Hrs].
  destruct (runEdit_edited r db) as [->|(s & _ & He)]; [by apply IH|].
  transitivity (runEdit db r); [|apply IH; [by eapply edited_ok|done]].
  eapply no_weaker_le; [|by eapply edited_no_weaker]. lia.
Qed.

(** ** Properties *)

(** whatever edits admins make, in whatever order and at whatever times, a row without
    the solo flag never reaches the recovery threshold on its own, at any time, with its
    scheduled changes taken into account. *)
Theorem solo_block_always db rs :
  config_ok db →
  config_ok (runEdits db rs) ∧
  ∀ cfg k row t, db_recovery (runEdits db rs) = Some cfg → db_weights (runEdits db rs) !! k = Some row →
    bw_allowSoloRecovery row = false →
    effectiveRecoveryWeight row t < effectiveRecoveryThreshold cfg t.
Proof.
  intros Hok. pose proof (runEdits_ok db rs Hok) as Hok'. split; [done|].
  intros cfg k row t Hc Hr Hs. pose proof (co_solo _ Hok' _ _ _ Hc Hr Hs).
  pose proof (effective_le_worst row t). pose proof (worst_le_effective cfg t). lia.
Qed.

(** The seed satisfies the invariant. *)
Definition seed_row_ok (e : (string * string) * BadgeWeight) : bool :=
  bool_decide (bw_pendingRecoveryWeight e.2 = None) &&
  (bw_allowSoloRecovery e.2 || (bw_recoveryWeight e.2 <? 100)).

Lemma seed_ok : config_ok seedDB.
Proof.
  assert (Hall : forallb seed_row_ok (map_to_list (db_weights seedDB)) = true) by (by vm_compute).
  assert (Hrow : ∀ k row, db_weights seedDB !! k = Some row → seed_row_ok (k, row) = true).
  { intros k row Hr. exact (map_forallb seed_row_ok _ k row Hall Hr). }
  assert (Hrec : db_recovery seedDB = Some RECOVERY_CONFIG_SEED) by done.
  clear Hall. unfold seed_row_ok in Hrow. generalize seedDB Hrow Hrec. clear. intros db Hrow Hrec. split.
  - intros k row p Hr Hp. apply Hrow in Hr. bool_hyps. simpl in *. congruence.
  - intros cfg p Hc. rewrite Hrec in Hc. by injection Hc as <-.
  - intros cfg k row Hc Hr Hs. rewrite Hrec in Hc. injection Hc as <-.
    apply Hrow in Hr. simpl in Hr. rewrite Hs in Hr. bool_hyps. simpl in *. bool_hyps.
    unfold worstWeight. match goal with H : _ = None |- _ => rewrite H end. done.
Qed.

Definition demo_admin : Session :=
  {| s_userId := "root"; s_sessionGeneration := Some 0; s_aal := Some 2; s_recovered := false;
     s_auth_time := Some 0; s_cred := None |}.
Definition demo_users : gmap string UserFlags :=
  {[ "root" := {| u_sessionGeneration := 0; u_isAdmin := true; u_isBanned := false;
                  u_mergedIntoUserId := None; u_setupCompletedAt := Some 0 |} ]}.
Definition demo_request (now : Z) (e : Edit) : Request :=
  {| rq_auth := Some demo_admin; rq_users := demo_users; rq_now := now; rq_edit := e |}.
Definition demo_edits : list Request :=
  [ demo_request 1000 (EditThreshold (Some 200)); demo_request 2000 (EditWeight "email-exact" "*" (Some 90));
    demo_request 3000 (EditThreshold (Some 100)); demo_request 4000 (EditSolo "tlsn-attestation" "*" false) ].

Lemma solo_block_always_witness : config_ok (runEdits seedDB demo_edits).
Proof. exact (proj1 (solo_block_always seedDB demo_edits seed_ok)). Defined.

(** a weakening never takes effect before its 72 hours: after any edits made from time
    [t0] on, every weight up to [t0 + 72h] is at most, and the threshold at least, what it
    would have been without them. *)
Theorem weakening_is_delayed db rs t0 :
  config_ok db → Forall (fun r => t0 <= rq_now r) rs →
  no_weaker (t0 + 72 * 60 * 60 * 1000) db (runEdits db rs).
Proof. apply runEdits_no_weaker. Qed.

Lemma weakening_is_delayed_witness :
  no_weaker (1000 + 72 * 60 * 60 * 1000) seedDB (runEdits seedDB demo_edits).
Proof. apply (weakening_is_delayed seedDB demo_edits 1000 seed_ok). repeat constructor; simpl; lia. Defined.

(** an edit changes the tables only for a live admin session at assurance level 2 that is
    not a recovered one and authenticated within the last 10 minutes, and every change is
    logged under that admin in the same step. *)
Theorem edits_are_gated_and_audited db r :
  runEdit db r ≠ db →
  ∃ session a u, rq_auth r = Some session ∧ live_session (rq_users r) session ∧
    rq_users r !! s_userId session = Some u ∧ u_isAdmin u = true ∧
    2 <= default 0 (s_aal session) ∧ s_recovered session = false ∧
    (∃ authTime, s_auth_time session = Some authTime ∧ rq_now r / 1000 - authTime <= 600) ∧
    db_audit (runEdit db r) = db_audit db ++ [a] ∧ ca_actor a = s_userId session.
Proof.
  intros Hne. destruct (runEdit_edited r db) as [?|(session & Hg & He)]; [done|].
  unfold gated, gateRecoveryConfig in Hg. run_ok Hg. subst.
  match goal with H : requireAdmin _ _ = Ok _ |- _ => destruct (requireAdmin_live _ _ _ H) as (? & ? & u & ? & ?) end.
  assert (Haal : 2 <= default 0 (s_aal session)).
  { match goal with H : requireAal _ _ = Ok _ |- _ => unfold requireAal in H; run_guards H end. bool_hyps. done. }
  assert (Hrec : ∃ authTime, s_auth_time session = Some authTime ∧ rq_now r / 1000 - authTime <= 600).
  { match goal with H : requireAuthRecency _ _ _ = Ok _ |- _ => unfold requireAuthRecency in H; run_guards H end.
    bool_hyps. eauto. }
  destruct He; [done|..]; exists session; eexists _, u; bool_hyps; split_and!; eauto.
Qed.

Lemma edits_are_gated_and_audited_witness :
  ∃ session a u, Some demo_admin = Some session ∧ live_session demo_users session ∧
    demo_users !! s_userId session = Some u ∧ u_isAdmin u = true ∧
    2 <= default 0 (s_aal session) ∧ s_recovered session = false ∧
    (∃ authTime, s_auth_time session = Some authTime ∧ 1000 / 1000 - authTime <= 600) ∧
    db_audit (runEdit seedDB (demo_request 1000 (EditThreshold (Some 200)))) = [] ++ [a] ∧
    ca_actor a = s_userId session.
Proof.
  apply (edits_are_gated_and_audited seedDB (demo_request 1000 (EditThreshold (Some 200)))).
  intros H. apply (f_equal db_recovery) in H. vm_compute in H. discriminate H.
Defined.
