(* ===== verification/Recovery.v ===== *)
(** * Badge-threshold account recovery (lib/recovery-threshold.ts, lib/recovery-ticket.ts,
    lib/recovery-reproof.ts, server/recovery-threshold-actions.ts)

    A recovery attempt accumulates the weight of live re-proofs until it reaches the score
    required when it was started, and is then redeemed once for a single-use ticket. Every
    function is a handler of atomic database operations, so that concurrent requests
    interleave. Signing and verifying a JWT, random values and mail are parameters or left
    out; the clock is read once per request. *)

From S2P Require Import Prelude Threads RateLimit Registry SybilScore Session SybilConfig RecoveryEditor.

Open Scope Z_scope.

(** ** Data *)

Definition RECOVERY_ATTEMPT_TTL_MS : Z := 15 * 60 * 1000.
Definition TICKET_TTL_SECONDS : Z := 10 * 60.
Definition REPROOF_TTL_SECONDS : Z := 15 * 60.

Inductive RecoveryAttemptStatus := Pending | Satisfied | Consumed | Expired | Failed.

#[export] Instance RecoveryAttemptStatus_eq_dec : EqDecision RecoveryAttemptStatus.
Proof. solve_decision. Defined.

Record RecoveryAttempt := {
  ra_userId : string;
  ra_nonce : string;
  ra_status : RecoveryAttemptStatus;
  ra_requiredScore : Z;
  ra_accumulatedScore : Z;
  ra_expiresAt : Z;
  ra_satisfiedAt : option Z;
  ra_consumedAt : option Z;
}.

(** The badge columns recovery reads; the domain is the attribute of an email-domain badge. *)
Record HeldBadge := {
  hb_userId : string;
  hb_type : string;
  hb_isPublic : bool;
  hb_domain : option string;
}.

(** The tables: proofs are keyed by (attemptId, badgeType), single-use markers by
    (identifier, token), and an email row holds its user and verification time. *)
Record RecoveryDB := {
  rd_attempts : gmap string RecoveryAttempt;
  rd_proofs : gmap (string * string) Z;
  rd_badges : list HeldBadge;
  rd_tokens : gmap (string * string) Z;
  rd_config : ConfigDB;
  rd_emails : gmap string (string * option Z);
  rd_users : gmap string UserFlags;
  rd_audit : list (string * string * string);
}.

Definition with_attempts (m : gmap string RecoveryAttempt) (db : RecoveryDB) : RecoveryDB :=
  {| rd_attempts := m; rd_proofs := rd_proofs db; rd_badges := rd_badges db; rd_tokens := rd_tokens db;
     rd_config := rd_config db; rd_emails := rd_emails db; rd_users := rd_users db; rd_audit := rd_audit db |}.
Definition with_proofs (m : gmap (string * string) Z) (db : RecoveryDB) : RecoveryDB :=
  {| rd_attempts := rd_attempts db; rd_proofs := m; rd_badges := rd_badges db; rd_tokens := rd_tokens db;
     rd_config := rd_config db; rd_emails := rd_emails db; rd_users := rd_users db; rd_audit := rd_audit db |}.
Definition with_tokens (m : gmap (string * string) Z) (db : RecoveryDB) : RecoveryDB :=
  {| rd_attempts := rd_attempts db; rd_proofs := rd_proofs db; rd_badges := rd_badges db; rd_tokens := m;
     rd_config := rd_config db; rd_emails := rd_emails db; rd_users := rd_users db; rd_audit := rd_audit db |}.
Definition logged (userId action attemptId : string) (db : RecoveryDB) : RecoveryDB :=
  {| rd_attempts := rd_attempts db; rd_proofs := rd_proofs db; rd_badges := rd_badges db;
     rd_tokens := rd_tokens db; rd_config := rd_config db; rd_emails := rd_emails db;
     rd_users := rd_users db; rd_audit := rd_audit db ++ [(userId, action, attemptId)] |}.

(** ** Single-use markers *)

(** [verificationToken.create]: false when the marker exists. *)
Definition createMarker (identifier token : string) (expires : Z) (db : RecoveryDB) : bool * RecoveryDB :=
  match rd_tokens db !! (identifier, token) with
  | Some _ => (false, db)
  | None => (true, with_tokens (<[(identifier, token) := expires]> (rd_tokens db)) db)
  end.

(** [verificationToken.delete]: false when there is no row to delete. *)
Definition deleteMarker (identifier token : string) (db : RecoveryDB) : bool * RecoveryDB :=
  match rd_tokens db !! (identifier, token) with
  | Some _ => (true, with_tokens (delete (identifier, token) (rd_tokens db)) db)
  | None => (false, db)
  end.

(** ** Tickets *)

Section Tickets.
(** The JWT library: [sign] is [None] when AUTH_SECRET is unusable; [verify] checks the
    signature, the type and the expiry. *)
Context {Claims : Type} (identifier : string) (ttlSeconds : Z)
        (sign : Claims → string → option string) (verify : Z → string → option (Claims * string)).

(** Record the marker, then sign. [None] is a throw. *)
Definition issueToken (now : Z) (jti : string) (claims : Claims) : thread RecoveryDB (option string) :=
  created ← act (createMarker identifier jti (now + ttlSeconds * 1000));
  mret (if (created : bool) then sign claims jti else None).

Definition verifyToken (now : Z) (token : string) : thread RecoveryDB (option Claims) :=
  match verify now token with
  | None => mret None
  | Some (claims, jti) =>
      deleted ← act (deleteMarker identifier jti);
      mret (if (deleted : bool) then Some claims else None)
  end.

End Tickets.

Definition TICKET_IDENTIFIER : string := "recovery-ticket".
Definition REPROOF_IDENTIFIER : string := "recovery-reproof".

Record ReProofTokenClaims := {
  cl_attemptId : string;
  cl_badgeType : string;
  cl_domain : string;
  cl_nonceBinding : string;
}.

(** The JWT library at the two uses: tickets carry a user id. *)
Record Jwt := {
  signTicket : string → string → option string;
  verifyTicket : Z → string → option (string * string);
  signReProof : ReProofTokenClaims → string → option string;
  verifyReProof : Z → string → option (ReProofTokenClaims * string);
}.

Section Engine.
Context (jwt : Jwt).

Definition issueRecoveryTicket (now : Z) (jti userId : string) : thread RecoveryDB (option string) :=
  issueToken TICKET_IDENTIFIER TICKET_TTL_SECONDS (signTicket jwt) now jti userId.

Definition verifyRecoveryTicket (now : Z) (ticket : string) : thread RecoveryDB (option string) :=
  verifyToken TICKET_IDENTIFIER (verifyTicket jwt) now ticket.

Definition issueReProofToken (now : Z) (jti : string) (claims : ReProofTokenClaims) :
    thread RecoveryDB (option string) :=
  issueToken REPROOF_IDENTIFIER REPROOF_TTL_SECONDS (signReProof jwt) now jti claims.

Definition verifyReProofToken (now : Z) (token : string) : thread RecoveryDB (option ReProofTokenClaims) :=
  verifyToken REPROOF_IDENTIFIER (verifyReProof jwt) now token.

(** ** The accounting engine *)

Record StartedRecoveryAttempt := { st_attemptId : string; st_nonce : string; st_requiredScore : Z }.

(** [recoveryAttempt.create]: the id and the nonce are unique. *)
Definition createAttempt (attemptId : string) (a : RecoveryAttempt) (db : RecoveryDB) : bool * RecoveryDB :=
  if bool_decide (is_Some (rd_attempts db !! attemptId)) ||
     existsb (fun '(_, b) => bool_decide (ra_nonce b = ra_nonce a)) (map_to_list (rd_attempts db))
  then (false, db)
  else (true, with_attempts (<[attemptId := a]> (rd_attempts db)) db).

(** [None] is a throw: no threshold is configured, or the row could not be created. *)
Definition startRecoveryAttempt (now : Z) (attemptId nonce userId : string) (requiredScore : option Z) :
    thread RecoveryDB (option StartedRecoveryAttempt) :=
  score ← match requiredScore with
          | Some s => mret (Some s)
          | None => read (fun db => loadEffectiveThreshold (rd_config db) now)
          end;
  match score with
  | None => mret None
  | Some score =>
      created ← act (createAttempt attemptId
        {| ra_userId := userId; ra_nonce := nonce; ra_status := Pending; ra_requiredScore := score;
           ra_accumulatedScore := 0; ra_expiresAt := now + RECOVERY_ATTEMPT_TTL_MS;
           ra_satisfiedAt := None; ra_consumedAt := None |});
      mret (if (created : bool)
            then Some {| st_attemptId := attemptId; st_nonce := nonce; st_requiredScore := score |}
            else None)
  end.

Inductive RecordReProofError :=
  | AttemptNotFound | AttemptNotPending | AttemptExpired | TypeNotEligible | BadgeNotHeld
  | AlreadyProven | ConfigUnavailable.

Record ReProofResult := { rr_accumulatedScore : Z; rr_requiredScore : Z; rr_satisfied : bool }.

Inductive RecordReProofOutcome :=
  | Recorded (r : ReProofResult)
  | Rejected (reason : RecordReProofError)
  | Thrown.

(** The transaction: insert the proof, add its weight, flip to satisfied. A missing
    attempt row rolls it back with a throw. *)
Definition proofTx (now : Z) (attemptId badgeType : string) (weight : Z) (db : RecoveryDB) :
    RecordReProofOutcome * RecoveryDB :=
  match rd_proofs db !! (attemptId, badgeType), rd_attempts db !! attemptId with
  | Some _, _ => (Rejected AlreadyProven, db)
  | None, None => (Thrown, db)
  | None, Some a =>
      let score := ra_accumulatedScore a + weight in
      let satisfied := ra_requiredScore a <=? score in
      let flip := satisfied && bool_decide (ra_status a = Pending) in
      let a' := {| ra_userId := ra_userId a; ra_nonce := ra_nonce a;
                   ra_status := if flip then Satisfied else ra_status a;
                   ra_requiredScore := ra_requiredScore a; ra_accumulatedScore := score;
                   ra_expiresAt := ra_expiresAt a;
                   ra_satisfiedAt := if flip then Some now else ra_satisfiedAt a;
                   ra_consumedAt := ra_consumedAt a |} in
      (Recorded {| rr_accumulatedScore := score; rr_requiredScore := ra_requiredScore a;
                   rr_satisfied := satisfied |},
       with_attempts (<[attemptId := a']> (rd_attempts db))
         (with_proofs (<[(attemptId, badgeType) := weight]> (rd_proofs db)) db))
  end.

Definition holds (userId badgeType : string) (db : RecoveryDB) : bool :=
  existsb (fun b => bool_decide (hb_userId b = userId) && bool_decide (hb_type b = badgeType)
                    && negb (hb_isPublic b)) (rd_badges db).

Definition recordReProof (now : Z) (attemptId badgeType : string) (provenance : option string) :
    thread RecoveryDB RecordReProofOutcome :=
  attempt ← read (fun db => rd_attempts db !! attemptId);
  match attempt with
  | None => mret (Rejected AttemptNotFound)
  | Some attempt =>
      if negb (bool_decide (ra_status attempt = Pending)) then mret (Rejected AttemptNotPending)
      else if ra_expiresAt attempt <=? now then mret (Rejected AttemptExpired)
      else if negb (bool_decide (badgeType ∈ RECOVERY_ELIGIBLE_TYPES)) then mret (Rejected TypeNotEligible)
      else
        held ← read (holds (ra_userId attempt) badgeType);
        if negb held then mret (Rejected BadgeNotHeld)
        else
          weight ← read (fun db => recoveryWeightForLive (rd_config db) badgeType provenance now);
          match weight with
          | None => mret (Rejected ConfigUnavailable)
          | Some weight => act (proofTx now attemptId badgeType weight)
          end
  end.

Inductive ConsumeReason := ConsumeNotFound | NotSatisfied | AlreadyConsumed | ConsumeExpired.

(** A throw after the claim ([ConsumeThrown]) leaves the attempt consumed. *)
Inductive ConsumeAttemptOutcome :=
  | ConsumeOk (ticket userId : string)
  | ConsumeRejected (reason : ConsumeReason)
  | ConsumeThrown.

Definition set_status (s : RecoveryAttemptStatus) (consumedAt : option Z) (a : RecoveryAttempt) :
    RecoveryAttempt :=
  {| ra_userId := ra_userId a; ra_nonce := ra_nonce a; ra_status := s;
     ra_requiredScore := ra_requiredScore a; ra_accumulatedScore := ra_accumulatedScore a;
     ra_expiresAt := ra_expiresAt a; ra_satisfiedAt := ra_satisfiedAt a; ra_consumedAt := consumedAt |}.

(** [updateMany] filtered on the satisfied status: whether one row changed. *)
Definition claimAttempt (now : Z) (attemptId : string) (db : RecoveryDB) : bool * RecoveryDB :=
  match rd_attempts db !! attemptId with
  | Some a =>
      if bool_decide (ra_status a = Satisfied)
      then (true, with_attempts (<[attemptId := set_status Consumed (Some now) a]> (rd_attempts db)) db)
      else (false, db)
  | None => (false, db)
  end.

Definition consumeSatisfiedAttempt (now : Z) (jti attemptId : string) :
    thread RecoveryDB ConsumeAttemptOutcome :=
  attempt ← read (fun db => rd_attempts db !! attemptId);
  match attempt with
  | None => mret (ConsumeRejected ConsumeNotFound)
  | Some attempt =>
      if bool_decide (ra_status attempt = Consumed) then mret (ConsumeRejected AlreadyConsumed)
      else if negb (bool_decide (ra_status attempt = Satisfied)) then mret (ConsumeRejected NotSatisfied)
      else if ra_expiresAt attempt <=? now then mret (ConsumeRejected ConsumeExpired)
      else
        claimed ← act (claimAttempt now attemptId);
        if negb claimed then mret (ConsumeRejected AlreadyConsumed)
        else
          ticket ← issueRecoveryTicket now jti (ra_userId attempt);
          mret (match ticket with
                | Some ticket => ConsumeOk ticket (ra_userId attempt)
                | None => ConsumeThrown
                end)
  end.

Record AttemptStatus := {
  as_status : RecoveryAttemptStatus; as_accumulatedScore : Z; as_requiredScore : Z;
  as_expiresAt : Z; as_provenTypes : list string;
}.

Definition getAttemptStatus (attemptId : string) (db : RecoveryDB) : option AttemptStatus :=
  (fun a => {| as_status := ra_status a; as_accumulatedScore := ra_accumulatedScore a;
     as_requiredScore := ra_requiredScore a; as_expiresAt := ra_expiresAt a;
     as_provenTypes := map (fun '((_, t), _) => t)
       (filter (fun '((i, _), _) => i = attemptId) (map_to_list (rd_proofs db))) |}) <$>
  rd_attempts db !! attemptId.

End Engine.

(** ** Server actions *)

(** The parts before and after the last ["@"], when there is one. *)
Fixpoint split_last_at (s : string) : option (string * string) :=
  match s with
  | EmptyString => None
  | String c s' =>
      match split_last_at s' with
      | Some (before, after) => Some (String c before, after)
      | None => if decide (c = "@"%char) then Some (EmptyString, s') else None
      end
  end.

Section Actions.
Context (jwt : Jwt) (now : Z).

Record StartRecoveryResult := {
  sr_attemptId : option string;
  sr_requiredScore : option Z;
  sr_provableTypes : list string;
  sr_domains : list string;
}.

Definition nothingProvable : StartRecoveryResult :=
  {| sr_attemptId := None; sr_requiredScore := None; sr_provableTypes := []; sr_domains := [] |}.

(** The types to offer, and the domains of the email-domain badges among them. *)
Definition provable (badges : list HeldBadge) : list string * list string :=
  foldl (fun '(types, domains) b =>
    if bool_decide (hb_type b ∈ RECOVERY_ELIGIBLE_TYPES) then
      (set_add (hb_type b) types,
       if bool_decide (hb_type b = "email-domain")
       then match hb_domain b with Some d => set_add d domains | None => domains end
       else domains)
    else (types, domains)) ([], []) badges.

(** [limited] is the verdict of the per-IP limiter; an error is the message shown, or a
    throw ([""]). *)
Definition startBadgeRecovery (limited : bool) (attemptId nonce userIdentifier : string) :
    thread RecoveryDB (result string StartRecoveryResult) :=
  if limited then mret (Err "Too many recovery attempts. Try again later.") else
  let email := toLowerCase (trim userIdentifier) in
  match split_last_at email with
  | None => mret (Err "Enter the email address on the account.")
  | Some _ =>
      owned ← read (fun db => rd_emails db !! email);
      match owned with
      | Some (userId, Some _) =>
          user ← read (fun db => rd_users db !! userId);
          match user with
          | None => mret (Ok nothingProvable)
          | Some user =>
              if u_isBanned user || bool_decide (u_mergedIntoUserId user ≠ None)
              then mret (Ok nothingProvable)
              else
                badges ← read (fun db => filter (fun b => hb_userId b = userId ∧ hb_isPublic b = false)
                                                (rd_badges db));
                let '(types, domains) := provable badges in
                started ← startRecoveryAttempt now attemptId nonce userId None;
                match started with
                | None => mret (Err "")
                | Some started =>
                    _ ← write (logged userId "recovery.badge_threshold.started" (st_attemptId started));
                    mret (Ok {| sr_attemptId := Some (st_attemptId started);
                                sr_requiredScore := Some (st_requiredScore started);
                                sr_provableTypes := types; sr_domains := domains |})
                end
          end
      | _ => mret (Ok nothingProvable)
      end
  end.

(** The first badge [findFirst] returns for the filter: no order is requested. *)
Definition firstDomainBadge (userId : string) (db : RecoveryDB) : option HeldBadge :=
  snd <$> list_find (fun b => hb_userId b = userId ∧ hb_type b = "email-domain" ∧ hb_isPublic b = false)
                    (rd_badges db).

(** The address the link is mailed to and the link's token. *)
Definition requestEmailDomainReProof (limited : bool) (jti attemptId emailAddress : string) :
    thread RecoveryDB (result string (string * string)) :=
  if limited then mret (Err "Too many verification emails. Try again later.") else
  let address := toLowerCase (trim emailAddress) in
  match split_last_at address with
  | None | Some (EmptyString, _) | Some (_, EmptyString) => mret (Err "Enter a valid email address.")
  | Some (_, domain) =>
      attempt ← read (fun db => rd_attempts db !! attemptId);
      match attempt with
      | None => mret (Err "This recovery attempt is no longer active. Start over.")
      | Some attempt =>
          if negb (bool_decide (ra_status attempt = Pending)) || (ra_expiresAt attempt <=? now)
          then mret (Err "This recovery attempt is no longer active. Start over.")
          else
            held ← read (firstDomainBadge (ra_userId attempt));
            match held ≫= hb_domain with
            | None => mret (Err "That address can't be used to recover this account.")
            | Some heldDomain =>
                if bool_decide (heldDomain = "") || negb (bool_decide (toLowerCase heldDomain = domain))
                then mret (Err "That address can't be used to recover this account.")
                else
                  token ← issueReProofToken jwt now jti
                    {| cl_attemptId := attemptId; cl_badgeType := "email-domain";
                       cl_domain := heldDomain; cl_nonceBinding := ra_nonce attempt |};
                  match token with
                  | None => mret (Err "")
                  | Some token =>
                      _ ← write (logged (ra_userId attempt) "recovery.badge_threshold.reproof_sent" attemptId);
                      mret (Ok (address, token))
                  end
            end
      end
  end.

Definition reproofErrorMessage (reason : RecordReProofError) : string :=
  match reason with
  | AlreadyProven => "You've already proven this credential for this recovery."
  | AttemptExpired => "This recovery attempt expired. Start over."
  | AttemptNotPending => "This recovery attempt is no longer accepting proofs."
  | BadgeNotHeld => "That credential can't be used to recover this account."
  | TypeNotEligible => "That credential type can't be used for recovery."
  | _ => "Could not record that proof."
  end.

Definition completeEmailDomainReProof (token : string) : thread RecoveryDB (result string ReProofResult) :=
  claims ← verifyReProofToken jwt now token;
  match claims with
  | None => mret (Err "This link is invalid, expired, or already used.")
  | Some claims =>
      attempt ← read (fun db => rd_attempts db !! cl_attemptId claims);
      match attempt with
      | Some attempt =>
          if negb (bool_decide (ra_nonce attempt = cl_nonceBinding claims))
          then mret (Err "This link no longer matches an active recovery attempt.")
          else
            outcome ← recordReProof now (cl_attemptId claims) "email-domain" None;
            mret (match outcome with
                  | Recorded r => Ok r
                  | Rejected reason => Err (reproofErrorMessage reason)
                  | Thrown => Err ""
                  end)
      | None => mret (Err "This link no longer matches an active recovery attempt.")
      end
  end.

(** The recovery sign-in provider (auth.ts): the user a ticket signs in. *)
Definition authorizeRecovery (ticket : string) : thread RecoveryDB (option string) :=
  if bool_decide (ticket = "") then mret None else
  verified ← verifyRecoveryTicket jwt now ticket;
  match verified with
  | None => mret None
  | Some userId =>
      user ← read (fun db => rd_users db !! userId);
      mret (match user with
            | Some user =>
                if u_isBanned user || bool_decide (u_mergedIntoUserId user ≠ None) then None else Some userId
            | None => None
            end)
  end.

Definition consumeErrorMessage (reason : ConsumeReason) : string :=
  match reason with
  | NotSatisfied => "You haven't reached the recovery threshold yet."
  | AlreadyConsumed => "This recovery has already been completed."
  | ConsumeExpired => "This recovery attempt expired. Start over."
  | ConsumeNotFound => "This recovery attempt could not be found."
  end.

(** The user who ends up signed in with a recovered session. *)
Definition finishBadgeRecovery (jti attemptId : string) : thread RecoveryDB (result string string) :=
  consumed ← consumeSatisfiedAttempt jwt now jti attemptId;
  match consumed with
  | ConsumeRejected reason => mret (Err (consumeErrorMessage reason))
  | ConsumeThrown => mret (Err "")
  | ConsumeOk ticket userId =>
      signedIn ← authorizeRecovery ticket;
      match signedIn with
      | None => mret (Err "")
      | Some user =>
          _ ← write (logged userId "recovery.badge_threshold.completed" attemptId);
          mret (Ok user)
      end
  end.

End Actions.

(** ** The service

    The requests that reach the recovery tables, each with its clock and the random values
    it draws. [RqRecord] is the entry point of the engine a verified re-proof calls. *)

Inductive RecoveryRequest :=
  | RqStart (limited : bool) (attemptId nonce userIdentifier : string)
  | RqSendLink (limited : bool) (jti attemptId emailAddress : string)
  | RqClickLink (token : string)
  | RqRecord (attemptId badgeType : string) (provenance : option string)
  | RqFinish (jti attemptId : string)
  | RqSignIn (ticket : string)
  | RqEdit (edit : Request).

Inductive RecoveryResponse :=
  | Finished (attemptId : string) (r : result string string)
  | SignedIn (ticket : string) (user : option string)
  | Other.

Definition with_config (c : ConfigDB) (db : RecoveryDB) : RecoveryDB :=
  {| rd_attempts := rd_attempts db; rd_proofs := rd_proofs db; rd_badges := rd_badges db;
     rd_tokens := rd_tokens db; rd_config := c; rd_emails := rd_emails db; rd_users := rd_users db;
     rd_audit := rd_audit db |}.

Definition handle (jwt : Jwt) (now : Z) (rq : RecoveryRequest) : thread RecoveryDB RecoveryResponse :=
  match rq with
  | RqStart l i n u => _ ← startBadgeRecovery now l i n u; mret Other
  | RqSendLink l j i e => _ ← requestEmailDomainReProof jwt now l j i e; mret Other
  | RqClickLink t => _ ← completeEmailDomainReProof jwt now t; mret Other
  | RqRecord i t p => _ ← recordReProof now i t p; mret Other
  | RqFinish j i => r ← finishBadgeRecovery jwt now j i; mret (Finished i r)
  | RqSignIn t => u ← authorizeRecovery jwt now t; mret (SignedIn t u)
  | RqEdit e => _ ← write (fun db => with_config (runEdit (rd_config db) e) db); mret Other
  end.

(** ** The tally *)

(** The total weight of an attempt's proofs. *)
Definition proofSum (id : string) (proofs : gmap (string * string) Z) : Z :=
  sumZ snd (filter (fun e => e.1.1 = id) (map_to_list proofs)).

Lemma proofSum_insert id k w proofs :
  proofs !! k = None →
  proofSum id (<[k := w]> proofs) = (if decide (k.1 = id) then w else 0) + proofSum id proofs.
Proof.
  intros Hk. unfold proofSum. rewrite (sumZ_perm snd _ (filter (fun e => e.1.1 = id) ((k, w) :: map_to_list proofs))).
  - rewrite filter_cons. simpl. by case_decide.
  - by rewrite map_to_list_insert.
Qed.

Lemma proofSum_none id proofs : (∀ t, proofs !! (id, t) = None) → proofSum id proofs = 0.
Proof.
  intros Hn. unfold proofSum. destruct (filter _ _) as [|[[i t] w] l] eqn:E; [done|exfalso].
  assert (((i, t), w) ∈ filter (fun e => e.1.1 = id) (map_to_list proofs)) as H by (rewrite E; left).
  apply list_elem_of_filter in H as [Hi Hin%elem_of_map_to_list]. simpl in Hi. subst. by rewrite Hn in Hin.
Qed.

Definition redeemable (s : RecoveryAttemptStatus) : Prop := s = Satisfied ∨ s = Consumed.

Record tally_ok (db : RecoveryDB) : Prop := {
  to_sum : ∀ id a, rd_attempts db !! id = Some a → ra_accumulatedScore a = proofSum id (rd_proofs db);
  to_sat : ∀ id a, rd_attempts db !! id = Some a → redeemable (ra_status a) →
    ra_requiredScore a <= ra_accumulatedScore a;
  to_proof : ∀ id t w, rd_proofs db !! (id, t) = Some w →
    is_Some (rd_attempts db !! id) ∧ 0 <= w ∧ t ∈ RECOVERY_ELIGIBLE_TYPES;
  to_config : weights_nonneg (rd_config db);
}.

Definition consumed (id : string) (db : RecoveryDB) : Prop :=
  ra_status <$> rd_attempts db !! id = Some Consumed.

Lemma live_weight_nonneg db t p now w :
  weights_nonneg db → recoveryWeightForLive db t p now = Some w → 0 <= w.
Proof.
  intros Hn. unfold recoveryWeightForLive. destruct (firstRecoveryRow _ _ _) as [row|] eqn:E; [|done].
  intros [= <-]. revert E. induction (recoveryQualifierChain t p) as [|q chain IH]; simpl; [done|].
  destruct (db_weights db !! (t, q)) as [r|] eqn:Er; [|done]. intros [= ->]. by eapply effective_nonneg.
Qed.

Lemma createAttempt_ok id a db :
  tally_ok db → ra_accumulatedScore a = 0 → ra_status a = Pending →
  tally_ok (createAttempt id a db).2 ∧ (∀ i, consumed i db → consumed i (createAttempt id a db).2).
Proof.
  intros Hok Hz Hp. unfold createAttempt. case_match eqn:G; [done|]. simpl. bool_hyps.
  assert (Hnone : rd_attempts db !! id = None) by (destruct (rd_attempts db !! id); [exfalso; eauto|done]).
  destruct Hok as [H1 H2 H3 H4]. split; [split; simpl|].
  - intros i b. rewrite lookup_insert. case_decide as Hi; [|by apply H1]. intros [= <-]. subst i.
    rewrite Hz, proofSum_none; [done|]. intros t. destruct (rd_proofs db !! (id, t)) as [w|] eqn:E; [|done].
    destruct (H3 _ _ _ E) as [[? ?] _]. congruence.
  - intros i b. rewrite lookup_insert. case_decide as Hi; [|by apply H2]. intros [= <-].
    rewrite Hp. intros []; done.
  - intros i t w Hw. destruct (H3 _ _ _ Hw) as [Hs ?]. split; [|done]. rewrite lookup_insert. by case_decide.
  - done.
  - intros i Hc. unfold consumed in *. simpl. rewrite lookup_insert. case_decide; [|done]. subst.
    by rewrite Hnone in Hc.
Qed.

Lemma proofTx_ok now id t w db :
  tally_ok db → 0 <= w → t ∈ RECOVERY_ELIGIBLE_TYPES →
  tally_ok (proofTx now id t w db).2 ∧ (∀ i, consumed i db → consumed i (proofTx now id t w db).2).
Proof.
  intros Hok Hw Ht. unfold proofTx. destruct (rd_proofs db !! (id, t)) eqn:Ep; [done|].
  destruct (rd_attempts db !! id) as [a|] eqn:Ea; [|done]. simpl.
  destruct Hok as [H1 H2 H3 H4]. split; [split; simpl|].
  - intros i b. rewrite lookup_insert, proofSum_insert by done. simpl.
    case_decide as Hi; intros Hb; simplify_eq/=; rewrite ?decide_True by done; [rewrite (H1 _ _ Ea); lia|].
    rewrite ?decide_False by done. by rewrite (H1 _ _ Hb).
  - intros i b. rewrite lookup_insert. case_decide as Hi; [|by apply H2]. intros [= <-]. simpl.
    intros Hs. destruct (Z.leb_spec (ra_requiredScore a) (ra_accumulatedScore a + w)); [done|].
    simpl in Hs. specialize (H2 _ _ Ea Hs). lia.
  - intros i t' w'. rewrite (lookup_insert (rd_proofs db)). case_decide as Hk.
    + simplify_eq. intros [= <-]. by rewrite lookup_insert_eq.
    + intros Hw'. destruct (H3 _ _ _ Hw') as [Hs ?]. split; [|done]. rewrite lookup_insert. by case_decide.
  - done.
  - intros i Hc. unfold consumed in *. simpl. rewrite lookup_insert. case_decide; [|done]. subst. simpl.
    rewrite Ea in Hc. simpl in *. simplify_eq. by rewrite Hc, bool_decide_false, andb_false_r by done.
Qed.

Lemma claimAttempt_ok now id db :
  tally_ok db → tally_ok (claimAttempt now id db).2 ∧
  (∀ i, consumed i db → consumed i (claimAttempt now id db).2) ∧
  ((claimAttempt now id db).1 = true → ¬ consumed id db ∧ consumed id (claimAttempt now id db).2).
Proof.
  intros Hok. unfold claimAttempt. destruct (rd_attempts db !! id) as [a|] eqn:Ea; [|by split_and!].
  destruct (bool_decide (ra_status a = Satisfied)) eqn:Es; [|by split_and!]. bool_hyps. simpl.
  destruct Hok as [H1 H2 H3 H4]. split_and!.
  - split; cbn [rd_attempts rd_proofs rd_config with_attempts]; [..|done].
    + intros i b. rewrite lookup_insert. case_decide; [|by apply H1]. intros [= <-]. subst. exact (H1 _ _ Ea).
    + intros i b. rewrite lookup_insert. case_decide; [|by apply H2]. intros [= <-] _. subst. simpl.
      apply (H2 _ _ Ea). by left.
    + intros i t w Hw. destruct (H3 _ _ _ Hw) as [Hs ?]. split; [|done]. rewrite lookup_insert. by case_decide.
  - intros i Hc. unfold consumed in *. simpl. rewrite lookup_insert. by case_decide.
  - intros _. unfold consumed. simpl. rewrite Ea, lookup_insert_eq. simpl. split; [congruence|done].
Qed.

(** ** Accounting of the service

    The database holds one token as long as the attempt [id] may still be redeemed; the
    handler that redeems it takes the token. *)
Section Accounting.
Context (jwt : Jwt) (id : string).

Definition account (m : nat) (db : RecoveryDB) : Prop := tally_ok db ∧ (m = 0%nat → consumed id db).

Definition redeemed (r : RecoveryResponse) : nat :=
  match r with Finished i (Ok _) => if decide (i = id) then 1%nat else 0%nat | _ => 0%nat end.

(** A handler that keeps its tokens whatever it returns. *)
Definition neutral {A} (t : thread RecoveryDB A) : Prop :=
  ∀ n, uses account (fun _ n' => n' = n) n t.

Lemma neutral_bind {A B} (t : thread RecoveryDB A) (k : A → thread RecoveryDB B) Q n :
  neutral t → (∀ a, uses account Q n (k a)) → uses account Q n (t ≫= k).
Proof using.
  intros Ht Hk. apply uses_bind. eapply uses_impl; [|exact (Ht n)].
  intros a n' ->. apply Hk.
Qed.

Lemma neutral_seq {A B} (t : thread RecoveryDB A) (k : A → thread RecoveryDB B) :
  neutral t → (∀ a, neutral (k a)) → neutral (t ≫= k).
Proof using. intros Ht Hk n. apply neutral_bind; [done|]. intros a. apply Hk. Qed.

Lemma neutral_ret {A} (a : A) : neutral (mret a).
Proof using. done. Qed.

Lemma neutral_read {A} (f : RecoveryDB → A) : neutral (read f).
Proof using. intros n m db HI. by exists m, n. Qed.

(** An operation that keeps the tally and what is consumed. *)
Definition keeps {A} (f : RecoveryDB → A * RecoveryDB) : Prop :=
  ∀ db, tally_ok db → tally_ok (f db).2 ∧ (∀ i, consumed i db → consumed i (f db).2).

Lemma neutral_act {A} (f : RecoveryDB → A * RecoveryDB) : keeps f → neutral (act f).
Proof using.
  intros Hf n m db [Hok Hc]. destruct (Hf db Hok) as [? ?]. exists m, n.
  split; [lia|]. split; [split; [done|by eauto]|done].
Qed.

Lemma keeps_same_tables {A} (f : RecoveryDB → A * RecoveryDB) :
  (∀ db, rd_attempts (f db).2 = rd_attempts db ∧ rd_proofs (f db).2 = rd_proofs db ∧
         rd_config (f db).2 = rd_config db) → keeps f.
Proof using.
  intros Hf db [H1 H2 H3 H4]. destruct (Hf db) as (E1 & E2 & E3). unfold consumed.
  split; [split|]; rewrite ?E1, ?E2, ?E3; done.
Qed.

Lemma neutral_logged u a i : neutral (write (logged u a i)).
Proof using. by apply neutral_act, keeps_same_tables. Qed.

Lemma neutral_createMarker i t e : neutral (act (createMarker i t e)).
Proof using.
  apply neutral_act, keeps_same_tables. intros db. unfold createMarker. by case_match.
Qed.

Lemma neutral_deleteMarker i t : neutral (act (deleteMarker i t)).
Proof using.
  apply neutral_act, keeps_same_tables. intros db. unfold deleteMarker. by case_match.
Qed.

Create HintDb neutral.
Hint Resolve neutral_ret neutral_read neutral_logged neutral_createMarker neutral_deleteMarker : neutral.

(** Neutrality of a handler, operation by operation. *)
Ltac solve_neutral :=
  repeat first
    [ solve [auto with neutral]
    | apply neutral_seq; [|intros ?]
    | match goal with |- neutral (match ?x with _ => _ end) => destruct x end
    | match goal with |- neutral (let '(_, _) := ?x in _) => destruct x end ].

Lemma neutral_issueToken {C} i ttl (sign : C → string → option string) now jti c :
  neutral (issueToken i ttl sign now jti c).
Proof using. unfold issueToken. solve_neutral. Qed.

Lemma neutral_verifyToken {C} i (verify : Z → string → option (C * string)) now t :
  neutral (verifyToken i verify now t).
Proof using. unfold verifyToken. solve_neutral. Qed.
Hint Resolve neutral_issueToken neutral_verifyToken : neutral.

Lemma neutral_start now i n u s : neutral (startRecoveryAttempt now i n u s).
Proof using.
  unfold startRecoveryAttempt. apply neutral_seq; [destruct s; auto with neutral|].
  intros [score|]; [|auto with neutral]. apply neutral_seq; [|auto with neutral].
  apply neutral_act. intros db Hok. by apply createAttempt_ok.
Qed.

Lemma neutral_record now i t p : neutral (recordReProof now i t p).
Proof using.
  unfold recordReProof. apply neutral_seq; [auto with neutral|]. intros [a|]; [|auto with neutral].
  repeat (case_match; [auto with neutral|]). bool_hyps.
  apply neutral_seq; [auto with neutral|]. intros held. case_match; [auto with neutral|].
  intros n. apply uses_read. intros m db [Hok _].
  destruct (recoveryWeightForLive _ _ _ _) as [w|] eqn:Ew; [|done].
  apply neutral_act. intros db' Hok'. apply proofTx_ok; [done| |done].
  eapply live_weight_nonneg; [apply Hok|done].
Qed.
Hint Resolve neutral_start neutral_record : neutral.

Lemma neutral_authorize now t : neutral (authorizeRecovery jwt now t).
Proof using. unfold authorizeRecovery, verifyRecoveryTicket. solve_neutral. Qed.
Hint Resolve neutral_authorize : neutral.

Lemma neutral_edit e : neutral (write (fun db => with_config (runEdit (rd_config db) e) db)).
Proof using.
  apply neutral_act. intros db [H1 H2 H3 H4]. split; [|done].
  split; simpl; [done..|]. by apply runEdit_nonneg.
Qed.
Hint Resolve neutral_edit : neutral.

(** Redeeming costs a token, of the attempt it redeems. *)
Lemma finish_uses now jti i :
  uses account (fun r n => (redeemed (Finished i r) <= n)%nat) 0 (finishBadgeRecovery jwt now jti i).
Proof using.
  unfold finishBadgeRecovery, consumeSatisfiedAttempt. apply uses_bind.
  apply neutral_bind; [auto with neutral|]. intros [a|]; [|simpl; lia].
  repeat (case_match; [simpl; lia|]).
  apply uses_act. intros m db [Hok Hc].
  destruct (claimAttempt_ok now i db Hok) as (Hok' & Hcons & Hclaim).
  destruct (claimAttempt now i db) as [[] db'] eqn:E; cbn [fst snd negb] in *.
  - destruct (Hclaim eq_refl) as [Hnot Hnow].
    set (c := if decide (i = id) then 1%nat else 0%nat). exists (m - c)%nat, c.
    assert (Hpay : (c <= m)%nat).
    { subst c. destruct (decide (i = id)) as [->|]; [|apply Nat.le_0_l]. destruct m; [|lia]. by destruct Hnot; apply Hc. }
    split; [lia|]. split.
    + split; [done|]. unfold c. destruct (decide (i = id)) as [->|]; [done|]. intros Hm. apply Hcons, Hc. lia.
    + apply neutral_bind; [unfold issueRecoveryTicket; auto with neutral|].
      intros [ticket|]; cbn [mret thread_ret uses]; [|simpl; lia].
      apply neutral_bind; [auto with neutral|]. intros [user|]; [|simpl; lia].
      apply neutral_bind; [auto with neutral|]. intros []. exact (Nat.le_refl c).
  - exists m, 0%nat. split; [lia|]. split; [split; [done|by eauto]|]. simpl. lia.
Qed.

Lemma handle_uses now rq : uses account (fun r n => (redeemed r <= n)%nat) 0 (handle jwt now rq).
Proof using.
  assert (Hother : ∀ A (t : thread RecoveryDB A), neutral t →
    uses account (fun r n => (redeemed r <= n)%nat) 0 (_ ← t; mret Other)).
  { intros A t Ht. apply neutral_bind; [done|]. intros a. simpl. lia. }
  destruct rq as [l i n u|l j i e|t|i t p|j i|t|e]; unfold handle.
  - apply Hother. unfold startBadgeRecovery. solve_neutral.
  - apply Hother. unfold requestEmailDomainReProof, issueReProofToken. solve_neutral.
  - apply Hother. unfold completeEmailDomainReProof, verifyReProofToken. solve_neutral.
  - apply Hother. auto with neutral.
  - apply uses_bind. exact (finish_uses now j i).
  - apply neutral_bind; [auto with neutral|]. intros a. simpl. lia.
  - apply Hother. auto with neutral.
Qed.

End Accounting.

(** The responses a pool of requests has given, and its database, under a schedule. *)
Definition serve (jwt : Jwt) (rqs : list (Z * RecoveryRequest)) (sched : list nat) (db : RecoveryDB) :
    list RecoveryResponse * RecoveryDB :=
  let st := pool_run sched ((fun '(now, rq) => handle jwt now rq) <$> rqs, db) in
  (returned st.1, st.2).

Lemma serve_account jwt id rqs sched db m :
  account id m db →
  (sum_list (redeemed id <$> (serve jwt rqs sched db).1) <= m)%nat ∧
  ∃ m', account id m' (serve jwt rqs sched db).2.
Proof.
  intros Ha. unfold serve. simpl.
  destruct (pool_accounts (account id) (fun r n => (redeemed id r <= n)%nat) (redeemed id) (fun _ => True)
    sched ((fun '(now, rq) => handle jwt now rq) <$> rqs) db m) as (? & _ & ?); [done|done| |done].
  apply Forall_fmap, Forall_true. intros [now rq]. apply handle_uses.
Qed.

Lemma tally_has_two id a db :
  tally_ok db → rd_attempts db !! id = Some a → redeemable (ra_status a) → 0 < ra_requiredScore a →
  (∀ t w, rd_proofs db !! (id, t) = Some w → w < ra_requiredScore a) →
  ∃ t1 t2, t1 ≠ t2 ∧ is_Some (rd_proofs db !! (id, t1)) ∧ is_Some (rd_proofs db !! (id, t2)).
Proof.
  intros Hok Ha Hr Hpos Hlt. pose proof (to_sat _ Hok _ _ Ha Hr) as Hge.
  rewrite (to_sum _ Hok _ _ Ha) in Hge. unfold proofSum in Hge.
  set (l := filter (fun e => e.1.1 = id) (map_to_list (rd_proofs db))) in *.
  assert (Hin : ∀ e, e ∈ l → e.1.1 = id ∧ rd_proofs db !! e.1 = Some e.2).
  { intros [k w] [Hk Hin%elem_of_map_to_list]%list_elem_of_filter. done. }
  assert (Hnd : NoDup l) by apply NoDup_filter, NoDup_map_to_list.
  destruct l as [|[[i1 t1] w1] [|[[i2 t2] w2] l]]; simpl in Hge; [lia|..].
  - destruct (Hin ((i1, t1), w1)) as [? Hw]; [left|]. simpl in *. subst. specialize (Hlt _ _ Hw). lia.
  - destruct (Hin ((i1, t1), w1)) as [? Hw1]; [left|]. destruct (Hin ((i2, t2), w2)) as [? Hw2]; [right; left|].
    simpl in *. subst. exists t1, t2. split_and!; [|by eauto..]. intros ->.
    apply NoDup_cons in Hnd as [Hn _]. apply Hn. simplify_eq. left.
Qed.

(** Edits neither add nor remove rows, so a badge type keeps resolving to the same row. *)
Lemma runEdit_rows db r k : db_weights (runEdit db r) !! k = None ↔ db_weights db !! k = None.
Proof.
  destruct (runEdit_edited r db) as [->|(s & _ & He)]; [done|].
  destruct He; simpl; try done; rewrite lookup_insert; case_decide; naive_solver congruence.
Qed.

Lemma runEdits_rows db rs k : db_weights (runEdits db rs) !! k = None ↔ db_weights db !! k = None.
Proof.
  unfold runEdits. revert db. induction rs as [|r rs IH]; intros db; simpl; [done|].
  by rewrite IH, runEdit_rows.
Qed.

Lemma firstRecoveryRow_edits db db' t chain horizon row :
  no_weaker horizon db db' → (∀ k, db_weights db' !! k = None ↔ db_weights db !! k = None) →
  firstRecoveryRow db t chain = Some row →
  ∃ k row', db_weights db !! k = Some row ∧ firstRecoveryRow db' t chain = Some row' ∧
    ∀ time, time < horizon → effectiveRecoveryWeight row' time <= effectiveRecoveryWeight row time.
Proof.
  intros [Hw _] Hd. induction chain as [|q chain IH]; simpl; [done|].
  destruct (db_weights db !! (t, q)) as [r|] eqn:E.
  - intros [= ->]. destruct (Hw _ _ E) as (row' & E' & Hle). rewrite E'. eauto 6.
  - rewrite (proj2 (Hd (t, q)) E). exact IH.
Qed.

(** ** Properties *)

(** Under any interleaving of recovery requests and config edits, every attempt's score
    stays the sum of the weights of its proofs (one per badge type, each of an eligible type
    and non-negative), and an attempt is satisfied or consumed only if that sum reaches the
    score it required. So a redeemable attempt none of whose proofs suffices alone has
    proofs of at least two badge types. *)
Theorem recovery_tally_invariant jwt rqs sched db :
  tally_ok db →
  let db' := (serve jwt rqs sched db).2 in
  tally_ok db' ∧
  ∀ id a, rd_attempts db' !! id = Some a → redeemable (ra_status a) → 0 < ra_requiredScore a →
    (∀ t w, rd_proofs db' !! (id, t) = Some w → w < ra_requiredScore a) →
    ∃ t1 t2, t1 ≠ t2 ∧ is_Some (rd_proofs db' !! (id, t1)) ∧ is_Some (rd_proofs db' !! (id, t2)).
Proof.
  intros Hok. destruct (serve_account jwt "" rqs sched db 1) as (_ & m' & [Hok' _]); [by split; [|lia]|].
  split; [done|]. intros id a. by apply tally_has_two.
Qed.

(** An attempt that has reached its score, a bystander, and the library of a test: a token
    is its claims with the jti appended. *)
Definition demo_attempt (status : RecoveryAttemptStatus) (score : Z) : RecoveryAttempt :=
  {| ra_userId := "u"; ra_nonce := "n"; ra_status := status; ra_requiredScore := 100;
     ra_accumulatedScore := score; ra_expiresAt := 1000; ra_satisfiedAt := None; ra_consumedAt := None |}.

Definition demo_rdb : RecoveryDB :=
  {| rd_attempts := {[ "a" := demo_attempt Satisfied 100 ]};
     rd_proofs := {[ ("a", "tlsn-attestation") := 100 ]};
     rd_badges := []; rd_tokens := ∅;
     rd_config := {| db_weights := ∅; db_categories := ∅; db_buckets := None; db_recovery := None;
                     db_group := None; db_audit := [] |};
     rd_emails := ∅;
     rd_users := {[ "u" := {| u_sessionGeneration := 0; u_isAdmin := false; u_isBanned := false;
                              u_mergedIntoUserId := None; u_setupCompletedAt := None |} ]};
     rd_audit := [] |}.

Definition demo_jwt : Jwt :=
  {| signTicket := fun userId jti => Some jti; verifyTicket := fun _ t => Some ("u", t);
     signReProof := fun _ jti => Some jti; verifyReProof := fun _ _ => None |}.

Lemma demo_rdb_ok : tally_ok demo_rdb.
Proof.
  split; simpl.
  - intros id a [<- <-]%lookup_singleton_Some. by vm_compute.
  - intros id a [<- <-]%lookup_singleton_Some _. simpl. lia.
  - intros id t w [E <-]%lookup_singleton_Some. simplify_eq. rewrite lookup_singleton_eq.
    split_and!; [done|lia|]. unfold RECOVERY_ELIGIBLE_TYPES. set_solver.
  - intros k row Hr. simpl in Hr. by apply lookup_empty_Some in Hr.
Qed.

Definition demo_finishes : list (Z * RecoveryRequest) :=
  [(5, RqFinish "j1" "a"); (6, RqFinish "j2" "a"); (7, RqSignIn "j1")].

Lemma recovery_tally_invariant_witness : tally_ok (serve demo_jwt demo_finishes [0; 1; 0; 1; 0; 0]%nat demo_rdb).2.
Proof. exact (proj1 (recovery_tally_invariant demo_jwt demo_finishes [0; 1; 0; 1; 0; 0]%nat demo_rdb demo_rdb_ok)). Defined.

(** C20: under any interleaving, at most one request ever redeems a given recovery attempt. *)
Theorem attempt_redeemed_once jwt rqs sched db id :
  tally_ok db → (sum_list (redeemed id <$> (serve jwt rqs sched db).1) <= 1)%nat.
Proof. intros Hok. apply serve_account. split; [done|lia]. Qed.

Lemma attempt_redeemed_once_witness :
  (sum_list (redeemed "a" <$> (serve demo_jwt demo_finishes (replicate 12 0 ++ replicate 12 1)%nat demo_rdb).1) <= 1)%nat ∧
  (serve demo_jwt demo_finishes (replicate 12 0 ++ replicate 12 1)%nat demo_rdb).1 =
    [Finished "a" (Ok "u"); Finished "a" (Err "This recovery has already been completed.")].
Proof.
  split; [|by vm_compute].
  apply (attempt_redeemed_once demo_jwt demo_finishes (replicate 12 0 ++ replicate 12 1)%nat demo_rdb "a").
  exact demo_rdb_ok.
Defined.

(** no single re-proof of a type without the solo flag recovers an account: whatever
    edits admins make while the attempt lives, the weight it would record stays below the
    score the attempt required when it was started. *)
Theorem single_proof_never_suffices cfg rs t0 t1 type provenance row required w :
  config_ok cfg → Forall (fun r => t0 <= rq_now r) rs → t1 < t0 + RECOVERY_ATTEMPT_TTL_MS →
  firstRecoveryRow cfg type (recoveryQualifierChain type provenance) = Some row →
  bw_allowSoloRecovery row = false → loadEffectiveThreshold cfg t0 = Some required →
  recoveryWeightForLive (runEdits cfg rs) type provenance t1 = Some w → w < required.
Proof.
  intros Hok Hrs Ht1 Hrow Hsolo Hreq Hw.
  destruct (firstRecoveryRow_edits cfg (runEdits cfg rs) type _ _ row
    (runEdits_no_weaker cfg rs t0 Hok Hrs) (runEdits_rows cfg rs) Hrow) as (k & row' & Hk & Hrow' & Hle).
  unfold recoveryWeightForLive in Hw. rewrite Hrow' in Hw. simplify_eq/=.
  unfold loadEffectiveThreshold in Hreq. destruct (db_recovery cfg) as [rc|] eqn:Erc; [|done]. simplify_eq/=.
  pose proof (co_solo _ Hok _ _ _ Erc Hk Hsolo). pose proof (effective_le_worst row t1).
  pose proof (worst_le_effective rc t0). unfold RECOVERY_ATTEMPT_TTL_MS in *.
  specialize (Hle t1). unfold RECOVERY_WEAKEN_DELAY_MS, CREDENTIAL_QUARANTINE_MS in Hle. lia.
Qed.

Lemma single_proof_never_suffices_witness : 15 < 100.
Proof.
  apply (single_proof_never_suffices seedDB demo_edits 1000 5000 "email-exact" None
    (seedRow 5 15 CAT_EMAIL false) 100 15 seed_ok); try by vm_compute.
  repeat constructor; simpl; lia.
Defined.

(** A user with two email-domain badges is offered both domains, but the link is refused for
    the one whose badge the unordered [findFirst] does not return. *)
Definition two_domains : RecoveryDB :=
  {| rd_attempts := {[ "a" := demo_attempt Pending 0 ]}; rd_proofs := ∅;
     rd_badges := [ {| hb_userId := "u"; hb_type := "email-domain"; hb_isPublic := false; hb_domain := Some "one.org" |};
                    {| hb_userId := "u"; hb_type := "email-domain"; hb_isPublic := false; hb_domain := Some "two.org" |} ];
     rd_tokens := ∅; rd_config := rd_config demo_rdb; rd_emails := ∅; rd_users := ∅; rd_audit := [] |}.

Theorem second_domain_refused :
  (provable (rd_badges two_domains)).2 = ["one.org"; "two.org"] ∧
  (run_solo (requestEmailDomainReProof demo_jwt 5 false "j" "a" "me@one.org") two_domains).1 =
    Ok ("me@one.org", "j") ∧
  (run_solo (requestEmailDomainReProof demo_jwt 5 false "j" "a" "me@two.org") two_domains).1 =
    Err "That address can't be used to recover this account.".
Proof. by vm_compute. Qed.
