(* ===== verification/SignInOtp.v ===== *)
(** * Sign-in codes (lib/signin-otp.ts)

    A short code mailed next to the magic link: minted with a one-hour life, compared with
    its keyed hash, burned after five wrong guesses and deleted when it verifies. The handlers
    are sequences of database operations; the keyed hash and the random draws are parameters.
    Strings are ASCII. *)

From S2P Require Import Prelude Threads.

Open Scope Z_scope.

(** ** Data *)

Record OtpRow := {
  otp_id : string;
  otp_identifier : string;
  otp_codeHash : string;
  otp_expires : Z;
  otp_attempts : Z;
}.

(** The table is the list of its rows in the order of their creation. *)

Definition OTP_TTL_MS : Z := 60 * 60 * 1000.
Definition OTP_MAX_ATTEMPTS : Z := 5.
Definition OTP_LENGTH : nat := 8.
Definition OTP_ALPHABET : string := "23456789ABCDEFGHJKMNPQRSTUVWXYZ".

(** ** Codes *)

Definition upper_char (c : Ascii.ascii) : Ascii.ascii :=
  let n := Ascii.nat_of_ascii c in
  if Nat.leb 97 n && Nat.leb n 122 then Ascii.ascii_of_nat (n - 32) else c.

Fixpoint string_map (f : Ascii.ascii → Ascii.ascii) (s : string) : string :=
  match s with EmptyString => EmptyString | String c s' => String (f c) (string_map f s') end.

Fixpoint string_filter (keep : Ascii.ascii → bool) (s : string) : string :=
  match s with
  | EmptyString => EmptyString
  | String c s' => if keep c then String c (string_filter keep s') else string_filter keep s'
  end.

Definition toUpperCase : string → string := string_map upper_char.

Definition is_alnum (c : Ascii.ascii) : bool :=
  let n := Ascii.nat_of_ascii c in (Nat.leb 48 n && Nat.leb n 57) || (Nat.leb 65 n && Nat.leb n 90).

Definition normalizeOtp (input : string) : string := string_filter is_alnum (toUpperCase input).

(** The symbol at a drawn index of an alphabet. *)
Definition symbol (alphabet : string) (i : nat) : string :=
  match String.get i alphabet with Some c => String c EmptyString | None => "undefined" end.

Definition generateOtp (draw : nat → nat) : string :=
  String.concat "" (map (fun i => symbol OTP_ALPHABET (draw i)) (seq 0 OTP_LENGTH)).

(** ** Operations *)

Inductive OtpVerifyResult := OtpOk | OtpNoCode | OtpExpired | OtpMismatch | OtpLockedOut.

Section Otp.
Context (hmac : string → string).

Definition hashCode (code : string) : string := hmac (normalizeOtp code).

Definition hashesEqual (a b : string) : bool :=
  if negb (Nat.eqb (String.length a) (String.length b)) then false else bool_decide (a = b).

Definition deleteCodes (identifier : string) (db : list OtpRow) : list OtpRow :=
  filter (fun r => otp_identifier r ≠ identifier) db.

(** The transaction that replaces the codes of an address. *)
Definition createSignInOtp (now : Z) (id : string) (draw : nat → nat) (identifier : string) :
    thread (list OtpRow) string :=
  let code := generateOtp draw in
  _ ← write (fun db => deleteCodes identifier db ++
    [ {| otp_id := id; otp_identifier := identifier; otp_codeHash := hashCode code;
         otp_expires := now + OTP_TTL_MS; otp_attempts := 0 |} ]);
  mret code.

(** The newest code of an address. *)
Definition findCode (identifier : string) (db : list OtpRow) : option OtpRow :=
  last (filter (fun r => otp_identifier r = identifier) db).

Definition bump (r : OtpRow) : OtpRow :=
  {| otp_id := otp_id r; otp_identifier := otp_identifier r; otp_codeHash := otp_codeHash r;
     otp_expires := otp_expires r; otp_attempts := otp_attempts r + 1 |}.

(** The guarded increment, with the number of rows it changed. *)
Definition bumpAttempts (id : string) (db : list OtpRow) : nat * list OtpRow :=
  let hit := fun r => bool_decide (otp_id r = id) && (otp_attempts r <? OTP_MAX_ATTEMPTS) in
  (length (List.filter hit db), map (fun r => if hit r then bump r else r) db).

Definition readAttempts (id : string) (db : list OtpRow) : option Z :=
  (fun x => otp_attempts x.2) <$> list_find (fun r => otp_id r = id) db.

Definition verifySignInOtp (now : Z) (identifier submitted : string) : thread (list OtpRow) OtpVerifyResult :=
  row ← read (findCode identifier);
  match row with
  | None => mret OtpNoCode
  | Some row =>
      if otp_expires row <=? now then
        _ ← write (deleteCodes identifier); mret OtpExpired
      else if hashesEqual (otp_codeHash row) (hashCode submitted) then
        _ ← write (deleteCodes identifier); mret OtpOk
      else
        bumped ← act (bumpAttempts (otp_id row));
        if Nat.eqb bumped 0 then
          _ ← write (deleteCodes identifier); mret OtpLockedOut
        else
          after ← read (readAttempts (otp_id row));
          match after with
          | Some attempts =>
              if OTP_MAX_ATTEMPTS <=? attempts then
                _ ← write (deleteCodes identifier); mret OtpLockedOut
              else mret OtpMismatch
          | None => _ ← write (deleteCodes identifier); mret OtpLockedOut
          end
  end.

(** Guesses one after the other, each with its time. *)
Fixpoint guess (identifier : string) (gs : list (Z * string)) (db : list OtpRow) : list OtpVerifyResult * list OtpRow :=
  match gs with
  | [] => ([], db)
  | (now, submitted) :: gs =>
      let '(r, db) := run_solo (verifySignInOtp now identifier submitted) db in
      let '(rs, db) := guess identifier gs db in (r :: rs, db)
  end.

(** ** Lemmas *)

(** The code of an address among the rows of others. *)
Definition apart (identifier id : string) (others : list OtpRow) : Prop :=
  Forall (fun r => otp_identifier r ≠ identifier ∧ otp_id r ≠ id) others.

Lemma hashesEqual_spec a b : hashesEqual a b = bool_decide (a = b).
Proof using.
  unfold hashesEqual. destruct (Nat.eqb_spec (String.length a) (String.length b)); simpl; [done|].
  symmetry. apply bool_decide_eq_false. by intros ->.
Qed.

Lemma delete_apart identifier id others : apart identifier id others → deleteCodes identifier others = others.
Proof using.
  unfold apart, deleteCodes. induction 1 as [|r l [Hr _] _ IH]; [done|]. by rewrite filter_cons_True, IH.
Qed.

Lemma delete_row identifier id others row :
  apart identifier id others → otp_identifier row = identifier →
  deleteCodes identifier (others ++ [row]) = others.
Proof using.
  intros Ha Hr. unfold deleteCodes. rewrite filter_app. fold (deleteCodes identifier others).
  rewrite (delete_apart _ _ _ Ha), filter_cons_False by naive_solver. apply app_nil_r.
Qed.

Lemma find_apart identifier id others : apart identifier id others → findCode identifier others = None.
Proof using.
  unfold apart, findCode. induction 1 as [|r l [Hr _] _ IH]; [done|]. by rewrite filter_cons_False.
Qed.

Lemma find_row identifier others row :
  otp_identifier row = identifier → findCode identifier (others ++ [row]) = Some row.
Proof using.
  intros Hr. unfold findCode. rewrite filter_app, filter_cons_True, filter_nil by done. apply last_snoc.
Qed.

Lemma bump_row identifier others row :
  apart identifier (otp_id row) others → otp_attempts row < OTP_MAX_ATTEMPTS →
  bumpAttempts (otp_id row) (others ++ [row]) = (1%nat, others ++ [bump row]).
Proof using.
  intros Ha Hlt. unfold bumpAttempts. rewrite List.filter_app, map_app. simpl.
  rewrite bool_decide_true, (proj2 (Z.ltb_lt _ _)) by done. simpl. rewrite length_app. simpl.
  induction Ha as [|r l [_ Hr] _ IH]; [done|]. simpl. rewrite bool_decide_false by done. simpl.
  injection IH as IH1 IH2. by rewrite IH1, IH2.
Qed.

Lemma read_row identifier others row :
  apart identifier (otp_id row) others → readAttempts (otp_id row) (others ++ [row]) = Some (otp_attempts row).
Proof using.
  intros Ha. unfold readAttempts. rewrite list_find_app_r.
  - simpl. by rewrite decide_True.
  - apply list_find_None. eapply Forall_impl; [exact Ha|]. by intros r [_ ?].
Qed.

(** One guess, on an unexpired code that has attempts left. *)
Lemma verify_row now identifier submitted others row :
  apart identifier (otp_id row) others → otp_identifier row = identifier → now < otp_expires row →
  otp_attempts row < OTP_MAX_ATTEMPTS →
  run_solo (verifySignInOtp now identifier submitted) (others ++ [row]) =
    if decide (otp_codeHash row = hashCode submitted) then (OtpOk, others)
    else if OTP_MAX_ATTEMPTS <=? otp_attempts row + 1 then (OtpLockedOut, others)
    else (OtpMismatch, others ++ [bump row]).
Proof using.
  intros Ha Hid Hexp Hlt. unfold verifySignInOtp. rewrite run_solo_bind. cbn [read act run_solo fst snd].
  rewrite find_row by done. rewrite (proj2 (Z.leb_gt _ _)) by done. rewrite hashesEqual_spec.
  destruct (decide (otp_codeHash row = hashCode submitted)) as [E|E].
  - rewrite bool_decide_true by done. cbn. by erewrite delete_row.
  - rewrite bool_decide_false by done. rewrite run_solo_bind. cbn [act run_solo fst snd].
    erewrite bump_row by done. cbn [fst snd Nat.eqb]. rewrite run_solo_bind. cbn [read act run_solo fst snd].
    change (otp_id row) with (otp_id (bump row)). erewrite read_row by done. cbn [otp_attempts bump].
    destruct (OTP_MAX_ATTEMPTS <=? otp_attempts row + 1); [|done]. cbn. by erewrite delete_row.
Qed.

Lemma guess_none identifier id gs others :
  apart identifier id others → ∀ k, (guess identifier gs others).1 !! k ≠ Some OtpOk.
Proof using.
  intros Ha. induction gs as [|[now g] gs IH]; intros k; cbn [guess fst]; [by rewrite lookup_nil|].
  unfold verifySignInOtp. rewrite run_solo_bind. cbn [read act run_solo fst snd].
  erewrite find_apart by done. cbn [run_solo mret thread_ret].
  destruct (guess identifier gs others) as [rs db'] eqn:E. destruct k as [|k]; [done|]. apply IH.
Qed.

Lemma guess_row identifier gs others row :
  apart identifier (otp_id row) others → otp_identifier row = identifier →
  Forall (fun g => g.1 < otp_expires row) gs → otp_attempts row < OTP_MAX_ATTEMPTS → ∀ k,
  (guess identifier gs (others ++ [row])).1 !! k = Some OtpOk ↔
    Z.of_nat k + otp_attempts row < OTP_MAX_ATTEMPTS ∧
    (∃ g, gs !! k = Some g ∧ hashCode g.2 = otp_codeHash row) ∧
    ∀ j g, (j < k)%nat → gs !! j = Some g → hashCode g.2 ≠ otp_codeHash row.
Proof using.
  intros Ha Hid Hexp. revert row Ha Hid Hexp.
  induction gs as [|[now g] gs IH]; intros row Ha Hid Hexp Hlt k; cbn [guess fst].
  { rewrite lookup_nil. naive_solver. }
  apply Forall_cons in Hexp as [Hnow Hexp]. simpl in Hnow. rewrite verify_row by done.
  destruct (decide (otp_codeHash row = hashCode g)) as [E|E].
  - destruct (guess identifier gs others) as [rs db'] eqn:Eg. simpl. destruct k as [|k]; simpl.
    + split; [|done]. intros _. split_and!; [lia|by eauto|lia].
    + split; [|intros (_ & _ & Hno); by destruct (Hno 0%nat (now, g)); [lia|..]].
      intros Hk. exfalso. apply (guess_none identifier (otp_id row) gs others Ha k). by rewrite Eg.
  - assert (Hstep : ∀ P : nat → Prop, (P 0%nat ↔ False) →
      (∀ k, P (S k) ↔ Z.of_nat (S k) + otp_attempts row < OTP_MAX_ATTEMPTS ∧
        (∃ g', gs !! k = Some g' ∧ hashCode g'.2 = otp_codeHash row) ∧
        ∀ j g', (j < k)%nat → gs !! j = Some g' → hashCode g'.2 ≠ otp_codeHash row) →
      ∀ k, P k ↔ Z.of_nat k + otp_attempts row < OTP_MAX_ATTEMPTS ∧
        (∃ g', ((now, g) :: gs) !! k = Some g' ∧ hashCode g'.2 = otp_codeHash row) ∧
        ∀ j g', (j < k)%nat → ((now, g) :: gs) !! j = Some g' → hashCode g'.2 ≠ otp_codeHash row).
    { intros P H0 HS [|k']; [rewrite H0; split; [done|]; intros (_ & (? & [= <-] & He) & _); by destruct E|].
      rewrite HS. simpl. split; intros (H1 & H2 & H3); (split_and!; [done..|]); intros j g' Hj Hg.
      - destruct j as [|j]; simplify_eq/=; [by intros He; destruct E|]. eapply (H3 j); [lia|done].
      - eapply (H3 (S j)); [lia|done]. }
    destruct (Z.leb_spec OTP_MAX_ATTEMPTS (otp_attempts row + 1)) as [Hmax|Hmax].
    + destruct (guess identifier gs others) as [rs db'] eqn:Eg. simpl. revert k. apply Hstep; [done|].
      intros k. split; [|lia]. intros Hk. exfalso. apply (guess_none identifier (otp_id row) gs others Ha k). by rewrite Eg.
    + destruct (guess identifier gs (others ++ [bump row])) as [rs db'] eqn:Eg. simpl. revert k. apply Hstep; [done|].
      intros k. specialize (IH (bump row)). rewrite Eg in IH. simpl in *.
      rewrite IH by done. split; intros (? & ? & ?); split_and!; try done; lia.
Qed.

End Otp.

(** ** Properties *)

(** of the guesses made one after the other on a fresh code before it expires, exactly
    the first right one succeeds, if it is among the first five: a mailed code works once, and
    five wrong guesses burn it. *)
Theorem otp_sequential hmac now id draw identifier db gs k :
  id ∉ map otp_id db → Forall (fun g => g.1 < now + OTP_TTL_MS) gs →
  let '(code, db1) := run_solo (createSignInOtp hmac now id draw identifier) db in
  let right := fun g : Z * string => hashCode hmac g.2 = hashCode hmac code in
  (guess hmac identifier gs db1).1 !! k = Some OtpOk ↔
    (k < 5)%nat ∧ (∃ g, gs !! k = Some g ∧ right g) ∧
    ∀ j g, (j < k)%nat → gs !! j = Some g → ¬ right g.
Proof.
  intros Hid Hgs. cbn [run_solo createSignInOtp mbind thread_bind thread_bind_ write act mret thread_ret snd].
  rewrite guess_row; simpl; [| |done..].
  - unfold OTP_MAX_ATTEMPTS. split; intros (? & ? & ?); split_and!; try done; lia.
  - unfold apart, deleteCodes. rewrite Forall_forall. intros r [Hr Hin]%list_elem_of_filter. split; [done|].
    intros <-. apply Hid. by apply list_elem_of_fmap_2.
Qed.

(** The library of a test, and draws that give the code 23456789. *)
Definition demo_hmac (s : string) : string := "h:" +:+ s.

Lemma otp_sequential_witness :
  (guess demo_hmac "me@x.org" [(1, "00000000"); (2, "2345-6789"); (3, "23456789")]
    (run_solo (createSignInOtp demo_hmac 0 "row" (fun i => i) "me@x.org") []).2).1 !! 1%nat = Some OtpOk.
Proof.
  apply (otp_sequential demo_hmac 0 "row" (fun i => i) "me@x.org" []
    [(1, "00000000"); (2, "2345-6789"); (3, "23456789")] 1%nat).
  - apply not_elem_of_nil.
  - repeat constructor; simpl; unfold OTP_TTL_MS; lia.
  - split_and!; [lia|by eexists|]. intros [|j] g Hj Hg; [|lia]. by simplify_eq/=.
Defined.

(** Seven wrong guesses and the right code twice. *)
Definition demo_parallel : list (thread (list OtpRow) OtpVerifyResult) :=
  map (verifySignInOtp demo_hmac 1 "me@x.org")
      ["A"; "B"; "C"; "D"; "E"; "F"; "G"; "23456789"; "23456789"].

(** Each request reads the code first; then each runs to its end. *)
Definition demo_schedule : list nat := seq 0 9 ++ (seq 0 9 ≫= fun i => [i; i; i; i]).

(** Requests that overlap escape the lockout and the single use: seven wrong guesses that
    read the code together are each compared with it before the code is burned, and the right
    code then succeeds twice. *)
Theorem otp_parallel_guesses :
  returned (pool_run demo_schedule (demo_parallel,
    (run_solo (createSignInOtp demo_hmac 0 "row" (fun i => i) "me@x.org") []).2)).1 =
  [OtpMismatch; OtpMismatch; OtpMismatch; OtpMismatch; OtpLockedOut; OtpLockedOut; OtpLockedOut; OtpOk; OtpOk].
Proof. by vm_compute. Qed.
