(* ===== verification/PairProtocol.v ===== *)
(** * The wire formats of the private identity (packages/shared: pair-protocol.ts,
    anon-seed-crypto.ts, anon-seed-codec.ts)

    Base64url, the QR text of device pairing, the relay body, the strings that bind sealed and
    wrapped roots to their context, and the key derivations. Bytes are integers below 256.
    SHA-256, HKDF, AES-GCM, HPKE and base58check are parameters, and so are the draws of the
    platform's generator. [None] is a throw. *)

From S2P Require Import Prelude RateLimit SignInOtp.

Open Scope Z_scope.

Abbreviation Bytes := (list Z).
Definition is_byte (b : Z) : Prop := 0 <= b < 256.

(** ** Base64url, without padding *)

(** The sextets of bytes: three bytes give four, a rest of one or two gives two or three. *)
Fixpoint sextets (l : Bytes) : list Z :=
  match l with
  | a :: b :: c :: l' => a / 4 :: (a mod 4) * 16 + b / 16 :: (b mod 16) * 4 + c / 64 :: c mod 64 :: sextets l'
  | [a; b] => [a / 4; (a mod 4) * 16 + b / 16; (b mod 16) * 4]
  | [a] => [a / 4; (a mod 4) * 16]
  | [] => []
  end.

(** The bytes of sextets; a rest of one is refused, the low bits of a rest are dropped. *)
Fixpoint unsextets (l : list Z) : option Bytes :=
  match l with
  | a :: b :: c :: d :: l' =>
      rest ← unsextets l'; Some (a * 4 + b / 16 :: (b mod 16) * 16 + c / 4 :: (c mod 4) * 64 + d :: rest)
  | [a; b; c] => Some [a * 4 + b / 16; (b mod 16) * 16 + c / 4]
  | [a; b] => Some [a * 4 + b / 16]
  | [_] => None
  | [] => Some []
  end.

Definition BASE64URL_ALPHABET : list Ascii.ascii :=
  String.list_ascii_of_string "ABCDEFGHIJKLMNOPQRSTUVWXYZabcdefghijklmnopqrstuvwxyz0123456789-_".

Definition sextetChar (x : Z) : Ascii.ascii := default "A"%char (BASE64URL_ALPHABET !! Z.to_nat x).
Definition charSextet (c : Ascii.ascii) : option Z := (fun p => Z.of_nat p.1) <$> list_find (fun d => d = c) BASE64URL_ALPHABET.

Definition toBase64Url (bytes : Bytes) : string := String.string_of_list_ascii (map sextetChar (sextets bytes)).

Definition fromBase64Url (value : string) : option Bytes :=
  l ← mapM charSextet (String.list_ascii_of_string value); unsextets l.

(** [/^[A-Za-z0-9_-]+$/] *)
Definition BASE64URL_RE (value : string) : bool :=
  negb (bool_decide (value = "")) && all_chars (fun c => bool_decide (is_Some (charSextet c))) value.

Definition decodeExact (value : string) (expectedBytes : nat) : option Bytes :=
  if negb (BASE64URL_RE value) then None
  else
    bytes ← fromBase64Url value;
    if negb (Nat.eqb (length bytes) expectedBytes) || negb (bool_decide (toBase64Url bytes = value)) then None else Some bytes.

(** ** Sizes *)

Definition PAIR_SESSION_ID_BYTES : nat := 16.
Definition PAIR_SESSION_ID_B64_LEN : nat := 22.
Definition PAIR_PUBLIC_KEY_BYTES : nat := 32.
Definition PAIR_PUBLIC_KEY_B64_LEN : nat := 43.
Definition PAIR_ROOT_BYTES : nat := 16.
Definition PAIR_ENC_BYTES : nat := 32.
Definition PAIR_CT_BYTES : nat := PAIR_ROOT_BYTES + 16.
Definition PAIR_RELAY_BODY_BYTES : nat := PAIR_ENC_BYTES + PAIR_CT_BYTES.
Definition PAIR_RELAY_BODY_B64_LEN : nat := 86.
Definition PAIR_CODE_LENGTH : nat := 4.
Definition ROOT_SEED_BYTES : nat := 16.
Definition PER_APP_SECRET_BYTES : nat := 32.
Definition PRF_OUTPUT_BYTES : nat := 32.
Definition WRAP_IV_BYTES : nat := 12.
Definition WRAP_CIPHERTEXT_BYTES : nat := ROOT_SEED_BYTES + 16.

(** ** The text of the QR code *)

Definition PAIR_QR_PREFIX : string := "MP1.".

Definition isValidSessionId (sessionId : string) : bool :=
  if negb (Nat.eqb (String.length sessionId) PAIR_SESSION_ID_B64_LEN) then false
  else match decodeExact sessionId PAIR_SESSION_ID_BYTES with Some _ => true | None => false end.

Definition encodePairQr (sessionId : string) (publicKey : Bytes) : option string :=
  if negb (isValidSessionId sessionId) then None
  else if negb (Nat.eqb (length publicKey) PAIR_PUBLIC_KEY_BYTES) then None
  else Some (PAIR_QR_PREFIX +:+ sessionId +:+ "." +:+ toBase64Url publicKey).

(** The part after a prefix. *)
Fixpoint dropPrefix (p s : string) : option string :=
  match p, s with
  | EmptyString, _ => Some s
  | String a p', String b s' => if decide (a = b) then dropPrefix p' s' else None
  | String _ _, EmptyString => None
  end.

Definition parsePairQr (text : string) : option (string * Bytes) :=
  rest ← dropPrefix PAIR_QR_PREFIX text;
  match split_on "."%char rest with
  | [sessionId; pk] =>
      if negb (Nat.eqb (String.length sessionId) PAIR_SESSION_ID_B64_LEN) || negb (Nat.eqb (String.length pk) PAIR_PUBLIC_KEY_B64_LEN) then None
      else _ ← decodeExact sessionId PAIR_SESSION_ID_BYTES; publicKey ← decodeExact pk PAIR_PUBLIC_KEY_BYTES; Some (sessionId, publicKey)
  | _ => None
  end.

Definition encodeRelayBody (body : Bytes) : option string :=
  if negb (Nat.eqb (length body) PAIR_RELAY_BODY_BYTES) then None else Some (toBase64Url body).

Definition decodeRelayBody (value : string) : option Bytes := decodeExact value PAIR_RELAY_BODY_BYTES.

(** ** Bound contexts *)

Definition PAIR_HPKE_INFO : string := "ministry/pair/v1".
Definition PAIR_AAD_PREFIX : string := "ministry/pair/v1|".

(** Not empty, and free of the separator. *)
Definition separable (sep : Ascii.ascii) (value : string) : bool :=
  negb (bool_decide (value = "")) && all_chars (fun c => negb (bool_decide (c = sep))) value.

Definition assertAadField (value : string) : bool := separable "|"%char value.

(** The string that is encoded. *)
Definition buildPairAad (userId sessionId : string) (epoch : Z) : option string :=
  let epochStr := pretty epoch in
  if assertAadField userId && assertAadField sessionId && assertAadField epochStr
  then Some (PAIR_AAD_PREFIX +:+ userId +:+ "|" +:+ sessionId +:+ "|" +:+ epochStr)
  else None.

Definition WRAP_AAD_PREFIX : string := "minister/anon-seed/blob/v1:".

Record SeedWrapAad := { sa_userId : string; sa_credentialId : string; sa_wrapVersion : Z; sa_enrollmentEpoch : Z }.

Definition assertAadPart (value : string) : bool := separable ":"%char value.

(** A safe integer from 1. *)
Definition assertAadCounter (value : Z) : bool := (1 <=? value) && (value <=? 9007199254740991).

Definition buildWrapAad (aad : SeedWrapAad) : option string :=
  if assertAadPart (sa_userId aad) && assertAadPart (sa_credentialId aad)
     && assertAadCounter (sa_wrapVersion aad) && assertAadCounter (sa_enrollmentEpoch aad)
  then Some (WRAP_AAD_PREFIX +:+ sa_userId aad +:+ ":" +:+ sa_credentialId aad +:+ ":" +:+ pretty (sa_wrapVersion aad)
             +:+ ":" +:+ pretty (sa_enrollmentEpoch aad))
  else None.

(** ** Primitives *)

(** A key pair, of which only the public half is serialized. [seal] draws its randomness from
    the last argument; [open] and [decrypt] return [None] when authentication fails. *)
Record SeedWorld := {
  KeyPair : Type;
  sw_publicKey : KeyPair → Bytes;
  sw_seal : Bytes → string → Bytes → string → Bytes → Bytes * Bytes;
  sw_open : KeyPair → Bytes → string → Bytes → string → option Bytes;
  sw_sha256 : Bytes → Bytes;
  sw_hkdf : Bytes → string → string → nat → Bytes;
  sw_encrypt : Bytes → Bytes → string → Bytes → Bytes;
  sw_decrypt : Bytes → Bytes → string → Bytes → option Bytes;
  sw_base58check : Bytes → string;
  sw_unbase58check : string → option Bytes;
}.

Section Primitives.
Context (w : SeedWorld).

(** *** HPKE *)

(** The relay body: the encapsulated key, then the ciphertext. *)
Definition sealRoot (recipientPublicKey root : Bytes) (userId sessionId : string) (epoch : Z) (draw : Bytes) : option Bytes :=
  if negb (Nat.eqb (length recipientPublicKey) PAIR_PUBLIC_KEY_BYTES) then None
  else if negb (Nat.eqb (length root) PAIR_ROOT_BYTES) then None
  else
    aad ← buildPairAad userId sessionId epoch;
    let '(enc, ct) := sw_seal w recipientPublicKey PAIR_HPKE_INFO root aad draw in
    if negb (Nat.eqb (length enc) PAIR_ENC_BYTES) || negb (Nat.eqb (length ct) PAIR_CT_BYTES) then None
    else Some (enc ++ ct).

Definition openRoot (recipientKeyPair : KeyPair w) (relayBody : Bytes) (userId sessionId : string) (epoch : Z) : option Bytes :=
  if negb (Nat.eqb (length relayBody) PAIR_RELAY_BODY_BYTES) then None
  else
    aad ← buildPairAad userId sessionId epoch;
    root ← sw_open w recipientKeyPair (take PAIR_ENC_BYTES relayBody) PAIR_HPKE_INFO (drop PAIR_ENC_BYTES relayBody) aad;
    if negb (Nat.eqb (length root) PAIR_ROOT_BYTES) then None else Some root.

(** *** The pairing code *)

Definition PAIR_CODE_INFO : string := "ministry/pair/code/v1".
Definition PAIR_CODE_ALPHABET : list Ascii.ascii := String.list_ascii_of_string "ABCDEFGHIJKLMNOPQRSTUVWXYZ234567".

Definition utf8 (s : string) : Bytes := map (fun c => Z.of_nat (Ascii.nat_of_ascii c)) (String.list_ascii_of_string s).

Definition derivePairCode (sessionId : string) (publicKey : Bytes) : option string :=
  if negb (isValidSessionId sessionId) then None
  else if negb (Nat.eqb (length publicKey) PAIR_PUBLIC_KEY_BYTES) then None
  else
    sessionIdBytes ← fromBase64Url sessionId;
    let digest := sw_sha256 w (utf8 PAIR_CODE_INFO ++ sessionIdBytes ++ publicKey) in
    Some (String.string_of_list_ascii
            (omap (fun b => PAIR_CODE_ALPHABET !! Z.to_nat (Z.land b 31)) (take PAIR_CODE_LENGTH digest))).

Definition checkPairCode (sessionId : string) (publicKey : Bytes) (typed : string) : option bool :=
  expected ← derivePairCode sessionId publicKey; Some (bool_decide (toUpperCase (trim typed) = expected)).

(** *** Derivation *)

(** [/^[a-z0-9-]{3,32}$/] *)
Definition ANON_APP_ID_PATTERN (s : string) : bool :=
  Nat.leb 3 (String.length s) && Nat.leb (String.length s) 32
  && all_chars (fun c => is_lower_letter c || is_digit_char c || bool_decide (c = "-"%char)) s.

Definition APP_HKDF_SALT : string := "ministry/anon/v1".
Definition APP_HKDF_INFO_PREFIX : string := "ministry/v1/rp/".
Definition WRAP_KEK_SALT : string := "minister/anon-seed/wrap/v1".
Definition WRAP_KEK_INFO : string := "minister/anon-seed/wrap/v1:aes-256-gcm".

Definition appInfo (anonAppId : string) (epoch : Z) : string := APP_HKDF_INFO_PREFIX +:+ anonAppId +:+ "/" +:+ pretty epoch.

Definition deriveAppSecretFromSeed (seed : Bytes) (anonAppId : string) (epoch : Z) : option Bytes :=
  if negb (Nat.eqb (length seed) ROOT_SEED_BYTES) then None
  else if negb (ANON_APP_ID_PATTERN anonAppId) then None
  else if negb (assertAadCounter epoch) then None
  else Some (sw_hkdf w seed APP_HKDF_SALT (appInfo anonAppId epoch) PER_APP_SECRET_BYTES).

(** *** The wrap under a passkey *)

Definition deriveWrapKek (prfOutput : Bytes) : option Bytes :=
  if negb (Nat.eqb (length prfOutput) PRF_OUTPUT_BYTES) then None else Some (sw_hkdf w prfOutput WRAP_KEK_SALT WRAP_KEK_INFO 32).

Record WrappedSeed := { ws_ciphertext : Bytes; ws_iv : Bytes }.

Definition wrapSeed (seed prfOutput : Bytes) (aad : SeedWrapAad) (iv : Bytes) : option WrappedSeed :=
  if negb (Nat.eqb (length seed) ROOT_SEED_BYTES) then None
  else
    aadStr ← buildWrapAad aad; kek ← deriveWrapKek prfOutput;
    let ciphertext := sw_encrypt w kek iv aadStr seed in
    if negb (Nat.eqb (length ciphertext) WRAP_CIPHERTEXT_BYTES) then None else Some {| ws_ciphertext := ciphertext; ws_iv := iv |}.

Definition unwrapSeed (blob : WrappedSeed) (prfOutput : Bytes) (aad : SeedWrapAad) : option Bytes :=
  if negb (Nat.eqb (length (ws_iv blob)) WRAP_IV_BYTES) then None
  else if negb (Nat.eqb (length (ws_ciphertext blob)) WRAP_CIPHERTEXT_BYTES) then None
  else
    aadStr ← buildWrapAad aad; kek ← deriveWrapKek prfOutput;
    seed ← sw_decrypt w kek (ws_iv blob) aadStr (ws_ciphertext blob);
    if negb (Nat.eqb (length seed) ROOT_SEED_BYTES) then None else Some seed.

(** *** The backup string *)

Definition SEED_VERSION_BYTE : Z := 10.

Definition encodeSeedToString (seed : Bytes) : option string :=
  if negb (Nat.eqb (length seed) ROOT_SEED_BYTES) then None else Some (sw_base58check w (SEED_VERSION_BYTE :: seed)).

Definition decodeStringToSeed (input : string) : option Bytes :=
  versioned ← sw_unbase58check w (trim input);
  if negb (Nat.eqb (length versioned) (ROOT_SEED_BYTES + 1)) then None
  else match versioned with
       | v :: seed => if negb (v =? SEED_VERSION_BYTE) then None else Some seed
       | [] => None
       end.

End Primitives.

(** ** Base64url round-trips *)

(** Induction by three. *)
Lemma bytes_ind3 (P : Bytes → Prop) :
  P [] → (∀ a, P [a]) → (∀ a b, P [a; b]) → (∀ a b c l, P l → P (a :: b :: c :: l)) → ∀ l, P l.
Proof.
  intros H0 H1 H2 H3. assert (Hall : ∀ n l, (length l <= n)%nat → P l); [|intros l; by apply (Hall (length l))].
  induction n as [|n IH]; intros [|a [|b [|c l]]] Hl; simpl in Hl; auto; try lia. apply H3, IH. lia.
Qed.

Lemma unsextets_sextets l : Forall is_byte l → unsextets (sextets l) = Some l.
Proof.
  induction l as [|a|a b|a b c l IH] using bytes_ind3; intros Hl; rewrite ?Forall_cons in Hl; unfold is_byte in Hl; [done| | |].
  - simpl. do 2 f_equal. Z.to_euclidean_division_equations. lia.
  - simpl. do 2 f_equal; [|f_equal]; Z.to_euclidean_division_equations; lia.
  - cbn [sextets unsextets]. rewrite IH by tauto. cbn [mbind option_bind]. destruct Hl as (Ha & Hb & Hc & _).
    f_equal. f_equal; [|f_equal; [|f_equal]]; Z.to_euclidean_division_equations; lia.
Qed.

Lemma sextets_range l : Forall is_byte l → Forall (fun x => 0 <= x < 64) (sextets l).
Proof.
  induction l as [|a|a b|a b c l IH] using bytes_ind3; intros Hl; rewrite ?Forall_cons in Hl; unfold is_byte in Hl; cbn [sextets].
  - constructor.
  - repeat constructor; Z.to_euclidean_division_equations; lia.
  - repeat constructor; Z.to_euclidean_division_equations; lia.
  - repeat (constructor; [Z.to_euclidean_division_equations; lia|]). apply IH. tauto.
Qed.

Lemma sextets_length l : length (sextets l) = ((4 * length l + 2) `div` 3)%nat.
Proof.
  induction l as [|a|a b|a b c l IH] using bytes_ind3; [done|done|done|]. cbn [sextets length]. rewrite IH.
  replace (4 * S (S (S (length l))) + 2)%nat with (4 * length l + 2 + 4 * 3)%nat by lia. rewrite Nat.div_add by done. lia.
Qed.

Lemma charSextet_char x : 0 <= x < 64 → charSextet (sextetChar x) = Some x.
Proof.
  intros Hx. assert (Hall : forallb (fun n => bool_decide (charSextet (sextetChar (Z.of_nat n)) = Some (Z.of_nat n))) (seq 0 64) = true)
    by (vm_compute; reflexivity).
  rewrite forallb_forall in Hall. specialize (Hall (Z.to_nat x)). rewrite Z2Nat.id in Hall by lia.
  apply (bool_decide_eq_true _), Hall, in_seq. lia.
Qed.

#[local] Arguments charSextet : simpl never.
#[local] Arguments sextetChar : simpl never.

Lemma mapM_sextets l : Forall (fun x => 0 <= x < 64) l → mapM charSextet (map sextetChar l) = Some l.
Proof. induction 1 as [|x l Hx Hl IH]; [done|]. simpl. rewrite charSextet_char by done. simpl. by rewrite IH. Qed.

Lemma fromBase64Url_to bytes : Forall is_byte bytes → fromBase64Url (toBase64Url bytes) = Some bytes.
Proof.
  intros Hb. unfold fromBase64Url, toBase64Url. rewrite String.list_ascii_of_string_of_list_ascii, mapM_sextets by (by apply sextets_range).
  by apply unsextets_sextets.
Qed.

Lemma toBase64Url_length bytes : String.length (toBase64Url bytes) = ((4 * length bytes + 2) `div` 3)%nat.
Proof.
  unfold toBase64Url. rewrite <-sextets_length. induction (sextets bytes) as [|x l IH]; [done|]. cbn. by rewrite IH.
Qed.

(** What decodes has exactly one spelling, the encoder's. *)
Lemma decodeExact_inv value n bytes : decodeExact value n = Some bytes → length bytes = n ∧ toBase64Url bytes = value ∧ fromBase64Url value = Some bytes.
Proof.
  unfold decodeExact. destruct (BASE64URL_RE value); [|done]. simpl. destruct (fromBase64Url value) as [b|]; [|done]. simpl.
  destruct (Nat.eqb_spec (length b) n); [|done]. case_bool_decide; [|done]. simpl. intros. by simplify_eq.
Qed.

Lemma toBase64Url_nonempty bytes : bytes ≠ [] → toBase64Url bytes ≠ "".
Proof.
  intros Hb E. apply (f_equal String.length) in E. rewrite toBase64Url_length in E. destruct bytes as [|b l]; [done|]. cbn [length String.length] in E.
  pose proof (Nat.div_le_lower_bound (4 * S (length l) + 2) 3 1). lia.
Qed.

Lemma all_chars_map {A} (f : Ascii.ascii → bool) (g : A → Ascii.ascii) l :
  Forall (fun x => f (g x) = true) l → all_chars f (String.string_of_list_ascii (map g l)) = true.
Proof.
  unfold all_chars. rewrite String.list_ascii_of_string_of_list_ascii. intros H. apply forallb_forall. intros c Hc%in_map_iff.
  destruct Hc as (x & <- & Hx). eapply Forall_forall in H; [done|]. by apply list_elem_of_In.
Qed.

Lemma decodeExact_to bytes n : Forall is_byte bytes → bytes ≠ [] → length bytes = n → decodeExact (toBase64Url bytes) n = Some bytes.
Proof.
  intros Hb Hne Hn. unfold decodeExact, BASE64URL_RE. rewrite bool_decide_false by (by apply toBase64Url_nonempty). simpl.
  unfold toBase64Url at 1. rewrite all_chars_map.
  2: { eapply Forall_impl; [by apply sextets_range|]. intros x Hx. simpl. rewrite charSextet_char by done. by apply bool_decide_eq_true. }
  simpl. rewrite fromBase64Url_to by done. simpl. rewrite Hn, Nat.eqb_refl. by rewrite bool_decide_true.
Qed.

(** No character of the alphabet is a dot. *)
Lemma toBase64Url_dotless bytes : Forall is_byte bytes → split_on "."%char (toBase64Url bytes) = [toBase64Url bytes].
Proof.
  intros Hb. apply split_on_free, all_chars_map. eapply Forall_impl; [by apply sextets_range|]. intros x Hx. cbv beta.
  apply negb_true_iff, bool_decide_eq_false. intros E. pose proof (charSextet_char x Hx) as Hc. rewrite E in Hc. by vm_compute in Hc.
Qed.

Lemma decoded_bytes value bytes : fromBase64Url value = Some bytes → Forall is_byte bytes.
Proof.
  unfold fromBase64Url. intros (l & Hm & Hu)%bind_Some. apply mapM_Some_1 in Hm.
  assert (Hl : Forall (fun x => 0 <= x < 64) l).
  { clear Hu. induction Hm as [|c x cs l Hc _ IH]; constructor; [|done]. unfold charSextet in Hc.
    apply fmap_Some in Hc as ([i d] & Hf & ->). apply list_find_Some in Hf as (Hi & _). apply lookup_lt_Some in Hi.
    change (length BASE64URL_ALPHABET) with 64%nat in Hi. simpl. lia. }
  clear Hm. revert bytes Hu. assert (Hall : ∀ n l, (length l <= n)%nat → Forall (fun x => 0 <= x < 64) l → ∀ bytes, unsextets l = Some bytes → Forall is_byte bytes);
    [|intros bytes; by apply (Hall (length l))].
  clear l Hl. induction n as [|n IH]; intros [|a [|b [|c [|d l]]]] Hn Hl bytes Hu; simpl in Hn; try lia; rewrite ?Forall_cons in Hl;
    cbn [unsextets] in Hu; simplify_eq; unfold is_byte.
  all: try (by repeat constructor).
  all: try (repeat constructor; Z.to_euclidean_division_equations; lia).
  apply bind_Some in Hu as (rest & Hr & E). simplify_eq.
  repeat (constructor; [Z.to_euclidean_division_equations; lia|]). eapply IH; [|apply Hl|done]. lia.
Qed.

Lemma dropPrefix_app p s : dropPrefix p (p +:+ s) = Some s.
Proof.
  induction p as [|c p IH]; [done|]. change (String c p +:+ s) with (String c (p +:+ s)). cbn [dropPrefix]. by rewrite decide_True.
Qed.

Lemma dropPrefix_inv p t s : dropPrefix p t = Some s → t = p +:+ s.
Proof.
  revert t. induction p as [|c p IH]; intros t; cbn [dropPrefix]; [naive_solver|]. destruct t as [|d t]; [done|]. case_decide; [|done].
  subst. intros E. change (String d p +:+ s) with (String d (p +:+ s)). by rewrite (IH t E).
Qed.

Lemma split_on_one d s p : split_on d s = [p] → s = p.
Proof.
  revert p. induction s as [|c s IH]; intros p; cbn [split_on]; [naive_solver|]. case_decide.
  - destruct (split_on_cons d s) as (q & qs & ->). done.
  - destruct (split_on d s) as [|q [|]] eqn:E; intros; simplify_eq; [by destruct (split_on_cons d s) as (? & ? & ?); congruence|].
    by rewrite (IH q).
Qed.

Lemma split_on_join d s p q : split_on d s = [p; q] → s = p +:+ String d q.
Proof.
  revert p q. induction s as [|c s IH]; intros p q; cbn [split_on]; [done|]. case_decide as Hd.
  - subst. intros E. injection E as <- E. apply split_on_one in E. by subst.
  - destruct (split_on d s) as [|x xs] eqn:E; intros; simplify_eq. by rewrite (IH x q).
Qed.

Lemma app_assoc_str (a b c : string) : (a +:+ b) +:+ c = a +:+ b +:+ c.
Proof. induction a as [|x a IH]; [done|]. change (String x a +:+ b) with (String x (a +:+ b)).
  change (String x (a +:+ b) +:+ c) with (String x ((a +:+ b) +:+ c)). by rewrite IH. Qed.

(** The text of the QR code and what it carries determine each other: a code that was
    encoded is parsed back to the same session and key, and a text is accepted only when it is
    the encoding of what it is parsed to, so that nothing foreign, truncated or respelled is
    ever a target to seal to. *)
Theorem qr_roundtrip :
  (∀ sessionId publicKey text, Forall is_byte publicKey →
     encodePairQr sessionId publicKey = Some text → parsePairQr text = Some (sessionId, publicKey)) ∧
  (∀ text sessionId publicKey,
     parsePairQr text = Some (sessionId, publicKey) → encodePairQr sessionId publicKey = Some text ∧ Forall is_byte publicKey).
Proof.
  split.
  - intros sid pk text Hb. unfold encodePairQr, isValidSessionId.
    destruct (Nat.eqb_spec (String.length sid) PAIR_SESSION_ID_B64_LEN) as [Hl|]; [|done]. simpl.
    destruct (decodeExact sid PAIR_SESSION_ID_BYTES) as [b|] eqn:Es; [|done]. simpl.
    destruct (Nat.eqb_spec (length pk) PAIR_PUBLIC_KEY_BYTES) as [Hk|]; [|done]. simpl. intros E. injection E as <-.
    destruct (decodeExact_inv _ _ _ Es) as (_ & Hsid & Hfrom). unfold parsePairQr. rewrite dropPrefix_app. cbn [mbind option_bind].
    change (sid +:+ "." +:+ toBase64Url pk) with (sid +:+ String "."%char (toBase64Url pk)). rewrite split_on_app.
    rewrite <-Hsid at 1. rewrite toBase64Url_dotless by (by eapply decoded_bytes). rewrite toBase64Url_dotless by done. rewrite Hsid. cbn [app].
    rewrite Hl, Nat.eqb_refl, toBase64Url_length, Hk. cbn [negb orb]. rewrite Es. simpl. rewrite decodeExact_to; [done|done|by destruct pk|done].
  - intros text sid pk E. unfold parsePairQr in E. apply bind_Some in E as (rest & Ht%dropPrefix_inv & E).
    destruct (split_on "."%char rest) as [|s [|k [|]]] eqn:Es; try done. apply split_on_join in Es.
    destruct (Nat.eqb_spec (String.length s) PAIR_SESSION_ID_B64_LEN) as [Hl|]; [|done]. destruct (Nat.eqb _ _); [|done]. simpl in E.
    apply bind_Some in E as (b & Eb & E). apply bind_Some in E as (pk' & Ek & E). simplify_eq.
    destruct (decodeExact_inv _ _ _ Ek) as (Hpk & <- & Hfrom). split; [|by eapply decoded_bytes].
    unfold encodePairQr, isValidSessionId. rewrite Hl, Nat.eqb_refl. simpl. rewrite Eb. simpl. by rewrite Hpk, Nat.eqb_refl.
Qed.

Lemma qr_roundtrip_witness :
  parsePairQr (PAIR_QR_PREFIX +:+ toBase64Url (replicate 16 9) +:+ "." +:+ toBase64Url (replicate 32 200)) = Some (toBase64Url (replicate 16 9), replicate 32 200).
Proof. apply (proj1 qr_roundtrip); [apply Forall_replicate; unfold is_byte; lia|vm_compute; reflexivity]. Defined.

(** ** Bound contexts determine their fields *)

Lemma app_inj_str (p a b : string) : p +:+ a = p +:+ b → a = b.
Proof. induction p as [|c p IH]; [done|]. intros E. apply IH. by injection E. Qed.

Lemma separable_split d s : separable d s = true → split_on d s = [s].
Proof. unfold separable. intros [_ H]%andb_true_iff. by apply split_on_free. Qed.

Lemma go_digits x s : all_chars is_digit_char s = true → all_chars is_digit_char (pretty_N_go x s) = true.
Proof.
  revert s. induction (N.lt_wf_0 x) as [x _ IH]. intros s Hs. destruct (decide (x = 0)%N) as [->|Hx]; [done|].
  rewrite pretty_N_go_step by lia. apply IH; [apply N.div_lt; lia|]. unfold all_chars in *.
  cbn [String.list_ascii_of_string forallb]. rewrite Hs, andb_true_r. unfold pretty_N_char. by repeat case_match.
Qed.

Lemma pretty_Z_digits n : 0 <= n → all_chars is_digit_char (pretty n) = true.
Proof.
  intros Hn. destruct n as [|p|p]; [done| |lia]. change (pretty (Z.pos p)) with (pretty (N.pos p)).
  unfold pretty, pretty_N. rewrite decide_False by done. by apply go_digits.
Qed.

Lemma digit_separable d n : is_digit_char d = false → 0 <= n → split_on d (pretty n) = [pretty n].
Proof.
  intros Hd Hn. apply split_on_free. pose proof (pretty_Z_digits n Hn) as H. unfold all_chars in *. rewrite forallb_forall in *. intros c Hc.
  specialize (H c Hc). apply negb_true_iff, bool_decide_eq_false. intros ->. congruence.
Qed.

Lemma split_on_sep d a b : split_on d (a +:+ String d EmptyString +:+ b) = split_on d a ++ split_on d b.
Proof. apply split_on_app. Qed.

Lemma buildPairAad_inj u s e u' s' e' a : buildPairAad u s e = Some a → buildPairAad u' s' e' = Some a → u = u' ∧ s = s' ∧ e = e'.
Proof.
  unfold buildPairAad, assertAadField.
  destruct (separable "|"%char u && separable "|"%char s && separable "|"%char (pretty e)) eqn:E1; [|done].
  destruct (separable "|"%char u' && separable "|"%char s' && separable "|"%char (pretty e')) eqn:E2; [|done]. intros H1 H2. injection H1 as <-. injection H2 as H.
  apply andb_true_iff in E1 as [[Hu Hs]%andb_true_iff He]. apply andb_true_iff in E2 as [[Hu' Hs']%andb_true_iff He'].
  apply app_inj_str in H. apply (f_equal (split_on "|"%char)) in H. rewrite !split_on_sep, !separable_split in H by done. cbn [app] in H.
  injection H as -> -> H%(inj pretty). done.
Qed.

Lemma buildWrapAad_inj x y a : buildWrapAad x = Some a → buildWrapAad y = Some a → x = y.
Proof.
  unfold buildWrapAad, assertAadPart, assertAadCounter. destruct x as [u c v e], y as [u' c' v' e']. cbn [sa_userId sa_credentialId sa_wrapVersion sa_enrollmentEpoch].
  case_match eqn:E1; [|done]. case_match eqn:E2; [|done]. intros H1 H2. injection H1 as <-. injection H2 as H.
  rewrite !andb_true_iff, !Z.leb_le in E1, E2. destruct E1 as [[[Hu Hc] Hv] He], E2 as [[[Hu' Hc'] Hv'] He'].
  apply app_inj_str in H. apply (f_equal (split_on ":"%char)) in H.
  rewrite !split_on_sep, !(digit_separable ":"%char) in H by (done || lia). rewrite !separable_split in H by done. cbn [app] in H.
  injection H as -> -> ->%(inj pretty) ->%(inj pretty). done.
Qed.

(** ** What is sealed or wrapped opens in its context only *)

(** The primitives invert each other on what they produced. *)
Class SeedWorldLaws (w : SeedWorld) := {
  open_seal : ∀ kp info m aad draw, sw_open w kp (sw_seal w (sw_publicKey w kp) info m aad draw).1 info (sw_seal w (sw_publicKey w kp) info m aad draw).2 aad = Some m;
  decrypt_encrypt : ∀ k iv aad m, sw_decrypt w k iv aad (sw_encrypt w k iv aad m) = Some m;
}.

(** The sizes of X25519 keys and of AES-GCM ciphertexts, which are bytes. *)
Class SeedWorldShapes (w : SeedWorld) := {
  publicKey_length : ∀ kp, length (sw_publicKey w kp) = PAIR_PUBLIC_KEY_BYTES;
  seal_lengths : ∀ pk info m aad draw, length (sw_seal w pk info m aad draw).1 = PAIR_ENC_BYTES ∧ length (sw_seal w pk info m aad draw).2 = (length m + 16)%nat;
  seal_bytes : ∀ pk info m aad draw, Forall is_byte m → Forall is_byte ((sw_seal w pk info m aad draw).1 ++ (sw_seal w pk info m aad draw).2);
}.

(** A ciphertext that opens under another context than it was made for. *)
Definition hpke_forged (w : SeedWorld) (kp : KeyPair w) (pk root : Bytes) (aad aad' : string) (draw opened : Bytes) : Prop :=
  aad ≠ aad' ∧ let '(enc, ct) := sw_seal w pk PAIR_HPKE_INFO root aad draw in sw_open w kp enc PAIR_HPKE_INFO ct aad' = Some opened.

Definition aead_forged (w : SeedWorld) (k k' iv : Bytes) (aad aad' : string) (seed opened : Bytes) : Prop :=
  (k, aad) ≠ (k', aad') ∧ sw_decrypt w k' iv aad' (sw_encrypt w k iv aad seed) = Some opened.

Lemma sealRoot_inv w pk root u s e draw body :
  sealRoot w pk root u s e draw = Some body → ∃ aad, buildPairAad u s e = Some aad ∧ length root = PAIR_ROOT_BYTES ∧
    length body = PAIR_RELAY_BODY_BYTES ∧ take PAIR_ENC_BYTES body = (sw_seal w pk PAIR_HPKE_INFO root aad draw).1 ∧
    drop PAIR_ENC_BYTES body = (sw_seal w pk PAIR_HPKE_INFO root aad draw).2.
Proof.
  unfold sealRoot. destruct (Nat.eqb (length pk) _); [|done]. destruct (Nat.eqb_spec (length root) PAIR_ROOT_BYTES) as [Hr|]; [|done]. simpl.
  destruct (buildPairAad u s e) as [aad|]; [|done]. simpl. destruct (sw_seal w pk PAIR_HPKE_INFO root aad draw) as [enc ct] eqn:E.
  destruct (Nat.eqb_spec (length enc) PAIR_ENC_BYTES) as [He|]; [|done]. destruct (Nat.eqb_spec (length ct) PAIR_CT_BYTES) as [Hc|]; [|done]. simpl. intros H. simplify_eq.
  exists aad. rewrite E. simpl. split_and!; [done|done|by rewrite length_app, He, Hc|by rewrite <-He, take_app_length|by rewrite <-He, drop_app_length].
Qed.

Lemma openRoot_seal w `{!SeedWorldLaws w} kp root u s e draw body :
  sealRoot w (sw_publicKey w kp) root u s e draw = Some body → openRoot w kp body u s e = Some root.
Proof.
  intros (aad & Ha & Hr & Hb & Ht & Hd)%sealRoot_inv. unfold openRoot. rewrite Hb, Nat.eqb_refl. cbn [negb]. rewrite Ha. cbn [mbind option_bind].
  rewrite Ht, Hd, open_seal. cbn [mbind option_bind]. by rewrite Hr, Nat.eqb_refl.
Qed.

(** A root that fits is sealed to bytes. *)
Lemma sealRoot_some w `{!SeedWorldShapes w} kp root u s e draw :
  length root = PAIR_ROOT_BYTES → Forall is_byte root → is_Some (buildPairAad u s e) →
  ∃ body, sealRoot w (sw_publicKey w kp) root u s e draw = Some body ∧ Forall is_byte body ∧ length body = PAIR_RELAY_BODY_BYTES.
Proof.
  intros Hr Hb [aad Ha]. destruct (sealRoot w (sw_publicKey w kp) root u s e draw) as [body|] eqn:E.
  - exists body. pose proof (sealRoot_inv _ _ _ _ _ _ _ _ E) as (aad' & Ha' & _ & Hl & Ht & Hd). rewrite Ha in Ha'. injection Ha' as <-.
    split_and!; [done| |done]. rewrite <-(take_drop PAIR_ENC_BYTES body), Ht, Hd. by apply seal_bytes.
  - exfalso. unfold sealRoot in E. rewrite publicKey_length, Nat.eqb_refl, Hr, Nat.eqb_refl, Ha in E. simpl in E.
    destruct (seal_lengths (sw_publicKey w kp) PAIR_HPKE_INFO root aad draw) as [H1 H2].
    destruct (sw_seal w (sw_publicKey w kp) PAIR_HPKE_INFO root aad draw) as [enc ct]. simpl in H1, H2. by rewrite H1, H2, Hr, !Nat.eqb_refl in E.
Qed.

Lemma openRoot_bound w kp pk root u s e draw body u' s' e' root' :
  sealRoot w pk root u s e draw = Some body → openRoot w kp body u' s' e' = Some root' →
  (u = u' ∧ s = s' ∧ e = e') ∨ ∃ aad aad', hpke_forged w kp pk root aad aad' draw root'.
Proof.
  intros (aad & Ha & Hr & Hb & Ht & Hd)%sealRoot_inv. unfold openRoot. rewrite Hb, Nat.eqb_refl. cbn [negb].
  destruct (buildPairAad u' s' e') as [aad'|] eqn:Ha'; [|done]. cbn [mbind option_bind]. rewrite Ht, Hd.
  destruct (sw_open w kp _ _ _ aad') as [r|] eqn:Eo; [|done]. cbn [mbind option_bind]. case_match; [done|]. intros. simplify_eq.
  destruct (decide (aad = aad')) as [->|Hne]; [left; by eapply buildPairAad_inj|]. right. exists aad, aad'. split; [done|].
  by destruct (sw_seal w pk PAIR_HPKE_INFO root aad draw).
Qed.

Lemma wrapSeed_inv w seed prf aad iv blob :
  wrapSeed w seed prf aad iv = Some blob → ∃ a k, buildWrapAad aad = Some a ∧ deriveWrapKek w prf = Some k ∧ length seed = ROOT_SEED_BYTES ∧
    ws_iv blob = iv ∧ ws_ciphertext blob = sw_encrypt w k iv a seed ∧ length (ws_ciphertext blob) = WRAP_CIPHERTEXT_BYTES.
Proof.
  unfold wrapSeed. destruct (Nat.eqb_spec (length seed) ROOT_SEED_BYTES) as [Hs|]; [|done]. simpl. destruct (buildWrapAad aad) as [a|]; [|done]. simpl.
  destruct (deriveWrapKek w prf) as [k|]; [|done]. simpl. destruct (Nat.eqb_spec (length (sw_encrypt w k iv a seed)) WRAP_CIPHERTEXT_BYTES); [|done].
  simpl. intros E. injection E as <-. by exists a, k.
Qed.

Lemma unwrapSeed_wrap w `{!SeedWorldLaws w} seed prf aad iv blob :
  length iv = WRAP_IV_BYTES → wrapSeed w seed prf aad iv = Some blob → unwrapSeed w blob prf aad = Some seed.
Proof.
  intros Hiv (a & k & Ha & Hk & Hs & Ei & Ec & Hl)%wrapSeed_inv. unfold unwrapSeed. rewrite Ei, Hiv, Hl, !Nat.eqb_refl. cbn [negb].
  rewrite Ha, Hk. cbn [mbind option_bind]. rewrite Ec, decrypt_encrypt. cbn [mbind option_bind]. by rewrite Hs, Nat.eqb_refl.
Qed.

Lemma unwrapSeed_bound w seed prf aad iv blob prf' aad' seed' :
  wrapSeed w seed prf aad iv = Some blob → unwrapSeed w blob prf' aad' = Some seed' →
  (aad = aad' ∧ deriveWrapKek w prf = deriveWrapKek w prf') ∨ ∃ k k' a a', aead_forged w k k' iv a a' seed seed'.
Proof.
  intros (a & k & Ha & Hk & Hs & Ei & Ec & Hl)%wrapSeed_inv. unfold unwrapSeed. rewrite Ei, Ec. case_match; [done|]. case_match; [done|].
  destruct (buildWrapAad aad') as [a'|] eqn:Ha'; [|done]. destruct (deriveWrapKek w prf') as [k'|]; [|done]. cbn [mbind option_bind].
  destruct (sw_decrypt w k' iv a' _) as [r|] eqn:Ed; [|done]. cbn [mbind option_bind]. case_match; [done|]. intros. simplify_eq.
  destruct (decide ((k, a) = (k', a'))) as [E|Hne]; [left; simplify_eq; split; [by eapply buildWrapAad_inj|done]|]. right. by exists k, k', a, a'.
Qed.

(** C28: a root sealed to a device's key opens there in the same account, session and epoch, and
    a wrapped root opens with the same passkey output and context; whatever opens otherwise, in
    another account, session, epoch, credential or format, or with another key, exhibits a
    ciphertext the primitive authenticates in two contexts. *)
Theorem roots_are_bound w `{!SeedWorldLaws w} :
  (∀ kp root u s e draw body u' s' e' root', sealRoot w (sw_publicKey w kp) root u s e draw = Some body →
     openRoot w kp body u s e = Some root ∧
     (openRoot w kp body u' s' e' = Some root' →
        (u = u' ∧ s = s' ∧ e = e' ∧ root' = root) ∨ ∃ aad aad', hpke_forged w kp (sw_publicKey w kp) root aad aad' draw root')) ∧
  (∀ seed prf aad iv blob prf' aad' seed', length iv = WRAP_IV_BYTES → wrapSeed w seed prf aad iv = Some blob →
     unwrapSeed w blob prf aad = Some seed ∧
     (unwrapSeed w blob prf' aad' = Some seed' →
        (aad = aad' ∧ seed' = seed) ∨ ∃ k k' a a', aead_forged w k k' iv a a' seed seed')).
Proof.
  split.
  - intros kp root u s e draw body u' s' e' root' H. pose proof (openRoot_seal w _ _ _ _ _ _ _ H) as Ho. split; [done|]. intros H'.
    destruct (openRoot_bound w _ _ _ _ _ _ _ _ _ _ _ _ H H') as [(-> & -> & ->)|Hf]; [|by right]. left. split_and!; [done..|]. congruence.
  - intros seed prf aad iv blob prf' aad' seed' Hiv H. pose proof (unwrapSeed_wrap w _ _ _ _ _ Hiv H) as Hu. split; [done|]. intros H'.
    destruct (unwrapSeed_bound w _ _ _ _ _ _ _ _ H H') as [[-> Hk]|Hf]; [|by right]. left. split; [done|].
    unfold unwrapSeed in Hu, H'. rewrite <-Hk in H'. congruence.
Qed.

(** ** A small world of primitives *)

Definition checksum (l : Bytes) : Z := foldr (fun b acc => (b + 31 * acc) mod 256) 7 l.

(** The key pair is its public half; a tag of sixteen bytes is a checksum of key and context. *)
Definition toyWorld : SeedWorld := {|
  KeyPair := Z;
  sw_publicKey := fun kp => replicate 32 (kp mod 256);
  sw_seal := fun pk info m aad _ => (replicate 32 1, m ++ replicate 16 (checksum (pk ++ utf8 aad)));
  sw_open := fun kp enc info ct aad =>
    let n := (length ct - 16)%nat in
    if decide (drop n ct = replicate 16 (checksum (replicate 32 (kp mod 256) ++ utf8 aad))) then Some (take n ct) else None;
  sw_sha256 := fun l => replicate 32 (checksum l);
  sw_hkdf := fun ikm salt info n => replicate n (checksum (ikm ++ utf8 salt ++ utf8 info));
  sw_encrypt := fun k iv aad m => m ++ replicate 16 (checksum (k ++ iv ++ utf8 aad));
  sw_decrypt := fun k iv aad ct =>
    let n := (length ct - 16)%nat in
    if decide (drop n ct = replicate 16 (checksum (k ++ iv ++ utf8 aad))) then Some (take n ct) else None;
  sw_base58check := toBase64Url;
  sw_unbase58check := fromBase64Url |}.

Lemma checksum_byte l : is_byte (checksum l).
Proof. unfold is_byte. destruct l as [|b l]; simpl; [lia|]. apply Z.mod_pos_bound. lia. Qed.

#[local] Arguments replicate : simpl never.
#[local] Arguments Nat.sub : simpl never.

#[export] Instance toy_laws : SeedWorldLaws toyWorld.
Proof.
  split; intros; simpl; rewrite length_app, length_replicate, Nat.add_sub, drop_app_length, take_app_length; by rewrite decide_True.
Qed.

#[export] Instance toy_shapes : SeedWorldShapes toyWorld.
Proof.
  split.
  - done.
  - intros pk info m aad draw. split; [done|]. cbn [sw_seal toyWorld fst snd]. by rewrite length_app.
  - intros pk info m aad draw Hm. cbn [sw_seal toyWorld fst snd]. apply Forall_app. split; [apply Forall_replicate; unfold is_byte; lia|].
    apply Forall_app. split; [done|]. apply Forall_replicate, checksum_byte.
Qed.

Lemma roots_are_bound_witness :
  openRoot toyWorld 5 (replicate 32 1 ++ replicate 16 3 ++ replicate 16 (checksum (replicate 32 5 ++ utf8 "ministry/pair/v1|alice|s|2"))) "alice" "s" 2 = Some (replicate 16 3).
Proof.
  refine (proj1 (proj1 (roots_are_bound toyWorld) 5 (replicate 16 3) "alice" "s" 2 [] _ "alice" "s" 2 [] _)). vm_compute. reflexivity.
Defined.
