(* ===== verification/RecoveryCodes.v ===== *)
(** * Recovery codes (lib/recovery-codes.ts)

    Ten single-use codes, shown once and stored as hashes; a new batch replaces the unused
    codes of the old one. The password hash and its check, the random draws and the row ids
    are parameters. Strings are ASCII. *)

From S2P Require Import Prelude Threads RateLimit Registry SybilScore Session SignInOtp.

Open Scope Z_scope.

(** ** Codes *)

Definition ALPHABET : string := "ABCDEFGHJKMNPQRSTVWXYZ0123456789".
Definition GROUPS : nat := 3.
Definition GROUP_LEN : nat := 4.
Definition CODE_SYMBOLS : nat := GROUPS * GROUP_LEN.

Definition codeGroup (draw : nat → nat) (g : nat) : string :=
  String.concat "" (map (fun i => symbol ALPHABET (draw (g * GROUP_LEN + i)%nat)) (seq 0 GROUP_LEN)).

Definition generateCode (draw : nat → nat) : string :=
  String.concat "-" (map (codeGroup draw) (seq 0 GROUPS)).

Definition is_separator (c : Ascii.ascii) : bool := is_space c || bool_decide (c = "-"%char).

(** The characters people write for those the alphabet leaves out. *)
Definition repair (c : Ascii.ascii) : Ascii.ascii :=
  if decide (c = "I"%char ∨ c = "L"%char) then "1"%char
  else if decide (c = "O"%char) then "0"%char
  else if decide (c = "U"%char) then "V"%char
  else c.

Definition normalizeRecoveryCode (input : string) : string :=
  string_map repair (string_filter (fun c => negb (is_separator c)) (toUpperCase (trim input))).

(** ** Rows *)

Record RecoveryCodeRow := {
  rcr_userId : string;
  rcr_codeHash : string;
  rcr_usedAt : option Z;
}.

Definition isUnused (userId : string) (r : RecoveryCodeRow) : bool :=
  bool_decide (rcr_userId r = userId) && bool_decide (rcr_usedAt r = None).

Definition unusedRows (userId : string) (db : gmap string RecoveryCodeRow) : gmap string RecoveryCodeRow :=
  filter (fun e => isUnused userId e.2 = true) db.

Section Codes.
Context (hash : string → string) (verify : string → string → bool).

(** The transaction that replaces a batch: the unused rows go, the new ones come. [ids] are
    the ids the database gives them; an id in use makes it throw. *)
Definition replaceBatch (userId : string) (codeHashes ids : list string) (db : gmap string RecoveryCodeRow) :
    bool * gmap string RecoveryCodeRow :=
  let kept := filter (fun e => isUnused userId e.2 = false) db in
  let fresh := zip ids (map (fun h => {| rcr_userId := userId; rcr_codeHash := h; rcr_usedAt := None |}) codeHashes) in
  if bool_decide (NoDup ids) && forallb (fun id => bool_decide (kept !! id = None)) ids
  then (true, list_to_map fresh ∪ kept) else (false, db).

(** [None] is a throw. *)
Definition generateRecoveryCodes (draws : nat → nat → nat) (ids : list string) (userId : string) :
    thread (gmap string RecoveryCodeRow) (option (list string)) :=
  let codes := map (fun i => generateCode (draws i)) (seq 0 (Z.to_nat RECOVERY_CODE_COUNT)) in
  let codeHashes := map (fun code => hash (normalizeRecoveryCode code)) codes in
  stored ← act (replaceBatch userId codeHashes ids);
  mret (if stored : bool then Some codes else None).

(** Every unused row is checked, in the order the database returns them; the first that
    matches counts. *)
Definition matchCode (normalized : string) (rows : list (string * RecoveryCodeRow)) : option string :=
  foldl (fun matched row =>
           let ok := verify normalized (rcr_codeHash row.2) in
           if ok && bool_decide (matched = None) then Some row.1 else matched) None rows.

(** [updateMany] on a row that is still unused: whether one row changed. *)
Definition consumeRecoveryCode (now : Z) (id : string) (db : gmap string RecoveryCodeRow) :
    bool * gmap string RecoveryCodeRow :=
  match db !! id with
  | Some r =>
      if bool_decide (rcr_usedAt r = None)
      then (true, <[id := {| rcr_userId := rcr_userId r; rcr_codeHash := rcr_codeHash r; rcr_usedAt := Some now |}]> db)
      else (false, db)
  | None => (false, db)
  end.

Definition redeemRecoveryCode (now : Z) (userId code : string) : thread (gmap string RecoveryCodeRow) bool :=
  let normalized := normalizeRecoveryCode code in
  if negb (Nat.eqb (String.length normalized) CODE_SYMBOLS) then mret false
  else
    rows ← read (fun db => map_to_list (unusedRows userId db));
    match matchCode normalized rows with
    | None => mret false
    | Some id => act (consumeRecoveryCode now id)
    end.

Definition countUnusedCodes (userId : string) (db : gmap string RecoveryCodeRow) : nat :=
  size (unusedRows userId db).

(** ** Requests *)

Inductive CodeRequest :=
  | RqGenerate (draws : nat → nat → nat) (ids : list string) (userId : string)
  | RqRedeem (now : Z) (userId code : string).

Inductive CodeResponse := Generated (codes : option (list string)) | Redeemed (userId : string) (ok : bool).

Definition handleCode (rq : CodeRequest) : thread (gmap string RecoveryCodeRow) CodeResponse :=
  match rq with
  | RqGenerate draws ids userId => r ← generateRecoveryCodes draws ids userId; mret (Generated r)
  | RqRedeem now userId code => r ← redeemRecoveryCode now userId code; mret (Redeemed userId r)
  end.

Definition serveCodes (rqs : list CodeRequest) (sched : list nat) (db : gmap string RecoveryCodeRow) :
    list CodeResponse * gmap string RecoveryCodeRow :=
  let st := pool_run sched (handleCode <$> rqs, db) in (returned st.1, st.2).

End Codes.

(** ** Writing a code down *)

(** The character [d] is a legible transcription of the symbol [c]. *)
Definition legible (c d : Ascii.ascii) : Prop :=
  d = c ∨ upper_char d = c ∨
  (c = "1"%char ∧ d ∈ ["I"; "L"; "i"; "l"]%char) ∨
  (c = "0"%char ∧ d ∈ ["O"; "o"]%char) ∨
  (c = "V"%char ∧ d ∈ ["U"; "u"]%char).

(** A code typed with other separators, in any case, or with look-alikes. *)
Inductive typed_as : string → string → Prop :=
  | typed_nil : typed_as "" ""
  | typed_insert c s t : is_separator c = true → typed_as s t → typed_as s (String c t)
  | typed_skip c s t : is_separator c = true → typed_as s t → typed_as (String c s) t
  | typed_symbol c d s t : legible c d → typed_as s t → typed_as (String c s) (String d t).

(** Normalization without the trim, which only takes separators away. *)
Fixpoint canon (s : string) : string :=
  match s with
  | EmptyString => EmptyString
  | String c s' => if is_separator c then canon s' else String (repair (upper_char c)) (canon s')
  end.

Lemma separator_upper c : is_separator (upper_char c) = is_separator c.
Proof. by destruct c as [[] [] [] [] [] [] [] []]. Qed.

Lemma canon_spec s :
  string_map repair (string_filter (fun c => negb (is_separator c)) (toUpperCase s)) = canon s.
Proof.
  unfold toUpperCase. induction s as [|c s IH]; simpl; [done|]. rewrite separator_upper.
  destruct (is_separator c); simpl; by rewrite IH.
Qed.

Lemma canon_trim_start s : canon (trim_start s) = canon s.
Proof.
  induction s as [|c s IH]; simpl; [done|]. unfold is_separator at 1. destruct (is_space c) eqn:E; simpl; [done|].
  unfold is_separator. by rewrite E.
Qed.

Lemma canon_trim_end s : canon (trim_end s) = canon s.
Proof.
  induction s as [|c s IH]; simpl; [done|]. destruct (trim_end s) as [|d t] eqn:E; simpl in *.
  - rewrite <-IH. unfold is_separator. destruct (is_space c) eqn:Ec; simpl; [done|].
    unfold is_separator. by rewrite Ec.
  - by rewrite IH.
Qed.

Lemma normalize_canon s : normalizeRecoveryCode s = canon s.
Proof. unfold normalizeRecoveryCode, trim. by rewrite canon_spec, canon_trim_end, canon_trim_start. Qed.

Lemma canon_app s t : canon (s +:+ t) = canon s +:+ canon t.
Proof. induction s as [|c s IH]; simpl; [done|]. rewrite IH. by destruct (is_separator c). Qed.

(** A legible character reads as the symbol, and is a separator exactly if the symbol is. *)
Lemma legible_canon c d : legible c d →
  is_separator d = is_separator c ∧ repair (upper_char d) = repair (upper_char c).
Proof.
  intros [->|[<-|[[-> Hd]|[[-> Hd]|[-> Hd]]]]]; [done| |repeat (apply elem_of_cons in Hd as [->|Hd]; [done|]);
    by apply elem_of_nil in Hd..].
  split; [by rewrite separator_upper|]. by destruct d as [[] [] [] [] [] [] [] []].
Qed.

Lemma typed_canon s t : typed_as s t → canon t = canon s.
Proof.
  induction 1 as [|c s t Hc _ IH|c s t Hc _ IH|c d s t [Hs Hr]%legible_canon _ IH]; simpl; [done|by rewrite Hc..|].
  rewrite Hs, Hr, IH. done.
Qed.

(** The symbol as a character. *)
Definition charAt (i : nat) : Ascii.ascii := default "A"%char (String.get i ALPHABET).

Lemma symbol_charAt i : (i < 32)%nat →
  symbol ALPHABET i = String (charAt i) "" ∧ canon (String (charAt i) "") = String (charAt i) "".
Proof. intros Hi. do 32 (destruct i as [|i]; [by split|]). lia. Qed.

Lemma charAt_inj i j : (i < 32)%nat → (j < 32)%nat → charAt i = charAt j → i = j.
Proof.
  intros Hi Hj H.
  assert (Hget : ∀ k, (k < 32)%nat → String.index 0 (String (charAt k) "") ALPHABET = Some k).
  { intros k Hk. do 32 (destruct k as [|k]; [done|]). lia. }
  pose proof (Hget i Hi) as H1. rewrite H, (Hget j Hj) in H1. congruence.
Qed.

(** The symbols of a code, without the separators. *)
Definition symbols (draw : nat → nat) (n : nat) : string :=
  foldr (fun i s => String (charAt (draw i)) s) "" (seq 0 n).

Lemma canon_code draw : (∀ i, (draw i < 32)%nat) → canon (generateCode draw) = symbols draw CODE_SYMBOLS.
Proof.
  intros Hd. unfold generateCode, codeGroup, symbols, CODE_SYMBOLS. cbn.
  rewrite !canon_app. cbn. repeat rewrite (proj1 (symbol_charAt _ (Hd _))).
  repeat rewrite (proj2 (symbol_charAt _ (Hd _))). done.
Qed.

(** A code that is legibly typed normalizes to the twelve symbols that were drawn. *)
Lemma typed_code draw t : (∀ i, (draw i < 32)%nat) → typed_as (generateCode draw) t →
  normalizeRecoveryCode t = symbols draw CODE_SYMBOLS.
Proof. intros Hd Ht. by rewrite normalize_canon, (typed_canon _ _ Ht), canon_code. Qed.

Lemma symbols_inj d1 d2 i :
  (∀ i, (d1 i < 32)%nat) → (∀ i, (d2 i < 32)%nat) →
  symbols d1 CODE_SYMBOLS = symbols d2 CODE_SYMBOLS → (i < CODE_SYMBOLS)%nat → d1 i = d2 i.
Proof.
  intros H1 H2 H Hi. apply charAt_inj; [done..|].
  unfold symbols, CODE_SYMBOLS in *. cbn in *. injection H as Heqs.
  do 12 (destruct i as [|i]; [done|]). lia.
Qed.

Lemma typed_refl s : typed_as s s.
Proof. induction s as [|c s IH]; [constructor|]. constructor; [by left|done]. Qed.

(** ** Rows *)

Lemma lookup_unused userId db id r :
  unusedRows userId db !! id = Some r ↔ db !! id = Some r ∧ rcr_userId r = userId ∧ rcr_usedAt r = None.
Proof.
  unfold unusedRows. rewrite map_lookup_filter_Some. unfold isUnused. cbn [snd].
  rewrite andb_true_iff, !bool_decide_eq_true. done.
Qed.

(** The loop finds the first matching row. *)
Lemma matchCode_first verify n rows :
  matchCode verify n rows =
    fst <$> head (List.filter (fun row => verify n (rcr_codeHash row.2)) rows).
Proof.
  unfold matchCode. set (f := fun (matched : option string) (row : string * RecoveryCodeRow) => _).
  assert (Hs : ∀ x rows, foldl f (Some x) rows = Some x).
  { intros x rows'. induction rows' as [|row rows' IH]; simpl; [done|].
    replace (f (Some x) row) with (Some x); [done|]. unfold f. by rewrite andb_false_r. }
  induction rows as [|row rows IH]; simpl; [done|]. unfold f at 2.
  destruct (verify n (rcr_codeHash row.2)); simpl; [apply Hs|apply IH].
Qed.

Lemma matchCode_Some verify n rows id :
  matchCode verify n rows = Some id → ∃ r, (id, r) ∈ rows.
Proof.
  rewrite matchCode_first. destruct (List.filter _ rows) as [|[i r] l] eqn:E; [done|]. intros [= ->].
  exists r. apply list_elem_of_In. eapply (proj1 (filter_In _ _ _)). rewrite E. by left.
Qed.

Lemma matchCode_None verify n rows id r :
  matchCode verify n rows = None → (id, r) ∈ rows → verify n (rcr_codeHash r) = false.
Proof.
  rewrite matchCode_first. destruct (List.filter _ rows) as [|[i r'] l] eqn:E; [|done]. intros _ Hin.
  apply not_true_iff_false. intros Hv. assert (Hf : In (id, r) (List.filter (fun row => verify n (rcr_codeHash row.2)) rows)).
  { apply filter_In. split; [by apply list_elem_of_In|done]. }
  by rewrite E in Hf.
Qed.

Lemma size_list_to_map_le {A} (l : list (string * A)) :
  (size (list_to_map l : gmap string A) <= length l)%nat.
Proof.
  induction l as [|[k x] l IH]; simpl; [by rewrite map_size_empty|]. rewrite map_size_insert. destruct (_ !! k); simpl in *; lia.
Qed.

(** A row that is consumed leaves the unused ones. *)
Lemma consume_unused now id db :
  let '(ok, db') := consumeRecoveryCode now id db in
  if ok then ∃ r, db !! id = Some r ∧ rcr_usedAt r = None ∧
    (∀ u, unusedRows u db' = delete id (unusedRows u db)) ∧
    (∀ i r', db' !! i = Some r' → ∃ r0, db !! i = Some r0 ∧ rcr_userId r0 = rcr_userId r')
  else db' = db.
Proof.
  unfold consumeRecoveryCode. destruct (db !! id) as [r|] eqn:E; [|done]. case_bool_decide as Hu; [|done].
  exists r. split_and!; [done..| |].
  - intros u. apply map_eq. intros i. apply option_eq. intros r'. rewrite lookup_delete_Some, !lookup_unused, lookup_insert.
    case_decide; naive_solver.
  - intros i r'. rewrite lookup_insert. case_decide; naive_solver.
Qed.

Lemma count_consume u id r db :
  db !! id = Some r → rcr_usedAt r = None →
  (size (delete id (unusedRows u db)) + (if decide (rcr_userId r = u) then 1 else 0) = size (unusedRows u db))%nat.
Proof.
  intros E Hu. destruct (decide (rcr_userId r = u)) as [Hr|Hr].
  - assert (Hin : unusedRows u db !! id = Some r) by by apply lookup_unused.
    rewrite map_size_delete, Hin. simpl.
    assert (size (unusedRows u db) ≠ 0)%nat; [|lia]. intros Hz%map_size_empty_iff. by rewrite Hz in Hin.
  - rewrite delete_id; [lia|]. apply eq_None_not_Some. intros [r' Hin]. apply lookup_unused in Hin. naive_solver.
Qed.

(** A stored batch: the unused rows of the user are the new ones, and other rows stay. *)
Lemma replaceBatch_spec userId hashes ids db db' :
  replaceBatch userId hashes ids db = (true, db') →
  let fresh : gmap string RecoveryCodeRow := list_to_map (zip ids (map (fun h =>
    {| rcr_userId := userId; rcr_codeHash := h; rcr_usedAt := None |}) hashes)) in
  NoDup ids ∧ unusedRows userId db' = fresh ∧
  (∀ u, u ≠ userId → unusedRows u db' = unusedRows u db) ∧
  (∀ id r, db' !! id = Some r → (id ∈ ids ∧ rcr_userId r = userId) ∨ db !! id = Some r).
Proof.
  unfold replaceBatch. set (new := map _ hashes). set (kept := filter _ db). intros H.
  destruct (bool_decide (NoDup ids) && forallb _ ids) eqn:E; [|done]. simplify_eq. bool_hyps.
  match goal with Hf : forallb _ _ = true |- _ => rewrite forallb_forall in Hf; rename Hf into Hfree end.
  assert (Hin : ∀ id r, (list_to_map (zip ids new) : gmap string _) !! id = Some r → id ∈ ids ∧ rcr_userId r = userId ∧ rcr_usedAt r = None).
  { intros id r Hl%elem_of_list_to_map_2. apply elem_of_zip_l in Hl as Hi. apply elem_of_zip_r in Hl.
    split; [done|]. unfold new in Hl. by apply elem_of_map in Hl as (h & -> & _). }
  assert (Hk : ∀ id r, kept !! id = Some r ↔ db !! id = Some r ∧ isUnused userId r = false).
  { intros id r. unfold kept. by rewrite map_lookup_filter_Some. }
  assert (Hun : ∀ r, isUnused userId r = false ↔ ¬ (rcr_userId r = userId ∧ rcr_usedAt r = None)).
  { intros r. unfold isUnused. rewrite andb_false_iff, !bool_decide_eq_false.
    destruct (decide (rcr_userId r = userId)); naive_solver. }
  cbv zeta. split; [done|]. split_and!.
  - apply map_eq. intros id. apply option_eq. intros r. rewrite lookup_unused, lookup_union_Some_raw.
    split; [|naive_solver]. intros [[?|[_ [_ ?%Hun]%Hk]] ?]; [done|naive_solver].
  - intros u Hne. apply map_eq. intros id. apply option_eq. intros r. rewrite !lookup_unused, lookup_union_Some_raw.
    split; [naive_solver|]. intros (Hdb & Hu & Hused). split; [|done]. right.
    assert (Hkept : kept !! id = Some r) by (apply Hk; rewrite Hun; naive_solver). split; [|done].
    apply not_elem_of_list_to_map_1. intros (x & -> & Hx)%list_elem_of_fmap.
    destruct x as [id' x]. apply elem_of_zip_l, list_elem_of_In, Hfree in Hx. bool_hyps. naive_solver.
  - intros id r [?|[_ [? _]%Hk]]%lookup_union_Some_raw; [left; naive_solver|by right].
Qed.

Section Accounting.
Context (hash : string → string) (verify : string → string → bool) (u : string) (own : string → string).

(** Row ids belong to one user each; the unused codes of [u] are the tokens. *)
Definition codeBudget (m : nat) (db : gmap string RecoveryCodeRow) : Prop :=
  (∀ id r, db !! id = Some r → rcr_userId r = own id) ∧ (countUnusedCodes u db <= m)%nat.

Definition spent (r : CodeResponse) : nat :=
  match r with Redeemed userId true => if decide (userId = u) then 1 else 0 | _ => 0 end.

(** What a request may add to the codes of [u]. *)
Definition minted (rq : CodeRequest) : nat :=
  match rq with
  | RqGenerate _ ids userId => if decide (userId = u) then Z.to_nat RECOVERY_CODE_COUNT else 0
  | RqRedeem _ _ _ => 0
  end.

(** The ids of new rows were given to their user. *)
Definition idsOwned (rq : CodeRequest) : Prop :=
  match rq with RqGenerate _ ids userId => ∀ id, id ∈ ids → own id = userId | RqRedeem _ _ _ => True end.

Lemma redeem_spends now userId code :
  uses codeBudget (fun r n => (spent (Redeemed userId r) <= n)%nat) 0 (redeemRecoveryCode verify now userId code).
Proof using.
  unfold redeemRecoveryCode. case_match; [simpl; lia|]. apply uses_read. intros m0 db0 [Hown0 _].
  destruct (matchCode _ _ _) as [id|] eqn:Em; [|simpl; lia].
  apply matchCode_Some in Em as (r & Hr%elem_of_map_to_list). apply lookup_unused in Hr as (Hr & Hu & _).
  assert (Hid : own id = userId) by (by rewrite <-(Hown0 _ _ Hr)).
  intros m db [Hown Hc]. pose proof (consume_unused now id db) as Hs.
  destruct (consumeRecoveryCode now id db) as [ok db']. cbn [fst snd uses]. destruct ok; [|subst; by exists m, 0%nat; split_and!; [lia|split|simpl; lia]].
  destruct Hs as (r' & E & Hused & Hdel & Hback). pose proof (count_consume u id r' db E Hused) as Hsz.
  rewrite (Hown _ _ E), Hid in Hsz. unfold codeBudget, countUnusedCodes in *. rewrite Hdel.
  set (c := if decide (userId = u) then 1%nat else 0%nat) in *. exists (m - c)%nat, c.
  split_and!; [lia| |lia|by unfold spent, c].
  intros i x Hi. destruct (Hback _ _ Hi) as (x0 & Hx0 & <-). by apply Hown.
Qed.

Lemma generate_mints draws ids userId :
  (∀ id, id ∈ ids → own id = userId) →
  uses codeBudget (fun _ n => (0 <= n)%nat) (if decide (userId = u) then Z.to_nat RECOVERY_CODE_COUNT else 0)
    (generateRecoveryCodes hash draws ids userId).
Proof using.
  intros Hids. unfold generateRecoveryCodes. apply uses_act. intros m db [Hown Hc].
  set (hashes := map _ (map _ _)). destruct (replaceBatch userId hashes ids db) as [ok db'] eqn:E. cbn [fst snd].
  destruct ok; [|unfold replaceBatch in E; case_match; simplify_eq;
    by exists m, 0%nat; split_and!; [lia|split|simpl; lia]].
  apply replaceBatch_spec in E as (_ & Hnew & Hother & Hrows).
  assert (Hown' : ∀ id r, db' !! id = Some r → rcr_userId r = own id).
  { intros id r [[Hi ->]|Hi]%Hrows; [by rewrite Hids|by apply Hown]. }
  unfold codeBudget, countUnusedCodes in *.
  destruct (decide (userId = u)) as [->|Hne].
  - exists (size (unusedRows u db')), 0%nat. split_and!; [|done|done|simpl; lia]. rewrite Hnew.
    etrans; [|apply Nat.le_add_l]. rewrite Nat.add_0_r. 
    etrans; [apply size_list_to_map_le|]. rewrite length_zip. unfold hashes. rewrite !length_map, length_seq. lia.
  - exists m, 0%nat. split_and!; [lia|done| |simpl; lia]. by rewrite Hother.
Qed.

End Accounting.

(** A new batch: ten unused rows, one for each code, in order. *)
Lemma generate_batch hash draws ids userId db codes db' :
  length ids = Z.to_nat RECOVERY_CODE_COUNT →
  run_solo (generateRecoveryCodes hash draws ids userId) db = (Some codes, db') →
  codes = map (fun i => generateCode (draws i)) (seq 0 (Z.to_nat RECOVERY_CODE_COUNT)) ∧
  countUnusedCodes userId db' = Z.to_nat RECOVERY_CODE_COUNT ∧
  ∀ k code, codes !! k = Some code → ∃ id, unusedRows userId db' !! id =
    Some {| rcr_userId := userId; rcr_codeHash := hash (normalizeRecoveryCode code); rcr_usedAt := None |}.
Proof.
  intros Hlen. unfold generateRecoveryCodes. rewrite run_solo_bind. cbn [act run_solo fst snd].
  set (codes' := map (fun i => generateCode (draws i)) _). set (hashes := map _ codes').
  destruct (replaceBatch userId hashes ids db) as [[] db1] eqn:E; [|done].
  cbn [fst snd run_solo mret thread_ret]. intros [= <- <-].
  apply replaceBatch_spec in E as (Hnd & Hnew & _). set (rows := zip ids _) in Hnew.
  assert (Hlen' : length hashes = length ids) by (unfold hashes, codes'; by rewrite !length_map, length_seq).
  assert (Hfst : rows.*1 = ids) by (apply fst_zip; rewrite length_map; lia).
  split_and!; [done| |].
  - unfold countUnusedCodes. rewrite Hnew, map_size_list_to_map by by rewrite Hfst.
    by rewrite <-(length_fmap fst), Hfst, Hlen.
  - intros k code Hk. destruct (lookup_lt_is_Some_2 ids k) as [id Hid].
    { rewrite <-Hlen'. unfold hashes. rewrite length_map. by eapply lookup_lt_Some. }
    exists id. rewrite Hnew. apply elem_of_list_to_map_1; [by rewrite Hfst|].
    apply list_elem_of_lookup. exists k. apply lookup_zip_with_Some. eexists _, _.
    split_and!; [done|done|]. unfold hashes. by rewrite !list_lookup_fmap, Hk.
Qed.

(** A typed code that some unused row of the user verifies is redeemed. *)
Lemma redeem_finds verify now userId t db id r :
  unusedRows userId db !! id = Some r → verify (normalizeRecoveryCode t) (rcr_codeHash r) = true →
  String.length (normalizeRecoveryCode t) = CODE_SYMBOLS →
  let '(ok, db2) := run_solo (redeemRecoveryCode verify now userId t) db in
  ok = true ∧ (countUnusedCodes userId db2 + 1 = countUnusedCodes userId db)%nat.
Proof.
  intros Hr Hver Hl. unfold redeemRecoveryCode. rewrite Hl, Nat.eqb_refl. cbn [negb].
  rewrite run_solo_bind. cbn [read act run_solo fst snd].
  destruct (matchCode _ _ _) as [id'|] eqn:Em; cycle 1.
  { apply elem_of_map_to_list, (matchCode_None _ _ _ _ _ Em) in Hr. congruence. }
  apply matchCode_Some in Em as (r' & Hr'%elem_of_map_to_list). apply lookup_unused in Hr' as (Hr' & Hu & Hused).
  cbn [act run_solo]. pose proof (consume_unused now id' db) as Hs.
  destruct (consumeRecoveryCode now id' db) as [ok db2] eqn:Ec. cbn [fst snd]. destruct ok.
  - destruct Hs as (r0 & E0 & Hused0 & Hdel & _). split; [done|]. unfold countUnusedCodes.
    pose proof (count_consume userId id' r0 db E0 Hused0) as Hsz. rewrite Hdel.
    rewrite decide_True in Hsz; [done|congruence].
  - unfold consumeRecoveryCode in Ec. rewrite Hr', bool_decide_true in Ec; done.
Qed.

(** ** Properties *)

(** Under any interleaving of redemptions and new batches, the successful redemptions of
    a user and the unused codes that remain are together at most the unused codes the user
    had and ten for each new batch: no code is redeemed twice. *)
Theorem recovery_codes_single_use hash verify own u rqs sched db :
  (∀ id r, db !! id = Some r → rcr_userId r = own id) → Forall (idsOwned own) rqs →
  let '(responses, db') := serveCodes hash verify rqs sched db in
  (sum_list (spent u <$> responses) + countUnusedCodes u db' <=
   countUnusedCodes u db + sum_list (minted u <$> rqs))%nat.
Proof.
  intros Hown Hids. unfold serveCodes.
  destruct (pool_run_funded (codeBudget u own) (fun r n => (spent u r <= n)%nat) sched
    (handleCode hash verify <$> rqs) db (minted u <$> rqs) (countUnusedCodes u db)) as (m' & ns' & [_ Hc] & Hf & Hle).
  - by split.
  - apply Forall2_fmap, Forall_Forall2_diag, Forall_forall. intros rq Hin. rewrite Forall_forall in Hids.
    specialize (Hids _ Hin). destruct rq as [draws ids userId|now userId code]; cbn [handleCode].
    + apply uses_bind. eapply uses_impl; [|by apply generate_mints]. intros r n _. simpl. lia.
    + apply uses_bind. exact (redeem_spends verify u own now userId code).
  - pose proof (returned_funded _ _ (spent u) _ _ (fun a n H => H) Hf). lia.
Qed.

Definition demo_hash (s : string) : string := s.
Definition demo_batch : gmap string RecoveryCodeRow :=
  {[ "r1" := {| rcr_userId := "u"; rcr_codeHash := "AAAAAAAAAAAA"; rcr_usedAt := None |} ]}.
Definition demo_ids : list string := ["a"; "b"; "c"; "d"; "e"; "f"; "g"; "h"; "i"; "j"].
Definition demo_redemptions : list CodeRequest :=
  [RqRedeem 1 "u" "aaaa-aaaa-aaaa"; RqRedeem 2 "u" "AAAA AAAA AAAA"].

Lemma recovery_codes_single_use_witness :
  (serveCodes demo_hash String.eqb demo_redemptions [0; 1; 1; 0]%nat demo_batch).1 =
    [Redeemed "u" false; Redeemed "u" true] ∧
  (sum_list (spent "u" <$> (serveCodes demo_hash String.eqb demo_redemptions [0; 1; 1; 0]%nat demo_batch).1) <= 1)%nat.
Proof.
  split; [by vm_compute|].
  pose proof (recovery_codes_single_use demo_hash String.eqb (fun _ => "u") "u" demo_redemptions
    [0; 1; 1; 0]%nat demo_batch) as H.
  destruct (serveCodes demo_hash String.eqb demo_redemptions [0; 1; 1; 0]%nat demo_batch) as [rs db'].
  assert (Hc : (countUnusedCodes "u" demo_batch + sum_list (minted "u" <$> demo_redemptions))%nat = 1%nat) by by vm_compute.
  rewrite Hc in H. simpl. etrans; [apply Nat.le_add_r|apply H].
  - intros id r. unfold demo_batch. by intros [<- <-]%lookup_singleton_Some.
  - by repeat constructor.
Defined.

(** a new batch leaves the user exactly its ten codes, whatever the user had before; any
    of them, typed in any case, with other separators or with the look-alikes of the symbols,
    redeems, and uses up one code. *)
Theorem fresh_code_redeems hash verify draws ids userId db codes db1 now code t :
  (∀ s, verify s (hash s) = true) → (∀ i j, (draws i j < 32)%nat) → length ids = Z.to_nat RECOVERY_CODE_COUNT →
  run_solo (generateRecoveryCodes hash draws ids userId) db = (Some codes, db1) →
  code ∈ codes → typed_as code t →
  countUnusedCodes userId db1 = 10%nat ∧
  let '(ok, db2) := run_solo (redeemRecoveryCode verify now userId t) db1 in
  ok = true ∧ countUnusedCodes userId db2 = 9%nat.
Proof.
  intros Hv Hdraws Hlen Hgen Hcode Ht.
  destruct (generate_batch _ _ _ _ _ _ _ Hlen Hgen) as (-> & Hcount & Hrow). split; [done|].
  apply elem_of_map in Hcode as Hi. destruct Hi as (i & -> & _).
  apply list_elem_of_lookup in Hcode as [k Hk]. destruct (Hrow _ _ Hk) as (id & Hid).
  pose proof (typed_code (draws i) t (Hdraws i) Ht) as Hn.
  pose proof (redeem_finds verify now userId t db1 id _ Hid) as Hr. cbn [rcr_codeHash] in Hr.
  rewrite Hn, (typed_code (draws i) _ (Hdraws i) (typed_refl _)) in Hr. specialize (Hr (Hv _) eq_refl).
  destruct (run_solo _ db1) as [ok db2]. destruct Hr as [-> Hsz]. split; [done|].
  rewrite Hcount in Hsz. change (Z.to_nat RECOVERY_CODE_COUNT) with 10%nat in Hsz. lia.
Qed.

Lemma fresh_code_redeems_witness :
  let db1 := (run_solo (generateRecoveryCodes demo_hash (fun i j => Nat.min i 31) demo_ids "u") demo_batch).2 in
  (run_solo (redeemRecoveryCode String.eqb 5 "u" "bbbb bbbb-bbbb") db1).1 = true.
Proof.
  intros db1.
  pose proof (fresh_code_redeems demo_hash String.eqb (fun i j => Nat.min i 31) demo_ids "u" demo_batch
    (map (fun i => generateCode (fun _ => Nat.min i 31)) (seq 0 10)) db1 5 "BBBB-BBBB-BBBB" "bbbb bbbb-bbbb") as H.
  destruct (run_solo (redeemRecoveryCode String.eqb 5 "u" "bbbb bbbb-bbbb") db1) as [ok db2]. apply H.
  - intros s. apply String.eqb_refl.
  - intros i j. lia.
  - done.
  - by vm_compute.
  - right. left.
  - repeat first [apply typed_nil | apply typed_insert; [done|] | apply typed_symbol; [by right; left|]
                 | apply typed_skip; [done|]].
Defined.
