(* ===== verification/InviteCodes.v ===== *)
(** * Invite codes (lib/invite-codes.ts, server/admin-actions.ts)

    Campaign codes with a number of uses, an expiry and a revocation. A redemption reads the
    code, judges it, and then takes one use and records the redemption in a transaction.
    Strings are ASCII. *)

From S2P Require Import Prelude Threads RateLimit SignInOtp.

Open Scope Z_scope.

(** ** Data *)

Definition INVALID_CODE_MESSAGE : string := "Invalid, expired, or exhausted invite code.".
Definition ALREADY_REDEEMED_MESSAGE : string := "You've already redeemed this code.".

Definition CODE_ALPHABET : string := "ABCDEFGHJKLMNPQRSTUVWXYZ23456789".
Definition CODE_LENGTH : nat := 12.
Definition CODE_GROUP : nat := 4.

Record InviteCode := {
  ic_code : string;
  ic_label : string;
  ic_usesTotal : Z;
  ic_usesRemaining : Z;
  ic_expiresAt : option Z;
  ic_revokedAt : option Z;
}.

(** Codes by id, and the redemptions, one for each (code, user). *)
Record InviteDB := {
  id_codes : gmap string InviteCode;
  id_redemptions : gset (string * string);
}.

Definition with_codes (m : gmap string InviteCode) (db : InviteDB) : InviteDB :=
  {| id_codes := m; id_redemptions := id_redemptions db |}.

(** ** Codes *)

(** [bytes i] is the i-th random byte. *)
Definition inviteChar (bytes : nat → nat) (i : nat) : string :=
  symbol CODE_ALPHABET (bytes i mod String.length CODE_ALPHABET) +:+
  (if Nat.eqb ((i + 1) mod CODE_GROUP) 0 && Nat.ltb (i + 1) CODE_LENGTH then "-" else "").

Definition generateInviteCode (bytes : nat → nat) : string :=
  String.concat "" (map (inviteChar bytes) (seq 0 CODE_LENGTH)).

Definition normalizeInviteCode (raw : string) : string := toUpperCase (trim raw).

(** ** Redemption *)

(** [None] is an acceptable code; otherwise the message. *)
Definition evaluateInviteCode (row : InviteCode) (alreadyRedeemed : bool) (now : Z) : option string :=
  if bool_decide (ic_revokedAt row ≠ None) then Some INVALID_CODE_MESSAGE
  else if match ic_expiresAt row with Some e => e <? now | None => false end then Some INVALID_CODE_MESSAGE
  else if (0 <? ic_usesTotal row) && (ic_usesRemaining row <=? 0) then Some INVALID_CODE_MESSAGE
  else if alreadyRedeemed then Some ALREADY_REDEEMED_MESSAGE
  else None.

Inductive RedeemResult :=
  | RedeemOk (inviteCodeId label : string)
  | RedeemFailed (message : string)
  | RedeemThrown.

Definition findInvite (code : string) (userId : string) (db : InviteDB) : option (string * InviteCode * bool) :=
  match list_find (fun e : string * InviteCode => ic_code e.2 = code) (map_to_list (id_codes db)) with
  | Some (_, (id, row)) => Some (id, row, bool_decide ((id, userId) ∈ id_redemptions db))
  | None => None
  end.

Definition decrement (row : InviteCode) : InviteCode :=
  {| ic_code := ic_code row; ic_label := ic_label row; ic_usesTotal := ic_usesTotal row;
     ic_usesRemaining := ic_usesRemaining row - 1; ic_expiresAt := ic_expiresAt row;
     ic_revokedAt := ic_revokedAt row |}.

Inductive TxOutcome := TxDone | TxExhausted | TxDuplicate | TxMissing.

(** The transaction, for a code read with [usesTotal]: take a use of a limited code, record
    the redemption; a failure rolls both back. *)
Definition redeemTx (usesTotal : Z) (id userId : string) (db : InviteDB) : TxOutcome * InviteDB :=
  let create := fun db' : InviteDB =>
    match id_codes db !! id with
    | None => (TxMissing, db)
    | Some _ =>
        if bool_decide ((id, userId) ∈ id_redemptions db) then (TxDuplicate, db)
        else (TxDone, {| id_codes := id_codes db'; id_redemptions := {[ (id, userId) ]} ∪ id_redemptions db' |})
    end in
  if 0 <? usesTotal then
    match id_codes db !! id with
    | Some row =>
        if bool_decide (ic_revokedAt row = None) && (0 <? ic_usesRemaining row)
        then create (with_codes (<[id := decrement row]> (id_codes db)) db)
        else (TxExhausted, db)
    | None => (TxExhausted, db)
    end
  else create db.

Definition redeemInviteCode (now : Z) (rawCode userId : string) : thread InviteDB RedeemResult :=
  let code := normalizeInviteCode rawCode in
  if decide (code = "") then mret (RedeemFailed INVALID_CODE_MESSAGE)
  else
    found ← read (findInvite code userId);
    match found with
    | None => mret (RedeemFailed INVALID_CODE_MESSAGE)
    | Some (id, row, already) =>
        match evaluateInviteCode row already now with
        | Some message => mret (RedeemFailed message)
        | None =>
            outcome ← act (redeemTx (ic_usesTotal row) id userId);
            mret (match outcome with
                  | TxDone => RedeemOk id (ic_label row)
                  | TxExhausted => RedeemFailed INVALID_CODE_MESSAGE
                  | TxDuplicate => RedeemFailed ALREADY_REDEEMED_MESSAGE
                  | TxMissing => RedeemThrown
                  end)
        end
    end.

(** The admin's revocation: whether a row changed. *)
Definition revokeInviteCode (now : Z) (id : string) (db : InviteDB) : bool * InviteDB :=
  match id_codes db !! id with
  | Some row =>
      if bool_decide (ic_revokedAt row = None)
      then (true, with_codes (<[id := {| ic_code := ic_code row; ic_label := ic_label row;
              ic_usesTotal := ic_usesTotal row; ic_usesRemaining := ic_usesRemaining row;
              ic_expiresAt := ic_expiresAt row; ic_revokedAt := Some now |}]> (id_codes db)) db)
      else (false, db)
  | None => (false, db)
  end.

(** The admin's creation of a code, with its validated input; [id] and [generated] are the
    fresh row id and the generated code. [None] is the unique constraint's throw. *)
Definition insertCode (id : string) (row : InviteCode) (db : InviteDB) : bool * InviteDB :=
  if bool_decide (id_codes db !! id = None) &&
     forallb (fun e : string * InviteCode => negb (bool_decide (ic_code e.2 = ic_code row))) (map_to_list (id_codes db))
  then (true, with_codes (<[id := row]> (id_codes db)) db)
  else (false, db).

Definition createInviteCode (now : Z) (id generated : string) (label : string) (customCode : option string)
    (usesTotal : Z) (ttlDays : option Z) : thread InviteDB (option (result string string)) :=
  let code := normalizeInviteCode (default generated customCode) in
  let expiresAt := (fun d => now + d * 24 * 60 * 60 * 1000) <$> ttlDays in
  existing ← read (findInvite code "");
  match existing with
  | Some _ => mret (Some (Err "That code already exists"))
  | None =>
      stored ← act (insertCode id {| ic_code := code; ic_label := label; ic_usesTotal := usesTotal;
        ic_usesRemaining := usesTotal; ic_expiresAt := expiresAt; ic_revokedAt := None |});
      mret (if stored : bool then Some (Ok code) else None)
  end.

(** ** Requests *)

Inductive InviteRequest :=
  | RqInvite (now : Z) (rawCode userId : string)
  | RqRevoke (now : Z) (id : string)
  | RqCreate (now : Z) (id generated label : string) (customCode : option string) (usesTotal : Z) (ttlDays : option Z).

Inductive InviteResponse :=
  | Invited (userId : string) (r : RedeemResult)
  | Revoked (ok : bool)
  | Created (r : option (result string string)).

Definition handleInvite (rq : InviteRequest) : thread InviteDB InviteResponse :=
  match rq with
  | RqInvite now rawCode userId => r ← redeemInviteCode now rawCode userId; mret (Invited userId r)
  | RqRevoke now id => r ← act (revokeInviteCode now id); mret (Revoked r)
  | RqCreate now id generated label customCode usesTotal ttlDays =>
      r ← createInviteCode now id generated label customCode usesTotal ttlDays; mret (Created r)
  end.

Definition serveInvites (rqs : list InviteRequest) (sched : list nat) (db : InviteDB) :
    list InviteResponse * InviteDB :=
  let st := pool_run sched (handleInvite <$> rqs, db) in (returned st.1, st.2).

(** ** Invariant *)

(** The redemptions of a code. *)
Definition redeemedBy (id : string) (db : InviteDB) : gset (string * string) :=
  filter (fun p => p.1 = id) (id_redemptions db).

(** [total] is the number of uses each code was created with. *)
Record invites_ok (total : string → Z) (db : InviteDB) : Prop := {
  io_total : ∀ id row, id_codes db !! id = Some row → ic_usesTotal row = total id;
  io_uses : ∀ id row, id_codes db !! id = Some row → 0 < ic_usesTotal row →
    0 <= ic_usesRemaining row ∧
    ic_usesRemaining row + Z.of_nat (size (redeemedBy id db)) = ic_usesTotal row;
  io_codes : ∀ id u, (id, u) ∈ id_redemptions db → is_Some (id_codes db !! id);
}.

Lemma redeemedBy_add id id' u codes db :
  (id', u) ∉ id_redemptions db →
  size (redeemedBy id {| id_codes := codes; id_redemptions := {[ (id', u) ]} ∪ id_redemptions db |}) =
    ((if decide (id = id') then 1 else 0) + size (redeemedBy id db))%nat.
Proof.
  intros Hn. unfold redeemedBy. simpl. rewrite filter_union_L, filter_singleton_L by apply _. cbn [fst].
  destruct (decide (id = id')) as [->|Hne].
  - rewrite decide_True by done. rewrite size_union; [by rewrite size_singleton|].
    intros p ->%elem_of_singleton [_ ?]%elem_of_filter. done.
  - rewrite decide_False by congruence. by rewrite union_empty_l_L.
Qed.

Lemma redeemTx_ok total usesTotal id userId db :
  invites_ok total db → usesTotal = total id →
  let '(r, db') := redeemTx usesTotal id userId db in
  invites_ok total db' ∧
  match r with
  | TxDone => ((id, userId) ∉ id_redemptions db) ∧
      id_redemptions db' = ({[ (id, userId) ]} ∪ id_redemptions db)
  | _ => db' = db
  end.
Proof.
  intros Hok Ht. pose proof Hok as [Htot Huse Hcodes]. unfold redeemTx. destruct (id_codes db !! id) as [row|] eqn:E; cycle 1.
  { by destruct (0 <? usesTotal); split. }
  destruct (decide ((id, userId) ∈ id_redemptions db)) as [Hin|Hin].
  { rewrite (bool_decide_true ((id, userId) ∈ id_redemptions db)) by done.
    destruct (0 <? usesTotal); [destruct (_ && _)|]; by split. }
  rewrite (bool_decide_false ((id, userId) ∈ id_redemptions db)) by done. pose proof (Htot _ _ E) as Hr. destruct (Z.ltb_spec 0 usesTotal) as [Hlim|Hlim].
  - destruct (_ && _) eqn:Eg; [|by split]. bool_hyps. destruct (Huse _ _ E) as [H1 H2]; [lia|].
    split; [|by split]. split; simpl.
    + intros i x. rewrite lookup_insert. case_decide; [intros [= <-]; subst; done|apply Htot].
    + intros i x. rewrite lookup_insert, redeemedBy_add by done. case_decide as Hi.
      * intros [= <-] Hpos. subst. rewrite decide_True by done. simpl in *. lia.
      * intros Hx Hpos. rewrite decide_False by done. by apply Huse.
    + intros i u. rewrite lookup_insert. case_decide; [done|]. intros [[= -> ->]%elem_of_singleton|?]%elem_of_union; [done|].
      by eapply Hcodes.
  - split; [|by split]. split; simpl; [done| |].
    + intros i x Hx Hpos. rewrite redeemedBy_add by done. rewrite decide_False; [by apply Huse|].
      intros ->. rewrite (Htot _ _ Hx) in Hpos. lia.
    + intros i u [[= -> ->]%elem_of_singleton|?]%elem_of_union; [done|]. by eapply Hcodes.
Qed.

Lemma revoke_ok total now id db : invites_ok total db →
  invites_ok total (revokeInviteCode now id db).2 ∧
  id_redemptions (revokeInviteCode now id db).2 = id_redemptions db.
Proof.
  intros Hok. unfold revokeInviteCode. destruct (id_codes db !! id) as [row|] eqn:E; [|done].
  case_bool_decide; [|done]. split; [|done]. destruct Hok as [Htot Huse Hcodes]. split; simpl.
  - intros i x. rewrite lookup_insert. case_decide; [intros [= <-]; subst; by apply (Htot _ row)|apply Htot].
  - intros i x. rewrite lookup_insert. case_decide; [intros [= <-]; subst; by apply (Huse _ row)|apply Huse].
  - intros i u Hi. rewrite lookup_insert. case_decide; [done|by eapply Hcodes].
Qed.

Lemma insert_ok total id row db :
  invites_ok total db → ic_usesTotal row = total id → ic_usesRemaining row = ic_usesTotal row →
  invites_ok total (insertCode id row db).2 ∧ id_redemptions (insertCode id row db).2 = id_redemptions db.
Proof.
  intros Hok Ht Hr. unfold insertCode. destruct (_ && _) eqn:E; [|done]. bool_hyps. split; [|done].
  destruct Hok as [Htot Huse Hcodes]. split; simpl.
  - intros i x. rewrite lookup_insert. case_decide; [intros [= <-]; by subst|apply Htot].
  - intros i x. rewrite lookup_insert. case_decide as Hi; [|apply Huse]. intros [= <-] Hpos. subst.
    assert (Hnone : redeemedBy i db = ∅).
    { apply elem_of_equiv_empty_L. intros [j u] [Hj Hin]%elem_of_filter. simpl in *. subst.
      destruct (Hcodes _ _ Hin). congruence. }
    unfold redeemedBy in Hnone |- *. simpl. rewrite Hnone, size_empty. lia.
  - intros i u Hi. rewrite lookup_insert. case_decide; [done|by eapply Hcodes].
Qed.

Lemma findInvite_Some code u db id row already :
  findInvite code u db = Some (id, row, already) → id_codes db !! id = Some row.
Proof.
  unfold findInvite. destruct (list_find _ _) as [[k [i x]]|] eqn:E; [|done]. intros [= <- <- _].
  apply list_find_Some in E as (E & _). by apply list_elem_of_lookup_2, elem_of_map_to_list in E.
Qed.

Section Accounting.
Context (total : string → Z) (id u : string).

(** The database holds the token of (code, user) until it is redeemed. *)
Definition inviteAccount (m : nat) (db : InviteDB) : Prop :=
  invites_ok total db ∧ (m = 0%nat → (id, u) ∈ id_redemptions db).

Definition invited (r : InviteResponse) : nat :=
  match r with
  | Invited userId (RedeemOk i _) => if decide ((i, userId) = (id, u)) then 1 else 0
  | _ => 0
  end.

(** A new code is created with the uses [total] gives its id. *)
Definition createsTotal (rq : InviteRequest) : Prop :=
  match rq with RqCreate _ i _ _ _ uses _ => uses = total i | _ => True end.

Lemma redeemInvite_uses now rawCode userId :
  uses inviteAccount (fun r n => (invited (Invited userId r) <= n)%nat) 0 (redeemInviteCode now rawCode userId).
Proof using.
  unfold redeemInviteCode. case_decide; [simpl; lia|]. apply uses_read. intros m0 db0 [Hok0 _].
  destruct (findInvite _ _ _) as [[[i row] already]|] eqn:Ef; [|simpl; lia].
  apply findInvite_Some in Ef. pose proof (io_total _ _ Hok0 _ _ Ef) as Ht.
  case_match; [simpl; lia|]. apply uses_act. intros m db [Hok Hm].
  pose proof (redeemTx_ok total _ i userId db Hok Ht) as Htx.
  destruct (redeemTx (ic_usesTotal row) i userId db) as [r db']. cbn [fst snd]. destruct Htx as [Hok' Hr].
  destruct r; [|subst db'; by exists m, 0%nat; split_and!; [lia|split|simpl; lia]..].
  destruct Hr as [Hnot Hred]. set (c := if decide ((i, userId) = (id, u)) then 1%nat else 0%nat).
  exists (m - c)%nat, c. split_and!; [| |exact (Nat.le_refl c)].
  - unfold c. destruct (decide ((i, userId) = (id, u))) as [[= -> ->]|]; [|lia].
    destruct m; [by destruct Hnot; apply Hm|lia].
  - split; [done|]. rewrite Hred. unfold c. destruct (decide ((i, userId) = (id, u))) as [[= -> ->]|]; [set_solver|].
    intros Hz. apply elem_of_union_r, Hm. lia.
Qed.

Lemma handleInvite_uses rq :
  createsTotal rq → uses inviteAccount (fun r n => (invited r <= n)%nat) 0 (handleInvite rq).
Proof using.
  destruct rq as [now rawCode userId|now i|now i generated label customCode usesTotal ttlDays]; cbn [handleInvite createsTotal]; intros Hrq.
  - apply uses_bind. exact (redeemInvite_uses now rawCode userId).
  - apply uses_act. intros m db [Hok Hm]. destruct (revoke_ok total now i db Hok) as [Hok' Hred].
    exists m, 0%nat. split_and!; [lia|split; [done|by rewrite Hred]|simpl; lia].
  - apply uses_bind. unfold createInviteCode. apply uses_read. intros _ db0 _. case_match; [simpl; lia|].
    set (row := Build_InviteCode _ _ _ _ _ _). apply uses_act. intros m db [Hok Hm].
    destruct (insert_ok total i row db Hok Hrq eq_refl) as [Hok' Hred].
    exists m, 0%nat. split_and!; [lia|split; [done|by rewrite Hred]|simpl; lia].
Qed.

End Accounting.

(** ** Properties *)

(** Under any interleaving of redemptions, revocations and creations of codes, a limited
    code is redeemed at most as often as it allows, its remaining uses always being what the
    recorded redemptions leave, and no user redeems a code twice. *)
Theorem invite_uses_bounded total rqs sched db :
  invites_ok total db → Forall (createsTotal total) rqs →
  let '(responses, db') := serveInvites rqs sched db in
  invites_ok total db' ∧
  (∀ id row, id_codes db' !! id = Some row → 0 < ic_usesTotal row →
    Z.of_nat (size (redeemedBy id db')) <= ic_usesTotal row) ∧
  ∀ id u, (sum_list (invited id u <$> responses) <= 1)%nat.
Proof.
  intros Hok Hrqs. unfold serveInvites.
  assert (Hall : ∀ id u, (sum_list (invited id u <$> returned (pool_run sched (handleInvite <$> rqs, db)).1) <= 1)%nat ∧
    ∃ m', inviteAccount total id u m' (pool_run sched (handleInvite <$> rqs, db)).2).
  { intros id u. destruct (pool_accounts (inviteAccount total id u) (fun r n => (invited id u r <= n)%nat) (invited id u)
      (fun _ => True) sched (handleInvite <$> rqs) db 1) as (? & _ & ?); [done|by split; [|lia]| |done].
    apply Forall_fmap. eapply Forall_impl; [exact Hrqs|]. intros rq. apply handleInvite_uses. }
  destruct (Hall "" "") as (_ & m' & [Hok' _]). split_and!; [done| |intros id u; apply Hall].
  intros id row E Hpos. destruct (io_uses _ _ Hok' _ _ E Hpos). lia.
Qed.

(** A code for one use and one without a limit. *)
Definition demo_invite (code : string) (usesTotal : Z) : InviteCode :=
  {| ic_code := code; ic_label := "launch"; ic_usesTotal := usesTotal; ic_usesRemaining := usesTotal;
     ic_expiresAt := None; ic_revokedAt := None |}.

Definition demo_invites : InviteDB :=
  {| id_codes := {[ "i1" := demo_invite "ONCE" 1; "i2" := demo_invite "OPEN" 0 ]}; id_redemptions := ∅ |}.

Definition demo_total (id : string) : Z := if decide (id = "i1") then 1 else 0.

(** Two users race for the last use. *)
Definition demo_guests : list InviteRequest := [RqInvite 1 "once" "ada"; RqInvite 2 " ONCE " "bob"].

Lemma invite_uses_bounded_witness :
  (serveInvites demo_guests [0; 1; 1; 0]%nat demo_invites).1 =
    [Invited "ada" (RedeemFailed INVALID_CODE_MESSAGE); Invited "bob" (RedeemOk "i1" "launch")] ∧
  invites_ok demo_total (serveInvites demo_guests [0; 1; 1; 0]%nat demo_invites).2.
Proof.
  split; [by vm_compute|].
  pose proof (invite_uses_bounded demo_total demo_guests [0; 1; 1; 0]%nat demo_invites) as H.
  destruct (serveInvites demo_guests [0; 1; 1; 0]%nat demo_invites) as [rs db']. apply H; [|by repeat constructor].
  split.
  - intros id row. unfold demo_invites. simpl. rewrite lookup_insert. unfold demo_total.
    case_decide; [intros [= <-]; by subst|]. intros [<- <-]%lookup_singleton_Some. done.
  - intros id row. unfold demo_invites, redeemedBy. simpl. rewrite filter_empty_L, size_empty, lookup_insert by apply _.
    case_decide; [intros [= <-]; simpl; lia|]. intros [<- <-]%lookup_singleton_Some. done.
  - intros id u. set_solver.
Defined.

(** A revocation that commits between the check and the transaction of a redemption does not
    stop it when the code is unlimited: only a limited code's decrement looks at it again. *)
Theorem unlimited_code_survives_revocation :
  (serveInvites [RqInvite 1 "open" "ada"; RqRevoke 2 "i2"] [0; 1; 0]%nat demo_invites).1 =
    [Invited "ada" (RedeemOk "i2" "launch"); Revoked true] ∧
  (serveInvites [RqInvite 1 "once" "ada"; RqRevoke 2 "i1"] [0; 1; 0]%nat demo_invites).1 =
    [Invited "ada" (RedeemFailed INVALID_CODE_MESSAGE); Revoked true].
Proof. by vm_compute. Qed.
