(* ===== verification/OidcAuthorize.v ===== *)
(** * The authorization request (lib/oidc-authorize.ts)

    Validation of the parameters of /oidc/authorize: the client, its redirect URI, the
    required parameters, the scopes and the optional disclosure policy. Decoding and
    parsing of the policy parameter (base64url, JSON, the policy schema) are parameters. *)

From S2P Require Import Prelude Matching Policy RateLimit.

Open Scope Z_scope.

(** ** Data *)

Record OidcClient := {
  oc_name : string;
  oc_redirectUris : list string;
  oc_allowedScopes : list string;
  oc_clientSecretHash : option string;
  oc_anonAppId : option string;
}.

Record ValidAuthorizeRequest := {
  vr_clientId : string;
  vr_clientName : string;
  vr_allowedScopes : list string;
  vr_redirectUri : string;
  vr_scopes : list string;
  vr_state : string;
  vr_nonce : string;
  vr_codeChallenge : string;
  vr_codeChallengeMethod : string;
  vr_policy : option PolicyNode;
}.

Inductive OidcError :=
  | invalid_request | unauthorized_client | access_denied | unsupported_response_type
  | invalid_scope | server_error | temporarily_unavailable.

Inductive AuthorizeValidationResult :=
  | AuthOk (request : ValidAuthorizeRequest)
  | RedirectError (redirectUri : string) (state : option string) (error : OidcError) (description : string)
  | Fatal (title description : string).

Definition MAX_POLICY_BYTES : Z := 4096.

Definition isRegisteredRedirectUri (client : OidcClient) (candidate : string) : bool :=
  bool_decide (candidate ∈ oc_redirectUris client).

(** ** String helpers *)

(** A string with a character. *)
Definition present (s : option string) : option string :=
  match s with Some t => if decide (t = "") then None else Some t | None => None end.

(** [s.split(/\s+/).filter(Boolean)] *)
Fixpoint words_ (s : string) : string * list string :=
  match s with
  | EmptyString => (EmptyString, [])
  | String c s' =>
      let '(w, ws) := words_ s' in
      if is_space c then (EmptyString, if decide (w = "") then ws else w :: ws)
      else (String c w, ws)
  end.

Definition words (s : string) : list string :=
  let '(w, ws) := words_ s in if decide (w = "") then ws else w :: ws.

(** [s.slice(p.length)] for a string that starts with [p]. *)
Fixpoint strip_prefix (p s : string) : option string :=
  match p, s with
  | EmptyString, _ => Some s
  | String a p', String b s' => if decide (a = b) then strip_prefix p' s' else None
  | String _ _, EmptyString => None
  end.

(** The badge types the scopes ask for. *)
Definition requestedTypes (scopes : list string) : list string := omap (strip_prefix "badge:") scopes.

(** ** Validation *)

Section Validate.
(** The base64url decoder, [JSON.parse] and [parsePolicy]. *)
Context {Json : Type} (decode : string → string) (parseJson : string → option Json)
        (parsePolicy : Json → option PolicyNode).

Inductive PolicyParseResult :=
  | PolicyOk (policy : option PolicyNode)
  | PolicyError (error : OidcError) (description : string).

Definition parseMinisterPolicy (rawParam : option string) (scopes : list string) : PolicyParseResult :=
  match present rawParam with
  | None => PolicyOk None
  | Some rawParam =>
      let json := decode rawParam in
      if MAX_POLICY_BYTES <? Z.of_nat (String.length json)
      then PolicyError invalid_request "minister_policy is too large"
      else match parseJson json with
      | None => PolicyError invalid_request "minister_policy is malformed"
      | Some parsed =>
          match parsePolicy parsed with
          | None => PolicyError invalid_scope "minister_policy is not a valid policy"
          | Some policy =>
              match policyBoundsViolation policy with
              | Some violation => PolicyError invalid_request ("minister_policy is too large: " +:+ violation)
              | None =>
                  if MAX_POLICY_DEPTH <? policyDepth policy
                  then PolicyError invalid_request "minister_policy is nested too deeply"
                  else
                    let requestedBadgeTypes := requestedTypes scopes in
                    match list_find (fun type => type ∉ requestedBadgeTypes) (policyBadgeTypes policy) with
                    | Some (_, type) => PolicyError invalid_scope
                        ("minister_policy references badge type not in scope: " +:+ type)
                    | None => PolicyOk (Some policy)
                    end
              end
          end
      end
  end.

(** The registered clients, and the query parameters. *)
Context (clients : gmap string OidcClient) (raw : string → option string).

Definition validateAuthorizeRequest : AuthorizeValidationResult :=
  match present (raw "client_id") with
  | None => Fatal "Missing client_id" "This /oidc/authorize request did not include a client_id."
  | Some clientId =>
  match clients !! clientId with
  | None => Fatal "Unknown client" ("No OIDC client is registered with id " +:+ clientId +:+ ".")
  | Some client =>
  match present (raw "redirect_uri") with
  | None => Fatal "Invalid redirect URI" "The redirect_uri does not match any registered URI for this client."
  | Some redirectUri =>
  if negb (isRegisteredRedirectUri client redirectUri)
  then Fatal "Invalid redirect URI" "The redirect_uri does not match any registered URI for this client."
  else
  let state := raw "state" in
  let responseType := raw "response_type" in
  if negb (bool_decide (responseType = Some "code"))
  then RedirectError redirectUri state unsupported_response_type
         (match present responseType with
          | Some r => "response_type=" +:+ r +:+ " is not supported; use 'code'."
          | None => "response_type is required"
          end)
  else
  match present state with
  | None => RedirectError redirectUri None invalid_request "state is required"
  | Some stateValue =>
  match present (raw "nonce") with
  | None => RedirectError redirectUri state invalid_request "nonce is required"
  | Some nonce =>
  match present (raw "code_challenge") with
  | None => RedirectError redirectUri state invalid_request "code_challenge is required (PKCE is mandatory)"
  | Some codeChallenge =>
  if negb (bool_decide (raw "code_challenge_method" = Some "S256"))
  then RedirectError redirectUri state invalid_request "code_challenge_method=S256 is required"
  else
  let scopes := words (default "" (raw "scope")) in
  if negb (bool_decide ("openid" ∈ scopes))
  then RedirectError redirectUri state invalid_scope "openid scope is required"
  else
  let disallowed := filter (fun s => s ∉ oc_allowedScopes client) scopes in
  if negb (bool_decide (disallowed = []))
  then RedirectError redirectUri state invalid_scope
         ("client is not authorized for scope(s): " +:+ String.concat ", " disallowed)
  else
  match parseMinisterPolicy (raw "minister_policy") scopes with
  | PolicyError error description => RedirectError redirectUri state error description
  | PolicyOk policy =>
      AuthOk {| vr_clientId := clientId; vr_clientName := oc_name client;
                vr_allowedScopes := oc_allowedScopes client; vr_redirectUri := redirectUri;
                vr_scopes := scopes; vr_state := stateValue; vr_nonce := nonce;
                vr_codeChallenge := codeChallenge; vr_codeChallengeMethod := "S256";
                vr_policy := policy |}
  end end end end end end end.

End Validate.

(** ** Lemmas *)

Lemma present_Some s t : present s = Some t ↔ s = Some t ∧ t ≠ "".
Proof. destruct s as [x|]; simpl; [case_decide; naive_solver|naive_solver]. Qed.

(** A policy that is safe to carry into the consent step. *)
Definition policy_ok (scopes : list string) (policy : PolicyNode) : Prop :=
  policyBoundsViolation policy = None ∧ policyDepth policy <= MAX_POLICY_DEPTH ∧
  ∀ leaf, leaf ∈ leaves policy → "badge:" +:+ leaf_type leaf ∈ scopes.

Lemma strip_prefix_Some p s t : strip_prefix p s = Some t → s = p +:+ t.
Proof.
  revert s. induction p as [|a p IH]; intros s; simpl; [by intros [= ->]|].
  destruct s as [|b s]; [done|]. case_decide; [|done]. subst. by intros ->%IH.
Qed.

Lemma parseMinisterPolicy_ok {Json} decode (parseJson : string → option Json) parsePolicy raw scopes policy :
  parseMinisterPolicy decode parseJson parsePolicy raw scopes = PolicyOk (Some policy) → policy_ok scopes policy.
Proof.
  unfold parseMinisterPolicy. intros H. run_guards H. bool_hyps. split_and!; [done..|].
  intros leaf Hleaf. assert (Ht : leaf_type leaf ∈ policyBadgeTypes policy).
  { unfold policyBadgeTypes. apply collectTypes_spec. set_solver. }
  match goal with E : list_find _ _ = None |- _ => apply list_find_None in E;
    rewrite Forall_forall in E; specialize (E _ Ht) end.
  destruct (decide (leaf_type leaf ∈ requestedTypes scopes)) as [Hr|]; [|done].
  unfold requestedTypes in Hr. apply list_elem_of_omap in Hr as (sc & Hs & ->%strip_prefix_Some). done.
Qed.

(** ** Properties *)

(** a request that validates names a registered client and one of its redirect URIs, has
    a non-empty state, nonce and PKCE challenge, asks only for scopes the client may ask for,
    openid included, and carries only a bounded policy over the badge types it asks for; and
    an error is reported by redirect only to a registered URI of that client. *)
Theorem authorize_request_sound {Json} decode (parseJson : string → option Json) parsePolicy clients raw :
  match validateAuthorizeRequest decode parseJson parsePolicy clients raw with
  | AuthOk r =>
      ∃ client, clients !! vr_clientId r = Some client ∧
        vr_redirectUri r ∈ oc_redirectUris client ∧
        vr_state r ≠ "" ∧ vr_nonce r ≠ "" ∧ vr_codeChallenge r ≠ "" ∧ vr_codeChallengeMethod r = "S256" ∧
        "openid" ∈ vr_scopes r ∧ vr_scopes r ⊆ oc_allowedScopes client ∧
        ∀ policy, vr_policy r = Some policy → policy_ok (vr_scopes r) policy
  | RedirectError uri state _ _ =>
      ∃ clientId client, raw "client_id" = Some clientId ∧ clients !! clientId = Some client ∧
        uri ∈ oc_redirectUris client ∧ (state = raw "state" ∨ state = None)
  | Fatal _ _ => True
  end.
Proof.
  destruct (validateAuthorizeRequest decode parseJson parsePolicy clients raw) as [r|uri st e d|] eqn:H; [..|done].
  - unfold validateAuthorizeRequest in H. run_guards H. bool_hyps. unfold isRegisteredRedirectUri in *. bool_hyps.
    repeat match goal with E : present _ = Some _ |- _ => apply present_Some in E as [? ?] end.
    eexists. split_and!; [done..| |].
    + intros sc Hs. destruct (decide (sc ∈ oc_allowedScopes o)) as [?|Hn]; [done|].
      match goal with E : filter _ _ = [] |- _ => assert (sc ∈ ([] : list string)) as Hnil
        by (rewrite <-E; by apply list_elem_of_filter) end. by apply elem_of_nil in Hnil.
    + intros pol Hpol; subst. by eapply parseMinisterPolicy_ok.
  - unfold validateAuthorizeRequest in H. run_guards H; bool_hyps; unfold isRegisteredRedirectUri in *; bool_hyps;
    repeat match goal with E : present (raw "client_id") = Some _ |- _ => apply present_Some in E as [? ?] end; eauto 8.
Qed.
