(* ===== verification/OidcFlow.v ===== *)
(** * Consent, token exchange and userinfo (server/oidc-actions.ts,
    server/oidc-consent-minimize.ts, server/wizard-helpers.ts, server/profile-validation.ts,
    lib/oidc-grants.ts, lib/oidc-claims.ts, lib/oidc-tokens.ts, lib/oidc-subject.ts,
    app/oidc/token/route.ts, app/oidc/userinfo/route.ts)

    The user approves a validated request and the server stores a single-use code with the
    snapshot of what was approved; the relying party exchanges the code for tokens; userinfo
    returns the same claims for the access token. The handlers interleave at every database
    operation; each reads the clock once, and the badges of a disclosure, which the code
    re-mints concurrently, are taken in order, with a status-list allocation as one step (its
    own interleavings are those of StatusList.v). Cryptography, the credential re-mint, the pairwise derivation and the
    nullifier service are functions of the [World]; signed tokens are their payloads. *)

From S2P Require Import Prelude Threads Matching Policy Selection RateLimit Registry SybilScore.
From S2P Require Import Session SybilConfig OidcAuthorize Bitstring Interleave StatusList.

Open Scope Z_scope.

(** ** Data *)

(** Rows hold the columns the handlers read or write. A value of a badge's attribute JSON;
    numbers are integers. *)
Inductive RowAttr := RString (s : string) | RNumber (z : Z) | RBoolean (b : bool) | ROther.

Record BadgeRow := {
  br_id : string;
  br_userId : string;
  br_type : string;
  br_attributes : option (gmap string RowAttr);
  br_issuedAt : Z;
  br_expiresAt : option Z;
  br_issuer : string;
  br_vcJwt : string;
  br_nullifierRef : option string;
  br_statusAnchor : option string;
}.

Record AuthCode := {
  ac_clientId : string;
  ac_userId : string;
  ac_redirectUri : string;
  ac_scopes : list string;
  ac_approvedBadgeIds : list string;
  ac_profileName : bool;
  ac_profileAvatar : bool;
  ac_sybilScore : bool;
  ac_sybilBucket : option Z;
  ac_anonEpoch : option Z;
  ac_nonce : string;
  ac_codeChallenge : string;
  ac_codeChallengeMethod : string;
  ac_expiresAt : Z;
}.

Record AccessToken := {
  at_userId : string;
  at_clientId : string;
  at_scopes : list string;
  at_approvedBadgeIds : list string;
  at_profileName : bool;
  at_profileAvatar : bool;
  at_sybilScore : bool;
  at_sybilBucket : option Z;
  at_anonEpoch : option Z;
  at_expiresAt : Z;
  at_revokedAt : option Z;
}.

Record OidcUser := {
  ou_displayName : option string;
  ou_avatarUrl : option string;
  ou_mergedIntoUserId : option string;
  ou_dedupHandle : option string;
}.

Record GrantState := {
  gs_badgeTypes : list string;
  gs_badgeIds : list string;
  gs_profileName : bool;
  gs_profileAvatar : bool;
  gs_sybilScore : bool;
}.

Record ProfileOverride := { po_displayName : option string; po_avatarUrl : option string }.

(** The tables. A code row carries its data and [consumedAt]; grants, persona overrides and
    subject overrides are keyed by (userId, clientId), memberships by (groupId, userId). *)
Record OidcDB := {
  od_clients : gmap string OidcClient;
  od_users : gmap string OidcUser;
  od_badges : list BadgeRow;
  od_codes : gmap string (AuthCode * option Z);
  od_tokens : gmap string AccessToken;
  od_grants : gmap (string * string) GrantState;
  od_overrides : gmap (string * string) ProfileOverride;
  od_subjects : gmap (string * string) string;
  od_memberships : gmap (string * string) string;
  od_epochs : gmap string Z;
  od_status : DB;
  od_audit : list (option string * string);
}.

Definition set_codes (m : gmap string (AuthCode * option Z)) (db : OidcDB) : OidcDB :=
  {| od_clients := od_clients db; od_users := od_users db; od_badges := od_badges db; od_codes := m;
     od_tokens := od_tokens db; od_grants := od_grants db; od_overrides := od_overrides db;
     od_subjects := od_subjects db; od_memberships := od_memberships db; od_epochs := od_epochs db;
     od_status := od_status db; od_audit := od_audit db |}.
Definition set_tokens (m : gmap string AccessToken) (db : OidcDB) : OidcDB :=
  {| od_clients := od_clients db; od_users := od_users db; od_badges := od_badges db; od_codes := od_codes db;
     od_tokens := m; od_grants := od_grants db; od_overrides := od_overrides db;
     od_subjects := od_subjects db; od_memberships := od_memberships db; od_epochs := od_epochs db;
     od_status := od_status db; od_audit := od_audit db |}.
Definition set_grants (m : gmap (string * string) GrantState) (db : OidcDB) : OidcDB :=
  {| od_clients := od_clients db; od_users := od_users db; od_badges := od_badges db; od_codes := od_codes db;
     od_tokens := od_tokens db; od_grants := m; od_overrides := od_overrides db;
     od_subjects := od_subjects db; od_memberships := od_memberships db; od_epochs := od_epochs db;
     od_status := od_status db; od_audit := od_audit db |}.
Definition set_overrides (m : gmap (string * string) ProfileOverride) (db : OidcDB) : OidcDB :=
  {| od_clients := od_clients db; od_users := od_users db; od_badges := od_badges db; od_codes := od_codes db;
     od_tokens := od_tokens db; od_grants := od_grants db; od_overrides := m;
     od_subjects := od_subjects db; od_memberships := od_memberships db; od_epochs := od_epochs db;
     od_status := od_status db; od_audit := od_audit db |}.
Definition set_status_lists (s : DB) (db : OidcDB) : OidcDB :=
  {| od_clients := od_clients db; od_users := od_users db; od_badges := od_badges db; od_codes := od_codes db;
     od_tokens := od_tokens db; od_grants := od_grants db; od_overrides := od_overrides db;
     od_subjects := od_subjects db; od_memberships := od_memberships db; od_epochs := od_epochs db;
     od_status := s; od_audit := od_audit db |}.
Definition auditRow (userId : option string) (action : string) (db : OidcDB) : OidcDB :=
  {| od_clients := od_clients db; od_users := od_users db; od_badges := od_badges db; od_codes := od_codes db;
     od_tokens := od_tokens db; od_grants := od_grants db; od_overrides := od_overrides db;
     od_subjects := od_subjects db; od_memberships := od_memberships db; od_epochs := od_epochs db;
     od_status := od_status db; od_audit := od_audit db ++ [(userId, action)] |}.

(** What the re-mint of a stored credential is asked for. *)
Record ReMintOptions := {
  rm_subject : string;
  rm_jti : string;
  rm_maxExpiresAt : option Z;
  rm_ttlSeconds : Z;
  rm_role : option string;
  rm_nullifier : option string;
  rm_status : option AllocatedStatus;
}.

(** The code outside these handlers: hashes and codecs, the client-secret check, the
    pairwise subject and jti, the nullifier service with its drift check, the re-mint of a
    credential ([None] is a throw), the URL parser's protocol, and the draws of the
    status-list allocator. *)
Record World := {
  w_did : string;
  w_domain : string;
  w_sha256 : string → list Z;
  w_base64url : string → list Z;
  w_argonVerify : string → string → bool;
  w_pairwiseSub : string → string → string;
  w_pairwiseJti : string → string → string;
  w_disclose : string → string → string → option string;
  w_driftOk : string → string → string → bool;
  w_reMint : Z → string → ReMintOptions → option string;
  w_urlProtocol : string → option string;
  w_cuid : gmap string StatusListRow → string;
  w_draw : nat → Z;
}.

(** ** Grants (lib/oidc-grants.ts) *)

Definition EMPTY_GRANT : GrantState :=
  {| gs_badgeTypes := []; gs_badgeIds := []; gs_profileName := false; gs_profileAvatar := false;
     gs_sybilScore := false |}.

Definition loadGrant (userId clientId : string) (db : OidcDB) : GrantState :=
  default EMPTY_GRANT (od_grants db !! (userId, clientId)).

Definition unionTypes (a b : list string) : list string := set_of (a ++ b).

Definition upsertGrant (userId clientId : string) (g : GrantState) (db : OidcDB) : OidcDB :=
  let existing := loadGrant userId clientId db in
  set_grants (<[(userId, clientId) :=
    {| gs_badgeTypes := unionTypes (gs_badgeTypes existing) (gs_badgeTypes g);
       gs_badgeIds := unionTypes (gs_badgeIds existing) (gs_badgeIds g);
       gs_profileName := gs_profileName existing || gs_profileName g;
       gs_profileAvatar := gs_profileAvatar existing || gs_profileAvatar g;
       gs_sybilScore := gs_sybilScore existing || gs_sybilScore g |}]> (od_grants db)) db.

(** ** Profile validation (server/profile-validation.ts) *)

Definition MAX_DISPLAY_NAME_LENGTH : Z := 80.
Definition MAX_AVATAR_URL_LENGTH : Z := 2048.

Fixpoint stripControlChars (value : string) : string :=
  match value with
  | EmptyString => EmptyString
  | String ch rest =>
      let code := Ascii.nat_of_ascii ch in
      if Nat.leb code 31 || Nat.eqb code 127 || (Nat.leb 128 code && Nat.leb code 159)
      then stripControlChars rest
      else String ch (stripControlChars rest)
  end.

Definition normalizeDisplayName (raw : string) : result string (option string) :=
  let cleaned := trim (stripControlChars raw) in
  if decide (cleaned = "") then Ok None
  else if MAX_DISPLAY_NAME_LENGTH <? Z.of_nat (String.length cleaned)
  then Err "Display name must be 80 characters or fewer"
  else Ok (Some cleaned).

Definition normalizeAvatarUrlOrNull (w : World) (raw : string) : result string (option string) :=
  let cleaned := trim (stripControlChars raw) in
  if decide (cleaned = "") then Ok None
  else if MAX_AVATAR_URL_LENGTH <? Z.of_nat (String.length cleaned)
  then Err "Avatar URL must be 2048 characters or fewer"
  else match w_urlProtocol w cleaned with
  | None => Err "Avatar URL must be a valid absolute URL"
  | Some protocol =>
      if decide (protocol = "https:") then Ok (Some cleaned) else Err "Avatar URL must use https:"
  end.

Definition normalizeProfileInput (w : World) (displayName avatarUrl : string) :
    result string (option string * option string) :=
  name ← normalizeDisplayName displayName;
  avatar ← normalizeAvatarUrlOrNull w avatarUrl;
  mret (name, avatar).

(** ** Minimization (server/oidc-consent-minimize.ts) *)

Definition coerceAttr (v : RowAttr) : option PolicyAttrValue :=
  match v with
  | RString s => Some (Policy.AttrString s)
  | RNumber z => Some (Policy.AttrNumber (JsNum.of_Z z))
  | RBoolean b => Some (Policy.AttrBoolean b)
  | ROther => None
  end.

Definition coerceAttrs (attributes : option (gmap string RowAttr)) : gmap string PolicyAttrValue :=
  omap coerceAttr (default ∅ attributes).

(** Unix seconds of the start of the UTC month of a time in milliseconds: the day of the
    month from the proleptic Gregorian calendar, counted in 400-year eras from March 1st. *)
Definition dayOfMonth (days : Z) : Z :=
  let doe := (days + 719468) mod 146097 in
  let yoe := (doe - doe / 1460 + doe / 36524 - doe / 146096) / 365 in
  let doy := doe - (365 * yoe + yoe / 4 - yoe / 100) in
  let mp := (5 * doy + 2) / 153 in
  doy - (153 * mp + 2) / 5 + 1.

Definition issuanceMonthStartSeconds (ms : Z) : Z :=
  let days := ms / 86400000 in (days - (dayOfMonth days - 1)) * 86400.

Definition toPolicyUserBadge (row : BadgeRow) : UserBadge :=
  {| badge_id := br_id row; badge_type := br_type row; badge_attributes := coerceAttrs (br_attributes row);
     badge_issuedAt := JsNum.of_Z (issuanceMonthStartSeconds (br_issuedAt row)) |}.

Definition minimizeToPolicy (policy : option PolicyNode) (submitted : list UserBadge)
    (holderCounts : gmap string Z) (now : Z) : list UserBadge :=
  match policy with
  | None => submitted
  | Some policy =>
      let result := selectMinimalAnonymitySet submitted holderCounts (JsNum.of_Z now) policy in
      filter (fun b => badge_id b ∈ selectedBadgeIds result) submitted
  end.

(** ** Effective scopes (server/wizard-helpers.ts) *)

Definition keepScope (approveProfile approveSybilScore : bool) (approvedBadgeIds : list string)
    (userBadges : list UserBadge) (scope : string) : bool :=
  if decide (scope = "openid") then true
  else if decide (scope = "profile") then approveProfile
  else if decide (scope = "sybil-score") then approveSybilScore
  else match strip_prefix "badge:" scope with
  | Some type => existsb (fun b => bool_decide (badge_type b = type) &&
                                   bool_decide (badge_id b ∈ approvedBadgeIds)) userBadges
  | None => false
  end.

Definition effectiveScopes (requestedScopes : list string) (approveProfile approveSybilScore : bool)
    (approvedBadgeIds : list string) (userBadges : list UserBadge) : list string :=
  List.filter (keepScope approveProfile approveSybilScore approvedBadgeIds userBadges) requestedScopes.

(** ** Consent (server/oidc-actions.ts) *)

Definition CODE_TTL_SECONDS : Z := 60.

Record ApproveInput := {
  ai_approvedBadgeIds : list string;
  ai_approveName : bool;
  ai_approveAvatar : bool;
  ai_approveSybilScore : bool;
  ai_nameValue : option string;
  ai_avatarValue : option string;
}.

Definition loadBadgesForUser (userId : string) (badgeIds : list string) (db : OidcDB) : list UserBadge :=
  if decide (badgeIds = []) then []
  else map toPolicyUserBadge (filter (fun b => br_userId b = userId ∧ br_id b ∈ badgeIds) (od_badges db)).

(** The first list, then the badges of the second whose id it lacks. *)
Definition unionBadgesById (a b : list UserBadge) : list UserBadge :=
  let seen := map badge_id a in a ++ filter (fun x => badge_id x ∉ seen) b.

Definition toScorable (b : BadgeRow) : ScorableBadge :=
  {| sb_type := br_type b;
     sb_attributes := fmap (M := gmap string) (fun v => match v with
       | RString s => SybilScore.AttrString s
       | RNumber z => SybilScore.AttrNumber z
       | _ => SybilScore.AttrOther
       end) <$> br_attributes b;
     sb_expiresAt := br_expiresAt b; sb_issuer := br_issuer b |}.

Definition loadScorableBadges (userId : string) (db : OidcDB) : list ScorableBadge :=
  map toScorable (filter (fun b => br_userId b = userId) (od_badges db)).

(** The cutoffs are integer columns, so they are always finite. *)
Definition isDegenerateSybilConfig (config : SybilScoringConfig) : bool :=
  negb (existsb (fun e : string * gmap string Z => negb (bool_decide (e.2 = ∅)))
                (map_to_list (weights config))).

(** The new code, the redirect and, for an anon-enabled client, its app and epoch. *)
Record ApproveOk := { ao_code : string; ao_redirectUri : string; ao_state : string; ao_anon : option (string * Z) }.

Section Consent.
Context (w : World) (now : Z) (code : string) (anonEnabled : bool)
        (holderCounts : gmap string Z) (config : option SybilScoringConfig).

(** The bucket computed once at consent: omitted when the configuration cannot be loaded or
    is degenerate. *)
Definition consentBucket (badges : list ScorableBadge) : option Z :=
  match config with
  | None => None
  | Some config =>
      if isDegenerateSybilConfig config then None
      else Some (bucket (sybilScore config now (w_did w) badges))
  end.

(** The transaction: the code, the accumulated grant and the persona override. *)
Definition consentTx (userId : string) (row : AuthCode) (grant : GrantState)
    (overrideName overrideAvatar : option string) (db : OidcDB) : bool * OidcDB :=
  match od_codes db !! code with
  | Some _ => (false, db)
  | None =>
      let db1 := set_codes (<[code := (row, None)]> (od_codes db)) db in
      let db2 := upsertGrant userId (ac_clientId row) grant db1 in
      let existing := default {| po_displayName := None; po_avatarUrl := None |}
                              (od_overrides db2 !! (userId, ac_clientId row)) in
      (true,
       if ac_profileName row || ac_profileAvatar row then
         set_overrides (<[(userId, ac_clientId row) :=
           {| po_displayName := if ac_profileName row then overrideName else po_displayName existing;
              po_avatarUrl := if ac_profileAvatar row then overrideAvatar else po_avatarUrl existing |}]>
           (od_overrides db2)) db2
       else db2)
  end.

(** [session] is the validated session's user and [request] the request token's content,
    when they are valid. *)
Definition approveConsent (session : option string) (request : option ValidAuthorizeRequest)
    (input : ApproveInput) : thread OidcDB (result string ApproveOk) :=
  match session with
  | None => mret (Err "Not signed in")
  | Some userId =>
  match request with
  | None => mret (Err "This consent request expired or has been tampered with. Reload and try again.")
  | Some request =>
      let requestedBadgeTypes := requestedTypes (vr_scopes request) in
      ownedBadges ← read (loadBadgesForUser userId (ai_approvedBadgeIds input));
      let requestedBadges := filter (fun b => badge_type b ∈ requestedBadgeTypes) ownedBadges in
      grant ← read (loadGrant userId (vr_clientId request));
      granted ← read (loadBadgesForUser userId (gs_badgeIds grant));
      let grantedBadges := filter (fun b => badge_type b ∈ requestedBadgeTypes) granted in
      let candidateBadges := unionBadgesById requestedBadges grantedBadges in
      let userBadges := minimizeToPolicy (vr_policy request) candidateBadges holderCounts (now / 1000) in
      let approvedBadgeIds := map badge_id userBadges in
      let profileRequested := bool_decide ("profile" ∈ vr_scopes request) in
      let approveName := profileRequested && ai_approveName input in
      let approveAvatar := profileRequested && ai_approveAvatar input in
      let approveProfile := approveName || approveAvatar in
      let approveSybilScore := bool_decide ("sybil-score" ∈ vr_scopes request) && ai_approveSybilScore input in
      match normalizeProfileInput w
              (if approveName then default "" (ai_nameValue input) else "")
              (if approveAvatar then default "" (ai_avatarValue input) else "") with
      | Err e => mret (Err e)
      | Ok (overrideName, overrideAvatar) =>
          sybilBucket ← (if approveSybilScore then
                           badges ← read (loadScorableBadges userId);
                           match consentBucket badges with
                           | Some b => mret (Some b)
                           | None => _ ← write (auditRow (Some userId) "oidc.sybil_score_omitted"); mret None
                           end
                         else mret None);
          anonAppId ← (if anonEnabled
                       then read (fun db => od_clients db !! vr_clientId request ≫= oc_anonAppId)
                       else mret None);
          anonEpoch ← match present anonAppId with
                      | Some _ => read (fun db => Some (default 1 (od_epochs db !! userId)))
                      | None => mret None
                      end;
          let row := {| ac_clientId := vr_clientId request; ac_userId := userId;
            ac_redirectUri := vr_redirectUri request;
            ac_scopes := effectiveScopes (vr_scopes request) approveProfile approveSybilScore
                           approvedBadgeIds userBadges;
            ac_approvedBadgeIds := approvedBadgeIds; ac_profileName := approveName;
            ac_profileAvatar := approveAvatar; ac_sybilScore := approveSybilScore;
            ac_sybilBucket := sybilBucket; ac_anonEpoch := anonEpoch; ac_nonce := vr_nonce request;
            ac_codeChallenge := vr_codeChallenge request;
            ac_codeChallengeMethod := vr_codeChallengeMethod request;
            ac_expiresAt := now + CODE_TTL_SECONDS * 1000 |} in
          let disclosed := {| gs_badgeTypes := set_of (map badge_type userBadges);
            gs_badgeIds := approvedBadgeIds; gs_profileName := approveName;
            gs_profileAvatar := approveAvatar; gs_sybilScore := approveSybilScore |} in
          stored ← act (consentTx userId row disclosed overrideName overrideAvatar);
          if negb stored then mret (Err "")
          else
            _ ← write (auditRow (Some userId) "oidc.consent_approved");
            mret (Ok {| ao_code := code; ao_redirectUri := vr_redirectUri request;
                        ao_state := vr_state request;
                        ao_anon := match anonAppId with
                                   | Some app => if anonEnabled then Some (app, default 1 anonEpoch) else None
                                   | None => None
                                   end |})
      end
  end
  end.

(** Declining is audited and redirects with the error; the redirect's parameters are the
    result. *)
Definition denyConsent (session : option string) (request : option ValidAuthorizeRequest) :
    thread OidcDB (result string (string * OidcError * string * string)) :=
  match session with
  | None => mret (Err "Not signed in")
  | Some userId =>
      match request with
      | None => mret (Err "Consent request expired")
      | Some request =>
          _ ← write (auditRow (Some userId) "oidc.consent_denied");
          mret (Ok (vr_redirectUri request, access_denied, "The user declined to share data", vr_state request))
      end
  end.

End Consent.

(** ** Claims (lib/oidc-claims.ts) *)

Definition ACCESS_TOKEN_TTL_SECONDS : Z := 60 * 60.
Definition BADGE_DISCLOSURE_TTL_SECONDS : Z := ACCESS_TOKEN_TTL_SECONDS.

Record ResolvedUserClaims := {
  rc_name : option string;
  rc_picture : option string;
  rc_sybilBucket : option Z;
  rc_ministerBadges : list string;
}.

Definition resolveUserClaims (user : OidcUser) (profileName profileAvatar : bool)
    (approvedBadgeJwts : list string) (override : option ProfileOverride)
    (sybilScoreGrant : bool) (sybilBucket : option Z) : ResolvedUserClaims :=
  {| rc_name := if profileName
                then match override with Some o => po_displayName o | None => ou_displayName user end
                else None;
     rc_picture := if profileAvatar
                   then match override with Some o => po_avatarUrl o | None => ou_avatarUrl user end
                   else None;
     rc_sybilBucket := if sybilScoreGrant then sybilBucket else None;
     rc_ministerBadges := approvedBadgeJwts |}.

Definition loadProfileOverride (userId clientId : string) (wantsProfile : bool) (db : OidcDB) :
    option ProfileOverride :=
  if wantsProfile then od_overrides db !! (userId, clientId) else None.

Definition GROUP_MEMBERSHIP_BADGE_TYPE : string := "group-membership".

Definition groupIdOf (row : BadgeRow) : option string :=
  match default ∅ (br_attributes row) !! "groupId" with Some (RString g) => Some g | _ => None end.

Definition buildPairwiseUserDid (domain pairwiseSub : string) : string :=
  "did:web:" +:+ domain +:+ ":u:" +:+ pairwiseSub.

Definition allocate (w : World) (now : Z) (anchor clientId : string) (db : OidcDB) :
    option AllocatedStatus * OidcDB :=
  let '(r, s) := run_alone (allocateStatusEntry (w_cuid w) (w_draw w) (w_draw w) now anchor clientId)
                           (od_status db) in
  (r, set_status_lists s db).

Section Disclosure.
Context (w : World) (now : Z) (userId clientId sub : string).

(** The nullifier of a row that carries a ledger reference; an error omits the badge and
    carries the audit actions to log. *)
Definition rowNullifier (ownerHandle : option string) (row : BadgeRow) :
    result (list string) (option string) :=
  match present (br_nullifierRef row) with
  | None => Ok None
  | Some ref =>
      match ownerHandle with
      | None => Err ["oidc.badge_disclosure_omitted"]
      | Some handle =>
          match w_disclose w ref handle clientId with
          | None => Err ["oidc.badge_disclosure_omitted"]
          | Some nrp => if w_driftOk w ref clientId nrp then Ok (Some nrp) else Err ["nullifier.drift_detected"; "oidc.badge_disclosure_omitted"]
          end
      end
  end.

Fixpoint omit (actions : list string) : thread OidcDB (option string) :=
  match actions with
  | [] => mret None
  | action :: rest => _ ← write (auditRow (Some userId) action); omit rest
  end.

(** Re-mint one approved badge; [None] omits it. *)
Definition discloseBadge (ownerHandle : option string) (row : BadgeRow) : thread OidcDB (option string) :=
  match rowNullifier ownerHandle row with
  | Err actions => omit actions
  | Ok nullifier =>
      role ← (if decide (br_type row = GROUP_MEMBERSHIP_BADGE_TYPE) then
                match groupIdOf row with
                | None => mret (Err "oidc.badge_disclosure_omitted")
                | Some groupId =>
                    membership ← read (fun db => od_memberships db !! (groupId, userId));
                    mret (match membership with
                          | Some role => Ok (Some role)
                          | None => Err "group.membership_disclosure_omitted"
                          end)
                end
              else mret (Ok None));
      match role with
      | Err action => omit [action]
      | Ok role =>
          status ← match present (br_statusAnchor row) with
                   | None => mret (Ok None)
                   | Some anchor =>
                       alloc ← act (allocate w now anchor clientId);
                       mret (match alloc with Some a => Ok (Some a) | None => Err tt end)
                   end;
          match status with
          | Err _ => omit ["oidc.badge_disclosure_omitted"]
          | Ok status =>
              match w_reMint w now (br_vcJwt row)
                      {| rm_subject := buildPairwiseUserDid (w_domain w) sub;
                         rm_jti := w_pairwiseJti w (br_id row) clientId;
                         rm_maxExpiresAt := br_expiresAt row; rm_ttlSeconds := BADGE_DISCLOSURE_TTL_SECONDS;
                         rm_role := role; rm_nullifier := nullifier; rm_status := status |} with
              | Some jwt => mret (Some jwt)
              | None => omit ["oidc.badge_disclosure_omitted"]
              end
          end
      end
  end.

Fixpoint discloseAll (ownerHandle : option string) (rows : list BadgeRow) : thread OidcDB (list string) :=
  match rows with
  | [] => mret []
  | row :: rest =>
      jwt ← discloseBadge ownerHandle row;
      jwts ← discloseAll ownerHandle rest;
      mret (match jwt with Some j => j :: jwts | None => jwts end)
  end.

Definition approvedRows (badgeIds : list string) (db : OidcDB) : list BadgeRow :=
  filter (fun b => br_userId b = userId ∧ br_id b ∈ badgeIds ∧ br_issuer b = w_did w) (od_badges db).

Definition loadApprovedBadgeJwts (badgeIds : list string) : thread OidcDB (list string) :=
  if decide (badgeIds = []) then mret []
  else
    rows ← read (approvedRows badgeIds);
    ownerHandle ← (if existsb (fun r => bool_decide (present (br_nullifierRef r) ≠ None)) rows
                   then read (fun db => od_users db !! userId ≫= ou_dedupHandle)
                   else mret None);
    discloseAll ownerHandle rows.

End Disclosure.

(** ** Token exchange (app/oidc/token/route.ts) *)

Definition resolveSub (w : World) (userId clientId : string) (db : OidcDB) : string :=
  default (w_pairwiseSub w userId clientId) (od_subjects db !! (userId, clientId)).

Definition verifyPkceS256 (w : World) (codeVerifier storedChallenge : string) : bool :=
  let computed := w_sha256 w codeVerifier in
  let stored := w_base64url w storedChallenge in
  if negb (Nat.eqb (length stored) (length computed)) then false else bool_decide (computed = stored).

(** The payload of the ID token; issued and expiry times are left to the signer. *)
Record IdToken := {
  it_sub : string;
  it_aud : string;
  it_nonce : string;
  it_name : option string;
  it_picture : option string;
  it_minister_badges : list string;
  it_sybil_bucket : option Z;
  it_minister_anon_epoch : option Z;
}.

Record TokenResponse := {
  tr_idToken : IdToken;
  tr_accessJti : string;
  tr_accessSub : string;
  tr_scope : list string;
  tr_expires_in : Z;
}.

Inductive TokenError :=
  | RateLimited
  | InvalidRequest (description : string)
  | UnsupportedGrantType
  | InvalidClient (description : string)
  | InvalidGrant (description : string)
  | TokenThrown.

(** The form body, and the decoded Basic credentials of the request. *)
Record TokenRequest := {
  tq_limited : bool;
  tq_formEncoded : bool;
  tq_grant_type : option string;
  tq_code : option string;
  tq_redirect_uri : option string;
  tq_code_verifier : option string;
  tq_client_id : option string;
  tq_client_secret : option string;
  tq_basic : option (string * string);
}.

Definition readClientCredentials (rq : TokenRequest) : option string * option string :=
  match tq_basic rq with
  | Some (id, secret) => (Some id, Some secret)
  | None => (tq_client_id rq, tq_client_secret rq)
  end.

(** [updateMany] on an unconsumed code: whether a row changed. *)
Definition consumeCode (now : Z) (code : string) (db : OidcDB) : bool * OidcDB :=
  match od_codes db !! code with
  | Some (row, None) => (true, set_codes (<[code := (row, Some now)]> (od_codes db)) db)
  | _ => (false, db)
  end.

Definition createToken (jti : string) (row : AccessToken) (db : OidcDB) : bool * OidcDB :=
  match od_tokens db !! jti with
  | Some _ => (false, db)
  | None => (true, set_tokens (<[jti := row]> (od_tokens db)) db)
  end.

Definition invalidGrant (description : string) : thread OidcDB (result TokenError TokenResponse) :=
  mret (Err (InvalidGrant description)).

Section Token.
Context (w : World) (now : Z) (jti : string).

(** The checks on the stored code, in order. *)
Definition codeProblem (clientId redirectUri codeVerifier : string) (stored : AuthCode) : option string :=
  if ac_expiresAt stored <? now then Some "code is expired"
  else if negb (bool_decide (ac_clientId stored = clientId)) then Some "code was issued to a different client"
  else if negb (bool_decide (ac_redirectUri stored = redirectUri))
  then Some "redirect_uri does not match the one used at /authorize"
  else if negb (bool_decide (ac_codeChallengeMethod stored = "S256"))
  then Some "unsupported code_challenge_method"
  else if negb (verifyPkceS256 w codeVerifier (ac_codeChallenge stored)) then Some "PKCE verification failed"
  else None.

(** The claims of a grant at this moment, for the ID token and for userinfo. *)
Definition grantClaims (userId clientId sub : string) (user : OidcUser) (approvedBadgeIds : list string)
    (profileName profileAvatar sybilScore : bool) (sybilBucket : option Z) :
    thread OidcDB ResolvedUserClaims :=
  minister_badges ← loadApprovedBadgeJwts w now userId clientId sub approvedBadgeIds;
  profileOverride ← read (loadProfileOverride userId clientId (profileName || profileAvatar));
  mret (resolveUserClaims user profileName profileAvatar minister_badges profileOverride sybilScore sybilBucket).

(** Minting, once the code is accepted. *)
Definition mintTokens (clientId : string) (stored : AuthCode) (user : OidcUser) :
    thread OidcDB (result TokenError TokenResponse) :=
  sub ← read (resolveSub w (ac_userId stored) clientId);
  userClaims ← grantClaims (ac_userId stored) clientId sub user (ac_approvedBadgeIds stored)
    (ac_profileName stored) (ac_profileAvatar stored) (ac_sybilScore stored) (ac_sybilBucket stored);
  created ← act (createToken jti
    {| at_userId := ac_userId stored; at_clientId := clientId; at_scopes := ac_scopes stored;
       at_approvedBadgeIds := ac_approvedBadgeIds stored; at_profileName := ac_profileName stored;
       at_profileAvatar := ac_profileAvatar stored; at_sybilScore := ac_sybilScore stored;
       at_sybilBucket := ac_sybilBucket stored; at_anonEpoch := ac_anonEpoch stored;
       at_expiresAt := now + ACCESS_TOKEN_TTL_SECONDS * 1000; at_revokedAt := None |});
  if negb created then mret (Err TokenThrown)
  else
    _ ← write (auditRow (Some (ac_userId stored)) "oidc.token_issued");
    mret (Ok {| tr_idToken :=
                  {| it_sub := sub; it_aud := clientId; it_nonce := ac_nonce stored;
                     it_name := rc_name userClaims; it_picture := rc_picture userClaims;
                     it_minister_badges := rc_ministerBadges userClaims;
                     it_sybil_bucket := rc_sybilBucket userClaims;
                     it_minister_anon_epoch := ac_anonEpoch stored |};
                tr_accessJti := jti; tr_accessSub := sub; tr_scope := ac_scopes stored;
                tr_expires_in := ACCESS_TOKEN_TTL_SECONDS |}).

(** From the code's consumption on, for an authenticated client. *)
Definition exchangeCode (clientId code redirectUri codeVerifier : string) :
    thread OidcDB (result TokenError TokenResponse) :=
  consumed ← act (consumeCode now code);
  if negb consumed then
    _ ← write (auditRow None "oidc.token.invalid_grant");
    invalidGrant "code is invalid or already used"
  else
    stored ← read (fun db => fst <$> od_codes db !! code);
    match stored with
    | None => invalidGrant "code is invalid"
    | Some stored =>
        match codeProblem clientId redirectUri codeVerifier stored with
        | Some problem => invalidGrant problem
        | None =>
            user ← read (fun db => od_users db !! ac_userId stored);
            match user with
            | None => invalidGrant "user no longer exists"
            | Some user =>
                if bool_decide (ou_mergedIntoUserId user ≠ None) then
                  _ ← write (auditRow None "oidc.token.invalid_grant");
                  invalidGrant "user account was merged"
                else mintTokens clientId stored user
            end
        end
    end.

Definition tokenPOST (rq : TokenRequest) : thread OidcDB (result TokenError TokenResponse) :=
  if tq_limited rq then mret (Err RateLimited)
  else if negb (tq_formEncoded rq)
  then mret (Err (InvalidRequest "Content-Type must be application/x-www-form-urlencoded"))
  else if negb (bool_decide (tq_grant_type rq = Some "authorization_code"))
  then mret (Err UnsupportedGrantType)
  else match present (tq_code rq), present (tq_redirect_uri rq), present (tq_code_verifier rq) with
  | Some code, Some redirectUri, Some codeVerifier =>
      let '(clientId, clientSecret) := readClientCredentials rq in
      match present clientId with
      | None => mret (Err (InvalidRequest "client_id is required"))
      | Some clientId =>
          client ← read (fun db => od_clients db !! clientId);
          match client with
          | None => mret (Err (InvalidClient "Unknown client"))
          | Some client =>
              match present (oc_clientSecretHash client) with
              | None => exchangeCode clientId code redirectUri codeVerifier
              | Some hash =>
                  match present clientSecret with
                  | None => mret (Err (InvalidClient "client_secret required"))
                  | Some secret =>
                      if w_argonVerify w secret hash
                      then exchangeCode clientId code redirectUri codeVerifier
                      else mret (Err (InvalidClient "Bad client_secret"))
                  end
              end
          end
      end
  | _, _, _ => mret (Err (InvalidRequest "code, redirect_uri and code_verifier are required"))
  end.

(** ** Userinfo (app/oidc/userinfo/route.ts) *)

Record Userinfo := {
  ui_sub : string;
  ui_name : option string;
  ui_picture : option string;
  ui_sybil_bucket : option Z;
  ui_minister_anon_epoch : option Z;
  ui_minister_badges : list string;
}.

(** The claims of a verified access token. *)
Record AccessPayload := { ap_token_use : option string; ap_jti : option string; ap_sub : option string }.

(** [verified] is the payload when the bearer token verifies. *)
Definition userinfoGET (limited : bool) (verified : option AccessPayload) : thread OidcDB (result string Userinfo) :=
  if limited then mret (Err "temporarily_unavailable")
  else match verified with
  | None => mret (Err "Bearer token required")
  | Some payload =>
      if negb (bool_decide (ap_token_use payload = Some "access")) then mret (Err "Token is not an access token")
      else match ap_jti payload, present (ap_sub payload) with
      | None, _ => mret (Err "Token missing jti")
      | Some _, None => mret (Err "Token missing sub")
      | Some jti, Some sub =>
          found ← read (fun db => row ← od_tokens db !! jti; user ← od_users db !! at_userId row; Some (row, user));
          match found with
          | None => mret (Err "Token is not recognized")
          | Some (row, user) =>
              if bool_decide (at_revokedAt row ≠ None) then mret (Err "Token has been revoked")
              else if at_expiresAt row <? now then mret (Err "Token has expired")
              else if bool_decide (ou_mergedIntoUserId user ≠ None) then mret (Err "Token is not recognized")
              else
                resolved ← grantClaims (at_userId row) (at_clientId row) sub user (at_approvedBadgeIds row)
                  (at_profileName row) (at_profileAvatar row) (at_sybilScore row) (at_sybilBucket row);
                mret (Ok {| ui_sub := sub; ui_name := rc_name resolved; ui_picture := rc_picture resolved;
                            ui_sybil_bucket := rc_sybilBucket resolved;
                            ui_minister_anon_epoch := at_anonEpoch row;
                            ui_minister_badges := rc_ministerBadges resolved |})
          end
      end
  end.

End Token.

(** ** Requests *)

(** The endpoints, each request with its time and its fresh identifiers. *)
Inductive OidcRequest :=
  | RqConsent (now : Z) (code : string) (anonEnabled : bool) (holderCounts : gmap string Z)
      (config : option SybilScoringConfig) (session : option string) (request : option ValidAuthorizeRequest)
      (input : ApproveInput)
  | RqDeny (session : option string) (request : option ValidAuthorizeRequest)
  | RqToken (now : Z) (jti : string) (rq : TokenRequest)
  | RqUserinfo (now : Z) (limited : bool) (verified : option AccessPayload).

(** A response of the token endpoint carries the time and the request it answers. *)
Inductive OidcResponse :=
  | Consented (r : result string ApproveOk)
  | Denied (r : result string (string * OidcError * string * string))
  | Tokens (now : Z) (rq : TokenRequest) (r : result TokenError TokenResponse)
  | Info (r : result string Userinfo).

Definition handleOidc (w : World) (rq : OidcRequest) : thread OidcDB OidcResponse :=
  match rq with
  | RqConsent now code anon counts config session request input =>
      r ← approveConsent w now code anon counts config session request input; mret (Consented r)
  | RqDeny session request => r ← denyConsent session request; mret (Denied r)
  | RqToken now jti rq => r ← tokenPOST w now jti rq; mret (Tokens now rq r)
  | RqUserinfo now limited verified => r ← userinfoGET w now limited verified; mret (Info r)
  end.

(** The responses a pool of requests has given, and its database, under a schedule. *)
Definition serveOidc (w : World) (rqs : list OidcRequest) (sched : list nat) (db : OidcDB) :
    list OidcResponse * OidcDB :=
  let st := pool_run sched (handleOidc w <$> rqs, db) in (returned st.1, st.2).

(** ** Frames *)

(** What the disclosure of badges leaves alone: all but the status lists and the audit log. *)
Record quiet (db db' : OidcDB) : Prop := {
  q_clients : od_clients db' = od_clients db;
  q_users : od_users db' = od_users db;
  q_badges : od_badges db' = od_badges db;
  q_codes : od_codes db' = od_codes db;
  q_tokens : od_tokens db' = od_tokens db;
  q_grants : od_grants db' = od_grants db;
  q_overrides : od_overrides db' = od_overrides db;
  q_subjects : od_subjects db' = od_subjects db;
}.

#[export] Instance quiet_preorder : PreOrder quiet.
Proof.
  split; [by intros db|]. intros db1 db2 db3 [] []. split; by etrans.
Qed.

Create HintDb oidc.
#[export] Hint Resolve steps_in_ret steps_in_bind steps_in_act steps_in_write : oidc.
#[export] Hint Extern 1 (quiet _ _) => by split : oidc.

Ltac framed :=
  repeat first
    [ progress auto with oidc
    | apply steps_in_read; apply _
    | apply steps_in_bind; [|intros ?]
    | case_match ].

Lemma quiet_allocate w now anchor clientId db : quiet db (allocate w now anchor clientId db).2.
Proof. unfold allocate. destruct (run_alone _ _). by split. Qed.
#[export] Hint Resolve quiet_allocate : oidc.

Lemma omit_quiet userId actions : steps_in quiet (omit userId actions).
Proof. induction actions; simpl; framed. Qed.
#[export] Hint Resolve omit_quiet : oidc.

Lemma discloseBadge_quiet w now userId clientId sub owner row :
  steps_in quiet (discloseBadge w now userId clientId sub owner row).
Proof. unfold discloseBadge. framed. Qed.
#[export] Hint Resolve discloseBadge_quiet : oidc.

Lemma discloseAll_quiet w now userId clientId sub owner rows :
  steps_in quiet (discloseAll w now userId clientId sub owner rows).
Proof. induction rows; simpl; framed. Qed.
#[export] Hint Resolve discloseAll_quiet : oidc.

Lemma loadApprovedBadgeJwts_quiet w now userId clientId sub ids :
  steps_in quiet (loadApprovedBadgeJwts w now userId clientId sub ids).
Proof. unfold loadApprovedBadgeJwts. framed. Qed.
#[export] Hint Resolve loadApprovedBadgeJwts_quiet : oidc.

Lemma denyConsent_quiet session request : steps_in quiet (denyConsent session request).
Proof. unfold denyConsent. framed. Qed.
#[export] Hint Resolve denyConsent_quiet : oidc.

Lemma userinfoGET_quiet w now limited verified : steps_in quiet (userinfoGET w now limited verified).
Proof. unfold userinfoGET, grantClaims. framed. Qed.
#[export] Hint Resolve userinfoGET_quiet : oidc.

(** *** Redemption *)

(** Rows of codes and clients stay. *)
Definition keepsCodes (db db' : OidcDB) : Prop :=
  od_clients db' = od_clients db ∧ od_codes db ⊆ od_codes db'.

#[export] Instance keepsCodes_preorder : PreOrder keepsCodes.
Proof. split; [by intros db|]. intros db1 db2 db3 [E1 H1] [E2 H2]. split; by etrans. Qed.

Lemma quiet_keepsCodes db db' : quiet db db' → keepsCodes db db'.
Proof. intros []. split; [done|]. by rewrite q_codes0. Qed.

Lemma steps_in_quiet {A} (R : OidcDB → OidcDB → Prop) (t : thread OidcDB A) :
  (∀ db db', quiet db db' → R db db') → steps_in quiet t → steps_in R t.
Proof.
  intros HR. induction t as [a|f k IH]; simpl; [done|]. intros H db. destruct (H db). auto.
Qed.

Lemma consentTx_keeps code userId row grant on oa db :
  keepsCodes db (consentTx code userId row grant on oa db).2.
Proof.
  unfold consentTx. destruct (od_codes db !! code) eqn:E; [done|].
  cbn [snd]. split; [by case_match|]. transitivity (<[code := (row, None)]> (od_codes db)).
  - by apply insert_subseteq.
  - by case_match.
Qed.

Lemma approveConsent_keeps w now code anon counts config session request input :
  steps_in keepsCodes (approveConsent w now code anon counts config session request input).
Proof.
  assert (Hq : ∀ u a, steps_in keepsCodes (write (auditRow u a))) by by intros; apply steps_in_write.
  pose proof (fun c u r g on oa => steps_in_act _ _ (consentTx_keeps c u r g on oa)).
  unfold approveConsent. framed.
Qed.

(** The claims of a grant stay within it. *)
Lemma grantClaims_uses (I : nat → OidcDB → Prop) n w now userId clientId sub user (ids : list string) pn pa (ss : bool) sb :
  (∀ m db db', I m db → quiet db db' → I m db') →
  uses I (fun (cl : ResolvedUserClaims) n' => n' = n ∧ (pn = false → rc_name cl = None) ∧ (pa = false → rc_picture cl = None) ∧
            rc_sybilBucket cl = (if ss then sb else None) ∧ (ids = [] → rc_ministerBadges cl = []))
       n (grantClaims w now userId clientId sub user ids pn pa ss sb).
Proof.
  intros HI. unfold grantClaims. destruct (decide (ids = [])) as [->|Hids].
  - unfold loadApprovedBadgeJwts. apply uses_read. intros m db _. simpl. by destruct pn, pa.
  - eapply uses_frame; [exact HI|auto with oidc|]. intros jwts. apply uses_read. intros m db _.
    simpl. by destruct pn, pa.
Qed.

Section Redemption.
Context (w : World) (c : string).

(** The tokens issued for the code [c]. *)
Definition exchanged (r : OidcResponse) : nat :=
  match r with
  | Tokens _ rq (Ok _) => if decide (present (tq_code rq) = Some c) then 1 else 0
  | _ => 0
  end.

Context (clients : gmap string OidcClient) (row : option AuthCode).

(** The database holds the token of the code until the code is consumed; when the code was
    stored, its row is known. *)
Definition codeAccount (m : nat) (db : OidcDB) : Prop :=
  od_clients db = clients ∧
  (m = 0%nat → ∃ x t, od_codes db !! c = Some (x, Some t)) ∧
  ∀ d, row = Some d → ∃ cons, od_codes db !! c = Some (d, cons).

Lemma codeAccount_keeps m db db' : codeAccount m db → keepsCodes db db' → codeAccount m db'.
Proof.
  intros (Hcl & Hm & Hd) [E Hs]. split_and!; [by rewrite E| |].
  - intros (x & t & Hx)%Hm. exists x, t. by eapply lookup_weaken.
  - intros d (cons & Hc)%Hd. exists cons. by eapply lookup_weaken.
Qed.

(** A client that has a secret presented it. *)
Definition clientAuthenticated (rq : TokenRequest) (clientId : string) : Prop :=
  ∃ client, clients !! clientId = Some client ∧
    ∀ hash, present (oc_clientSecretHash client) = Some hash →
      ∃ secret, present (readClientCredentials rq).2 = Some secret ∧ w_argonVerify w secret hash = true.

(** The checks an exchange of a code has passed. *)
Definition mayExchange (now : Z) (rq : TokenRequest) (d : AuthCode) : Prop :=
  now <= ac_expiresAt d ∧
  present (readClientCredentials rq).1 = Some (ac_clientId d) ∧
  clientAuthenticated rq (ac_clientId d) ∧
  present (tq_redirect_uri rq) = Some (ac_redirectUri d) ∧
  ∃ v, present (tq_code_verifier rq) = Some v ∧ w_sha256 w v = w_base64url w (ac_codeChallenge d).

(** What the tokens for a code carry. *)
Definition carriesConsent (d : AuthCode) (tr : TokenResponse) : Prop :=
  let t := tr_idToken tr in
  it_aud t = ac_clientId d ∧ it_nonce t = ac_nonce d ∧ tr_scope tr = ac_scopes d ∧
  it_sub t = tr_accessSub tr ∧
  (ac_profileName d = false → it_name t = None) ∧
  (ac_profileAvatar d = false → it_picture t = None) ∧
  it_sybil_bucket t = (if ac_sybilScore d then ac_sybilBucket d else None) ∧
  it_minister_anon_epoch t = ac_anonEpoch d ∧
  (ac_approvedBadgeIds d = [] → it_minister_badges t = []).

Definition paidFor (now : Z) (rq : TokenRequest) (r : result TokenError TokenResponse) (n : nat) : Prop :=
  (exchanged (Tokens now rq r) <= n)%nat ∧
  ∀ d tr, row = Some d → present (tq_code rq) = Some c → r = Ok tr → mayExchange now rq d ∧ carriesConsent d tr.

Lemma paidFor_error now rq e n : paidFor now rq (Err e) n.
Proof. split; [simpl; lia|naive_solver]. Qed.

Lemma codeProblem_None now clientId redirectUri v d :
  codeProblem w now clientId redirectUri v d = None →
  now <= ac_expiresAt d ∧ clientId = ac_clientId d ∧ redirectUri = ac_redirectUri d ∧
  w_sha256 w v = w_base64url w (ac_codeChallenge d).
Proof.
  unfold codeProblem, verifyPkceS256. intros H. repeat (case_match; try done); bool_hyps.
  split_and!; try done; try lia.
Qed.

Lemma consumeCode_account now code m db :
  codeAccount m db →
  ∃ m' n', (m' + n' <= m)%nat ∧ codeAccount m' (consumeCode now code db).2 ∧
    ((consumeCode now code db).1 = true → code = c → n' = 1%nat).
Proof.
  intros (Hcl & Hm & Hd). unfold consumeCode.
  destruct (od_codes db !! code) as [[x [t|]]|] eqn:E; cbn [fst snd];
    try (exists m, 0%nat; split_and!; [lia|by split_and!|done]).
  destruct (decide (code = c)) as [->|Hne].
  - exists 0%nat, 1%nat. split_and!; [|split_and!|done]; simpl; [|done|..].
    + destruct m; [|lia]. destruct Hm as (? & ? & Hc); [done|]. congruence.
    + intros _. exists x, now. by rewrite lookup_insert_eq.
    + intros d (cons & Hc)%Hd. rewrite lookup_insert_eq. exists (Some now). congruence.
  - exists m, 0%nat. split_and!; [lia|split_and!; [done|..]|done]; simpl; by rewrite lookup_insert_ne.
Qed.

Lemma uses_keeps {A B} (Q : B → nat → Prop) n (t : thread OidcDB A) (k : A → thread OidcDB B) :
  steps_in keepsCodes t → (∀ a, uses codeAccount Q n (k a)) → uses codeAccount Q n (t ≫= k).
Proof. apply uses_frame. apply codeAccount_keeps. Qed.

Lemma mintTokens_paid now jti rq stored user n :
  (present (tq_code rq) = Some c → n = 1%nat) →
  (∀ d, row = Some d → present (tq_code rq) = Some c → d = stored) → mayExchange now rq stored →
  uses codeAccount (paidFor now rq) n (mintTokens w now jti (ac_clientId stored) stored user).
Proof.
  intros Hn Hd Hmay. unfold mintTokens.
  apply uses_read. intros _ db0 _. set (sub := resolveSub _ _ _ db0).
  apply uses_bind. eapply uses_impl; [|apply grantClaims_uses].
  - intros cl ? (-> & Hname & Hpic & Hsyb & Hbadges). apply uses_keeps.
    { apply steps_in_act. intros db. unfold createToken. by destruct (od_tokens db !! jti). }
    intros [|]; [|apply paidFor_error]. apply uses_keeps; [by apply steps_in_write|]. intros _.
    split; [simpl; case_decide; [rewrite Hn; [lia|done]|lia]|].
    intros d tr Hrow Hcode [= <-]. by rewrite (Hd d Hrow Hcode).
  - intros m db db' Ha Hq. eapply codeAccount_keeps; [done|]. by apply quiet_keepsCodes.
Qed.

Lemma exchangeCode_paid now jti rq clientId code redirectUri v :
  present (tq_code rq) = Some code → present (readClientCredentials rq).1 = Some clientId →
  present (tq_redirect_uri rq) = Some redirectUri → present (tq_code_verifier rq) = Some v →
  clientAuthenticated rq clientId →
  uses codeAccount (paidFor now rq) 0 (exchangeCode w now jti clientId code redirectUri v).
Proof.
  intros Hcode Hid Huri Hv Hauth. unfold exchangeCode. apply uses_act. intros m db Ha.
  destruct (consumeCode_account now code m db Ha) as (m' & n' & Hle & Ha' & Hn).
  exists m', n'. split_and!; [lia|done|].
  destruct (consumeCode now code db).1; cbn [negb].
  - apply uses_read. intros m1 db1 (_ & _ & Hrow).
    destruct (od_codes db1 !! code) as [[stored cons]|] eqn:E; cbn [fmap option_fmap option_map fst]; [|apply paidFor_error].
    destruct (codeProblem w now clientId redirectUri v stored) eqn:Ep; [apply paidFor_error|].
    apply codeProblem_None in Ep as (Hexp & -> & -> & Hpkce).
    apply uses_read. intros m2 db2 _. destruct (od_users db2 !! _) as [user|]; [|apply paidFor_error].
    case_bool_decide.
    + apply uses_keeps; [by apply steps_in_write|]. intros _. apply paidFor_error.
    + apply mintTokens_paid; [naive_solver| |].
      * intros d (cons' & Hc)%Hrow ?. congruence.
      * split_and!; eauto.
  - apply uses_keeps; [by apply steps_in_write|]. intros _. apply paidFor_error.
Qed.

Lemma tokenPOST_paid now jti rq : uses codeAccount (paidFor now rq) 0 (tokenPOST w now jti rq).
Proof.
  unfold tokenPOST. repeat (case_match; [apply paidFor_error|]).
  destruct (present (tq_code rq)) as [code|] eqn:Ec; [|apply paidFor_error].
  destruct (present (tq_redirect_uri rq)) as [uri|] eqn:Eu; [|apply paidFor_error].
  destruct (present (tq_code_verifier rq)) as [v|] eqn:Ev; [|apply paidFor_error].
  destruct (readClientCredentials rq) as [clientId secret] eqn:Er.
  destruct (present clientId) as [clientId'|] eqn:Ei; [|apply paidFor_error].
  apply uses_read. intros m db (Hcl & _). rewrite Hcl.
  destruct (clients !! clientId') as [client|] eqn:Eclient; [|apply paidFor_error].
  destruct (present (oc_clientSecretHash client)) as [hash|] eqn:Eh.
  - destruct (present secret) as [s|] eqn:Es; [|apply paidFor_error].
    case_match; [|apply paidFor_error].
    apply exchangeCode_paid; try done; [by rewrite Er|].
    exists client. rewrite Er, Eh. naive_solver.
  - apply exchangeCode_paid; try done; [by rewrite Er|]. exists client. rewrite Eh. naive_solver.
Qed.

(** What a response costs, and what it says when it is tokens for the code. *)
Definition responsePaid (r : OidcResponse) (n : nat) : Prop :=
  (exchanged r <= n)%nat ∧
  match r with
  | Tokens now rq (Ok tr) =>
      ∀ d, row = Some d → present (tq_code rq) = Some c → mayExchange now rq d ∧ carriesConsent d tr
  | _ => True
  end.

Lemma handleOidc_paid rq : uses codeAccount responsePaid 0 (handleOidc w rq).
Proof.
  destruct rq as [now code anon counts config session request input|session request|now jti rq|now limited verified]; unfold handleOidc.
  - apply uses_keeps; [apply approveConsent_keeps|]. intros r. by split; [simpl; lia|].
  - apply uses_keeps; [|intros r; by split; [simpl; lia|]].
    eapply steps_in_quiet; [apply quiet_keepsCodes|auto with oidc].
  - apply uses_bind. eapply uses_impl; [|apply tokenPOST_paid]. intros r n [Hle Hpost].
    split; [done|]. destruct r; [|done]. eauto.
  - apply uses_keeps; [|intros r; by split; [simpl; lia|]].
    eapply steps_in_quiet; [apply quiet_keepsCodes|auto with oidc].
Qed.

End Redemption.

Lemma serveOidc_paid w c clients row rqs sched db m :
  codeAccount c clients row m db →
  (sum_list (exchanged c <$> (serveOidc w rqs sched db).1) <= m)%nat ∧
  Forall (fun r => match r with
                   | Tokens now rq (Ok tr) => ∀ d, row = Some d → present (tq_code rq) = Some c →
                       mayExchange w clients now rq d ∧ carriesConsent d tr
                   | _ => True
                   end) (serveOidc w rqs sched db).1.
Proof.
  intros Ha. unfold serveOidc. simpl.
  destruct (pool_accounts (codeAccount c clients row) (responsePaid w c clients row) (exchanged c) _
    sched (handleOidc w <$> rqs) db m (fun a n H => H) Ha) as (? & HP & _); [|done].
  apply Forall_fmap, Forall_true. intros rq. apply handleOidc_paid.
Qed.

(** *** What is issued *)

(** A disclosure stays within the scopes it was granted: own badges of granted types, the
    profile fields and the bucket each under its scope. *)
Record within (badges : list BadgeRow) (userId : string) (scopes ids : list string) (pn pa ss : bool)
    (sb : option Z) : Prop := {
  wi_badges : ∀ id, id ∈ ids → ∃ b, b ∈ badges ∧ br_id b = id ∧ br_userId b = userId ∧
                "badge:" +:+ br_type b ∈ scopes;
  wi_profile : pn || pa = true → "profile" ∈ scopes;
  wi_sybil : ss = true → "sybil-score" ∈ scopes;
  wi_bucket : sb ≠ None → ss = true;
}.

(** The standing grant records what a code discloses. *)
Definition recorded (row : AuthCode) (g : GrantState) : Prop :=
  ac_approvedBadgeIds row ⊆ gs_badgeIds g ∧ (ac_profileName row = true → gs_profileName g = true) ∧
  (ac_profileAvatar row = true → gs_profileAvatar g = true) ∧
  (ac_sybilScore row = true → gs_sybilScore g = true).

Record issued_ok (badges : list BadgeRow) (db : OidcDB) : Prop := {
  io_badges : od_badges db = badges;
  io_codes : ∀ code row cons, od_codes db !! code = Some (row, cons) →
    within badges (ac_userId row) (ac_scopes row) (ac_approvedBadgeIds row) (ac_profileName row)
      (ac_profileAvatar row) (ac_sybilScore row) (ac_sybilBucket row) ∧
    recorded row (loadGrant (ac_userId row) (ac_clientId row) db);
  io_tokens : ∀ jti row, od_tokens db !! jti = Some row →
    within badges (at_userId row) (at_scopes row) (at_approvedBadgeIds row) (at_profileName row)
      (at_profileAvatar row) (at_sybilScore row) (at_sybilBucket row);
}.

Lemma strip_prefix_app p s : strip_prefix p (p +:+ s) = Some s.
Proof. induction p as [|a p IH]; simpl; [done|]. by rewrite decide_True. Qed.

Lemma loadBadges_own u ids b db :
  b ∈ loadBadgesForUser u ids db → ∃ r, r ∈ od_badges db ∧ br_userId r = u ∧ b = toPolicyUserBadge r.
Proof.
  unfold loadBadgesForUser. case_decide; [by intros ?%elem_of_nil|].
  intros (r & -> & [[? ?] ?]%list_elem_of_filter)%list_elem_of_fmap. eauto.
Qed.

Lemma minimize_sub policy l counts now b : b ∈ minimizeToPolicy policy l counts now → b ∈ l.
Proof. unfold minimizeToPolicy. destruct policy; [|done]. by intros [_ ?]%list_elem_of_filter. Qed.

Lemma union_sub a l b : b ∈ unionBadgesById a l → b ∈ a ∨ b ∈ l.
Proof. unfold unionBadgesById. rewrite elem_of_app, list_elem_of_filter. naive_solver. Qed.

Lemma requestedTypes_scope t scopes : t ∈ requestedTypes scopes → "badge:" +:+ t ∈ scopes.
Proof.
  unfold requestedTypes. by intros (sc & Hs & ->%strip_prefix_Some)%list_elem_of_omap.
Qed.

(** A badge that is disclosed keeps its scope. *)
Lemma effective_badge scopes ap ass bs b :
  b ∈ bs → "badge:" +:+ badge_type b ∈ scopes →
  "badge:" +:+ badge_type b ∈ effectiveScopes scopes ap ass (map badge_id bs) bs.
Proof.
  intros Hb Hs. unfold effectiveScopes. apply list_elem_of_In, filter_In. rewrite <-list_elem_of_In. split; [done|].
  unfold keepScope. repeat (case_decide; [discriminate|]). rewrite strip_prefix_app.
  apply existsb_exists. exists b. rewrite <-list_elem_of_In. split; [done|].
  rewrite !bool_decide_true; [done| |done]. by apply list_elem_of_fmap_2.
Qed.

Lemma effective_flag scopes ap ass ids bs f :
  f ∈ scopes → keepScope ap ass ids bs f = true → f ∈ effectiveScopes scopes ap ass ids bs.
Proof.
  intros Hs Hk. unfold effectiveScopes. apply list_elem_of_In, filter_In. by rewrite <-list_elem_of_In.
Qed.

(** Accumulation never forgets what was recorded. *)
Lemma recorded_upsert row u c g db :
  recorded row (loadGrant (ac_userId row) (ac_clientId row) db) →
  recorded row (loadGrant (ac_userId row) (ac_clientId row) (upsertGrant u c g db)).
Proof.
  intros (Hids & Hn & Ha & Hs). unfold upsertGrant, loadGrant at 1. simpl. rewrite lookup_insert.
  destruct (decide ((u, c) = (ac_userId row, ac_clientId row))) as [[= -> ->]|]; [|done].
  unfold recorded. simpl. split_and!.
  - unfold unionTypes. intros id Hid. rewrite elem_of_set_of. set_solver.
  - by intros ->%Hn.
  - by intros ->%Ha.
  - by intros ->%Hs.
Qed.

Lemma recorded_fresh row g db :
  ac_approvedBadgeIds row = gs_badgeIds g → ac_profileName row = gs_profileName g →
  ac_profileAvatar row = gs_profileAvatar g → ac_sybilScore row = gs_sybilScore g →
  recorded row (loadGrant (ac_userId row) (ac_clientId row) (upsertGrant (ac_userId row) (ac_clientId row) g db)).
Proof.
  intros E1 E2 E3 E4. unfold upsertGrant, loadGrant at 1. simpl. rewrite lookup_insert_eq.
  unfold recorded. simpl. rewrite E1, E2, E3, E4. split_and!; try (by intros ->; rewrite orb_true_r).
  unfold unionTypes. intros id Hid. rewrite elem_of_set_of. set_solver.
Qed.

Lemma consentTx_issued B code row g on oa db :
  issued_ok B db →
  within B (ac_userId row) (ac_scopes row) (ac_approvedBadgeIds row) (ac_profileName row)
    (ac_profileAvatar row) (ac_sybilScore row) (ac_sybilBucket row) →
  ac_approvedBadgeIds row = gs_badgeIds g → ac_profileName row = gs_profileName g →
  ac_profileAvatar row = gs_profileAvatar g → ac_sybilScore row = gs_sybilScore g →
  issued_ok B (consentTx code (ac_userId row) row g on oa db).2.
Proof.
  intros [Hb Hc Ht] Hw E1 E2 E3 E4. unfold consentTx.
  destruct (od_codes db !! code) eqn:E; [done|]. cbn [snd].
  set (db1 := upsertGrant _ _ _ _).
  assert (H1 : issued_ok B db1).
  { split; [done| |done]. intros code' row' cons. simpl. rewrite lookup_insert. case_decide.
    - intros [= <- <-]. split; [done|]. by apply recorded_fresh.
    - intros [? ?]%Hc. split; [done|]. by apply recorded_upsert. }
  case_match; [|done]. destruct H1. by split.
Qed.

Lemma quiet_issued B db db' : issued_ok B db → quiet db db' → issued_ok B db'.
Proof.
  intros [] []. split; [by rewrite q_badges0| |rewrite q_tokens0; done].
  unfold loadGrant. by rewrite q_codes0, q_grants0.
Qed.

Definition issuedHolds (B : list BadgeRow) (m : nat) (db : OidcDB) : Prop := issued_ok B db.

Lemma uses_quiet {A C} B (Q : C → nat → Prop) n (t : thread OidcDB A) (k : A → thread OidcDB C) :
  steps_in quiet t → (∀ a, uses (issuedHolds B) Q n (k a)) → uses (issuedHolds B) Q n (t ≫= k).
Proof. apply uses_frame. intros m db db'. apply quiet_issued. Qed.

Lemma uses_keep {A C} B (Q : C → nat → Prop) n (f : OidcDB → A * OidcDB) (k : A → thread OidcDB C) :
  (∀ db, issued_ok B db → issued_ok B (f db).2) → (∀ a, uses (issuedHolds B) Q n (k a)) →
  uses (issuedHolds B) Q n (act f ≫= k).
Proof. intros Hf Hk. apply uses_act. intros m db H. exists m, n. split_and!; [lia|by apply Hf|apply Hk]. Qed.

Section Issued.
Context (w : World) (B : list BadgeRow).

(** Any result will do: the invariant is what is kept. *)
Definition any {A} (a : A) (n : nat) : Prop := True.

Ltac kept :=
  repeat first
    [ done
    | apply uses_quiet; [by auto with oidc|intros ?]
    | apply uses_read; intros ? ? ?
    | case_match ].

Lemma consent_within userId request ids (gids : list string) owned granted counts now an aa ss sb :
  let types := requestedTypes (vr_scopes request) in
  let keep := filter (fun b => badge_type b ∈ types) in
  let userBadges := minimizeToPolicy (vr_policy request) (unionBadgesById (keep owned) (keep granted)) counts now in
  let approveName := bool_decide ("profile" ∈ vr_scopes request) && an in
  let approveAvatar := bool_decide ("profile" ∈ vr_scopes request) && aa in
  let approveSybilScore := bool_decide ("sybil-score" ∈ vr_scopes request) && ss in
  (∃ db, od_badges db = B ∧ owned = loadBadgesForUser userId ids db) →
  (∃ db, od_badges db = B ∧ granted = loadBadgesForUser userId gids db) →
  (sb ≠ None → approveSybilScore = true) →
  within B userId
    (effectiveScopes (vr_scopes request) (approveName || approveAvatar) approveSybilScore
       (map badge_id userBadges) userBadges)
    (map badge_id userBadges) approveName approveAvatar approveSybilScore sb.
Proof using.
  intros types keep userBadges approveName approveAvatar approveSybilScore (db1 & H1 & ->) (db2 & H2 & ->) Hsb.
  split; [| | |done].
  - intros id (b & -> & Hb)%list_elem_of_fmap.
    assert (Hown : badge_type b ∈ types ∧ ∃ r, r ∈ B ∧ br_userId r = userId ∧ b = toPolicyUserBadge r).
    { apply minimize_sub in Hb as [Hb|Hb]%union_sub; apply list_elem_of_filter in Hb as [Ht Hb];
        (split; [done|]); [rewrite <-H1|rewrite <-H2]; by eapply loadBadges_own. }
    destruct Hown as [Ht%requestedTypes_scope (r & Hr & Hu & Hbr)]. exists r.
    pose proof (effective_badge _ (approveName || approveAvatar) approveSybilScore _ _ Hb Ht) as He.
    rewrite Hbr in He |- *. by split_and!.
  - intros Hp. assert (Hin : "profile" ∈ vr_scopes request).
    { unfold approveName, approveAvatar in Hp. by case_bool_decide. }
    apply effective_flag; [done|]. unfold keepScope. by rewrite Hp.
  - intros Hs. assert (Hin : "sybil-score" ∈ vr_scopes request).
    { unfold approveSybilScore in Hs. by case_bool_decide. }
    apply effective_flag; [done|]. unfold keepScope. by rewrite Hs.
Qed.

Lemma approveConsent_issued now code anon counts config session request input :
  uses (issuedHolds B) any 0 (approveConsent w now code anon counts config session request input).
Proof using.
  unfold approveConsent. destruct session as [userId|]; [|done]. destruct request as [request|]; [|done].
  apply uses_read. intros m1 db1 H1. apply uses_read. intros m2 db2 _.
  apply uses_read. intros m3 db3 H3.
  destruct (normalizeProfileInput w _ _) as [[on oa]|]; [|done].
  apply uses_bind. eapply (uses_impl _ (fun sb n => n = 0%nat ∧
    (sb ≠ None → bool_decide ("sybil-score" ∈ vr_scopes request) && ai_approveSybilScore input = true))).
  - intros sb ? [-> Hsb]. apply uses_quiet; [framed|]. intros appId. apply uses_quiet; [framed|]. intros epoch.
    apply uses_keep; [|intros ?; kept]. intros db Hdb. apply consentTx_issued; [done| |done..].
    apply (consent_within _ _ (ai_approvedBadgeIds input) (gs_badgeIds (loadGrant userId (vr_clientId request) db2)));
      [exists db1; by destruct H1|exists db3; by destruct H3|done].
  - destruct (bool_decide _ && ai_approveSybilScore input); [|done]. apply uses_read. intros m4 db4 _. destruct (consentBucket _ _ _ _); [done|].
    apply uses_quiet; [by auto with oidc|]. done.
Qed.

Lemma tokenPOST_issued now jti rq : uses (issuedHolds B) any 0 (tokenPOST w now jti rq).
Proof using.
  assert (He : ∀ clientId code uri v, uses (issuedHolds B) any 0 (exchangeCode w now jti clientId code uri v)).
  { intros clientId code uri v. unfold exchangeCode. apply uses_keep.
    { intros db [Hb Hc Ht]. unfold consumeCode. destruct (od_codes db !! code) as [[x [t|]]|] eqn:E; try done.
      split; [done| |done]. intros code' row cons. simpl. rewrite lookup_insert. case_decide; [|apply Hc].
      intros [= <- <-]. subst. by eapply Hc. }
    intros [|]; [|kept]. apply uses_read. intros m db Hdb.
    destruct (od_codes db !! code) as [[stored cons]|] eqn:E; cbn [fmap option_fmap option_map fst]; [|done].
    destruct (io_codes _ _ Hdb _ _ _ E) as [Hw _].
    case_match; [done|]. apply uses_read. intros m' db' _. case_match; [|done]. case_match; [kept|].
    unfold mintTokens, grantClaims. apply uses_read. intros _ dbs _. apply uses_quiet; [framed|]. intros claims.
    apply uses_keep; [|intros ?; kept]. intros db2 [Hb Hc Ht]. unfold createToken.
    destruct (od_tokens db2 !! jti) eqn:Ej; [done|]. split; [done..|]. intros jti' row. simpl.
    rewrite lookup_insert. case_decide; [|apply Ht]. by intros [= <-]. }
  unfold tokenPOST. kept.
Qed.

Lemma handleOidc_issued rq : uses (issuedHolds B) any 0 (handleOidc w rq).
Proof using.
  destruct rq; unfold handleOidc.
  - apply uses_bind. eapply uses_impl; [|apply approveConsent_issued]. done.
  - apply uses_quiet; [auto with oidc|done].
  - apply uses_bind. eapply uses_impl; [|apply tokenPOST_issued]. done.
  - apply uses_quiet; [auto with oidc|done].
Qed.

End Issued.

(** *** Userinfo repeats the ID token *)

Lemma grantClaims_run w now userId clientId sub user ids pn pa ss sb db :
  ∃ jwts db', run_solo (grantClaims w now userId clientId sub user ids pn pa ss sb) db =
    (resolveUserClaims user pn pa jwts (loadProfileOverride userId clientId (pn || pa) db) ss sb, db') ∧
    quiet db db'.
Proof.
  unfold grantClaims. rewrite run_solo_bind.
  pose proof (steps_in_run quiet _ db (loadApprovedBadgeJwts_quiet w now userId clientId sub ids)) as Hq.
  destruct (run_solo _ db) as [jwts db']. exists jwts, db'. split; [|done]. simpl in *.
  unfold loadProfileOverride. by rewrite (q_overrides _ _ Hq).
Qed.

(** The token row a code becomes. *)
Definition tokenOf (now : Z) (d : AuthCode) (clientId : string) : AccessToken :=
  {| at_userId := ac_userId d; at_clientId := clientId; at_scopes := ac_scopes d;
     at_approvedBadgeIds := ac_approvedBadgeIds d; at_profileName := ac_profileName d;
     at_profileAvatar := ac_profileAvatar d; at_sybilScore := ac_sybilScore d;
     at_sybilBucket := ac_sybilBucket d; at_anonEpoch := ac_anonEpoch d;
     at_expiresAt := now + ACCESS_TOKEN_TTL_SECONDS * 1000; at_revokedAt := None |}.

(** What a successful exchange leaves behind. *)
Definition exchangedTo (now : Z) (jti : string) (tr : TokenResponse) (db : OidcDB) : Prop :=
  ∃ d clientId user jwts,
    let claims := resolveUserClaims user (ac_profileName d) (ac_profileAvatar d) jwts
      (loadProfileOverride (ac_userId d) clientId (ac_profileName d || ac_profileAvatar d) db)
      (ac_sybilScore d) (ac_sybilBucket d) in
    od_tokens db !! jti = Some (tokenOf now d clientId) ∧ od_users db !! ac_userId d = Some user ∧
    ou_mergedIntoUserId user = None ∧ tr_accessJti tr = jti ∧ tr_accessSub tr = it_sub (tr_idToken tr) ∧
    it_name (tr_idToken tr) = rc_name claims ∧ it_picture (tr_idToken tr) = rc_picture claims ∧
    it_sybil_bucket (tr_idToken tr) = rc_sybilBucket claims ∧
    it_minister_anon_epoch (tr_idToken tr) = ac_anonEpoch d.

Lemma mintTokens_run w now jti clientId d user db tr db' :
  od_users db !! ac_userId d = Some user → ou_mergedIntoUserId user = None →
  run_solo (mintTokens w now jti clientId d user) db = (Ok tr, db') → exchangedTo now jti tr db'.
Proof.
  intros Hu Hm. unfold mintTokens.
  rewrite run_solo_bind. cbn [read act run_solo fst snd]. rewrite run_solo_bind.
  edestruct grantClaims_run as (jwts & db1 & -> & Hq). cbn [fst snd].
  rewrite run_solo_bind. unfold createToken. cbn [act run_solo fst snd].
  destruct (od_tokens db1 !! jti) eqn:Ej; cbn; [done|].
  intros [= <- <-]. exists d, clientId, user, jwts. cbn [od_tokens od_users auditRow set_tokens].
  rewrite lookup_insert_eq, (q_users _ _ Hq). split_and!; try done; cbn;
    unfold loadProfileOverride; cbn; by rewrite (q_overrides _ _ Hq).
Qed.

Lemma tokenPOST_run w now jti rq db tr db' :
  run_solo (tokenPOST w now jti rq) db = (Ok tr, db') → exchangedTo now jti tr db'.
Proof.
  assert (He : ∀ clientId code uri v, run_solo (exchangeCode w now jti clientId code uri v) db = (Ok tr, db') →
    exchangedTo now jti tr db').
  { intros clientId code uri v. unfold exchangeCode. rewrite run_solo_bind. cbn [act run_solo fst snd].
    destruct (consumeCode now code db) as [[|] db1]; cbn [fst snd negb]; [|done].
    rewrite run_solo_bind. cbn [read act run_solo fst snd].
    destruct (fst <$> od_codes db1 !! code) as [d|]; [|done]. case_match; [done|].
    rewrite run_solo_bind. cbn [read act run_solo fst snd].
    destruct (od_users db1 !! ac_userId d) as [user|] eqn:Eu; [|done]. case_bool_decide as Hm; [done|].
    apply mintTokens_run; [done|]. by destruct (ou_mergedIntoUserId user); [destruct Hm|]. }
  unfold tokenPOST. repeat (case_match; try done);
  rewrite run_solo_bind; cbn [read act run_solo fst snd];
  repeat (case_match; try done); eauto.
Qed.

(** ** Properties *)

(** A public client, a user with two badges, and stand-ins for the world's functions: a hash
    is the list of character codes, and the re-mint of a credential is its jti. *)
Definition demo_codes (s : string) : list Z :=
  map (fun a => Z.of_nat (Ascii.nat_of_ascii a)) (String.list_ascii_of_string s).

Definition demo_world : World :=
  {| w_did := "did:web:m"; w_domain := "m"; w_sha256 := demo_codes; w_base64url := demo_codes;
     w_argonVerify := String.eqb; w_pairwiseSub := fun u c => u +:+ "@" +:+ c;
     w_pairwiseJti := fun b c => b +:+ "@" +:+ c; w_disclose := fun _ _ _ => None;
     w_driftOk := fun _ _ _ => true; w_reMint := fun _ _ o => Some (rm_jti o);
     w_urlProtocol := fun _ => Some "https:"; w_cuid := fun _ => "list"; w_draw := fun n => Z.of_nat n |}.

Definition demo_row (id type : string) : BadgeRow :=
  {| br_id := id; br_userId := "u"; br_type := type; br_attributes := None; br_issuedAt := 0;
     br_expiresAt := None; br_issuer := "did:web:m"; br_vcJwt := id; br_nullifierRef := None;
     br_statusAnchor := None |}.

Definition demo_odb : OidcDB :=
  {| od_clients := {[ "rp" := {| oc_name := "RP"; oc_redirectUris := ["https://rp/cb"];
                                 oc_allowedScopes := ["openid"; "profile"; "badge:github"];
                                 oc_clientSecretHash := Some "s3cret"; oc_anonAppId := None |} ]};
     od_users := {[ "u" := {| ou_displayName := Some "Ada"; ou_avatarUrl := None;
                              ou_mergedIntoUserId := None; ou_dedupHandle := None |} ]};
     od_badges := [demo_row "b1" "github"; demo_row "b2" "email-domain"];
     od_codes := ∅; od_tokens := ∅; od_grants := ∅; od_overrides := ∅; od_subjects := ∅;
     od_memberships := ∅; od_epochs := ∅;
     od_status := {| db_lists := ∅; db_entries := ∅; db_tombstones := ∅; db_audit := [] |};
     od_audit := [] |}.

(** The user approves the name and submits both badges, of which one was requested. *)
Definition demo_consent : OidcRequest :=
  RqConsent 1000 "code1" false ∅ None (Some "u")
    (Some {| vr_clientId := "rp"; vr_clientName := "RP"; vr_allowedScopes := [];
             vr_redirectUri := "https://rp/cb"; vr_scopes := ["openid"; "profile"; "badge:github"];
             vr_state := "st"; vr_nonce := "no"; vr_codeChallenge := "pkce"; vr_codeChallengeMethod := "S256";
             vr_policy := None |})
    {| ai_approvedBadgeIds := ["b1"; "b2"]; ai_approveName := true; ai_approveAvatar := false;
       ai_approveSybilScore := true; ai_nameValue := Some "Countess"; ai_avatarValue := None |}.

Definition demo_token : TokenRequest :=
  {| tq_limited := false; tq_formEncoded := true; tq_grant_type := Some "authorization_code";
     tq_code := Some "code1"; tq_redirect_uri := Some "https://rp/cb"; tq_code_verifier := Some "pkce";
     tq_client_id := Some "rp"; tq_client_secret := Some "s3cret"; tq_basic := None |}.

Definition demo_response : TokenResponse :=
  {| tr_idToken := {| it_sub := "u@rp"; it_aud := "rp"; it_nonce := "no"; it_name := Some "Countess";
                      it_picture := None; it_minister_badges := ["b1@rp"]; it_sybil_bucket := None;
                      it_minister_anon_epoch := None |};
     tr_accessJti := "j1"; tr_accessSub := "u@rp"; tr_scope := ["openid"; "profile"; "badge:github"];
     tr_expires_in := 3600 |}.

Definition demo_code : AuthCode :=
  {| ac_clientId := "rp"; ac_userId := "u"; ac_redirectUri := "https://rp/cb";
     ac_scopes := ["openid"; "profile"; "badge:github"]; ac_approvedBadgeIds := ["b1"];
     ac_profileName := true; ac_profileAvatar := false; ac_sybilScore := false; ac_sybilBucket := None;
     ac_anonEpoch := None; ac_nonce := "no"; ac_codeChallenge := "pkce"; ac_codeChallengeMethod := "S256";
     ac_expiresAt := 61000 |}.

(** The database after the consent. *)
Definition demo_consented : OidcDB := (serveOidc demo_world [demo_consent] (replicate 12 0%nat) demo_odb).2.

(** C1: under any interleaving of consents, token requests and userinfo requests, an
    authorization code is exchanged for tokens at most once. *)
Theorem code_redeemed_once w rqs sched db c :
  (sum_list (exchanged c <$> (serveOidc w rqs sched db).1) <= 1)%nat.
Proof. by apply (serveOidc_paid w c (od_clients db) None). Qed.


Definition demo_race : list OidcRequest := [RqToken 2000 "j1" demo_token; RqToken 2000 "j2" demo_token].




(** userinfo with the access token of an exchange succeeds until the token expires, and
    returns the subject, name, picture, bucket and epoch of the ID token as long as the
    user and its persona are unchanged. *)
Theorem userinfo_repeats_id_token w now jti rq db tr db1 db2 now2 :
  run_solo (tokenPOST w now jti rq) db = (Ok tr, db1) →
  od_tokens db2 !! jti = od_tokens db1 !! jti → od_users db2 = od_users db1 →
  od_overrides db2 = od_overrides db1 → tr_accessSub tr ≠ "" →
  let r := (run_solo (userinfoGET w now2 false
    (Some {| ap_token_use := Some "access"; ap_jti := Some (tr_accessJti tr); ap_sub := Some (tr_accessSub tr) |}))
    db2).1 in
  if now2 <=? now + ACCESS_TOKEN_TTL_SECONDS * 1000 then
    ∃ ui, r = Ok ui ∧ ui_sub ui = it_sub (tr_idToken tr) ∧ ui_name ui = it_name (tr_idToken tr) ∧
      ui_picture ui = it_picture (tr_idToken tr) ∧ ui_sybil_bucket ui = it_sybil_bucket (tr_idToken tr) ∧
      ui_minister_anon_epoch ui = it_minister_anon_epoch (tr_idToken tr)
  else r = Err "Token has expired".
Proof.
  intros Hrun Ht Hu Ho Hsub r. apply tokenPOST_run in Hrun as (d & clientId & user & jwts & Hrun).
  cbv zeta in Hrun. destruct Hrun as (Etok & Euser & Hmerged & Hjti & Hs & Hname & Hpic & Hbuck & Hepoch).
  subst r. unfold userinfoGET. rewrite Hjti. cbn [ap_token_use ap_jti ap_sub present].
  rewrite bool_decide_true by done. rewrite decide_False by done. cbn [negb].
  rewrite run_solo_bind. cbn [read act run_solo fst snd]. rewrite Ht, Hu, Etok. cbn [mbind option_bind at_userId tokenOf].
  rewrite Euser. cbn [mbind option_bind at_revokedAt tokenOf at_expiresAt].
  rewrite bool_decide_false by (intros H; by apply H).
  destruct (Z.leb_spec now2 (now + ACCESS_TOKEN_TTL_SECONDS * 1000)) as [Hle|Hgt].
  - rewrite (proj2 (Z.ltb_ge _ _)) by done. rewrite Hmerged, bool_decide_false by (intros H; by apply H).
    rewrite run_solo_bind. edestruct grantClaims_run as (jwts' & db' & -> & _). cbn.
    eexists. split; [done|]. cbn. rewrite Hname, Hpic, Hbuck, Hepoch, Hs. cbn.
    unfold loadProfileOverride. rewrite Ho. done.
  - by rewrite (proj2 (Z.ltb_lt _ _)).
Qed.

Lemma userinfo_repeats_id_token_witness :
  let db1 := (run_solo (tokenPOST demo_world 2000 "j1" demo_token) demo_consented).2 in
  ∃ ui, (run_solo (userinfoGET demo_world 3000 false
    (Some {| ap_token_use := Some "access"; ap_jti := Some "j1"; ap_sub := Some "u@rp" |})) db1).1 = Ok ui ∧
    ui_sub ui = "u@rp" ∧ ui_name ui = Some "Countess" ∧ ui_picture ui = None ∧ ui_sybil_bucket ui = None ∧
    ui_minister_anon_epoch ui = None.
Proof.
  intros db1.
  apply (userinfo_repeats_id_token demo_world 2000 "j1" demo_token demo_consented demo_response db1 db1 3000);
    [|done..]. by vm_compute.
Defined.
