(* ===== verification/Stats.v ===== *)
(** * Badge statistics (lib/anonymity-sets.ts, lib/cohort-filter.ts, lib/stats-recompute.ts,
    lib/sybil-bucket-hint.ts, server/stats-actions.ts, the cohorts of scripts/seed-sybil-config.ts)

    The counts of distinct holders behind the consent screen, and the statistics tables of the
    public page: totals and attribute distributions per badge type, cohorts, and the
    distribution of users over the score buckets. A recompute is a handler whose queries are
    its steps; what its transaction writes becomes visible in one step, at the commit. Of the
    database, the cast of a text to an integer and the text of a nested JSON value are
    parameters, and the conditions of a query are evaluated from left to right. *)

From S2P Require Import Prelude Threads Registry Claims Transparency SybilScore Session SybilConfig OidcFlow.

Open Scope minister_scope.
Open Scope Z_scope.

(** ** Holder counts (lib/anonymity-sets.ts) *)

(** [COUNT(DISTINCT "userId")] *)
Definition distinctUsers (rows : list BadgeRow) : Z := Z.of_nat (length (set_of (map br_userId rows))).

Definition queryHolderCounts (badges : list BadgeRow) : gmap string Z :=
  list_to_map (map (fun t => (t, distinctUsers (filter (fun b => br_type b = t) badges))) (set_of (map br_type badges))).

Definition CACHE_TTL_MS : Z := 60000.
Record HolderCache := { hc_value : gmap string Z; hc_expiresAt : Z }.

(** The counts, and the cache afterwards. *)
Definition holderCountsByType (now : Z) (badges : list BadgeRow) (cache : option HolderCache) : gmap string Z * option HolderCache :=
  let fresh :=
    let value := queryHolderCounts badges in (value, Some {| hc_value := value; hc_expiresAt := now + CACHE_TTL_MS |}) in
  match cache with
  | Some entry => if now <? hc_expiresAt entry then (hc_value entry, cache) else fresh
  | None => fresh
  end.

(** ** Cohort filters (lib/cohort-filter.ts) *)

Inductive WhereValue := WString (s : string) | WNumber (z : Z) | WBoolean (b : bool).

(** [String(value)] *)
Definition whereText (v : WhereValue) : string :=
  match v with WString s => s | WNumber z => pretty z | WBoolean b => if b then "true" else "false" end.

Record CohortClause := {
  cc_type : string;
  cc_where : option (list (string * WhereValue));
  cc_whereGte : option (list (string * Z));
}.
Record CohortFilter := { cf_clauses : list CohortClause }.

Definition MAX_CLAUSES : nat := 3.

Definition parseWhereValue (j : Json) : option WhereValue :=
  match j with JStr s => Some (WString s) | JNum z => Some (WNumber z) | JBool b => Some (WBoolean b) | _ => None end.
Definition parseGteValue (j : Json) : option Z := match j with JNum z => Some z | _ => None end.

(** A record schema: every value passes. *)
Definition zrecord {A} (value : Json → option A) (j : Json) : option (list (string * A)) :=
  match j with JObj o => mapM (fun e => v ← value e.2; Some (e.1, v)) o | _ => None end.

(** A key that may be absent. *)
Definition zoptional {A} (schema : Json → option A) (v : option Json) : option (option A) :=
  match v with None => Some None | Some j => Some <$> schema j end.

(** The refinement of a clause: a known type, and only its allowlisted keys. *)
Definition clauseRefined (c : CohortClause) : bool :=
  match getBadgeType (cc_type c) with
  | None => false
  | Some _ => forallb (isAllowlistedKey (cc_type c)) (default [] (cc_where c)).*1
              && forallb (isAllowlistedKey (cc_type c)) (default [] (cc_whereGte c)).*1
  end.

Definition clauseSchema (j : Json) : option CohortClause :=
  match j with
  | JObj o =>
      if negb (forallb (fun k => bool_decide (k ∈ ["type"; "where"; "whereGte"])) o.*1) then None
      else
        type ← (v ← jget "type" o; match v with JStr s => min1 s | _ => None end);
        wh ← zoptional (zrecord parseWhereValue) (jget "where" o);
        gte ← zoptional (zrecord parseGteValue) (jget "whereGte" o);
        let clause := {| cc_type := type; cc_where := wh; cc_whereGte := gte |} in
        if clauseRefined clause then Some clause else None
  | _ => None
  end.

Definition cohortFilterSchema (j : Json) : option CohortFilter :=
  match j with
  | JObj o =>
      match jget "clauses" o with
      | Some (JArr l) =>
          clauses ← mapM clauseSchema l;
          if Nat.leb 1 (length clauses) && Nat.leb (length clauses) MAX_CLAUSES then Some {| cf_clauses := clauses |} else None
      | _ => None
      end
  | _ => None
  end.

(** [parseCohortFilter] throws where this is [None]. *)
Definition safeParseCohortFilter (input : Json) : option CohortFilter := cohortFilterSchema input.

(** The JSON of a filter, as the seed stores it. *)
Definition whereJson (v : WhereValue) : Json :=
  match v with WString s => JStr s | WNumber z => JNum z | WBoolean b => JBool b end.
Definition clauseJson (c : CohortClause) : Json :=
  JObj ([("type", JStr (cc_type c))]
    ++ match cc_where c with Some m => [("where", JObj (map (prod_map id whereJson) m))] | None => [] end
    ++ match cc_whereGte c with Some m => [("whereGte", JObj (map (prod_map id JNum) m))] | None => [] end).
Definition filterJson (f : CohortFilter) : Json := JObj [("clauses", JArr (map clauseJson (cf_clauses f)))].

Record CohortDefSeed := { cs_label : string; cs_numeratorFilter : CohortFilter; cs_denominatorFilter : CohortFilter }.

Definition one (t : string) (wh : list (string * WhereValue)) (gte : option (list (string * Z))) : CohortFilter :=
  {| cf_clauses := [{| cc_type := t; cc_where := Some wh; cc_whereGte := gte |}] |}.

Definition BUILTIN_COHORT_DEFS : list CohortDefSeed :=
  [ {| cs_label := "Aged GitHub accounts (share of GitHub accounts)";
       cs_denominatorFilter := one "oauth-account" [("provider", WString "github")] None;
       cs_numeratorFilter := one "account-age" [("provider", WString "github")] (Some [("olderThanMonths", 24)]) |};
    {| cs_label := "Aged Reddit accounts (share of Reddit accounts)";
       cs_denominatorFilter := one "oauth-account" [("provider", WString "reddit")] None;
       cs_numeratorFilter := one "account-age" [("provider", WString "reddit")] (Some [("olderThanMonths", 24)]) |};
    {| cs_label := "GitHub accounts with 100+ followers (share of GitHub accounts)";
       cs_denominatorFilter := one "oauth-account" [("provider", WString "github")] None;
       cs_numeratorFilter := one "social-following" [("provider", WString "github")] (Some [("followersAtLeast", 100)]) |} ].

(** ** Queries *)

Inductive StatsError := BadCast | NoClauses | ConfigMissing | OutOfFuel.

(** The cast [text::int] ([None] raises) and the text that [->>] gives for a nested value or
    null of a row's attributes. *)
Record SqlWorld := { sw_castInt : string → option Z; sw_otherText : BadgeRow → string → option string }.

Section Queries.
Context (w : SqlWorld).

(** ["attributes" ->> key], [None] being NULL. *)
Definition attrText (b : BadgeRow) (key : string) : option string :=
  attrs ← br_attributes b; v ← attrs !! key;
  match v with
  | RString s => Some s
  | RNumber z => Some (pretty z)
  | RBoolean t => Some (if t then "true" else "false")
  | ROther => sw_otherText w b key
  end.

(** Conditions of a query on a row; NULL is not true, so it is [false] here. *)
Definition Pred : Type := BadgeRow → result StatsError bool.

Definition nativeUnexpired (native : string) (now : Z) : Pred := fun b =>
  Ok (bool_decide (br_issuer b = native) && match br_expiresAt b with None => true | Some t => now <? t end).

Definition clausePredicates (c : CohortClause) : list Pred :=
  [fun b => Ok (bool_decide (br_type b = cc_type c))]
  ++ map (fun kv b => Ok (bool_decide (attrText b kv.1 = Some (whereText kv.2)))) (default [] (cc_where c))
  ++ map (fun kv b =>
       match attrText b kv.1 with
       | None => Ok false
       | Some s => match sw_castInt w s with Some z => Ok (kv.2 <=? z) | None => Err BadCast end
       end) (default [] (cc_whereGte c)).

(** A conjunction. *)
Fixpoint allPreds (ps : list Pred) : Pred := fun b =>
  match ps with
  | [] => Ok true
  | p :: ps' => match p b with Ok true => allPreds ps' b | r => r end
  end.

(** [EXISTS (SELECT 1 FROM "Badge" ...)], and the rows of a [SELECT]. *)
Fixpoint existsRow (p : Pred) (rows : list BadgeRow) : result StatsError bool :=
  match rows with
  | [] => Ok false
  | b :: rows' => match p b with Ok false => existsRow p rows' | r => r end
  end.
Fixpoint selectRows (p : Pred) (rows : list BadgeRow) : result StatsError (list BadgeRow) :=
  match rows with
  | [] => Ok []
  | b :: rows' =>
      match p b with
      | Err e => Err e
      | Ok t => match selectRows p rows' with Ok l => Ok (if t then b :: l else l) | Err e => Err e end
      end
  end.

(** The conditions on a row: the anchor clause, and one subquery per further clause. *)
Definition cohortConds (badges : list BadgeRow) (native : string) (now : Z) (anchor : CohortClause) (rest : list CohortClause) : list Pred :=
  clausePredicates anchor ++ [nativeUnexpired native now]
  ++ map (fun c b1 => existsRow (allPreds ([fun b => Ok (bool_decide (br_userId b = br_userId b1))]
                                         ++ clausePredicates c ++ [nativeUnexpired native now])) badges) rest.

Definition countCohortSide (filter : CohortFilter) (native : string) (now : Z) (badges : list BadgeRow) : result StatsError Z :=
  match cf_clauses filter with
  | [] => Err NoClauses
  | anchor :: rest =>
      match selectRows (allPreds (cohortConds badges native now anchor rest)) badges with
      | Ok rows => Ok (distinctUsers rows)
      | Err e => Err e
      end
  end.

(** ** The tables *)

Record BadgeStat := { st_badgeType : string; st_attributeKey : string; st_attributeValue : string; st_count : Z; st_computedAt : Z }.
Record CohortStatDef := { cd_id : string; cd_label : string; cd_numeratorFilter : Json; cd_denominatorFilter : Json; cd_published : bool }.
Record CohortStat := { ct_numerator : Z; ct_denominator : Z; ct_computedAt : Z }.
Record BucketStat := { bu_count : Z; bu_computedAt : Z }.
Record StatsRun := { sr_computedAt : Z; sr_durationMs : Z }.

(** The advisory lock and the scoring configuration's cache are part of the state. *)
Record StatsDB := {
  sd_badges : list BadgeRow;
  sd_users : list string;
  sd_config : ConfigDB;
  sd_configCache : option ConfigCacheEntry;
  sd_badgeStats : list BadgeStat;
  sd_cohortDefs : list CohortStatDef;
  sd_cohortStats : gmap string CohortStat;
  sd_bucketStats : gmap Z BucketStat;
  sd_run : option StatsRun;
  sd_lock : bool;
}.

(** What a recompute writes: the rows of two tables, and the cohorts to upsert. *)
Record StatsWrites := {
  wr_badgeStats : list BadgeStat;
  wr_cohortStats : list (string * CohortStat);
  wr_bucketStats : list (Z * BucketStat);
}.

Definition setStats (x : StatsWrites) (db : StatsDB) : StatsDB :=
  {| sd_badges := sd_badges db; sd_users := sd_users db; sd_config := sd_config db; sd_configCache := sd_configCache db;
     sd_badgeStats := wr_badgeStats x; sd_cohortDefs := sd_cohortDefs db;
     sd_cohortStats := foldl (fun m e => <[e.1 := e.2]> m) (sd_cohortStats db) (wr_cohortStats x);
     sd_bucketStats := list_to_map (wr_bucketStats x); sd_run := sd_run db; sd_lock := sd_lock db |}.
Definition setRun (r : StatsRun) (db : StatsDB) : StatsDB :=
  {| sd_badges := sd_badges db; sd_users := sd_users db; sd_config := sd_config db; sd_configCache := sd_configCache db;
     sd_badgeStats := sd_badgeStats db; sd_cohortDefs := sd_cohortDefs db; sd_cohortStats := sd_cohortStats db;
     sd_bucketStats := sd_bucketStats db; sd_run := Some r; sd_lock := sd_lock db |}.
Definition setLock (l : bool) (db : StatsDB) : StatsDB :=
  {| sd_badges := sd_badges db; sd_users := sd_users db; sd_config := sd_config db; sd_configCache := sd_configCache db;
     sd_badgeStats := sd_badgeStats db; sd_cohortDefs := sd_cohortDefs db; sd_cohortStats := sd_cohortStats db;
     sd_bucketStats := sd_bucketStats db; sd_run := sd_run db; sd_lock := l |}.
Definition setConfigCache (c : option ConfigCacheEntry) (db : StatsDB) : StatsDB :=
  {| sd_badges := sd_badges db; sd_users := sd_users db; sd_config := sd_config db; sd_configCache := c;
     sd_badgeStats := sd_badgeStats db; sd_cohortDefs := sd_cohortDefs db; sd_cohortStats := sd_cohortStats db;
     sd_bucketStats := sd_bucketStats db; sd_run := sd_run db; sd_lock := sd_lock db |}.

(** ** The recompute (lib/stats-recompute.ts) *)

(** The condition on issuer and expiry. *)
Definition liveBadge (native : string) (now : Z) (b : BadgeRow) : Prop :=
  br_issuer b = native ∧ match br_expiresAt b with None => True | Some t => now < t end.
#[global] Instance liveBadge_dec native now b : Decision (liveBadge native now b).
Proof. unfold liveBadge. destruct (br_expiresAt b); apply _. Defined.

Definition totalRow (now : Z) (t : string) (n : Z) : BadgeStat :=
  {| st_badgeType := t; st_attributeKey := ""; st_attributeValue := ""; st_count := n; st_computedAt := now |}.

(** [GROUP BY "type"]: a row per type that occurs. *)
Definition typeTotals (native : string) (now : Z) (badges : list BadgeRow) : list (string * Z) :=
  let rows := filter (liveBadge native now) badges in
  map (fun t => (t, distinctUsers (filter (fun b => br_type b = t) rows))) (set_of (map br_type rows)).

(** The distribution of a key of a type: a row per value that occurs. *)
Definition attrDist (native : string) (now : Z) (type key : string) (badges : list BadgeRow) : list (string * Z) :=
  let rows := filter (fun b => br_type b = type ∧ liveBadge native now b) badges in
  map (fun v => (v, distinctUsers (filter (fun b => attrText b key = Some v) rows))) (set_of (omap (fun b => attrText b key) rows)).

Fixpoint attrStats (native : string) (now : Z) (pairs : list (string * string)) (rows : list BadgeStat) : thread StatsDB (list BadgeStat) :=
  match pairs with
  | [] => mret rows
  | (type, key) :: pairs' =>
      dist ← read (fun db => attrDist native now type key (sd_badges db));
      attrStats native now pairs' (rows ++ map (fun r => {| st_badgeType := type; st_attributeKey := key; st_attributeValue := r.1;
                                                  st_count := r.2; st_computedAt := now |})
                                     (filter (fun r => isAllowlistedValue type key r.1 = true) dist))
  end.

Definition recomputeBadgeStats (native : string) (now : Z) : thread StatsDB (list BadgeStat) :=
  totals ← read (fun db => typeTotals native now (sd_badges db));
  attrStats native now allowlistedTypeKeyPairs
    (map (fun r => totalRow now r.1 r.2) (filter (fun r => r.1 ∈ knownBadgeTypes) totals)).

Fixpoint cohortStatsOf (native : string) (now : Z) (defs : list CohortStatDef) (rows : list (string * CohortStat)) :
    thread StatsDB (result StatsError (list (string * CohortStat))) :=
  match defs with
  | [] => mret (Ok rows)
  | def :: defs' =>
      match safeParseCohortFilter (cd_numeratorFilter def), safeParseCohortFilter (cd_denominatorFilter def) with
      | Some numerator, Some denominator =>
          num ←! read (fun db => countCohortSide numerator native now (sd_badges db));
          den ←! read (fun db => countCohortSide denominator native now (sd_badges db));
          cohortStatsOf native now defs'
            (rows ++ [(cd_id def, {| ct_numerator := num; ct_denominator := den; ct_computedAt := now |})])
      | _, _ => cohortStatsOf native now defs' rows
      end
  end.

Definition recomputeCohortStats (native : string) (now : Z) : thread StatsDB (result StatsError (list (string * CohortStat))) :=
  defs ← read sd_cohortDefs; cohortStatsOf native now defs [].

Definition USER_BATCH_SIZE : nat := 500.
Definition BUCKETS : list Z := [0; 1; 2; 3; 4].

(** [toScorable], with an attribute column that is not an object read as empty. *)
Definition scorableOf (b : BadgeRow) : ScorableBadge :=
  {| sb_type := sb_type (toScorable b); sb_attributes := Some (default ∅ (sb_attributes (toScorable b)));
     sb_expiresAt := sb_expiresAt (toScorable b); sb_issuer := sb_issuer (toScorable b) |}.

(** The rows after the cursor row; none when there is no such row. *)
Fixpoint afterCursor (cursor : string) (l : list string) : list string :=
  match l with [] => [] | id :: l' => if decide (id = cursor) then l' else afterCursor cursor l' end.

Section Buckets.
(** The order of ids in the database. *)
Context (compareIds : string → string → Z).

Definition userPage (cursor : option string) (users : list string) : list string :=
  let ordered := js_sort compareIds users in
  take USER_BATCH_SIZE (match cursor with Some c => afterCursor c ordered | None => ordered end).

(** The badges of a batch by user: a user of the batch that has none has an empty list. *)
Definition groupByUser (ids : list string) (badges : list BadgeRow) : list (string * list ScorableBadge) :=
  foldl (fun m b => match jget (br_userId b) m with
                    | Some l => jset (br_userId b) (l ++ [scorableOf b]) m
                    | None => m
                    end)
    (foldl (fun m id => jset id [] m) [] ids) badges.

(** [counts[bucket] = (counts[bucket] ?? 0) + 1] *)
Definition tally (counts : gmap Z Z) (bucket : Z) : gmap Z Z := <[bucket := default 0 (counts !! bucket) + 1]> counts.

Fixpoint bucketLoop (fuel : nat) (native : string) (now : Z) (config : SybilScoringConfig) (cursor : option string) (counts : gmap Z Z) :
    thread StatsDB (result StatsError (gmap Z Z)) :=
  match fuel with
  | O => mret (Err OutOfFuel)
  | S fuel' =>
      ids ← read (fun db => userPage cursor (sd_users db));
      match ids with
      | [] => mret (Ok counts)
      | _ =>
          badges ← read (fun db => filter (fun b => br_userId b ∈ ids ∧ liveBadge native now b) (sd_badges db));
          let byUser := groupByUser ids badges in
          let counts := foldl (fun c id => tally c (bucket (sybilScore config now native (default [] (jget id byUser))))) counts ids in
          if Nat.ltb (length ids) USER_BATCH_SIZE then mret (Ok counts)
          else bucketLoop fuel' native now config (last ids) counts
      end
  end.

Definition recomputeBucketStats (fuel : nat) (native : string) (now : Z) : thread StatsDB (result StatsError (list (Z * BucketStat))) :=
  config ←! act (fun db =>
    let '(config, cache) := loadSybilScoringConfig now (sd_config db) (sd_configCache db) in
    (match config with Some c => Ok c | None => Err ConfigMissing end, setConfigCache cache db));
  counts ←! bucketLoop fuel native now config None (list_to_map (map (fun b => (b, 0)) BUCKETS));
  mret (Ok (map (fun b => (b, {| bu_count := default 0 (counts !! b); bu_computedAt := now |})) BUCKETS)).

Definition recomputeWithin (fuel : nat) (native : string) (now : Z) : thread StatsDB (result StatsError StatsWrites) :=
  badgeStats ← recomputeBadgeStats native now;
  cohortStats ←! recomputeCohortStats native now;
  bucketStats ←! recomputeBucketStats fuel native now;
  mret (Ok {| wr_badgeStats := badgeStats; wr_cohortStats := cohortStats; wr_bucketStats := bucketStats |}).

(** The transaction of the recompute, then the stamp. The time it took is drawn. *)
Definition recomputeAllStats (fuel : nat) (native : string) (now durationMs : Z) : thread StatsDB (result StatsError Z) :=
  writes ←! recomputeWithin fuel native now;
  _ ← write (setStats writes);
  _ ← write (setRun {| sr_computedAt := now; sr_durationMs := durationMs |});
  mret (Ok durationMs).

Inductive ScheduledStatsOutcome := Recomputed | SkippedLocked | SkippedFresh.

(** [pg_try_advisory_xact_lock]: the lock lasts until the transaction ends, which is the step
    that commits or rolls back. *)
Definition tryStatsLock : thread StatsDB bool :=
  act (fun db => (negb (sd_lock db), if sd_lock db then db else setLock true db)).

Definition runScheduledStatsRecompute (fuel : nat) (native : string) (intervalMs now durationMs : Z) :
    thread StatsDB (result StatsError ScheduledStatsOutcome) :=
  locked ← tryStatsLock;
  if locked : bool then
    run ← read sd_run;
    if match run with Some r => now - sr_computedAt r <? intervalMs | None => false end
    then _ ← write (setLock false); mret (Ok SkippedFresh)
    else
      writes ← recomputeWithin fuel native now;
      match writes with
      | Err e => _ ← write (setLock false); mret (Err e)
      | Ok x =>
          _ ← write (fun db => setLock false (setRun {| sr_computedAt := now; sr_durationMs := durationMs |} (setStats x db)));
          mret (Ok Recomputed)
      end
  else mret (Ok SkippedLocked).

End Buckets.
End Queries.

(** ** The size of a bucket class (lib/sybil-bucket-hint.ts) *)

(** A read that fails, or a missing row, gives no hint. *)
Definition loadBucketAnonymityHint (readFails : bool) (bucket : Z) (db : StatsDB) : option (AnonymityBucket * string) :=
  if readFails then None else (fun s => anonymityHint (bu_count s)) <$> sd_bucketStats db !! bucket.

(** ** The public page's reads (app/transparency/page.tsx) *)

Definition statInput (s : BadgeStat) : BadgeStatInput :=
  {| bs_badgeType := st_badgeType s; bs_attributeKey := st_attributeKey s; bs_attributeValue := st_attributeValue s; bs_count := st_count s |}.

Definition cohortViews (db : StatsDB) : list CohortView :=
  map (fun d => {| cv_label := cd_label d; cv_stat := (fun s => (ct_numerator s, ct_denominator s)) <$> sd_cohortStats db !! cd_id d |})
    (filter (fun d => cd_published d = true) (sd_cohortDefs db)).

Definition TransparencyPage (localeCompare : string → string → Z) (db : StatsDB) :
    list (string * string * list PublicAttrGroup) * list PublicCohortRow :=
  transparencyPage localeCompare (map statInput (sd_badgeStats db)) (cohortViews db).

(** ** The seed of the cohorts (scripts/seed-sybil-config.ts) *)

(** Write the built-in definition over the first row with its label, or create it under a
    drawn id; [None] is the throw of the validation. *)
Definition seedCohort (id : string) (def : CohortDefSeed) (defs : list CohortStatDef) : option (list CohortStatDef) :=
  _ ← safeParseCohortFilter (filterJson (cs_numeratorFilter def));
  _ ← safeParseCohortFilter (filterJson (cs_denominatorFilter def));
  let row i := {| cd_id := i; cd_label := cs_label def; cd_numeratorFilter := filterJson (cs_numeratorFilter def);
                  cd_denominatorFilter := filterJson (cs_denominatorFilter def); cd_published := true |} in
  Some match list_find (fun d => cd_label d = cs_label def) defs with
       | Some (i, before) => <[i := row (cd_id before)]> defs
       | None => defs ++ [row id]
       end.

Fixpoint seedCohorts (ids : list string) (seeds : list CohortDefSeed) (defs : list CohortStatDef) : option (list CohortStatDef) :=
  match seeds, ids with
  | [], _ => Some defs
  | def :: seeds', id :: ids' => defs' ← seedCohort id def defs; seedCohorts ids' seeds' defs'
  | _ :: _, [] => None
  end.

(** Other definitions go first, with their counts. *)
Definition reconcileCohorts (ids : list string) (db : StatsDB) : option (list CohortStatDef * gmap string CohortStat) :=
  let labels := map cs_label BUILTIN_COHORT_DEFS in
  let kept := filter (fun d => cd_label d ∈ labels) (sd_cohortDefs db) in
  defs ← seedCohorts ids BUILTIN_COHORT_DEFS kept;
  Some (defs, filter (fun e => e.1 ∈ map cd_id kept) (sd_cohortStats db)).
