(* ===== verification/StatsProofs.v ===== *)
(** * Badge statistics: theorems

    A cohort's count is the number of users who satisfy every clause; a recompute that runs
    alone publishes the exact counts; what recomputes publish under any interleaving stays
    inside the allowlist; scheduled recomputes run once per interval; filters round-trip. *)

From S2P Require Import Prelude Threads Registry Claims Transparency SybilScore Session SybilConfig OidcFlow Stats.

Open Scope minister_scope.
Open Scope Z_scope.

(** ** Distinct users *)

(** The users of the rows with a property. *)
Definition holdersOf (P : BadgeRow → Prop) `{!∀ b, Decision (P b)} (badges : list BadgeRow) : gset string :=
  list_to_set (map br_userId (filter P badges)).

Lemma elem_of_holdersOf P `{!∀ b, Decision (P b)} badges u :
  u ∈ holdersOf P badges ↔ ∃ b, b ∈ badges ∧ P b ∧ br_userId b = u.
Proof.
  unfold holdersOf. rewrite elem_of_list_to_set, elem_of_map. setoid_rewrite list_elem_of_filter. naive_solver.
Qed.

Lemma distinctUsers_size rows : distinctUsers rows = Z.of_nat (size (list_to_set (map br_userId rows) : gset string)).
Proof.
  unfold distinctUsers. f_equal.
  rewrite <-(size_list_to_set (C := gset string)) by apply NoDup_set_of. f_equal.
  apply leibniz_equiv. intros u. rewrite !elem_of_list_to_set. by rewrite elem_of_set_of.
Qed.

Lemma distinctUsers_set rows (X : gset string) : (∀ u, u ∈ X ↔ ∃ b, b ∈ rows ∧ br_userId b = u) → distinctUsers rows = Z.of_nat (size X).
Proof.
  intros HX. rewrite distinctUsers_size. do 2 f_equal. apply leibniz_equiv. intros u.
  rewrite HX, elem_of_list_to_set, elem_of_map. naive_solver.
Qed.

(** ** Cohorts *)

Section Cohorts.
Context (w : SqlWorld) (native : string) (now : Z) (badges : list BadgeRow).

(** A badge satisfies a clause. *)
Definition satisfies (c : CohortClause) (b : BadgeRow) : Prop :=
  br_type b = cc_type c ∧
  Forall (fun kv => attrText w b kv.1 = Some (whereText kv.2)) (default [] (cc_where c)) ∧
  Forall (fun kv => ∃ s z, attrText w b kv.1 = Some s ∧ sw_castInt w s = Some z ∧ kv.2 <= z) (default [] (cc_whereGte c)).

(** Texts that are cast are integers. *)
Definition castable (c : CohortClause) : Prop :=
  ∀ b k v s, b ∈ badges → br_type b = cc_type c → (k, v) ∈ default [] (cc_whereGte c) → attrText w b k = Some s → is_Some (sw_castInt w s).

(** A condition that is decided on the rows of the table. *)
Definition decides (p : Pred) (P : BadgeRow → Prop) : Prop := ∀ b, b ∈ badges → ∃ t, p b = Ok t ∧ (t = true ↔ P b).

Lemma allPreds_app ps qs b :
  allPreds (ps ++ qs) b = match allPreds ps b with Ok true => allPreds qs b | r => r end.
Proof. induction ps as [|p ps IH]; simpl; [done|]. by destruct (p b) as [[]|]. Qed.

Lemma decides_app ps qs P Q : decides (allPreds ps) P → decides (allPreds qs) Q → decides (allPreds (ps ++ qs)) (fun b => P b ∧ Q b).
Proof.
  intros Hp Hq b Hb. rewrite allPreds_app. destruct (Hp b Hb) as (t & -> & Ht), (Hq b Hb) as (u & Hu & Hu').
  destruct t; [exists u; rewrite Hu; naive_solver|exists false; naive_solver].
Qed.

Lemma decides_one p P : decides p P → decides (allPreds [p]) P.
Proof. intros Hp b Hb. destruct (Hp b Hb) as (t & E & Ht). exists t. simpl. rewrite E. by destruct t. Qed.

Lemma decides_map {A} (f : A → Pred) (P : A → BadgeRow → Prop) l :
  (∀ x, x ∈ l → decides (f x) (P x)) → decides (allPreds (map f l)) (fun b => Forall (fun x => P x b) l).
Proof.
  induction l as [|x l IH]; intros H; simpl.
  - intros b Hb. exists true. by rewrite Forall_nil.
  - intros b Hb. destruct (decides_app [f x] (map f l) (P x) (fun b => Forall (fun x => P x b) l)) with b as (t & E & Ht); [| |done|].
    + apply decides_one, H. by left.
    + apply IH. intros y Hy. apply H. by right.
    + exists t. rewrite Forall_cons. by split.
Qed.

Lemma decides_clause c : castable c → decides (allPreds (clausePredicates w c)) (satisfies c).
Proof.
  intros Hc b Hb. unfold clausePredicates.
  assert (Hgate : ∀ t, br_type b ≠ cc_type c → allPreds (([fun b => Ok (bool_decide (br_type b = cc_type c))] ++ t) : list Pred) b = Ok false).
  { intros t Hne. simpl. by rewrite bool_decide_false. }
  destruct (decide (br_type b = cc_type c)) as [Ht|Ht].
  2: { rewrite Hgate by done. exists false. split; [done|]. split; [done|]. by intros [? _]. }
  simpl. rewrite (bool_decide_true _ Ht). rewrite allPreds_app.
  assert (Hw : ∃ t, allPreds (map (fun kv b => Ok (bool_decide (attrText w b kv.1 = Some (whereText kv.2)))) (default [] (cc_where c))) b = Ok t ∧
     (t = true ↔ Forall (fun kv => attrText w b kv.1 = Some (whereText kv.2)) (default [] (cc_where c)))).
  { apply (decides_map (fun kv b => Ok (bool_decide (attrText w b kv.1 = Some (whereText kv.2))))
             (fun kv b => attrText w b kv.1 = Some (whereText kv.2))); [|done].
    intros kv _ b' _. eexists. split; [done|]. apply bool_decide_eq_true. }
  destruct Hw as (t & -> & Hw). destruct t.
  2: { exists false. split; [done|]. split; [done|]. intros (_ & Hf & _). by apply Hw in Hf. }
  assert (Hg : ∀ l, (∀ k v, (k, v) ∈ l → (k, v) ∈ default [] (cc_whereGte c)) →
     ∃ t, allPreds (map (fun kv b => match attrText w b kv.1 with
       | None => Ok false
       | Some s => match sw_castInt w s with Some z => Ok (kv.2 <=? z) | None => Err BadCast end end) l) b = Ok t ∧
     (t = true ↔ Forall (fun kv => ∃ s z, attrText w b kv.1 = Some s ∧ sw_castInt w s = Some z ∧ kv.2 <= z) l)).
  { induction l as [|[k v] l IH]; intros Hl; simpl.
    - exists true. by rewrite Forall_nil.
    - destruct IH as (t & Et & Ht'); [intros k' v' Hin; apply Hl; by right|]. setoid_rewrite Forall_cons. simpl.
      destruct (attrText w b k) as [s|] eqn:Es; [|exists false; split; [done|]; split; [done|]; intros [(? & ? & ? & _) _]; congruence].
      destruct (Hc b k v s Hb Ht (Hl k v ltac:(left)) Es) as [z Ez]. rewrite Ez.
      destruct (Z.leb_spec v z).
      + rewrite Et. exists t. split; [done|]. rewrite Ht'. split; [|naive_solver]. intros Hf. split; [|done]. by exists s, z.
      + exists false. split; [done|]. split; [done|]. intros [(s' & z' & E1 & E2 & E3) _]. simplify_eq. lia. }
  destruct (Hg _ ltac:(done)) as (t & -> & Ht'). exists t. split; [done|]. unfold satisfies. naive_solver.
Qed.

Lemma decides_live : decides (nativeUnexpired native now) (liveBadge native now).
Proof.
  intros b _. eexists. split; [done|]. unfold liveBadge. rewrite andb_true_iff, bool_decide_eq_true.
  destruct (br_expiresAt b); [by rewrite Z.ltb_lt|naive_solver].
Qed.

Lemma existsRow_decides p P rows : (∀ b, b ∈ rows → ∃ t, p b = Ok t ∧ (t = true ↔ P b)) →
  ∃ t, existsRow p rows = Ok t ∧ (t = true ↔ ∃ b, b ∈ rows ∧ P b).
Proof.
  induction rows as [|b rows IH]; intros Hp; simpl.
  - exists false. split; [done|]. split; [done|]. by intros (b & ?%elem_of_nil & _).
  - destruct (Hp b ltac:(left)) as (t & -> & Ht). destruct t.
    + exists true. split; [done|]. split; [|done]. intros _. exists b. split; [left|by apply Ht].
    + destruct IH as (t & -> & Ht'); [intros b' Hb'; apply Hp; by right|]. exists t. split; [done|]. rewrite Ht'. split.
      * intros (b' & Hb' & HP). exists b'. split; [by right|done].
      * intros (b' & [->|Hb']%elem_of_cons & HP); [by apply Ht in HP|by exists b'].
Qed.

Lemma selectRows_decides p P rows : (∀ b, b ∈ rows → ∃ t, p b = Ok t ∧ (t = true ↔ P b)) →
  ∃ l, selectRows p rows = Ok l ∧ ∀ b, b ∈ l ↔ b ∈ rows ∧ P b.
Proof.
  induction rows as [|b rows IH]; intros Hp; simpl.
  - exists []. split; [done|]. intros b. rewrite elem_of_nil. tauto.
  - destruct (Hp b ltac:(left)) as (t & -> & Ht). destruct IH as (l & -> & Hl); [intros b' Hb'; apply Hp; by right|].
    exists (if t then b :: l else l). split; [done|]. intros b'. destruct t; rewrite ?elem_of_cons, Hl; naive_solver.
Qed.

(** The users who hold, for every clause, a live badge that satisfies it. *)
Definition inCohort (f : CohortFilter) (u : string) : Prop :=
  Forall (fun c => ∃ b, b ∈ badges ∧ br_userId b = u ∧ satisfies c b ∧ liveBadge native now b) (cf_clauses f).

Lemma decides_conds anchor rest : castable anchor → Forall castable rest →
  decides (allPreds (cohortConds w badges native now anchor rest))
    (fun b1 => (satisfies anchor b1 ∧ liveBadge native now b1) ∧
       Forall (fun c => ∃ b, b ∈ badges ∧ (br_userId b = br_userId b1 ∧ satisfies c b ∧ liveBadge native now b)) rest).
Proof.
  intros Ha Hr. unfold cohortConds. rewrite app_assoc. apply decides_app.
  - apply decides_app; [by apply decides_clause|apply decides_one, decides_live].
  - apply (decides_map (fun c b1 => existsRow _ badges)). intros c Hc b1 Hb1. apply existsRow_decides. intros b Hb.
    apply (decides_app [_] _ (fun b => br_userId b = br_userId b1) (fun b => satisfies c b ∧ liveBadge native now b)); [| |done].
    + apply decides_one. intros b' _. eexists. split; [done|]. apply bool_decide_eq_true.
    + apply decides_app; [|apply decides_one, decides_live]. apply decides_clause. by eapply Forall_forall in Hr.
Qed.

Lemma countCohortSide_counts f : cf_clauses f ≠ [] → Forall castable (cf_clauses f) →
  ∃ X : gset string, countCohortSide w f native now badges = Ok (Z.of_nat (size X)) ∧ ∀ u, u ∈ X ↔ inCohort f u.
Proof.
  unfold countCohortSide, inCohort. destruct (cf_clauses f) as [|anchor rest]; [done|]. intros _ [Ha Hr]%Forall_cons.
  destruct (selectRows_decides _ _ badges (decides_conds anchor rest Ha Hr)) as (rows & -> & Hrows).
  exists (list_to_set (map br_userId rows)). rewrite distinctUsers_size. split; [done|]. intros u.
  rewrite elem_of_list_to_set, elem_of_map, Forall_cons. setoid_rewrite Hrows. split.
  - intros (b & -> & Hb & (Hs & Hl) & Hf). split; [by exists b|]. eapply Forall_impl; [done|]. naive_solver.
  - intros [(b & Hb & <- & Hs & Hl) Hf]. exists b. split; [done|]. split; [done|]. split; [done|]. eapply Forall_impl; [done|]. naive_solver.
Qed.
End Cohorts.

(** ** Filters *)

(** One to three clauses, each of a registered type and on publishable keys of it. *)
Definition filter_ok (f : CohortFilter) : Prop :=
  (1 ≤ length (cf_clauses f) ≤ MAX_CLAUSES)%nat ∧
  Forall (fun c => is_Some (getBadgeType (cc_type c)) ∧
    ∀ k, k ∈ (default [] (cc_where c)).*1 ∨ k ∈ (default [] (cc_whereGte c)).*1 → isAllowlistedKey (cc_type c) k = true) (cf_clauses f).

Lemma clauseRefined_ok c : clauseRefined c = true ↔
  is_Some (getBadgeType (cc_type c)) ∧
  ∀ k, k ∈ (default [] (cc_where c)).*1 ∨ k ∈ (default [] (cc_whereGte c)).*1 → isAllowlistedKey (cc_type c) k = true.
Proof.
  unfold clauseRefined. destruct (getBadgeType (cc_type c)) as [m|]; [|split; [done|]; by intros [[? ?] _]].
  rewrite andb_true_iff, !forallb_forall. setoid_rewrite <-list_elem_of_In. naive_solver.
Qed.

Lemma clauseSchema_refined j c : clauseSchema j = Some c → clauseRefined c = true.
Proof.
  unfold clauseSchema. destruct j as [| | | | |o]; try done. destruct (negb _); [done|]. intros E.
  repeat (apply bind_Some in E as (? & _ & E)). cbv zeta in E. case_match eqn:Er; by simplify_eq.
Qed.

Lemma record_roundtrip {A} (value : Json → option A) (print : A → Json) (m : list (string * A)) :
  (∀ v, value (print v) = Some v) → zrecord value (JObj (map (prod_map id print) m)) = Some m.
Proof.
  intros Hv. simpl. induction m as [|[k v] m IH]; simpl; [done|]. rewrite Hv. simpl. by rewrite IH.
Qed.

Lemma known_not_empty t : is_Some (getBadgeType t) → min1 t = Some t.
Proof. intros [m E]. unfold min1. case_bool_decide as Ht; [|done]. subst. by vm_compute in E. Qed.

#[local] Arguments clauseRefined : simpl never.
#[local] Arguments zrecord : simpl never.

Lemma clause_roundtrip c : clauseRefined c = true → clauseSchema (clauseJson c) = Some c.
Proof.
  intros Hc. pose proof (proj1 (clauseRefined_ok c) Hc) as [Hk _]. apply known_not_empty in Hk.
  destruct c as [t wh gte]. simpl in Hk. unfold clauseSchema, clauseJson. cbn [cc_type cc_where cc_whereGte].
  destruct wh as [wh|], gte as [gte|]; simpl; rewrite Hk; simpl.
  all: repeat (rewrite (record_roundtrip parseWhereValue whereJson) by (by intros [])).
  all: repeat (rewrite (record_roundtrip parseGteValue JNum) by done).
  all: simpl; by rewrite Hc.
Qed.

#[local] Arguments clauseSchema : simpl never.
#[local] Arguments clauseJson : simpl never.

(** A filter that passes validation has one to three clauses, each of a registered badge
    type and only on allowlisted keys of it; and every such filter, written as JSON, is read
    back as it was. *)
Theorem filters_roundtrip :
  (∀ j f, safeParseCohortFilter j = Some f → filter_ok f) ∧
  (∀ f, filter_ok f → safeParseCohortFilter (filterJson f) = Some f).
Proof.
  split.
  - intros j f E. unfold safeParseCohortFilter, cohortFilterSchema in E.
    destruct j as [| | | | |o]; try done. destruct (jget "clauses" o) as [[| | | |l|]|]; try done.
    apply bind_Some in E as (cs & Em & E). destruct (Nat.leb 1 (length cs) && _) eqn:El; [|done]. simplify_eq.
    apply andb_true_iff in El as [H1%Nat.leb_le H2%Nat.leb_le]. split; [done|]. simpl.
    apply mapM_Some_1 in Em. clear H1 H2. induction Em as [|x y l k Hx _ IH]; [constructor|].
    constructor; [|done]. by eapply clauseRefined_ok, clauseSchema_refined.
  - intros [cs] [Hl Hf]. simpl in *. unfold safeParseCohortFilter, filterJson, cohortFilterSchema. simpl.
    assert (mapM clauseSchema (map clauseJson cs) = Some cs) as ->.
    { clear Hl. induction Hf as [|c cs Hc _ IH]; simpl; [done|]. apply clauseRefined_ok, clause_roundtrip in Hc.
      by rewrite Hc, IH. }
    simpl. rewrite (proj2 (Nat.leb_le (length cs) MAX_CLAUSES)) by lia. by destruct cs; [simpl in Hl; lia|].
Qed.

(** The built-in cohorts pass. *)
Lemma builtin_ok : Forall (fun d => safeParseCohortFilter (filterJson (cs_numeratorFilter d)) = Some (cs_numeratorFilter d) ∧
  safeParseCohortFilter (filterJson (cs_denominatorFilter d)) = Some (cs_denominatorFilter d)) BUILTIN_COHORT_DEFS.
Proof. repeat constructor; by vm_compute. Qed.

(** ** Totals and distributions *)

Section Rows.
Context (w : SqlWorld) (native : string) (now : Z).

(** The holders of a type, and of a value of an attribute of it. *)
Definition totalHolders (badges : list BadgeRow) (t : string) : Z :=
  Z.of_nat (size (holdersOf (fun b => liveBadge native now b ∧ br_type b = t) badges)).
Definition valueHolders (badges : list BadgeRow) (t k v : string) : Z :=
  Z.of_nat (size (holdersOf (fun b => (liveBadge native now b ∧ br_type b = t) ∧ attrText w b k = Some v) badges)).

Lemma holders_positive P `{!∀ b, Decision (P b)} badges : 0 < Z.of_nat (size (holdersOf P badges)) ↔ ∃ b, b ∈ badges ∧ P b.
Proof.
  split.
  - intros Hs. destruct (set_choose_L (holdersOf P badges)) as [u Hu].
    { intros E. rewrite E, size_empty in Hs. lia. }
    apply elem_of_holdersOf in Hu as (b & Hb & HP & _). eauto.
  - intros (b & Hb & HP). assert (Hu : br_userId b ∈ holdersOf P badges) by (apply elem_of_holdersOf; eauto).
    assert (size (holdersOf P badges) ≠ 0)%nat; [|lia]. intros E%size_empty_iff. apply E in Hu. by apply not_elem_of_empty in Hu.
Qed.

Lemma distinctUsers_holders P `{!∀ b, Decision (P b)} badges rows :
  (∀ b, b ∈ rows ↔ b ∈ badges ∧ P b) → distinctUsers rows = Z.of_nat (size (holdersOf P badges)).
Proof.
  intros Hr. apply distinctUsers_set. intros u. rewrite elem_of_holdersOf. setoid_rewrite Hr. naive_solver.
Qed.

Lemma elem_of_typeTotals badges t n :
  (t, n) ∈ typeTotals native now badges ↔ n = totalHolders badges t ∧ 0 < n.
Proof.
  unfold typeTotals. cbv zeta. rewrite elem_of_map.
  assert (Hn : ∀ t, distinctUsers (filter (fun b => br_type b = t) (filter (liveBadge native now) badges)) = totalHolders badges t).
  { intros t'. apply distinctUsers_holders. intros b. rewrite !list_elem_of_filter. tauto. }
  assert (Ht : t ∈ set_of (map br_type (filter (liveBadge native now) badges)) ↔ 0 < totalHolders badges t).
  { unfold totalHolders. rewrite elem_of_set_of, elem_of_map, holders_positive. setoid_rewrite list_elem_of_filter. naive_solver. }
  split.
  - intros (t' & E & Hin). simplify_eq. rewrite Hn. split; [done|by apply Ht].
  - intros [-> Hp]. exists t. rewrite Hn. split; [done|by apply Ht].
Qed.

Lemma NoDup_typeTotals badges : NoDup (typeTotals native now badges).*1.
Proof.
  unfold typeTotals. cbv zeta. assert (∀ l : list string, (map (fun t => (t, distinctUsers (filter (fun b => br_type b = t) (filter (liveBadge native now) badges)))) l).*1 = l) as ->.
  { induction l; simpl; [done|]. by f_equal. } apply NoDup_set_of.
Qed.

Lemma elem_of_attrDist badges t k v n :
  (v, n) ∈ attrDist w native now t k badges ↔ n = valueHolders badges t k v ∧ 0 < n.
Proof.
  unfold attrDist. cbv zeta. rewrite elem_of_map. set (rows := filter _ badges).
  assert (Hr : ∀ b, b ∈ rows ↔ b ∈ badges ∧ liveBadge native now b ∧ br_type b = t) by (intros b; unfold rows; rewrite list_elem_of_filter; tauto).
  assert (Hn : ∀ v, distinctUsers (filter (fun b => attrText w b k = Some v) rows) = valueHolders badges t k v).
  { intros v'. apply distinctUsers_holders. intros b. rewrite list_elem_of_filter, Hr. tauto. }
  assert (Hv : v ∈ set_of (omap (fun b => attrText w b k) rows) ↔ 0 < valueHolders badges t k v).
  { unfold valueHolders. rewrite elem_of_set_of, list_elem_of_omap, holders_positive. setoid_rewrite Hr. naive_solver. }
  split.
  - intros (v' & E & Hin). simplify_eq. rewrite Hn. split; [done|by apply Hv].
  - intros [-> Hp]. exists v. rewrite Hn. split; [done|by apply Hv].
Qed.

Lemma NoDup_attrDist badges t k : NoDup (attrDist w native now t k badges).*1.
Proof.
  unfold attrDist. cbv zeta. set (rows := filter _ badges).
  assert (∀ l : list string, (map (fun v => (v, distinctUsers (filter (fun b => attrText w b k = Some v) rows))) l).*1 = l) as ->.
  { induction l; simpl; [done|]. by f_equal. } apply NoDup_set_of.
Qed.

(** *** The pairs of the allowlist *)

Lemma elem_of_pairs t k : (t, k) ∈ allowlistedTypeKeyPairs ↔ isAllowlistedKey t k = true.
Proof.
  unfold allowlistedTypeKeyPairs, isAllowlistedKey. rewrite list_elem_of_bind.
  assert (Hnd : NoDup ALLOWLISTED_KEYS_BY_TYPE.*1) by (apply (bool_decide_eq_true _); by vm_compute).
  split.
  - intros ([t' keys] & Hk & Hin). apply list_elem_of_bind in Hk as (k' & E%list_elem_of_singleton & Hk). simplify_eq.
    apply jget_lookup in Hin; [|done]. rewrite Hin. by apply bool_decide_eq_true.
  - destruct (jget t ALLOWLISTED_KEYS_BY_TYPE) as [keys|] eqn:E; [|done]. intros Hk%bool_decide_eq_true.
    exists (t, keys). split; [|by apply jget_lookup]. apply list_elem_of_bind. exists k. split; [|done]. by apply list_elem_of_singleton.
Qed.

Lemma NoDup_pairs : NoDup allowlistedTypeKeyPairs.
Proof. apply (bool_decide_eq_true _). by vm_compute. Qed.

(** *** The rows of a recompute *)

Definition totalRows (totals : list (string * Z)) : list BadgeStat :=
  map (fun r => totalRow now r.1 r.2) (filter (fun r => r.1 ∈ knownBadgeTypes) totals).
Definition attrRow (t k : string) (r : string * Z) : BadgeStat :=
  {| st_badgeType := t; st_attributeKey := k; st_attributeValue := r.1; st_count := r.2; st_computedAt := now |}.
Definition attrRows (t k : string) (dist : list (string * Z)) : list BadgeStat :=
  map (attrRow t k) (filter (fun r => isAllowlistedValue t k r.1 = true) dist).

Lemma attrStats_solo pairs rows db :
  run_solo (attrStats w native now pairs rows) db =
    (rows ++ (p ← pairs; attrRows p.1 p.2 (attrDist w native now p.1 p.2 (sd_badges db))), db).
Proof.
  revert rows. induction pairs as [|[t k] pairs IH]; intros rows; cbn [attrStats].
  - by rewrite app_nil_r.
  - rewrite run_solo_read. rewrite IH. cbn [mbind list_bind]. by rewrite app_assoc.
Qed.

Definition statRows (badges : list BadgeRow) : list BadgeStat :=
  totalRows (typeTotals native now badges) ++ (p ← allowlistedTypeKeyPairs; attrRows p.1 p.2 (attrDist w native now p.1 p.2 badges)).

Lemma recomputeBadgeStats_solo db : run_solo (recomputeBadgeStats w native now) db = (statRows (sd_badges db), db).
Proof. unfold recomputeBadgeStats. rewrite run_solo_read. apply attrStats_solo. Qed.

(** A row of the table, with the exact count. *)
Definition exact (badges : list BadgeRow) (s : BadgeStat) : Prop :=
  st_computedAt s = now ∧ 0 < st_count s ∧
  ((st_attributeKey s = "" ∧ st_attributeValue s = "" ∧ (st_badgeType s ∈ knownBadgeTypes) ∧ st_count s = totalHolders badges (st_badgeType s)) ∨
   (isAllowlistedValue (st_badgeType s) (st_attributeKey s) (st_attributeValue s) = true ∧
    st_count s = valueHolders badges (st_badgeType s) (st_attributeKey s) (st_attributeValue s))).

Lemma elem_of_totalRows totals s : s ∈ totalRows totals ↔
  ∃ t n, s = totalRow now t n ∧ (t ∈ knownBadgeTypes) ∧ (t, n) ∈ totals.
Proof.
  unfold totalRows. rewrite elem_of_map. split.
  - intros ([t n] & -> & [Ht Hin]%list_elem_of_filter). by exists t, n.
  - intros (t & n & -> & Ht & Hin). exists (t, n). split; [done|]. by apply list_elem_of_filter.
Qed.

Lemma elem_of_attrRows t k dist s : s ∈ attrRows t k dist ↔
  ∃ v n, s = attrRow t k (v, n) ∧ isAllowlistedValue t k v = true ∧ (v, n) ∈ dist.
Proof.
  unfold attrRows. rewrite elem_of_map. split.
  - intros ([v n] & -> & [Ht Hin]%list_elem_of_filter). by exists v, n.
  - intros (v & n & -> & Ht & Hin). exists (v, n). split; [done|]. by apply list_elem_of_filter.
Qed.

Lemma elem_of_statRows badges s : s ∈ statRows badges ↔ exact badges s.
Proof.
  unfold statRows, exact. rewrite elem_of_app, elem_of_totalRows, list_elem_of_bind. split.
  - intros [(t & n & -> & Hk & [Hn Hp]%elem_of_typeTotals)|([t k] & Hs & Hin)].
    + simpl. split_and!; [done|done|]. left. by split_and!.
    + apply elem_of_attrRows in Hs as (v & n & -> & Hv & [Hn Hp]%elem_of_attrDist). simpl. split_and!; [done|done|]. by right.
  - destruct s as [t k v n at_]. simpl. intros (-> & Hp & [(-> & -> & Ht & Hn)|[Hv Hn]]).
    + left. exists t, n. split_and!; [done|done|]. by apply elem_of_typeTotals.
    + right. exists (t, k). split; [|by apply elem_of_pairs, (allowlisted_value_key t k v)].
      apply elem_of_attrRows. exists v, n. split_and!; [done|done|]. by apply elem_of_attrDist.
Qed.

(** *** Rows published under any interleaving *)

(** The key of the table's unique constraint. *)
Definition statKey (s : BadgeStat) : string * string * string := (st_badgeType s, st_attributeKey s, st_attributeValue s).

(** A total of a registered type, or an admitted value. *)
Definition clean (s : BadgeStat) : Prop :=
  0 < st_count s ∧
  ((st_attributeKey s = "" ∧ st_attributeValue s = "" ∧ (st_badgeType s ∈ knownBadgeTypes)) ∨
   isAllowlistedValue (st_badgeType s) (st_attributeKey s) (st_attributeValue s) = true).

(** Rows of which only those under the given pairs are attribute rows. *)
Definition rows_ok (done : list (string * string)) (rows : list BadgeStat) : Prop :=
  Forall clean rows ∧ NoDup (map statKey rows) ∧
  Forall (fun s => st_attributeKey s = "" ∨ (st_badgeType s, st_attributeKey s) ∈ done) rows.

Lemma NoDup_map_key {A B K} (f : A → B) (g : B → K) (h : A → K) (l : list A) :
  (∀ x, g (f x) = h x) → NoDup (map h l) → NoDup (map g (map f l)).
Proof. intros E. rewrite List.map_map. by rewrite (map_ext _ _ E). Qed.

Lemma NoDup_filter_key {A K} (g : A → K) (P : A → Prop) `{!∀ x, Decision (P x)} (l : list A) : NoDup (map g l) → NoDup (map g (filter P l)).
Proof.
  induction l as [|x l IH]; [done|]. simpl. intros [Hx Hl]%NoDup_cons. rewrite filter_cons. case_decide; simpl; [|by apply IH].
  constructor; [|by apply IH]. rewrite elem_of_map. intros (y & E & [_ Hy]%list_elem_of_filter). apply Hx, elem_of_map. eauto.
Qed.

Lemma totals_ok badges : rows_ok [] (totalRows (typeTotals native now badges)).
Proof.
  split_and!.
  - apply Forall_forall. intros s (t & n & -> & Ht & [_ Hp]%elem_of_typeTotals)%elem_of_totalRows. split; [done|]. by left.
  - unfold totalRows. apply (NoDup_map_key _ _ (fun r => (r.1, "", ""))); [done|].
    apply (NoDup_filter_key (fun r => (r.1, "", ""))). pose proof (NoDup_typeTotals badges) as Hnd.
    induction (typeTotals native now badges) as [|[t n] l IH]; simpl; [constructor|]. simpl in Hnd. apply NoDup_cons in Hnd as [Ht Hl].
    constructor; [|by apply IH]. rewrite elem_of_map. intros ([t' n'] & E & Hin). simplify_eq/=. apply Ht. by apply (list_elem_of_fmap_2 fst) in Hin.
  - apply Forall_forall. intros s (t & n & -> & _)%elem_of_totalRows. by left.
Qed.

Lemma attr_step_ok done rows t k badges : isAllowlistedKey t k = true → (t, k) ∉ done → rows_ok done rows →
  rows_ok (done ++ [(t, k)]) (rows ++ attrRows t k (attrDist w native now t k badges)).
Proof.
  intros Hk Hnew (Hc & Hnd & Hd).
  assert (Hne : k ≠ "") by (intros ->; apply allowlist_sound in Hk as (_ & Hk & _); by apply (bool_decide_eq_true _) in Hk; vm_compute in Hk).
  split_and!.
  - apply Forall_app. split; [done|]. apply Forall_forall.
    intros s (v & n & -> & Hv & [_ Hp]%elem_of_attrDist)%elem_of_attrRows. split; [done|]. by right.
  - rewrite map_app. apply NoDup_app. split_and!; [done| |].
    + intros x (s & -> & Hs)%elem_of_map (s' & E & (v & n & -> & _)%elem_of_attrRows)%elem_of_map. injection E as Et Ek _.
      eapply Forall_forall in Hd; [|done]. destruct Hd as [Hd|Hd]; [congruence|]. apply Hnew. by rewrite <-Et, <-Ek.
    + unfold attrRows. apply (NoDup_map_key _ _ (fun r => (t, k, r.1))); [done|].
      apply (NoDup_filter_key (fun r => (t, k, r.1))). pose proof (NoDup_attrDist badges t k) as Hn.
      induction (attrDist w native now t k badges) as [|[v n] l IH]; simpl; [constructor|]. simpl in Hn. apply NoDup_cons in Hn as [Hv Hl].
      constructor; [|by apply IH]. rewrite elem_of_map. intros ([v' n'] & E & Hin). simplify_eq/=. apply Hv. by apply (list_elem_of_fmap_2 fst) in Hin.
  - apply Forall_app. split.
    + eapply Forall_impl; [done|]. intros s [Hs|Hs]; [by left|right]. apply elem_of_app. by left.
    + apply Forall_forall. intros s (v & n & -> & _)%elem_of_attrRows. right. simpl. apply elem_of_app. right. by apply list_elem_of_singleton.
Qed.

Lemma attrStats_ok (I : StatsDB → Prop) done pairs rows :
  NoDup (done ++ pairs) → (∀ t k, (t, k) ∈ pairs → isAllowlistedKey t k = true) → rows_ok done rows →
  stays I (rows_ok (done ++ pairs)) (attrStats w native now pairs rows).
Proof.
  revert done rows. induction pairs as [|[t k] pairs IH]; intros done rows Hnd Hp Hr; cbn [attrStats].
  - apply stays_ret. by rewrite app_nil_r.
  - apply stays_bind, stays_read. intros db _.
    replace (done ++ (t, k) :: pairs) with ((done ++ [(t, k)]) ++ pairs) in * by (by rewrite <-app_assoc).
    apply IH; [done|set_solver|]. apply attr_step_ok; [apply Hp; left| |done].
    apply NoDup_app in Hnd as (Hnd & _ & _). apply NoDup_app in Hnd as (_ & Hx & _). intros Hin. apply (Hx _ Hin). by apply list_elem_of_singleton.
Qed.

Lemma recomputeBadgeStats_ok (I : StatsDB → Prop) :
  stays I (rows_ok allowlistedTypeKeyPairs) (recomputeBadgeStats w native now).
Proof.
  unfold recomputeBadgeStats. apply stays_bind, stays_read. intros db _.
  apply (attrStats_ok I []); [apply NoDup_pairs|intros t k Hin; by apply elem_of_pairs|apply totals_ok].
Qed.
End Rows.

(** ** Buckets *)

Section BucketProofs.
Context (compareIds : string → string → Z) (native : string) (now : Z) (config : SybilScoringConfig).

(** The badges of a user that count, and the bucket they score. *)
Definition badgesOf (badges : list BadgeRow) (u : string) : list ScorableBadge :=
  map scorableOf (filter (fun b => br_userId b = u ∧ liveBadge native now b) badges).
Definition bucketOf (badges : list BadgeRow) (u : string) : Z := bucket (sybilScore config now native (badgesOf badges u)).

(** The map of a batch groups the badges by user. *)
Lemma groups_empty u ids (m : list (string * list ScorableBadge)) :
  jget u m = Some [] ∨ u ∈ ids → jget u (foldl (fun m id => jset id [] m) m ids) = Some [].
Proof.
  revert m. induction ids as [|i ids IH]; intros m [Hm|Hin]; simpl; [done|by apply elem_of_nil in Hin| |]; apply IH; rewrite jget_jset.
  - left. by case_decide.
  - case_decide; [by left|right]. by apply elem_of_cons in Hin as [?|?].
Qed.

Lemma groups_fold u badges acc (m : list (string * list ScorableBadge)) : jget u m = Some acc →
  jget u (foldl (fun m b => match jget (br_userId b) m with Some l => jset (br_userId b) (l ++ [scorableOf b]) m | None => m end) m badges)
  = Some (acc ++ map scorableOf (filter (fun b => br_userId b = u) badges)).
Proof.
  revert acc m. induction badges as [|b badges IH]; intros acc m Hm; [by rewrite app_nil_r|]. cbn [foldl]. rewrite filter_cons.
  destruct (decide (br_userId b = u)) as [<-|Hne].
  - rewrite Hm. simpl. rewrite (IH (acc ++ [scorableOf b])) by (by rewrite jget_jset, decide_True). by rewrite <-app_assoc.
  - apply IH. destruct (jget (br_userId b) m); [|done]. by rewrite jget_jset, decide_False.
Qed.

Lemma groupByUser_get ids badges u : u ∈ ids →
  jget u (groupByUser ids badges) = Some (map scorableOf (filter (fun b => br_userId b = u) badges)).
Proof. intros Hu. unfold groupByUser. apply (groups_fold u badges []), groups_empty. by right. Qed.

(** The bucket of a user of a batch. *)
Lemma batch_bucket ids badges u : u ∈ ids →
  bucket (sybilScore config now native (default [] (jget u (groupByUser ids (filter (fun b => br_userId b ∈ ids ∧ liveBadge native now b) badges)))))
  = bucketOf badges u.
Proof.
  intros Hu. rewrite groupByUser_get by done. simpl. unfold bucketOf, badgesOf. do 3 f_equal.
  rewrite list_filter_filter. apply list_filter_iff. intros b. split; [tauto|]. intros [-> ?]. done.
Qed.

(** *** The batches *)

Lemma afterCursor_app c pre rest : c ∉ pre → afterCursor c (pre ++ c :: rest) = rest.
Proof.
  induction pre as [|x pre IH]; simpl; [by rewrite decide_True|]. intros [Hx Hp]%not_elem_of_cons. rewrite decide_False by done. by apply IH.
Qed.

(** The users after the cursor. *)
Definition remaining (cursor : option string) (users : list string) : list string :=
  match cursor with Some c => afterCursor c (js_sort compareIds users) | None => js_sort compareIds users end.

(** Reading a full batch moves the cursor over it. *)
Lemma remaining_suffix cursor users : ∃ pre, js_sort compareIds users = pre ++ remaining cursor users.
Proof.
  destruct cursor as [c|]; simpl; [|by exists []]. induction (js_sort compareIds users) as [|x l [pre IH]]; simpl; [by exists []|].
  case_decide; [by exists [x]|]. exists (x :: pre). simpl. by f_equal.
Qed.

Lemma remaining_next cursor users ids rest : NoDup users → remaining cursor users = ids ++ rest → ids ≠ [] →
  remaining (last ids) users = rest.
Proof.
  intros Hnd E Hne. destruct (remaining_suffix cursor users) as [pre Hs]. rewrite E in Hs.
  destruct ids as [|x ids _] using rev_ind; [done|]. rewrite last_snoc. simpl. rewrite Hs.
  rewrite <-app_assoc, (app_assoc pre). simpl. apply afterCursor_app.
  assert (Hn : NoDup (js_sort compareIds users)) by (by rewrite js_sort_perm). rewrite Hs in Hn.
  rewrite <-app_assoc, (app_assoc pre) in Hn. apply NoDup_app in Hn as (_ & Hd & _). intros Hin. apply (Hd x Hin). simpl. by left.
Qed.

Lemma tally_batch (f g : string → Z) ids counts : (∀ u, u ∈ ids → f u = g u) →
  foldl (fun c id => tally c (f id)) counts ids = foldl tally counts (map g ids).
Proof.
  revert counts. induction ids as [|x ids IH]; intros counts H; simpl; [done|]. rewrite H by left. apply IH. intros u Hu. apply H. by right.
Qed.

(** Alone, the loop tallies the buckets of all the users, with a pass per batch. *)
Lemma bucketLoop_solo fuel cursor counts db : NoDup (sd_users db) →
  (length (remaining cursor (sd_users db)) < USER_BATCH_SIZE * fuel)%nat →
  run_solo (bucketLoop compareIds fuel native now config cursor counts) db =
    (Ok (foldl tally counts (map (bucketOf (sd_badges db)) (remaining cursor (sd_users db)))), db).
Proof.
  intros Hnd. revert cursor counts. induction fuel as [|fuel IH]; intros cursor counts Hf; [lia|]. cbn [bucketLoop].
  rewrite run_solo_read. set (rest := remaining cursor (sd_users db)) in *.
  assert (Hpage : userPage compareIds cursor (sd_users db) = take USER_BATCH_SIZE rest) by (unfold userPage, rest, remaining; by destruct cursor).
  rewrite Hpage. destruct (take USER_BATCH_SIZE rest) as [|u l] eqn:Et.
  { assert (rest = []) as ->; [|done]. destruct rest; [done|]. by unfold USER_BATCH_SIZE in Et. }
  rewrite run_solo_read. cbv zeta. rewrite (tally_batch _ (bucketOf (sd_badges db))) by (intros v Hv; by apply batch_bucket).
  rewrite <-Et. assert (Hlen : length (take USER_BATCH_SIZE rest) = (USER_BATCH_SIZE `min` length rest)%nat) by apply length_take.
  destruct (Nat.ltb_spec (length (take USER_BATCH_SIZE rest)) USER_BATCH_SIZE) as [Hlt|Hge].
  - rewrite take_ge by lia. done.
  - assert (Hnext : remaining (last (take USER_BATCH_SIZE rest)) (sd_users db) = drop USER_BATCH_SIZE rest).
    { apply (remaining_next cursor); [done|by rewrite take_drop|by rewrite Et]. }
    rewrite IH; rewrite Hnext; [|rewrite length_drop; lia].
    by rewrite <-foldl_app, <-map_app, take_drop.
Qed.

(** What the tallies count. *)
Lemma tally_counts counts l b : default 0 (foldl tally counts l !! b) = default 0 (counts !! b) + Z.of_nat (length (filter (fun x => x = b) l)).
Proof.
  revert counts. induction l as [|x l IH]; intros counts; [simpl; lia|]. cbn [foldl]. rewrite IH. unfold tally. rewrite filter_cons.
  destruct (decide (x = b)) as [->|Hne].
  - rewrite lookup_insert_eq. simpl. lia.
  - rewrite lookup_insert_ne by done. done.
Qed.

Lemma bucket_range badges : 0 <= bucket (sybilScore config now native badges) <= 4.
Proof.
  unfold sybilScore. destruct (foldl (addCategory config) _ _) as [r q]. simpl. unfold bucketFor.
  repeat case_match; lia.
Qed.
End BucketProofs.

(** ** A recompute that runs alone *)

Section Alone.
Context (w : SqlWorld) (compareIds : string → string → Z) (native : string) (now : Z).

(** The counts of a definition's two sides. *)
Definition cohort_exact (badges : list BadgeRow) (num den : CohortFilter) (s : CohortStat) : Prop :=
  ct_computedAt s = now ∧
  ∃ X Y : gset string, ct_numerator s = Z.of_nat (size X) ∧ (∀ u, u ∈ X ↔ inCohort w native now badges num u) ∧
    ct_denominator s = Z.of_nat (size Y) ∧ (∀ u, u ∈ Y ↔ inCohort w native now badges den u).

(** The filters of a definition, when both are valid. *)
Definition sidesOf (d : CohortStatDef) : option (CohortFilter * CohortFilter) :=
  num ← safeParseCohortFilter (cd_numeratorFilter d); den ← safeParseCohortFilter (cd_denominatorFilter d); Some (num, den).

Definition defs_castable (badges : list BadgeRow) (defs : list CohortStatDef) : Prop :=
  ∀ d num den, d ∈ defs → sidesOf d = Some (num, den) →
    Forall (castable w badges) (cf_clauses num) ∧ Forall (castable w badges) (cf_clauses den).

Lemma parsed_clauses j f : safeParseCohortFilter j = Some f → cf_clauses f ≠ [].
Proof.
  intros E Hn. unfold safeParseCohortFilter, cohortFilterSchema in E.
  destruct j as [| | | | |o]; try done. destruct (jget "clauses" o) as [[| | | |l|]|]; try done.
  apply bind_Some in E as (cs & _ & E). destruct cs; simplify_eq/=; try done. by case_match; simplify_eq/=.
Qed.

Lemma cohortStatsOf_solo defs rows db : defs_castable (sd_badges db) defs →
  ∃ l, run_solo (cohortStatsOf w native now defs rows) db = (Ok (rows ++ l), db) ∧
    l.*1 = map cd_id (filter (fun d => is_Some (sidesOf d)) defs) ∧
    ∀ d num den, d ∈ defs → sidesOf d = Some (num, den) → ∃ s, (cd_id d, s) ∈ l ∧ cohort_exact (sd_badges db) num den s.
Proof.
  revert rows. induction defs as [|d defs IH]; intros rows Hc; cbn [cohortStatsOf].
  { exists []. rewrite app_nil_r. split_and!; [done|done|]. by intros d num den ?%elem_of_nil. }
  assert (Hc' : defs_castable (sd_badges db) defs) by (intros d' num den Hd; apply Hc; by right).
  rewrite filter_cons.
  assert (Hskip : sidesOf d = None → ∃ l, run_solo (cohortStatsOf w native now defs rows) db = (Ok (rows ++ l), db) ∧
    l.*1 = map cd_id (filter (fun d => is_Some (sidesOf d)) defs) ∧
    ∀ d' num den, d' ∈ d :: defs → sidesOf d' = Some (num, den) → ∃ s, (cd_id d', s) ∈ l ∧ cohort_exact (sd_badges db) num den s).
  { intros Hn. destruct (IH rows Hc') as (l & E & Hl & Hex). exists l. split_and!; [done|done|].
    intros d' num den [->|Hd]%elem_of_cons Hs; [congruence|by apply Hex]. }
  destruct (safeParseCohortFilter (cd_numeratorFilter d)) as [num|] eqn:En.
  2: { assert (Hn : sidesOf d = None) by (unfold sidesOf; by rewrite En). 
       rewrite decide_False by (rewrite Hn; by intros [? ?]). by apply Hskip. }
  destruct (safeParseCohortFilter (cd_denominatorFilter d)) as [den|] eqn:Ed.
  2: { assert (Hn : sidesOf d = None) by (unfold sidesOf; by rewrite En; simpl; rewrite Ed).
       rewrite decide_False by (rewrite Hn; by intros [? ?]). by apply Hskip. }
  assert (Hs : sidesOf d = Some (num, den)) by (unfold sidesOf; rewrite En; simpl; by rewrite Ed).
  destruct (Hc d num den ltac:(left) Hs) as [Cn Cd].
  destruct (countCohortSide_counts w native now (sd_badges db) num) as (X & EX & HX); [by eapply parsed_clauses|done|].
  destruct (countCohortSide_counts w native now (sd_badges db) den) as (Y & EY & HY); [by eapply parsed_clauses|done|].
  rewrite run_solo_tbind. cbn [run_solo read act fst snd]. rewrite EX. rewrite run_solo_tbind. cbn [run_solo read act fst snd]. rewrite EY.
  set (s := {| ct_numerator := Z.of_nat (size X); ct_denominator := Z.of_nat (size Y); ct_computedAt := now |}).
  destruct (IH (rows ++ [(cd_id d, s)]) Hc') as (l & E & Hl & Hex).
  exists ((cd_id d, s) :: l). rewrite E, <-app_assoc. rewrite decide_True by (by rewrite Hs). split_and!; [done|simpl; by f_equal|].
  intros d' num' den' [->|Hd]%elem_of_cons Hs'.
  - rewrite Hs in Hs'. simplify_eq. exists s. split; [left|]. split; [done|]. exists X, Y. done.
  - destruct (Hex d' num' den' Hd Hs') as (s' & Hin & Hx). exists s'. split; [by right|done].
Qed.

Lemma upsert_all (l : list (string * CohortStat)) (m : gmap string CohortStat) k v :
  NoDup l.*1 → (k, v) ∈ l → foldl (fun m e => <[e.1 := e.2]> m) m l !! k = Some v.
Proof.
  revert m. induction l as [|[k' v'] l IH] using rev_ind; intros m; [by intros _ ?%elem_of_nil|].
  rewrite fmap_app, foldl_app. simpl. intros (Hnd & Hd & _)%NoDup_app Hin. apply elem_of_app in Hin as [Hin|Hin%list_elem_of_singleton].
  - rewrite lookup_insert_ne; [by apply IH|]. intros ->. apply (Hd k); [by apply (list_elem_of_fmap_2 fst) in Hin|by left].
  - simplify_eq. by rewrite lookup_insert_eq.
Qed.

Lemma filter_map_length {A} (f : A → Z) b (l : list A) : length (filter (fun x => x = b) (map f l)) = length (filter (fun a => f a = b) l).
Proof. induction l as [|a l IH]; simpl; [done|]. rewrite !filter_cons. case_decide; simpl; by rewrite IH. Qed.

(** The number of users in a bucket. *)
Definition usersIn (config : SybilScoringConfig) (db : StatsDB) (b : Z) : Z :=
  Z.of_nat (length (filter (fun u => bucketOf native now config (sd_badges db) u = b) (sd_users db))).

Lemma count_buckets config db b :
  Z.of_nat (length (filter (fun x => x = b) (map (bucketOf native now config (sd_badges db)) (js_sort compareIds (sd_users db))))) = usersIn config db b.
Proof.
  unfold usersIn. f_equal. rewrite filter_map_length. apply Permutation_length. by rewrite js_sort_perm.
Qed.

Lemma zero_counts b : default 0 ((list_to_map (map (fun b => (b, 0)) BUCKETS) : gmap Z Z) !! b) = 0.
Proof.
  destruct (_ !! b) as [n|] eqn:E; [|done]. apply elem_of_list_to_map_2, elem_of_map in E as (b' & E & _). by simplify_eq/=.
Qed.

Definition bucketRow (config : SybilScoringConfig) (db : StatsDB) (b : Z) : BucketStat :=
  {| bu_count := usersIn config db b; bu_computedAt := now |}.

Lemma recomputeBucketStats_solo fuel db config cache : NoDup (sd_users db) →
  (length (sd_users db) < USER_BATCH_SIZE * fuel)%nat →
  loadSybilScoringConfig now (sd_config db) (sd_configCache db) = (Some config, cache) →
  run_solo (recomputeBucketStats compareIds fuel native now) db =
    (Ok (map (fun b => (b, bucketRow config db b)) BUCKETS), setConfigCache cache db).
Proof.
  intros Hnd Hf Hc. unfold recomputeBucketStats. rewrite run_solo_tbind. cbn [run_solo act fst snd]. rewrite Hc. cbn [fst snd].
  rewrite run_solo_tbind, bucketLoop_solo; [|done|simpl; by rewrite length_js_sort]. cbn [fst snd run_solo mret thread_ret remaining sd_users sd_badges setConfigCache].
  do 2 f_equal. apply map_ext. intros b. unfold bucketRow. by rewrite tally_counts, zero_counts, count_buckets.
Qed.

Lemma buckets_sum (config : SybilScoringConfig) db : foldr Z.add 0 (map (usersIn config db) BUCKETS) = Z.of_nat (length (sd_users db)).
Proof.
  unfold BUCKETS, usersIn. simpl. induction (sd_users db) as [|u l IH]; [done|]. rewrite !filter_cons.
  pose proof (bucket_range native now config (badgesOf native now (sd_badges db) u)) as Hr. fold (bucketOf native now config (sd_badges db) u) in Hr.
  assert (Hb : ∃ b, bucketOf native now config (sd_badges db) u = b ∧ (b = 0 ∨ b = 1 ∨ b = 2 ∨ b = 3 ∨ b = 4)) by (eexists; split; [done|lia]).
  destruct Hb as (b & -> & Hb). destruct Hb as [->|[->|[->|[->| ->]]]]; simpl; lia.
Qed.
End Alone.

(** C31: a recompute that no other request interrupts publishes exactly the statistics of the
    tables it read: a row for each registered type and each admitted attribute value that
    somebody holds, with the number of distinct users who hold a live native badge of it; for
    each valid cohort the sizes of its two sides; for each bucket the number of users who score
    it, all users together. The loop over the users ends within its passes. *)
Theorem recompute_exact w compareIds fuel native now durationMs config db :
  NoDup (sd_users db) → NoDup (map cd_id (sd_cohortDefs db)) → defs_castable w (sd_badges db) (sd_cohortDefs db) →
  (loadSybilScoringConfig now (sd_config db) (sd_configCache db)).1 = Some config →
  (length (sd_users db) < USER_BATCH_SIZE * fuel)%nat →
  ∃ db', run_solo (recomputeAllStats w compareIds fuel native now durationMs) db = (Ok durationMs, db') ∧
    NoDup (map statKey (sd_badgeStats db')) ∧
    (∀ s, s ∈ sd_badgeStats db' ↔ exact w native now (sd_badges db) s) ∧
    (∀ d num den, d ∈ sd_cohortDefs db → sidesOf d = Some (num, den) →
       ∃ s, sd_cohortStats db' !! cd_id d = Some s ∧ cohort_exact w native now (sd_badges db) num den s) ∧
    (∀ b, sd_bucketStats db' !! b = if decide (b ∈ BUCKETS) then Some (bucketRow native now config db b) else None) ∧
    foldr Z.add 0 (map (usersIn native now config db) BUCKETS) = Z.of_nat (length (sd_users db)) ∧
    sd_run db' = Some {| sr_computedAt := now; sr_durationMs := durationMs |}.
Proof.
  intros Hu Hd Hc Hconf Hf. destruct (loadSybilScoringConfig now (sd_config db) (sd_configCache db)) as [c cache] eqn:El. simpl in Hconf. subst c.
  destruct (cohortStatsOf_solo w native now (sd_cohortDefs db) [] db Hc) as (l & El2 & Hl & Hex).
  unfold recomputeAllStats, recomputeWithin. rewrite run_solo_tbind, run_solo_bind, recomputeBadgeStats_solo. cbn [fst snd].
  rewrite run_solo_tbind. unfold recomputeCohortStats. rewrite run_solo_read, El2. cbn [fst snd app].
  rewrite run_solo_tbind, (recomputeBucketStats_solo compareIds native now fuel db config cache Hu Hf El). cbn [fst snd].
  eexists. split; [done|]. cbn [sd_badgeStats sd_cohortStats sd_bucketStats sd_run setRun setStats wr_badgeStats wr_cohortStats wr_bucketStats setConfigCache].
  split_and!.
  - pose proof (recomputeBadgeStats_ok w native now (fun _ => True)) as Hs.
    destruct (stays_solo _ _ _ db Hs I) as [_ (_ & Hk & _)]. by rewrite recomputeBadgeStats_solo in Hk.
  - intros s. apply elem_of_statRows.
  - intros d num den Hin Hs. destruct (Hex d num den Hin Hs) as (s & Hsl & Hx). exists s. split; [|done].
    apply (upsert_all l); [|done]. rewrite Hl. by apply (NoDup_filter_key cd_id).
  - intros b. case_decide as Hb.
    + apply elem_of_list_to_map_1; [apply (bool_decide_eq_true _); by vm_compute|]. apply elem_of_map. by exists b.
    + by apply not_elem_of_list_to_map_1.
  - apply buckets_sum.
  - done.
Qed.

(** ** Recomputes among other requests *)

(** A recompute by hand, a scheduled one, and a statement of another component, which leaves
    the statistics alone. *)
Inductive StatsRequest :=
  | RqManual (fuel : nat) (now durationMs : Z)
  | RqScheduled (fuel : nat) (now durationMs : Z)
  | RqOther (f : StatsDB → StatsDB).

(** The tokens of scheduled recomputes: the advisory lock, and the stamp of the last run. *)
Inductive StatsToken := TLock | TStamp.
#[export] Instance StatsToken_eq_dec : EqDecision StatsToken.
Proof. solve_decision. Defined.
#[export] Instance StatsToken_countable : Countable StatsToken.
Proof. refine (inj_countable' (fun t => match t with TLock => true | TStamp => false end) (fun b => if b : bool then TLock else TStamp) _). by intros []. Defined.

Section Pools.
Context (w : SqlWorld) (compareIds : string → string → Z) (native : string) (intervalMs : Z).

Definition statsHandler (rq : StatsRequest) : thread StatsDB (option ScheduledStatsOutcome) :=
  match rq with
  | RqManual fuel now d => r ← recomputeAllStats w compareIds fuel native now d; mret None
  | RqScheduled fuel now d =>
      r ← runScheduledStatsRecompute w compareIds fuel native intervalMs now d;
      mret match r with Ok o => Some o | Err _ => None end
  | RqOther f => _ ← write f; mret None
  end.

Definition leaves_stats (db db' : StatsDB) : Prop :=
  sd_badgeStats db' = sd_badgeStats db ∧ sd_bucketStats db' = sd_bucketStats db ∧ sd_run db' = sd_run db ∧ sd_lock db' = sd_lock db.

(** What the statistics tables hold. *)
Definition tables_ok (db : StatsDB) : Prop :=
  Forall clean (sd_badgeStats db) ∧ NoDup (map statKey (sd_badgeStats db)) ∧
  (∀ b s, sd_bucketStats db !! b = Some s → (b ∈ BUCKETS) ∧ 0 <= bu_count s).

Lemma leaves_tables db db' : leaves_stats db db' → tables_ok db → tables_ok db'.
Proof. intros (E1 & E2 & _). unfold tables_ok. by rewrite E1, E2. Qed.

(** *** A recompute writes nothing before it commits *)

#[local] Instance leaves_preorder : PreOrder leaves_stats.
Proof. split; [by intros db|]. unfold leaves_stats. intros a b c (? & ? & ? & ?) (? & ? & ? & ?). repeat split; congruence. Qed.

(** A read in front of a handler. *)
Lemma leaves_read {A B} (f : StatsDB → A) (k : A → thread StatsDB B) :
  (∀ a, steps_in leaves_stats (k a)) → steps_in leaves_stats (read f ≫= k).
Proof. intros Hk. apply (steps_in_bind leaves_stats (read f) k); [apply (steps_in_read leaves_stats)|exact Hk]. Qed.
Lemma leaves_tbind {A B} (t : thread StatsDB (result StatsError A)) (k : A → thread StatsDB (result StatsError B)) :
  steps_in leaves_stats t → (∀ a, steps_in leaves_stats (k a)) → steps_in leaves_stats (tbind t k).
Proof. intros Ht Hk. apply (steps_in_bind leaves_stats t); [done|]. intros [a|e]; [apply Hk|done]. Qed.

Lemma attrStats_leaves now pairs rows : steps_in leaves_stats (attrStats w native now pairs rows).
Proof.
  revert rows. induction pairs as [|[t k] pairs IH]; intros rows; cbn [attrStats]; [done|].
  apply leaves_read. intros dist. apply IH.
Qed.

Lemma cohortStatsOf_leaves now defs rows : steps_in leaves_stats (cohortStatsOf w native now defs rows).
Proof.
  revert rows. induction defs as [|d defs IH]; intros rows; cbn [cohortStatsOf]; [done|].
  destruct (safeParseCohortFilter _); [|apply IH]. destruct (safeParseCohortFilter _); [|apply IH].
  apply leaves_tbind; [apply (steps_in_read leaves_stats)|]. intros num.
  apply leaves_tbind; [apply (steps_in_read leaves_stats)|]. intros den. apply IH.
Qed.

Lemma bucketLoop_leaves fuel now config cursor counts : steps_in leaves_stats (bucketLoop compareIds fuel native now config cursor counts).
Proof.
  revert cursor counts. induction fuel as [|fuel IH]; intros cursor counts; cbn [bucketLoop]; [done|].
  apply leaves_read. intros [|u ids]; [done|]. apply leaves_read. intros badges. cbv zeta. destruct (Nat.ltb _ _); [done|apply IH].
Qed.

Lemma recomputeWithin_leaves fuel now : steps_in leaves_stats (recomputeWithin w compareIds fuel native now).
Proof.
  unfold recomputeWithin, recomputeBadgeStats, recomputeCohortStats, recomputeBucketStats.
  apply (steps_in_bind leaves_stats); [apply leaves_read; intros totals; apply attrStats_leaves|]. intros rows.
  apply leaves_tbind; [apply leaves_read; intros defs; apply cohortStatsOf_leaves|]. intros cohorts.
  apply leaves_tbind; [|done]. apply leaves_tbind.
  { apply (steps_in_act leaves_stats). intros db. by destruct (loadSybilScoringConfig _ _ _). }
  intros config. apply leaves_tbind; [apply bucketLoop_leaves|]. intros counts. done.
Qed.

(** *** What it commits *)

Definition writes_ok (x : StatsWrites) : Prop :=
  Forall clean (wr_badgeStats x) ∧ NoDup (map statKey (wr_badgeStats x)) ∧
  ∀ b s, (b, s) ∈ wr_bucketStats x → (b ∈ BUCKETS) ∧ 0 <= bu_count s.

Lemma setStats_ok x db : writes_ok x → tables_ok (setStats x db).
Proof.
  intros (Hc & Hn & Hb). split_and!; [done|done|]. intros b s E. simpl in E. by apply elem_of_list_to_map_2, Hb in E.
Qed.

Lemma tally_nonneg counts l b : 0 <= default 0 (counts !! b) → 0 <= default 0 (foldl tally counts l !! b).
Proof. intros H. rewrite tally_counts. lia. Qed.

Lemma bucketLoop_nonneg fuel now config cursor counts : (∀ b, 0 <= default 0 (counts !! b)) →
  stays tables_ok (fun r => match r with Ok c => ∀ b, 0 <= default 0 (c !! b) | Err _ => True end)
    (bucketLoop compareIds fuel native now config cursor counts).
Proof.
  revert cursor counts. induction fuel as [|fuel IH]; intros cursor counts Hc; cbn [bucketLoop]; [done|].
  apply stays_bind, stays_read. intros db _. destruct (userPage compareIds cursor (sd_users db)) as [|u ids]; [done|].
  apply stays_bind, stays_read. intros db' _. cbv zeta.
  set (counts' := foldl _ counts (u :: ids)).
  assert (Hc' : ∀ b, 0 <= default 0 (counts' !! b)).
  { intros b. unfold counts'. rewrite (tally_batch _ _ (u :: ids) counts (fun _ _ => eq_refl)). by apply tally_nonneg. }
  clearbody counts'. destruct (Nat.ltb _ _); [done|by apply IH].
Qed.

Lemma recomputeBucketStats_ok fuel now :
  stays tables_ok (fun r => match r with Ok l => ∀ b s, (b, s) ∈ l → (b ∈ BUCKETS) ∧ 0 <= bu_count s | Err _ => True end)
    (recomputeBucketStats compareIds fuel native now).
Proof.
  unfold recomputeBucketStats. apply stays_tbind, stays_act. intros db Hdb.
  destruct (loadSybilScoringConfig _ _ _) as [[config|] cache]; cbn [fst snd]; [|split; [|done]; by eapply leaves_tables; [|exact Hdb]].
  split; [by eapply leaves_tables; [|exact Hdb]|]. apply stays_tbind.
  eapply stays_impl; [|apply bucketLoop_nonneg; intros b; by rewrite zero_counts].
  intros [counts|e] Hc; [|done]. apply stays_ret. intros b s (b' & E & Hb)%elem_of_map. simplify_eq. by split; [|apply Hc].
Qed.

Lemma recomputeWithin_ok fuel now :
  stays tables_ok (fun r => match r with Ok x => writes_ok x | Err _ => True end) (recomputeWithin w compareIds fuel native now).
Proof.
  unfold recomputeWithin. apply stays_bind. eapply stays_impl; [|apply (recomputeBadgeStats_ok w native now tables_ok)].
  intros rows (Hc & Hn & _). apply stays_tbind.
  eapply stays_impl; [|apply (stays_frame tables_ok leaves_stats)].
  - intros [cohorts|e] _; [|done]. apply stays_tbind. eapply stays_impl; [|apply recomputeBucketStats_ok].
    intros [l|e] Hl; [|done]. by apply stays_ret.
  - intros db db' Hdb HR. by eapply leaves_tables.
  - unfold recomputeCohortStats. apply leaves_read. intros defs. apply cohortStatsOf_leaves.
Qed.

Lemma handler_ok rq : match rq with RqOther f => ∀ db, leaves_stats db (f db) | _ => True end →
  stays tables_ok (fun _ => True) (statsHandler rq).
Proof.
  destruct rq as [fuel now d|fuel now d|f]; intros Hrq; cbn [statsHandler].
  - apply stays_bind. unfold recomputeAllStats. apply stays_tbind. eapply stays_impl; [|apply recomputeWithin_ok].
    intros [x|e] Hx; [|done]. apply stays_bind, stays_write; [intros db _; by apply setStats_ok|].
    apply stays_bind, stays_write; [|done]. done.
  - apply stays_bind. unfold runScheduledStatsRecompute, tryStatsLock. apply stays_bind, stays_act. intros db Hdb.
    destruct (sd_lock db) eqn:El; cbn [fst snd negb]; [done|]. split; [done|].
    apply stays_bind, stays_read. intros db' Hdb'. destruct (match sd_run db' with Some r => _ | None => _ end).
    + by apply stays_bind, stays_write.
    + apply stays_bind. eapply stays_impl; [|apply recomputeWithin_ok]. intros [x|e] Hx.
      * apply stays_bind, stays_write; [|done]. intros db2 _. exact (setStats_ok x db2 Hx).
      * by apply stays_bind, stays_write.
  - apply stays_bind, stays_write; [|done]. intros db Hdb. eapply leaves_tables; [apply Hrq|done].
Qed.

(** *** One scheduled recompute per interval *)

Context (clocks : list Z).

(** The last run is one of these handlers'. *)
Definition stamped (db : StatsDB) : Prop := ∃ r, sd_run db = Some r ∧ sr_computedAt r ∈ clocks.

Definition lock_ok (g : gset StatsToken) (db : StatsDB) : Prop :=
  (TLock ∈ g ↔ sd_lock db = true) ∧ (TStamp ∈ g → stamped db).
Definition lock_rely (g : gset StatsToken) (db db' : StatsDB) : Prop := TLock ∈ g → sd_run db' = sd_run db.

#[export] Instance lock_rely_preorder g : PreOrder (lock_rely g).
Proof. split; [by intros db ?|]. intros a b c H1 H2 Hg. by rewrite H2, H1. Qed.

Lemma lock_rely_mono g g' db db' : g ⊆ g' → lock_rely g' db db' → lock_rely g db db'.
Proof. intros Hg HR Hin. apply HR. by apply Hg. Qed.

Abbreviation owning := (owns lock_ok lock_rely (fun _ => True)).

(** Steps that leave the run and the lock. *)
Lemma leaves_owns {A} (t : thread StatsDB A) g db0 : steps_in leaves_stats t →
  owning (fun _ g' db => g' = g ∧ lock_rely g db0 db) g db0 t.
Proof.
  revert db0. induction t as [a|f k IH]; intros db0 Ht; cbn [owns]; [by split|].
  intros F db HF [HL HS] HR. destruct (Ht db) as [(_ & _ & Er & El) Hk]. exists g. split_and!; [done|done| | |].
  - split; [by rewrite El|]. unfold stamped. by rewrite Er.
  - by intros _.
  - eapply owns_impl; [|apply IH, Hk]. intros a g' db' [-> HR']. split; [done|]. intros Hg. rewrite HR', Er by done. by apply HR.
Qed.

(** Any two of the clocks are closer than the interval. *)
Context (Hclose : ∀ x y, x ∈ clocks → y ∈ clocks → x - y < intervalMs).

Definition stamps (r : result StatsError ScheduledStatsOutcome) (g : gset StatsToken) (db : StatsDB) : Prop :=
  r = Ok Recomputed → TStamp ∈ g.

Lemma unlock_owns {A} (f : StatsDB → StatsDB) (a : A) (Q : A → gset StatsToken → StatsDB → Prop) db0 :
  (∀ db, sd_run (f db) = sd_run db ∧ sd_lock (f db) = false) → (∀ db, Q a ∅ db) → owning Q {[TLock]} db0 (_ ← write f; mret a).
Proof.
  intros Hf HQ F db HF [HL HS] HR. destruct (Hf db) as [Er El]. cbn. exists ∅. split_and!; [done|done| | |apply HQ].
  - split; [|unfold stamped; rewrite Er; set_solver]. rewrite El. split; [|done]. intros Hin. exfalso. apply (HF TLock); set_solver.
  - by intros _.
Qed.

Lemma scheduled_owns fuel now d db0 : now ∈ clocks →
  owning stamps ∅ db0 (runScheduledStatsRecompute w compareIds fuel native intervalMs now d).
Proof.
  intros Hnow. unfold runScheduledStatsRecompute, tryStatsLock. apply owns_act. intros F db HF [HL HS] _. cbn [fst snd].
  destruct (sd_lock db) eqn:El; cbn [negb].
  { exists ∅. split_and!; [done|done|split; [by rewrite El|done]|done|]. by apply owns_ret. }
  assert (HnF : TLock ∉ F) by (intros Hin; discriminate (proj1 HL ltac:(set_solver))).
  exists {[TLock]}. split_and!; [done|set_solver|split; [simpl; set_solver|intros Hs; apply HS; set_solver]|by intros _|].
  apply owns_read; [apply _|done|]. intros F' db' HF' [HL' HS'] HR'.
  destruct (match sd_run db' with Some r => _ | None => _ end) eqn:Efresh.
  { by apply unlock_owns. }
  eapply owns_then; [apply leaves_owns, recomputeWithin_leaves|]. intros [x|e] g db2 [-> HR2]; [|by apply unlock_owns].
  intros F2 db3 HF2 [HL3 HS3] HR3. cbn. exists {[TStamp]}.
  assert (Hrun : sd_run db3 = sd_run db') by (rewrite HR3, HR2 by set_solver; done).
  assert (HnS : TStamp ∉ F2).
  { intros Hin. destruct (HS3 ltac:(set_solver)) as (r & Er & Hr). rewrite Hrun in Er. rewrite Er in Efresh.
    apply Z.ltb_ge in Efresh. pose proof (Hclose now (sr_computedAt r) Hnow Hr). lia. }
  split_and!; [done|set_solver| | |intros _; set_solver].
  - split; [simpl; split; [|done]; intros Hin; exfalso; apply (HF2 TLock); set_solver|]. intros _. eexists. by split.
  - intros Hin. exfalso. apply (HF2 TLock); set_solver.
Qed.

Definition stamps' (o : option ScheduledStatsOutcome) (g : gset StatsToken) (db : StatsDB) : Prop :=
  o = Some Recomputed → TStamp ∈ g.

Lemma handler_owns rq db0 :
  match rq with RqManual _ _ _ => False | RqScheduled _ now _ => now ∈ clocks | RqOther f => ∀ db, leaves_stats db (f db) end →
  owning stamps' ∅ db0 (statsHandler rq).
Proof.
  destruct rq as [| |f]; intros Hrq; cbn [statsHandler]; [done| |].
  - eapply owns_then; [by apply scheduled_owns|]. intros [o|e] g db Hs; apply owns_ret; [|done]. intros ?. simplify_eq. by apply Hs.
  - eapply owns_then; [apply (leaves_owns (write f)), steps_in_write, Hrq|]. intros a g db _. by apply owns_ret.
Qed.
End Pools.

(** Whatever runs next to them, recomputes publish only totals of registered types and
    values of the allowlist, each row once, and counts for the five buckets: every row of the
    tables is clean after any interleaving of recomputes and other requests. *)
Theorem published_rows_clean w compareIds native intervalMs rqs sched db :
  tables_ok db → Forall (fun rq => match rq with RqOther f => ∀ db, leaves_stats db (f db) | _ => True end) rqs →
  tables_ok (pool_run sched (map (statsHandler w compareIds native intervalMs) rqs, db)).2.
Proof.
  intros Hdb Hrqs. apply (stays_pool tables_ok (fun _ => True)); [|done]. apply Forall_map.
  eapply Forall_impl; [exact Hrqs|]. intros rq. apply handler_ok.
Qed.

(** Among scheduled recomputes whose clocks lie within one interval, on any number of
    instances and next to any other requests, at most one recomputes; the others find the
    advisory lock taken or the statistics fresh. *)
Theorem one_recompute_per_interval w compareIds native intervalMs rqs sched db i j (clocks : list Z) :
  sd_lock db = false → (∀ x y, x ∈ clocks → y ∈ clocks → x - y < intervalMs) →
  Forall (fun rq => match rq with RqManual _ _ _ => False | RqScheduled _ now _ => now ∈ clocks | RqOther f => ∀ db, leaves_stats db (f db) end) rqs →
  let ts := (pool_run sched (map (statsHandler w compareIds native intervalMs) rqs, db)).1 in
  ts !! i = Some (Ret (Some Recomputed)) → ts !! j = Some (Ret (Some Recomputed)) → i = j.
Proof.
  intros Hl Hclose Hrqs ts Hi Hj. destruct (decide (i = j)) as [|Hne]; [done|exfalso].
  destruct (owns_pool (lock_ok clocks) lock_rely lock_rely_mono (fun _ _ => True)
    (fun _ => stamps') (fun _ => ∅) (map (statsHandler w compareIds native intervalMs) rqs) db sched) as (g & Hown & Hdis & _).
  - by intros k a g db1 db2 _.
  - split_and!.
    + intros k t (rq & -> & Hrq)%list_lookup_fmap_Some. split; [|done]. eapply handler_owns; [done|]. by eapply Forall_lookup in Hrqs.
    + done.
    + assert (Hno : ∀ x, x ∉ total (length (map (statsHandler w compareIds native intervalMs) rqs)) (fun _ : nat => ∅ : gset StatsToken))
        by (intros x (k & _ & Hx)%elem_of_total; by apply not_elem_of_empty in Hx).
      split; [rewrite Hl; split; [intros Hx|done]|intros Hx]; by destruct (Hno _ Hx).
  - destruct (Hown i _ Hi) as [Hsi _], (Hown j _ Hj) as [Hsj _].
    apply (Hdis i j Hne (lookup_lt_Some _ _ _ Hi) (lookup_lt_Some _ _ _ Hj) TStamp); [by apply Hsi|by apply Hsj].
Qed.

(** ** A concrete database *)

Module StatsDemo.
Definition w : SqlWorld :=
  {| sw_castInt s := if bool_decide (s = "24") then Some 24 else if bool_decide (s = "36") then Some 36 else None;
     sw_otherText _ _ := None |}.

Definition badge (id user type : string) (attrs : list (string * RowAttr)) (expiresAt : option Z) : BadgeRow :=
  {| br_id := id; br_userId := user; br_type := type; br_attributes := Some (list_to_map attrs); br_issuedAt := 0;
     br_expiresAt := expiresAt; br_issuer := "did:m"; br_vcJwt := ""; br_nullifierRef := None; br_statusAnchor := None |}.

Definition github : BadgeRow := badge "b1" "u1" "oauth-account" [("provider", RString "github")] None.
Definition aged : BadgeRow := badge "b2" "u2" "account-age" [("provider", RString "github"); ("olderThanMonths", RNumber 36)] None.

Definition def : CohortStatDef :=
  {| cd_id := "d1"; cd_label := "Aged GitHub accounts (share of GitHub accounts)";
     cd_numeratorFilter := filterJson (one "account-age" [("provider", WString "github")] (Some [("olderThanMonths", 24)]));
     cd_denominatorFilter := filterJson (one "oauth-account" [("provider", WString "github")] None); cd_published := true |}.

Definition config : SybilScoringConfig :=
  buildSybilScoringConfig (weightRowsOf seedDB) (map_to_list (db_categories seedDB)) SYBIL_BUCKET_CONFIG_SEED.

Definition db (badges : list BadgeRow) : StatsDB :=
  {| sd_badges := badges; sd_users := ["u2"; "u1"]; sd_config := seedDB; sd_configCache := None; sd_badgeStats := [];
     sd_cohortDefs := [def]; sd_cohortStats := ∅; sd_bucketStats := ∅; sd_run := None; sd_lock := false |}.

Lemma castable_def : defs_castable w [github; aged] [def].
Proof.
  intros d num den ->%list_elem_of_singleton E. vm_compute in E. injection E as <- <-.
  split; (apply Forall_singleton; intros b k v s Hb Ht Hk Es; simpl in Ht, Hk).
  - apply list_elem_of_singleton in Hk. injection Hk as -> ->. apply elem_of_cons in Hb as [->|Hb]; [done|].
    apply list_elem_of_singleton in Hb as ->. vm_compute in Es. injection Es as <-. by eexists.
  - by apply elem_of_nil in Hk.
Qed.
End StatsDemo.

(** Two users, a linked account, an aged account, one cohort: the recompute publishes them. *)
Lemma recompute_exact_witness : ∃ db', 
  run_solo (recomputeAllStats StatsDemo.w cmp_string 1 "did:m" 5 7) (StatsDemo.db [StatsDemo.github; StatsDemo.aged]) = (Ok 7, db') ∧
  (∀ s, s ∈ sd_badgeStats db' ↔ exact StatsDemo.w "did:m" 5 [StatsDemo.github; StatsDemo.aged] s).
Proof.
  destruct (recompute_exact StatsDemo.w cmp_string 1 "did:m" 5 7 StatsDemo.config (StatsDemo.db [StatsDemo.github; StatsDemo.aged]))
    as (db' & H1 & _ & H2 & _).
  - apply (bool_decide_eq_true _). vm_compute. reflexivity.
  - apply (bool_decide_eq_true _). vm_compute. reflexivity.
  - exact StatsDemo.castable_def.
  - reflexivity.
  - apply (bool_decide_eq_true _). vm_compute. reflexivity.
  - exists db'. split; [exact H1|exact H2].
Defined.

Lemma published_rows_clean_witness :
  tables_ok (pool_run [0; 1; 0; 1; 0; 1; 2]%nat
    (map (statsHandler StatsDemo.w cmp_string "did:m" 1000) [RqManual 1 5 7; RqScheduled 1 5 7; RqOther id],
     StatsDemo.db [StatsDemo.github; StatsDemo.aged])).2.
Proof.
  apply (published_rows_clean StatsDemo.w cmp_string "did:m" 1000).
  - split; [constructor|]. split; [constructor|]. intros b s E. cbn in E. by rewrite lookup_empty in E.
  - repeat constructor.
Defined.

Lemma one_recompute_per_interval_witness :
  let ts := (pool_run (replicate 40 0%nat ++ replicate 40 1%nat)
    (map (statsHandler StatsDemo.w cmp_string "did:m" 1000) [RqScheduled 1 5 7; RqScheduled 1 800 7], StatsDemo.db [StatsDemo.github])).1 in
  ts !! 0%nat = Some (Ret (Some Recomputed)) ∧ ts !! 1%nat = Some (Ret (Some SkippedFresh)) ∧ 0%nat = 0%nat.
Proof.
  split; [vm_compute; reflexivity|]. split; [vm_compute; reflexivity|].
  apply (one_recompute_per_interval StatsDemo.w cmp_string "did:m" 1000 [RqScheduled 1 5 7; RqScheduled 1 800 7]
    (replicate 40 0%nat ++ replicate 40 1%nat) (StatsDemo.db [StatsDemo.github]) 0 0 [5; 800]).
  - reflexivity.
  - intros x y Hx Hy. rewrite !elem_of_cons, elem_of_nil in Hx, Hy. lia.
  - repeat constructor.
  - vm_compute. reflexivity.
  - vm_compute. reflexivity.
Defined.

(** ** What the comments promise and the code does not *)

(** The first of them recomputes, the second finds the statistics fresh. *)
Lemma scheduled_example :
  returned (pool_run (replicate 40 0%nat ++ replicate 40 1%nat)
    (map (statsHandler StatsDemo.w cmp_string "did:m" 1000) [RqScheduled 1 5 7; RqScheduled 1 800 7], StatsDemo.db [StatsDemo.github])).1
  = [Some Recomputed; Some SkippedFresh].
Proof. vm_compute. reflexivity. Qed.

(** A built-in cohort whose numerator is not below its denominator: the aged account's user
    holds no account badge. *)
Lemma cohort_sides_unrelated :
  let count f := countCohortSide StatsDemo.w f "did:m" 5 [StatsDemo.aged] in
  (fun d => (count (cs_numeratorFilter d), count (cs_denominatorFilter d))) <$> head BUILTIN_COHORT_DEFS = Some (Ok 1, Ok 0).
Proof. vm_compute. reflexivity. Qed.

(** The queries of a recompute see different states: a badge issued after the totals were read
    has an attribute row and no total. *)
Lemma recompute_is_not_a_snapshot :
  map statKey (sd_badgeStats (pool_run ([0; 1] ++ replicate 60 0)%nat
    (map (statsHandler StatsDemo.w cmp_string "did:m" 1000)
      [RqManual 1 5 7; RqOther (fun db => StatsDemo.db (sd_badges db ++ [StatsDemo.github]))], StatsDemo.db [])).2)
  = [("oauth-account", "provider", "github")].
Proof. vm_compute. reflexivity. Qed.

(** A badge that expires at the very time of the recompute counts for the scorer and not for
    the statistics. *)
Lemma expiry_boundary_differs :
  let b := StatsDemo.badge "b3" "u3" "account-age" [("provider", RString "github"); ("olderThanMonths", RNumber 36)] (Some 5) in
  raw (sybilScore StatsDemo.config 5 "did:m" (badgesOf "did:m" 5 [b] "u3")) = 0 ∧
  0 < raw (sybilScore StatsDemo.config 5 "did:m" [scorableOf b]).
Proof. vm_compute. split; reflexivity. Qed.
