(* ===== verification/Disclosure.v ===== *)
(** * Disclosure of badges over OpenID Connect, down to the signed credential

    OidcFlow.v takes the re-mint of a stored credential as a parameter; here it is the one of
    Vc.v, with the options lib/oidc-claims.ts passes (the sanitizer, the live role of a group
    membership, the status entry of lib/status-list/anchors.ts). The second part relates the
    month a disclosed credential carries to the time consent evaluates policies with. *)

From S2P Require Import Prelude Threads Matching Policy Selection RateLimit Registry Claims Vc Pairwise.
From S2P Require Import SybilScore Session SybilConfig OidcAuthorize Bitstring Interleave StatusList OidcFlow.

Open Scope Z_scope.
Open Scope minister_scope.

(** ** The re-mint of a disclosure *)

Definition credentialStatusFor (origin : string) (alloc : AllocatedStatus) : CredentialStatusEntry :=
  let url := statusListUrl origin (al_listId alloc) in
  {| cs_id := url +:+ "#" +:+ pretty (al_bitIndex alloc); cs_statusListIndex := pretty (al_bitIndex alloc);
     cs_statusListCredential := url |}.

(** The sanitizer of a badge; a group membership discloses its live role. *)
Definition claimSanitizer (isEmail : string → bool) (liveRole : option string) (claims : JObject) (vcType : list Json) : option JObject :=
  match liveRole with
  | None => sanitizeDisclosedClaims isEmail claims vcType
  | Some role => (fun sanitized => spread sanitized [("role", JStr role)]) <$> sanitizeDisclosedClaims isEmail claims vcType
  end.

Definition disclosureOptions (isEmail : string → bool) (origin : string) (o : ReMintOptions) : RemintOptions :=
  {| ro_subjectId := rm_subject o; ro_jti := rm_jti o; ro_maxExpiresAt := rm_maxExpiresAt o; ro_notBefore := None;
     ro_sanitizeClaims := Some (claimSanitizer isEmail (rm_role o)); ro_disclosureTtlSeconds := Some (rm_ttlSeconds o);
     ro_nullifier := rm_nullifier o; ro_credentialStatus := credentialStatusFor origin <$> rm_status o |}.

Definition reMintStored (vw : VcWorld) (isEmail : string → bool) (origin : string) (now : Z) (vcJwt : string) (o : ReMintOptions) : option string :=
  match reMintVc vw now vcJwt (disclosureOptions isEmail origin o) with Ok jwt => Some jwt | Err _ => None end.

(** The world whose re-mint is the issuer's. *)
Definition issuing (vw : VcWorld) (isEmail : string → bool) (origin : string) (w : World) : World :=
  {| w_did := w_did w; w_domain := w_domain w; w_sha256 := w_sha256 w; w_base64url := w_base64url w;
     w_argonVerify := w_argonVerify w; w_pairwiseSub := w_pairwiseSub w; w_pairwiseJti := w_pairwiseJti w;
     w_disclose := w_disclose w; w_driftOk := w_driftOk w; w_reMint := reMintStored vw isEmail origin;
     w_urlProtocol := w_urlProtocol w; w_cuid := w_cuid w; w_draw := w_draw w |}.

(** ** Lemmas *)

Lemma claimSanitizer_role isEmail role claims types out :
  claimSanitizer isEmail (Some role) claims types = Some out → jget "role" out = Some (JStr role).
Proof.
  unfold claimSanitizer. destruct (sanitizeDisclosedClaims _ _ _) as [c|]; [|done]. intros [= <-].
  cbn [spread foldl]. by rewrite jget_jset, decide_True.
Qed.

Lemma jget_filter_reserved k (claims : JObject) :
  k ∉ RESERVED_CREDENTIAL_SUBJECT_KEYS → jget k (stripReservedClaims claims) = jget k claims.
Proof.
  intros Hk. unfold stripReservedClaims. induction claims as [|[k' v] claims IH]; [done|].
  rewrite filter_cons. case_decide as Hd; cbn [jget].
  - by rewrite IH.
  - rewrite IH. rewrite decide_False; [done|]. by intros ->.
Qed.

(** What a disclosed credential says of its holder, audience, role and status. *)
Lemma reMintStored_ok vw isEmail origin now vcJwt o out :
  reMintStored vw isEmail origin now vcJwt o = Some out →
  ∃ og claims month expSec,
    signCompactJwt vw (vcHeader vw) (disclosure vw now (disclosureOptions isEmail origin o) og claims month expSec) = Some out ∧
    (∀ role, rm_role o = Some role → jget "role" claims = Some (JStr role)) ∧
    expSec <= now / 1000 + rm_ttlSeconds o ∧ (∀ cap, rm_maxExpiresAt o = Some cap → expSec <= cap / 1000).
Proof.
  unfold reMintStored. destruct (reMintVc _ _ _ _) as [jwt|e] eqn:E; [|done]. intros [= <-].
  apply remint_ok in E as (d & og & claims & month & expSec & _ & _ & Hc & _ & He & Hs).
  exists og, claims, month, expSec. split; [done|]. split; [|apply remintExp_ok in He as (_ & _ & ->); split].
  - intros role Hr. unfold disclosedClaims, disclosureOptions in Hc. cbn [ro_sanitizeClaims] in Hc.
    apply bind_Ok in Hc as (c & Hc%some_or_Ok & Hc'). injection Hc' as <-. rewrite Hr in Hc.
    rewrite jget_filter_reserved by set_solver. by eapply claimSanitizer_role.
  - cbn. destruct (og_exp og), (rm_maxExpiresAt o); simpl; lia.
  - intros cap Hcap. cbn. rewrite Hcap. simpl. lia.
Qed.

Lemma omit_None userId actions db r db' : run_solo (omit userId actions) db = (r, db') → r = None.
Proof.
  revert db. induction actions as [|a actions IH]; intros db; [by intros [= <- _]|].
  cbn [omit]. rewrite run_solo_bind. apply IH.
Qed.

(** The last step of a disclosure signs, or omits the badge. *)
Lemma mint_or_omit userId o actions db r db' :
  run_solo (match o with Some jwt => mret (Some jwt) | None => omit userId actions end) db = (r, db') →
  r = None ∨ (r = o ∧ is_Some o).
Proof. destruct o as [jwt|]; [intros [= <- _]; eauto|]. intros H%omit_None. by left. Qed.

(** ** Group memberships *)

(** A group membership is disclosed only while it lasts, and as it is. When a group badge
    is disclosed, the membership row exists at that moment, the credential carries the row's
    current role whatever role was signed at issuance, it is about the pairwise subject, and,
    where the badge has a revocation anchor, it names the handle allocated for that anchor and
    party; without a membership row the badge is omitted. *)
Theorem group_disclosure_is_live vw isEmail origin w now userId clientId sub handle row db r db' :
  br_type row = GROUP_MEMBERSHIP_BADGE_TYPE →
  run_solo (discloseBadge (issuing vw isEmail origin w) now userId clientId sub handle row) db = (r, db') →
  match r with
  | None => True
  | Some jwt =>
      ∃ groupId role og claims month expSec options,
        groupIdOf row = Some groupId ∧ od_memberships db !! (groupId, userId) = Some role ∧
        jget "role" claims = Some (JStr role) ∧
        signCompactJwt vw (vcHeader vw) (disclosure vw now options og claims month expSec) = Some jwt ∧
        ro_subjectId options = buildPairwiseUserDid (w_domain w) sub ∧
        expSec <= now / 1000 + BADGE_DISCLOSURE_TTL_SECONDS ∧
        (∀ anchor, present (br_statusAnchor row) = Some anchor → ∃ alloc,
           (allocate (issuing vw isEmail origin w) now anchor clientId db).1 = Some alloc ∧
           ro_credentialStatus options = Some (credentialStatusFor origin alloc))
  end ∧
  (∀ groupId, groupIdOf row = Some groupId → od_memberships db !! (groupId, userId) = None → r = None).
Proof.
  intros Ht. unfold discloseBadge. destruct (rowNullifier _ _ _ _) as [nullifier|actions];
    [|intros ->%omit_None; by split].
  rewrite decide_True by done. destruct (groupIdOf row) as [groupId|]; [|intros ->%omit_None; by split].
  rewrite run_solo_bind, run_solo_read. cbn [mret thread_ret run_solo fst snd].
  destruct (od_memberships db !! (groupId, userId)) as [role|] eqn:Em; [|intros ->%omit_None; by split].
  assert (∀ g, Some groupId = Some g → od_memberships db !! (g, userId) = None → r = None) as Hmem.
  { intros g [= <-]. by rewrite Em. }
  rewrite run_solo_bind. destruct (present (br_statusAnchor row)) as [anchor|] eqn:Ea.
  - rewrite run_solo_bind. cbn [act run_solo fst snd mret thread_ret].
    destruct (allocate (issuing vw isEmail origin w) now anchor clientId db) as [[alloc|] db1] eqn:El; cbn [fst snd];
      [|intros ->%omit_None; by split].
    intros [->|[-> [jwt Hr]]]%mint_or_omit; [done|]. split; [|done]. rewrite Hr.
    apply reMintStored_ok in Hr as (og & claims & month & expSec & Hs & Hrole & He & _).
    exists groupId, role, og, claims, month, expSec. eexists. split_and!; [done..|by apply Hrole|exact Hs|done|exact He|].
    intros a [= <-]. exists alloc. by rewrite El.
  - cbn [mret thread_ret run_solo fst snd].
    intros [->|[-> [jwt Hr]]]%mint_or_omit; [done|]. split; [|done]. rewrite Hr.
    apply reMintStored_ok in Hr as (og & claims & month & expSec & Hs & Hrole & He & _).
    exists groupId, role, og, claims, month, expSec. eexists. by split_and!; [done..|apply Hrole|exact Hs|done|exact He|].
Qed.

(** ** The issuance month

    A credential discloses the month of issuance as text; consent evaluates the age of a badge
    from the start of that month. *)

Section Month.

(** The year of the era and the day of the year of a day of the era. *)
Definition yearOfEra (doe : Z) : Z := (doe - doe / 1460 + doe / 36524 - doe / 146096) / 365.
Definition yearBase (yoe : Z) : Z := 365 * yoe + yoe / 4 - yoe / 100.

Lemma yearOfEra_range doe : 0 <= doe < 146097 → 0 <= yearOfEra doe <= 399.
Proof. unfold yearOfEra. intros. Z.to_euclidean_division_equations. lia. Qed.

Lemma dayOfYear_range doe : 0 <= doe < 146097 → 0 <= doe - yearBase (yearOfEra doe) <= 365.
Proof.
  intros H. pose proof (yearOfEra_range doe H) as Hy. revert Hy. unfold yearBase, yearOfEra.
  intros. split; Z.to_euclidean_division_equations; lia.
Qed.

Lemma yearBase_nonneg y : 0 <= y <= 399 → 0 <= yearBase y.
Proof. unfold yearBase. intros. Z.to_euclidean_division_equations. lia. Qed.

Lemma yearOfEra_mono doe doe' : 0 <= doe' <= doe → doe < 146097 → yearOfEra doe' <= yearOfEra doe.
Proof. unfold yearOfEra. intros. Z.to_euclidean_division_equations. lia. Qed.

Lemma yearOfEra_ge y doe : 0 <= y <= 399 → yearBase y <= doe < 146097 → y <= yearOfEra doe.
Proof. unfold yearOfEra, yearBase. intros. Z.to_euclidean_division_equations. lia. Qed.

(** Earlier days of the same year have the same year. *)
Lemma yearOfEra_same doe d :
  0 <= doe < 146097 → 0 <= d <= doe - yearBase (yearOfEra doe) →
  yearOfEra (yearBase (yearOfEra doe) + d) = yearOfEra doe.
Proof.
  intros H Hd. pose proof (yearOfEra_range doe H) as Hy. pose proof (yearBase_nonneg _ Hy).
  pose proof (yearOfEra_mono doe (yearBase (yearOfEra doe) + d) ltac:(lia) ltac:(lia)).
  pose proof (yearOfEra_ge _ (yearBase (yearOfEra doe) + d) Hy ltac:(lia)). lia.
Qed.

(** The month of the year, counted from March, and its first day. *)
Definition monthOfDay (doy : Z) : Z := (5 * doy + 2) / 153.
Definition monthBase (mp : Z) : Z := (153 * mp + 2) / 5.

Lemma monthOfDay_facts doy : 0 <= doy <= 365 →
  0 <= monthOfDay doy <= 11 ∧ 0 <= monthBase (monthOfDay doy) <= doy ∧ doy - monthBase (monthOfDay doy) <= 30 ∧
  monthOfDay (monthBase (monthOfDay doy)) = monthOfDay doy.
Proof. unfold monthOfDay, monthBase. intros. split_and!; Z.to_euclidean_division_equations; lia. Qed.

(** The coordinates of a day. *)
Definition eraOf (days : Z) : Z := (days + 719468) / 146097.
Definition doeOf (days : Z) : Z := (days + 719468) mod 146097.
Definition doyOf (days : Z) : Z := doeOf days - yearBase (yearOfEra (doeOf days)).
Definition mpOf (days : Z) : Z := monthOfDay (doyOf days).
Definition yoeOf (days : Z) : Z := yearOfEra (doeOf days).

Lemma doeOf_range days : 0 <= doeOf days < 146097.
Proof. apply Z.mod_pos_bound. lia. Qed.

Lemma day_eq days : days = eraOf days * 146097 + yearBase (yoeOf days) + doyOf days - 719468.
Proof. unfold doyOf, yoeOf. pose proof (Z.div_mod (days + 719468) 146097 ltac:(lia)). unfold eraOf, doeOf. lia. Qed.

Lemma yearMonth_eq days :
  yearMonth days =
    let m := if mpOf days <? 10 then mpOf days + 3 else mpOf days - 9 in
    (yoeOf days + eraOf days * 400 + (if m <=? 2 then 1 else 0), m).
Proof. reflexivity. Qed.

Lemma coords_range days : 0 <= yoeOf days <= 399 ∧ 0 <= mpOf days <= 11.
Proof.
  split; [apply yearOfEra_range, doeOf_range|]. apply monthOfDay_facts, dayOfYear_range, doeOf_range.
Qed.

(** The first day of the month of a day. *)
Definition monthFirst (days : Z) : Z := days - (dayOfMonth days - 1).

Lemma monthFirst_eq days :
  monthFirst days = eraOf days * 146097 + yearBase (yoeOf days) + monthBase (mpOf days) - 719468.
Proof.
  unfold monthFirst. pose proof (day_eq days) as Hd.
  assert (dayOfMonth days = doyOf days - monthBase (mpOf days) + 1) as -> by reflexivity. lia.
Qed.

Lemma monthFirst_range days : monthFirst days <= days <= monthFirst days + 30.
Proof.
  rewrite monthFirst_eq. pose proof (day_eq days).
  destruct (monthOfDay_facts (doyOf days)) as (_ & ? & ? & _); [apply dayOfYear_range, doeOf_range|].
  fold (mpOf days) in *. lia.
Qed.

(** The first day of a month is in it. *)
Lemma monthFirst_coords days :
  eraOf (monthFirst days) = eraOf days ∧ yoeOf (monthFirst days) = yoeOf days ∧ mpOf (monthFirst days) = mpOf days.
Proof.
  pose proof (doeOf_range days) as Hdoe. pose proof (dayOfYear_range _ Hdoe) as Hdoy. fold (doyOf days) in Hdoy.
  destruct (monthOfDay_facts _ Hdoy) as (_ & Hmb & _ & Hm). fold (mpOf days) in *.
  set (doe' := yearBase (yoeOf days) + monthBase (mpOf days)).
  assert (0 <= yearBase (yoeOf days)) as Hb by apply yearBase_nonneg, coords_range.
  assert (0 <= doe' < 146097) as Hr by (subst doe'; unfold doyOf, yoeOf in *; lia).
  assert (monthFirst days + 719468 = 146097 * eraOf days + doe') as Hz by (rewrite monthFirst_eq; subst doe'; lia).
  assert (eraOf (monthFirst days) = eraOf days ∧ doeOf (monthFirst days) = doe') as [He Hdoe'].
  { unfold eraOf at 1, doeOf. rewrite Hz. split.
    - symmetry. by apply (Z.div_unique_pos _ _ _ doe').
    - symmetry. by apply (Z.mod_unique_pos _ _ (eraOf days)). }
  assert (yoeOf (monthFirst days) = yoeOf days) as Hy.
  { unfold yoeOf at 1. rewrite Hdoe'. subst doe'. unfold yoeOf. apply yearOfEra_same; [done|]. unfold doyOf, yoeOf in *. lia. }
  split_and!; [done|done|]. unfold mpOf at 1, doyOf. fold (yoeOf (monthFirst days)). rewrite Hy, Hdoe'. subst doe'.
  replace (yearBase (yoeOf days) + monthBase (mpOf days) - yearBase (yoeOf days)) with (monthBase (mpOf days)) by lia. exact Hm.
Qed.

(** Days have the same year and month exactly when their months start on the same day. *)
Lemma yearMonth_monthFirst a b : yearMonth a = yearMonth b ↔ monthFirst a = monthFirst b.
Proof.
  split.
  - intros H. rewrite !yearMonth_eq in H. destruct (coords_range a), (coords_range b). rewrite !monthFirst_eq.
    cbn zeta in H. injection H as Hy Hm.
    assert (mpOf a = mpOf b) as Hmp by (destruct (Z.ltb_spec (mpOf a) 10), (Z.ltb_spec (mpOf b) 10); lia).
    rewrite Hmp in *. assert (yoeOf a + eraOf a * 400 = yoeOf b + eraOf b * 400) as Hyy by lia.
    assert (eraOf a = eraOf b) by lia. assert (yoeOf a = yoeOf b) by lia. congruence.
  - intros H. destruct (monthFirst_coords a) as (Ha1 & Ha2 & Ha3), (monthFirst_coords b) as (Hb1 & Hb2 & Hb3).
    rewrite !yearMonth_eq, <-Ha1, <-Ha2, <-Ha3, H, Hb1, Hb2, Hb3. done.
Qed.

(** *** The text of a month *)

Lemma digit_char d : (d < 10)%N →
  is_digit_char (pretty_N_char d) = true ∧ Z.of_nat (Ascii.nat_of_ascii (pretty_N_char d)) - 48 = Z.of_N d ∧ pretty_N_char d ≠ "-"%char.
Proof.
  intros Hd. assert (d = 0 ∨ d = 1 ∨ d = 2 ∨ d = 3 ∨ d = 4 ∨ d = 5 ∨ d = 6 ∨ d = 7 ∨ d = 8 ∨ d = 9)%N as Hin by lia.
  repeat (destruct Hin as [->|Hin]; [split_and!; [reflexivity|reflexivity|discriminate]|]).
  subst d. split_and!; [reflexivity|reflexivity|discriminate].
Qed.

(** The decimal digits of a number read back as the number. *)
Lemma leadingDigits_go x s acc :
  (0 < x)%N → default 0 acc = 0 → leadingDigits acc (pretty_N_go x s) = leadingDigits (Some (Z.of_N x)) s.
Proof.
  revert s. induction (N.lt_wf_0 x) as [x _ IH]. intros s Hx Hacc. rewrite pretty_N_go_step by done.
  destruct (digit_char (x mod 10)%N) as (Hd & Hv & _); [by apply N.mod_lt|].
  pose proof (N.div_mod x 10 ltac:(done)) as Hdm.
  destruct (decide (x / 10 = 0)%N) as [H0|H0].
  - rewrite H0, pretty_N_go_0. cbn [leadingDigits]. rewrite Hd, Hv, Hacc. do 2 f_equal. lia.
  - rewrite IH; [|by apply N.div_lt|by apply N.neq_0_lt_0|done]. cbn [leadingDigits]. rewrite Hd, Hv. change (default 0 (Some (Z.of_N (x `div` 10)))) with (Z.of_N (x `div` 10)). do 2 f_equal. lia.
Qed.

Lemma go_dash_free x s :
  all_chars (fun c => negb (bool_decide (c = "-"%char))) s = true →
  all_chars (fun c => negb (bool_decide (c = "-"%char))) (pretty_N_go x s) = true.
Proof.
  revert s. induction (N.lt_wf_0 x) as [x _ IH]. intros s Hs. destruct (decide (x = 0)%N) as [->|Hx]; [done|].
  rewrite pretty_N_go_step by lia. apply IH; [apply N.div_lt; lia|]. unfold all_chars in *.
  cbn [String.list_ascii_of_string forallb]. rewrite Hs, andb_true_r.
  destruct (digit_char (x mod 10)%N) as (_ & _ & Hne); [by apply N.mod_lt|]. by rewrite bool_decide_eq_false_2.
Qed.

Lemma padded_decode width z : 0 <= z →
  leadingDigits None (padded width z) = (Some z, "") ∧
  all_chars (fun c => negb (bool_decide (c = "-"%char))) (padded width z) = true.
Proof.
  intros Hz. unfold padded. set (n := (width - String.length (pretty z))%nat). clearbody n.
  assert (∀ acc, default 0 acc = 0 → leadingDigits acc (pretty z) = (Some z, "")) as Hd.
  { intros acc Hacc. destruct z as [|p|p]; [cbn; by rewrite Hacc| |lia]. change (pretty (Z.pos p)) with (pretty (N.pos p)).
    unfold pretty, pretty_N. rewrite decide_False by done. by rewrite leadingDigits_go. }
  assert (all_chars (fun c => negb (bool_decide (c = "-"%char))) (pretty z) = true) as Hf.
  { destruct z as [|p|p]; [done| |lia]. change (pretty (Z.pos p)) with (pretty (N.pos p)).
    unfold pretty, pretty_N. rewrite decide_False by done. by apply go_dash_free. }
  assert (∀ acc, default 0 acc = 0 → leadingDigits acc (zeros n +:+ pretty z) = (Some z, "") ∧
            all_chars (fun c => negb (bool_decide (c = "-"%char))) (zeros n +:+ pretty z) = true) as H; [|by apply H].
  induction n as [|n IH]; intros acc Hacc; [by split; [apply Hd|]|].
  change (zeros (S n) +:+ pretty z) with (String "0" (zeros n +:+ pretty z)). destruct (IH (Some 0) eq_refl) as [IH1 IH2].
  split; [|exact IH2]. cbn [leadingDigits]. change (is_digit_char "0"%char) with true. cbn iota. rewrite Hacc. exact IH1.
Qed.

Lemma monthText_inj y m y' m' :
  0 <= y <= 9999 → 0 <= m <= 12 → 0 <= y' <= 9999 → 0 <= m' <= 12 →
  padded 4 y +:+ "-" +:+ padded 2 m = padded 4 y' +:+ "-" +:+ padded 2 m' → y = y' ∧ m = m'.
Proof.
  intros Hy Hm Hy' Hm' H. apply (f_equal (split_on "-"%char)) in H.
  change ("-" +:+ padded 2 m) with (String "-"%char (padded 2 m)) in H.
  change ("-" +:+ padded 2 m') with (String "-"%char (padded 2 m')) in H. rewrite !split_on_app in H.
  destruct (padded_decode 4 y ltac:(lia)) as [L1 S1%split_on_free], (padded_decode 4 y' ltac:(lia)) as [L2 S2%split_on_free],
    (padded_decode 2 m ltac:(lia)) as [L3 S3%split_on_free], (padded_decode 2 m' ltac:(lia)) as [L4 S4%split_on_free].
  rewrite S1, S2, S3, S4 in H. injection H as H1 H2. rewrite H1 in L1. rewrite H2 in L3. split; congruence.
Qed.

End Month.

(** The last instant of the year 9999, in milliseconds. *)
Definition YEAR_9999_END : Z := 253402300799999.

Lemma yearMonth_range days : 0 <= days <= 2932896 →
  0 <= (yearMonth days).1 <= 9999 ∧ 0 <= (yearMonth days).2 <= 12.
Proof.
  intros Hd. rewrite yearMonth_eq. cbn [fst snd]. destruct (coords_range days) as [Hy Hm].
  pose proof (day_eq days) as Heq. pose proof (dayOfYear_range (doeOf days) (doeOf_range days)) as Hdoy. fold (doyOf days) (yoeOf days) in Hdoy.
  destruct (monthOfDay_facts (doyOf days) Hdoy) as (_ & Hmb & _). fold (mpOf days) in Hmb.
  assert (0 <= eraOf days <= 24) as He by (unfold eraOf; Z.to_euclidean_division_equations; lia).
  assert ((mpOf days <? 10) = false → 306 <= doyOf days) as Hjan.
  { intros H%Z.ltb_ge. unfold monthBase in Hmb. revert Hmb. Z.to_euclidean_division_equations. lia. }
  unfold yearBase in Heq. split.
  - destruct (Z.ltb_spec (mpOf days) 10); [destruct (Z.leb_spec (mpOf days + 3) 2); lia|].
    specialize (Hjan eq_refl). destruct (Z.leb_spec (mpOf days - 9) 2); revert Heq; Z.to_euclidean_division_equations; lia.
  - destruct (mpOf days <? 10) eqn:E; bool_hyps; lia.
Qed.

(** Consent and disclosure agree on the age of a badge. Up to the year 9999, two
    issuance instants disclose the same month exactly when consent uses the same start of the
    month for them, so a relying party that maps the disclosed month to its start decides as
    consent did; that start is never later than the issuance and less than 31 days earlier, so
    a stale badge never passes as fresh. *)
Theorem month_bucket_agrees a b :
  0 <= a <= YEAR_9999_END → 0 <= b <= YEAR_9999_END →
  (issuanceMonthOf (a / 1000) = issuanceMonthOf (b / 1000) ↔ issuanceMonthStartSeconds a = issuanceMonthStartSeconds b) ∧
  issuanceMonthStartSeconds a <= a / 1000 < issuanceMonthStartSeconds a + 31 * 86400.
Proof.
  intros Ha Hb. unfold YEAR_9999_END in *.
  assert (∀ c, 0 <= c <= 253402300799999 → issuanceMonthOf (c / 1000) =
    Ok (padded 4 (yearMonth (c / 86400000)).1 +:+ "-" +:+ padded 2 (yearMonth (c / 86400000)).2)) as Hok.
  { intros c Hc. unfold issuanceMonthOf, MAX_TIME. pose proof (Z.div_mod c 1000 ltac:(lia)). pose proof (Z.mod_pos_bound c 1000 ltac:(lia)).
    destruct (Z.ltb_spec 8640000000000000 (Z.abs (c / 1000 * 1000))); [lia|].
    rewrite Z.div_div by lia. change (1000 * 86400) with 86400000. unfold isoMonth.
    destruct (yearMonth_range (c / 86400000)) as [Hy _]; [Z.to_euclidean_division_equations; lia|].
    destruct (yearMonth (c / 86400000)) as [y m]. cbn [fst snd] in *.
    destruct (Z.leb_spec 0 y), (Z.leb_spec y 9999); try lia. done. }
  assert (∀ c, issuanceMonthStartSeconds c = monthFirst (c / 86400000) * 86400) as Hst by reflexivity.
  assert (0 <= a / 86400000 <= 2932896 ∧ 0 <= b / 86400000 <= 2932896) as [Ra Rb] by (split; Z.to_euclidean_division_equations; lia).
  split.
  - rewrite !Hok, !Hst by done. transitivity (yearMonth (a / 86400000) = yearMonth (b / 86400000)).
    + destruct (yearMonth_range _ Ra) as [Ya Ma], (yearMonth_range _ Rb) as [Yb Mb].
      destruct (yearMonth (a / 86400000)) as [y m], (yearMonth (b / 86400000)) as [y' m']. cbn [fst snd] in *.
      split; [|by intros [= -> ->]]. intros [= H]. destruct (monthText_inj y m y' m') as [-> ->]; done.
    + rewrite yearMonth_monthFirst. lia.
  - rewrite Hst. pose proof (monthFirst_range (a / 86400000)).
    assert (a / 1000 / 86400 = a / 86400000) as Hdd by (by rewrite Z.div_div by lia).
    pose proof (Z.div_mod (a / 1000) 86400 ltac:(lia)). pose proof (Z.mod_pos_bound (a / 1000) 86400 ltac:(lia)). lia.
Qed.

(** ** Witnesses *)
Module DisclosureDemo.

(** A membership issued with the role member, while the row says admin. *)
Definition stored : JObject :=
  match issuePayload VcDemo.w 1752400000000 "group-membership" (buildUserDid "minister.example" "u")
          [("group", JStr "acme"); ("role", JStr "member"); ("groupId", JStr "g")] (badgeOptions "b") with
  | Ok p => p
  | Err _ => []
  end.

Definition vw : VcWorld :=
  {| vw_domain := "minister.example"; vw_did := "did:web:minister.example"; vw_kid := "k"; vw_base64url := id;
     vw_sign := fun _ => Some "sig"; vw_verify := fun _ => Some (Some "vc+jwt", Some (JObj stored)) |}.

Definition row : BadgeRow :=
  {| br_id := "b"; br_userId := "u"; br_type := "group-membership";
     br_attributes := Some {[ "groupId" := RString "g" ]}; br_issuedAt := 1752400000000; br_expiresAt := None;
     br_issuer := "did:web:minister.example"; br_vcJwt := "vc"; br_nullifierRef := None; br_statusAnchor := Some "gm:1" |}.

Definition db : OidcDB :=
  {| od_clients := ∅; od_users := ∅; od_badges := [row]; od_codes := ∅; od_tokens := ∅; od_grants := ∅; od_overrides := ∅;
     od_subjects := ∅; od_memberships := {[ ("g", "u") := "admin" ]}; od_epochs := ∅;
     od_status := {| db_lists := ∅; db_entries := ∅; db_tombstones := ∅; db_audit := [] |}; od_audit := [] |}.

End DisclosureDemo.

Lemma group_disclosure_is_live_witness :
  ∃ jwt claims, (run_solo (discloseBadge (issuing DisclosureDemo.vw (fun _ => true) "https://m" demo_world) 1752500000000 "u" "rp" "p" None
      DisclosureDemo.row) DisclosureDemo.db).1 = Some jwt ∧ jget "role" claims = Some (JStr "admin").
Proof.
  destruct (run_solo (discloseBadge (issuing DisclosureDemo.vw (fun _ => true) "https://m" demo_world) 1752500000000 "u" "rp" "p" None
      DisclosureDemo.row) DisclosureDemo.db) as [[jwt|] db'] eqn:E; [|vm_compute in E; discriminate].
  destruct (group_disclosure_is_live DisclosureDemo.vw (fun _ => true) "https://m" demo_world 1752500000000 "u" "rp" "p" None
    DisclosureDemo.row DisclosureDemo.db (Some jwt) db' eq_refl E) as [(g & role & og & claims & month & expSec & options & Hg & Hm & Hr & _) _].
  exists jwt, claims. split; [reflexivity|]. vm_compute in Hg. injection Hg as <-. cbn in Hm.
  apply lookup_singleton_Some in Hm as [_ <-]. exact Hr.
Defined.

(** The 1st and the 31st of July 2025 disclose the same month. *)
Lemma month_bucket_agrees_witness :
  issuanceMonthOf (1751328000000 / 1000) = Ok "2025-07" ∧ issuanceMonthStartSeconds 1753999999000 = 1751328000 ∧
  (issuanceMonthOf (1753999999000 / 1000) = issuanceMonthOf (1751328000000 / 1000) ↔
   issuanceMonthStartSeconds 1753999999000 = issuanceMonthStartSeconds 1751328000000).
Proof.
  split; [vm_compute; reflexivity|]. split; [vm_compute; reflexivity|].
  apply (month_bucket_agrees 1753999999000 1751328000000); unfold YEAR_9999_END; lia.
Defined.
