(* ===== verification/Issuance.v ===== *)
(** * Issuance of badges (server/issue-badge.ts)

    A badge is inserted, signed and written back in one transaction, with the eligibilities
    it opens and an audit row; a failure of any step leaves nothing. The credential is the one
    of Vc.v, and a revocable badge is anchored on a fact the caller names or on itself. *)

From S2P Require Import Prelude Threads Matching Policy Selection RateLimit Registry Claims Vc Pairwise.
From S2P Require Import SybilScore Session SybilConfig OidcAuthorize Bitstring Interleave StatusList OidcFlow.

Open Scope Z_scope.
Open Scope minister_scope.

Record EligibilityToIssue := { ei_badgeType : string; ei_eligibleAt : Z; ei_fuzzDays : Z }.

Record BadgeToIssue := {
  bi_type : string;
  bi_attributes : JObject;
  bi_claims : JObject;
  bi_expiresAt : option Z;
  bi_eligibilities : list EligibilityToIssue;
}.

Record BadgeRecord := { bg_row : BadgeRow; bg_pluginId : option string; bg_dedupeKey : option string }.
Record Eligibility := { el_eligibleAt : Z; el_fuzzDays : Z; el_source : string }.

(** Badges, eligibilities by (userId, badgeType), and audit rows (user, action, detail). *)
Record BadgeTables := {
  bt_badges : list BadgeRecord;
  bt_eligibilities : gmap (string * string) Eligibility;
  bt_audit : list (option string * string * string);
}.

Definition addAudit (userId : option string) (action detail : string) (t : BadgeTables) : BadgeTables :=
  {| bt_badges := bt_badges t; bt_eligibilities := bt_eligibilities t; bt_audit := bt_audit t ++ [(userId, action, detail)] |}.

(** The columns an attribute value fills. *)
Definition toRowAttr (j : Json) : RowAttr :=
  match j with JStr s => RString s | JNum z => RNumber z | JBool b => RBoolean b | _ => ROther end.
Definition toAttributes (o : JObject) : gmap string RowAttr := list_to_map (prod_map id toRowAttr <$> o).

(** What issuance throws; [P2002] is a violated unique constraint. *)
Inductive IssueError := UnknownBadgeType | ClaimsRejected | P2002 | NoSuchUser | SigningFailed (e : string).

(** [eligibility.upsert], for each eligibility. *)
Definition upsertEligibility (userId source : string) (m : gmap (string * string) Eligibility) (e : EligibilityToIssue) :
    gmap (string * string) Eligibility :=
  <[(userId, ei_badgeType e) := {| el_eligibleAt := ei_eligibleAt e; el_fuzzDays := ei_fuzzDays e; el_source := source |}]> m.

Section Issue.
(** The issuer, the library's e-mail test, the clock, the users that exist, and the drawn id. *)
Context (w : VcWorld) (isEmail : string → bool) (now : Z) (hasUser : string → bool) (id : string).

Definition badgeTaken (dedupeKey : option string) (t : BadgeTables) : bool :=
  existsb (fun r => bool_decide (br_id (bg_row r) = id) || (bool_decide (dedupeKey ≠ None) && bool_decide (bg_dedupeKey r = dedupeKey)))
    (bt_badges t).

Definition issueBadge (userId : string) (pluginId : option string) (badge : BadgeToIssue) (dedupeKey nullifierRef statusAnchor : option string)
    (t : BadgeTables) : result IssueError string * BadgeTables :=
  match getBadgeType (bi_type badge), schemaOf isEmail (bi_type badge) with
  | Some meta, Some schema =>
      match parse schema (bi_claims badge) with
      | None => (Err ClaimsRejected, t)
      | Some claims =>
          let subjectDid := buildUserDid (vw_domain w) userId in
          let explicitAnchor := if bt_revocable meta then statusAnchor else None in
          if badgeTaken dedupeKey t then (Err P2002, t)
          else if negb (hasUser userId) then (Err NoSuchUser, t)
          else
            let anchor := if bt_revocable meta then Some (explicitAnchor ?? genericBadgeAnchor id) else None in
            match issueVc w now (bi_type badge) subjectDid claims (badgeOptions id) with
            | Err e => (Err (SigningFailed e), t)
            | Ok vcJwt =>
                let row := {| br_id := id; br_userId := userId; br_type := bi_type badge;
                              br_attributes := Some (toAttributes (bi_attributes badge)); br_issuedAt := now;
                              br_expiresAt := bi_expiresAt badge; br_issuer := vw_did w; br_vcJwt := vcJwt;
                              br_nullifierRef := nullifierRef; br_statusAnchor := anchor |} in
                (Ok id,
                 {| bt_badges := bt_badges t ++ [{| bg_row := row; bg_pluginId := pluginId; bg_dedupeKey := dedupeKey |}];
                    bt_eligibilities := foldl (upsertEligibility userId (pluginId ?? bi_type badge)) (bt_eligibilities t) (bi_eligibilities badge);
                    bt_audit := bt_audit t ++ [(Some userId, "badge.issued", id)] |})
            end
      end
  | _, _ => (Err UnknownBadgeType, t)
  end.

End Issue.

(** ** Lemmas *)

(** The row a successful issuance appends. *)
Lemma issueBadge_ok w isEmail now hasUser id userId pluginId badge dedupeKey nullifierRef statusAnchor t id' t' :
  issueBadge w isEmail now hasUser id userId pluginId badge dedupeKey nullifierRef statusAnchor t = (Ok id', t') →
  id' = id ∧ ∃ meta schema claims vcJwt row,
    getBadgeType (bi_type badge) = Some meta ∧ schemaOf isEmail (bi_type badge) = Some schema ∧
    parse schema (bi_claims badge) = Some claims ∧
    issueVc w now (bi_type badge) (buildUserDid (vw_domain w) userId) claims (badgeOptions id) = Ok vcJwt ∧
    bt_badges t' = bt_badges t ++ [{| bg_row := row; bg_pluginId := pluginId; bg_dedupeKey := dedupeKey |}] ∧
    br_id row = id ∧ br_userId row = userId ∧ br_type row = bi_type badge ∧ br_vcJwt row = vcJwt ∧ br_issuer row = vw_did w ∧
    br_attributes row = Some (toAttributes (bi_attributes badge)) ∧ br_nullifierRef row = nullifierRef ∧
    br_statusAnchor row = (if bt_revocable meta then Some (statusAnchor ?? genericBadgeAnchor id) else None) ∧
    (id ∉ ((fun r => br_id (bg_row r)) <$> bt_badges t)) ∧
    bt_audit t' = bt_audit t ++ [(Some userId, "badge.issued", id)].
Proof.
  unfold issueBadge. destruct (getBadgeType (bi_type badge)) as [meta|]; [|done].
  destruct (schemaOf isEmail (bi_type badge)) as [schema|]; [|done].
  destruct (parse schema (bi_claims badge)) as [claims|] eqn:Ep; [|done].
  destruct (badgeTaken id dedupeKey t) eqn:Et; [done|]. destruct (negb (hasUser userId)); [done|].
  destruct (issueVc _ _ _ _ _ _) as [vcJwt|e] eqn:Ev; [|done]. intros [= <- <-]. split; [done|].
  do 5 eexists. split_and!; try done; try reflexivity; [by destruct (bt_revocable meta)|].
  intros (r & Hr & Hin)%list_elem_of_fmap. eapply not_true_iff_false; [exact Et|]. apply existsb_exists. exists r.
  split; [by apply list_elem_of_In|]. rewrite bool_decide_eq_true_2 by done. done.
Qed.

Lemma issueBadge_err w isEmail now hasUser id userId pluginId badge dedupeKey nullifierRef statusAnchor t e t' :
  issueBadge w isEmail now hasUser id userId pluginId badge dedupeKey nullifierRef statusAnchor t = (Err e, t') → t' = t.
Proof.
  unfold issueBadge. intros H. repeat (case_match; simplify_eq; try done).
Qed.
