(* ===== verification/Plugins.v ===== *)
(** * Wizard states of the badge plugins (packages/plugin-sdk/src/index.ts, server/wizard-helpers.ts)

    A plugin leads a user through steps of five kinds. Three kinds carry a secret the user has
    to bring back from somewhere else (a mailbox, another site, the extension); the runtime
    keeps it, and gives the browser a copy of the state without it. *)

From S2P Require Import Prelude Threads Matching Policy Selection RateLimit Registry Claims Vc Pairwise.
From S2P Require Import SybilScore Session SybilConfig OidcAuthorize Bitstring Interleave StatusList OidcFlow Issuance.

Open Scope Z_scope.

(** ** Steps *)

Record FormFieldDef := {
  ff_name : string;
  ff_label : string;
  ff_type : string;
  ff_placeholder : option string;
  ff_helpText : option string;
  ff_required : option bool;
  ff_options : option (list (string * string));
}.

Record FormStepPayload := {
  fp_title : string; fp_description : option string; fp_fields : list FormFieldDef; fp_submitLabel : option string
}.
Record RedirectStepPayload := { rp_url : string; rp_description : option string; rp_expectedState : option string }.
Record ExtensionActionStepPayload := {
  xp_action : string; xp_params : JObject; xp_description : option string; xp_expectedSubmissionToken : option string
}.
Record MagicLinkStepPayload := { mp_sentTo : string; mp_description : option string; mp_expectedToken : option string }.
Record InfoStepPayload := { ip_title : string; ip_body : string; ip_continueLabel : option string }.

Inductive StepPayload :=
  | PForm (p : FormStepPayload)
  | PRedirect (p : RedirectStepPayload)
  | PExtensionAction (p : ExtensionActionStepPayload)
  | PMagicLink (p : MagicLinkStepPayload)
  | PInfo (p : InfoStepPayload).

Record WizardStep := { st_id : string; st_payload : StepPayload }.

Record WizardState := { wz_pluginId : string; wz_userId : string; wz_currentStep : WizardStep; wz_data : JObject }.

(** ** What a plugin answers *)

Record IssuedBadge := { is_badge : BadgeToIssue; is_sybilAnchor : option string; is_revealsAnchor : bool }.

Inductive HandleStepResult :=
  | HContinue (state : WizardState)
  | HComplete (badges : list IssuedBadge)
  | HError (message : string).

(** ** The pending token, and the copy for the browser *)

Definition pendingTokenFor (state : WizardState) : option string :=
  match st_payload (wz_currentStep state) with
  | PMagicLink p => mp_expectedToken p
  | PRedirect p => rp_expectedState p
  | PExtensionAction p => xp_expectedSubmissionToken p
  | PForm _ | PInfo _ => None
  end.

Definition stripStepSecrets (step : WizardStep) : WizardStep :=
  {| st_id := st_id step;
     st_payload :=
       match st_payload step with
       | PMagicLink p => PMagicLink {| mp_sentTo := mp_sentTo p; mp_description := mp_description p; mp_expectedToken := None |}
       | PRedirect p => PRedirect {| rp_url := rp_url p; rp_description := rp_description p; rp_expectedState := None |}
       | PExtensionAction p =>
           PExtensionAction {| xp_action := xp_action p; xp_params := xp_params p; xp_description := xp_description p;
                               xp_expectedSubmissionToken := None |}
       | p => p
       end |}.

Definition toClientState (state : WizardState) : WizardState :=
  {| wz_pluginId := wz_pluginId state; wz_userId := wz_userId state; wz_currentStep := stripStepSecrets (wz_currentStep state);
     wz_data := [] |}.

(** The state with another secret and other server-side data. *)
Definition withSecret (token : option string) (data : JObject) (state : WizardState) : WizardState :=
  {| wz_pluginId := wz_pluginId state; wz_userId := wz_userId state;
     wz_currentStep :=
       {| st_id := st_id (wz_currentStep state);
          st_payload :=
            match st_payload (wz_currentStep state) with
            | PMagicLink p => PMagicLink {| mp_sentTo := mp_sentTo p; mp_description := mp_description p; mp_expectedToken := token |}
            | PRedirect p => PRedirect {| rp_url := rp_url p; rp_description := rp_description p; rp_expectedState := token |}
            | PExtensionAction p =>
                PExtensionAction {| xp_action := xp_action p; xp_params := xp_params p; xp_description := xp_description p;
                                    xp_expectedSubmissionToken := token |}
            | p => p
            end |};
     wz_data := data |}.

(** The browser's copy is a function of what is not secret. *)
Lemma client_state_hides token data state : toClientState (withSecret token data state) = toClientState state.
Proof. destruct state as [pid uid [sid p] d]. unfold toClientState, withSecret, stripStepSecrets. cbn. by destruct p. Qed.

Lemma client_state_no_token state : pendingTokenFor (toClientState state) = None.
Proof. unfold toClientState, pendingTokenFor, stripStepSecrets. cbn. by destruct (st_payload (wz_currentStep state)). Qed.

Lemma toClientState_idemp state : toClientState (toClientState state) = toClientState state.
Proof. unfold toClientState, stripStepSecrets. cbn. by destruct (st_payload (wz_currentStep state)). Qed.
