(* ===== verification/Ledger.v ===== *)
(** * The dedup ledger (lib/nullifier/index.ts, lib/nullifier/interim.ts, lib/nullifier/drift-cache.ts)

    One credential backs one account: before a badge with an anchor is issued, the image of its
    anchor is registered under an opaque handle of the user, and refused when another handle
    holds it. The entry is released when the last badge that refers to it is gone. Two backends
    implement one interface: the interim one keeps the ledger in Minister's database, the other
    (Signet.v) in a remote service. This file holds the database the handlers share, the
    interface, the interim backend and the check of disclosed values against drift. *)

From S2P Require Import Prelude Threads Matching Policy Selection RateLimit Registry Claims Vc Pairwise Nullifier.
From S2P Require Import SybilScore Session SybilConfig OidcAuthorize Bitstring Interleave StatusList OidcFlow Issuance Plugins.

Open Scope Z_scope.
Open Scope minister_scope.

(** ** Tables *)

Record NullifierEntry := { ne_value : list Z; ne_ownerHandle : string; ne_badgeType : string }.

(** A session of the badge wizard; its state is [None] once scrubbed. *)
Record WizardSession := {
  ws_userId : string;
  ws_pluginId : string;
  ws_state : option (WizardStep * JObject);
  ws_pendingToken : option string;
  ws_completedAt : option Z;
  ws_expiresAt : Z;
}.

(** [ld_handles] is the dedupHandle column of the users, [ld_entries] the ledger by entry id,
    [ld_locks] the advisory locks held, [ld_born] the ids of badges, entries and sessions drawn
    so far, [ld_checks] the drift baselines by (entry, client) as salt and digest, [ld_calls]
    the calls made to the remote service, [ld_enrollments] the (seedGeneratedAt,
    backupConfirmedAt) of the anonymous seed. *)
Record LedgerDB := {
  ld_users : gmap string UserFlags;
  ld_handles : gmap string string;
  ld_tables : BadgeTables;
  ld_entries : gmap string NullifierEntry;
  ld_locks : gset string;
  ld_born : gset string;
  ld_checks : gmap (string * string) (list Z * list Z);
  ld_calls : nat;
  ld_pinVerified : bool;
  ld_sessions : gmap string WizardSession;
  ld_enrollments : gmap string (option Z * option Z);
}.

Definition set_handles (x : gmap string string) (db : LedgerDB) : LedgerDB :=
  {| ld_users := ld_users db; ld_handles := x; ld_tables := ld_tables db; ld_entries := ld_entries db; ld_locks :=
     ld_locks db; ld_born := ld_born db; ld_checks := ld_checks db; ld_calls := ld_calls db; ld_pinVerified :=
     ld_pinVerified db; ld_sessions := ld_sessions db; ld_enrollments := ld_enrollments db |}.
Definition set_tables (x : BadgeTables) (db : LedgerDB) : LedgerDB :=
  {| ld_users := ld_users db; ld_handles := ld_handles db; ld_tables := x; ld_entries := ld_entries db; ld_locks :=
     ld_locks db; ld_born := ld_born db; ld_checks := ld_checks db; ld_calls := ld_calls db; ld_pinVerified :=
     ld_pinVerified db; ld_sessions := ld_sessions db; ld_enrollments := ld_enrollments db |}.
Definition set_entries (x : gmap string NullifierEntry) (db : LedgerDB) : LedgerDB :=
  {| ld_users := ld_users db; ld_handles := ld_handles db; ld_tables := ld_tables db; ld_entries := x; ld_locks :=
     ld_locks db; ld_born := ld_born db; ld_checks := ld_checks db; ld_calls := ld_calls db; ld_pinVerified :=
     ld_pinVerified db; ld_sessions := ld_sessions db; ld_enrollments := ld_enrollments db |}.
Definition set_locks (x : gset string) (db : LedgerDB) : LedgerDB :=
  {| ld_users := ld_users db; ld_handles := ld_handles db; ld_tables := ld_tables db; ld_entries := ld_entries db;
     ld_locks := x; ld_born := ld_born db; ld_checks := ld_checks db; ld_calls := ld_calls db; ld_pinVerified :=
     ld_pinVerified db; ld_sessions := ld_sessions db; ld_enrollments := ld_enrollments db |}.
Definition set_born (x : gset string) (db : LedgerDB) : LedgerDB :=
  {| ld_users := ld_users db; ld_handles := ld_handles db; ld_tables := ld_tables db; ld_entries := ld_entries db;
     ld_locks := ld_locks db; ld_born := x; ld_checks := ld_checks db; ld_calls := ld_calls db; ld_pinVerified :=
     ld_pinVerified db; ld_sessions := ld_sessions db; ld_enrollments := ld_enrollments db |}.
Definition set_checks (x : gmap (string * string) (list Z * list Z)) (db : LedgerDB) : LedgerDB :=
  {| ld_users := ld_users db; ld_handles := ld_handles db; ld_tables := ld_tables db; ld_entries := ld_entries db;
     ld_locks := ld_locks db; ld_born := ld_born db; ld_checks := x; ld_calls := ld_calls db; ld_pinVerified :=
     ld_pinVerified db; ld_sessions := ld_sessions db; ld_enrollments := ld_enrollments db |}.
Definition set_calls (x : nat) (db : LedgerDB) : LedgerDB :=
  {| ld_users := ld_users db; ld_handles := ld_handles db; ld_tables := ld_tables db; ld_entries := ld_entries db;
     ld_locks := ld_locks db; ld_born := ld_born db; ld_checks := ld_checks db; ld_calls := x; ld_pinVerified :=
     ld_pinVerified db; ld_sessions := ld_sessions db; ld_enrollments := ld_enrollments db |}.
Definition set_pinVerified (x : bool) (db : LedgerDB) : LedgerDB :=
  {| ld_users := ld_users db; ld_handles := ld_handles db; ld_tables := ld_tables db; ld_entries := ld_entries db;
     ld_locks := ld_locks db; ld_born := ld_born db; ld_checks := ld_checks db; ld_calls := ld_calls db;
     ld_pinVerified := x; ld_sessions := ld_sessions db; ld_enrollments := ld_enrollments db |}.
Definition set_sessions (x : gmap string WizardSession) (db : LedgerDB) : LedgerDB :=
  {| ld_users := ld_users db; ld_handles := ld_handles db; ld_tables := ld_tables db; ld_entries := ld_entries db;
     ld_locks := ld_locks db; ld_born := ld_born db; ld_checks := ld_checks db; ld_calls := ld_calls db;
     ld_pinVerified := ld_pinVerified db; ld_sessions := x; ld_enrollments := ld_enrollments db |}.

Definition auditLedger (userId : option string) (action detail : string) (db : LedgerDB) : LedgerDB :=
  set_tables (addAudit userId action detail (ld_tables db)) db.

(** What the code throws: a message, a database error code, a credential that is linked
    elsewhere, or an enrollment whose backup is pending. *)
Inductive Thrown := TMsg (msg : string) | TCode (code : string) | TTaken (msg : string) | TBackup.

#[export] Instance Thrown_eq_dec : EqDecision Thrown.
Proof. solve_decision. Defined.

(** A handler that may throw. *)
Abbreviation effect A := (thread LedgerDB (result Thrown A)).

(** A pure step that throws a message. *)
Definition throwing {A} (r : result string A) : effect A := mret (match r with Ok a => Ok a | Err e => Err (TMsg e) end).

(** ** The interface *)

Inductive RegisterDedupResult := Registered (entryRef : string) | AlreadyYours (entryRef : string) | Taken.

(** The operations of a backend; [draw] is the id a new entry gets, and [serializeMintWindow]
    hands its body the check that the window still holds. *)
Record NullifierService := {
  registerDedup : string → string → string → string → effect RegisterDedupResult;
  disclose : string → string → string → effect string;
  entryExistsForOwner : string → string → effect bool;
  release : string → string → effect unit;
  reassignOwner : list string → string → string → effect Z;
  serializeMintWindow : ∀ {A}, string → (effect unit → effect A) → effect A;
}.

(** ** The interim backend *)

Definition entryOf (value : list Z) (db : LedgerDB) : option (string * NullifierEntry) :=
  list_find (fun e => ne_value e.2 = value) (map_to_list (ld_entries db)) ≫= fun x => Some x.2.

(** [nullifierEntry.create]: [None] is a violated unique constraint. *)
Definition createLedgerEntry (draw : string) (value : list Z) (ownerHandle badgeType : string) (db : LedgerDB) :
    option string * LedgerDB :=
  if bool_decide (draw ∈ ld_born db) || bool_decide (entryOf value db ≠ None) then (None, db)
  else (Some draw,
        set_born ({[draw]} ∪ ld_born db)
          (set_entries (<[draw := {| ne_value := value; ne_ownerHandle := ownerHandle; ne_badgeType := badgeType |}]> (ld_entries db)) db)).

Definition referenced (entryRef : string) (db : LedgerDB) : bool :=
  existsb (fun b => bool_decide (br_nullifierRef (bg_row b) = Some entryRef)) (bt_badges (ld_tables db)).

(** The conditional delete, one statement. *)
Definition deleteEntry (entryRef ownerHandle : string) (db : LedgerDB) : LedgerDB :=
  match ld_entries db !! entryRef with
  | Some e =>
      if bool_decide (ne_ownerHandle e = ownerHandle) && negb (referenced entryRef db)
      then set_entries (delete entryRef (ld_entries db)) db else db
  | None => db
  end.

(** The entries of a list that one owner holds, moved to another; repeated ids count once. *)
Definition reassignEntries (entryRefs : list string) (from to : string) (m : gmap string NullifierEntry) : nat * gmap string NullifierEntry :=
  let moves k (e : NullifierEntry) := bool_decide (k ∈ entryRefs) && bool_decide (ne_ownerHandle e = from) in
  (length (filter (fun '(k, e) => moves k e = true) (map_to_list m)),
   map_imap (fun k e => Some (if moves k e then {| ne_value := ne_value e; ne_ownerHandle := to; ne_badgeType := ne_badgeType e |} else e)) m).

Section Interim.
Context (w : MacWorld).

Definition interimRegister (draw anchor badgeType ownerHandle : string) : effect RegisterDedupResult :=
  value ←! throwing (deriveDedupValue w anchor badgeType);
  created ← act (createLedgerEntry draw value ownerHandle badgeType);
  match created with
  | Some id => mret (Ok (Registered id))
  | None =>
      existing ← read (entryOf value);
      mret (match existing with
            | None => Err (TMsg "nullifier: register raced a release; retry")
            | Some (id, e) => if bool_decide (ne_ownerHandle e = ownerHandle) then Ok (AlreadyYours id) else Ok Taken
            end)
  end.

Definition interimDisclose (entryRef ownerHandle clientId : string) : effect string :=
  entry ← read (fun db => ld_entries db !! entryRef);
  match entry with
  | None => mret (Err (TMsg ("nullifier: entry " +:+ entryRef +:+ " not found")))
  | Some e =>
      if negb (bool_decide (ne_ownerHandle e = ownerHandle))
      then mret (Err (TMsg ("nullifier: owner mismatch for entry " +:+ entryRef)))
      else throwing (deriveDisclosedNullifier w (ne_value e) clientId)
  end.

Definition interimBackend : NullifierService := {|
  registerDedup := interimRegister;
  disclose := interimDisclose;
  entryExistsForOwner entryRef ownerHandle :=
    entry ← read (fun db => ld_entries db !! entryRef);
    mret (Ok (match entry with Some e => bool_decide (ne_ownerHandle e = ownerHandle) | None => false end));
  release entryRef ownerHandle := _ ← write (deleteEntry entryRef ownerHandle); mret (Ok tt);
  reassignOwner entryRefs from to :=
    if bool_decide (entryRefs = []) || bool_decide (from = to) then mret (Ok 0)
    else
      count ← act (fun db => let '(n, m) := reassignEntries entryRefs from to (ld_entries db) in (n, set_entries m db));
      mret (Ok (Z.of_nat count));
  serializeMintWindow A entryRef fn := fn (mret (Ok tt));
|}.

End Interim.

(** ** Owner handles *)

(** [user.updateMany] where the handle is null: how many rows it claimed. *)
Definition claimHandle (userId candidate : string) (db : LedgerDB) : result Thrown nat * LedgerDB :=
  match ld_users db !! userId, ld_handles db !! userId with
  | Some _, None =>
      if existsb (fun '(_, h) => bool_decide (h = candidate)) (map_to_list (ld_handles db)) then (Err (TCode "P2002"), db)
      else (Ok 1%nat, set_handles (<[userId := candidate]> (ld_handles db)) db)
  | _, _ => (Ok 0%nat, db)
  end.

Definition ensureDedupHandle (userId candidate : string) : effect string :=
  existing ← read (fun db => present (ld_handles db !! userId));
  match existing with
  | Some handle => mret (Ok handle)
  | None =>
      claimed ←! act (claimHandle userId candidate);
      if bool_decide (claimed = 1%nat) then mret (Ok candidate)
      else
        after ← read (fun db => present (ld_handles db !! userId));
        mret (match after with
              | Some handle => Ok handle
              | None => Err (TMsg ("Failed to mint dedupHandle for user " +:+ userId))
              end)
  end.

(** ** After a commit *)

(** [attempts] tries; what is left after the last one is an audit row. *)
Fixpoint runPostCommit (op : effect unit) (context : string) (attempts : nat) : thread LedgerDB unit :=
  match attempts with
  | O => write (auditLedger None "nullifier.postcommit_failed" context)
  | S n => r ← op; match r with Ok _ => mret tt | Err _ => runPostCommit op context n end
  end.

Definition collectUserNullifierRefs (userId : string) (db : LedgerDB) : option string * list string :=
  (ld_handles db !! userId,
   omap (fun b => if bool_decide (br_userId (bg_row b) = userId) then br_nullifierRef (bg_row b) else None) (bt_badges (ld_tables db))).

(** ** Drift of disclosed values *)

(** [hash] is SHA-256; the salt is drawn per row. *)
Section Drift.
Context (hash : list Z → list Z).

Definition digest (salt : list Z) (nrp : string) : list Z := hash (salt ++ utf8 nrp).

Definition createCheck (entryRef clientId : string) (salt check : list Z) (db : LedgerDB) : bool * LedgerDB :=
  match ld_checks db !! (entryRef, clientId) with
  | Some _ => (false, db)
  | None => (true, set_checks (<[(entryRef, clientId) := (salt, check)]> (ld_checks db)) db)
  end.

(** [true] is the answer of a consistent value, [false] the drift error. *)
Definition assertNullifierDriftConsistent (salt : list Z) (entryRef clientId nrp : string) : thread LedgerDB bool :=
  existing ← read (fun db => ld_checks db !! (entryRef, clientId));
  match existing with
  | Some (salt0, check) => mret (bool_decide (check = digest salt0 nrp))
  | None =>
      created ← act (createCheck entryRef clientId salt (digest salt nrp));
      if (created : bool) then mret true
      else
        winner ← read (fun db => ld_checks db !! (entryRef, clientId));
        mret (match winner with Some (salt0, check) => bool_decide (check = digest salt0 nrp) | None => false end)
  end.

End Drift.
