(* ===== verification/Signet.v ===== *)
(** * The remote ledger (lib/nullifier/signet-backend.ts)

    The backend that keeps the ledger in Signet, a service outside the repository. What the
    service does with a request is a parameter, and so are the oblivious PRF, base64url and the
    network: a call may be answered, be lost before it is served, or be served and its answer
    lost. The backend checks every answer, works only under the pinned key, and takes an
    advisory lock per entry around the windows that must not overlap. *)

From S2P Require Import Prelude Threads Matching Policy Selection RateLimit Registry Claims Vc Pairwise Nullifier.
From S2P Require Import SybilScore Session SybilConfig OidcAuthorize Bitstring Interleave StatusList OidcFlow Issuance Plugins Ledger.

Open Scope Z_scope.
Open Scope minister_scope.

(** ** Requests, answers and the network *)

Record SignetResponse := { sr_status : Z; sr_json : Json }.

Inductive SignetRequest :=
  | GetPublicKey
  | Evaluate (blinded_element : string)
  | Register (value owner_handle badge_type : string)
  | Disclose (entry_ref owner_handle client_id : string)
  | Release (entry_ref owner_handle : string)
  | Reassign (entry_refs : list string) (from_owner_handle to_owner_handle : string).

Inductive Net := NetOk | NetLost (error : string) | NetLate (error : string).

Record SignetBackendConfig := {
  sc_baseUrl : string;
  sc_clientCert : string;
  sc_clientKey : string;
  sc_caCert : string;
  sc_pinnedPublicKey : string;
  sc_requestTimeoutMs : option Z;
}.

(** [sg_config] is the configuration or why it cannot be read, [sg_net] the fate of the n-th
    call, [sg_serve] what the service does with its ledger and the ids it has drawn,
    [sg_finalize] the output of the PRF for an input, an evaluated element and its proof, and
    [sg_patience] how often an acquirer looks at a lock before its timeout. *)
Record SignetWorld := {
  sg_config : result string SignetBackendConfig;
  sg_net : nat → Net;
  sg_serve : SignetRequest → gmap string NullifierEntry * gset string → SignetResponse * (gmap string NullifierEntry * gset string);
  sg_blind : list Z → option string;
  sg_finalize : list Z → list Z → list Z → result string (list Z);
  sg_base64url : list Z → string;
  sg_unbase64url : string → list Z;
  sg_patience : nat;
}.

Definition ELEMENT_LEN : nat := 32.
Definition PROOF_LEN : nat := 64.
Definition DEDUP_VALUE_LEN : nat := 64.
Definition PIN_B64URL_LEN : nat := 43.
Definition PROBE_CLIENT_ID : string := "minister:mint-probe:v1".
Definition DEFAULT_TIMEOUT_MS : Z := 5000.
Definition MIN_TIMEOUT_MS : Z := 100.
Definition MAX_TIMEOUT_MS : Z := 15000.

(** [/^mnv1:[A-Za-z0-9_-]{43}$/] and [/^[A-Za-z0-9_-]+$/] *)
Definition NULLIFIER_RE (s : string) : bool :=
  match strip_prefix "mnv1:" s with Some rest => Nat.eqb (String.length rest) 43 && all_chars is_id_char rest | None => false end.
Definition B64URL_RE (s : string) : bool := negb (bool_decide (s = "")) && all_chars is_id_char s.

(** ** Configuration *)

(** [readFile] resolves a path and [toInteger] is the number a string denotes, when it is an
    integer. *)
Section Config.
Context (env : gmap string string) (readFile : string → result string string) (toInteger : string → option Z).

Definition resolvePem (value name : string) : result string string :=
  let trimmed := trim value in
  if String.prefix "-----BEGIN" trimmed then Ok value
  else match readFile trimmed with
       | Ok pem => Ok pem
       | Err e => Err ("nullifier: " +:+ name +:+ " is neither inline PEM nor a readable file path: " +:+ e)
       end.

Definition need (key : string) : result string string :=
  match present (env !! key) with Some v => Ok v | None => Err ("nullifier: " +:+ key +:+ " must be set (signet backend)") end.

Definition requestTimeout : result string (option Z) :=
  match present (env !! "MINISTER_SIGNET_TIMEOUT_MS") with
  | None => Ok None
  | Some raw =>
      match toInteger raw with
      | Some n => if (n <? MIN_TIMEOUT_MS) || (MAX_TIMEOUT_MS <? n)
                  then Err "nullifier: MINISTER_SIGNET_TIMEOUT_MS must be an integer between 100 and 15000" else Ok (Some n)
      | None => Err "nullifier: MINISTER_SIGNET_TIMEOUT_MS must be an integer between 100 and 15000"
      end
  end.

Definition configFromEnv : result string SignetBackendConfig :=
  baseUrl ← need "MINISTER_SIGNET_URL";
  if negb (String.prefix "https://" baseUrl) then Err "nullifier: MINISTER_SIGNET_URL must be an https:// URL (mTLS-only)"
  else
    timeout ← requestTimeout;
    cert ← need "MINISTER_SIGNET_CLIENT_CERT"; cert ← resolvePem cert "MINISTER_SIGNET_CLIENT_CERT";
    key ← need "MINISTER_SIGNET_CLIENT_KEY"; key ← resolvePem key "MINISTER_SIGNET_CLIENT_KEY";
    ca ← need "MINISTER_SIGNET_CA_CERT"; ca ← resolvePem ca "MINISTER_SIGNET_CA_CERT";
    pinned ← need "MINISTER_SIGNET_DEDUP_PUBKEY";
    Ok {| sc_baseUrl := baseUrl; sc_clientCert := cert; sc_clientKey := key; sc_caCert := ca; sc_pinnedPublicKey := pinned;
          sc_requestTimeoutMs := timeout |}.

End Config.

(** ** Reading an answer *)

Definition asRecord (value : Json) : result string JObject :=
  match value with
  | JObj o => Ok o
  | JArr _ => Ok []
  | _ => Err "nullifier: signet returned a non-object body"
  end.

Definition stringField (body : JObject) (key : string) : result string string :=
  match jget key body with
  | Some (JStr v) => Ok v
  | _ => Err ("nullifier: signet response lacks string field " +:+ key)
  end.

Fixpoint contains (sub s : string) : bool :=
  String.prefix sub s || match s with EmptyString => false | String _ s' => contains sub s' end.

Definition isOwnerMismatchForbidden (json : Json) : bool :=
  match json with
  | JObj o => match jget "message" o with Some (JStr m) => contains "owned by neither" (toLowerCase m) | _ => false end
  | _ => false
  end.

(** Why the pin is not verified: a service under another key, or a failure that may pass. *)
Inductive PinError := PinMismatch (msg : string) | PinTransient (msg : string).
Definition pinMessage (e : PinError) : string := match e with PinMismatch m | PinTransient m => m end.

Section Backend.
Context (w : SignetWorld).

Definition b64urlDecode (value name : string) (expectedLen : nat) : result string (list Z) :=
  if negb (B64URL_RE value) then Err ("nullifier: signet returned a non-base64url " +:+ name)
  else
    let raw := sg_unbase64url w value in
    if Nat.eqb (length raw) expectedLen then Ok raw
    else Err ("nullifier: signet returned " +:+ name +:+ " of " +:+ pretty (length raw) +:+ " bytes (expected " +:+ pretty expectedLen +:+ ")").

(** The service at work on the ledger. *)
Definition serveOn (req : SignetRequest) (db : LedgerDB) : SignetResponse * LedgerDB :=
  let '(res, (entries, born)) := sg_serve w req (ld_entries db, ld_born db) in
  (res, set_born born (set_entries entries db)).

(** One round trip. *)
Definition send (req : SignetRequest) : thread LedgerDB (result string SignetResponse) :=
  act (fun db =>
    let db1 := set_calls (S (ld_calls db)) db in
    match sg_net w (ld_calls db) with
    | NetOk => let '(res, db2) := serveOn req db1 in (Ok res, db2)
    | NetLost e => (Err e, db1)
    | NetLate e => (Err e, (serveOn req db1).2)
    end).

Definition sendT (req : SignetRequest) : effect SignetResponse :=
  r ← send req; throwing r.

(** ** The pin *)

Definition pin : result string (list Z) :=
  config ← sg_config w;
  let p := trim (sc_pinnedPublicKey config) in
  if negb (Nat.eqb (String.length p) PIN_B64URL_LEN && B64URL_RE p)
  then Err "nullifier: MINISTER_SIGNET_DEDUP_PUBKEY is not a 43-char base64url pin (pkS)"
  else b64urlDecode p "pinned public key" ELEMENT_LEN.

(** The verdict on the answer of the public-key endpoint. *)
Definition checkPublicKey (expected : string) (res : SignetResponse) : result PinError unit :=
  if negb (sr_status res =? 200) then Err (PinTransient ("nullifier: signet /prf/public-key returned " +:+ pretty (sr_status res) +:+ " (fail closed)"))
  else match (body ← asRecord (sr_json res); suite ← stringField body "suite"; served ← stringField body "public_key"; Ok (suite, served)) with
       | Err e => Err (PinTransient e)
       | Ok (suite, served) =>
           if negb (bool_decide (suite = "ristretto255-SHA512"))
           then Err (PinMismatch ("nullifier: signet serves VOPRF suite " +:+ suite +:+ ", expected ristretto255-SHA512"))
           else if negb (bool_decide (served = expected))
           then Err (PinMismatch ("nullifier: signet public key " +:+ served +:+ " does not match the pinned MINISTER_SIGNET_DEDUP_PUBKEY "
                                  +:+ expected +:+ "; refusing to operate (key-fork guard)"))
           else Ok tt
       end.

Definition verifyPin : thread LedgerDB (result PinError unit) :=
  verified ← read ld_pinVerified;
  if (verified : bool) then mret (Ok tt)
  else match (config ← sg_config w; _ ← pin; Ok (trim (sc_pinnedPublicKey config))) with
       | Err e => mret (Err (PinTransient e))
       | Ok expected =>
           res ← send GetPublicKey;
           match res with
           | Err e => mret (Err (PinTransient e))
           | Ok res =>
               match checkPublicKey expected res with
               | Err e => mret (Err e)
               | Ok _ => _ ← write (set_pinVerified true); mret (Ok tt)
               end
           end
       end.

Definition ensurePinVerified : effect unit :=
  r ← verifyPin; mret (match r with Ok _ => Ok tt | Err e => Err (TMsg (pinMessage e)) end).

(** ** Operations *)

Definition statusError (path : string) (res : SignetResponse) : Thrown :=
  TMsg ("nullifier: signet " +:+ path +:+ " returned " +:+ pretty (sr_status res)).

(** The evaluated element and its proof. *)
Definition readEvaluation (json : Json) : result string (list Z * list Z) :=
  body ← asRecord json;
  elt ← stringField body "evaluation_element"; elt ← b64urlDecode elt "evaluation_element" ELEMENT_LEN;
  proof ← stringField body "proof"; proof ← b64urlDecode proof "proof" PROOF_LEN;
  Ok (elt, proof).

Definition evaluateDedupValue (anchor badgeType : string) : effect (list Z) :=
  input ←! throwing (buildVoprfDedupInput anchor badgeType);
  _ ←! ensurePinVerified;
  _ ←! throwing pin;
  match sg_blind w input with
  | None => mret (Err (TMsg "nullifier: VOPRF blind produced no element"))
  | Some blinded =>
      res ←! sendT (Evaluate blinded);
      if negb (sr_status res =? 200) then mret (Err (statusError "/prf/evaluate" res))
      else
        evaluation ←! throwing (readEvaluation (sr_json res));
        value ←! throwing (sg_finalize w input evaluation.1 evaluation.2);
        if Nat.eqb (length value) DEDUP_VALUE_LEN then mret (Ok value)
        else mret (Err (TMsg "nullifier: VOPRF finalize returned a malformed output"))
  end.

(** The status and the id of a registration. *)
Definition readRegistration (json : Json) : result string RegisterDedupResult :=
  body ← asRecord json;
  status ← stringField body "status";
  if negb (bool_decide (status = "registered") || bool_decide (status = "already_yours"))
  then Err ("nullifier: signet /dedup/register returned unknown status " +:+ status)
  else
    entryRef ← stringField body "entry_ref";
    _ ← b64urlDecode entryRef "entry_ref" 16;
    Ok (if bool_decide (status = "registered") then Registered entryRef else AlreadyYours entryRef).

Definition signetRegister (anchor badgeType ownerHandle : string) : effect RegisterDedupResult :=
  value ←! evaluateDedupValue anchor badgeType;
  res ←! sendT (Register (sg_base64url w value) ownerHandle badgeType);
  if sr_status res =? 409 then mret (Ok Taken)
  else if negb (sr_status res =? 200) then mret (Err (statusError "/dedup/register" res))
  else throwing (readRegistration (sr_json res)).

(** The disclosed value of an answer. *)
Definition readDisclosed (entryRef : string) (res : SignetResponse) : result string string :=
  if sr_status res =? 404 then Err ("nullifier: entry " +:+ entryRef +:+ " not found")
  else if sr_status res =? 403 then Err ("nullifier: owner mismatch for entry " +:+ entryRef)
  else if negb (sr_status res =? 200) then Err ("nullifier: signet /prf/disclose returned " +:+ pretty (sr_status res))
  else
    body ← asRecord (sr_json res);
    value ← stringField body "nullifier";
    if NULLIFIER_RE value then Ok value else Err "nullifier: signet returned a malformed disclosed nullifier".

Definition signetDisclose (entryRef ownerHandle clientId : string) : effect string :=
  _ ←! throwing (capClientId clientId);
  _ ←! ensurePinVerified;
  res ←! sendT (Disclose entryRef ownerHandle clientId);
  throwing (readDisclosed entryRef res).

Definition signetExists (entryRef ownerHandle : string) : effect bool :=
  _ ←! ensurePinVerified;
  res ←! sendT (Disclose entryRef ownerHandle PROBE_CLIENT_ID);
  mret (if sr_status res =? 200 then Ok true
        else if (sr_status res =? 404) || (sr_status res =? 403) then Ok false
        else Err (TMsg ("nullifier: signet probe returned " +:+ pretty (sr_status res)))).

(** *** The lock of an entry *)

Definition tryLock (entryRef : string) (db : LedgerDB) : bool * LedgerDB :=
  if bool_decide (entryRef ∈ ld_locks db) then (false, db) else (true, set_locks ({[entryRef]} ∪ ld_locks db) db).

(** The lock is looked at until it is free or the wait times out. *)
Fixpoint acquire (patience : nat) (entryRef : string) : thread LedgerDB bool :=
  match patience with
  | O => mret false
  | S n => got ← act (tryLock entryRef); if (got : bool) then mret true else acquire n entryRef
  end.

Definition unlock (entryRef : string) (db : LedgerDB) : LedgerDB := set_locks (ld_locks db ∖ {[entryRef]}) db.

(** A query on the lock's transaction, which fails once the transaction is gone. *)
Definition lockAlive (entryRef : string) : effect unit :=
  alive ← read (fun db => bool_decide (entryRef ∈ ld_locks db));
  mret (if (alive : bool) then Ok tt else Err (TCode "P2028")).

Definition withSignetEntryLock {A} (entryRef : string) (fn : effect unit → effect A) : effect A :=
  got ← acquire (sg_patience w) entryRef;
  if negb got then mret (Err (TMsg "nullifier: failed to acquire the signet entry lock"))
  else r ← fn (lockAlive entryRef); _ ← write (unlock entryRef); mret r.

Definition siblings (entryRef : string) (db : LedgerDB) : nat :=
  length (filter (fun b => br_nullifierRef (bg_row b) = Some entryRef) (bt_badges (ld_tables db))).

Definition signetRelease (entryRef ownerHandle : string) : effect unit :=
  _ ←! ensurePinVerified;
  withSignetEntryLock entryRef (fun assertLockLive =>
    n ← read (siblings entryRef);
    if Nat.ltb 0 n then mret (Ok tt)
    else
      _ ←! assertLockLive;
      res ←! sendT (Release entryRef ownerHandle);
      mret (if sr_status res =? 403 then Err (TMsg ("nullifier: owner mismatch releasing entry " +:+ entryRef))
            else if negb (sr_status res =? 200) then Err (statusError "/dedup/release" res) else Ok tt)).

(** The entries moved by one answer; [None] is an entry to skip. *)
Definition readReassigned (res : SignetResponse) : result Thrown (option Z) :=
  if sr_status res =? 404 then Ok None
  else if sr_status res =? 403 then
    if isOwnerMismatchForbidden (sr_json res) then Ok None
    else Err (TMsg "nullifier: signet /dedup/reassign denied authorization (403)")
  else if negb (sr_status res =? 200) then Err (statusError "/dedup/reassign" res)
  else match asRecord (sr_json res) with
       | Err e => Err (TMsg e)
       | Ok body => match jget "reassigned" body with
                    | Some (JNum n) => Ok (Some n)
                    | _ => Err (TMsg "nullifier: signet /dedup/reassign response lacks reassigned count")
                    end
       end.

Fixpoint reassignEach (entryRefs : list string) (from to : string) (moved : Z) : effect Z :=
  match entryRefs with
  | [] => mret (Ok moved)
  | ref :: rest =>
      res ←! sendT (Reassign [ref] from to);
      n ←! mret (readReassigned res);
      reassignEach rest from to (moved + default 0 n)
  end.

Definition signetBackend : NullifierService := {|
  registerDedup draw := signetRegister;
  disclose := signetDisclose;
  entryExistsForOwner := signetExists;
  release := signetRelease;
  reassignOwner entryRefs from to :=
    if bool_decide (entryRefs = []) || bool_decide (from = to) then mret (Ok 0)
    else _ ←! ensurePinVerified; reassignEach entryRefs from to 0;
  serializeMintWindow A := withSignetEntryLock;
|}.

End Backend.

(** ** The backend in use *)

Inductive BackendKind := BInterim | BSignet.

Definition selectBackendKind (env : gmap string string) : result string BackendKind :=
  let backend := env !! "MINISTER_NULLIFIER_BACKEND" ?? "interim" in
  if bool_decide (backend = "interim") then Ok BInterim
  else if bool_decide (backend = "signet") then Ok BSignet
  else Err ("Unknown MINISTER_NULLIFIER_BACKEND: " +:+ backend).

Definition nullifierService (mac : MacWorld) (w : SignetWorld) (kind : BackendKind) : NullifierService :=
  match kind with BSignet => signetBackend w | BInterim => interimBackend mac end.
