(* ===== verification/Wizard.v ===== *)
(** * The badge wizard (server/wizard.ts, server/wizard-actions.ts, server/badge-actions.ts,
    server/auto-issue-email-domain.ts, lib/freemail-domains.ts, lib/anon-seed/backup-gate.ts)

    A wizard session leads a user through the steps of a plugin; the last step issues a batch
    of badges. Each badge with an anchor is registered in the ledger before it is issued and
    confirmed after, and the whole batch is undone when one of them fails. Deleting a badge
    releases its entry. Plugins are parameters; ids, tokens and handles that the code draws are
    inputs. *)

From S2P Require Import Prelude Threads Matching Policy Selection RateLimit Registry Claims Vc Pairwise Nullifier.
From S2P Require Import SybilScore Session SybilConfig OidcAuthorize Bitstring Interleave StatusList OidcFlow Issuance Plugins Ledger.

Open Scope Z_scope.
Open Scope minister_scope.

(** ** Plugins *)

Record Plugin := {
  pl_startWizard : string → string → result Thrown WizardState;
  pl_handleStep : WizardState → Json → string → string → result Thrown HandleStepResult;
  pl_isConfigured : option bool;
}.

Definition isPluginConfigured (p : Plugin) : bool := pl_isConfigured p ?? true.

(** The issuer, the e-mail and id tests of the schema library, the ledger backend, the registry of
    plugins, and whether anonymous identities are enabled. *)
Record WizardWorld := {
  ww_vc : VcWorld;
  ww_isEmail : string → bool;
  ww_isCuid : string → bool;
  ww_ledger : NullifierService;
  ww_plugins : string → option Plugin;
  ww_anonEnabled : bool;
}.

Definition SESSION_TTL_MINUTES : Z := 60.
Definition ISSUANCE_UNAVAILABLE_MESSAGE : string := "Badge issuance is temporarily unavailable. Please try again in a moment.".

Definition isIssuanceInfraError (err : Thrown) : bool :=
  match err with
  | TMsg m | TTaken m => String.prefix "nullifier:" m
  | TCode code => bool_decide (code = "P2024") || bool_decide (code = "P2028")
  | TBackup => false
  end.

Definition nowPlusMinutes (now min : Z) : Z := now + min * 60000.

(** ** The anchor must not leak *)

(** The anchor as a string somewhere in a value; a registered slug under [provider] is exempt. *)
Fixpoint anchorAppearsAsValue (anchor : string) (node : Json) : bool :=
  match node with
  | JStr s => bool_decide (s = anchor)
  | JArr l => existsb (anchorAppearsAsValue anchor) l
  | JObj o =>
      existsb (fun '(key, v) =>
        if bool_decide (key = "provider") && (match v with JStr s => bool_decide (s ∈ OAUTH_PROVIDERS) | _ => false end)
        then false else anchorAppearsAsValue anchor v) o
  | _ => false
  end.

Definition OAUTH_PROVIDER_NOUNS : list (string * string) :=
  [("github", "GitHub account"); ("google", "Google account"); ("discord", "Discord account"); ("reddit", "Reddit account");
   ("steam", "Steam account"); ("hackernews", "Hacker News account")].

Definition takenCredentialNoun (badgeType : string) (provider : option string) : string :=
  if bool_decide (badgeType = "email-domain") || bool_decide (badgeType = "email-exact") then "email address"
  else if bool_decide (badgeType = "oauth-account") || bool_decide (badgeType = "account-age") || bool_decide (badgeType = "social-following")
  then (provider ← present provider; jget provider OAUTH_PROVIDER_NOUNS) ?? "connected account"
  else "credential".

Definition providerOf (badge : BadgeToIssue) : option string :=
  match jget "provider" (bi_claims badge) with Some (JStr p) => Some p | _ => None end.

Definition takenError (badge : BadgeToIssue) : Thrown :=
  TTaken ("This " +:+ takenCredentialNoun (bi_type badge) (providerOf badge) +:+ " is already linked to another Minister account.").

(** ** Sessions *)

Definition serializeState (state : WizardState) : option (WizardStep * JObject) := Some (wz_currentStep state, wz_data state).

Definition hydrate (row : WizardSession) (s : WizardStep * JObject) : WizardState :=
  {| wz_pluginId := ws_pluginId row; wz_userId := ws_userId row; wz_currentStep := s.1; wz_data := s.2 |}.

Definition sweepExpiredWizardSessions (now : Z) (db : LedgerDB) : LedgerDB :=
  set_sessions (filter (fun e => ¬ (ws_completedAt e.2 = None ∧ ws_expiresAt e.2 < now)) (ld_sessions db)) db.

Definition deleteExpiredSession (id : string) (db : LedgerDB) : LedgerDB :=
  match ld_sessions db !! id with
  | Some row => if bool_decide (ws_completedAt row = None) then set_sessions (delete id (ld_sessions db)) db else db
  | None => db
  end.

Definition tokenTaken (token : option string) (but : string) (db : LedgerDB) : bool :=
  bool_decide (token ≠ None) &&
  existsb (fun '(id, row) => negb (bool_decide (id = but)) && bool_decide (ws_pendingToken row = token)) (map_to_list (ld_sessions db)).

Definition createSession (id : string) (row : WizardSession) (db : LedgerDB) : result Thrown string * LedgerDB :=
  if bool_decide (id ∈ ld_born db) || tokenTaken (ws_pendingToken row) id db then (Err (TCode "P2002"), db)
  else (Ok id, set_born ({[id]} ∪ ld_born db) (set_sessions (<[id := row]> (ld_sessions db)) db)).

(** [wizardSession.update], which throws for a row that is gone or a token that is taken. *)
Definition updateSession (id : string) (f : WizardSession → WizardSession) (db : LedgerDB) : result Thrown unit * LedgerDB :=
  match ld_sessions db !! id with
  | None => (Err (TCode "P2025"), db)
  | Some row => if tokenTaken (ws_pendingToken (f row)) id db then (Err (TCode "P2002"), db)
                else (Ok tt, set_sessions (<[id := f row]> (ld_sessions db)) db)
  end.

(** The end of a session, which keeps nothing of its state. *)
Definition scrub (now : Z) (row : WizardSession) : WizardSession :=
  {| ws_userId := ws_userId row; ws_pluginId := ws_pluginId row; ws_state := None; ws_pendingToken := None;
     ws_completedAt := Some now; ws_expiresAt := ws_expiresAt row |}.

Definition advance (now : Z) (state : WizardState) (row : WizardSession) : WizardSession :=
  {| ws_userId := ws_userId row; ws_pluginId := ws_pluginId row; ws_state := serializeState state;
     ws_pendingToken := pendingTokenFor state; ws_completedAt := ws_completedAt row;
     ws_expiresAt := nowPlusMinutes now SESSION_TTL_MINUTES |}.

Section Wizard.
Context (w : WizardWorld) (now : Z).

Definition isAnonBackupPending (userId : string) : thread LedgerDB bool :=
  if negb (ww_anonEnabled w) then mret false
  else read (fun db => match ld_enrollments db !! userId with Some (Some _, None) => true | _ => false end).

(** ** Issuing a batch *)

(** What the batch draws for a badge: its id, and the ids of the entries it registers. *)
Record BadgeDraws := { bd_id : string; bd_entry : nat → string }.

(** [issueBadge] as one statement of the batch. *)
Definition insertBadge (id userId pluginId : string) (badge : BadgeToIssue) (dedupeKey nullifierRef : option string) (db : LedgerDB) :
    result Thrown string * LedgerDB :=
  if bool_decide (id ∈ ld_born db) then (Err (TCode "P2002"), db)
  else match issueBadge (ww_vc w) (ww_isEmail w) now (fun u => bool_decide (ld_users db !! u ≠ None)) id userId (Some pluginId)
               badge dedupeKey nullifierRef None (ld_tables db) with
       | (Ok id, t) => (Ok id, set_born ({[id]} ∪ ld_born db) (set_tables t db))
       | (Err UnknownBadgeType, _) => (Err (TMsg ("Unknown badge type: " +:+ bi_type badge)), db)
       | (Err ClaimsRejected, _) => (Err (TMsg "claims"), db)
       | (Err P2002, _) => (Err (TCode "P2002"), db)
       | (Err NoSuchUser, _) => (Err (TCode "P2003"), db)
       | (Err (SigningFailed e), _) => (Err (TMsg e), db)
       end.

(** [badge.deleteMany] over ids of a user: how many rows it deleted. *)
Definition deleteBadges (ids : list string) (userId : string) (db : LedgerDB) : nat * LedgerDB :=
  let hit b := bool_decide (br_id (bg_row b) ∈ ids) && bool_decide (br_userId (bg_row b) = userId) in
  let t := ld_tables db in
  (length (filter (fun b => hit b = true) (bt_badges t)),
   set_tables {| bt_badges := filter (fun b => hit b = false) (bt_badges t); bt_eligibilities := bt_eligibilities t; bt_audit := bt_audit t |} db).

Definition setNullifierRef (ref : string) (b : BadgeRecord) : BadgeRecord :=
  let r := bg_row b in
  {| bg_row := {| br_id := br_id r; br_userId := br_userId r; br_type := br_type r; br_attributes := br_attributes r;
                  br_issuedAt := br_issuedAt r; br_expiresAt := br_expiresAt r; br_issuer := br_issuer r; br_vcJwt := br_vcJwt r;
                  br_nullifierRef := Some ref; br_statusAnchor := br_statusAnchor r |};
     bg_pluginId := bg_pluginId b; bg_dedupeKey := bg_dedupeKey b |}.

(** [badge.update] of the reference, which throws for a row that is gone. *)
Definition repoint (id ref : string) (db : LedgerDB) : result Thrown unit * LedgerDB :=
  let t := ld_tables db in
  if existsb (fun b => bool_decide (br_id (bg_row b) = id)) (bt_badges t)
  then (Ok tt, set_tables {| bt_badges := map (fun b => if bool_decide (br_id (bg_row b) = id) then setNullifierRef ref b else b) (bt_badges t);
                             bt_eligibilities := bt_eligibilities t; bt_audit := bt_audit t |} db)
  else (Err (TCode "P2025"), db).

(** What a batch has done so far: the badges it created and the entries it registered first. *)
Record BatchState := { bs_created : list string; bs_fresh : list (string * string); bs_handle : option string }.

(** Badges deleted, fresh entries released, and the session ended when it carried an anchor. *)
Fixpoint releaseAll (fresh : list (string * string)) : thread LedgerDB unit :=
  match fresh with
  | [] => mret tt
  | (ref, handle) :: rest => _ ← runPostCommit (release (ww_ledger w) ref handle) "release-on-batch-abort" 3; releaseAll rest
  end.

Definition compensateBatch (sessionId userId : string) (anchorSeen : bool) (b : BatchState) : effect unit :=
  _ ← (if bool_decide (bs_created b = []) then mret tt else _ ← act (deleteBadges (bs_created b) userId); mret tt);
  _ ← releaseAll (bs_fresh b);
  if anchorSeen then act (updateSession sessionId (scrub now)) else mret (Ok tt).

(** Undo the batch and throw. *)
Definition abort {A} (sessionId userId : string) (anchorSeen : bool) (b : BatchState) (err : Thrown) : effect A :=
  _ ←! compensateBatch sessionId userId anchorSeen b;
  mret (Err err).

(** The window in which a badge is inserted and its entry confirmed: the id once it is
    inserted, and the answer of the probe. *)
Definition mintWindow (id userId pluginId : string) (badge : BadgeToIssue) (ref handle : string) :
    thread LedgerDB (option string * result Thrown bool) :=
  r ← serializeMintWindow (ww_ledger w) ref (fun assertLockLive =>
        inserted ← act (insertBadge id userId pluginId badge None (Some ref));
        match inserted with
        | Err e => mret (Ok (None, Err e))
        | Ok id =>
            present ← (present ←! entryExistsForOwner (ww_ledger w) ref handle; _ ←! assertLockLive; mret (Ok present));
            mret (Ok (Some id, present))
        end);
  mret (match r with Ok x => x | Err e => (None, Err e) end).

(** The error of a failed mint, as the plugin's. *)
Definition mintError (pluginId : string) (err : Thrown) : Thrown :=
  match err with
  | TMsg m => if String.prefix "Unknown badge type:" m then TMsg ("Plugin " +:+ pluginId +:+ " produced an " +:+ toLowerCase m) else err
  | _ => err
  end.

(** Registering again and repointing the badge, [attempts] times at most: the entry that holds,
    with what was registered on the way. *)
Fixpoint heal (attempts : nat) (draws : nat → string) (badge : BadgeToIssue) (anchor handle id : string) (b : BatchState) :
    thread LedgerDB (result Thrown string * BatchState) :=
  match attempts with
  | O => mret (Err (TMsg "nullifier: mint self-heal could not re-anchor the credential"), b)
  | S n =>
      reg ← registerDedup (ww_ledger w) (draws n) anchor (bi_type badge) handle;
      match reg with
      | Err e => mret (Err e, b)
      | Ok Taken => mret (Err (takenError badge), b)
      | Ok (Registered ref as reg) | Ok (AlreadyYours ref as reg) =>
          let b := match reg with
                   | Registered _ => {| bs_created := bs_created b; bs_fresh := bs_fresh b ++ [(ref, handle)]; bs_handle := bs_handle b |}
                   | _ => b
                   end in
          stillThere ← serializeMintWindow (ww_ledger w) ref (fun assertLockLive =>
            _ ←! act (repoint id ref);
            stillThere ←! entryExistsForOwner (ww_ledger w) ref handle;
            _ ←! assertLockLive;
            mret (Ok stillThere));
          match stillThere with
          | Err e => mret (Err e, b)
          | Ok true => mret (Ok ref, b)
          | Ok false => heal n draws badge anchor handle id b
          end
      end
  end.

Section Batch.
Context (sessionId userId pluginId candidate : string) (anchorSeen : bool).

Definition created (id : string) (b : BatchState) : BatchState :=
  {| bs_created := bs_created b ++ [id]; bs_fresh := bs_fresh b; bs_handle := bs_handle b |}.

(** A badge without an anchor. *)
Definition mintPlain (badge : BadgeToIssue) (d : BadgeDraws) (b : BatchState) : effect BatchState :=
  inserted ← act (insertBadge (bd_id d) userId pluginId badge None None);
  match inserted with
  | Ok id => mret (Ok (created id b))
  | Err e => abort sessionId userId anchorSeen b (mintError pluginId e)
  end.

(** A badge with one: registered, inserted, confirmed, and healed when its entry is gone. *)
Definition mintAnchored (badge : BadgeToIssue) (anchor : string) (d : BadgeDraws) (b : BatchState) : effect BatchState :=
  handle ←! match bs_handle b with Some h => mret (Ok h) | None => ensureDedupHandle userId candidate end;
  let b := {| bs_created := bs_created b; bs_fresh := bs_fresh b; bs_handle := Some handle |} in
  reg ←! registerDedup (ww_ledger w) (bd_entry d 3) anchor (bi_type badge) handle;
  match reg with
  | Taken => abort sessionId userId anchorSeen b (takenError badge)
  | Registered ref | AlreadyYours ref =>
      let b := match reg with
               | Registered _ => {| bs_created := bs_created b; bs_fresh := bs_fresh b ++ [(ref, handle)]; bs_handle := bs_handle b |}
               | _ => b
               end in
      minted ← mintWindow (bd_id d) userId pluginId badge ref handle;
      let b := match minted.1 with Some id => created id b | None => b end in
      match minted.2 with
      | Err e => abort sessionId userId anchorSeen b (mintError pluginId e)
      | Ok true => mret (Ok b)
      | Ok false =>
          healed ← heal 3 (bd_entry d) badge anchor handle (bd_id d) b;
          match healed.1 with
          | Ok _ => mret (Ok healed.2)
          | Err e => abort sessionId userId anchorSeen healed.2 e
          end
      end
  end.

Definition mintOne (issued : IssuedBadge) (d : BadgeDraws) (b : BatchState) : effect BatchState :=
  match is_sybilAnchor issued with
  | None => mintPlain (is_badge issued) d b
  | Some anchor =>
      if negb (is_revealsAnchor issued)
         && (anchorAppearsAsValue anchor (JObj (bi_attributes (is_badge issued))) || anchorAppearsAsValue anchor (JObj (bi_claims (is_badge issued))))
      then abort sessionId userId anchorSeen b
             (TMsg ("Plugin " +:+ pluginId +:+ " leaked a Sybil anchor into badge attributes/claims — refusing to issue"))
      else mintAnchored (is_badge issued) anchor d b
  end.

Fixpoint mintAll (issued : list (IssuedBadge * BadgeDraws)) (b : BatchState) : effect BatchState :=
  match issued with
  | [] => mret (Ok b)
  | (badge, d) :: rest => b ←! mintOne badge d b; mintAll rest b
  end.

End Batch.

(** The ids the batch draws, in order, and the candidate handle. *)
Record SubmitDraws := { sd_badges : nat → BadgeDraws; sd_candidate : string }.

Definition issueBadgesAndComplete (sessionId userId pluginId : string) (issued : list IssuedBadge) (d : SubmitDraws) : effect (list string) :=
  pending ← isAnonBackupPending userId;
  if (pending : bool) then mret (Err TBackup)
  else
    let anchorSeen := existsb (fun b => bool_decide (is_sybilAnchor b ≠ None)) issued in
    b ←! mintAll sessionId userId pluginId (sd_candidate d) anchorSeen (imap (fun i badge => (badge, sd_badges d i)) issued)
           {| bs_created := []; bs_fresh := []; bs_handle := None |};
    _ ←! act (updateSession sessionId (scrub now));
    mret (Ok (bs_created b)).

(** ** The wizard *)

Definition startWizard (pluginId userId origin : string) (id : string) : effect (string * WizardState) :=
  match ww_plugins w pluginId with
  | None => mret (Err (TMsg ("Unknown plugin: " +:+ pluginId)))
  | Some plugin =>
      if negb (isPluginConfigured plugin)
      then mret (Err (TMsg ("Plugin " +:+ pluginId +:+ " is not configured on this deployment.")))
      else
        pending ← isAnonBackupPending userId;
        if (pending : bool) then mret (Err TBackup)
        else match pl_startWizard plugin userId origin with
             | Err e => mret (Err e)
             | Ok state =>
                 _ ← write (sweepExpiredWizardSessions now);
                 _ ← write (fun db => set_sessions (filter (fun e => ¬ (ws_userId e.2 = userId ∧ ws_pluginId e.2 = pluginId ∧ ws_completedAt e.2 = None)) (ld_sessions db)) db);
                 id ←! act (createSession id {| ws_userId := userId; ws_pluginId := pluginId; ws_state := serializeState state;
                                                ws_pendingToken := pendingTokenFor state; ws_completedAt := None;
                                                ws_expiresAt := nowPlusMinutes now SESSION_TTL_MINUTES |});
                 mret (Ok (id, toClientState state))
             end
  end.

(** The open session of a user. *)
Definition openSession (sessionId userId : string) (db : LedgerDB) : option WizardSession :=
  row ← ld_sessions db !! sessionId;
  if bool_decide (ws_userId row = userId) && bool_decide (ws_completedAt row = None) then Some row else None.

Definition loadWizard (sessionId userId : string) : thread LedgerDB (option WizardState) :=
  row ← read (openSession sessionId userId);
  match row with
  | None => mret None
  | Some row =>
      if ws_expiresAt row <? now then _ ← write (deleteExpiredSession sessionId); mret None
      else mret ((fun s => toClientState (hydrate row s)) <$> ws_state row)
  end.

Inductive SubmitResult :=
  | SContinue (state : WizardState)
  | SComplete (badgeIds : list string)
  | SError (message : string).

Definition submitStep (sessionId userId origin : string) (input : Json) (d : SubmitDraws) : effect SubmitResult :=
  row ← read (openSession sessionId userId);
  match row with
  | None => mret (Ok (SError "Wizard session not found"))
  | Some row =>
      if ws_expiresAt row <? now then _ ← write (deleteExpiredSession sessionId); mret (Ok (SError "Wizard session expired"))
      else match ws_state row with
           | None => mret (Ok (SError "This verification was reset — start over."))
           | Some s =>
               match ww_plugins w (ws_pluginId row) with
               | None => mret (Ok (SError "Plugin no longer registered"))
               | Some plugin =>
                   match pl_handleStep plugin (hydrate row s) input userId origin with
                   | Err e => mret (Err e)
                   | Ok (HContinue state) =>
                       _ ←! act (updateSession sessionId (advance now state));
                       mret (Ok (SContinue (toClientState state)))
                   | Ok (HError message) => mret (Ok (SError message))
                   | Ok (HComplete badges) =>
                       done ← issueBadgesAndComplete sessionId userId (ws_pluginId row) badges d;
                       match done with
                       | Ok ids => mret (Ok (SComplete ids))
                       | Err (TTaken message) => mret (Ok (SError message))
                       | Err err =>
                           if isIssuanceInfraError err
                           then _ ← write (auditLedger (Some userId) "wizard.issuance_unavailable" (ws_pluginId row));
                                mret (Ok (SError ISSUANCE_UNAVAILABLE_MESSAGE))
                           else mret (Err err)
                       end
                   end
               end
           end
  end.

Inductive ResumeResult :=
  | RComplete (badgeIds : list string) (pluginId : string)
  | RContinue (pluginId sessionId : string)
  | RError (message : string).

Definition sessionByToken (token : string) (db : LedgerDB) : option (string * WizardSession) :=
  list_find (fun e => ws_pendingToken e.2 = Some token) (map_to_list (ld_sessions db)) ≫= fun x => Some x.2.

Definition resumeViaPendingToken (token userId origin : string) (input : Json) (d : SubmitDraws) : effect ResumeResult :=
  found ← read (sessionByToken token);
  match found with
  | None => mret (Ok (RError "Link is invalid or already used"))
  | Some (id, row) =>
      if negb (bool_decide (ws_userId row = userId))
      then mret (Ok (RError "Link belongs to a different account. Sign in as that user and click the link again."))
      else if ws_expiresAt row <? now then mret (Ok (RError "Link has expired"))
      else if bool_decide (ws_completedAt row ≠ None) then mret (Ok (RError "Link is already used"))
      else
        result ←! submitStep id userId origin input d;
        mret (Ok (match result with
                  | SComplete ids => RComplete ids (ws_pluginId row)
                  | SContinue _ => RContinue (ws_pluginId row) id
                  | SError m => RError m
                  end))
  end.

(** ** Badges of a user *)

Definition requireUserId (auth : option Session) : effect string :=
  read (fun db => match getCurrentSession auth (ld_users db) with
                  | Some s => if bool_decide (s_userId s = "") then Err (TMsg "Not signed in") else Ok (s_userId s)
                  | None => Err (TMsg "Not signed in")
                  end).

Definition deleteBadge (auth : option Session) (badgeId : string) : effect (result string unit) :=
  if negb (ww_isCuid w badgeId) then mret (Err (TMsg "badgeId")) else
  userId ←! requireUserId auth;
  badge ← read (fun db => list_find (fun b => br_id (bg_row b) = badgeId ∧ br_userId (bg_row b) = userId) (bt_badges (ld_tables db)));
  match badge with
  | None => mret (Ok (Err "Badge not found"))
  | Some (_, badge) =>
      let ref := present (br_nullifierRef (bg_row badge)) in
      owner ← (if bool_decide (ref = None) then mret None else read (fun db => present (ld_handles db !! userId)));
      count ← act (deleteBadges [badgeId] userId);
      if bool_decide (count = 0%nat) then mret (Ok (Err "Badge not found"))
      else
        _ ← match ref, owner with
            | Some ref, Some handle =>
                siblings ← read (referenced ref);
                if (siblings : bool) then mret tt
                else runPostCommit (release (ww_ledger w) ref handle) "release-on-badge-delete" 3
            | _, _ => mret tt
            end;
        _ ← write (auditLedger (Some userId) "badge.deleted" badgeId);
        mret (Ok (Ok tt))
  end.

(** ** Server actions *)

Definition getOrigin (headers : gmap string string) : string :=
  (headers !! "x-forwarded-proto" ?? "http") +:+ "://" +:+ (headers !! "host" ?? "localhost:3000").

Definition startWizardAction (auth : option Session) (headers : gmap string string) (pluginId id : string) : effect (string * WizardState) :=
  userId ←! requireUserId auth;
  startWizard pluginId userId (getOrigin headers) id.

Definition submitStepAction (auth : option Session) (headers : gmap string string) (sessionId : string) (input : Json) (d : SubmitDraws) :
    effect SubmitResult :=
  userId ←! requireUserId auth;
  submitStep sessionId userId (getOrigin headers) input d.

(** ** Issuing at sign-in *)

Definition FREEMAIL_DOMAINS : list string :=
  ["gmail.com"; "googlemail.com"; "icloud.com"; "me.com"; "mac.com"; "outlook.com"; "hotmail.com"; "live.com"; "msn.com";
   "yahoo.com"; "ymail.com"; "yahoo.co.uk"; "yahoo.ca"; "yahoo.fr"; "yahoo.de"; "proton.me"; "protonmail.com"; "pm.me";
   "aol.com"; "gmx.com"; "gmx.net"; "gmx.de"; "gmx.at"; "web.de"; "seznam.cz"; "libero.it"; "laposte.net"; "orange.fr";
   "free.fr"; "qq.com"; "163.com"; "126.com"; "sina.com"; "mail.ru"; "bk.ru"; "inbox.ru"; "mail.com"; "zoho.com";
   "yandex.com"; "fastmail.com"; "tutanota.com"; "tuta.com"].

Definition isFreemailDomain (domain : string) : bool := bool_decide (toLowerCase domain ∈ FREEMAIL_DOMAINS).

Definition domainFromEmail (email : string) : option string :=
  match split_last "@"%char email with
  | None | Some (_, "") => None
  | Some (_, domain) => Some (toLowerCase domain)
  end.

Definition emailDomainBadge (domain : string) : BadgeToIssue :=
  {| bi_type := "email-domain"; bi_attributes := [("domain", JStr domain)]; bi_claims := [("domain", JStr domain)];
     bi_expiresAt := None; bi_eligibilities := [] |}.

Definition holdsDomain (userId domain : string) (db : LedgerDB) : bool :=
  existsb (fun b => bool_decide (br_userId (bg_row b) = userId) && bool_decide (br_type (bg_row b) = "email-domain")
                    && match br_attributes (bg_row b) ≫= (.!! "domain") with Some (RString x) => bool_decide (x = domain) | _ => false end) (bt_badges (ld_tables db)).

Definition autoIssueEmailDomainBadge (userId email : string) (d : BadgeDraws) (candidate : string) : thread LedgerDB unit :=
  match domainFromEmail email with
  | None => mret tt
  | Some domain =>
      let log action detail := write (auditLedger (Some userId) action detail) in
      if isFreemailDomain domain then log "badge.email_domain.auto_issue_skipped" "freemail"
      else match normalizeEmailAnchor email with
           | Err e => log "badge.email_domain.auto_issue_failed" e
           | Ok anchor =>
               existing ← read (holdsDomain userId domain);
               if (existing : bool) then mret tt
               else
                 r ← (handle ←! ensureDedupHandle userId candidate;
                      reg ←! registerDedup (ww_ledger w) (bd_entry d 0) anchor "email-domain" handle;
                      match reg with
                      | Taken => _ ← log "badge.email_domain.auto_issue_skipped" "taken"; mret (Ok tt)
                      | Registered ref | AlreadyYours ref =>
                          inserted ← act (insertBadge (bd_id d) userId "email-domain" (emailDomainBadge domain)
                                            (Some ("email-domain:" +:+ userId +:+ ":" +:+ domain)) (Some ref));
                          match inserted with
                          | Ok id => _ ← log "badge.email_domain.auto_issued" id; mret (Ok tt)
                          | Err (TCode "P2002") => _ ← log "badge.email_domain.auto_issue_skipped" "duplicate"; mret (Ok tt)
                          | Err e =>
                              _ ← match reg with
                                  | Registered _ => runPostCommit (release (ww_ledger w) ref handle) "auto-issue-email-domain-release" 3
                                  | _ => mret tt
                                  end;
                              mret (Err e)
                          end
                      end);
                 match r with
                 | Ok _ => mret tt
                 | Err _ => log "badge.email_domain.auto_issue_failed" domain
                 end
           end
  end.

End Wizard.
