(* ===== verification/LedgerProofs.v ===== *)
(** * What a ledger backend promises (lib/nullifier/index.ts, interim.ts, signet-backend.ts)

    The state that handlers of badges share: which badges are anchored in the ledger, and what
    a handler may rely on while others run. [LedgerLaws] is what a backend promises to its
    clients in these terms; the interim backend and the remote one are its instances, the
    second under the documented behaviour of the service. *)

From S2P Require Import Prelude Threads Matching Policy Selection RateLimit Registry Claims Vc Pairwise Nullifier.
From S2P Require Import SybilScore Session SybilConfig OidcAuthorize Bitstring Interleave StatusList OidcFlow Issuance Plugins Ledger Signet Wizard.

Open Scope Z_scope.
Open Scope minister_scope.

(** ** Anchored badges *)

Abbreviation badges db := (bt_badges (ld_tables db)).
Definition id_of (b : BadgeRecord) : string := br_id (bg_row b).
Definition user_of (b : BadgeRecord) : string := br_userId (bg_row b).
Definition ref_of (b : BadgeRecord) : option string := br_nullifierRef (bg_row b).

(** The entry [ref] is in the ledger, under [handle]. *)
Definition entry_live (ref handle : string) (db : LedgerDB) : Prop :=
  ∃ e, ld_entries db !! ref = Some e ∧ ne_ownerHandle e = handle.

(** A badge without a reference, or with one to an entry under the handle of its user. *)
Definition anchored (b : BadgeRecord) (db : LedgerDB) : Prop :=
  ∀ ref, ref_of b = Some ref → ∃ handle, ld_handles db !! user_of b = Some handle ∧ entry_live ref handle db.

(** A handler may own a badge it has inserted and not yet confirmed, and the lock of an entry. *)
Abbreviation token := (string + string)%type.
Abbreviation InFlight id := (inl id : token).
Abbreviation Locked ref := (inr ref : token).

(** The ledger when the tokens of [g] are owned; [locking] is whether the backend uses locks. *)
Record ledger_ok (locking : bool) (g : gset token) (db : LedgerDB) : Prop := {
  ok_anchored : ∀ b, b ∈ badges db → InFlight (id_of b) ∉ g → anchored b db;
  ok_values : ∀ r1 r2 e1 e2, ld_entries db !! r1 = Some e1 → ld_entries db !! r2 = Some e2 → ne_value e1 = ne_value e2 → r1 = r2;
  ok_handles : ∀ u1 u2 h, ld_handles db !! u1 = Some h → ld_handles db !! u2 = Some h → u1 = u2;
  ok_born : ∀ b, b ∈ badges db → id_of b ∈ ld_born db;
  ok_entries : ∀ r e, ld_entries db !! r = Some e → r ∈ ld_born db;
  ok_flight : ∀ id, InFlight id ∈ g → id ∈ ld_born db;
  ok_locks : ∀ r, r ∈ ld_locks db ↔ Locked r ∈ g;
  ok_locking : locking = false → ld_locks db = ∅;
}.

(** What the owner of [g] may rely on: ids and handles are for good, entries do not change and
    do not come back, badges keep their owner, anchored ones stay anchored and keep their
    reference, so do owned ones, and no badge starts to refer to a locked entry. *)
Record evolves (g : gset token) (db db' : LedgerDB) : Prop := {
  ev_born : ld_born db ⊆ ld_born db';
  ev_handles : ∀ u h, ld_handles db !! u = Some h → ld_handles db' !! u = Some h;
  ev_entries : ∀ r e, r ∈ ld_born db → ld_entries db' !! r = Some e → ld_entries db !! r = Some e;
  ev_badges : ∀ b', b' ∈ badges db' → id_of b' ∈ ld_born db →
    ∃ b, b ∈ badges db ∧ id_of b = id_of b' ∧ user_of b = user_of b' ∧
         (InFlight (id_of b) ∈ g → ref_of b' = ref_of b) ∧ (anchored b db → ref_of b' = ref_of b ∧ anchored b' db');
  ev_locked : ∀ r, Locked r ∈ g → (∀ b, b ∈ badges db → ref_of b ≠ Some r) → ∀ b', b' ∈ badges db' → ref_of b' ≠ Some r;
}.

#[export] Instance evolves_preorder g : PreOrder (evolves g).
Proof.
  split.
  - intros db. split; [done|done|done| |done]. intros b Hb _. exists b. split_and!; done.
  - intros d1 d2 d3 H12 H23. split.
    + etrans; [apply H12|apply H23].
    + intros u h Hu. by apply H23, H12.
    + intros r e Hr He. apply H12; [done|]. apply H23; [|done]. by apply H12.
    + intros b3 Hb3 Hid. destruct (ev_badges _ _ _ H23 b3 Hb3) as (b2 & Hb2 & Hi2 & Hu2 & Hf2 & Ha2); [by apply H12|].
      destruct (ev_badges _ _ _ H12 b2 Hb2) as (b1 & Hb1 & Hi1 & Hu1 & Hf1 & Ha1); [by rewrite Hi2|].
      exists b1. split_and!; [done|by etrans|by etrans| |].
      * intros Hg. rewrite Hf2, Hf1; [done|done|]. by rewrite <-Hi1.
      * intros Ha. destruct (Ha1 Ha) as [Hr1 Ha1']. destruct (Ha2 Ha1') as [Hr2 Ha2']. split; [by etrans|done].
    + intros r Hr Hno. apply (ev_locked _ _ _ H23 r Hr). by apply (ev_locked _ _ _ H12 r Hr).
Qed.

Lemma evolves_mono g g' db db' : g ⊆ g' → evolves g' db db' → evolves g db db'.
Proof.
  intros Hg [H1 H2 H3 H4 H5]. split; try done.
  - intros b' Hb' Hid. destruct (H4 b' Hb' Hid) as (b & ? & ? & ? & Hf & ?). exists b. split_and!; try done. intros Hin. by apply Hf, Hg.
  - intros r Hr. by apply H5, Hg.
Qed.

(** Handlers that share the ledger. *)
Abbreviation holds locking := (owns (ledger_ok locking) evolves).

(** A query after which tokens may be let go. *)
Lemma holds_query {A B : Type} (locking : bool) (U : token → Prop) (Q : B → gset token → LedgerDB → Prop) g db0 (f : LedgerDB → A) (h : A → B) :
  (∀ F db, g ## F → ledger_ok locking (g ∪ F) db → evolves g db0 db →
     ∃ g', set_Forall U g' ∧ g' ## F ∧ ledger_ok locking (g' ∪ F) db ∧ Q (h (f db)) g' db) →
  holds locking U Q g db0 (x ← read f; mret (h x)).
Proof. intros H F db HF HI HR. destruct (H F db HF HI HR) as (g' & ? & ? & ? & ?). exists g'. by split_and!. Qed.

(** ** Quiet steps *)

(** Nothing of what the ledger is about changes. *)
Definition quiet (db db' : LedgerDB) : Prop :=
  badges db' = badges db ∧ ld_entries db' = ld_entries db ∧ ld_handles db' = ld_handles db ∧ ld_locks db' = ld_locks db ∧
  ld_born db ⊆ ld_born db'.

#[export] Instance quiet_preorder : PreOrder quiet.
Proof.
  split; [by intros db|]. intros d1 d2 d3 (? & ? & ? & ? & ?) (? & ? & ? & ? & ?). unfold quiet. split_and!; try congruence. set_solver.
Qed.

Lemma anchored_quiet b db db' : ld_entries db' = ld_entries db → ld_handles db' = ld_handles db → anchored b db → anchored b db'.
Proof. intros He Hh H ref Hr. destruct (H ref Hr) as (h & ? & e & ? & ?). exists h. rewrite Hh. split; [done|]. exists e. by rewrite He. Qed.

Lemma quiet_ok locking g db db' : ledger_ok locking g db → quiet db db' → ledger_ok locking g db'.
Proof.
  intros [H1 H2 H3 H4 H5 H6 H7 H8] (Eb & Ee & Eh & El & Hborn). split; rewrite ?Eb, ?Ee, ?Eh, ?El; try done.
  - intros b Hb Hg. eapply anchored_quiet; [..|by apply H1]; done.
  - intros b Hb. by apply Hborn, H4.
  - intros r e Hr. eapply Hborn, H5, Hr.
  - intros id Hid. by apply Hborn, H6.
Qed.

Lemma quiet_evolves g db db' : quiet db db' → evolves g db db'.
Proof.
  intros (Eb & Ee & Eh & El & Hborn). split; rewrite ?Eb, ?Ee, ?Eh; try done.
  intros b Hb _. exists b. split_and!; try done. intros Ha. split; [done|]. by eapply anchored_quiet.
Qed.

Section Quiet.
Context (locking : bool) (U : token → Prop).

(** The tokens and what they protect are as before. *)
Definition same {A : Type} (g : gset token) (db0 : LedgerDB) (a : A) (g' : gset token) (db : LedgerDB) : Prop := g' = g ∧ evolves g db0 db.

(** A quiet handler whose answer has a property whatever it reads. *)
Lemma quiet_answers {A : Type} (P : A → Prop) g db0 (t : thread LedgerDB A) :
  set_Forall U g → steps_in quiet t → stays (fun _ => True) P t → holds locking U (fun a g' db => same g db0 a g' db ∧ P a) g db0 t.
Proof using.
  intros HU. assert (∀ base, evolves g base db0 → steps_in quiet t → stays (fun _ => True) P t →
    holds locking U (fun a g' db => same g base a g' db ∧ P a) g db0 t) as H; [|by apply H].
  revert db0. induction t as [a|f k IH]; intros db0 base Hb Hs HP; [done|]. intros F db HF HI HR. destruct (Hs db) as [Hq Hk].
  exists g. split_and!; [done|done|by eapply quiet_ok|by apply quiet_evolves|]. apply IH; [|done|by apply HP]. etrans; [exact Hb|].
  etrans; [exact HR|]. by apply quiet_evolves.
Qed.

Lemma quiet_holds {A : Type} g db0 (t : thread LedgerDB A) : set_Forall U g → steps_in quiet t → holds locking U (same g db0) g db0 t.
Proof using.
  intros HU Hs. eapply owns_impl; [|apply (quiet_answers (fun _ => True)); [done|done|]]; [by intros a g' db [H _]|].
  eapply stays_frame; [|exact Hs]. done.
Qed.

Lemma quiet_then {A B : Type} (Q : B → gset token → LedgerDB → Prop) g db0 (t : thread LedgerDB A) (k : A → thread LedgerDB B) :
  set_Forall U g → steps_in quiet t → (∀ a db, evolves g db0 db → holds locking U Q g db (k a)) → holds locking U Q g db0 (t ≫= k).
Proof using. intros HU Hs Hk. eapply owns_then; [by apply quiet_holds|]. intros a g' db [-> Hev]. by apply Hk. Qed.

Lemma quiet_thenT {E A B : Type} (Q : result E B → gset token → LedgerDB → Prop) g db0 (t : thread LedgerDB (result E A)) k :
  set_Forall U g → steps_in quiet t → (∀ e db, evolves g db0 db → Q (Err e) g db) →
  (∀ a db, evolves g db0 db → holds locking U Q g db (k a)) → holds locking U Q g db0 (tbind t k).
Proof using. intros HU Hs He Hk. apply quiet_then; [done|done|]. intros [a|e] db Hdb; [by apply Hk|by apply He]. Qed.

End Quiet.

Lemma quiet_tbind {E A B} (t : thread LedgerDB (result E A)) (k : A → thread LedgerDB (result E B)) :
  steps_in quiet t → (∀ a, steps_in quiet (k a)) → steps_in quiet (tbind t k).
Proof. intros Ht Hk. apply steps_in_bind; [done|]. by intros [a|e]. Qed.

Lemma throwing_ok {A B : Type} (a : A) (k : A → effect B) : tbind (throwing (Ok a)) k = k a.
Proof. done. Qed.

Lemma audit_quiet userId action detail db : quiet db (auditLedger userId action detail db).
Proof. done. Qed.

(** ** The interface *)

(** The entry [ref] has been drawn for [value]: as long as it exists it holds that value. *)
Definition named (value : list Z) (ref : string) (db : LedgerDB) : Prop :=
  ref ∈ ld_born db ∧ ∀ e, ld_entries db !! ref = Some e → ne_value e = value.

Lemma named_evolves value ref g db db' : evolves g db db' → named value ref db → named value ref db'.
Proof. intros Hev [Hb Hv]. split; [by eapply ev_born|]. intros e He. apply Hv. by eapply ev_entries. Qed.

(** What a backend promises: [win] are the tokens of a mint window, [image] relates an anchor and a
    badge type to the value that is registered. *)
Class LedgerLaws (svc : NullifierService) (locking : bool) (image : string → string → list Z → Prop) (win : string → gset token) : Prop := {
  win_locked : ∀ ref x, x ∈ win ref → x = Locked ref;
  win_locking : ∀ ref, locking = true → Locked ref ∈ win ref;
  register_law : ∀ U g db0 draw anchor badgeType handle, set_Forall U g →
    holds locking U (fun r g' db => same g db0 r g' db ∧
      ∀ ref, r = Ok (Registered ref) ∨ r = Ok (AlreadyYours ref) → ∃ value, image anchor badgeType value ∧ named value ref db)
      g db0 (registerDedup svc draw anchor badgeType handle);
  (* a probe that succeeds lets go of the tokens that the entry was wanted for *)
  probe_law : ∀ U g D db0 ref handle, set_Forall U g →
    (∀ F db, g ## F → ledger_ok locking (g ∪ F) db → evolves g db0 db → entry_live ref handle db → ledger_ok locking ((g ∖ D) ∪ F) db) →
    holds locking U (fun r g' db => evolves g db0 db ∧ g' = match r with Ok true => g ∖ D | _ => g end ∧
      (r = Ok true → entry_live ref handle db) ∧ (r = Ok false → ¬ entry_live ref handle db))
      g db0 (entryExistsForOwner svc ref handle);
  release_law : ∀ U db0 ref handle, (∀ r, U (Locked r)) → holds locking U (same ∅ db0) ∅ db0 (release svc ref handle);
  window_law : ∀ U (A : Type) (Q : result Thrown A → gset token → LedgerDB → Prop) g db0 ref (fn : effect unit → effect A),
    set_Forall U g → (∀ r, U (Locked r)) → (∀ r, Locked r ∉ g) →
    (∀ e db, evolves g db0 db → Q (Err e) g db) →
    (∀ alive db, evolves g db0 db →
      (∀ g' db', set_Forall U g' → holds locking U (same g' db') g' db' alive) →
      holds locking U (fun r g' db' => win ref ⊆ g' ∧ set_Forall U g' ∧ ∀ db'', evolves (g' ∖ win ref) db' db'' → Q r (g' ∖ win ref) db'')
        (g ∪ win ref) db (fn alive)) →
    holds locking U Q g db0 (serializeMintWindow svc ref fn);
}.

(** ** The interim backend *)

Lemma entryOf_Some value db id e : entryOf value db = Some (id, e) → ld_entries db !! id = Some e ∧ ne_value e = value.
Proof.
  unfold entryOf. destruct (list_find _ _) as [[i x]|] eqn:E; [|done]. intros [= ->].
  apply list_find_Some in E as (Hi & Hv & _). split; [|done]. apply elem_of_map_to_list. by eapply list_elem_of_lookup_2.
Qed.

Lemma entryOf_None value db r e : entryOf value db = None → ld_entries db !! r = Some e → ne_value e ≠ value.
Proof.
  unfold entryOf. destruct (list_find _ _) as [[i x]|] eqn:E; [done|]. intros _ Hr. apply list_find_None in E.
  rewrite Forall_forall in E. apply (E (r, e)). by apply elem_of_map_to_list.
Qed.

(** Entries that come with a fresh id, for a value no other entry has. *)
Lemma anchored_more b db db' :
  (∀ r e, ld_entries db !! r = Some e → ld_entries db' !! r = Some e) → ld_handles db' = ld_handles db → anchored b db → anchored b db'.
Proof. intros He Hh H ref Hr. destruct (H ref Hr) as (h & ? & e & ? & ?). exists h. rewrite Hh. split; [done|]. exists e. split; [by apply He|done]. Qed.

(** A step that changes entries only. *)
Definition entries_step (db db' : LedgerDB) : Prop :=
  badges db' = badges db ∧ ld_handles db' = ld_handles db ∧ ld_locks db' = ld_locks db ∧ ld_born db ⊆ ld_born db' ∧
  (∀ r e, r ∈ ld_born db → ld_entries db' !! r = Some e → ld_entries db !! r = Some e) ∧
  (∀ r e, ld_entries db' !! r = Some e → r ∈ ld_born db') ∧
  (∀ r1 r2 e1 e2, ld_entries db' !! r1 = Some e1 → ld_entries db' !! r2 = Some e2 → ne_value e1 = ne_value e2 → r1 = r2).

Lemma entries_step_safe locking g G db db' :
  ledger_ok locking g db → entries_step db db' →
  (∀ b, b ∈ badges db → anchored b db → anchored b db') → ledger_ok locking g db' ∧ evolves G db db'.
Proof.
  intros [H1 H2 H3 H4 H5 H6 H7 H8] (Eb & Eh & El & Hborn & Hold & Hin & Huniq) Hanc. split.
  - split; rewrite ?Eb, ?Eh, ?El; try done.
    + intros b Hb Hg. by apply Hanc, H1.
    + intros b Hb. by apply Hborn, H4.
    + intros id Hid. by apply Hborn, H6.
  - split; rewrite ?Eb, ?Eh; try done. intros b Hb _. exists b. split_and!; try done. intros Ha. split; [done|by apply Hanc].
Qed.

Lemma createEntry_safe locking g G draw value handle badgeType db :
  ledger_ok locking g db →
  let p := createLedgerEntry draw value handle badgeType db in
  ledger_ok locking g p.2 ∧ evolves G db p.2 ∧ (∀ ref, p.1 = Some ref → named value ref p.2).
Proof.
  intros Hok. unfold createLedgerEntry. destruct (_ || _) eqn:E; cbn [fst snd]; [done|].
  apply orb_false_iff in E as [Ed%bool_decide_eq_false Ev%bool_decide_eq_false].
  assert (entryOf value db = None) as Hv by (destruct (entryOf value db); [by destruct Ev|done]).
  assert (ld_entries db !! draw = None) as Hn.
  { destruct (ld_entries db !! draw) as [e|] eqn:E; [|done]. destruct Ed. by eapply ok_entries. }
  apply and_assoc. split.
  - apply entries_step_safe; [done| |].
    + split_and!; [done..| | | |]; cbn [ld_born ld_entries set_born set_entries].
      * set_solver.
      * intros r e Hr. rewrite lookup_insert_ne; [done|]. by intros ->.
      * intros r e [[<- _]|[_ Hr]]%lookup_insert_Some; [set_solver|]. apply elem_of_union_r. by eapply ok_entries.
      * intros r1 r2 e1 e2 [[<- <-]|[Hn1 Hr1]]%lookup_insert_Some [[<- <-]|[Hn2 Hr2]]%lookup_insert_Some; cbn [ne_value]; intros He;
          [done|by destruct (entryOf_None _ _ _ _ Hv Hr2)|by destruct (entryOf_None _ _ _ _ Hv Hr1)|by eapply ok_values].
    + intros b _. apply anchored_more; [|done]. intros r e Hr. cbn. rewrite lookup_insert_ne; [done|]. intros <-. by rewrite Hn in Hr.
  - intros ref [= <-]. split; cbn; [set_solver|]. intros e. rewrite lookup_insert_eq. by intros [= <-].
Qed.

Lemma referenced_false ref db : referenced ref db = false → ∀ b, b ∈ badges db → ref_of b ≠ Some ref.
Proof.
  intros H b Hb Hr. eapply not_true_iff_false; [exact H|]. apply existsb_exists. exists b. split; [by apply list_elem_of_In|].
  by apply bool_decide_eq_true_2.
Qed.

(** An entry that no badge refers to may go. *)
Lemma anchored_delete b ref db :
  ref_of b ≠ Some ref → anchored b db → anchored b (set_entries (delete ref (ld_entries db)) db).
Proof.
  intros Hne H r Hr. destruct (H r Hr) as (h & Hh & e & He & Ho). exists h. split; [done|]. exists e. split; [|done]. cbn.
  rewrite lookup_delete_ne; [done|]. congruence.
Qed.

Lemma deleteEntry_safe locking g G ref handle db :
  ledger_ok locking g db → ledger_ok locking g (deleteEntry ref handle db) ∧ evolves G db (deleteEntry ref handle db).
Proof.
  intros Hok. unfold deleteEntry. destruct (ld_entries db !! ref) as [e|]; [|done]. destruct (_ && _) eqn:E; [|done].
  apply andb_true_iff in E as [_ Href%negb_true_iff]. apply entries_step_safe; [done| |].
  - split_and!; [done..| | |]; cbn [ld_entries set_entries]; intros *; rewrite ?lookup_delete_Some.
    + by intros _ [_ ?].
    + intros [_ H1]. exact (ok_entries _ _ _ Hok _ _ H1).
    + intros [_ H1] [_ H2]. by eapply ok_values.
  - intros b Hb. apply anchored_delete. by eapply referenced_false.
Qed.

Section Interim.
Context (w : MacWorld).

Definition interim_image (anchor badgeType : string) (value : list Z) : Prop := deriveDedupValue w anchor badgeType = Ok value.

Lemma interim_register_law (U : token → Prop) g db0 draw anchor badgeType handle :
  set_Forall U g →
  holds false U (fun r g' db => same g db0 r g' db ∧
    ∀ ref, r = Ok (Registered ref) ∨ r = Ok (AlreadyYours ref) → ∃ value, interim_image anchor badgeType value ∧ named value ref db)
    g db0 (interimRegister w draw anchor badgeType handle).
Proof using.
  intros HU. unfold interimRegister. destruct (deriveDedupValue w anchor badgeType) as [value|e] eqn:Ev.
  2: { unfold throwing, tbind. cbn. split; [done|]. by intros ref [?|?]. }
  rewrite throwing_ok. apply owns_act.
  intros F db HF HI HR. destruct (createEntry_safe false (g ∪ F) (g ∪ F) draw value handle badgeType db HI) as (HI' & Hev & Hn).
  exists g. split_and!; [done|done|done|by eapply evolves_mono; [|exact Hev]; set_solver|].
  assert (evolves g db0 (createLedgerEntry draw value handle badgeType db).2) as Hdb.
  { etrans; [exact HR|]. eapply evolves_mono; [|exact Hev]. set_solver. }
  destruct (createLedgerEntry draw value handle badgeType db) as [[id|] db1]; cbn [fst snd] in *.
  - split; [by split|]. intros ref [[= <-]|?]; [|done]. exists value. split; [done|by apply Hn].
  - apply owns_read; [apply _|done|]. intros F' db2 HF' HI2 HR2. destruct (entryOf value db2) as [[id e]|] eqn:Ee.
    2: { split; [split; [done|by etrans]|]. by intros ref [?|?]. }
    apply entryOf_Some in Ee as [Hid Hv]. case_bool_decide; (split; [split; [done|by etrans]|]); intros ref [[= ]|[= <-]].
    exists value. split; [done|]. split; [by eapply ok_entries|]. intros e'. rewrite Hid. by intros [= <-].
Qed.

Lemma interim_probe_law (U : token → Prop) g D db0 ref handle :
  set_Forall U g →
  (∀ F db, g ## F → ledger_ok false (g ∪ F) db → evolves g db0 db → entry_live ref handle db → ledger_ok false ((g ∖ D) ∪ F) db) →
  holds false U (fun r g' db => evolves g db0 db ∧ g' = match r with Ok true => g ∖ D | _ => g end ∧
    (r = Ok true → entry_live ref handle db) ∧ (r = Ok false → ¬ entry_live ref handle db))
    g db0 (entryExistsForOwner (interimBackend w) ref handle).
Proof using.
  intros HU HD. apply holds_query. intros F db HF HI HR.
  destruct (ld_entries db !! ref) as [e|] eqn:Ee; [destruct (decide (ne_ownerHandle e = handle)) as [Ho|Ho]|].
  - assert (entry_live ref handle db) as Hl by (by exists e). exists (g ∖ D). rewrite bool_decide_eq_true_2 by done.
    split_and!; [by intros x [Hx _]%elem_of_difference; apply HU|set_solver|by apply HD|done..].
  - exists g. rewrite bool_decide_eq_false_2 by done. split_and!; try done. intros _ (e' & He' & Ho'). congruence.
  - exists g. split_and!; try done. intros _ (e' & He' & _). congruence.
Qed.

#[export] Instance interim_laws : LedgerLaws (interimBackend w) false interim_image (fun _ => ∅).
Proof using.
  split.
  - intros ref x. by rewrite elem_of_empty.
  - done.
  - intros U g db0 draw anchor badgeType handle. apply interim_register_law.
  - intros U g D db0 ref handle. apply interim_probe_law.
  - intros U db0 ref handle _ F db HF HI HR. exists ∅. destruct (deleteEntry_safe false (∅ ∪ F) F ref handle db HI) as [H1 H2].
    split_and!; try done. split; [done|]. etrans; [exact HR|]. eapply evolves_mono; [|exact H2]. set_solver.
  - intros U A Q g db0 ref fn HU _ _ _ Hfn. specialize (Hfn (mret (Ok tt)) db0 ltac:(done) ltac:(done)).
    rewrite union_empty_r_L in Hfn. eapply owns_impl; [|exact Hfn]. intros r g' db (_ & _ & H). cbn in H. rewrite difference_empty_L in H. by apply H.
Qed.

End Interim.

(** ** The remote backend *)

Definition writes (req : SignetRequest) : bool :=
  match req with Register _ _ _ | Release _ _ | Reassign _ _ _ => true | _ => false end.

(** The documented behaviour of the service, on its ledger [m] and the ids it has drawn [b]; [prf] is
    the function under the pinned key that a verified evaluation reveals. *)
Record SignetSpec (w : SignetWorld) (prf : list Z → list Z) : Prop := {
  sp_reads : ∀ req s, writes req = false → (sg_serve w req s).2 = s;
  (* a value is registered once, under an id that was never used *)
  sp_register : ∀ v h t m b res m' b', sg_serve w (Register v h t) (m, b) = (res, (m', b')) →
    (m', b') = (m, b) ∨
    ∃ r value, (r ∉ b) ∧ sg_base64url w value = v ∧ (∀ r' e, m !! r' = Some e → ne_value e ≠ value) ∧
      m' = <[r := {| ne_value := value; ne_ownerHandle := h; ne_badgeType := t |}]> m ∧ b' = {[r]} ∪ b;
  (* the id that is answered is the one of the value *)
  sp_registered : ∀ v h t m b res m' b' r, sg_serve w (Register v h t) (m, b) = (res, (m', b')) → sr_status res = 200 →
    readRegistration w (sr_json res) = Ok (Registered r) ∨ readRegistration w (sr_json res) = Ok (AlreadyYours r) →
    ∃ e, m' !! r = Some e ∧ sg_base64url w (ne_value e) = v;
  (* 200 is an entry under the handle; 404 and 403 are the absence of one *)
  sp_disclosed : ∀ r h c m b, sr_status (sg_serve w (Disclose r h c) (m, b)).1 = 200 → ∃ e, m !! r = Some e ∧ ne_ownerHandle e = h;
  sp_absent : ∀ r h c m b e, sr_status (sg_serve w (Disclose r h c) (m, b)).1 = 404 ∨ sr_status (sg_serve w (Disclose r h c) (m, b)).1 = 403 →
    m !! r = Some e → ne_ownerHandle e ≠ h;
  (* a release concerns one entry *)
  sp_release : ∀ r h m b res m' b', sg_serve w (Release r h) (m, b) = (res, (m', b')) → b' = b ∧ (m' = m ∨ m' = delete r m);
  sp_finalize : ∀ input elt proof v, sg_finalize w input elt proof = Ok v → v = prf input;
  sp_base64url : Inj (=) (=) (sg_base64url w);
}.

Section Remote.
Context (w : SignetWorld) (prf : list Z → list Z) (spec : SignetSpec w prf).

Definition signet_image (anchor badgeType : string) (value : list Z) : Prop :=
  ∃ input, buildVoprfDedupInput anchor badgeType = Ok input ∧ value = prf input.

(** *** Requests that read *)

Lemma serveOn_quiet req db : writes req = false → quiet db (serveOn w req db).2.
Proof using spec.
  intros Hr. unfold serveOn. pose proof (sp_reads _ _ spec req (ld_entries db, ld_born db) Hr) as H.
  destruct (sg_serve w req _) as [res [m b]]. cbn in H. injection H as -> ->. done.
Qed.

Lemma send_quiet req : writes req = false → steps_in quiet (send w req).
Proof using spec.
  intros Hr. apply steps_in_act. intros db. destruct (sg_net w (ld_calls db)) as [|e|e]; cbn [snd].
  - pose proof (serveOn_quiet req (set_calls (S (ld_calls db)) db) Hr) as H. by destruct (serveOn w req _) as [res db2].
  - done.
  - exact (serveOn_quiet req (set_calls _ db) Hr).
Qed.

Lemma throwing_quiet {A : Type} (r : result string A) : steps_in quiet (throwing r).
Proof using. done. Qed.

Lemma sendT_quiet req : writes req = false → steps_in quiet (sendT w req).
Proof using spec. intros Hr. apply steps_in_bind; [by apply send_quiet|done]. Qed.

Lemma ensurePinVerified_quiet : steps_in quiet (ensurePinVerified w).
Proof using spec.
  apply steps_in_bind; [|done]. unfold verifyPin. apply steps_in_bind; [by apply steps_in_read; apply _|].
  intros [|]; [done|]. destruct (_ ≫= _) as [expected|e]; [|done]. apply steps_in_bind; [by apply send_quiet|].
  intros [res|e]; [|done]. destruct (checkPublicKey expected res); [|done]. by apply steps_in_bind; [apply steps_in_write|].
Qed.

Lemma evaluateDedupValue_quiet anchor badgeType : steps_in quiet (evaluateDedupValue w anchor badgeType).
Proof using spec.
  unfold evaluateDedupValue. apply quiet_tbind; [apply throwing_quiet|]. intros input. apply quiet_tbind; [apply ensurePinVerified_quiet|].
  intros _. apply quiet_tbind; [apply throwing_quiet|]. intros _. destruct (sg_blind w input) as [blinded|]; [|done].
  apply quiet_tbind; [by apply sendT_quiet|]. intros res. destruct (negb _); [done|].
  apply quiet_tbind; [apply throwing_quiet|]. intros ev. apply quiet_tbind; [apply throwing_quiet|]. intros v. by destruct (Nat.eqb _ _).
Qed.

(** Whatever the service answers, a value that is accepted is the image of the anchor. *)
Lemma evaluateDedupValue_image anchor badgeType :
  stays (fun _ => True) (fun r => ∀ value, r = Ok value → signet_image anchor badgeType value) (evaluateDedupValue w anchor badgeType).
Proof using spec.
  unfold evaluateDedupValue. destruct (buildVoprfDedupInput anchor badgeType) as [input|e] eqn:Ei; [|done]. rewrite throwing_ok.
  apply stays_tbind. eapply stays_impl; [|by eapply stays_frame; [|apply ensurePinVerified_quiet]]. intros [u|e] _; [|done].
  destruct (pin w) as [p|e]; [|done]. rewrite throwing_ok. destruct (sg_blind w input) as [blinded|]; [|done].
  apply stays_tbind. eapply stays_impl; [|by eapply stays_frame; [|by apply sendT_quiet]]. intros [res|e] _; [|done].
  destruct (negb _); [done|]. destruct (readEvaluation w (sr_json res)) as [ev|e]; [|done]. rewrite throwing_ok.
  destruct (sg_finalize w input ev.1 ev.2) as [v|e] eqn:Ef; [|done]. rewrite throwing_ok. destruct (Nat.eqb _ _); [|done].
  intros value [= <-]. exists input. split; [done|]. by eapply sp_finalize.
Qed.

(** *** Requests that write *)

(** A request whose effect, lost answer or not, keeps the ledger when [P] holds. *)
Definition keeps (P : LedgerDB → Prop) (req : SignetRequest) : Prop :=
  ∀ g G db, ledger_ok true g db → P db → ledger_ok true g (serveOn w req db).2 ∧ evolves G db (serveOn w req db).2.

Lemma register_keeps v h t : keeps (fun _ => True) (Register v h t).
Proof using spec.
  intros g G db Hok _. unfold serveOn. destruct (sg_serve w _ _) as [res [m b]] eqn:E. cbn [snd].
  destruct (sp_register _ _ spec _ _ _ _ _ _ _ _ E) as [[= -> ->]|(r & value & Hr & _ & Hv & -> & ->)].
  { split; [by eapply quiet_ok|by apply quiet_evolves]. }
  assert (ld_entries db !! r = None) as Hn.
  { destruct (ld_entries db !! r) as [e|] eqn:Ee; [|done]. destruct Hr. by eapply ok_entries. }
  apply entries_step_safe; [done| |].
  - split_and!; [done..| | | |]; cbn [ld_born ld_entries set_born set_entries].
    + set_solver.
    + intros r' e Hr'. rewrite lookup_insert_ne; [done|]. by intros ->.
    + intros r' e [[<- _]|[_ Hr']]%lookup_insert_Some; [set_solver|]. apply elem_of_union_r. by eapply ok_entries.
    + intros r1 r2 e1 e2 [[<- <-]|[Hn1 Hr1]]%lookup_insert_Some [[<- <-]|[Hn2 Hr2]]%lookup_insert_Some; cbn [ne_value]; intros He;
        [done|by destruct (Hv _ _ Hr2)|by destruct (Hv _ _ Hr1)|by eapply ok_values].
  - intros bd _. apply anchored_more; [|done]. intros r' e Hr'. cbn. rewrite lookup_insert_ne; [done|]. intros <-. by rewrite Hn in Hr'.
Qed.

Lemma release_keeps r h : keeps (fun db => ∀ b, b ∈ badges db → ref_of b ≠ Some r) (Release r h).
Proof using spec.
  intros g G db Hok Hno. unfold serveOn. destruct (sg_serve w _ _) as [res [m b]] eqn:E. cbn [snd].
  destruct (sp_release _ _ spec _ _ _ _ _ _ _ E) as [-> [Em|Em]]; rewrite Em.
  { split; [by eapply quiet_ok|by apply quiet_evolves]. }
  apply entries_step_safe; [done| |].
  - split_and!; [done..| | |]; cbn [ld_entries set_entries set_born]; intros *; rewrite ?lookup_delete_Some.
    + by intros _ [_ ?].
    + intros [_ H1]. exact (ok_entries _ _ _ Hok _ _ H1).
    + intros [_ H1] [_ H2]. by eapply ok_values.
  - intros bd Hb Ha. apply (anchored_delete bd r db); [by apply Hno|done].
Qed.

(** A call, by what it answers: the service worked on a database that satisfied [P]. *)
Lemma send_holds (U : token → Prop) P req g db0 :
  set_Forall U g → keeps P req → (∀ F db, g ## F → ledger_ok true (g ∪ F) db → evolves g db0 db → P (set_calls (S (ld_calls db)) db)) →
  holds true U (fun r g' db => same g db0 r g' db ∧ ∀ res, r = Ok res → ∃ g1 db1, ledger_ok true g1 db1 ∧ serveOn w req db1 = (res, db))
    g db0 (send w req).
Proof using spec.
  intros HU Hk HP. apply owns_step. intros F db HF HI HR.
  assert (ledger_ok true (g ∪ F) (set_calls (S (ld_calls db)) db)) as HI1 by (by eapply quiet_ok).
  destruct (Hk (g ∪ F) (g ∪ F) _ HI1 (HP F db HF HI HR)) as [HI2 Hev].
  assert (∀ G, G ⊆ g ∪ F → evolves G db (serveOn w req (set_calls (S (ld_calls db)) db)).2) as Hev2.
  { intros G HG. etrans; [|eapply evolves_mono; [exact HG|exact Hev]]. by apply quiet_evolves. }
  assert (evolves g db0 (serveOn w req (set_calls (S (ld_calls db)) db)).2) as Hg by (etrans; [exact HR|]; apply Hev2; set_solver).
  exists g. cbv zeta. destruct (sg_net w (ld_calls db)) as [|e|e].
  - destruct (serveOn w req _) as [res db2] eqn:Es; rewrite ?Es; cbn [fst snd] in *.
    split_and!; [done|done|done|apply Hev2; set_solver|done|]. intros ? [= <-]. by exists (g ∪ F), (set_calls (S (ld_calls db)) db).
  - cbn [fst snd]. split_and!; [done|done|done|by apply quiet_evolves| |done]. split; [done|]. etrans; [exact HR|]. by apply quiet_evolves.
  - cbn [fst snd]. split_and!; [done|done|done|apply Hev2; set_solver|done|done].
Qed.

Lemma sendT_holds (U : token → Prop) P req g db0 :
  set_Forall U g → keeps P req → (∀ F db, g ## F → ledger_ok true (g ∪ F) db → evolves g db0 db → P (set_calls (S (ld_calls db)) db)) →
  holds true U (fun r g' db => same g db0 r g' db ∧ ∀ res, r = Ok res → ∃ g1 db1, ledger_ok true g1 db1 ∧ serveOn w req db1 = (res, db))
    g db0 (sendT w req).
Proof using spec.
  intros HU Hk HP. eapply owns_then; [by eapply send_holds|]. intros [res|e] g' db [Hs Hres]; (split; [exact Hs|]); [|done].
  intros res' [= <-]. by apply Hres.
Qed.

Lemma signet_register_law (U : token → Prop) g db0 anchor badgeType handle :
  set_Forall U g →
  holds true U (fun r g' db => same g db0 r g' db ∧
    ∀ ref, r = Ok (Registered ref) ∨ r = Ok (AlreadyYours ref) → ∃ value, signet_image anchor badgeType value ∧ named value ref db)
    g db0 (signetRegister w anchor badgeType handle).
Proof using spec.
  intros HU. eapply owns_thenT; [by eapply quiet_answers; [done|apply evaluateDedupValue_quiet|apply evaluateDedupValue_image]| |].
  { intros e g' db [H _]. split; [done|]. by intros ref [?|?]. }
  intros value g' db [[-> Hev] Him]. specialize (Him value eq_refl).
  eapply owns_thenT; [by eapply sendT_holds; [done|apply register_keeps|]| |].
  { intros e g' db1 [[-> Hev1] _]. split; [split; [done|by etrans]|]. by intros ref [?|?]. }
  intros res g' db1 [[-> Hev1] Hres]. destruct (Hres res eq_refl) as (g1 & db2 & Hok & Hs).
  destruct (sr_status res =? 409) eqn:E1; [split; [split; [done|by etrans]|]; by intros ref [?|?]|].
  destruct (sr_status res =? 200) eqn:E2; cbn [negb]; [|split; [split; [done|by etrans]|]; by intros ref [?|?]].
  split; [split; [done|by etrans]|]. intros ref Href. exists value. split; [done|]. unfold serveOn in Hs.
  pose proof (register_keeps (sg_base64url w value) handle badgeType g1 g1 db2 Hok I) as [Hok1 _]. unfold serveOn in Hok1.
  destruct (sg_serve w _ _) as [res' [m b]] eqn:Es. injection Hs as -> <-. cbn [snd] in Hok1.
  destruct (sp_registered _ _ spec _ _ _ _ _ _ _ _ ref Es) as (e & He & Hv); [by apply Z.eqb_eq| |].
  { destruct (readRegistration w (sr_json res)) as [[]|]; destruct Href as [Href|Href]; simplify_eq/=; auto. }
  split; [by eapply (ok_entries _ _ _ Hok1)|]. cbn. intros e'. rewrite He. intros [= <-]. by apply (sp_base64url _ _ spec).
Qed.

(** *** The probe *)

Lemma sendT_then {A : Type} req (k : SignetResponse → effect A) : tbind (sendT w req) k = (r ← send w req; tbind (throwing r) k).
Proof using. done. Qed.

(** The status of a probe tells whether the entry is there. *)
Lemma probe_status ref handle db :
  let '(res, db') := serveOn w (Disclose ref handle PROBE_CLIENT_ID) db in
  quiet db db' ∧ (sr_status res = 200 → entry_live ref handle db) ∧ (sr_status res = 404 ∨ sr_status res = 403 → ¬ entry_live ref handle db).
Proof using spec.
  pose proof (serveOn_quiet (Disclose ref handle PROBE_CLIENT_ID) db eq_refl) as Hq. unfold serveOn in *.
  pose proof (sp_disclosed _ _ spec ref handle PROBE_CLIENT_ID (ld_entries db) (ld_born db)) as H1.
  pose proof (sp_absent _ _ spec ref handle PROBE_CLIENT_ID (ld_entries db) (ld_born db)) as H2.
  destruct (sg_serve w _ _) as [res [m b]]. cbn [fst snd] in *. split_and!; [done|exact H1|]. intros Hs (e & He & Ho). by apply (H2 e).
Qed.

Lemma signet_probe_law (U : token → Prop) g D db0 ref handle :
  set_Forall U g →
  (∀ F db, g ## F → ledger_ok true (g ∪ F) db → evolves g db0 db → entry_live ref handle db → ledger_ok true ((g ∖ D) ∪ F) db) →
  holds true U (fun r g' db => evolves g db0 db ∧ g' = match r with Ok true => g ∖ D | _ => g end ∧
    (r = Ok true → entry_live ref handle db) ∧ (r = Ok false → ¬ entry_live ref handle db))
    g db0 (signetExists w ref handle).
Proof using spec.
  intros HU HD. unfold signetExists. eapply quiet_thenT; [done|apply ensurePinVerified_quiet|done|]. intros _ db1 Hev1.
  rewrite sendT_then. apply owns_act. intros F db HF HI HR. cbv zeta.
  assert (evolves g db0 db) as Hdb by (by etrans). set (db2 := set_calls (S (ld_calls db)) db).
  assert (∀ db', quiet db2 db' → ledger_ok true (g ∪ F) db' ∧ evolves F db db' ∧ evolves g db0 db') as Hquiet.
  { intros db' Hq. assert (quiet db db') as Hq' by (etrans; [|exact Hq]; done).
    split_and!; [by eapply quiet_ok|by apply quiet_evolves|]. etrans; [exact Hdb|]. by apply quiet_evolves. }
  pose proof (probe_status ref handle db2) as Hp. destruct (serveOn w _ db2) as [res db3] eqn:Es. destruct Hp as (Hq & Hlive & Hdead).
  destruct (Hquiet db3 Hq) as (HI3 & HF3 & Hg3).
  destruct (sg_net w (ld_calls db)) as [|e|e]; rewrite ?Es; cbn [fst snd].
  2, 3: exists g; destruct (Hquiet db2 ltac:(done)) as (? & ? & ?); split_and!; try done; unfold throwing, tbind; cbn; by split_and!.
  destruct (sr_status res =? 200) eqn:E200.
  - assert (entry_live ref handle db3) as Hl.
    { destruct (Hlive ltac:(by apply Z.eqb_eq)) as (e & He & Ho). exists e. destruct Hq as (_ & -> & _). done. }
    exists (g ∖ D). rewrite throwing_ok, E200.
    split_and!; [by intros x [Hx _]%elem_of_difference; apply HU|set_solver|by apply HD|done|by split_and!].
  - exists g. rewrite throwing_ok, E200. split_and!; [done..|]. destruct (_ || _) eqn:E; (split_and!; [done..|]); [|done].
    intros _. apply orb_true_iff in E. rewrite !Z.eqb_eq in E. intros (e & He & Ho). apply (Hdead E). exists e.
    destruct Hq as (_ & Hq & _). rewrite Hq in He. done.
Qed.

(** *** The lock *)

Lemma locks_evolve G x db : evolves G db (set_locks x db).
Proof using. split; try done. intros b Hb _. by exists b. Qed.

Lemma acquire_holds (U : token → Prop) n ref g db0 :
  set_Forall U g → U (Locked ref) →
  holds true U (fun got g' db => evolves g db0 db ∧ g' = if (got : bool) then g ∪ {[Locked ref]} else g) g db0 (acquire n ref).
Proof using spec.
  intros HU Hl. assert (∀ base, evolves g base db0 →
    holds true U (fun got g' db => evolves g base db ∧ g' = if (got : bool) then g ∪ {[Locked ref]} else g) g db0 (acquire n ref)) as H; [|by apply H].
  revert db0. induction n as [|n IH]; intros db0 base Hb; [done|]. apply owns_act. intros F db HF HI HR. unfold tryLock.
  case_bool_decide as Hin; cbn [fst snd].
  { exists g. split_and!; [done..|]. apply IH. by etrans. }
  assert (Locked ref ∉ g ∪ F) as Hno by (by rewrite <-(ok_locks _ _ _ HI)).
  exists (g ∪ {[Locked ref]}). split_and!.
  - intros x [Hx| ->%elem_of_singleton]%elem_of_union; [by apply HU|done].
  - set_solver.
  - destruct HI as [H1 H2 H3 H4 H5 H6 H7 H8]. split; try done; cbn [ld_locks set_locks ld_tables].
    + intros b Hbd Hg. apply H1; [done|]. set_solver.
    + intros id Hid. apply H6. set_solver.
    + intros r. rewrite elem_of_union, elem_of_singleton, H7. set_solver.
  - apply locks_evolve.
  - split; [|done]. etrans; [exact Hb|]. etrans; [exact HR|]. apply locks_evolve.
Qed.

(** A window runs with the lock, and ends without it. *)
Lemma signet_window_law (U : token → Prop) (A : Type) (Q : result Thrown A → gset token → LedgerDB → Prop) g db0 ref (fn : effect unit → effect A) :
  set_Forall U g → (∀ r, U (Locked r)) → (∀ e db, evolves g db0 db → Q (Err e) g db) →
  (∀ alive db, evolves g db0 db →
    (∀ g' db', set_Forall U g' → holds true U (same g' db') g' db' alive) →
    holds true U (fun r g' db' => {[Locked ref]} ⊆ g' ∧ set_Forall U g' ∧ ∀ db'', evolves (g' ∖ {[Locked ref]}) db' db'' → Q r (g' ∖ {[Locked ref]}) db'')
      (g ∪ {[Locked ref]}) db (fn alive)) →
  holds true U Q g db0 (withSignetEntryLock w ref fn).
Proof using spec.
  intros HU Hl He Hfn. eapply owns_then; [by apply acquire_holds|]. intros got g' db [Hev ->]. destruct got; cbn [negb]; [|by apply He].
  eapply owns_then; [apply Hfn; [done|]|].
  { intros g' db' Hg'. apply quiet_holds; [done|]. apply steps_in_bind; [apply steps_in_read; apply _|]. done. }
  intros r g' db1 (Hsub & HU' & HQ). assert (Locked ref ∈ g') as Hin by set_solver. apply owns_act. intros F db2 HF HI HR. cbn [fst snd].
  exists (g' ∖ {[Locked ref]}). split_and!.
  - intros x [Hx _]%elem_of_difference. by apply HU'.
  - set_solver.
  - destruct HI as [H1 H2 H3 H4 H5 H6 H7 H8]. split; try done; cbn [ld_locks set_locks ld_tables unlock].
    + intros b Hbd Hg. apply H1; [done|]. set_solver.
    + intros id Hid. apply H6. set_solver.
    + intros r'. rewrite elem_of_difference, elem_of_singleton, H7. set_solver.
  - apply locks_evolve.
  - apply HQ. etrans; [by eapply evolves_mono; [|exact HR]; set_solver|]. apply locks_evolve.
Qed.

Lemma siblings_none ref db : siblings ref db = 0%nat → ∀ b, b ∈ badges db → ref_of b ≠ Some ref.
Proof using.
  intros Hn%nil_length_inv b Hb Hr. apply (not_elem_of_nil b). rewrite <-Hn. by apply list_elem_of_filter.
Qed.

(** With the lock held, an entry without badges still has none when it is released. *)
Lemma signet_release_law (U : token → Prop) db0 ref handle :
  (∀ r, U (Locked r)) → holds true U (same ∅ db0) ∅ db0 (signetRelease w ref handle).
Proof using spec.
  intros Hl. eapply quiet_thenT; [by intros x Hx%not_elem_of_empty|apply ensurePinVerified_quiet|done|]. intros _ db1 Hev1.
  apply signet_window_law; [by intros x Hx%not_elem_of_empty|done|intros e db Hev; split; [done|by etrans]|].
  intros alive db2 Hev2 Halive. rewrite union_empty_l_L. set (g := {[Locked ref]} : gset token).
  assert (set_Forall U g) as HU by (by intros x ->%elem_of_singleton).
  assert (∀ db, evolves g db2 db → {[Locked ref]} ⊆ g ∧ set_Forall U g ∧ ∀ db'', evolves (g ∖ {[Locked ref]}) db db'' → same ∅ db0 (Ok tt : result Thrown unit) (g ∖ {[Locked ref]}) db'') as Hend.
  { intros db Hdb. split; [done|]. split; [done|]. intros db'' Hdb''. unfold g in *. rewrite difference_diag_L in *. split; [done|].
    etrans; [exact Hev1|]. etrans; [exact Hev2|]. etrans; [|exact Hdb'']. eapply evolves_mono; [|exact Hdb]. set_solver. }
  apply owns_read; [apply _|done|]. intros F db3 HF3 HI3 Hev3. destruct (Nat.ltb 0 _) eqn:En; [by apply Hend|].
  apply Nat.ltb_ge in En. assert (∀ b, b ∈ badges db3 → ref_of b ≠ Some ref) as Hno by (apply siblings_none; lia).
  eapply owns_thenT; [by apply Halive|intros e g' db [-> Hdb]; apply Hend; by etrans|].
  intros _ g' db4 [-> Hev4]. eapply owns_thenT; [eapply sendT_holds; [done|apply release_keeps|]|..].
  - intros F4 db5 _ _ Hev5. refine (ev_locked g db3 db5 _ ref _ Hno); [by etrans|set_solver].
  - intros e g' db [[-> Hdb] _]. apply Hend. etrans; [exact Hev3|]. by etrans.
  - intros res g' db [[-> Hdb] _]. assert (evolves g db2 db) as H by (etrans; [exact Hev3|]; by etrans). by repeat case_match; apply Hend.
Qed.

#[export] Instance signet_laws : LedgerLaws (signetBackend w) true signet_image (fun ref => {[Locked ref]}).
Proof using spec.
  split.
  - intros ref x. by rewrite elem_of_singleton.
  - intros ref _. set_solver.
  - intros U g db0 draw anchor badgeType handle. apply signet_register_law.
  - intros U g D db0 ref handle. apply signet_probe_law.
  - intros U db0 ref handle. apply signet_release_law.
  - intros U A Q g db0 ref fn HU Hl _. by apply signet_window_law.
Qed.

End Remote.

(** C16: The remote backend keeps the promises of the ledger whatever calls are lost and whatever
    answers do not arrive, when the service behaves as documented: a registration names the entry of
    the credential, a probe tells whether it is there, a release takes nothing that a badge refers
    to, and a mint window has the lock of its entry to itself. *)
Theorem signet_refines_ledger w prf :
  SignetSpec w prf → LedgerLaws (signetBackend w) true (signet_image prf) (fun ref => {[Locked ref]}).
Proof. apply signet_laws. Qed.

(** ** A service *)

Module SignetDemo.

Fixpoint bits (p : positive) : string :=
  match p with xH => "" | xO p => String "0"%char (bits p) | xI p => String "1"%char (bits p) end.
Fixpoint unbits (s : string) : positive :=
  match s with EmptyString => xH | String c s => if bool_decide (c = "0"%char) then xO (unbits s) else xI (unbits s) end.

Definition text (value : list Z) : string := bits (encode value).
Definition untext (s : string) : option (list Z) :=
  value ← decode (unbits s); if bool_decide (text value = s) then Some value else None.

Lemma untext_text value : untext (text value) = Some value.
Proof.
  unfold untext, text. assert (∀ p, unbits (bits p) = p) as Hb by (intros p; induction p; simpl; by f_equal).
  rewrite Hb, decode_encode. cbn. by rewrite bool_decide_eq_true_2.
Qed.

Lemma untext_Some s value : untext s = Some value → text value = s.
Proof. unfold untext. destruct (decode (unbits s)) as [v|]; cbn; [|done]. case_bool_decide; [|done]. by intros [= <-]. Qed.

Definition key : string := "AAAAAAAAAAAAAAAAAAAAAAAAAAAAAAAAAAAAAAAAAAA".

Definition answer (status : Z) (fields : list (string * string)) : SignetResponse :=
  {| sr_status := status; sr_json := JObj ((fun '(k, v) => (k, JStr v)) <$> fields) |}.

Definition find (value : list Z) (m : gmap string NullifierEntry) : option (string * NullifierEntry) :=
  (fun x => x.2) <$> list_find (fun e => ne_value e.2 = value) (map_to_list m).

Definition serve (req : SignetRequest) (s : gmap string NullifierEntry * gset string) : SignetResponse * (gmap string NullifierEntry * gset string) :=
  let '(m, b) := s in
  match req with
  | GetPublicKey => (answer 200 [("suite", "ristretto255-SHA512"); ("public_key", key)], s)
  | Evaluate _ => (answer 200 [("evaluation_element", "e"); ("proof", "p")], s)
  | Register v h t =>
      match untext v with
      | None => (answer 400 [], s)
      | Some value =>
          match find value m with
          | Some (r, e) => (if bool_decide (ne_ownerHandle e = h) then answer 200 [("status", "already_yours"); ("entry_ref", r)] else answer 409 [], s)
          | None => let r := base.fresh b in
                    (answer 200 [("status", "registered"); ("entry_ref", r)],
                     (<[r := {| ne_value := value; ne_ownerHandle := h; ne_badgeType := t |}]> m, {[r]} ∪ b))
          end
      end
  | Disclose r h _ =>
      (match m !! r with
       | None => answer 404 []
       | Some e => if bool_decide (ne_ownerHandle e = h) then answer 200 [("nullifier", "mnv1:" +:+ key)] else answer 403 []
       end, s)
  | Release r h =>
      match m !! r with
      | Some e => if bool_decide (ne_ownerHandle e = h) then (answer 200 [], (delete r m, b)) else (answer 403 [], s)
      | None => (answer 200 [], s)
      end
  | Reassign _ _ _ => (answer 404 [], s)
  end.

Definition prf (input : list Z) : list Z := take 64 (input ++ replicate 64 0).

(** A service that stops answering after [up] calls. *)
Definition w (up : nat) : SignetWorld := {|
  sg_config := Ok {| sc_baseUrl := "https://signet"; sc_clientCert := ""; sc_clientKey := ""; sc_caCert := ""; sc_pinnedPublicKey := key;
                     sc_requestTimeoutMs := None |};
  sg_net n := if Nat.ltb n up then NetOk else NetLate "nullifier: signet request timed out";
  sg_serve := serve;
  sg_blind _ := Some "blinded";
  sg_finalize input _ _ := Ok (prf input);
  sg_base64url := text;
  sg_unbase64url s := replicate (if bool_decide (s = "e") || bool_decide (s = key) then 32 else if bool_decide (s = "p") then 64 else 16) 0;
  sg_patience := 5;
|}.

Lemma find_Some value m r e : find value m = Some (r, e) → m !! r = Some e ∧ ne_value e = value.
Proof.
  unfold find. destruct (list_find _ _) as [[i x]|] eqn:E; [|done]. intros [= ->]. apply list_find_Some in E as (Hi & Hv & _).
  split; [|done]. apply elem_of_map_to_list. by eapply list_elem_of_lookup_2.
Qed.

Lemma find_None value m r e : find value m = None → m !! r = Some e → ne_value e ≠ value.
Proof.
  unfold find. destruct (list_find _ _) as [[i x]|] eqn:E; [done|]. intros _ Hr. apply list_find_None in E. rewrite Forall_forall in E.
  apply (E (r, e)). by apply elem_of_map_to_list.
Qed.

(** What an answer with an id is read as. *)
Lemma read_ref up status r r' :
  status = "registered" ∨ status = "already_yours" →
  readRegistration (w up) (sr_json (answer 200 [("status", status); ("entry_ref", r)])) = Ok (Registered r') ∨
  readRegistration (w up) (sr_json (answer 200 [("status", status); ("entry_ref", r)])) = Ok (AlreadyYours r') → r' = r.
Proof.
  unfold readRegistration. intros [->| ->]; simpl; destruct (b64urlDecode (w up) r "entry_ref" 16); cbn; naive_solver.
Qed.

Lemma spec up : SignetSpec (w up) prf.
Proof.
  split; cbn [w sg_serve sg_base64url sg_finalize].
  - intros [] [m b]; try done.
  - intros v h t m b res m' b'. cbn. destruct (untext v) as [value|] eqn:Ev; [|intros [= _ <- <-]; by left].
    destruct (find value m) as [[r e]|] eqn:Ef; [intros [= _ <- <-]; by left|]. intros [= _ <- <-]. right. exists (base.fresh b), value.
    split_and!; [apply is_fresh|by apply untext_Some|intros r' e; by apply find_None|done|done].
  - intros v h t m b res m' b' r. cbn. destruct (untext v) as [value|] eqn:Ev; [|by intros [= <- _ _]]. apply untext_Some in Ev as <-.
    destruct (find value m) as [[r0 e]|] eqn:Ef.
    + case_bool_decide; intros [= <- <- <-] Hs; [|done]. intros Hr%read_ref; [|by right]. subst r0.
      apply find_Some in Ef as [Hm Hv]. exists e. by rewrite Hv.
    + intros [= <- <- <-] _ Hr%read_ref; [|by left]. subst r. eexists. by rewrite lookup_insert_eq.
  - intros r h c m b. cbn. destruct (m !! r) as [e|]; [|done]. case_bool_decide; [|done]. intros _. by exists e.
  - intros r h c m b e Hs He. cbn in Hs. rewrite He in Hs. case_bool_decide; [|done]. by destruct Hs.
  - intros r h m b res m' b'. cbn. destruct (m !! r) as [e|]; [|intros [= _ <- <-]; auto]. case_bool_decide; intros [= _ <- <-]; auto.
  - by intros input elt proof v [= <-].
  - intros x y Hxy. assert (untext (text x) = untext (text y)) as H by (by rewrite Hxy). rewrite !untext_text in H. by injection H.
Qed.

Definition empty : LedgerDB := {|
  ld_users := ∅; ld_handles := ∅; ld_tables := {| bt_badges := []; bt_eligibilities := ∅; bt_audit := [] |};
  ld_entries := ∅; ld_locks := ∅; ld_born := ∅; ld_checks := ∅; ld_calls := 0; ld_pinVerified := false;
  ld_sessions := ∅; ld_enrollments := ∅;
|}.

End SignetDemo.

Lemma signet_refines_ledger_witness :
  LedgerLaws (signetBackend (SignetDemo.w 7)) true (signet_image SignetDemo.prf) (fun ref => {[Locked ref]}).
Proof. apply (signet_refines_ledger (SignetDemo.w 7) SignetDemo.prf). apply SignetDemo.spec. Defined.

(** ** Drift of disclosed values *)

Section Pinned.
Context (hash : list Z → list Z).

(** Baselines are for good. *)
Definition checks_kept (g : gset token) (db db' : LedgerDB) : Prop := ∀ k c, ld_checks db !! k = Some c → ld_checks db' !! k = Some c.

#[local] Instance checks_kept_preorder g : PreOrder (checks_kept g).
Proof. split; [by intros db k c|]. intros d1 d2 d3 H12 H23 k c Hk. by apply H23, H12. Qed.

Definition baseline (entryRef clientId nrp : string) (db : LedgerDB) : Prop :=
  ∃ salt, ld_checks db !! (entryRef, clientId) = Some (salt, digest hash salt nrp).

(** A value that was accepted is the one of the baseline. *)
Lemma drift_holds U salt entryRef clientId nrp db0 :
  owns (fun _ _ => True) checks_kept U (fun (ok : bool) g db => ok = true → baseline entryRef clientId nrp db) ∅ db0
    (assertNullifierDriftConsistent hash salt entryRef clientId nrp).
Proof.
  assert (set_Forall U (∅ : gset token)) as HU by (by intros x Hx%not_elem_of_empty).
  assert (∀ (db : LedgerDB) s c, ld_checks db !! (entryRef, clientId) = Some (s, c) → bool_decide (c = digest hash s nrp) = true →
    baseline entryRef clientId nrp db) as Hfound by (intros db s c Hc ->%bool_decide_eq_true; by exists s).
  apply owns_read; [apply _|done|]. intros F db _ _ _. destruct (ld_checks db !! _) as [[s c]|] eqn:E; [exact (Hfound db s c E)|].
  apply owns_act. intros F1 db1 HF1 _ _. exists ∅. unfold createCheck. destruct (ld_checks db1 !! _) as [[s c]|] eqn:E1; cbn [fst snd].
  - split_and!; [done..|]. apply owns_read; [apply _|done|]. intros F2 db2 _ _ _.
    destruct (ld_checks db2 !! _) as [[s' c']|] eqn:E2; [exact (Hfound db2 s' c' E2)|done].
  - split_and!; [done..| |].
    + intros k c Hk. cbn. rewrite lookup_insert_ne; [done|]. intros <-. congruence.
    + intros _. exists salt. cbn. by rewrite lookup_insert_eq.
Qed.

End Pinned.

(** A disclosure with the salt it would record, its entry, client and value. *)
Definition disclosure_check (hash : list Z → list Z) (q : list Z * string * string * string) : thread LedgerDB bool :=
  let '(salt, entryRef, clientId, nrp) := q in assertNullifierDriftConsistent hash salt entryRef clientId nrp.

(** C24: Whatever requests run interleaved, the values a relying party was shown of one entry agree: two
    disclosures that passed the check carried the same value, unless the hash collides. *)
Theorem drift_pins_value hash (qs : list (list Z * string * string * string)) db sched :
  let ts := (pool_run sched (disclosure_check hash <$> qs, db)).1 in
  ∀ i j s1 s2 entryRef clientId n1 n2,
    qs !! i = Some (s1, entryRef, clientId, n1) → qs !! j = Some (s2, entryRef, clientId, n2) → ts !! i = Some (Ret true) → ts !! j = Some (Ret true) →
    n1 = n2 ∨ ∃ x y, x ≠ y ∧ hash x = hash y.
Proof.
  intros ts i j s1 s2 entryRef clientId n1 n2 Hi Hj Hti Htj.
  set (Q := fun i (ok : bool) (g : gset token) db' => ∀ s e c n, qs !! i = Some (s, e, c, n) → ok = true → baseline hash e c n db').
  destruct (owns_pool (fun _ _ => True) checks_kept (H0 := checks_kept_preorder) ltac:(done) (fun _ _ => True) Q (fun _ => ∅) (disclosure_check hash <$> qs) db sched) as [g (Ho & _ & _)].
  { intros k ok g db1 db2 Hk HQ s e c n Hq Hok. destruct (HQ s e c n Hq Hok) as [salt Hs]. exists salt. by apply Hk. }
  { split_and!; [|set_solver|done]. intros k t. rewrite list_lookup_fmap. intros ([[[s e] c] n] & Hq & ->)%fmap_Some. split; [|done].
    eapply owns_impl; [|apply drift_holds]. intros ok g' db' HQ s' e' c' n' Hq'. rewrite Hq in Hq'. by injection Hq' as <- <- <- <-. }
  destruct (proj1 (Ho i _ Hti) _ _ _ _ Hi eq_refl) as [x1 H1]. destruct (proj1 (Ho j _ Htj) _ _ _ _ Hj eq_refl) as [x2 H2].
  rewrite H1 in H2. injection H2 as <- Hd. destruct (decide (n1 = n2)) as [->|Hne]; [by left|]. right.
  exists (x1 ++ utf8 n1), (x1 ++ utf8 n2). split; [|done]. intros Heq%app_inv_head. by apply Hne, utf8_inj.
Qed.

(** Two disclosures race for the baseline; a third with another value is refused. *)
Lemma drift_pins_value_witness :
  let qs := [([1], "r", "rp", "mnv1:a"); ([2], "r", "rp", "mnv1:a"); ([3], "r", "rp", "mnv1:b")] in
  let ts := (pool_run [0; 1; 2; 0; 1; 2; 1; 2]%nat (disclosure_check (fun x => x) <$> qs, SignetDemo.empty)).1 in
  ts !! 2%nat = Some (Ret false) ∧ ("mnv1:a" = "mnv1:a" ∨ ∃ x y : list Z, x ≠ y ∧ x = y).
Proof.
  split; [vm_compute; reflexivity|].
  apply (drift_pins_value (fun x => x) [([1], "r", "rp", "mnv1:a"); ([2], "r", "rp", "mnv1:a"); ([3], "r", "rp", "mnv1:b")]
    SignetDemo.empty [0; 1; 2; 0; 1; 2; 1; 2]%nat 0 1 [1] [2] "r" "rp"); vm_compute; reflexivity.
Defined.
