(* ===== verification/WizardProofs.v ===== *)
(** * One credential, one account (server/wizard.ts, server/badge-actions.ts)

    Wizards and deletions of badges run interleaved, against any ledger backend that keeps
    its promises ([LedgerLaws]). A badge that no running request has in its hands is anchored:
    its entry is in the ledger, under the handle of its user, and so two accounts never hold
    badges of one credential. *)

From S2P Require Import Prelude Threads Matching Policy Selection RateLimit Registry Claims Vc Pairwise Nullifier.
From S2P Require Import SybilScore Session SybilConfig OidcAuthorize Bitstring Interleave StatusList OidcFlow Issuance Plugins Ledger Signet Wizard LedgerProofs.

Open Scope Z_scope.
Open Scope minister_scope.

(** ** What a request knows of a badge *)

(** The badge, while it exists, is of a user. *)
Definition owned_by (user id : string) (db : LedgerDB) : Prop :=
  id ∈ ld_born db ∧ ∀ b, b ∈ badges db → id_of b = id → user_of b = user.

(** It refers to an entry. *)
Definition refers (user id ref : string) (db : LedgerDB) : Prop :=
  owned_by user id db ∧ ∀ b, b ∈ badges db → id_of b = id → ref_of b = Some ref.

(** It is anchored in the entry of a credential. *)
Definition confirmed (image : list Z → Prop) (user id : string) (db : LedgerDB) : Prop :=
  owned_by user id db ∧ ∀ b, b ∈ badges db → id_of b = id →
    anchored b db ∧ ∃ ref value, ref_of b = Some ref ∧ image value ∧ named value ref db.

Lemma owned_by_evolves g user id db db' : evolves g db db' → owned_by user id db → owned_by user id db'.
Proof.
  intros Hev [Hb Hu]. split; [by eapply ev_born|]. intros b' Hb' <-. destruct (ev_badges _ _ _ Hev b' Hb' Hb) as (b & Hin & Hid & <- & _).
  by apply Hu.
Qed.

Lemma refers_evolves g user id ref db db' : InFlight id ∈ g → evolves g db db' → refers user id ref db → refers user id ref db'.
Proof.
  intros Hg Hev [Ho Hr]. split; [by eapply owned_by_evolves|]. intros b' Hb' <-.
  destruct (ev_badges _ _ _ Hev b' Hb' (proj1 Ho)) as (b & Hin & Hid & _ & Hf & _). rewrite Hf; [by apply Hr|]. by rewrite Hid.
Qed.

Lemma confirmed_evolves g image user id db db' : evolves g db db' → confirmed image user id db → confirmed image user id db'.
Proof.
  intros Hev [Ho Hc]. split; [by eapply owned_by_evolves|]. intros b' Hb' <-.
  destruct (ev_badges _ _ _ Hev b' Hb' (proj1 Ho)) as (b & Hin & Hid & _ & _ & Ha).
  destruct (Hc b Hin Hid) as (Hanc & ref & value & Hr & Hi & Hn). destruct (Ha Hanc) as [Hr' Ha']. split; [done|].
  exists ref, value. rewrite Hr'. split_and!; [done|done|]. by eapply named_evolves.
Qed.

(** An entry that is gone stays gone. *)
Lemma dead_evolves g ref handle db db' : ref ∈ ld_born db → evolves g db db' → ¬ entry_live ref handle db → ¬ entry_live ref handle db'.
Proof. intros Hb Hev Hd (e & He & Ho). apply Hd. exists e. split; [by eapply ev_entries|done]. Qed.

Lemma refers_confirmed (image : list Z → Prop) user id ref handle value db :
  refers user id ref db → ld_handles db !! user = Some handle → entry_live ref handle db → image value → named value ref db →
  confirmed image user id db.
Proof.
  intros [Ho Hr] Hh Hl Hi Hn. split; [done|]. intros b Hb Hid. split; [|exists ref, value; split_and!; [by apply Hr|done|done]].
  intros r Hrb. rewrite (Hr b Hb Hid) in Hrb. injection Hrb as <-. exists handle. by rewrite (proj2 Ho b Hb Hid).
Qed.

(** ** Steps on badges *)

(** A token is let go once what it stands for is anchored, or gone. *)
Lemma drop_token locking g F id db :
  g ## F → ledger_ok locking (g ∪ F) db → (∀ b, b ∈ badges db → id_of b = id → anchored b db) →
  ledger_ok locking ((g ∖ {[InFlight id]}) ∪ F) db.
Proof.
  intros Hd [H1 H2 H3 H4 H5 H6 H7 H8] Ha. split; try done.
  - intros b Hb Hn. destruct (decide (id_of b = id)) as [Hid|Hid]; [by apply Ha|]. apply H1; [done|].
    intros [Hg|HF]%elem_of_union; apply Hn; apply elem_of_union; [left|by right]. apply elem_of_difference. split; [done|].
    intros Hx%elem_of_singleton. congruence.
  - intros id' [[Hx _]%elem_of_difference|Hx]%elem_of_union; apply H6; apply elem_of_union; auto.
  - intros r. rewrite H7, !elem_of_union, elem_of_difference, elem_of_singleton. naive_solver.
Qed.

(** Rows go, nothing else changes. *)
Lemma shrink_safe locking g G db t :
  ledger_ok locking g db → (∀ b, b ∈ bt_badges t → b ∈ badges db) →
  ledger_ok locking g (set_tables t db) ∧ evolves G db (set_tables t db).
Proof.
  intros [H1 H2 H3 H4 H5 H6 H7 H8] Hsub. split.
  - split; try done; cbn [ld_tables set_tables]; [intros b Hb Hn; by apply H1; [apply Hsub|]|intros b Hb; by apply H4, Hsub].
  - split; try done; cbn [ld_tables set_tables].
    + intros b Hb Hid. exists b. split_and!; try done. by apply Hsub.
    + intros r _ Hno b Hb. by apply Hno, Hsub.
Qed.

Lemma deleteBadges_elem ids user db b :
  b ∈ badges (deleteBadges ids user db).2 ↔ b ∈ badges db ∧ ¬ (id_of b ∈ ids ∧ user_of b = user).
Proof.
  cbn. rewrite list_elem_of_filter, andb_false_iff, !bool_decide_eq_false. unfold id_of, user_of.
  destruct (decide (br_id (bg_row b) ∈ ids)), (decide (br_userId (bg_row b) = user)); naive_solver.
Qed.

Lemma deleteBadges_safe locking g G ids user db :
  ledger_ok locking g db → ledger_ok locking g (deleteBadges ids user db).2 ∧ evolves G db (deleteBadges ids user db).2.
Proof. intros Hok. apply shrink_safe; [done|]. intros b Hb. by apply (deleteBadges_elem ids user db) in Hb as [Hb _]. Qed.

Section Steps.
Context (w : WizardWorld) (now : Z) {locking : bool} {image : string → string → list Z → Prop} {win : string → gset token}.
Context {laws : LedgerLaws (ww_ledger w) locking image win}.
Context (U : token → Prop) (HUL : ∀ r, U (Locked r)).

(** A lock the handler holds, or a backend without locks: nobody else holds it. *)
Lemma locked_by_me g F ref db : g ## F → ledger_ok locking (g ∪ F) db → win ref ⊆ g → Locked ref ∉ F.
Proof using laws.
  intros Hd Hok Hw HF. destruct locking eqn:El.
  - apply (Hd (Locked ref)); [|done]. by apply Hw, win_locking.
  - assert (ref ∈ ld_locks db) as Hl by (apply (ok_locks _ _ _ Hok), elem_of_union; by right).
    rewrite (ok_locking _ _ _ Hok eq_refl) in Hl. by apply not_elem_of_empty in Hl.
Qed.

Lemma claimHandle_safe g G user candidate db :
  ledger_ok locking g db → let p := claimHandle user candidate db in
  ledger_ok locking g p.2 ∧ evolves G db p.2 ∧ (p.1 = Ok 1%nat → ld_handles p.2 !! user = Some candidate).
Proof using.
  intros Hok. unfold claimHandle. destruct (ld_users db !! user) as [flags|]; [|done]. destruct (ld_handles db !! user) eqn:Eh; [done|].
  destruct (existsb _ _) eqn:Ee; [done|]. cbn [fst snd].
  assert (∀ u, ld_handles db !! u ≠ Some candidate) as Hnew.
  { intros u Hu. eapply not_true_iff_false; [exact Ee|]. apply existsb_exists. exists (u, candidate).
    split; [by apply list_elem_of_In, elem_of_map_to_list|by apply bool_decide_eq_true_2]. }
  assert (∀ u h, ld_handles db !! u = Some h → <[user:=candidate]> (ld_handles db) !! u = Some h) as Hgrow.
  { intros u h Hu. rewrite lookup_insert_ne; [done|]. intros <-. congruence. }
  assert (∀ b, anchored b db → anchored b (set_handles (<[user:=candidate]> (ld_handles db)) db)) as Hanc.
  { intros b Ha r Hr. destruct (Ha r Hr) as (h & Hh & Hl). exists h. split; [by apply Hgrow|done]. }
  split_and!; [..|intros _; cbn; by rewrite lookup_insert_eq].
  - destruct Hok as [H1 H2 H3 H4 H5 H6 H7 H8]. split; try done.
    + intros b Hb Hn. apply Hanc. by apply H1.
    + cbn. intros u1 u2 h. rewrite !lookup_insert_Some. intros [[Hu1 Hc1]|[_ Hu1]] [[Hu2 Hc2]|[_ Hu2]];
        [congruence|destruct (Hnew u2); congruence|destruct (Hnew u1); congruence|by eapply H3].
  - split; try done. intros b Hb _. exists b. split_and!; try done. intros Ha. split; [done|by apply Hanc].
Qed.

Lemma ensureDedupHandle_holds g db0 user candidate :
  set_Forall U g →
  holds locking U (fun r g' db => same g db0 r g' db ∧ ∀ h, r = Ok h → ld_handles db !! user = Some h) g db0 (ensureDedupHandle user candidate).
Proof using laws HUL.
  intros HU. assert (∀ o h, present o = Some h → o = Some h) as Hp by (intros [[]|] h; naive_solver).
  unfold ensureDedupHandle. apply owns_read; [apply _|done|]. intros F db _ _ Hev.
  destruct (present _) as [h|] eqn:E; [split; [by split|]; intros h' [= <-]; by apply Hp|].
  apply owns_act. intros F1 db1 HF1 HI1 Hev1. destruct (claimHandle_safe (g ∪ F1) (g ∪ F1) user candidate db1 HI1) as (HI2 & Hev2 & Hc).
  assert (evolves g db0 (claimHandle user candidate db1).2) as Hdb2.
  { etrans; [exact Hev|]. etrans; [exact Hev1|]. eapply evolves_mono; [|exact Hev2]. set_solver. }
  exists g. split_and!; [done|done|done|by eapply evolves_mono; [|exact Hev2]; set_solver|].
  destruct (claimHandle user candidate db1) as [[n|e] db2]; cbn [fst snd] in *; [|split; [by split|done]].
  case_bool_decide as Hn; [subst n; split; [by split|]; intros h [= <-]; by apply Hc|].
  apply owns_read; [apply _|done|]. intros F3 db3 _ _ Hev3.
  split; [split; [done|by etrans]|]. intros h. destruct (present (ld_handles db3 !! user)) as [h'|] eqn:E3; [|done]. intros [= <-]. by apply Hp.
Qed.

(** *** Inserting *)

Lemma insertBadge_cases id user pluginId badge dedupeKey ref db :
  (∃ e, insertBadge w now id user pluginId badge dedupeKey ref db = (Err e, db)) ∨
  ∃ b t, insertBadge w now id user pluginId badge dedupeKey ref db = (Ok id, set_born ({[id]} ∪ ld_born db) (set_tables t db)) ∧
    (id ∉ ld_born db) ∧ bt_badges t = badges db ++ [b] ∧ id_of b = id ∧ user_of b = user ∧ ref_of b = ref.
Proof using.
  unfold insertBadge. case_bool_decide as Hb; [by left; eexists|].
  destruct (issueBadge _ _ _ _ _ _ _ _ _ _ _ _) as [[id'|e] t] eqn:E; [right|left; destruct e; by eexists].
  apply issueBadge_ok in E as (-> & meta & schema & claims & vcJwt & row & _ & _ & _ & _ & Ht & Hid & Hu & _ & _ & _ & _ & Hr & _).
  eexists _, t. split_and!; [done|done|exact Ht|done..].
Qed.

(** A new row is in flight when it refers to an entry. *)
Definition flight (ref : option string) (id : string) : gset token := match ref with Some _ => {[InFlight id]} | None => ∅ end.

Lemma elem_of_flight ref id x : x ∈ flight ref id ↔ x = InFlight id ∧ ref ≠ None.
Proof using. destruct ref; cbn; [rewrite elem_of_singleton|rewrite elem_of_empty]; naive_solver. Qed.

Lemma insert_safe g F id user ref b t db :
  g ## F → ledger_ok locking (g ∪ F) db → (id ∉ ld_born db) → bt_badges t = badges db ++ [b] → id_of b = id → user_of b = user → ref_of b = ref →
  (∀ r, ref = Some r → win r ⊆ g) →
  let db' := set_born ({[id]} ∪ ld_born db) (set_tables t db) in
  ledger_ok locking ((g ∪ flight ref id) ∪ F) db' ∧ evolves F db db' ∧ (InFlight id ∉ g ∪ F) ∧
  owned_by user id db' ∧ ∀ r, ref = Some r → refers user id r db'.
Proof using laws HUL.
  intros Hd Hok Hb Ht Hid Hu Hr Hw db'. assert (InFlight id ∉ g ∪ F) as Hno by (intros Hx; by apply Hb, (ok_flight _ _ _ Hok)).
  assert (∀ x, x ∈ badges db' ↔ x ∈ badges db ∨ x = b) as Hin.
  { intros x. unfold db'. cbn. by rewrite Ht, elem_of_app, list_elem_of_singleton. }
  assert (∀ x, x ∈ badges db → id_of x ≠ id) as Hother by (intros x Hx <-; by apply Hb, (ok_born _ _ _ Hok)).
  assert (owned_by user id db') as Ho.
  { split; [unfold db'; cbn; set_solver|]. intros x [Hx| ->]%Hin Hxi; [by destruct (Hother x Hx)|done]. }
  split_and!; [..|done|done|].
  - destruct Hok as [H1 H2 H3 H4 H5 H6 H7 H8]. split; try done.
    + intros x [Hx| ->]%Hin Hn; [apply H1; [done|]; intros [Hg|HF]%elem_of_union; apply Hn; rewrite !elem_of_union; auto|].
      intros r Hr'. destruct Hn. rewrite !elem_of_union, elem_of_flight, Hid. left. right. split; [done|]. congruence.
    + intros x [Hx| ->]%Hin; unfold db'; cbn; [|set_solver]. apply elem_of_union_r. by apply H4.
    + intros r e He. unfold db'. cbn. apply elem_of_union_r. by eapply H5.
    + intros i. rewrite !elem_of_union, elem_of_flight. intros [[Hi|[[= ->] _]]|Hi]; unfold db'; cbn; [|set_solver|];
        apply elem_of_union_r, H6, elem_of_union; auto.
    + intros r. etrans; [apply H7|]. rewrite !elem_of_union, elem_of_flight. naive_solver.
  - split; try done; unfold db'; cbn [ld_born set_born].
    + set_solver.
    + intros x [Hx| ->]%Hin Hxb; [by exists x|]. by rewrite Hid in Hxb.
    + intros r HrF Hnone x [Hx| ->]%Hin; [by apply Hnone|]. rewrite Hr. intros ->.
      by apply (locked_by_me g F r db Hd Hok (Hw r eq_refl)).
  - intros r ->. split; [done|]. intros x [Hx| ->]%Hin Hxi; [by destruct (Hother x Hx)|done].
Qed.

Lemma insertBadge_holds g db0 id user pluginId badge dedupeKey ref :
  set_Forall U g → (ref ≠ None → U (InFlight id)) → (∀ r, ref = Some r → win r ⊆ g) →
  holds locking U (fun r g' db => match r with
                                  | Err _ => same g db0 r g' db
                                  | Ok id' => id' = id ∧ evolves ∅ db0 db ∧ (InFlight id ∉ g) ∧ g' = g ∪ flight ref id ∧
                                              owned_by user id db ∧ ∀ r, ref = Some r → refers user id r db
                                  end) g db0 (act (insertBadge w now id user pluginId badge dedupeKey ref)).
Proof using laws HUL.
  intros HU Hid Hw. apply owns_step. intros F db HF HI HR.
  destruct (insertBadge_cases id user pluginId badge dedupeKey ref db) as [(e & ->)|(b & t & -> & Hb & Ht & H1 & H2 & H3)]; cbn [fst snd].
  { exists g. by split_and!. }
  destruct (insert_safe g F id user ref b t db HF HI Hb Ht H1 H2 H3 Hw) as (HI' & Hev & Hno & Ho & Hr).
  exists (g ∪ flight ref id). split_and!; try done.
  - intros x [Hx|[-> Hr']%elem_of_flight]%elem_of_union; [by apply HU|by apply Hid].
  - intros x [Hx|[-> _]%elem_of_flight]%elem_of_union HxF; [by apply (HF x)|]. apply Hno, elem_of_union. by right.
  - etrans; [eapply evolves_mono; [|exact HR]; set_solver|]. eapply evolves_mono; [|exact Hev]. set_solver.
  - set_solver.
Qed.

(** *** Repointing *)

(** A badge in flight whose entry is gone, or not its user's, may be pointed to another. *)
Lemma repoint_safe g F id user handle r0 ref db :
  g ## F → ledger_ok locking (g ∪ F) db → InFlight id ∈ g → win ref ⊆ g →
  refers user id r0 db → ld_handles db !! user = Some handle → ¬ entry_live r0 handle db →
  let p := repoint id ref db in
  ledger_ok locking (g ∪ F) p.2 ∧ evolves F db p.2 ∧ owned_by user id p.2 ∧ (p.1 = Ok tt → refers user id ref p.2) ∧
  (∀ e, p.1 = Err e → p.2 = db).
Proof using laws HUL.
  intros Hd Hok Hg Hw [Ho Hr0] Hh Hdead. unfold repoint. destruct (existsb _ _); cbn [fst snd]; [|by split_and!].
  set (move := fun b => if bool_decide (br_id (bg_row b) = id) then setNullifierRef ref b else b).
  match goal with |- context [set_tables ?t db] => set (db' := set_tables t db) end.
  assert (∀ x, x ∈ badges db' ↔ ∃ b, b ∈ badges db ∧ x = move b) as Hin.
  { intros x. unfold db'. cbn. rewrite list_elem_of_fmap. naive_solver. }
  assert (∀ b, id_of (move b) = id_of b ∧ user_of (move b) = user_of b ∧
               (id_of b = id → ref_of (move b) = Some ref) ∧ (id_of b ≠ id → move b = b)) as Hmove.
  { intros b. unfold move, id_of. by case_bool_decide. }
  assert (∀ b, b ∈ badges db → anchored b db → id_of b ≠ id) as Hloose.
  { intros b Hb Ha Hid. destruct (Ha r0 (Hr0 b Hb Hid)) as (h & Hh' & Hl). rewrite (proj2 Ho b Hb Hid), Hh in Hh'. by simplify_eq. }
  assert (owned_by user id db') as Ho'.
  { split; [apply Ho|]. intros x (b & Hb & ->)%Hin. destruct (Hmove b) as (-> & -> & _). by apply Ho. }
  split_and!; [..|done| |done].
  - destruct Hok as [H1 H2 H3 H4 H5 H6 H7 H8]. split; try done.
    + intros x (b & Hb & ->)%Hin. destruct (Hmove b) as (-> & _ & _ & Hsame). intros Hn. rewrite Hsame; [by apply H1|].
      intros Hid. apply Hn, elem_of_union. left. by rewrite Hid.
    + intros x (b & Hb & ->)%Hin. destruct (Hmove b) as (-> & _). by apply H4.
  - split; try done.
    + intros x (b & Hb & ->)%Hin _. exists b. destruct (Hmove b) as (-> & -> & _ & Hsame). split_and!; [done..| |].
      * intros HF. rewrite Hsame; [done|]. intros Hid. apply (Hd (InFlight id)); [done|]. by rewrite <-Hid.
      * intros Ha. rewrite Hsame; [done|by apply Hloose].
    + intros r HrF Hnone x (b & Hb & ->)%Hin. destruct (decide (id_of b = id)) as [Hid|Hid].
      * rewrite (proj1 (proj2 (proj2 (Hmove b))) Hid). intros [= ->]. by apply (locked_by_me g F r db Hd Hok Hw).
      * rewrite (proj2 (proj2 (proj2 (Hmove b))) Hid). by apply Hnone.
  - intros _. split; [done|]. intros x (b & Hb & ->)%Hin. destruct (Hmove b) as (-> & _ & Hm & _). apply Hm.
Qed.

(** *** Undoing a batch *)

Lemma runPostCommit_holds db0 ref handle context n :
  holds locking U (same ∅ db0) ∅ db0 (runPostCommit (release (ww_ledger w) ref handle) context n).
Proof using laws HUL.
  assert (∀ base, evolves ∅ base db0 →
    holds locking U (same ∅ base) ∅ db0 (runPostCommit (release (ww_ledger w) ref handle) context n)) as H; [|by apply H].
  revert db0. induction n as [|n IH]; intros db0 base Hb.
  - eapply owns_impl; [|apply quiet_holds; [by intros x Hx%not_elem_of_empty|by apply steps_in_write, audit_quiet]].
    intros a g db [-> Hev]. split; [done|by etrans].
  - eapply owns_then; [by apply release_law|]. intros [u|e] g db [-> Hev]; [split; [done|by etrans]|]. apply IH. by etrans.
Qed.

Lemma releaseAll_holds db0 fresh : holds locking U (same ∅ db0) ∅ db0 (releaseAll w fresh).
Proof using laws HUL.
  assert (∀ base, evolves ∅ base db0 → holds locking U (same ∅ base) ∅ db0 (releaseAll w fresh)) as H; [|by apply H].
  revert db0. induction fresh as [|[ref handle] fresh IH]; intros db0 base Hb; [done|].
  eapply owns_then; [apply runPostCommit_holds|]. intros _ g db [-> Hev]. apply IH. by etrans.
Qed.

Lemma updateSession_quiet id f : steps_in quiet (act (updateSession id f)).
Proof using. apply steps_in_act. intros db. unfold updateSession. destruct (ld_sessions db !! id); [|done]. by destruct (tokenTaken _ _ _). Qed.

(** What the request has in flight goes with the rows it created. *)
Lemma compensateBatch_holds g db0 sessionId user anchorSeen b :
  set_Forall U g → (∀ x, x ∈ g → ∃ id, x = InFlight id ∧ id ∈ bs_created b ∧ owned_by user id db0) →
  holds locking U (fun r g' db => g' = ∅ ∧ evolves ∅ db0 db) g db0 (compensateBatch w now sessionId user anchorSeen b).
Proof using laws HUL.
  intros HU Hg. unfold compensateBatch.
  eapply (owns_then _ _ _ (fun _ g' db => g' = ∅ ∧ evolves ∅ db0 db)).
  - case_bool_decide as Hc.
    + split; [|done]. apply leibniz_equiv, elem_of_equiv_empty. intros x (id & _ & Hx & _)%Hg. rewrite Hc in Hx. by apply elem_of_nil in Hx.
    + apply owns_act. intros F db HF HI HR. destruct (deleteBadges_safe locking (g ∪ F) (g ∪ F) (bs_created b) user db HI) as [HI' Hev].
      assert (evolves ∅ db0 (deleteBadges (bs_created b) user db).2) as Hdb.
      { etrans; [eapply evolves_mono; [|exact HR]; set_solver|]. eapply evolves_mono; [|exact Hev]. set_solver. }
      exists ∅. split_and!; [by intros x Hx%not_elem_of_empty|set_solver| |by eapply evolves_mono; [|exact Hev]; set_solver|done].
      destruct HI' as [H1 H2 H3 H4 H5 H6 H7 H8]. split; try done.
      * intros x Hx Hn. apply H1; [done|]. intros [(id & [= Hid] & Hc' & Ho)%Hg|HxF]%elem_of_union; [|set_solver].
        apply deleteBadges_elem in Hx as [Hx Hkeep]. apply Hkeep. rewrite Hid. split; [done|].
        by apply (proj2 (owned_by_evolves g user id db0 db HR Ho)).
      * intros id Hid. apply H6. set_solver.
      * intros r. etrans; [apply H7|]. split; intros [Hx|Hx]%elem_of_union; apply elem_of_union; auto.
        -- apply Hg in Hx as (id & [=] & _).
        -- by apply not_elem_of_empty in Hx.
  - intros _ g' db [-> Hev]. eapply owns_then; [apply releaseAll_holds|]. intros _ g' db1 [-> Hev1]. destruct anchorSeen.
    + eapply owns_impl; [|apply quiet_holds; [by intros x Hx%not_elem_of_empty|apply updateSession_quiet]].
      intros r g2 db2 [-> Hev2]. split; [done|]. by do 2 (etrans; [eassumption|]).
    + split; [done|by etrans].
Qed.

Lemma abort_holds {A : Type} (Q : result Thrown A → gset token → LedgerDB → Prop) g db0 sessionId user anchorSeen b err :
  set_Forall U g → (∀ x, x ∈ g → ∃ id, x = InFlight id ∧ id ∈ bs_created b ∧ owned_by user id db0) →
  (∀ e db, evolves ∅ db0 db → Q (Err e) ∅ db) → holds locking U Q g db0 (abort w now sessionId user anchorSeen b err).
Proof using laws HUL.
  intros HU Hg HQ. eapply owns_thenT; [by apply compensateBatch_holds|..]; intros a g' db [-> Hev]; by apply HQ.
Qed.



(** *** Confirming *)

(** What a request knows after the probe, by its answer, and what it still has in flight. *)
Definition settled (user handle anchor badgeType id ref : string) (r : result Thrown bool) (g : gset token) (db : LedgerDB) : Prop :=
  match r with
  | Ok true => g = ∅ ∧ confirmed (image anchor badgeType) user id db
  | Ok false => g = {[InFlight id]} ∧ refers user id ref db ∧ ref ∈ ld_born db ∧ ¬ entry_live ref handle db
  | Err _ => g ⊆ {[InFlight id]} ∧ owned_by user id db
  end.

Lemma settled_evolves user handle anchor badgeType id ref r g db db' :
  evolves g db db' → settled user handle anchor badgeType id ref r g db → settled user handle anchor badgeType id ref r g db'.
Proof using laws HUL.
  intros Hev. destruct r as [[|]|e]; cbn.
  - intros [-> Hc]. split; [done|by eapply confirmed_evolves].
  - intros (-> & Hr & Hb & Hd). split_and!; [done|eapply refers_evolves; [|done..]; set_solver|by eapply ev_born|by eapply dead_evolves].
  - intros [Hg Ho]. split; [done|by eapply owned_by_evolves].
Qed.

(** The tokens of a window around a badge. *)
Lemma win_strip ref id : (win ref ∪ {[InFlight id]}) ∖ win ref = {[InFlight id]}.
Proof using laws HUL.
  apply leibniz_equiv. intros x. rewrite elem_of_difference, elem_of_union, elem_of_singleton. split; [naive_solver|].
  intros ->. split; [by right|]. intros Hx%win_locked. done.
Qed.

Lemma win_drop ref id : (win ref ∪ {[InFlight id]}) ∖ {[InFlight id]} = win ref.
Proof using laws HUL.
  apply leibniz_equiv. intros x. rewrite elem_of_difference, elem_of_union, elem_of_singleton. split; [naive_solver|].
  intros Hx. split; [by left|]. intros ->. by apply win_locked in Hx.
Qed.

Lemma win_U ref id : U (InFlight id) → set_Forall U (win ref ∪ {[InFlight id]}).
Proof using laws HUL. intros Hid x [->%win_locked| ->%elem_of_singleton]%elem_of_union; [apply HUL|done]. Qed.

Section Confirm.
Context (user handle anchor badgeType id ref : string) (value : list Z).
Context (Hid : U (InFlight id)) (Himage : image anchor badgeType value).

(** The probe and the last look at the lock, inside the window. *)
Lemma confirm_holds db0 (alive : effect unit) :
  refers user id ref db0 → ld_handles db0 !! user = Some handle → named value ref db0 →
  (∀ g' db', set_Forall U g' → holds locking U (same g' db') g' db' alive) →
  holds locking U (fun r g' db => win ref ⊆ g' ∧ set_Forall U g' ∧ evolves ∅ db0 db ∧
                                  settled user handle anchor badgeType id ref r (g' ∖ win ref) db)
    (win ref ∪ {[InFlight id]}) db0
    (present ←! entryExistsForOwner (ww_ledger w) ref handle; _ ←! alive; mret (Ok present)).
Proof using laws HUL Hid Himage.
  intros Hr Hh Hn Halive. set (g := win ref ∪ {[InFlight id]}). assert (InFlight id ∈ g) as Hg by set_solver.
  assert (∀ db, evolves g db0 db → refers user id ref db ∧ ld_handles db !! user = Some handle ∧ named value ref db ∧ evolves ∅ db0 db) as Hk.
  { intros db Hev. split_and!; [by eapply refers_evolves|by eapply ev_handles|by eapply named_evolves|].
    eapply evolves_mono; [|exact Hev]. set_solver. }
  eapply owns_thenT.
  - apply (probe_law U g {[InFlight id]} db0 ref handle); [by apply win_U|]. intros F db HF HI Hev Hl.
    destruct (Hk db Hev) as (Hr' & Hh' & Hn' & _). apply drop_token; [done|done|].
    intros b Hb Hbid. by eapply (refers_confirmed (image anchor badgeType)).
  - intros e g' db (Hev & -> & _ & _). destruct (Hk db Hev) as (Hr' & _ & _ & Hev'). unfold g. rewrite win_strip.
    split_and!; [set_solver|by apply win_U|done|]. split; [done|apply Hr'].
  - intros present g' db (Hev & Hg' & Htrue & Hfalse). destruct (Hk db Hev) as (Hr' & Hh' & Hn' & Hev').
    assert (win ref ⊆ g' ∧ set_Forall U g' ∧ settled user handle anchor badgeType id ref (Ok present) (g' ∖ win ref) db ∧
            g' ∖ win ref ⊆ {[InFlight id]}) as (H1 & H2 & H3 & H4).
    { destruct present; subst g'; unfold g.
      - rewrite win_drop, difference_diag_L. split_and!; [done| | |set_solver].
        + intros x ->%win_locked. apply HUL.
        + split; [done|]. eapply refers_confirmed; eauto.
      - rewrite win_strip. split_and!; [set_solver|by apply win_U| |done]. split_and!; [done|done|by apply Hn'|by apply Hfalse]. }
    eapply owns_thenT; [by apply Halive|..].
    + intros e g'' db1 [-> Hev1]. split_and!; [done|done| |split; [done|eapply owned_by_evolves; [exact Hev1|apply Hr']]].
      etrans; [exact Hev'|]. eapply evolves_mono; [|exact Hev1]. set_solver.
    + intros _ g'' db1 [-> Hev1]. split_and!; [done|done| |].
      * etrans; [exact Hev'|]. eapply evolves_mono; [|exact Hev1]. set_solver.
      * eapply settled_evolves; [|exact H3]. eapply evolves_mono; [|exact Hev1]. set_solver.
Qed.

(** A badge minted in a window. *)
Lemma mintWindow_holds db0 pluginId badge :
  ld_handles db0 !! user = Some handle → named value ref db0 →
  holds locking U (fun m g' db => evolves ∅ db0 db ∧ match m.1 with
                                  | None => g' = ∅ ∧ ∃ e, m.2 = Err e
                                  | Some id' => id' = id ∧ settled user handle anchor badgeType id ref m.2 g' db
                                  end) ∅ db0 (mintWindow w now id user pluginId badge ref handle).
Proof using laws HUL Hid Himage.
  intros Hh Hn. unfold mintWindow.
  eapply (owns_then _ _ _ (fun r g' db => evolves ∅ db0 db ∧ match (match r with Ok x => x | Err e => (None, Err e) end).1 with
                                  | None => g' = ∅ ∧ ∃ e, (match r with Ok x => x | Err e => (None, Err e) end).2 = Err e
                                  | Some id' => id' = id ∧ settled user handle anchor badgeType id ref (match r with Ok x => x | Err e => (None, Err e) end).2 g' db
                                  end)); [|done].
  apply window_law; [by intros x Hx%not_elem_of_empty|done|by intros r Hx%not_elem_of_empty|by intros e db Hev; split; [|split; [|eexists]]|].
  intros alive db Hev Halive. rewrite union_empty_l_L. assert (set_Forall U (win ref)) as HU by (intros x ->%win_locked; apply HUL).
  eapply owns_then; [apply insertBadge_holds; [done|done|by intros r [= <-]]|].
  intros [id'|e] g' db1.
  2: { intros [-> Hev1]. split_and!; [done|done|]. intros db2. rewrite difference_diag_L. intros Hev2. split; [|by split; [|eexists]].
       etrans; [exact Hev|]. etrans; [|exact Hev2]. eapply evolves_mono; [|exact Hev1]. set_solver. }
  intros (-> & Hev1 & _ & -> & _ & Hr). cbn [flight]. eapply owns_then.
  - apply confirm_holds; [by apply Hr| | |done].
    + eapply ev_handles; [exact Hev1|]. by eapply ev_handles.
    + eapply named_evolves; [exact Hev1|]. by eapply named_evolves.
  - intros present g' db2 (H1 & H2 & Hev2 & Hs). split_and!; [done|done|]. intros db3 Hev3. split.
    + etrans; [exact Hev|]. etrans; [exact Hev1|]. etrans; [exact Hev2|]. eapply evolves_mono; [|exact Hev3]. set_solver.
    + split; [done|]. by eapply settled_evolves.
Qed.

End Confirm.

(** *** Healing *)

(** A badge in flight whose entry is gone, pointed to another one in a window. *)
Lemma repointWindow_holds db0 user handle anchor badgeType id r0 ref value :
  U (InFlight id) → image anchor badgeType value → named value ref db0 →
  refers user id r0 db0 → r0 ∈ ld_born db0 → ¬ entry_live r0 handle db0 → ld_handles db0 !! user = Some handle →
  holds locking U (fun r g' db => evolves ∅ db0 db ∧ settled user handle anchor badgeType id ref r g' db) {[InFlight id]} db0
    (serializeMintWindow (ww_ledger w) ref (fun assertLockLive =>
      _ ←! act (repoint id ref);
      stillThere ←! entryExistsForOwner (ww_ledger w) ref handle;
      _ ←! assertLockLive;
      mret (Ok stillThere))).
Proof using laws HUL.
  intros Hid Himage Hn Hr Hb0 Hdead Hh. set (g := {[InFlight id]} : gset token). assert (InFlight id ∈ g) as Hg by set_solver.
  assert (set_Forall U g) as HU by (by intros x ->%elem_of_singleton).
  assert (∀ db, evolves g db0 db → evolves ∅ db0 db ∧ owned_by user id db) as Hlater.
  { intros db Hev. split; [by eapply evolves_mono; [|exact Hev]; set_solver|]. eapply owned_by_evolves; [exact Hev|apply Hr]. }
  apply window_law; [done|done|by intros r Hx%elem_of_singleton|by intros e db [H1 H2]%Hlater; split_and!|].
  intros alive db2 Hev2 Halive. assert (g ∪ win ref = win ref ∪ {[InFlight id]}) as -> by apply union_comm_L.
  set (g2 := win ref ∪ {[InFlight id]}). assert (g ⊆ g2) as Hsub by set_solver. apply owns_act. intros F db HF HI HR.
  assert (evolves g db0 db) as Hdb by (etrans; [eassumption|]; by eapply evolves_mono; [|exact HR]).
  destruct (repoint_safe g2 F id user handle r0 ref db) as (HI' & HevF & Ho' & Hok & _);
    [done|done|set_solver|set_solver|by eapply refers_evolves|by eapply ev_handles|by eapply dead_evolves|].
  assert (evolves ∅ db0 (repoint id ref db).2) as Hev3.
  { etrans; [apply Hlater, Hdb|]. eapply evolves_mono; [|exact HevF]. set_solver. }
  exists g2. split_and!; [by apply win_U|done|done|done|].
  destruct (repoint id ref db) as [[[]|e] db3]; cbn [fst snd] in *.
  - eapply owns_impl; [|eapply (confirm_holds user handle anchor badgeType id ref value); try done].
    + intros r g' db4 (H1 & H2 & Hev4 & Hs). split_and!; [done|done|]. intros db5 Hev5. split; [|by eapply settled_evolves].
      etrans; [exact Hev3|]. etrans; [exact Hev4|]. eapply evolves_mono; [|exact Hev5]. set_solver.
    + by apply Hok.
    + by eapply ev_handles.
    + by eapply named_evolves.
  - split_and!; [set_solver|by apply win_U|]. intros db4. unfold g2. rewrite win_strip. intros Hev4. split.
    + etrans; [exact Hev3|]. eapply evolves_mono; [|exact Hev4]. set_solver.
    + split; [done|by eapply owned_by_evolves].
Qed.

(** What healing ends with: the badge confirmed, or still to be undone. *)
Definition healed (db0 : LedgerDB) (user anchor badgeType id : string) (b : BatchState) (h : result Thrown string * BatchState)
    (g : gset token) (db : LedgerDB) : Prop :=
  evolves ∅ db0 db ∧ bs_created h.2 = bs_created b ∧ bs_handle h.2 = bs_handle b ∧
  match h.1 with
  | Ok _ => g = ∅ ∧ confirmed (image anchor badgeType) user id db
  | Err _ => g ⊆ {[InFlight id]} ∧ owned_by user id db
  end.

Lemma heal_holds n db0 draws badge anchor user handle id r0 b :
  U (InFlight id) → refers user id r0 db0 → r0 ∈ ld_born db0 → ¬ entry_live r0 handle db0 → ld_handles db0 !! user = Some handle →
  holds locking U (healed db0 user anchor (bi_type badge) id b) {[InFlight id]} db0 (heal w n draws badge anchor handle id b).
Proof using laws HUL.
  intros Hid. set (g := {[InFlight id]} : gset token). assert (set_Forall U g) as HU by (by intros x ->%elem_of_singleton).
  revert db0 r0 b. induction n as [|n IH]; intros db0 r0 b Hr Hb0 Hdead Hh; cbn [heal].
  { split_and!; [done..|]. split; [done|apply Hr]. }
  assert (InFlight id ∈ g) as Hg by set_solver. eapply owns_then; [by apply register_law|]. intros reg g' db1 [[-> Hev1] Hreg].
  assert (evolves ∅ db0 db1) as Hev1' by (eapply evolves_mono; [|exact Hev1]; set_solver).
  assert (owned_by user id db1) as Ho1 by (eapply owned_by_evolves; [exact Hev1|apply Hr]).
  destruct reg as [[ref|ref|]|e]; [| |by split_and!..].
  all: destruct (Hreg ref) as (value & Himage & Hn); [auto|].
  all: eapply owns_then; [eapply (repointWindow_holds db1 user handle anchor (bi_type badge) id r0 ref value); try done;
         [by eapply refers_evolves|by eapply ev_born|by eapply dead_evolves|by eapply ev_handles]|].
  all: intros [[|]|e] g' db [Hev Hs]; [destruct Hs as [-> Hs]; split_and!; [by etrans|done..]| |split_and!; [by etrans|done..]].
  all: destruct Hs as (-> & Hr' & Hb' & Hd'); eapply owns_impl; [|eapply IH; [done|done|done|eapply ev_handles; [exact Hev|by eapply ev_handles]]].
  all: intros h g' db2 (Hev2 & Hc2 & Hh2 & Hm); split_and!; [by do 2 (etrans; [eassumption|])|by etrans|by etrans|done].
Qed.

(** *** The batch *)

(** The handle a batch remembers is the one of its user. *)
Definition handle_known (user : string) (b : BatchState) (db : LedgerDB) : Prop := ∀ h, bs_handle b = Some h → ld_handles db !! user = Some h.

(** A badge that was issued with an anchor is anchored in the entry of that credential. *)
Definition minted (user : string) (issued : IssuedBadge) (id : string) (db : LedgerDB) : Prop :=
  ∀ anchor, is_sybilAnchor issued = Some anchor → confirmed (image anchor (bi_type (is_badge issued))) user id db.

Lemma minted_evolves g user issued id db db' : evolves g db db' → minted user issued id db → minted user issued id db'.
Proof using. clear laws HUL. intros Hev Hm anchor Ha. eapply confirmed_evolves; [exact Hev|]. by apply Hm. Qed.

Definition mintedOne (user : string) (issued : IssuedBadge) (id : string) (b : BatchState) (db0 : LedgerDB) (r : result Thrown BatchState)
    (g : gset token) (db : LedgerDB) : Prop :=
  g = ∅ ∧ evolves ∅ db0 db ∧
  match r with Ok b' => bs_created b' = bs_created b ++ [id] ∧ minted user issued id db ∧ handle_known user b' db | Err _ => True end.

Lemma abort_minted db0 db1 sessionId user anchorSeen b b0 issued id g err :
  evolves ∅ db0 db1 → set_Forall U g → (∀ x, x ∈ g → ∃ i, x = InFlight i ∧ i ∈ bs_created b ∧ owned_by user i db1) →
  holds locking U (mintedOne user issued id b0 db0) g db1 (abort w now sessionId user anchorSeen b err).
Proof using laws HUL. intros Hev HU Hg. apply abort_holds; [done|done|]. intros e db Hdb. split_and!; [done|by etrans|done]. Qed.

Lemma mintPlain_holds db0 sessionId user pluginId anchorSeen issued d b :
  is_sybilAnchor issued = None → handle_known user b db0 →
  holds locking U (mintedOne user issued (bd_id d) b db0) ∅ db0 (mintPlain w now sessionId user pluginId anchorSeen (is_badge issued) d b).
Proof using laws HUL.
  intros Hna Hk. unfold mintPlain. eapply owns_then; [by apply insertBadge_holds; [intros x Hx%not_elem_of_empty|..]|].
  intros [id|e] g' db.
  - intros (-> & Hev & _ & -> & _). split_and!; [set_solver|done|done| |].
    + intros anchor Ha. congruence.
    + intros h Hh. eapply ev_handles; [exact Hev|]. by apply Hk.
  - intros [-> Hev]. by apply abort_minted; [|intros x Hx%not_elem_of_empty..].
Qed.

Section Anchored.
Context (sessionId user pluginId candidate anchor : string) (anchorSeen : bool) (issued : IssuedBadge) (d : BadgeDraws).
Context (Hanchor : is_sybilAnchor issued = Some anchor) (Hid : U (InFlight (bd_id d))).

(** From the registration on. *)
Lemma mintRegistered_holds db0 db1 handle ref value b0 b :
  evolves ∅ db0 db1 → ld_handles db1 !! user = Some handle → image anchor (bi_type (is_badge issued)) value → named value ref db1 →
  bs_created b = bs_created b0 → bs_handle b = Some handle →
  holds locking U (mintedOne user issued (bd_id d) b0 db0) ∅ db1
    (minted ← mintWindow w now (bd_id d) user pluginId (is_badge issued) ref handle;
     let b := match minted.1 with Some id => created id b | None => b end in
     match minted.2 with
     | Err e => abort w now sessionId user anchorSeen b (mintError pluginId e)
     | Ok true => mret (Ok b)
     | Ok false =>
         healed ← heal w 3 (bd_entry d) (is_badge issued) anchor handle (bd_id d) b;
         match healed.1 with
         | Ok _ => mret (Ok healed.2)
         | Err e => abort w now sessionId user anchorSeen healed.2 e
         end
     end).
Proof using laws HUL Hanchor Hid.
  intros Hev1 Hh Himage Hn Hc Hbh.
  eapply owns_then; [by apply (mintWindow_holds user handle anchor (bi_type (is_badge issued)) (bd_id d) ref value)|].
  intros [[id|] r] g' db [Hev Hm]; cbn [fst snd] in *.
  2: { destruct Hm as [-> [e ->]]. apply abort_minted; [by etrans|by intros x Hx%not_elem_of_empty|by intros x Hx%not_elem_of_empty]. }
  destruct Hm as [-> Hs]. assert (∀ db', evolves ∅ db db' → ∀ b', bs_handle b' = Some handle → handle_known user b' db') as Hknown.
  { intros db' Hdb' b' Hb' h. rewrite Hb'. intros [= <-]. eapply ev_handles; [exact Hdb'|]. by eapply ev_handles. }
  assert (∀ anchor', is_sybilAnchor issued = Some anchor' → anchor' = anchor) as Hone by (intros a Ha; congruence).
  destruct r as [[|]|e].
  - destruct Hs as [-> Hs]. split_and!; [done|by etrans|cbn; by rewrite Hc| |by eapply Hknown]. by intros a ->%Hone.
  - destruct Hs as (-> & Hr & Hb & Hd). eapply owns_then; [by eapply heal_holds; [done..|eapply ev_handles]|].
    intros [[ref'|e] b'] g' db2 (Hev2 & Hc2 & Hh2 & Hm); cbn [fst snd] in *.
    + destruct Hm as [-> Hm]. split_and!; [done|by do 2 (etrans; [eassumption|])|cbn in *; by rewrite Hc2, Hc| |apply (Hknown db2); [done|by etrans]].
      by intros a ->%Hone.
    + destruct Hm as [Hg Ho]. apply abort_minted; [by do 2 (etrans; [eassumption|])|intros x Hx%Hg; set_solver|].
      intros x Hx%Hg%elem_of_singleton. exists (bd_id d). rewrite Hc2. cbn. split_and!; [done|set_solver|done].
  - destruct Hs as [Hg Ho]. apply abort_minted; [by etrans|intros x Hx%Hg; set_solver|].
    intros x Hx%Hg%elem_of_singleton. exists (bd_id d). cbn. split_and!; [done|set_solver|done].
Qed.

Lemma mintAnchored_holds db0 b :
  handle_known user b db0 →
  holds locking U (mintedOne user issued (bd_id d) b db0) ∅ db0
    (mintAnchored w now sessionId user pluginId candidate anchorSeen (is_badge issued) anchor d b).
Proof using laws HUL Hanchor Hid.
  intros Hk. assert (set_Forall U (∅ : gset token)) as HU by (by intros x Hx%not_elem_of_empty). unfold mintAnchored.
  eapply (owns_thenT _ _ _ (fun r g' db => same ∅ db0 r g' db ∧ ∀ h, r = Ok h → ld_handles db !! user = Some h)).
  { destruct (bs_handle b) as [h|] eqn:Eh; [|by apply ensureDedupHandle_holds]. split; [done|]. intros h' [= <-]. by apply Hk. }
  { intros e g' db [[-> Hev] _]. by split_and!. }
  intros handle g' db [[-> Hev] Hh]. specialize (Hh handle eq_refl). eapply owns_thenT; [by apply register_law|..].
  { intros e g' db1 [[-> Hev1] _]. split_and!; [done|by etrans|done]. }
  intros reg g' db1 [[-> Hev1] Hreg]. destruct reg as [ref|ref|].
  3: { apply abort_minted; [by etrans|done|by intros x Hx%not_elem_of_empty]. }
  all: destruct (Hreg ref) as (value & Himage & Hn); [auto|].
  all: eapply mintRegistered_holds; [by etrans|by eapply ev_handles|done..].
Qed.

End Anchored.

Lemma mintOne_holds db0 sessionId user pluginId candidate anchorSeen issued d b :
  U (InFlight (bd_id d)) → handle_known user b db0 →
  holds locking U (mintedOne user issued (bd_id d) b db0) ∅ db0 (mintOne w now sessionId user pluginId candidate anchorSeen issued d b).
Proof using laws HUL.
  intros Hid Hk. unfold mintOne. destruct (is_sybilAnchor issued) as [anchor|] eqn:Ea; [|by apply mintPlain_holds].
  destruct (_ && _); [|by apply mintAnchored_holds].
  apply abort_minted; [done|by intros x Hx%not_elem_of_empty|by intros x Hx%not_elem_of_empty].
Qed.

Lemma mintAll_holds db0 sessionId user pluginId candidate anchorSeen issued b :
  Forall (fun p => U (InFlight (bd_id p.2))) issued → handle_known user b db0 →
  holds locking U (fun r g' db => same ∅ db0 r g' db ∧
      ∀ b', r = Ok b' → ∃ ids, bs_created b' = bs_created b ++ ids ∧ Forall2 (fun p id => minted user p.1 id db) issued ids)
    ∅ db0 (mintAll w now sessionId user pluginId candidate anchorSeen issued b).
Proof using laws HUL.
  revert db0 b. induction issued as [|[badge d] issued IH]; intros db0 b HU Hk; cbn [mintAll].
  { split; [done|]. intros b' [= <-]. exists []. by rewrite app_nil_r. }
  inversion_clear HU as [|p l Hid HU']. cbn [snd] in Hid. eapply owns_thenT; [by apply mintOne_holds|..].
  { by intros e g' db (-> & Hev & _). }
  intros b1 g' db (-> & Hev & Hc & Hm & Hk1). eapply owns_impl; [|by apply IH].
  intros r g' db2 [[-> Hev2] Hids]. split; [split; [done|by etrans]|]. intros b' Hb'. destruct (Hids b' Hb') as (ids & Hc2 & H2).
  exists (bd_id d :: ids). split; [rewrite Hc2, Hc; by rewrite <-app_assoc|]. constructor; [by eapply minted_evolves|done].
Qed.

Lemma isAnonBackupPending_quiet user : steps_in quiet (isAnonBackupPending w user).
Proof using. unfold isAnonBackupPending. destruct (negb _); [done|]. apply steps_in_read. apply _. Qed.

Lemma issueBadgesAndComplete_holds db0 sessionId user pluginId issued d :
  (∀ i, U (InFlight (bd_id (sd_badges d i)))) →
  holds locking U (fun r g' db => same ∅ db0 r g' db ∧ ∀ ids, r = Ok ids → Forall2 (fun badge id => minted user badge id db) issued ids)
    ∅ db0 (issueBadgesAndComplete w now sessionId user pluginId issued d).
Proof using laws HUL.
  intros Hid. assert (set_Forall U (∅ : gset token)) as HU by (by intros x Hx%not_elem_of_empty). unfold issueBadgesAndComplete.
  apply quiet_then; [done|apply isAnonBackupPending_quiet|]. intros [|] db Hev; [by split|].
  eapply owns_thenT; [apply mintAll_holds; [|done]|..].
  { apply Forall_lookup. intros k p. rewrite list_lookup_imap. intros (x & _ & ->)%fmap_Some. apply Hid. }
  { intros e g' db1 [[-> Hev1] _]. split; [|done]. split; [done|by etrans]. }
  intros b g' db1 [[-> Hev1] Hids]. destruct (Hids b eq_refl) as (ids & Hc & H2). cbn in Hc.
  eapply quiet_thenT; [done|apply updateSession_quiet|intros e db2 Hev2; split; [|done]; split; [done|by do 2 (etrans; [eassumption|])]|].
  intros _ db2 Hev2. split; [split; [done|by do 2 (etrans; [eassumption|])]|]. intros ids' [= <-]. rewrite Hc.
  apply Forall2_same_length_lookup. pose proof (Forall2_length _ _ _ H2) as Hl. rewrite length_imap in Hl. split; [done|].
  intros k badge id Hbk Hik. eapply minted_evolves; [exact Hev2|].
  assert (imap (fun i badge => (badge, sd_badges d i)) issued !! k = Some (badge, sd_badges d k)) as Hk by (by rewrite list_lookup_imap, Hbk).
  by apply (Forall2_lookup_lr _ _ _ _ _ _ H2 Hk Hik).
Qed.

(** ** Requests *)

(** What an accepted submission promises: the badges the plugin handed out are all anchored. *)
Definition submitted (user : string) (r : result Thrown SubmitResult) (db : LedgerDB) : Prop :=
  ∀ ids, r = Ok (SComplete ids) → ∃ plugin state input origin badges,
    pl_handleStep plugin state input user origin = Ok (HComplete badges) ∧ Forall2 (fun badge id => minted user badge id db) badges ids.

Lemma submitted_evolves g user r db db' : evolves g db db' → submitted user r db → submitted user r db'.
Proof using.
  clear laws HUL. intros Hev Hs ids Hr. destruct (Hs ids Hr) as (p & st & inp & o & badges & Hp & H2). exists p, st, inp, o, badges.
  split; [done|]. eapply Forall2_impl; [exact H2|]. intros badge id. by eapply minted_evolves.
Qed.

Lemma deleteExpiredSession_quiet id db : quiet db (deleteExpiredSession id db).
Proof using. unfold deleteExpiredSession. destruct (ld_sessions db !! id) as [row|]; [|done]. by case_bool_decide. Qed.

Lemma submitStep_holds db0 sessionId user origin input d :
  (∀ i, U (InFlight (bd_id (sd_badges d i)))) →
  holds locking U (fun r g' db => same ∅ db0 r g' db ∧ submitted user r db) ∅ db0 (submitStep w now sessionId user origin input d).
Proof using laws HUL.
  intros Hid. assert (set_Forall U (∅ : gset token)) as HU by (by intros x Hx%not_elem_of_empty). unfold submitStep.
  apply quiet_then; [done|apply steps_in_read; apply _|]. intros [row|] db Hev; [|by split].
  destruct (ws_expiresAt row <? now).
  { apply quiet_then; [done|by apply steps_in_write, deleteExpiredSession_quiet|]. intros _ db1 Hev1. split; [|done]. split; [done|by etrans]. }
  destruct (ws_state row) as [st|]; [|by split]. destruct (ww_plugins w (ws_pluginId row)) as [plugin|]; [|by split].
  destruct (pl_handleStep plugin _ input user origin) as [[state|badges|message]|e] eqn:Ep; [| |by split|by split].
  - eapply quiet_thenT; [done|apply updateSession_quiet|..]; intros a db1 Hev1; (split; [split; [done|by etrans]|done]).
  - eapply owns_then; [by apply issueBadgesAndComplete_holds|]. intros [ids|err] g' db1 [[-> Hev1] Hids].
    + split; [split; [done|by etrans]|]. intros ids' [= <-]. eexists _, _, _, _, _. split; [exact Ep|by apply Hids].
    + assert (same ∅ db0 err ∅ db1) as Hsame by (split; [done|by etrans]).
      destruct err; try (destruct (isIssuanceInfraError _)); try by split.
      all: apply quiet_then; [done|by apply steps_in_write, audit_quiet|]; intros _ db2 Hev2; (split; [split; [done|by do 2 (etrans; [eassumption|])]|done]).
Qed.

Lemma requireUserId_quiet auth : steps_in quiet (requireUserId auth).
Proof using. apply steps_in_read. apply _. Qed.

Lemma deleteBadge_holds db0 auth badgeId : holds locking U (same ∅ db0) ∅ db0 (deleteBadge w auth badgeId).
Proof using laws HUL.
  assert (set_Forall U (∅ : gset token)) as HU by (by intros x Hx%not_elem_of_empty). unfold deleteBadge.
  destruct (negb _); [done|]. eapply quiet_thenT; [done|apply requireUserId_quiet|done|]. intros user db Hev.
  apply quiet_then; [done|apply steps_in_read; apply _|]. intros [[k badge]|] db1 Hev1; [|split; [done|by etrans]].
  apply quiet_then; [done|case_bool_decide; [done|apply steps_in_read; apply _]|]. intros owner db2 Hev2.
  apply owns_act. intros F db3 HF HI HR.
  destruct (deleteBadges_safe locking (∅ ∪ F) F [badgeId] user db3 HI) as [HI' HevF].
  assert (evolves ∅ db0 (deleteBadges [badgeId] user db3).2) as Hdb.
  { do 4 (etrans; [eassumption|]). eapply evolves_mono; [|exact HevF]. set_solver. }
  exists ∅. split_and!; [done|done|done|done|]. case_bool_decide; [by split|].
  eapply (owns_then _ _ _ (same ∅ db0)).
  - destruct (present _) as [ref|], owner as [handle|]; try done. apply quiet_then; [done|apply steps_in_read; apply _|].
    intros [|] db5 Hev5; [split; [done|by etrans]|]. eapply owns_impl; [|apply runPostCommit_holds].
    intros r g' db6 [-> Hev6]. split; [done|]. by do 2 (etrans; [eassumption|]).
  - intros _ g' db5 [-> Hev5]. apply quiet_then; [done|by apply steps_in_write, audit_quiet|]. intros _ db6 Hev6. split; [done|by etrans].
Qed.

Lemma loadWizard_quiet sessionId user : steps_in quiet (loadWizard now sessionId user).
Proof using laws HUL.
  apply steps_in_bind; [apply steps_in_read; apply _|]. intros [row|]; [|done]. destruct (_ <? _); [|done].
  by apply steps_in_bind; [apply steps_in_write, deleteExpiredSession_quiet|].
Qed.

Lemma startWizard_quiet pluginId user origin id : steps_in quiet (startWizard w now pluginId user origin id).
Proof using laws HUL.
  unfold startWizard. destruct (ww_plugins w pluginId) as [plugin|]; [|done]. destruct (negb _); [done|].
  apply steps_in_bind; [apply isAnonBackupPending_quiet|]. intros [|]; [done|]. destruct (pl_startWizard plugin user origin) as [state|e]; [|done].
  apply steps_in_bind; [by apply steps_in_write|]. intros _. apply steps_in_bind; [by apply steps_in_write|]. intros _.
  apply quiet_tbind; [|done]. apply steps_in_act. intros db. unfold createSession. destruct (_ || _); [done|].
  split_and!; [done..|]. cbn. set_solver.
Qed.

End Steps.

(** ** Interleaved requests *)

Inductive WizardRequest :=
  | QStart (auth : option Session) (headers : gmap string string) (pluginId id : string)
  | QLoad (sessionId userId : string)
  | QSubmit (auth : option Session) (headers : gmap string string) (sessionId : string) (input : Json) (d : SubmitDraws)
  | QResume (token userId origin : string) (input : Json) (d : SubmitDraws)
  | QDelete (auth : option Session) (badgeId : string).

Inductive WizardAnswer :=
  | AStart (r : result Thrown (string * WizardState))
  | ALoad (r : option WizardState)
  | ASubmit (r : result Thrown SubmitResult)
  | AResume (r : result Thrown ResumeResult)
  | ADelete (r : result Thrown (result string unit)).

(** A request at its time. *)
Definition answer (w : WizardWorld) (q : Z * WizardRequest) : thread LedgerDB WizardAnswer :=
  match q.2 with
  | QStart auth headers pluginId id => r ← startWizardAction w q.1 auth headers pluginId id; mret (AStart r)
  | QLoad sessionId userId => r ← loadWizard q.1 sessionId userId; mret (ALoad r)
  | QSubmit auth headers sessionId input d => r ← submitStepAction w q.1 auth headers sessionId input d; mret (ASubmit r)
  | QResume token userId origin input d => r ← resumeViaPendingToken w q.1 token userId origin input d; mret (AResume r)
  | QDelete auth badgeId => r ← deleteBadge w auth badgeId; mret (ADelete r)
  end.

(** The ids a request may give to badges. *)
Definition may_draw (q : Z * WizardRequest) (id : string) : Prop :=
  match q.2 with
  | QSubmit _ _ _ _ d | QResume _ _ _ _ d => ∃ i, id = bd_id (sd_badges d i)
  | _ => False
  end.

(** A badge that a running request may have in its hands. *)
Definition in_hand (qs : list (Z * WizardRequest)) (ts : list (thread LedgerDB WizardAnswer)) (id : string) : Prop :=
  ∃ i q f k, qs !! i = Some q ∧ ts !! i = Some (Step f k) ∧ may_draw q id.

(** A user holds a badge of the credential with a value, outside any running request. *)
Definition holds_credential qs ts (db : LedgerDB) (user : string) (value : list Z) : Prop :=
  ∃ b ref e, b ∈ badges db ∧ ¬ in_hand qs ts (id_of b) ∧ user_of b = user ∧ ref_of b = Some ref ∧
    ld_entries db !! ref = Some e ∧ ne_value e = value.

(** The ids of an answer that says that badges were issued. *)
Definition issued_ids (a : WizardAnswer) : option (list string) :=
  match a with
  | ASubmit (Ok (SComplete ids)) | AResume (Ok (RComplete ids _)) => Some ids
  | _ => None
  end.

Section Pool.
Context (w : WizardWorld) {locking : bool} {image : string → string → list Z → Prop} {win : string → gset token}.
Context {laws : LedgerLaws (ww_ledger w) locking image win}.

(** The badges of an answer are those a plugin handed out, each anchored in its credential. *)
Definition vouched (a : WizardAnswer) (db : LedgerDB) : Prop :=
  ∀ ids, issued_ids a = Some ids → ∃ user plugin state input origin badges,
    pl_handleStep plugin state input user origin = Ok (HComplete badges) ∧
    Forall2 (fun badge id => minted (image := image) user badge id db) badges ids.

Definition within (q : Z * WizardRequest) (x : token) : Prop := match x with inl id => may_draw q id | inr _ => True end.

Definition finished (a : WizardAnswer) (g : gset token) (db : LedgerDB) : Prop := g = ∅ ∧ vouched a db.

Lemma finished_kept : kept evolves finished.
Proof using.
  intros a g db db' Hev [-> Hv]. split; [done|]. intros ids Hids.
  destruct (Hv ids Hids) as (user & p & st & inp & o & badges & Hp & H2). exists user, p, st, inp, o, badges. split; [done|].
  eapply Forall2_impl; [exact H2|]. intros badge id. by eapply minted_evolves.
Qed.

Lemma submitted_vouched user r a db :
  submitted (image := image) user r db → (∀ ids, issued_ids a = Some ids → r = Ok (SComplete ids)) → vouched a db.
Proof using. clear laws. intros Hs Ha ids Hids%Ha. destruct (Hs ids Hids) as (p & st & inp & o & badges & H). by exists user, p, st, inp, o, badges. Qed.

Lemma answer_holds q db0 : holds locking (within q) finished ∅ db0 (answer w q).
Proof using laws.
  assert (set_Forall (within q) (∅ : gset token)) as HU by (by intros x Hx%not_elem_of_empty).
  assert (∀ r : string, within q (Locked r)) as HUL by done.
  destruct q as [now [auth headers pluginId id|sessionId user|auth headers sessionId input d|token user origin input d|auth badgeId]]; unfold answer; cbn [fst snd].
  - apply quiet_then; [done| |by split]. apply quiet_tbind; [apply requireUserId_quiet|]. intros user. by eapply startWizard_quiet.
  - apply quiet_then; [done|by eapply loadWizard_quiet|by split].
  - eapply (owns_then _ _ _ (fun r g db => g = ∅ ∧ ∃ user, submitted (image := image) user r db)).
    + eapply quiet_thenT; [done|apply requireUserId_quiet|by split; [|exists ""]|]. intros user db Hev.
      eapply owns_impl; [|eapply submitStep_holds; [exact laws|done|by intros i; unfold within, may_draw; exists i]]. intros r g db1 [[-> _] Hs]. split; [done|by exists user].
    + intros r g db [-> [user Hs]]. split; [done|]. eapply submitted_vouched; [exact Hs|]. intros ids. by destruct r as [[]|]; intros [= ->].
  - eapply (owns_then _ _ _ (fun r g db => g = ∅ ∧ ∃ r' : result Thrown SubmitResult, submitted (image := image) user r' db ∧
        ∀ ids, issued_ids (AResume r) = Some ids → r' = Ok (SComplete ids))).
    + unfold resumeViaPendingToken. apply quiet_then; [done|apply steps_in_read; apply _|].
      intros [[id row]|] db Hev; [|by split; [|exists (Err TBackup)]]. repeat (case_match; [by split; [|exists (Err TBackup)]|]).
      eapply owns_thenT; [eapply submitStep_holds; [exact laws|done|by intros i; unfold within, may_draw; exists i]|..].
      * intros e g db1 [[-> _] Hs]. split; [done|]. by exists (Err e).
      * intros r g db1 [[-> _] Hs]. split; [done|]. exists (Ok r). split; [done|]. intros ids. by destruct r; intros [= ->].
    + intros r g db [-> (r' & Hs & Hr)]. split; [done|]. by eapply submitted_vouched.
  - eapply owns_then; [by eapply deleteBadge_holds|]. by intros r g db [-> _].
Qed.


End Pool.

(** ** A batch that fails *)

(** Over the interim backend and with nobody else at work: every error past the registrations
    leaves the badges and the ledger as they were. *)
(** The ids drawn for entries are new, and differ from every other id of the batch. *)
Fixpoint fresh_draws (ds : list BadgeDraws) (born : gset string) : Prop :=
  match ds with
  | [] => True
  | d :: ds => (bd_entry d 3 ∉ born) ∧ fresh_draws ds ({[bd_id d; bd_entry d 3]} ∪ born)
  end.

Lemma fresh_draws_anti ds X Y : X ⊆ Y → fresh_draws ds Y → fresh_draws ds X.
Proof.
  revert X Y. induction ds as [|d ds IH]; intros X Y Hsub; [done|]. intros [H1 H2]. split; [intros Hin; by apply H1, Hsub|].
  eapply IH; [|exact H2]. set_solver.
Qed.

Section Failure.
Context (w : WizardWorld) (mac : MacWorld) (now : Z) (Hw : ww_ledger w = interimBackend mac).
Context (sessionId user pluginId candidate handle : string) (anchorSeen : bool) (db0 : LedgerDB).
Context (Hok : ledger_ok false ∅ db0) (Hhandle : ld_handles db0 !! user = Some handle) (Hne : handle ≠ "").

(** What a batch has changed so far. *)
Record batch_so_far (b : BatchState) (db : LedgerDB) : Prop := {
  bs_rows : ∃ new, badges db = badges db0 ++ new ∧ ∀ x, x ∈ new → id_of x ∈ bs_created b ∧ user_of x = user;
  bs_ids : ∀ id, id ∈ bs_created b → id ∉ ld_born db0;
  bs_old : ∀ r, r ∉ (bs_fresh b).*1 → ld_entries db !! r = ld_entries db0 !! r;
  bs_new : ∀ r h, (r, h) ∈ bs_fresh b → (r ∉ ld_born db0) ∧ r ∈ ld_born db ∧ entry_live r h db;
  bs_born : ld_born db0 ⊆ ld_born db;
  bs_handles : ld_handles db = ld_handles db0;
  bs_sessions : ld_sessions db = ld_sessions db0;
  bs_known : bs_handle b = None ∨ bs_handle b = Some handle;
}.

(** The ledger as it was, but for some fresh entries. *)
Definition but_fresh (fresh : list (string * string)) (db : LedgerDB) : Prop :=
  badges db = badges db0 ∧ (∀ r, r ∉ fresh.*1 → ld_entries db !! r = ld_entries db0 !! r) ∧
  ∀ r h, (r, h) ∈ fresh → (r ∉ ld_born db0) ∧ (ld_entries db !! r = None ∨ entry_live r h db).

Lemma unreferenced r db : badges db = badges db0 → (r ∉ ld_born db0) → referenced r db = false.
Proof using Hok Hw Hhandle Hne.
  intros Hb Hr. apply not_true_is_false. intros Ht. apply existsb_exists in Ht as (b & Hin%list_elem_of_In & Href%bool_decide_eq_true).
  rewrite Hb in Hin. destruct (ok_anchored _ _ _ Hok b Hin ltac:(set_solver) r Href) as (h & _ & e & He & _).
  by apply Hr, (ok_entries _ _ _ Hok r e).
Qed.

Lemma old_absent r : (r ∉ ld_born db0) → ld_entries db0 !! r = None.
Proof using Hok Hw Hhandle Hne. intros Hr. destruct (ld_entries db0 !! r) as [e|] eqn:E; [|done]. destruct Hr. by eapply (ok_entries _ _ _ Hok). Qed.

(** One release of a fresh entry. *)
Lemma delete_fresh r h fresh db : but_fresh ((r, h) :: fresh) db → but_fresh fresh (deleteEntry r h db).
Proof using Hok Hw Hhandle Hne.
  intros (Hb & Hold & Hfresh). destruct (Hfresh r h ltac:(set_solver)) as [Hr Hl].
  assert (badges (deleteEntry r h db) = badges db0 ∧ ld_entries (deleteEntry r h db) = delete r (ld_entries db)) as [Hb' He'].
  { unfold deleteEntry. destruct (ld_entries db !! r) as [e|] eqn:Ee.
    - destruct Hl as [Hl|(e' & Hl & Ho)]; [done|]. assert (e' = e) as -> by congruence. rewrite (unreferenced r db Hb Hr), bool_decide_eq_true_2 by done. done.
    - by rewrite delete_id. }
  split_and!; [done|rewrite He'..].
  - intros r' Hr'. destruct (decide (r' = r)) as [->|Hne']; [by rewrite lookup_delete_eq, old_absent|].
    rewrite lookup_delete_ne by done. apply Hold. cbn. set_solver.
  - intros r' h' Hin. destruct (Hfresh r' h' ltac:(set_solver)) as [Hr' Hl']. split; [done|].
    destruct (decide (r' = r)) as [->|Hne']; [left; apply lookup_delete_eq|].
    destruct Hl' as [Hl'|(e & He & Ho)]; [left|right; exists e; rewrite He']; by rewrite lookup_delete_ne.
Qed.

Lemma releaseAll_solo fresh db : but_fresh fresh db → but_fresh [] (run_solo (releaseAll w fresh) db).2.
Proof using Hok Hw Hhandle Hne.
  revert db. induction fresh as [|[r h] fresh IH]; intros db Hf; [done|]. cbn [releaseAll]. rewrite Hw. cbn [runPostCommit].
  change (but_fresh [] (run_solo (releaseAll w fresh) (deleteEntry r h db)).2). by apply IH, delete_fresh.
Qed.

Lemma compensateBatch_solo b db :
  batch_so_far b db →
  let db' := (run_solo (compensateBatch w now sessionId user anchorSeen b) db).2 in badges db' = badges db0 ∧ ld_entries db' = ld_entries db0.
Proof using Hok Hw Hhandle Hne.
  intros [(new & Hb & Hnew) Hids Hold Hfresh _ _ _ _]. unfold compensateBatch. rewrite run_solo_bind.
  set (db1 := (run_solo _ db).2). assert (but_fresh (bs_fresh b) db1) as Hf.
  { assert (badges db1 = badges db0 ∧ ld_entries db1 = ld_entries db) as [Hb1 He1].
    { unfold db1. case_bool_decide as Hc; (split; [|done]).
      - cbn. destruct new as [|x new]; [by rewrite Hb, app_nil_r|]. destruct (Hnew x ltac:(set_solver)) as [Hx _]. rewrite Hc in Hx.
        by apply elem_of_nil in Hx.
      - change (run_solo _ db).2 with (deleteBadges (bs_created b) user db).2. cbn. rewrite Hb, filter_app.
        rewrite (filter_keeps _ (badges db0)), (filter_drops _ new); [by rewrite app_nil_r|..]; apply Forall_forall.
        + intros x Hx. destruct (Hnew x Hx) as [H1 H2]. unfold id_of, user_of in H1, H2. by rewrite !bool_decide_eq_true_2.
        + intros x Hx. apply andb_false_iff. left. apply bool_decide_eq_false_2. intros Hc'.
          by apply (Hids _ Hc'), (ok_born _ _ _ Hok). }
    split_and!; [done|by rewrite He1|]. intros r h Hin. destruct (Hfresh r h Hin) as (H1 & _ & e & He & Ho). split; [done|].
    right. exists e. by rewrite He1. }
  rewrite run_solo_bind. destruct (releaseAll_solo (bs_fresh b) db1 Hf) as (Hb2 & He2 & _). set (db2 := (run_solo (releaseAll _ _) db1).2) in *.
  assert (ld_entries db2 = ld_entries db0) as He by (apply map_eq; intros r; apply He2; set_solver).
  destruct anchorSeen; [|done]. cbn. unfold updateSession. destruct (ld_sessions db2 !! sessionId); [|done]. by destruct (tokenTaken _ _ _).
Qed.

(** The badges and the ledger are as they were. *)
Definition undone (db : LedgerDB) : Prop := badges db = badges db0 ∧ ld_entries db = ld_entries db0.

Definition outcome (d : BadgeDraws) (db : LedgerDB) (p : result Thrown BatchState * LedgerDB) : Prop :=
  match p.1 with
  | Ok b' => batch_so_far b' p.2 ∧ ld_born p.2 ⊆ {[bd_id d; bd_entry d 3]} ∪ ld_born db
  | Err _ => undone p.2
  end.

Lemma abort_solo d db1 b db err :
  batch_so_far b db → outcome d db1 (run_solo (abort (A := BatchState) w now sessionId user anchorSeen b err) db).
Proof using Hok Hw Hhandle Hne.
  intros Hb. unfold abort, outcome. rewrite run_solo_tbind. pose proof (compensateBatch_solo b db Hb) as H. cbv zeta in H.
  by destruct (run_solo (compensateBatch _ _ _ _ _ _) db).1.
Qed.

(** A new row is one the batch will undo. *)
Lemma insert_so_far b id badge ref db :
  batch_so_far b db →
  match insertBadge w now id user pluginId badge None ref db with
  | (Ok id', db') => id' = id ∧ batch_so_far (created id b) db' ∧ ld_born db' = {[id]} ∪ ld_born db ∧ ld_entries db' = ld_entries db
  | (Err _, db') => db' = db
  end.
Proof using Hok Hw Hhandle Hne.
  intros [(new & Hb & Hnew) Hids Hold Hfresh Hborn Hh Hs Hk].
  destruct (insertBadge_cases w now id user pluginId badge None ref db) as [[e ->]|(x & t & -> & Hn & Ht & Hx & Hu & _)]; [done|].
  split_and!; [done| |done|done]. split; try done; cbn [created bs_created].
  - exists (new ++ [x]). cbn. rewrite Ht, Hb, app_assoc. split; [done|]. intros y [Hy|Hy%list_elem_of_singleton]%elem_of_app.
    + destruct (Hnew y Hy). split; [apply elem_of_app; by left|done].
    + subst y. split; [|done]. apply elem_of_app. right. rewrite Hx. by apply list_elem_of_singleton.
  - intros i [Hi|Hi%list_elem_of_singleton]%elem_of_app; [by apply Hids|]. subst i. intros Hin. by apply Hn, Hborn.
  - intros r h Hin. destruct (Hfresh r h Hin) as (H1 & H2 & H3). split_and!; [done| |done]. cbn. by apply elem_of_union_r.
  - cbn. etrans; [exact Hborn|]. apply union_subseteq_r.
Qed.

Lemma mintPlain_solo badge d b db :
  batch_so_far b db → outcome d db (run_solo (mintPlain w now sessionId user pluginId anchorSeen badge d b) db).
Proof using Hok Hw Hhandle Hne.
  intros Hb. unfold mintPlain. rewrite run_solo_bind. pose proof (insert_so_far b (bd_id d) badge None db Hb) as Hi. cbn [run_solo act fst snd].
  destruct (insertBadge _ _ _ _ _ _ _ _ db) as [[id|e] db1]; cbn [fst snd].
  - destruct Hi as (-> & Hb1 & Hborn & _). split; [done|]. cbn. rewrite Hborn. set_solver.
  - subst db1. by apply abort_solo.
Qed.

(** The window, when the entry is there. *)
Lemma mintWindow_solo badge ref id b db :
  batch_so_far b db → entry_live ref handle db →
  match run_solo (mintWindow w now id user pluginId badge ref handle) db with
  | ((Some id', r), db') => id' = id ∧ r = Ok true ∧ batch_so_far (created id b) db' ∧ ld_born db' = {[id]} ∪ ld_born db
  | ((None, r), db') => db' = db ∧ ∃ e, r = Err e
  end.
Proof using Hok Hw Hhandle Hne.
  intros Hb (e & He & Ho). unfold mintWindow. rewrite Hw. pose proof (insert_so_far b id badge (Some ref) db Hb) as Hi. cbn.
  destruct (insertBadge _ _ _ _ _ _ _ _ db) as [[id'|err] db1]; cbn.
  - destruct Hi as (-> & Hb1 & Hborn & Hent). rewrite Hent, He, bool_decide_eq_true_2 by done. done.
  - subst db1. split; [done|by eexists].
Qed.

(** A registration of the interim backend, with a fresh draw. *)
Lemma interimRegister_solo draw anchor badgeType value b db :
  deriveDedupValue mac anchor badgeType = Ok value → (draw ∉ ld_born db) → batch_so_far b db →
  match run_solo (interimRegister mac draw anchor badgeType handle) db with
  | (Ok (Registered ref), db') =>
      batch_so_far {| bs_created := bs_created b; bs_fresh := bs_fresh b ++ [(ref, handle)]; bs_handle := Some handle |} db' ∧
      entry_live ref handle db' ∧ ld_born db' = {[draw]} ∪ ld_born db
  | (Ok (AlreadyYours ref), db') => db' = db ∧ entry_live ref handle db
  | (Ok Taken, db') => db' = db
  | (Err _, _) => False
  end.
Proof using Hok Hw Hhandle Hne.
  intros Hv Hd [Hrows Hids Hold Hfresh Hborn Hh Hs Hk]. unfold interimRegister. rewrite Hv, throwing_ok. cbn [run_solo act mbind thread_bind thread_bind_].
  unfold createLedgerEntry. rewrite (bool_decide_eq_false_2 (draw ∈ ld_born db)) by done. cbn [orb].
  destruct (entryOf value db) as [[id e]|] eqn:Ee.
  - rewrite bool_decide_eq_true_2 by done. cbn [fst snd]. cbn. rewrite Ee. apply entryOf_Some in Ee as [He _].
    case_bool_decide; [|done]. split; [done|]. by exists e.
  - rewrite bool_decide_eq_false_2 by (intros H; by apply H). cbn [fst snd]. cbn. split_and!; [|by eexists; split; [apply lookup_insert_eq|]|done].
    assert (draw ∉ ld_born db0) as Hd0 by (intros Hin; by apply Hd, Hborn).
    split; try done; cbn [bs_fresh ld_entries set_entries set_born ld_born].
    + intros r Hr. rewrite fmap_app in Hr. rewrite lookup_insert_ne; [apply Hold|]; intros Hx; apply Hr, elem_of_app; [by left|right].
      subst r. by apply list_elem_of_singleton.
    + intros r h [Hin|Hin%list_elem_of_singleton]%elem_of_app.
      * destruct (Hfresh r h Hin) as (Hr & Hrb & e & He & Ho). split_and!; [done|by apply elem_of_union_r|]. exists e. split; [|done].
        cbn. rewrite lookup_insert_ne; [done|]. by intros <-.
      * injection Hin as -> ->. split_and!; [done|set_solver|]. eexists. split; [apply lookup_insert_eq|done].
    + cbn. etrans; [exact Hborn|]. apply union_subseteq_r.
    + by right.
Qed.

Lemma mintAnchored_solo badge anchor value d b db :
  deriveDedupValue mac anchor (bi_type badge) = Ok value → (bd_entry d 3 ∉ ld_born db) → batch_so_far b db →
  outcome d db (run_solo (mintAnchored w now sessionId user pluginId candidate anchorSeen badge anchor d b) db).
Proof using Hok Hw Hhandle Hne.
  intros Hv Hd Hb. unfold mintAnchored. rewrite run_solo_tbind.
  assert (run_solo (match bs_handle b with Some h => mret (Ok h) | None => ensureDedupHandle user candidate end) db = (Ok handle, db)) as ->.
  { destruct (bs_known _ _ Hb) as [-> | ->]; [|done]. unfold ensureDedupHandle. rewrite run_solo_read, (bs_handles _ _ Hb), Hhandle. cbn.
    unfold present. by destruct handle. }
  cbn [fst snd]. rewrite run_solo_tbind, Hw. cbn [registerDedup interimBackend].
  pose proof (interimRegister_solo (bd_entry d 3) anchor (bi_type badge) value b db Hv Hd Hb) as Hr.
  destruct (run_solo (interimRegister _ _ _ _ _) db) as [[[ref|ref|]|e] db1]; cbn [fst snd] in *; [| | |done].
  3: { subst db1. apply abort_solo. destruct Hb. split; auto. }
  1: destruct Hr as (Hb1 & Hl & Hborn1). 2: destruct Hr as [-> Hl]; assert (batch_so_far {| bs_created := bs_created b; bs_fresh := bs_fresh b; bs_handle := Some handle |} db) as Hb1 by (destruct Hb; split; auto).
  all: rewrite run_solo_bind; pose proof (mintWindow_solo badge ref (bd_id d) _ _ Hb1 Hl) as Hm;
    destruct (run_solo (mintWindow _ _ _ _ _ _ _ _) _) as [[[id|] r] db2]; cbn [fst snd] in *.
  all: try (destruct Hm as [-> [e ->]]; by apply abort_solo).
  all: destruct Hm as (-> & -> & Hb2 & Hborn2); split; [done|]; cbn [run_solo fst snd mret thread_ret]; rewrite Hborn2, ?Hborn1; set_solver.
Qed.

Lemma mintOne_solo issued d b db :
  (∀ anchor, is_sybilAnchor issued = Some anchor → ∃ value, deriveDedupValue mac anchor (bi_type (is_badge issued)) = Ok value) →
  (bd_entry d 3 ∉ ld_born db) → batch_so_far b db →
  outcome d db (run_solo (mintOne w now sessionId user pluginId candidate anchorSeen issued d b) db).
Proof using Hok Hw Hhandle Hne.
  intros Hv Hd Hb. unfold mintOne. destruct (is_sybilAnchor issued) as [anchor|]; [|by apply mintPlain_solo].
  destruct (_ && _); [by apply abort_solo|]. destruct (Hv anchor eq_refl) as [value Hval]. by eapply mintAnchored_solo.
Qed.

Lemma mintAll_solo issued b db :
  (∀ p anchor, p ∈ issued → is_sybilAnchor p.1 = Some anchor → ∃ value, deriveDedupValue mac anchor (bi_type (is_badge p.1)) = Ok value) →
  fresh_draws issued.*2 (ld_born db) → batch_so_far b db →
  match run_solo (mintAll w now sessionId user pluginId candidate anchorSeen issued b) db with
  | (Ok b', db') => batch_so_far b' db'
  | (Err _, db') => undone db'
  end.
Proof using Hok Hw Hhandle Hne.
  revert b db. induction issued as [|[badge d] issued IH]; intros b db Hv Hd Hb; [done|]. destruct Hd as [Hd Hds]. cbn [mintAll].
  rewrite run_solo_tbind. pose proof (mintOne_solo badge d b db) as H1. unfold outcome in H1.
  destruct (run_solo (mintOne _ _ _ _ _ _ _ _ _ _) db) as [[b1|e] db1]; cbn [fst snd] in *.
  - destruct H1 as [Hb1 Hborn]; [intros a Ha; apply (Hv (badge, d)); [set_solver|done]|done|done|].
    apply IH; [intros p a Hp; apply Hv; set_solver| |done]. by eapply fresh_draws_anti.
  - apply H1; [intros a Ha; apply (Hv (badge, d)); [set_solver|done]|done|done].
Qed.

Lemma batch_start : batch_so_far {| bs_created := []; bs_fresh := []; bs_handle := None |} db0.
Proof using.
  split; try done; [|by intros id Hid%elem_of_nil|by intros r h Hr%elem_of_nil|by left].
  exists []. split; [by rewrite app_nil_r|by intros x Hx%elem_of_nil].
Qed.

End Failure.



(** ** Examples *)

Module WizardDemo.

Definition mac : MacWorld := {| mw_secret := Some "s"; mw_hkdf := fun _ => [1]; mw_hmac := fun key data => key ++ data; mw_base64url := fun _ => "" |}.

Definition badge (anchor : string) : IssuedBadge :=
  {| is_badge := emailDomainBadge "corp.example"; is_sybilAnchor := Some anchor; is_revealsAnchor := false |}.

Definition step : WizardStep := {| st_id := "s"; st_payload := PInfo {| ip_title := ""; ip_body := ""; ip_continueLabel := None |} |}.

(** A plugin that hands out badges for the first two anchors its input names. *)
Definition plugin : Plugin := {|
  pl_startWizard userId _ := Ok {| wz_pluginId := "p"; wz_userId := userId; wz_currentStep := step; wz_data := [] |};
  pl_handleStep _ input _ _ :=
    match input with
    | JArr l => Ok (HComplete (take 2 (omap (fun v => match v with JStr a => Some (badge a) | _ => None end) l)))
    | _ => Ok (HError "input")
    end;
  pl_isConfigured := None;
|}.

Definition world (svc : NullifierService) : WizardWorld :=
  {| ww_vc := VcDemo.w; ww_isEmail := fun _ => true; ww_isCuid := fun _ => true; ww_ledger := svc; ww_plugins := fun _ => Some plugin;
     ww_anonEnabled := false |}.

Definition flags : UserFlags :=
  {| u_sessionGeneration := 0; u_isAdmin := false; u_isBanned := false; u_mergedIntoUserId := None; u_setupCompletedAt := Some 0 |}.
Definition signedIn (user : string) : option Session :=
  Some {| s_userId := user; s_sessionGeneration := Some 0; s_aal := None; s_recovered := false; s_auth_time := None; s_cred := None |}.
Definition session (user : string) : WizardSession :=
  {| ws_userId := user; ws_pluginId := "p"; ws_state := Some (step, []); ws_pendingToken := None; ws_completedAt := None; ws_expiresAt := 1000 |}.

Definition db : LedgerDB := {|
  ld_users := {["alice" := flags; "bob" := flags]}; ld_handles := ∅;
  ld_tables := {| bt_badges := []; bt_eligibilities := ∅; bt_audit := [] |};
  ld_entries := ∅; ld_locks := ∅; ld_born := ∅; ld_checks := ∅; ld_calls := 0; ld_pinVerified := false;
  ld_sessions := {["s1" := session "alice"; "s2" := session "bob"]}; ld_enrollments := ∅;
|}.

Definition draws (prefix : string) : SubmitDraws :=
  {| sd_badges i := {| bd_id := prefix +:+ pretty i; bd_entry n := prefix +:+ "e" +:+ pretty i +:+ "." +:+ pretty n |}; sd_candidate := prefix +:+ "h" |}.

Definition submit (user sessionId prefix : string) (anchors : list string) : Z * WizardRequest :=
  (10, QSubmit (signedIn user) ∅ sessionId (JArr (JStr <$> anchors)) (draws prefix)).

(** Who holds which badge, by entry. *)
Definition rows (db : LedgerDB) : list (string * string * option string) :=
  (fun b => (id_of b, user_of b, ref_of b)) <$> badges db.

Definition interim : WizardWorld := world (interimBackend mac).
Definition remote (up : nat) : WizardWorld := world (signetBackend (SignetDemo.w up)).

(** Two handlers that take turns. *)
Definition turns (n : nat) : list nat := concat (replicate n [0; 1]%nat).

Lemma demo_ok locking : ledger_ok locking ∅ db.
Proof. split; try done; cbn; try (intros *; rewrite ?lookup_empty; done); try (by intros b Hb%elem_of_nil); by intros id Hid%not_elem_of_empty. Qed.

End WizardDemo.


(** ** What the guards do not cover *)

(** When the service stops answering before the second badge of a batch is registered, the first
    badge stays, although the answer is the one of a batch that was undone. *)
Lemma register_failure_keeps_badge :
  let '(a, db') := run_solo (answer (WizardDemo.remote 5) (WizardDemo.submit "alice" "s1" "a" ["x@corp.example"; "y@corp.example"])) WizardDemo.db in
  a = ASubmit (Ok (SError ISSUANCE_UNAVAILABLE_MESSAGE)) ∧ WizardDemo.rows db' = [("a0", "alice", Some "0")].
Proof. vm_compute. split; reflexivity. Qed.

(** Two overlapping submissions of one session both issue. *)
Lemma one_session_issues_twice :
  let qs := [WizardDemo.submit "alice" "s1" "a" ["x@corp.example"]; WizardDemo.submit "alice" "s1" "b" ["x@corp.example"]] in
  let '(ts, db') := pool_run (WizardDemo.turns 40) (answer WizardDemo.interim <$> qs, WizardDemo.db) in
  returned ts = [ASubmit (Ok (SComplete ["a0"])); ASubmit (Ok (SComplete ["b0"]))] ∧
  WizardDemo.rows db' = [("a0", "alice", Some "ae0.3"); ("b0", "alice", Some "ae0.3")].
Proof. vm_compute. split; reflexivity. Qed.

(** A wizard started anew while a submission runs deletes its session: the badge is issued, and the
    request ends in a server error. *)
Lemma restart_hides_issuance :
  let qs := [WizardDemo.submit "alice" "s1" "a" ["x@corp.example"]; (11, QStart (WizardDemo.signedIn "alice") ∅ "p" "s9")] in
  let '(ts, db') := pool_run (replicate 6 0%nat ++ replicate 10 1%nat ++ replicate 20 0%nat) (answer WizardDemo.interim <$> qs, WizardDemo.db) in
  head (returned ts) = Some (ASubmit (Err (TCode "P2025"))) ∧ WizardDemo.rows db' = [("a0", "alice", Some "ae0.3")].
Proof. vm_compute. split; reflexivity. Qed.

(** The badge issued at sign-in has no window: when it overlaps a deletion, its entry may be gone,
    and another account then gets the credential. *)
Lemma auto_issue_can_strand :
  let unit_of {A} (t : thread LedgerDB A) := _ ← t; mret tt in
  let wizard q := unit_of (answer WizardDemo.interim q) in
  let ts := [unit_of (autoIssueEmailDomainBadge WizardDemo.interim 12 "alice" "x@corp.example" (sd_badges (WizardDemo.draws "z") 0) "zh");
             wizard (WizardDemo.submit "alice" "s1" "a" ["x@corp.example"]); wizard (13, QDelete (WizardDemo.signedIn "alice") "a0");
             wizard (WizardDemo.submit "bob" "s2" "b" ["x@corp.example"])] in
  let sched := replicate 1 0%nat ++ replicate 20 1%nat ++ replicate 3 0%nat ++ replicate 20 2%nat ++ replicate 5 0%nat ++ replicate 20 3%nat in
  let '(_, db') := pool_run sched (ts, WizardDemo.db) in
  WizardDemo.rows db' = [("z0", "alice", Some "ae0.3"); ("b0", "bob", Some "be0.3")].
Proof. vm_compute. reflexivity. Qed.

