(* ===== verification/WizardProgress.v ===== *)
(** * Wizard requests end (server/wizard.ts, server/badge-actions.ts, lib/nullifier/index.ts)

    Retries, the healing of a reference and the wait for a lock are all bounded: a request ends
    after a number of its own operations that depends on the batch and on the backend only,
    whatever the others do. *)

From S2P Require Import Prelude Threads Matching Policy Selection RateLimit Registry Claims Vc Pairwise Nullifier.
From S2P Require Import SybilScore Session SybilConfig OidcAuthorize Bitstring Interleave StatusList OidcFlow Issuance Plugins Ledger Signet Wizard LedgerProofs WizardProofs.

Open Scope minister_scope.
Open Scope nat_scope.

(** Any answer. *)
Abbreviation ends n := (ends_within (fun _ => True) n).

Lemma ends_mono {DB A : Type} n m (t : thread DB A) : n ≤ m → ends n t → ends m t.
Proof. intros Hle. by apply ends_within_mono. Qed.

Lemma ends_bind {DB A B : Type} n m (t : thread DB A) (k : A → thread DB B) : ends n t → (∀ a, ends m (k a)) → ends (n + m) (t ≫= k).
Proof. intros Ht Hk. eapply ends_within_bind; [exact Ht|]. intros a _. apply Hk. Qed.

Lemma ends_tbind {DB E A B : Type} n m (t : thread DB (result E A)) (k : A → thread DB (result E B)) :
  ends n t → (∀ a, ends m (k a)) → ends (n + m) (tbind t k).
Proof. intros Ht Hk. eapply ends_within_tbind; [exact Ht|done|]. intros a _. apply Hk. Qed.

(** ** Backends *)

(** A backend whose operations end within [c] steps, and whose window adds no more. *)
Class LedgerBounded (svc : NullifierService) (c : nat) : Prop := {
  register_ends : ∀ draw anchor badgeType handle, ends c (registerDedup svc draw anchor badgeType handle);
  probe_ends : ∀ ref handle, ends c (entryExistsForOwner svc ref handle);
  release_ends : ∀ ref handle, ends c (release svc ref handle);
  window_ends : ∀ (A : Type) ref (fn : effect unit → effect A) n,
    (∀ alive, ends 1 alive → ends n (fn alive)) → ends (c + n) (serializeMintWindow svc ref fn);
}.

#[export] Instance interim_bounded mac : LedgerBounded (interimBackend mac) 2.
Proof.
  split.
  - intros draw anchor badgeType handle. change (ends 2 (interimRegister mac draw anchor badgeType handle)). unfold interimRegister.
    destruct (deriveDedupValue mac anchor badgeType); [|done].
    rewrite throwing_ok. apply (ends_bind 1 1); [done|]. intros [id|]; [done|]. by apply (ends_bind 1 0).
  - intros ref handle. by apply (ends_bind 1 1).
  - intros ref handle. by apply (ends_bind 1 1).
  - intros A ref fn n Hfn. eapply ends_mono; [|by apply (Hfn (mret (Ok tt)))]. lia.
Qed.

Section Remote.
Context (w : SignetWorld).

Lemma ensurePinVerified_ends : ends 3 (ensurePinVerified w).
Proof.
  apply (ends_bind 3 0); [|done]. unfold verifyPin. apply (ends_bind 1 2); [done|]. intros [|]; [done|].
  destruct (_ ≫= _) as [expected|e]; [|done]. apply (ends_bind 1 1); [done|]. intros [res|e]; [|done].
  destruct (checkPublicKey expected res); [|done]. by apply (ends_bind 1 0).
Qed.

Lemma sendT_ends req : ends 1 (sendT w req).
Proof. by apply (ends_bind 1 0). Qed.

Lemma evaluateDedupValue_ends anchor badgeType : ends 4 (evaluateDedupValue w anchor badgeType).
Proof.
  unfold evaluateDedupValue. apply (ends_tbind 0 4); [done|]. intros input. apply (ends_tbind 3 1); [apply ensurePinVerified_ends|].
  intros _. apply (ends_tbind 0 1); [done|]. intros _. destruct (sg_blind w input) as [blinded|]; [|done].
  apply (ends_tbind 1 0); [apply sendT_ends|]. intros res. destruct (negb _); [done|].
  apply (ends_tbind 0 0); [done|]. intros ev. apply (ends_tbind 0 0); [done|]. intros v. by destruct (Nat.eqb _ _).
Qed.

Lemma acquire_ends n ref : ends n (acquire n ref).
Proof. induction n as [|n IH]; [done|]. apply (ends_bind 1 n); [done|]. by intros [|]; [destruct n|]. Qed.

Lemma withSignetEntryLock_ends {A : Type} ref (fn : effect unit → effect A) n :
  (∀ alive, ends 1 alive → ends n (fn alive)) → ends (sg_patience w + (n + 1)) (withSignetEntryLock w ref fn).
Proof.
  intros Hfn. apply ends_bind; [apply acquire_ends|]. intros [|]; cbn [negb]; [|by destruct (n + 1)].
  apply ends_bind; [apply Hfn; by apply (ends_bind 1 0)|]. intros r. by apply (ends_bind 1 0).
Qed.

#[export] Instance signet_bounded : LedgerBounded (signetBackend w) (sg_patience w + 7).
Proof.
  split.
  - intros draw anchor badgeType handle. eapply (ends_mono (4 + 1)); [lia|]. apply ends_tbind; [apply evaluateDedupValue_ends|].
    intros value. apply (ends_tbind 1 0); [apply sendT_ends|]. intros res. by repeat case_match.
  - intros ref handle. eapply (ends_mono (3 + 1)); [lia|]. apply ends_tbind; [apply ensurePinVerified_ends|]. intros _.
    apply (ends_tbind 1 0); [apply sendT_ends|]. intros res. done.
  - intros ref handle. eapply (ends_mono (3 + (sg_patience w + (3 + 1)))); [lia|]. apply ends_tbind; [apply ensurePinVerified_ends|].
    intros _. apply withSignetEntryLock_ends. intros alive Ha. apply (ends_bind 1 2); [done|]. intros n. destruct (Nat.ltb 0 n); [done|].
    apply (ends_tbind 1 1); [done|]. intros _. apply (ends_tbind 1 0); [apply sendT_ends|]. done.
  - intros A ref fn n Hfn. eapply ends_mono; [|by apply withSignetEntryLock_ends]. lia.
Qed.

End Remote.

(** ** Requests *)

Section Requests.
Context (w : WizardWorld) (now : Z) (c : nat) {bounded : LedgerBounded (ww_ledger w) c}.

(** What undoing a batch with [l] fresh entries takes, and what a badge takes at most. *)
Definition undo_steps (l : nat) : nat := 2 + l * (3 * c + 1).
Definition badge_steps : nat := 3 + c + (c + (1 + (c + 1))) + 3 * (c + (c + (1 + (c + 1)))).

Lemma runPostCommit_ends ref handle context n : ends (n * c + 1) (runPostCommit (release (ww_ledger w) ref handle) context n).
Proof using bounded.
  induction n as [|n IH]; [done|]. cbn [runPostCommit]. eapply (ends_mono (c + (n * c + 1))); [lia|].
  apply ends_bind; [apply release_ends|]. intros [u|e]; [by destruct (n * c + 1)|exact IH].
Qed.

Lemma releaseAll_ends fresh : ends (length fresh * (3 * c + 1)) (releaseAll w fresh).
Proof using bounded.
  induction fresh as [|[ref handle] fresh IH]; [done|]. cbn [releaseAll length]. rewrite Nat.mul_succ_l, Nat.add_comm.
  apply ends_bind; [apply runPostCommit_ends|]. done.
Qed.

Lemma abort_ends {A : Type} (Q : result Thrown A → Prop) sessionId user anchorSeen b err n :
  (∀ e, Q (Err e)) → undo_steps (length (bs_fresh b)) ≤ n → ends_within Q n (abort w now sessionId user anchorSeen b err).
Proof using bounded.
  intros HQ Hn. eapply (ends_within_mono Q Q (undo_steps (length (bs_fresh b)) + 0)); [lia|done|].
  eapply ends_within_tbind; [|by intros e _; apply HQ|by intros u _; apply HQ].
  unfold undo_steps. eapply (ends_mono (1 + (length (bs_fresh b) * (3 * c + 1) + 1))); [lia|].
  apply ends_bind; [case_bool_decide; [done|by apply (ends_bind 1 0)]|]. intros _. apply ends_bind; [apply releaseAll_ends|].
  intros _. by destruct anchorSeen.
Qed.

Lemma ensureDedupHandle_ends user candidate : ends 3 (ensureDedupHandle user candidate).
Proof.
  apply (ends_bind 1 2); [done|]. intros [h|]; [done|]. apply (ends_tbind 1 1); [done|]. intros n. case_bool_decide; [done|].
  by apply (ends_bind 1 0).
Qed.

Lemma mintWindow_ends id user pluginId badge ref handle : ends (c + (1 + (c + 1))) (mintWindow w now id user pluginId badge ref handle).
Proof using bounded.
  rewrite <-(Nat.add_0_r (c + (1 + (c + 1)))). apply ends_bind; [|done]. apply window_ends. intros alive Ha. apply (ends_bind 1); [done|].
  intros [id'|e]; [|by destruct (c + 1)]. rewrite <-(Nat.add_0_r (c + 1)). apply ends_bind; [|done].
  apply ends_tbind; [apply probe_ends|]. intros present. by apply (ends_tbind 1 0).
Qed.

Lemma heal_ends n draws badge anchor handle id b :
  ends_within (fun h : result Thrown string * BatchState => length (bs_fresh h.2) ≤ length (bs_fresh b) + n)
    (n * (c + (c + (1 + (c + 1))))) (heal w n draws badge anchor handle id b).
Proof using bounded.
  revert b. induction n as [|n IH]; intros b; [cbn; lia|]. cbn [heal Nat.mul]. rewrite <-Nat.add_assoc. eapply ends_within_bind; [apply register_ends|].
  intros reg _. set (m := c + (1 + (c + 1)) + n * (c + (c + (1 + (c + 1))))).
  assert (∀ ref b', length (bs_fresh b') ≤ length (bs_fresh b) + 1 →
    ends_within (fun h : result Thrown string * BatchState => length (bs_fresh h.2) ≤ length (bs_fresh b) + S n) m
      (stillThere ← serializeMintWindow (ww_ledger w) ref (fun assertLockLive =>
         _ ←! act (repoint id ref); stillThere ←! entryExistsForOwner (ww_ledger w) ref handle; _ ←! assertLockLive; mret (Ok stillThere));
       match stillThere with
       | Err e => mret (Err e, b')
       | Ok true => mret (Ok ref, b')
       | Ok false => heal w n draws badge anchor handle id b'
       end)) as Hwin.
  { intros ref b' Hb'. apply (ends_within_bind (fun _ => True)).
    - apply window_ends. intros alive Ha. apply (ends_tbind 1); [done|]. intros _. apply ends_tbind; [apply probe_ends|].
      intros s. by apply (ends_tbind 1 0).
    - intros [[|]|e] _; [cbn; destruct (n * _); cbn; lia| |cbn; destruct (n * _); cbn; lia].
      eapply ends_within_mono; [|intros h Hh|apply IH]; [done|]. cbn beta in Hh. lia. }
  destruct reg as [[ref|ref|]|e]; [apply Hwin; cbn; rewrite length_app; cbn; lia|apply Hwin; lia|cbn; destruct m; cbn; lia..].
Qed.

(** A badge ends with at most four more fresh entries, or with the batch undone. *)
Definition fresh_within (l : nat) (r : result Thrown BatchState) : Prop := ∀ b, r = Ok b → length (bs_fresh b) ≤ l.

Lemma mintAnchored_ends sessionId user pluginId candidate anchorSeen badge anchor d b :
  ends_within (fresh_within (length (bs_fresh b) + 4)) (badge_steps + undo_steps (length (bs_fresh b) + 4))
    (mintAnchored w now sessionId user pluginId candidate anchorSeen badge anchor d b).
Proof using bounded.
  set (l := length (bs_fresh b)). set (Q := fresh_within (l + 4)). assert (∀ e, Q (Err e)) as Herr by done.
  assert (∀ l', l' ≤ l + 4 → undo_steps l' ≤ undo_steps (l + 4)) as Hundo by (unfold undo_steps; nia).
  assert (∀ b', length (bs_fresh b') ≤ l + 1 → ∀ ref handle,
    ends_within Q ((c + (1 + (c + 1))) + (3 * (c + (c + (1 + (c + 1)))) + undo_steps (l + 4)))
      (minted ← mintWindow w now (bd_id d) user pluginId badge ref handle;
       let b := match minted.1 with Some id => created id b' | None => b' end in
       match minted.2 with
       | Err e => abort w now sessionId user anchorSeen b (mintError pluginId e)
       | Ok true => mret (Ok b)
       | Ok false =>
           healed ← heal w 3 (bd_entry d) badge anchor handle (bd_id d) b;
           match healed.1 with
           | Ok _ => mret (Ok healed.2)
           | Err e => abort w now sessionId user anchorSeen healed.2 e
           end
       end)) as Hrest.
  { intros b' Hb' ref handle. eapply ends_within_bind; [apply mintWindow_ends|]. intros [o r] _. cbn [fst snd].
    set (b1 := match o with Some id => created id b' | None => b' end). assert (length (bs_fresh b1) ≤ l + 1) as Hb1 by (by destruct o). clearbody b1 l.
    destruct r as [[|]|e]; [intros b2 [= <-]; lia| |apply abort_ends; [done|]; specialize (Hundo (length (bs_fresh b1))); lia].
    eapply ends_within_bind; [apply heal_ends|]. intros [[ref'|e] b2] Hb2; cbn [fst snd] in *; [intros b3 [= <-]; lia|].
    apply abort_ends; [done|]. apply Hundo. lia. }
  unfold mintAnchored, badge_steps.
  eapply (ends_within_mono Q Q (3 + (c + ((c + (1 + (c + 1))) + (3 * (c + (c + (1 + (c + 1)))) + undo_steps (l + 4)))))); [lia|done|].
  eapply (ends_within_tbind (fun _ => True)); [destruct (bs_handle b); [done|apply ensureDedupHandle_ends]|done|]. intros handle _.
  eapply ends_within_tbind; [apply register_ends|done|]. intros reg _. destruct reg as [ref|ref|].
  - apply Hrest. cbn. rewrite length_app. cbn. lia.
  - apply Hrest. cbn. lia.
  - apply abort_ends; [done|]. cbn [bs_fresh]. fold l. pose proof (Hundo l ltac:(lia)). lia.
Qed.

Lemma mintOne_ends sessionId user pluginId candidate anchorSeen issued d b :
  ends_within (fresh_within (length (bs_fresh b) + 4)) (badge_steps + undo_steps (length (bs_fresh b) + 4))
    (mintOne w now sessionId user pluginId candidate anchorSeen issued d b).
Proof using bounded.
  assert (undo_steps (length (bs_fresh b)) ≤ undo_steps (length (bs_fresh b) + 4)) as Hundo by (unfold undo_steps; nia).
  unfold mintOne. destruct (is_sybilAnchor issued) as [anchor|].
  - destruct (_ && _); [apply abort_ends; [done|lia]|apply mintAnchored_ends].
  - unfold mintPlain. eapply (ends_within_mono _ _ (1 + undo_steps (length (bs_fresh b)))); [unfold badge_steps; lia|done|].
    apply (ends_within_bind (fun _ => True)); [done|]. intros [id|e] _; [intros b' [= <-]; cbn; lia|by apply abort_ends].
Qed.

Lemma mintAll_ends sessionId user pluginId candidate anchorSeen issued b l :
  length (bs_fresh b) + 4 * length issued ≤ l →
  ends (length issued * (badge_steps + undo_steps l)) (mintAll w now sessionId user pluginId candidate anchorSeen issued b).
Proof using bounded.
  revert b. induction issued as [|[badge d] issued IH]; intros b Hl; [done|]. cbn [mintAll length Nat.mul] in *.
  eapply ends_within_tbind; [eapply ends_within_mono; [|done|apply mintOne_ends]|done|].
  - assert (undo_steps (length (bs_fresh b) + 4) ≤ undo_steps l) by (unfold undo_steps; nia). lia.
  - intros b' Hb'. apply IH. specialize (Hb' b' eq_refl). lia.
Qed.

(** The plugins hand out [N] badges at most. *)
Context (N : nat) (Hplugins : ∀ id plugin state input user origin badges,
  ww_plugins w id = Some plugin → pl_handleStep plugin state input user origin = Ok (HComplete badges) → length badges ≤ N).

Definition request_steps : nat := N * (badge_steps + undo_steps (4 * N)) + 3 * c + 12.

Lemma submitStep_ends sessionId user origin input d : ends (N * (badge_steps + undo_steps (4 * N)) + 4) (submitStep w now sessionId user origin input d).
Proof using bounded Hplugins.
  rewrite (Nat.add_comm _ 4). unfold submitStep. apply (ends_bind 1 (3 + _)); [done|]. intros [row|]; [|done]. destruct (_ <? _)%Z; [by apply (ends_bind 1)|].
  destruct (ws_state row) as [st|]; [|done]. destruct (ww_plugins w (ws_pluginId row)) as [plugin|] eqn:Ep; [|done].
  destruct (pl_handleStep plugin _ input user origin) as [[state|badges|message]|e] eqn:Eh; [by apply (ends_tbind 1)| |done|done].
  pose proof (Hplugins _ _ _ _ _ _ _ Ep Eh) as HN. set (M := N * (badge_steps + undo_steps (4 * N))).
  eapply (ends_mono ((1 + (M + 1)) + 1)); [lia|]. apply ends_bind.
  - apply (ends_bind 1); [unfold isAnonBackupPending; by destruct (negb _)|]. intros [|]; [by destruct (M + 1)|].
    apply ends_tbind; [|intros b; by apply (ends_tbind 1 0)].
    eapply ends_mono; [|apply (mintAll_ends _ _ _ _ _ _ _ (4 * N)); cbn; rewrite length_imap; lia]. rewrite length_imap. unfold M. nia.
  - intros [ids|err]; [done|]. destruct err; try done; by destruct (isIssuanceInfraError _); [apply (ends_bind 1 0)|].
Qed.

Lemma deleteBadge_ends auth badgeId : ends (3 * c + 12) (deleteBadge w auth badgeId).
Proof using bounded.
  eapply (ends_mono (1 + (1 + (1 + (1 + ((1 + (3 * c + 1)) + 1)))))); [lia|]. unfold deleteBadge. destruct (negb _); [done|].
  apply ends_tbind; [done|]. intros user. apply ends_bind; [done|]. intros [[k badge]|]; [|done].
  apply ends_bind; [by case_bool_decide|]. intros owner. apply ends_bind; [done|]. intros count. case_bool_decide; [done|].
  apply ends_bind; [|intros _; by apply (ends_bind 1 0)]. destruct (present _), owner; try done.
  apply ends_bind; [done|]. intros [|]; [by destruct (3 * c + 1)|]. apply runPostCommit_ends.
Qed.

Lemma startWizard_ends pluginId user origin id : ends 4 (startWizard w now pluginId user origin id).
Proof.
  unfold startWizard. destruct (ww_plugins w pluginId) as [plugin|]; [|done]. destruct (negb _); [done|].
  apply (ends_bind 1 3); [unfold isAnonBackupPending; by destruct (negb _)|]. intros [|]; [done|].
  destruct (pl_startWizard plugin user origin); [|done]. apply (ends_bind 1 2); [done|]. intros _. apply (ends_bind 1 1); [done|].
  intros _. by apply (ends_tbind 1 0).
Qed.

End Requests.

Lemma answer_ends w c N q :
  LedgerBounded (ww_ledger w) c →
  (∀ id plugin state input user origin badges,
     ww_plugins w id = Some plugin → pl_handleStep plugin state input user origin = Ok (HComplete badges) → length badges ≤ N) →
  ends (request_steps c N) (answer w q).
Proof.
  intros Hb HN. unfold request_steps. set (M := N * (badge_steps c + undo_steps c (4 * N))).
  destruct q as [now [auth headers pluginId id|sessionId user|auth headers sessionId input d|token user origin input d|auth badgeId]]; unfold answer; cbn [fst snd].
  - apply (ends_mono ((1 + 4) + 0)); [lia|]. apply ends_bind; [|done]. apply ends_tbind; [done|]. intros user. apply startWizard_ends.
  - apply (ends_mono ((1 + 1) + 0)); [lia|]. apply ends_bind; [|done]. apply ends_bind; [done|]. intros [row|]; [|done].
    destruct (_ <? _)%Z; [by apply (ends_bind 1 0)|done].
  - apply (ends_mono ((1 + (M + 4)) + 0)); [lia|]. apply ends_bind; [|done]. apply ends_tbind; [done|]. intros user. by apply submitStep_ends.
  - apply (ends_mono ((1 + ((M + 4) + 0)) + 0)); [lia|]. apply ends_bind; [|done]. apply ends_bind; [done|]. intros [[id row]|]; [|by destruct (M + 4)].
    repeat (case_match; [by destruct (M + 4)|]). apply ends_tbind; [by apply submitStep_ends|done].
  - apply (ends_mono ((3 * c + 12) + 0)); [lia|]. apply ends_bind; [by apply deleteBadge_ends|done].
Qed.

(** C23: Every wizard request ends: once it has had a number of turns that depends on the backend's own
    bound and on how many badges a plugin hands out at once, it has answered, whatever ran in between
    and whatever failed: releases are retried three times, references healed three times, locks
    waited for within the patience of the backend. *)
Theorem requests_end w c N qs db sched i :
  LedgerBounded (ww_ledger w) c →
  (∀ id plugin state input user origin badges,
     ww_plugins w id = Some plugin → pl_handleStep plugin state input user origin = Ok (HComplete badges) → length badges ≤ N) →
  i < length qs → request_steps c N ≤ count_occ Nat.eq_dec sched i →
  ∃ a, (pool_run sched (answer w <$> qs, db)).1 !! i = Some (Ret a).
Proof.
  intros Hb HN Hi Hc. destruct (lookup_lt_is_Some_2 qs i Hi) as [q Hq].
  destruct (ends_within_pool (fun _ => True) sched (answer w <$> qs) db i (request_steps c N) (answer w q)) as (a & Ha & _);
    [by rewrite list_lookup_fmap, Hq|by apply answer_ends|done|]. by exists a.
Qed.

Lemma requests_end_witness :
  let qs := [WizardDemo.submit "alice" "s1" "a" ["x@corp.example"]; WizardDemo.submit "bob" "s2" "b" ["x@corp.example"]] in
  request_steps 2 2 = 204 ∧
  ∃ a, (pool_run (WizardDemo.turns 204) (answer WizardDemo.interim <$> qs, WizardDemo.db)).1 !! 1 = Some (Ret a).
Proof.
  intros qs. split; [reflexivity|].
  apply (requests_end WizardDemo.interim 2 2 qs WizardDemo.db (WizardDemo.turns 204) 1); [apply _| |cbn; lia|apply Nat.leb_le; vm_compute; reflexivity].
  intros id plugin state input user origin badges [= <-]. cbn. destruct input; try discriminate. intros [= <-]. rewrite length_take. lia.
Defined.
