(* ===== verification/PluginKit.v ===== *)
(** * What the badge plugins share (plugins/oauth-common.ts)

    A plugin starts a wizard and handles its steps. Around the state and the answer of Plugins.v,
    this file has the effects a step leaves behind (audit rows and mails), the parsing of inputs,
    the text and date functions of the language that the plugins use, and the helpers of
    oauth-common.ts. A plugin is a function of an environment: the clock, the values it draws and
    the answers of the sites it calls. *)

From S2P Require Import Prelude Threads Matching Policy Selection RateLimit Registry Claims Vc Pairwise Nullifier.
From S2P Require Import SybilScore Session SybilConfig OidcAuthorize Bitstring Interleave StatusList OidcFlow Disclosure Issuance Plugins Ledger.
From S2P Require Import SignInOtp PairProtocol Wizard.

Open Scope Z_scope.
Open Scope minister_scope.

(** ** Steps and their effects *)

Inductive PluginEffect :=
  | EAudit (action : string) (metadata : JObject)
  | EMail (to subject text : string).

(** What a call leaves behind, and its answer or the exception it throws. *)
Abbreviation outcome A := (list PluginEffect * result Thrown A)%type.

Definition fails (message : string) : outcome HandleStepResult := ([], Ok (HError message)).
Definition logged {A} (action : string) (metadata : JObject) (a : A) : outcome A := ([EAudit action metadata], Ok a).

(** [typeof state.data.key === "string" ? state.data.key : ""] *)
Definition dataString (key : string) (state : WizardState) : string :=
  match jget key (wz_data state) with Some (JStr s) => s | _ => "" end.

(** [{ ...state, currentStep, data }] *)
Definition moveTo (state : WizardState) (step : WizardStep) (data : JObject) : WizardState :=
  {| wz_pluginId := wz_pluginId state; wz_userId := wz_userId state; wz_currentStep := step; wz_data := data |}.

Definition unknownStep (state : WizardState) : outcome HandleStepResult :=
  fails ("Unknown wizard step: " +:+ st_id (wz_currentStep state)).

Definition badge (type : string) (claims : JObject) (anchor : option string) (reveals : bool) : IssuedBadge :=
  {| is_badge := {| bi_type := type; bi_attributes := claims; bi_claims := claims; bi_expiresAt := None; bi_eligibilities := [] |};
     is_sybilAnchor := anchor; is_revealsAnchor := reveals |}.

(** [badges.map((b) => b.type)] *)
Definition issuedTypes (badges : list IssuedBadge) : Json := JArr ((fun b => JStr (bi_type (is_badge b))) <$> badges).

(** [z.object(shape).safeParse(input)], and a string member of what it keeps. *)
Definition safeParse (s : Schema) (input : Json) : option JObject :=
  match input with JObj o => parse s o | _ => None end.
Definition member (key : string) (o : JObject) : string := match jget key o with Some (JStr s) => s | _ => "" end.

Definition minLength (n : nat) : Check := fun s => if Nat.ltb (String.length s) n then None else Some s.
Definition maxLength (n : Z) : Check := fun s => if n <? Z.of_nat (String.length s) then None else Some s.

Definition znumber (v : Json) : option Json := match v with JNum _ => Some v | _ => None end.

(** ** Requests *)

(** The body is that of a form. A request that fails has a message; so does a body that is not JSON. *)
Record Request := { rq_url : string; rq_post : bool; rq_headers : list (string * string); rq_body : list (string * string) }.
Record Response := { rs_ok : bool; rs_status : Z; rs_json : result string Json; rs_text : string }.
Abbreviation Fetch := (Request → result string Response).

Definition get (url : string) (headers : list (string * string)) : Request :=
  {| rq_url := url; rq_post := false; rq_headers := headers; rq_body := [] |}.

(** ** Text *)

Definition NL : string := String (Ascii.ascii_of_nat 10) "".
Definition QUOTE : string := String (Ascii.ascii_of_nat 34) "".
Definition lines (l : list string) : string := String.concat NL l.

(** [s.includes(t)] *)
Fixpoint includes (t s : string) : bool :=
  String.prefix t s || match s with EmptyString => false | String _ s' => includes t s' end.

(** [s.split(/\r?\n/)]: a carriage return before a line feed belongs to the separator. *)
Definition CR : Ascii.ascii := Ascii.ascii_of_nat 13.

Fixpoint dropCR (s : string) : string :=
  match s with
  | EmptyString => EmptyString
  | String c EmptyString => if decide (c = CR) then EmptyString else s
  | String c s' => String c (dropCR s')
  end.

Fixpoint dropCRs (l : list string) : list string :=
  match l with
  | [] => []
  | [last] => [last]
  | part :: l' => dropCR part :: dropCRs l'
  end.

Definition splitLines (s : string) : list string := dropCRs (split_on (Ascii.ascii_of_nat 10) s).

Definition is_hex (c : Ascii.ascii) : bool := is_digit_char c || in_range 97 102 c || in_range 65 70 c.
Definition is_lower_hex (c : Ascii.ascii) : bool := is_digit_char c || in_range 97 102 c.

(** [buffer.toString("hex")] *)
Definition toHex (bytes : Bytes) : string :=
  String.concat "" ((fun b => String.string_of_list_ascii
    (default "0"%char <$> [String.list_ascii_of_string "0123456789abcdef" !! Z.to_nat (b / 16); String.list_ascii_of_string "0123456789abcdef" !! Z.to_nat (b mod 16)])) <$> bytes).

(** [buffer.toString("base64")] *)
Definition BASE64_ALPHABET : list Ascii.ascii :=
  String.list_ascii_of_string "ABCDEFGHIJKLMNOPQRSTUVWXYZabcdefghijklmnopqrstuvwxyz0123456789+/".

Definition base64Char (x : Z) : Ascii.ascii := default "A"%char (BASE64_ALPHABET !! Z.to_nat x).
Definition padding (n : nat) : list Ascii.ascii :=
  match (n mod 3)%nat with 1%nat => ["="; "="]%char | 2%nat => ["="]%char | _ => [] end.
Definition toBase64 (bytes : Bytes) : string := String.string_of_list_ascii ((base64Char <$> sextets bytes) ++ padding (length bytes)).

Definition hexDigit (n : nat) : Ascii.ascii := default "0"%char (String.list_ascii_of_string "0123456789ABCDEF" !! n).

(** What [encodeURIComponent] leaves as it is. *)
Definition is_unreserved (c : Ascii.ascii) : bool :=
  is_lower_letter c || is_upper_letter c || is_digit_char c || bool_decide (c ∈ String.list_ascii_of_string "-_.!~*'()").

Fixpoint encodeURIComponent (s : string) : string :=
  match s with
  | EmptyString => EmptyString
  | String c s' =>
      if is_unreserved c then String c (encodeURIComponent s')
      else let n := Ascii.nat_of_ascii c in
           String "%"%char (String (hexDigit (n / 16)) (String (hexDigit (n mod 16)) (encodeURIComponent s')))
  end.

(** ** Dates *)

(** The year, month and day of an instant in milliseconds, and back. *)
Definition civil (ms : Z) : Z * Z * Z := (yearMonth (ms / 86400000), dayOfMonth (ms / 86400000)).

Definition dayNumber (y m d : Z) : Z :=
  let y' := if m <=? 2 then y - 1 else y in
  let mp := (m + 9) mod 12 in
  y' / 400 * 146097 + yearBase (y' mod 400) + monthBase mp + d - 1 - 719468.

(** [toISOString]; beyond the range of dates it throws. *)
Definition toISOString (ms : Z) : option string :=
  if MAX_TIME <? Z.abs ms then None
  else
    let '(y, m, d) := civil ms in
    let rest := ms mod 86400000 in
    let year := if (0 <=? y) && (y <=? 9999) then padded 4 y else (if y <? 0 then "-" else "+") +:+ padded 6 (Z.abs y) in
    Some (year +:+ "-" +:+ padded 2 m +:+ "-" +:+ padded 2 d +:+ "T" +:+ padded 2 (rest / 3600000) +:+ ":" +:+
          padded 2 (rest / 60000 mod 60) +:+ ":" +:+ padded 2 (rest / 1000 mod 60) +:+ "." +:+ padded 3 (rest mod 1000) +:+ "Z").

(** The number written by digits. *)
Definition number (l : list Ascii.ascii) : option Z :=
  foldl (fun acc c => n ← acc; if is_digit_char c then Some (n * 10 + (Z.of_nat (Ascii.nat_of_ascii c) - 48)) else None) (Some 0) l.

Definition timeOf (y mo d h mi s ms : Z) : option Z :=
  if (1 <=? mo) && (mo <=? 12) && (1 <=? d) && (d <=? 31) && (mi <=? 59) && (s <=? 59) && ((h <=? 23) || (h =? 24) && (mi + s + ms =? 0))
  then Some (dayNumber y mo d * 86400000 + h * 3600000 + mi * 60000 + s * 1000 + ms)
  else None.

(** [Date.parse] of [YYYY-MM-DDTHH:mm:ss.sssZ] and [YYYY-MM-DDTHH:mm:ssZ]; [None] is NaN. *)
Definition dateParse (text : string) : option Z :=
  match String.list_ascii_of_string text with
  | y1 :: y2 :: y3 :: y4 :: p1 :: m1 :: m2 :: p2 :: d1 :: d2 :: p3 :: h1 :: h2 :: p4 :: i1 :: i2 :: p5 :: s1 :: s2 :: rest =>
      if bool_decide ([p1; p2; p3; p4; p5] = String.list_ascii_of_string "--T::") then
        y ← number [y1; y2; y3; y4]; mo ← number [m1; m2]; d ← number [d1; d2]; h ← number [h1; h2]; mi ← number [i1; i2];
        s ← number [s1; s2];
        match rest with
        | [z] => if bool_decide (z = "Z"%char) then timeOf y mo d h mi s 0 else None
        | [p; x1; x2; x3; z] =>
            if bool_decide (p = "."%char) && bool_decide (z = "Z"%char) then ms ← number [x1; x2; x3]; timeOf y mo d h mi s ms else None
        | _ => None
        end
      else None
  | _ => None
  end.

(** ** Ages and tiers *)

Section Ages.
(** The offset of local time from UTC, in milliseconds, at an instant. *)
Context (tz : Z → Z).

Definition localDate (ms : Z) : Z * Z * Z := civil (ms + tz ms).

Definition monthsBetween (from to : Z) : Z :=
  let '(fy, fm, fd) := localDate from in
  let '(ty, tm, td) := localDate to in
  let months := (ty - fy) * 12 + (tm - fm) in
  let months := if td <? fd then months - 1 else months in
  Z.max 0 months.

Definition highestBucket (value : Z) (buckets : list Z) : option Z :=
  foldl (fun best b => if b <=? value then Some b else best) None buckets.

Definition dateFromUnixSeconds (seconds : Z) : option Z :=
  if negb (is_finite seconds) then None else if MAX_TIME <? Z.abs (seconds * 1000) then None else Some (seconds * 1000).

Definition accountAgeBadge (provider : string) (created : option Z) (anchor : string) (now : Z) : option IssuedBadge :=
  created ← created;
  bucket ← highestBucket (monthsBetween created now) ACCOUNT_AGE_MONTHS;
  Some (badge "account-age" [("provider", JStr provider); ("olderThanMonths", JNum bucket)] (Some anchor) false).

End Ages.

(** ** Tokens and credentials *)

(** The bytes the platform draws, in base64url. *)
Definition randomToken (drawn : Bytes) : string := toBase64Url drawn.

Definition pkcePair (sha256 : Bytes → Bytes) (drawn : Bytes) : string * string :=
  let verifier := toBase64Url drawn in (verifier, toBase64Url (sha256 (utf8 verifier))).

(** An environment variable that is set and not empty. *)
Definition envValue (env : environment) (name : string) : option string := present (env !! name).
Definition hasEnvCreds (env : environment) (names : list string) : bool :=
  forallb (fun name => bool_decide (is_Some (envValue env name))) names.

(** ** Plugins *)

(** The id and the badge types of a manifest, and the three functions. *)
Record PluginModel := {
  pm_env : Type;
  pm_id : string;
  pm_badgeTypes : list string;
  pm_isConfigured : pm_env → option bool;
  pm_start : pm_env → string → string → outcome WizardState;
  pm_handle : pm_env → WizardState → Json → string → string → outcome HandleStepResult;
}.

(** The plugin as the wizard calls it, in an environment. *)
Definition pluginIn (m : PluginModel) (e : pm_env m) : Plugin :=
  {| pl_startWizard := fun userId origin => (pm_start m e userId origin).2;
     pl_handleStep := fun state input userId origin => (pm_handle m e state input userId origin).2;
     pl_isConfigured := pm_isConfigured m e |}.

(** The states a plugin leads to, each step in its own environment. *)
Inductive reachable (m : PluginModel) : WizardState → Prop :=
  | reach_start e userId origin log state : pm_start m e userId origin = (log, Ok state) → reachable m state
  | reach_step e state input userId origin log state' :
      reachable m state → pm_handle m e state input userId origin = (log, Ok (HContinue state')) → reachable m state'.

(** An invariant of the states a plugin leads to. *)
Lemma reachable_ind' m (P : WizardState → Prop) :
  (∀ e userId origin log state, pm_start m e userId origin = (log, Ok state) → P state) →
  (∀ e state input userId origin log state',
     P state → pm_handle m e state input userId origin = (log, Ok (HContinue state')) → P state') →
  ∀ state, reachable m state → P state.
Proof. intros Hs Hh state H. induction H; eauto. Qed.

(** ** Lemmas *)

Lemma dayNumber_civil days : dayNumber (yearMonth days).1 (yearMonth days).2 (dayOfMonth days) = days.
Proof.
  rewrite yearMonth_eq. cbn [fst snd]. destruct (coords_range days) as [Hy Hm]. pose proof (day_eq days) as Hd.
  assert (dayOfMonth days = doyOf days - monthBase (mpOf days) + 1) as -> by reflexivity. unfold dayNumber. cbn zeta.
  set (m := if mpOf days <? 10 then mpOf days + 3 else mpOf days - 9).
  assert ((m + 9) mod 12 = mpOf days) as ->.
  { subst m. destruct (Z.ltb_spec (mpOf days) 10); [|replace (mpOf days - 9 + 9) with (mpOf days) by lia; apply Z.mod_small; lia].
    replace (mpOf days + 3 + 9) with (mpOf days + 1 * 12) by lia. rewrite Z.mod_add by lia. apply Z.mod_small. lia. }
  set (y' := if m <=? 2 then _ else _). assert (y' = yoeOf days + eraOf days * 400) as ->.
  { subst y'. destruct (Z.leb_spec m 2); lia. }
  rewrite Z.div_add, Z.mod_add, Z.div_small, Z.mod_small by lia. lia.
Qed.

Lemma dayOfMonth_range days : 1 <= dayOfMonth days <= 31.
Proof. pose proof (monthFirst_range days). unfold monthFirst in *. lia. Qed.

Lemma month_range days : 1 <= (yearMonth days).2 <= 12.
Proof. rewrite yearMonth_eq. cbn [fst snd]. destruct (coords_range days). destruct (Z.ltb_spec (mpOf days) 10); lia. Qed.

(** Numbers below a bound, by computing. *)
Lemma below_forallb (f : Z → bool) n z : forallb f (Z.of_nat <$> seq 0 (Z.to_nat n)) = true → 0 <= z < n → f z = true.
Proof.
  rewrite forallb_forall. intros H Hz. apply H, list_elem_of_In, list_elem_of_fmap. exists (Z.to_nat z).
  split; [lia|]. apply elem_of_seq. lia.
Qed.

Definition reads (width : nat) (z : Z) : bool :=
  Nat.eqb (String.length (padded width z)) width && bool_decide (number (String.list_ascii_of_string (padded width z)) = Some z).

Lemma length_list_ascii s : length (String.list_ascii_of_string s) = String.length s.
Proof. induction s as [|c s IH]; cbn; [done|by rewrite IH]. Qed.

Lemma reads_padded width z : reads width z = true →
  ∃ l, String.list_ascii_of_string (padded width z) = l ∧ length l = width ∧ number l = Some z.
Proof.
  intros [Hl Hn]%andb_true_iff. bool_hyps. eexists. split; [done|]. split; [|done]. rewrite length_list_ascii. by apply Nat.eqb_eq.
Qed.

Lemma reads2 z : 0 <= z < 100 → reads 2 z = true.
Proof. apply below_forallb. vm_compute. reflexivity. Qed.
Lemma reads3 z : 0 <= z < 1000 → reads 3 z = true.
Proof. apply below_forallb. vm_compute. reflexivity. Qed.
Lemma reads4 z : 0 <= z < 10000 → reads 4 z = true.
Proof. apply below_forallb. vm_compute. reflexivity. Qed.

Lemma list_ascii_app s t : String.list_ascii_of_string (s +:+ t) = String.list_ascii_of_string s ++ String.list_ascii_of_string t.
Proof. induction s as [|c s IH]; [done|]. change (String c s +:+ t) with (String c (s +:+ t)). cbn. by rewrite IH. Qed.

(** Up to the year 9999, [Date.parse] reads back what [toISOString] writes. *)
Lemma dateParse_toISOString ms : 0 <= ms <= YEAR_9999_END → ∃ text, toISOString ms = Some text ∧ dateParse text = Some ms.
Proof.
  intros Hms. unfold toISOString. rewrite (proj2 (Z.ltb_ge _ _)) by (unfold MAX_TIME, YEAR_9999_END in *; lia).
  unfold civil. set (days := ms / 86400000).
  assert (0 <= days <= 2932896) as Hd by (subst days; unfold YEAR_9999_END in *; Z.to_euclidean_division_equations; lia).
  destruct (yearMonth_range days Hd) as [Hy _]. pose proof (month_range days) as Hm. pose proof (dayOfMonth_range days) as Hdom.
  pose proof (dayNumber_civil days) as Hnum. destruct (yearMonth days) as [y m]. cbn [fst snd] in *.
  rewrite (proj2 (Z.leb_le 0 y)), (proj2 (Z.leb_le y 9999)) by lia. cbn [andb]. eexists. split; [done|].
  set (d := dayOfMonth days) in *. set (r := ms mod 86400000).
  assert (0 <= r < 86400000) as Hr by (subst r; apply Z.mod_pos_bound; lia).
  assert (ms = days * 86400000 + r) as Hsplit by (subst days r; pose proof (Z.div_mod ms 86400000); lia).
  set (h := r / 3600000). set (mi := r / 60000 mod 60). set (s := r / 1000 mod 60). set (x := r mod 1000).
  assert (0 <= h <= 23 /\ 0 <= mi < 60 /\ 0 <= s < 60 /\ 0 <= x < 1000 /\ r = h * 3600000 + mi * 60000 + s * 1000 + x) as (Hh & Hmi & Hs & Hx & Hsum)
    by (subst h mi s x; Z.to_euclidean_division_equations; lia).
  destruct (reads_padded 4 y (reads4 y ltac:(lia))) as (ly & Ey & Ly & Ny), (reads_padded 2 m (reads2 m ltac:(lia))) as (lm & Em & Lm & Nm),
    (reads_padded 2 d (reads2 d ltac:(lia))) as (ld & Ed & Ld & Nd), (reads_padded 2 h (reads2 h ltac:(lia))) as (lh & Eh & Lh & Nh),
    (reads_padded 2 mi (reads2 mi ltac:(lia))) as (li & Ei & Li & Ni), (reads_padded 2 s (reads2 s ltac:(lia))) as (ls & Es & Ls & Ns),
    (reads_padded 3 x (reads3 x ltac:(lia))) as (lx & Ex & Lx & Nx).
  unfold dateParse. rewrite !list_ascii_app, Ey, Em, Ed, Eh, Ei, Es, Ex. cbn [String.list_ascii_of_string app].
  destruct ly as [|y1 [|y2 [|y3 [|y4 []]]]]; try done. destruct lm as [|m1 [|m2 []]]; try done. destruct ld as [|d1 [|d2 []]]; try done.
  destruct lh as [|h1 [|h2 []]]; try done. destruct li as [|i1 [|i2 []]]; try done. destruct ls as [|s1 [|s2 []]]; try done.
  destruct lx as [|x1 [|x2 [|x3 []]]]; try done. cbn [app]. rewrite bool_decide_eq_true_2 by done.
  rewrite Ny, Nm, Nd, Nh, Ni, Ns. cbn [mbind option_bind]. rewrite !bool_decide_eq_true_2 by done. cbn [andb]. rewrite Nx. cbn [mbind option_bind].
  unfold timeOf. rewrite !(proj2 (Z.leb_le _ _)) by lia. cbn [andb orb]. f_equal. lia.
Qed.
