(* ===== verification/EmailPlugins.v ===== *)
(** * The e-mail plugins (plugins/email-domain, plugins/email-exact)

    Both mail a link with a drawn token to the address a user types and issue a badge at the next
    step: one names the domain, the other the address. The HTML part of the mail is not modelled.
    The last part composes them with the wizard: what the link route requires, and what the
    server action for steps does not. *)

From S2P Require Import Prelude Threads Matching Policy Selection RateLimit Registry Claims Vc Pairwise Nullifier.
From S2P Require Import SybilScore Session SybilConfig OidcAuthorize Bitstring Interleave StatusList OidcFlow Disclosure Issuance Plugins Ledger.
From S2P Require Import SignInOtp PairProtocol Wizard WizardProofs PluginKit.

Open Scope Z_scope.
Open Scope minister_scope.

(** The drawn bytes of the token, and the message of the schema library's first issue with an input
    it refuses. Its e-mail test is a parameter of the plugins. *)
Record EmailEnv := { ee_drawn : Bytes; ee_issue : Json → option string }.

Definition STEP_FORM : string := "collect-email".
Definition STEP_MAGIC : string := "wait-magic-link".

Definition FormInput (isEmail : string → bool) : Schema := object [required "email" (zstring [matching isEmail])].
Definition VerifyInput : Schema := object [required "token" (zstring [minLength 8])].

Definition deriveDomain (email : string) : option string :=
  match split_last "@"%char email with
  | None | Some (_, "") => None
  | Some (_, domain) => Some (toLowerCase domain)
  end.

Definition emailForm (pluginId title description : string) (userId : string) : WizardState :=
  {| wz_pluginId := pluginId; wz_userId := userId;
     wz_currentStep :=
       {| st_id := STEP_FORM;
          st_payload := PForm {| fp_title := title; fp_description := Some description;
            fp_fields := [{| ff_name := "email"; ff_label := "Email address"; ff_type := "email"; ff_placeholder := Some "you@example.com";
                             ff_helpText := None; ff_required := Some true; ff_options := None |}];
            fp_submitLabel := Some "Send verification link" |} |};
     wz_data := [] |}.

Definition verifyUrl (pluginId origin token : string) : string :=
  origin +:+ "/badges/new/" +:+ pluginId +:+ "/verify?token=" +:+ encodeURIComponent token.

Definition mailText (what url : string) : string :=
  lines ["Someone (hopefully you) asked Minister to issue a badge proving"; what; "";
         "If that's you, click the link below to complete the proof:"; url; "";
         "If not, ignore this email — no badge will be issued."].

Definition magicStep (email token : string) : WizardStep :=
  {| st_id := STEP_MAGIC;
     st_payload := PMagicLink {| mp_sentTo := email; mp_description := Some "Open the link in the email to finish."; mp_expectedToken := Some token |} |}.

(** ** email-domain *)

Module EmailDomain.

Definition emailDomainMakeFormStep : string → WizardState :=
  emailForm "email-domain" "Verify an email domain"
    "Enter any email address at the domain you want to attest. Minister will email a verification link; clicking it issues the badge.".

Definition emailDomainHandleStep (isEmail : string → bool) (e : EmailEnv) (state : WizardState) (input : Json) (userId origin : string) : outcome HandleStepResult :=
  if bool_decide (st_id (wz_currentStep state) = STEP_FORM) then
    match safeParse (FormInput isEmail) input with
    | None => fails (ee_issue e input ?? "Invalid email")
    | Some parsed =>
        let email := toLowerCase (member "email" parsed) in
        match deriveDomain email with
        | None => fails "Couldn't parse domain from email"
        | Some domain =>
            let token := randomToken (ee_drawn e) in
            ([EMail email "Verify your email for Minister"
                (mailText ("control of an email address at " +:+ domain +:+ ".") (verifyUrl "email-domain" origin token));
              EAudit "plugin.email_domain.verification_sent" [("domain", JStr domain)]],
             Ok (HContinue (moveTo state (magicStep email token) [("domain", JStr domain); ("email", JStr email)])))
        end
    end
  else if bool_decide (st_id (wz_currentStep state) = STEP_MAGIC) then
    match safeParse VerifyInput input with
    | None => fails "Missing verification token"
    | Some _ =>
        let domain := dataString "domain" state in
        let email := dataString "email" state in
        if bool_decide (domain = "") || bool_decide (email = "")
        then fails "Wizard state missing the verified address — restart the flow."
        else match normalizeEmailAnchor email with
             | Err e => ([], Err (TMsg e))
             | Ok sybilAnchor =>
                 logged "plugin.email_domain.verified" [("domain", JStr domain)]
                   (HComplete [badge "email-domain" [("domain", JStr domain)] (Some sybilAnchor) false])
             end
    end
  else unknownStep state.

Definition emailDomainPlugin (isEmail : string → bool) : PluginModel :=
  {| pm_env := EmailEnv; pm_id := "email-domain"; pm_badgeTypes := ["email-domain"]; pm_isConfigured := fun _ => None;
     pm_start := fun _ userId _ => ([], Ok (emailDomainMakeFormStep userId)); pm_handle := emailDomainHandleStep isEmail |}.

End EmailDomain.

(** ** email-exact *)

Module EmailExact.

Definition emailExactMakeFormStep : string → WizardState :=
  emailForm "email-exact" "Verify an email address"
    "Enter the email address you want to attest. Minister will email a verification link; clicking it issues a badge revealing the canonical (normalized) form of that address — an exact-string match by a relying party is not guaranteed.".

Definition emailExactHandleStep (isEmail : string → bool) (e : EmailEnv) (state : WizardState) (input : Json) (userId origin : string) : outcome HandleStepResult :=
  if bool_decide (st_id (wz_currentStep state) = STEP_FORM) then
    match safeParse (FormInput isEmail) input with
    | None => fails (ee_issue e input ?? "Invalid email")
    | Some parsed =>
        let email := toLowerCase (member "email" parsed) in
        match deriveDomain email with
        | None => fails "Couldn't parse domain from email"
        | Some domain =>
            let token := randomToken (ee_drawn e) in
            ([EMail email "Verify your email for Minister" (mailText "control of this exact email address." (verifyUrl "email-exact" origin token));
              EAudit "plugin.email_exact.verification_sent" [("domain", JStr domain)]],
             Ok (HContinue (moveTo state (magicStep email token) [("email", JStr email)])))
        end
    end
  else if bool_decide (st_id (wz_currentStep state) = STEP_MAGIC) then
    match safeParse VerifyInput input with
    | None => fails "Missing verification token"
    | Some _ =>
        let email := dataString "email" state in
        if bool_decide (email = "") then fails "Wizard state missing the verified address — restart the flow."
        else match normalizeEmailAnchor email with
             | Err e => ([], Err (TMsg e))
             | Ok normalized =>
                 let domain := deriveDomain normalized ?? "" in
                 logged "plugin.email_exact.verified" [("domain", JStr domain)]
                   (HComplete [badge "email-exact" [("email", JStr normalized)] (Some normalized) true])
             end
    end
  else unknownStep state.

Definition emailExactPlugin (isEmail : string → bool) : PluginModel :=
  {| pm_env := EmailEnv; pm_id := "email-exact"; pm_badgeTypes := ["email-exact"]; pm_isConfigured := fun _ => None;
     pm_start := fun _ userId _ => ([], Ok (emailExactMakeFormStep userId)); pm_handle := emailExactHandleStep isEmail |}.

End EmailExact.

(** ** The link and the server action *)

(** A token of eight characters or more is as good as any other. *)
Lemma token_is_ignored isEmail (m : PluginModel) (e : pm_env m) state token token' userId origin :
  m = EmailDomain.emailDomainPlugin isEmail ∨ m = EmailExact.emailExactPlugin isEmail → st_id (wz_currentStep state) = STEP_MAGIC →
  (8 ≤ String.length token)%nat → (8 ≤ String.length token')%nat →
  pm_handle m e state (JObj [("token", JStr token)]) userId origin = pm_handle m e state (JObj [("token", JStr token')]) userId origin.
Proof.
  intros Hm Hst H H'.
  assert (∀ t, (8 ≤ String.length t)%nat → safeParse VerifyInput (JObj [("token", JStr t)]) = Some [("token", JStr t)]) as Hp.
  { intros t Ht. assert (minLength 8 t = Some t) as Hl by (unfold minLength; by rewrite (proj2 (Nat.ltb_ge _ _))).
    cbn -[minLength]. rewrite decide_True by done. cbn -[minLength]. unfold runChecks. cbn -[minLength]. by rewrite Hl. }
  destruct Hm as [-> | ->]; cbn [pm_handle EmailDomain.emailDomainPlugin EmailExact.emailExactPlugin];
    unfold EmailDomain.emailDomainHandleStep, EmailExact.emailExactHandleStep; rewrite Hst, bool_decide_eq_false_2, bool_decide_eq_true_2 by done; by rewrite !Hp.
Qed.

(** The route of the mailed link answers an error, and changes nothing, unless some open session waits
    for the token it carries. *)
Lemma link_needs_token w now token userId origin input d db :
  (∀ id row, ld_sessions db !! id = Some row → ws_pendingToken row ≠ Some token) →
  run_solo (resumeViaPendingToken w now token userId origin input d) db = (Ok (RError "Link is invalid or already used"), db).
Proof.
  intros H. unfold resumeViaPendingToken. rewrite run_solo_read.
  assert (sessionByToken token db = None) as ->; [|done]. unfold sessionByToken.
  destruct (list_find _ _) as [[i [id row]]|] eqn:E; [|done]. exfalso. apply list_find_Some in E as (Hl & Ht & _).
  apply list_elem_of_lookup_2, elem_of_map_to_list in Hl. by eapply H.
Qed.

(** The server action for steps asks for nothing more than the plugin: a session that waits for the mailed
    token answers a guessed token the way it answers the mailed one. *)
Lemma guess_completes isEmail w now (m : PluginModel) (e : pm_env m) sessionId userId origin token token' row step data d db :
  m = EmailDomain.emailDomainPlugin isEmail ∨ m = EmailExact.emailExactPlugin isEmail →
  ww_plugins w (ws_pluginId row) = Some (pluginIn m e) →
  openSession sessionId userId db = Some row → ws_state row = Some (step, data) → st_id step = STEP_MAGIC →
  (8 ≤ String.length token)%nat → (8 ≤ String.length token')%nat →
  run_solo (submitStep w now sessionId userId origin (JObj [("token", JStr token)]) d) db =
  run_solo (submitStep w now sessionId userId origin (JObj [("token", JStr token')]) d) db.
Proof.
  intros Hm Hw Hrow Hst Hid H H'. unfold submitStep. rewrite !run_solo_read, Hrow. destruct (ws_expiresAt row <? now); [done|].
  rewrite Hst, Hw. cbn [pluginIn pl_handleStep]. by rewrite (token_is_ignored isEmail m e _ token token') by done.
Qed.

Module EmailDemo.

Definition env : EmailEnv := {| ee_drawn := replicate 32 7; ee_issue := fun _ => None |}.
Definition world : WizardWorld :=
  {| ww_vc := VcDemo.w; ww_isEmail := includes "@"; ww_isCuid := fun _ => true; ww_ledger := interimBackend WizardDemo.mac;
     ww_plugins := fun id => if bool_decide (id = "email-exact") then Some (pluginIn (EmailExact.emailExactPlugin (includes "@")) env) else None;
     ww_anonEnabled := false |}.

Definition submit (input : JObject) (prefix : string) : effect SubmitResult :=
  submitStepAction world 10 (WizardDemo.signedIn "alice") ∅ "s" (JObj input) (WizardDemo.draws prefix).

(** Alice types an address that is not hers and then a token she made up. *)
Definition attack : effect SubmitResult :=
  _ ←! startWizardAction world 10 (WizardDemo.signedIn "alice") ∅ "email-exact" "s";
  _ ←! submit [("email", JStr "ceo@corp.example")] "a";
  submit [("token", JStr "anything")] "b".

(** What the form step mails, and to whom. *)
Definition mailed : list PluginEffect :=
  (EmailExact.emailExactHandleStep (includes "@") env (EmailExact.emailExactMakeFormStep "alice") (JObj [("email", JStr "ceo@corp.example")]) "alice" "o").1.

End EmailDemo.

(** A badge for an address is issued to a user who never had its mail: the two steps go through the server
    action, and the token of the mail is not asked for. *)
Lemma badge_without_inbox :
  let '(answer, db) := run_solo EmailDemo.attack WizardDemo.db in
  answer = Ok (SComplete ["b0"]) ∧
  (fun b => (br_userId (bg_row b), br_type (bg_row b), br_attributes (bg_row b) ≫= (.!! "email"))) <$> bt_badges (ld_tables db)
    = [("alice", "email-exact", Some (RString "ceo@corp.example"))] ∧
  omap (fun e => match e with EMail to _ _ => Some to | _ => None end) EmailDemo.mailed = ["ceo@corp.example"] ∧
  includes "anything" (randomToken (ee_drawn EmailDemo.env)) = false.
Proof. vm_compute. split_and!; reflexivity. Qed.
