(* ===== verification/ChallengePlugins.v ===== *)
(** * The challenge plugins (plugins/dns-txt, plugins/hackernews, plugins/wallet)

    Each gives the user a value only the owner of something can publish or sign: a TXT record of a
    domain, a token in a profile, a signature of a wallet. Resolvers, the sites that are asked and
    the two signature libraries are parameters. *)

From S2P Require Import Prelude Threads Matching Policy Selection RateLimit Registry Claims Vc Pairwise Nullifier.
From S2P Require Import SybilScore Session SybilConfig OidcAuthorize Bitstring Interleave StatusList OidcFlow Disclosure Issuance Plugins Ledger.
From S2P Require Import SignInOtp PairProtocol Wizard PluginKit.

Open Scope Z_scope.
Open Scope minister_scope.

(** A form of text fields. *)
Definition textField (name label placeholder : string) (help : option string) : FormFieldDef :=
  {| ff_name := name; ff_label := label; ff_type := "text"; ff_placeholder := Some placeholder; ff_helpText := help;
     ff_required := Some true; ff_options := None |}.
Definition formStep (id title description : string) (fields : list FormFieldDef) (submit : string) : WizardStep :=
  {| st_id := id; st_payload := PForm {| fp_title := title; fp_description := Some description; fp_fields := fields; fp_submitLabel := Some submit |} |}.
Definition infoStep (id title body continue : string) : WizardStep :=
  {| st_id := id; st_payload := PInfo {| ip_title := title; ip_body := body; ip_continueLabel := Some continue |} |}.
Definition startAt (pluginId userId : string) (step : WizardStep) : WizardState :=
  {| wz_pluginId := pluginId; wz_userId := userId; wz_currentStep := step; wz_data := [] |}.

(** ** dns-txt *)

Module DnsTxt.

Definition CHALLENGE_SUBDOMAIN : string := "_minister-challenge".
Definition CHALLENGE_PREFIX : string := "minister-verification=".
Definition challengeHost (domain : string) : string := CHALLENGE_SUBDOMAIN +:+ "." +:+ domain.
Definition challengeValue (token : string) : string := CHALLENGE_PREFIX +:+ token.

Definition is_label_end (c : Ascii.ascii) : bool := is_lower_letter c || is_digit_char c.
Definition is_label_char (c : Ascii.ascii) : bool := is_label_end c || bool_decide (c = "-"%char).

(** [/^[a-z0-9]([a-z0-9-]{0,61}[a-z0-9])?$/] *)
Definition LABEL_RE (label : string) : bool :=
  let l := String.list_ascii_of_string label in
  match head l, last l with
  | Some first, Some final => is_label_end first && is_label_end final && forallb is_label_char l && Nat.leb (length l) 63
  | _, _ => false
  end.

(** [/^[a-z]{2,}$/] *)
Definition TLD_RE (tld : string) : bool := Nat.leb 2 (String.length tld) && all_chars is_lower_letter tld.

(** [/[/:@?#\s]/] *)
Definition is_url_char (c : Ascii.ascii) : bool := is_space c || bool_decide (c ∈ String.list_ascii_of_string "/:@?#").

(** [host.endsWith(".") ? host.slice(0, -1) : host] *)
Fixpoint dropDot (host : string) : string :=
  match host with
  | EmptyString => EmptyString
  | String c EmptyString => if decide (c = "."%char) then EmptyString else host
  | String c rest => String c (dropDot rest)
  end.

Definition normalizeDomain (input : string) : option string :=
  let host := toLowerCase (trim input) in
  if Nat.eqb (String.length host) 0 then None
  else if negb (all_chars (fun c => negb (is_url_char c)) host) then None
  else
    let host := dropDot host in
    if Nat.eqb (String.length host) 0 || Nat.ltb 253 (String.length host) then None
    else
      let labels := split_on "."%char host in
      if Nat.ltb (length labels) 2 then None
      else if negb (forallb LABEL_RE labels) then None
      else match last labels with
           | Some tld => if TLD_RE tld then Some host else None
           | None => None
           end.

Definition txtRecordsContainChallenge (records : list (list string)) (expectedValue : string) : bool :=
  if bool_decide (expectedValue = "") then false
  else existsb (fun chunks => bool_decide (trim (String.concat "" chunks) = expectedValue)) records.

Definition buildDomainControlBadge (domain : string) : IssuedBadge :=
  badge "domain-control" [("domain", JStr domain)] (Some domain) true.

Definition CORROBORATING_RESOLVERS : list string := ["1.1.1.1"; "8.8.8.8"].

(** What a resolver rejects with. *)
Record DnsError := { dn_code : option string; dn_message : string }.

(** The drawn bytes of the token, and the answer of a resolver for the TXT records of a host. *)
Record DnsEnv := { de_drawn : Bytes; de_resolveTxtVia : string → string → result DnsError (list (list string)) }.

Definition DNS_STEP_FORM : string := "dns-domain".
Definition DNS_STEP_VERIFY : string := "dns-verify".
Definition DnsFormInput : Schema := object [required "domain" (zstring [min1])].

Definition dnsMakeFormStep (userId : string) : WizardState :=
  startAt "dns-txt" userId
    (formStep DNS_STEP_FORM "Prove control of a domain"
       "Enter a domain you control. Minister gives you a one-time TXT record to publish in that domain's DNS; once it resolves, the badge is issued. The badge records only the domain."
       [textField "domain" "Domain" "example.com" None] "Continue").

Definition dnsVerifyStepBody (domain token : string) : string :=
  lines ["Add this DNS TXT record to prove control of " +:+ domain +:+ ":"; "";
         "    Host / Name:  " +:+ challengeHost domain;
         "    Type:         TXT";
         "    Value:        " +:+ challengeValue token; "";
         "1. Open your DNS provider's dashboard for " +:+ domain +:+ ".";
         "2. Create a new TXT record with the host and value above (some providers";
         "   want just " +:+ QUOTE +:+ "_minister-challenge" +:+ QUOTE +:+ " as the host and add the domain for you).";
         "3. Save it, then come back and click Verify."; "";
         "DNS changes can take a few minutes — sometimes longer — to propagate. If the first check comes up empty, wait a moment and click Verify again. You can delete the record once the badge is issued."].

Definition isNoRecordError (err : DnsError) : bool :=
  bool_decide (dn_code err = Some "ENOTFOUND") || bool_decide (dn_code err = Some "ENODATA").

Inductive ResolverOutcome := Match | NoMatch | NoRecord | Errored (message : string).

Definition queryResolver (e : DnsEnv) (server host expectedValue : string) : ResolverOutcome :=
  match de_resolveTxtVia e server host with
  | Ok records => if txtRecordsContainChallenge records expectedValue then Match else NoMatch
  | Err err => if isNoRecordError err then NoRecord else Errored (dn_message err)
  end.

Definition isMatch (o : ResolverOutcome) : bool := match o with Match => true | _ => false end.
Definition isNoRecord (o : ResolverOutcome) : bool := match o with NoRecord => true | _ => false end.
Definition errorOf (o : ResolverOutcome) : option string := match o with Errored m => Some m | _ => None end.

Definition dnsHandleStep (e : DnsEnv) (state : WizardState) (input : Json) (userId origin : string) : outcome HandleStepResult :=
  if bool_decide (st_id (wz_currentStep state) = DNS_STEP_FORM) then
    match safeParse DnsFormInput input with
    | None => fails "Enter a domain."
    | Some parsed =>
        match normalizeDomain (member "domain" parsed) with
        | None => fails "That doesn't look like a domain. Enter a bare hostname like example.com — not a URL, IP address, or localhost."
        | Some domain =>
            let token := randomToken (de_drawn e) in
            logged "plugin.dns_txt.challenge_issued" []
              (HContinue (moveTo state (infoStep DNS_STEP_VERIFY "Publish the TXT record" (dnsVerifyStepBody domain token) "Verify")
                            [("domain", JStr domain); ("token", JStr token)]))
        end
    end
  else if bool_decide (st_id (wz_currentStep state) = DNS_STEP_VERIFY) then
    let domain := dataString "domain" state in
    let token := dataString "token" state in
    if bool_decide (domain = "") || bool_decide (token = "") then fails "This flow lost its challenge token — restart it."
    else match normalizeDomain domain with
         | None => fails "This flow lost a valid domain — restart it."
         | Some host =>
             let outcomes := (fun server => queryResolver e server (challengeHost host) (challengeValue token)) <$> CORROBORATING_RESOLVERS in
             if forallb isMatch outcomes
             then logged "plugin.dns_txt.verified" [("domain", JStr host)] (HComplete [buildDomainControlBadge host])
             else match head (omap errorOf outcomes) with
                  | Some message => fails ("DNS lookup failed: " +:+ message +:+ ". Wait a moment and click Verify again.")
                  | None =>
                      if existsb isNoRecord outcomes
                      then fails "We couldn't find the TXT record yet. DNS changes can take a few minutes to propagate — double-check the host and value, then wait a moment and click Verify again."
                      else fails "We reached the DNS record but the verification value didn't match yet. If you just added it, DNS can take a few minutes to propagate — wait a moment and click Verify again."
                  end
         end
  else unknownStep state.

Definition dnsTxtPlugin : PluginModel :=
  {| pm_env := DnsEnv; pm_id := "dns-txt"; pm_badgeTypes := ["domain-control"]; pm_isConfigured := fun _ => None;
     pm_start := fun _ userId _ => ([], Ok (dnsMakeFormStep userId)); pm_handle := dnsHandleStep |}.

End DnsTxt.

(** ** hackernews *)

Module HackerNews.

Definition HN_PROVIDER : string := "hackernews".

(** [/^[a-zA-Z0-9_-]{2,15}$/] *)
Definition isValidHackerNewsUsername (name : string) : bool :=
  Nat.leb 2 (String.length name) && Nat.leb (String.length name) 15
  && all_chars (fun c => is_lower_letter c || is_upper_letter c || is_digit_char c || bool_decide (c = "_"%char) || bool_decide (c = "-"%char)) name.

Definition aboutContainsToken (about : option string) (token : string) : bool :=
  match about with
  | None | Some "" => false
  | Some about => if bool_decide (token = "") then false else includes token about
  end.

Record HackerNewsUserFacts := { hf_id : string; hf_created : option Z }.

Definition buildHackerNewsBadges (tz : Z → Z) (facts : HackerNewsUserFacts) (now : Z) : list IssuedBadge :=
  let anchor := hf_id facts in
  let badges := [badge "oauth-account" [("provider", JStr HN_PROVIDER); ("handle", JStr (hf_id facts))] (Some anchor) true] in
  let age := created ← hf_created facts; accountAgeBadge tz HN_PROVIDER (dateFromUnixSeconds created) anchor now in
  badges ++ option_list age.

(** The clock, the local time, the drawn bytes and the site. *)
Record HnEnv := { he_now : Z; he_tz : Z → Z; he_drawn : Bytes; he_fetch : Fetch }.

Definition HN_STEP_FORM : string := "hn-username".
Definition HN_STEP_VERIFY : string := "hn-verify".
Definition HN_USER_URL (id : string) : string := "https://hacker-news.firebaseio.com/v0/user/" +:+ encodeURIComponent id +:+ ".json".
Definition HnFormInput : Schema := object [required "username" (zstring [min1])].
Definition HnUser : Schema := object [required "id" (zstring [min1]); optional "created" znumber; optional "about" (zstring [])].

Definition hnMakeFormStep (userId : string) : WizardState :=
  startAt "hackernews" userId
    (formStep HN_STEP_FORM "Prove your Hacker News account"
       "Hacker News has no sign-in for apps, so we verify with a one-time token you paste into your profile. Enter your username to begin."
       [textField "username" "Hacker News username" "pg" None] "Continue").

Definition hnVerifyStepBody (username token : string) : string :=
  lines ["Copy this one-time token:"; ""; "    " +:+ token; "";
         "1. Open your Hacker News profile at https://news.ycombinator.com/user?id=" +:+ username;
         "2. Click " +:+ QUOTE +:+ "edit" +:+ QUOTE +:+ ", paste the token anywhere in your " +:+ QUOTE +:+ "about" +:+ QUOTE +:+ " box, and submit.";
         "3. Come back and click Verify below."; "";
         "Hacker News can take a few minutes to publish profile edits. If the first check comes up empty, wait a moment and click Verify again. You can remove the token from your profile once the badge is issued."].

Definition numberOf (key : string) (o : JObject) : option Z := match jget key o with Some (JNum z) => Some z | _ => None end.
Definition stringOf (key : string) (o : JObject) : option string := match jget key o with Some (JStr s) => Some s | _ => None end.

Definition hnHandleStep (e : HnEnv) (state : WizardState) (input : Json) (userId origin : string) : outcome HandleStepResult :=
  if bool_decide (st_id (wz_currentStep state) = HN_STEP_FORM) then
    match safeParse HnFormInput input with
    | None => fails "Enter your Hacker News username"
    | Some parsed =>
        let username := trim (member "username" parsed) in
        if negb (isValidHackerNewsUsername username) then fails "That doesn't look like a Hacker News username."
        else
          let token := "minister-" +:+ randomToken (he_drawn e) in
          logged "plugin.hackernews.challenge_issued" []
            (HContinue (moveTo state (infoStep HN_STEP_VERIFY "Paste the token into your Hacker News profile" (hnVerifyStepBody username token) "Verify")
                          [("username", JStr username); ("token", JStr token)]))
    end
  else if bool_decide (st_id (wz_currentStep state) = HN_STEP_VERIFY) then
    let username := dataString "username" state in
    let token := dataString "token" state in
    if bool_decide (username = "") || bool_decide (token = "") then fails "This flow lost its challenge token — restart it."
    else match he_fetch e (get (HN_USER_URL username) []) with
         | Err m => fails ("Failed to reach Hacker News: " +:+ m)
         | Ok res =>
             if negb (rs_ok res) then fails ("Hacker News returned " +:+ pretty (rs_status res) +:+ " — try again.")
             else match rs_json res with
                  | Err m => ([], Err (TMsg m))
                  | Ok JNull => fails ("We couldn't find a Hacker News user named " +:+ QUOTE +:+ username +:+ QUOTE +:+ ". Check the spelling and try again.")
                  | Ok raw =>
                      match safeParse HnUser raw with
                      | None => fails "Hacker News returned an unexpected profile shape."
                      | Some hn =>
                          if negb (aboutContainsToken (stringOf "about" hn) token)
                          then fails "We couldn't find the token in your Hacker News profile yet. Hacker News can take a few minutes to publish edits — wait a moment and click Verify again."
                          else
                            let badges := buildHackerNewsBadges (he_tz e) {| hf_id := member "id" hn; hf_created := numberOf "created" hn |} (he_now e) in
                            logged "plugin.hackernews.verified" [("handle", JStr (member "id" hn)); ("issuedTypes", issuedTypes badges)] (HComplete badges)
                      end
                  end
         end
  else unknownStep state.

Definition hackernewsPlugin : PluginModel :=
  {| pm_env := HnEnv; pm_id := "hackernews"; pm_badgeTypes := ["oauth-account"; "account-age"]; pm_isConfigured := fun _ => None;
     pm_start := fun _ userId _ => ([], Ok (hnMakeFormStep userId)); pm_handle := hnHandleStep |}.

End HackerNews.

(** ** wallet *)

Module Wallet.

(** *** Addresses *)

(** [/^0x[0-9a-fA-F]{n}$/] *)
Definition prefixedHex (n : nat) (s : string) : bool :=
  match dropPrefix "0x" s with Some rest => Nat.eqb (String.length rest) n && all_chars is_hex rest | None => false end.
Definition ETH_ADDRESS_RE : string → bool := prefixedHex 40.
Definition ETH_SIGNATURE_RE : string → bool := prefixedHex 130.

(** [1-9A-HJ-NP-Za-km-z] *)
Definition is_base58 (c : Ascii.ascii) : bool :=
  in_range 49 57 c || in_range 65 72 c || in_range 74 78 c || in_range 80 90 c || in_range 97 107 c || in_range 109 122 c.
(** [02-9ac-hj-np-z] *)
Definition is_bech32 (c : Ascii.ascii) : bool :=
  in_range 48 48 c || in_range 50 57 c || in_range 97 97 c || in_range 99 104 c || in_range 106 110 c || in_range 112 122 c.

Definition BTC_BASE58_RE (s : string) : bool :=
  match s with
  | String c rest => (bool_decide (c = "1"%char) || bool_decide (c = "3"%char)) && all_chars is_base58 rest
                     && Nat.leb 25 (String.length rest) && Nat.leb (String.length rest) 39
  | EmptyString => false
  end.
Definition BTC_BECH32_RE (s : string) : bool :=
  match dropPrefix "bc1" s with
  | Some rest => all_chars is_bech32 rest && Nat.leb 8 (String.length rest) && Nat.leb (String.length rest) 87
  | None => false
  end.

Definition normalizeWalletAddress (chain raw : string) : option string :=
  let addr := trim raw in
  if bool_decide (chain = "ethereum") then if ETH_ADDRESS_RE addr then Some (toLowerCase addr) else None
  else if BTC_BASE58_RE addr then Some addr
  else if BTC_BECH32_RE addr then Some addr
  else None.

(** *** Challenges *)

Record WalletChallenge := { wc_message : string; wc_nonce : string; wc_expiresAt : string }.
Definition WALLET_CHALLENGE_TTL_MS : Z := 15 * 60000.

(** [None] is the exception of a clock beyond the range of dates. *)
Definition buildWalletChallenge (chain normalizedAddress : string) (drawn : Bytes) (now : Z) : option WalletChallenge :=
  let nonce := toHex drawn in
  issuedAt ← toISOString now;
  expiresAt ← toISOString (now + WALLET_CHALLENGE_TTL_MS);
  let chainLabel := if bool_decide (chain = "ethereum") then "Ethereum" else "Bitcoin" in
  Some {| wc_message :=
            lines ["ministry.id wants you to prove you control this " +:+ chainLabel +:+ " wallet."; "";
                   "Address: " +:+ normalizedAddress; "Nonce: " +:+ nonce; "Issued at: " +:+ issuedAt; "Expires at: " +:+ expiresAt; "";
                   "Signing this message proves you hold the wallet's key. It grants no permissions, moves no funds, and costs no gas."; "";
                   "Only sign this if you started this yourself on ministry.id. If someone else gave you this text to sign, do not sign it."];
          wc_nonce := nonce; wc_expiresAt := expiresAt |}.

Definition walletIsChallengeExpired (expiresAt : string) (now : Z) : bool :=
  match dateParse expiresAt with None => true | Some t => t <? now end.

(** The clock, the local time, the drawn bytes, the two signature libraries ([None] is a throw), the
    sites, the file of depositors and its memoized set. *)
Record WalletEnv := {
  we_now : Z;
  we_tz : Z → Z;
  we_drawn : Bytes;
  we_verifyMessage : string → string → string → option bool;
  we_btcVerify : string → string → string → bool → option bool;
  we_fetch : Fetch;
  we_csv : option string;
  we_memo : option (gset string);
}.

Section WalletSteps.
Context (e : WalletEnv).

Definition verifyEthereumSignature (normalizedAddress message signature : string) : bool :=
  let sig := trim signature in
  if negb (ETH_SIGNATURE_RE sig) then false
  else if negb (ETH_ADDRESS_RE normalizedAddress) then false
  else we_verifyMessage e normalizedAddress message sig ?? false.

Definition tryBtcVerify (address message signature : string) (checkSegwitAlways : bool) : bool :=
  bool_decide (we_btcVerify e message address signature checkSegwitAlways = Some true).

Definition verifyBitcoinSignature (address message signature : string) : bool :=
  let sig := trim signature in
  if Nat.eqb (String.length sig) 0 || Nat.ltb 200 (String.length sig) then false
  else tryBtcVerify address message sig false || tryBtcVerify address message sig true.

Definition walletAgeBadge (chain : string) (firstTx : option Z) (anchor : string) (now : Z) : option IssuedBadge :=
  firstTx ← firstTx;
  bucket ← highestBucket (monthsBetween (we_tz e) firstTx now) ACCOUNT_AGE_MONTHS;
  Some (badge "wallet-age" [("chain", JStr chain); ("olderThanMonths", JNum bucket)] (Some anchor) false).

(** *** The age of a wallet *)

(** [null] when the request fails, is not ok or has no JSON. *)
Definition fetchJson (url : string) : option Json :=
  match we_fetch e (get url []) with
  | Ok res => if rs_ok res then match rs_json res with Ok JNull | Err _ => None | Ok j => Some j end else None
  | Err _ => None
  end.

(** [Number(ts)] of decimal digits with an optional sign, blanks around them ignored. *)
Definition toNumber (ts : string) : option Z :=
  match String.list_ascii_of_string (trim ts) with
  | [] => Some 0
  | c :: l =>
      if bool_decide (c = "-"%char) then (if bool_decide (l = []) then None else Z.opp <$> number l)
      else if bool_decide (c = "+"%char) then (if bool_decide (l = []) then None else number l)
      else number (c :: l)
  end.

Definition validDate (seconds : Z) : option Z := if MAX_TIME <? Z.abs (seconds * 1000) then None else Some (seconds * 1000).

Definition parseBlockscoutFirstTx (body : option Json) : option Z :=
  match body with
  | Some (JObj o) =>
      match jget "result" o with
      | Some (JArr (JObj first :: _)) =>
          seconds ← match jget "timeStamp" first with Some (JStr ts) => toNumber ts | Some (JNum z) => Some z | _ => None end;
          if negb (is_finite seconds) || (seconds <=? 0) then None else validDate seconds
      | _ => None
      end
  | _ => None
  end.

Definition blockTime (tx : Json) : option Z :=
  match tx with
  | JObj o => match jget "status" o with
              | Some (JObj status) =>
                  match jget "block_time" status with
                  | Some (JNum bt) => if negb (is_finite bt) || (bt <=? 0) then None else Some bt
                  | _ => None
                  end
              | _ => None
              end
  | _ => None
  end.

Definition parseEsploraOldestTx (body : option Json) : option Z :=
  match body with
  | Some (JArr l) =>
      oldest ← foldl (fun oldest tx =>
        match blockTime tx with
        | None => oldest
        | Some bt => match oldest with None => Some bt | Some t => if bt <? t then Some bt else oldest end
        end) None l;
      validDate oldest
  | _ => None
  end.

Definition fetchWalletFirstTxDate (chain normalizedAddress : string) : option Z :=
  if bool_decide (chain = "ethereum")
  then parseBlockscoutFirstTx (fetchJson ("https://eth.blockscout.com/api?module=account&action=txlist&address=" +:+ normalizedAddress
                                          +:+ "&sort=asc&page=1&offset=1"))
  else parseEsploraOldestTx (fetchJson ("https://mempool.space/api/address/" +:+ normalizedAddress +:+ "/txs/chain")).

(** *** Events *)

Definition firstColumn (line : string) : string := default line (head (split_on ","%char line)).

Definition parseAddressColumn (csv : string) : gset string :=
  list_to_set (omap (fun line =>
    if bool_decide (line = "") then None
    else let addr := toLowerCase (trim (firstColumn line)) in
         match dropPrefix "0x" addr with
         | Some rest => if Nat.eqb (String.length rest) 40 && all_chars is_lower_hex rest then Some addr else None
         | None => None
         end) (tail (splitLines csv))).

(** The set, and the memo it leaves. *)
Definition loadEth2GenesisDepositors (memo : option (gset string)) (csv : option string) : gset string * option (gset string) :=
  match memo with
  | Some set => (set, memo)
  | None => let set := match csv with Some text => parseAddressColumn text | None => ∅ end in (set, Some set)
  end.

Definition ETH_EVENT_SETS : list (string * gset string) :=
  [("eth2-genesis-depositor", (loadEth2GenesisDepositors (we_memo e) (we_csv e)).1)].

Definition ethOnchainEventsFor (normalizedEthAddress : string) : list string :=
  let addr := toLowerCase normalizedEthAddress in
  omap (fun '(event, set) => if bool_decide (addr ∈ set) then Some event else None) ETH_EVENT_SETS.

(** *** Steps *)

Definition buildWalletBadges (chain anchor : string) : list IssuedBadge * list string :=
  let events := if bool_decide (chain = "ethereum") then ethOnchainEventsFor anchor else [] in
  let firstTx := fetchWalletFirstTxDate chain anchor in
  (badge "wallet-control" [("chain", JStr chain)] (Some anchor) false
     :: ((fun event => badge "onchain-event" [("event", JStr event)] (Some anchor) false) <$> events)
     ++ option_list (walletAgeBadge chain firstTx anchor (we_now e)),
   events).

Definition WALLET_STEP_FORM : string := "wallet-address".
Definition WALLET_STEP_SIGN : string := "wallet-sign".
Definition WALLET_STEP_VERIFY : string := "wallet-verify".
Definition AddressInput : Schema := object [required "chain" (zstring [min1]); required "address" (zstring [min1])].
Definition WalletSignatureInput : Schema := object [required "signature" (zstring [min1])].

Definition walletMakeFormStep (userId : string) : WizardState :=
  startAt "wallet" userId
    (formStep WALLET_STEP_FORM "Prove you control a wallet"
       "Prove control of an Ethereum or Bitcoin wallet by signing a short message with it. No wallet connection, no transaction, no gas — you just paste a signature. Your address is used to check the proof and is never stored or shown on your badge."
       [textField "chain" "Chain" "ethereum or bitcoin" (Some "Type ethereum or bitcoin.");
        textField "address" "Wallet address" "0x… for Ethereum, or bc1…/1… for Bitcoin" None] "Continue").

Definition walletSignStepBody (chain message : string) : string :=
  lines [(if bool_decide (chain = "ethereum")
          then "In your wallet (MetaMask, Rabby, a hardware wallet, etc.) open " +:+ QUOTE +:+ "Sign message" +:+ QUOTE +:+ " (personal_sign) and sign the text below exactly as shown."
          else "In your wallet (Electrum, Sparrow, Bitcoin Core, etc.) open " +:+ QUOTE +:+ "Sign message" +:+ QUOTE +:+ " for this address and sign the text below exactly as shown.");
         ""; "--- message to sign ---"; message; "--- end message ---"; "";
         "Then click Continue and paste the signature your wallet gives you. The challenge expires in a few minutes; if it lapses, restart to get a fresh one."].

Definition WALLET_LOST : string := "This flow lost its challenge — restart it.".

(** The dates of the challenge throw beyond their range. *)
Definition RANGE_ERROR : Thrown := TMsg "Invalid time value".

Definition walletHandleStep (state : WizardState) (input : Json) (userId origin : string) : outcome HandleStepResult :=
  if bool_decide (st_id (wz_currentStep state) = WALLET_STEP_FORM) then
    match safeParse AddressInput input with
    | None => fails "Enter the chain and your wallet address."
    | Some parsed =>
        let chain := toLowerCase (trim (member "chain" parsed)) in
        if negb (bool_decide (chain ∈ WALLET_CHAINS)) then fails "Chain must be ethereum or bitcoin."
        else match normalizeWalletAddress chain (member "address" parsed) with
             | None => fails (if bool_decide (chain = "ethereum")
                              then "That is not a valid Ethereum address (expected 0x followed by 40 hex characters)."
                              else "That is not a valid Bitcoin mainnet address.")
             | Some address =>
                 match buildWalletChallenge chain address (we_drawn e) (we_now e) with
                 | None => ([], Err RANGE_ERROR)
                 | Some challenge =>
                     logged "plugin.wallet.challenge_issued" [("chain", JStr chain)]
                       (HContinue (moveTo state (infoStep WALLET_STEP_SIGN "Sign the challenge with your wallet" (walletSignStepBody chain (wc_message challenge)) "I've signed it")
                          [("chain", JStr chain); ("address", JStr address); ("message", JStr (wc_message challenge)); ("expiresAt", JStr (wc_expiresAt challenge))]))
                 end
             end
    end
  else if bool_decide (st_id (wz_currentStep state) = WALLET_STEP_SIGN) then
    let message := dataString "message" state in
    if bool_decide (message = "") then fails WALLET_LOST
    else ([], Ok (HContinue (moveTo state
           (formStep WALLET_STEP_VERIFY "Paste the signature"
              ("Paste the signature your wallet produced for the message below. We recover the signer and check it matches your address." +:+ NL +:+ NL +:+ message)
              [textField "signature" "Signature" "0x… (Ethereum) or a base64 string (Bitcoin)" None] "Verify") (wz_data state))))
  else if bool_decide (st_id (wz_currentStep state) = WALLET_STEP_VERIFY) then
    let chain := dataString "chain" state in
    let address := dataString "address" state in
    let message := dataString "message" state in
    let expiresAt := dataString "expiresAt" state in
    if negb (bool_decide (chain ∈ WALLET_CHAINS)) || bool_decide (address = "") || bool_decide (message = "") || bool_decide (expiresAt = "")
    then fails WALLET_LOST
    else if walletIsChallengeExpired expiresAt (we_now e) then fails "This challenge expired. Restart to get a fresh message to sign."
    else match safeParse WalletSignatureInput input with
         | None => fails "Paste the signature from your wallet."
         | Some parsed =>
             let signature := member "signature" parsed in
             let ok := if bool_decide (chain = "ethereum") then verifyEthereumSignature address message signature
                       else verifyBitcoinSignature address message signature in
             if negb ok
             then fails "That signature didn't verify for this address. Make sure you signed the exact message with the right wallet, then try again."
             else
               let '(badges, events) := buildWalletBadges chain address in
               logged "plugin.wallet.verified" [("chain", JStr chain); ("issuedTypes", issuedTypes badges); ("events", JArr (JStr <$> events))] (HComplete badges)
         end
  else unknownStep state.

End WalletSteps.

Definition walletPlugin : PluginModel :=
  {| pm_env := WalletEnv; pm_id := "wallet"; pm_badgeTypes := ["wallet-control"; "wallet-age"; "onchain-event"]; pm_isConfigured := fun _ => None;
     pm_start := fun _ userId _ => ([], Ok (walletMakeFormStep userId)); pm_handle := walletHandleStep |}.

End Wallet.
