(* ===== verification/KeyPlugin.v ===== *)
(** * Proof of control of a public key (plugins/public-key: verify.ts, index.ts)

    A user pastes a PGP or SSH public key, signs a challenge with its private key and pastes the
    signature. The SSH signature format is parsed here, byte by byte; the OpenPGP library, the
    sshpk library and the hash functions are parameters. *)

From S2P Require Import Prelude Threads Matching Policy Selection RateLimit Registry Claims Vc Pairwise Nullifier.
From S2P Require Import SybilScore Session SybilConfig OidcAuthorize Bitstring Interleave StatusList OidcFlow Disclosure Issuance Plugins Ledger.
From S2P Require Import SignInOtp PairProtocol Wizard PluginKit ChallengePlugins.

Open Scope Z_scope.
Open Scope minister_scope.

Definition SSH_NAMESPACE : string := "pubkey-proof@ministry.id".
Definition CHALLENGE_TTL_MS : Z := 15 * 60000.

Inductive KeyKind := Pgp | Ssh.
#[export] Instance KeyKind_eq_dec : EqDecision KeyKind.
Proof. solve_decision. Defined.

Definition kindText (kind : KeyKind) : string := match kind with Pgp => "pgp" | Ssh => "ssh" end.
Definition kindOf (s : string) : option KeyKind :=
  if bool_decide (s = "pgp") then Some Pgp else if bool_decide (s = "ssh") then Some Ssh else None.

(** ** Challenges *)

Record KeyChallenge := { kc_message : string; kc_nonce : string; kc_expiresAt : string }.

(** [None] is the exception of a clock beyond the range of dates. *)
Definition buildKeyChallenge (kind : KeyKind) (drawn : Bytes) (now : Z) : option KeyChallenge :=
  let nonce := toHex drawn in
  issuedAt ← toISOString now;
  expiresAt ← toISOString (now + CHALLENGE_TTL_MS);
  let kindLabel := match kind with Pgp => "PGP" | Ssh => "SSH" end in
  Some {| kc_message :=
            lines ["ministry.id wants you to prove you control this " +:+ kindLabel +:+ " key."; "";
                   "Nonce: " +:+ nonce; "Issued at: " +:+ issuedAt; "Expires at: " +:+ expiresAt; "";
                   "Signing this proves you hold the key. It grants no access, moves nothing, and only proves control to ministry.id."; "";
                   "Only sign this if you started this yourself on ministry.id."];
          kc_nonce := nonce; kc_expiresAt := expiresAt |}.

Definition isChallengeExpired (expiresAt : string) (now : Z) : bool :=
  match dateParse expiresAt with None => true | Some t => t <? now end.

(** [/^(ssh-ed25519|ssh-rsa|ecdsa-sha2-nistp(256|384|521))\s+/] *)
Definition SSH_LINE_TYPES : list string :=
  ["ssh-ed25519"; "ssh-rsa"; "ecdsa-sha2-nistp256"; "ecdsa-sha2-nistp384"; "ecdsa-sha2-nistp521"].
Definition startsWithType (line type : string) : bool :=
  match dropPrefix type line with Some (String c _) => is_space c | _ => false end.

Definition detectKeyKind (input : string) : option KeyKind :=
  let trimmed := trim input in
  if includes "BEGIN PGP PUBLIC KEY BLOCK" trimmed then Some Pgp
  else if existsb (startsWithType trimmed) SSH_LINE_TYPES then Some Ssh
  else None.

(** ** The libraries *)

Record PgpInfo := { pi_algorithm : option string; pi_bits : option Z; pi_curve : option string }.

(** What [createMessage] is given. *)
Inductive PgpMessage := MText (text : string) | MBinary (bytes : Bytes).

(** [None] is an exception. A verification answers one flag per signature: whether its [verified]
    promise is fulfilled. *)
Record KeyWorld := {
  PgpKey : Type; PgpCleartext : Type; PgpSignature : Type; SshKey : Type; SshSignature : Type;
  kw_readKey : string → option PgpKey;
  kw_isPrivate : PgpKey → bool;
  kw_getFingerprint : PgpKey → string;
  kw_getAlgorithmInfo : PgpKey → PgpInfo;
  kw_primaryUserId : PgpKey → option string;
  kw_readCleartextMessage : string → option PgpCleartext;
  kw_getText : PgpCleartext → string;
  kw_verifyCleartext : PgpCleartext → PgpKey → option (list bool);
  kw_readSignature : string → option PgpSignature;
  kw_createMessage : PgpMessage → bool;
  kw_verifyDetached : PgpMessage → PgpSignature → PgpKey → option (list bool);
  kw_parseKey : string → option SshKey;
  kw_type : SshKey → string;
  kw_curve : SshKey → option string;
  kw_size : SshKey → Z;
  kw_fingerprint : SshKey → option string;
  kw_toBuffer : SshKey → option Bytes;
  kw_parseSignature : Bytes → string → option SshSignature;
  kw_verify : SshKey → string → Bytes → SshSignature → option bool;
  kw_hash : string → Bytes → Bytes;
}.

(** ** The SSH signature format *)

Definition SSHSIG_MAGIC : Bytes := utf8 "SSHSIG".

Definition writeUInt32BE (n : Z) : Bytes := [n / 16777216 mod 256; n / 65536 mod 256; n / 256 mod 256; n mod 256].

Definition readUInt32BE (buf : Bytes) (offset : nat) : Z :=
  match drop offset buf with
  | a :: b :: c :: d :: _ => a * 16777216 + b * 65536 + c * 256 + d
  | _ => 0
  end.

(** The data and the offset after it. *)
Definition readSshString (buf : Bytes) (offset : nat) : option (Bytes * nat) :=
  if Nat.ltb (length buf) (offset + 4) then None
  else
    let len := readUInt32BE buf offset in
    let start := (offset + 4)%nat in
    if Z.of_nat (length buf) <? Z.of_nat start + len then None
    else Some (take (Z.to_nat len) (drop start buf), (start + Z.to_nat len)%nat).

Definition sshString (data : Bytes) : Bytes := writeUInt32BE (Z.of_nat (length data)) ++ data.

(** Base64 with the standard alphabet: what follows the first [=] is ignored, and so is a rest of one. *)
Definition base64Sextet (c : Ascii.ascii) : option Z := (fun p => Z.of_nat p.1) <$> list_find (fun d => d = c) BASE64_ALPHABET.

Fixpoint sextetsToBytes (l : list Z) : Bytes :=
  match l with
  | a :: b :: c :: d :: l' => a * 4 + b / 16 :: (b mod 16) * 16 + c / 4 :: (c mod 4) * 64 + d :: sextetsToBytes l'
  | [a; b; c] => [a * 4 + b / 16; (b mod 16) * 16 + c / 4]
  | [a; b] => [a * 4 + b / 16]
  | _ => []
  end.

Fixpoint beforePadding (l : list Ascii.ascii) : list Ascii.ascii :=
  match l with c :: l' => if decide (c = "="%char) then [] else c :: beforePadding l' | [] => [] end.

Definition fromBase64 (b64 : string) : Bytes := sextetsToBytes (omap base64Sextet (beforePadding (String.list_ascii_of_string b64))).

(** [/^[A-Za-z0-9+/=]+$/] *)
Definition BASE64_RE (b64 : string) : bool :=
  negb (bool_decide (b64 = "")) && all_chars (fun c => bool_decide (c ∈ BASE64_ALPHABET) || bool_decide (c = "="%char)) b64.

Definition BEGIN_SSH : string := "-----BEGIN SSH SIGNATURE-----".
Definition END_SSH : string := "-----END SSH SIGNATURE-----".

Definition indexOf (line : string) (l : list string) : option nat := fst <$> list_find (fun x => x = line) l.

Definition unarmorSshSig (armored : string) : option Bytes :=
  let ls := splitLines armored in
  match indexOf BEGIN_SSH ls, indexOf END_SSH ls with
  | Some b, Some n =>
      if Nat.leb n b then None
      else
        let b64 := trim (String.concat "" (take (n - (b + 1)) (drop (b + 1) ls))) in
        if negb (BASE64_RE b64) then None else Some (fromBase64 b64)
  | _, _ => None
  end.

(** The fields of a signature file. *)
Record SshSig := { sg_publicKey : Bytes; sg_namespace : Bytes; sg_reserved : Bytes; sg_hashAlg : Bytes; sg_signature : Bytes }.

(** The header and the five fields, with nothing after them. *)
Definition parseSshSig (blob : Bytes) : option SshSig :=
  if Nat.ltb (length blob) 10 || negb (bool_decide (take 6 blob = SSHSIG_MAGIC)) then None
  else if negb (readUInt32BE blob 6 =? 1) then None
  else
    '(publicKey, cursor) ← readSshString blob 10;
    '(namespace, cursor) ← readSshString blob cursor;
    '(reserved, cursor) ← readSshString blob cursor;
    '(hashAlg, cursor) ← readSshString blob cursor;
    '(signature, cursor) ← readSshString blob cursor;
    if negb (Nat.eqb cursor (length blob)) then None
    else Some {| sg_publicKey := publicKey; sg_namespace := namespace; sg_reserved := reserved; sg_hashAlg := hashAlg; sg_signature := signature |}.

(** [buffer.toString("utf8")] *)
Definition fromUtf8 (bytes : Bytes) : string := String.string_of_list_ascii ((fun b => Ascii.ascii_of_nat (Z.to_nat b)) <$> bytes).

Definition SSH_ALLOWED_TYPES : list string := ["ed25519"; "rsa"; "ecdsa"].

Definition SSH_INNER_HASH : list (string * string) :=
  [("ssh-ed25519", "sha512"); ("rsa-sha2-256", "sha256"); ("rsa-sha2-512", "sha512"); ("ecdsa-sha2-nistp256", "sha256");
   ("ecdsa-sha2-nistp384", "sha384"); ("ecdsa-sha2-nistp521", "sha512")].

(** What the key signs. *)
Definition signedBlob (hashAlg : string) (messageHash : Bytes) : Bytes :=
  SSHSIG_MAGIC ++ sshString (utf8 SSH_NAMESPACE) ++ sshString [] ++ sshString (utf8 hashAlg) ++ sshString messageHash.

Section Verify.
Context (w : KeyWorld).

(** ** PGP *)

Record ParsedPgpKey := { pk_fingerprint : string; pk_algorithm : string; pk_userId : option string }.

(** [s.replace(/Legacy$/, "")] *)
Fixpoint dropLegacy (s : string) : string :=
  if bool_decide (s = "Legacy") then ""
  else match s with EmptyString => EmptyString | String c s' => String c (dropLegacy s') end.

Definition pgpAlgorithm (info : PgpInfo) : string :=
  let alg := pi_algorithm info ?? "" in
  if String.prefix "eddsa" alg then match pi_curve info with Some c => if String.prefix "ed25519" c then "ed25519" else "eddsa" | None => "eddsa" end
  else if String.prefix "ecdsa" alg then match present (pi_curve info) with Some c => "ecdsa-" +:+ dropLegacy c | None => "ecdsa" end
  else if String.prefix "rsa" alg then match pi_bits info with Some b => if b =? 0 then "rsa" else "rsa-" +:+ pretty b | None => "rsa" end
  else if String.prefix "dsa" alg then "dsa"
  else if bool_decide (alg = "") then "unknown" else alg.

(** [/^[0-9a-f]{40}$|^[0-9a-f]{64}$/] *)
Definition FINGERPRINT_RE (s : string) : bool :=
  all_chars is_lower_hex s && (Nat.eqb (String.length s) 40 || Nat.eqb (String.length s) 64).

Definition parsePgpPublicKey (armored : string) : option ParsedPgpKey :=
  key ← kw_readKey w (trim armored);
  if kw_isPrivate w key then None
  else
    let fingerprint := toLowerCase (kw_getFingerprint w key) in
    if negb (FINGERPRINT_RE fingerprint) then None
    else Some {| pk_fingerprint := fingerprint; pk_algorithm := pgpAlgorithm (kw_getAlgorithmInfo w key); pk_userId := kw_primaryUserId w key |}.

(** Trailing blanks and tabs of a line. *)
Definition is_blank (c : Ascii.ascii) : bool := bool_decide (c = " "%char) || bool_decide (c = Ascii.ascii_of_nat 9).
Fixpoint stripBlanks (s : string) : string :=
  match s with
  | EmptyString => EmptyString
  | String c s' => match stripBlanks s' with EmptyString => if is_blank c then EmptyString else String c EmptyString | t => String c t end
  end.

Definition canonicalizeText (s : string) : string := trim (lines (stripBlanks <$> splitLines s)).

(** The first signature, when there is one and it verifies. *)
Definition firstVerified (flags : option (list bool)) : bool := match flags with Some (true :: _) => true | _ => false end.

Definition verifyPgpSignature (publicKeyArmored challenge signatureInput : string) : bool :=
  let input := trim signatureInput in
  if Nat.eqb (String.length input) 0 then false
  else match kw_readKey w (trim publicKeyArmored) with
       | None => false
       | Some key =>
           if kw_isPrivate w key then false
           else if includes "BEGIN PGP SIGNED MESSAGE" input then
             match kw_readCleartextMessage w input with
             | None => false
             | Some msg =>
                 if firstVerified (kw_verifyCleartext w msg key)
                 then bool_decide (canonicalizeText (kw_getText w msg) = canonicalizeText challenge) else false
             end
           else match kw_readSignature w input with
                | None => false
                | Some sigObj =>
                    let candidates := [MText challenge; MBinary (utf8 challenge); MBinary (utf8 (challenge +:+ NL))] in
                    if negb (forallb (kw_createMessage w) candidates) then false
                    else existsb (fun message => firstVerified (kw_verifyDetached w message sigObj key)) candidates
                end
       end.

(** ** SSH *)

Record ParsedSshKey := { sk_fingerprint : string; sk_algorithm : string }.

Definition sshAlgorithm (key : SshKey w) : string :=
  if bool_decide (kw_type w key = "ecdsa") then match present (kw_curve w key) with Some c => "ecdsa-" +:+ c | None => "ecdsa" end
  else if bool_decide (kw_type w key = "rsa") then "rsa-" +:+ pretty (kw_size w key)
  else kw_type w key.

Definition parseSshPublicKey (line : string) : option ParsedSshKey :=
  key ← kw_parseKey w (trim line);
  if negb (bool_decide (kw_type w key ∈ SSH_ALLOWED_TYPES)) then None
  else
    fingerprint ← kw_fingerprint w key;
    Some {| sk_fingerprint := fingerprint; sk_algorithm := sshAlgorithm key |}.

(** One candidate text, under a hash. *)
Definition verifies (key : SshKey w) (innerHash hashAlg : string) (sig : SshSignature w) (candidate : string) : bool :=
  bool_decide (kw_verify w key innerHash (signedBlob hashAlg (kw_hash w hashAlg (utf8 candidate))) sig = Some true).

Definition verifySshSignature (publicKeyLine challenge armoredSignature : string) : bool :=
  default false (
    blob ← unarmorSshSig armoredSignature;
    fields ← parseSshSig blob;
    if negb (bool_decide (fromUtf8 (sg_namespace fields) = SSH_NAMESPACE)) then None
    else
      let hashAlg := fromUtf8 (sg_hashAlg fields) in
      if negb (bool_decide (hashAlg = "sha256")) && negb (bool_decide (hashAlg = "sha512")) then None
      else
        key ← kw_parseKey w (trim publicKeyLine);
        if negb (bool_decide (kw_type w key ∈ SSH_ALLOWED_TYPES)) then None
        else
          presentedWire ← kw_toBuffer w key;
          if negb (bool_decide (sg_publicKey fields = presentedWire)) then None
          else
            '(innerType, _) ← readSshString (sg_signature fields) 0;
            innerHash ← jget (fromUtf8 innerType) SSH_INNER_HASH;
            sig ← kw_parseSignature w (sg_signature fields) (kw_type w key);
            Some (existsb (verifies key innerHash hashAlg sig) [challenge; challenge +:+ NL])).

(** ** The badge and the steps *)

Definition buildPublicKeyBadge (kind : KeyKind) (fingerprint algorithm : string) : IssuedBadge :=
  badge "public-key" [("kind", JStr (kindText kind)); ("fingerprint", JStr fingerprint); ("algorithm", JStr algorithm)] (Some fingerprint) true.

Definition STEP_FORM : string := "pubkey-key".
Definition STEP_SIGN : string := "pubkey-sign".
Definition STEP_VERIFY : string := "pubkey-verify".

Definition MAX_INPUT_CHARS : Z := 65536.
Definition KeyInput : Schema := object [required "publicKey" (zstring [min1; maxLength MAX_INPUT_CHARS])].
Definition SignatureInput : Schema := object [required "signature" (zstring [min1; maxLength MAX_INPUT_CHARS])].

Definition makeFormStep (userId : string) : WizardState :=
  startAt "public-key" userId
    (formStep STEP_FORM "Prove you control a public key"
       "Paste an asymmetric public key and prove you hold its private key by signing a short challenge. Works with a PGP public key or an SSH public key (Ed25519, RSA, or ECDSA). The badge records only the key's fingerprint. Never paste a private key."
       [textField "publicKey" "Public key" "-----BEGIN PGP PUBLIC KEY BLOCK----- …   or   ssh-ed25519 AAAA… you@host"
          (Some "A PGP public key block, or one SSH public key line.")] "Continue").

Definition signStepBody (kind : KeyKind) (challenge : string) (keyLabel : option string) : string :=
  let intro := match keyLabel with
               | Some label => "We identified this key as: " +:+ label +:+ ". If that is not the key you meant, restart and paste the right one."
               | None => "Sign the challenge below with the key you pasted."
               end in
  let howTo :=
    match kind with
    | Pgp => ["1. Save the text between the markers to a file, for example challenge.txt."; "2. Sign it with the matching key:"; "";
              "       gpg --clearsign challenge.txt"; ""; "   (If you hold more than one key, add --local-user <your-key-id>.)";
              "3. Open the resulting challenge.txt.asc and paste its whole contents on the next step."]
    | Ssh => ["1. Save the text between the markers to a file, for example challenge.txt.";
              "2. Sign it with your private key, using this exact namespace:"; "";
              "       ssh-keygen -Y sign -f ~/.ssh/id_ed25519 -n " +:+ SSH_NAMESPACE +:+ " challenge.txt"; "";
              "   (Point -f at the private key that matches the public key you pasted.)";
              "3. Open the resulting challenge.txt.sig and paste its whole contents on the next step."]
    end in
  lines ([intro; ""; "--- challenge to sign ---"; challenge; "--- end challenge ---"; ""] ++ howTo ++
         [""; "The challenge expires in a few minutes. If it lapses, restart to get a fresh one."]).

Definition pgpKeyLabel (algorithm : string) (userId : option string) : string :=
  match present userId with Some u => algorithm +:+ " key for " +:+ u | None => algorithm +:+ " key" end.

(** The fingerprint, the algorithm and the label of a pasted key. *)
Definition readPasted (kind : KeyKind) (publicKey : string) : result string (string * string * string) :=
  match kind with
  | Pgp => match parsePgpPublicKey publicKey with
           | None => Err "We couldn't read that as a PGP public key. Paste the full ASCII-armored public key block (not a private key)."
           | Some key => Ok (pk_fingerprint key, pk_algorithm key, pgpKeyLabel (pk_algorithm key) (pk_userId key))
           end
  | Ssh => match parseSshPublicKey publicKey with
           | None => Err "We couldn't read that as an SSH public key. Paste one line beginning with ssh-ed25519, ssh-rsa, or ecdsa-sha2-… (DSA keys aren't supported)."
           | Some key => Ok (sk_fingerprint key, sk_algorithm key, sk_algorithm key +:+ " key (" +:+ sk_fingerprint key +:+ ")")
           end
  end.

Definition LOST : string := "This flow lost its challenge — restart it.".

Definition verifySignature (kind : KeyKind) (publicKey challenge signature : string) : bool :=
  match kind with Pgp => verifyPgpSignature publicKey challenge signature | Ssh => verifySshSignature publicKey challenge signature end.

Definition handleStep (drawn : Bytes) (now : Z) (state : WizardState) (input : Json) (userId origin : string) : outcome HandleStepResult :=
  if bool_decide (st_id (wz_currentStep state) = STEP_FORM) then
    match safeParse KeyInput input with
    | None => fails "Paste a public key."
    | Some parsed =>
        let publicKey := trim (member "publicKey" parsed) in
        match detectKeyKind publicKey with
        | None => fails "That doesn't look like a PGP public key block or an SSH public key line. Paste a public key (never a private key)."
        | Some kind =>
            match readPasted kind publicKey with
            | Err message => fails message
            | Ok (fingerprint, algorithm, keyLabel) =>
                match buildKeyChallenge kind drawn now with
                | None => ([], Err (TMsg "Invalid time value"))
                | Some challenge =>
                    logged "plugin.public_key.challenge_issued" [("kind", JStr (kindText kind))]
                      (HContinue (moveTo state
                         (infoStep STEP_SIGN "Sign the challenge with your private key" (signStepBody kind (kc_message challenge) (Some keyLabel)) "I've signed it")
                         [("kind", JStr (kindText kind)); ("publicKey", JStr publicKey); ("fingerprint", JStr fingerprint); ("algorithm", JStr algorithm);
                          ("challenge", JStr (kc_message challenge)); ("expiresAt", JStr (kc_expiresAt challenge))]))
                end
            end
        end
    end
  else if bool_decide (st_id (wz_currentStep state) = STEP_SIGN) then
    let challenge := dataString "challenge" state in
    if bool_decide (challenge = "") then fails LOST
    else ([], Ok (HContinue (moveTo state
           (formStep STEP_VERIFY "Paste the signature"
              ("Paste the signature you produced for the challenge below. We check it was made by the key you pasted, over exactly this text." +:+ NL +:+ NL +:+ challenge)
              [textField "signature" "Signature" "-----BEGIN PGP SIGNED MESSAGE----- …   or   -----BEGIN SSH SIGNATURE----- …" None] "Verify") (wz_data state))))
  else if bool_decide (st_id (wz_currentStep state) = STEP_VERIFY) then
    let publicKey := dataString "publicKey" state in
    let fingerprint := dataString "fingerprint" state in
    let algorithm := dataString "algorithm" state in
    let challenge := dataString "challenge" state in
    let expiresAt := dataString "expiresAt" state in
    match kindOf (dataString "kind" state) with
    | None => fails LOST
    | Some kind =>
        if bool_decide (publicKey = "") || bool_decide (fingerprint = "") || bool_decide (algorithm = "") || bool_decide (challenge = "")
           || bool_decide (expiresAt = "") then fails LOST
        else if isChallengeExpired expiresAt now then fails "This challenge expired. Restart to get a fresh challenge to sign."
        else match safeParse SignatureInput input with
             | None => fails "Paste the signature you produced."
             | Some parsed =>
                 if negb (verifySignature kind publicKey challenge (member "signature" parsed))
                 then fails (match kind with
                             | Pgp => "That signature didn't verify. Make sure you clearsigned the exact challenge with the matching private key, then paste the whole signed block and try again."
                             | Ssh => "That signature didn't verify. Make sure you signed the exact challenge with the right key and the namespace " +:+ SSH_NAMESPACE +:+ ", then paste the whole signature and try again."
                             end)
                 else logged "plugin.public_key.verified" [("kind", JStr (kindText kind)); ("fingerprint", JStr fingerprint)]
                        (HComplete [buildPublicKeyBadge kind fingerprint algorithm])
             end
    end
  else unknownStep state.

(** The environment: the drawn bytes of the nonce and the clock. *)
Definition publicKeyPlugin : PluginModel :=
  {| pm_env := Bytes * Z; pm_id := "public-key"; pm_badgeTypes := ["public-key"]; pm_isConfigured := fun _ => None;
     pm_start := fun _ userId _ => ([], Ok (makeFormStep userId)); pm_handle := fun e => handleStep e.1 e.2 |}.

End Verify.
