(* ===== verification/KeyProofs.v ===== *)
(** * Theorems on proofs of control of a key

    The signature parser accepts exactly the encodings of its fields; an accepted SSH signature is
    one over the stored challenge, under the service's namespace, by the pasted key; a badge names
    the key that signed the challenge of its own run before the challenge expired; and an honest
    signer's file is accepted. *)

From S2P Require Import Prelude Threads Matching Policy Selection RateLimit Registry Claims Vc Pairwise Nullifier.
From S2P Require Import SybilScore Session SybilConfig OidcAuthorize Bitstring Interleave StatusList OidcFlow Disclosure Issuance Plugins Ledger.
From S2P Require Import SignInOtp PairProtocol Wizard PluginKit ChallengePlugins KeyPlugin.

Open Scope Z_scope.
Open Scope minister_scope.

(** ** Strings of the SSH wire format *)

Lemma readUInt32BE_write pre n post : 0 <= n < 4294967296 → readUInt32BE (pre ++ writeUInt32BE n ++ post) (length pre) = n.
Proof.
  intros Hn. unfold readUInt32BE. rewrite drop_app_length. cbn [app writeUInt32BE]. Z.to_euclidean_division_equations. lia.
Qed.

Lemma writeUInt32BE_read a b c d : is_byte a → is_byte b → is_byte c → is_byte d →
  writeUInt32BE (a * 16777216 + b * 65536 + c * 256 + d) = [a; b; c; d] ∧ 0 <= a * 16777216 + b * 65536 + c * 256 + d < 4294967296.
Proof.
  unfold is_byte, writeUInt32BE. intros. split; [|lia].
  f_equal; [|f_equal; [|f_equal; [|f_equal]]]; Z.to_euclidean_division_equations; lia.
Qed.

Lemma length_sshString data : length (sshString data) = (4 + length data)%nat.
Proof. unfold sshString. by rewrite length_app. Qed.

(** Data that a length of 32 bits describes. *)
Definition wireable (data : Bytes) : Prop := Z.of_nat (length data) < 4294967296.

Lemma readSshString_app pre data post : wireable data →
  readSshString (pre ++ sshString data ++ post) (length pre) = Some (data, (length pre + length (sshString data))%nat).
Proof.
  intros Hd. unfold wireable in Hd. unfold readSshString. rewrite (proj2 (Nat.ltb_ge _ _)) by (rewrite !length_app, length_sshString; lia).
  set (len := Z.of_nat (length data)) in *.
  assert (readUInt32BE (pre ++ sshString data ++ post) (length pre) = len) as ->
    by (unfold sshString; rewrite <-(assoc_L (++) (writeUInt32BE _)); apply readUInt32BE_write; lia).
  rewrite (proj2 (Z.ltb_ge _ _)) by (rewrite !length_app, length_sshString; lia). subst len. rewrite Nat2Z.id.
  replace (pre ++ sshString data ++ post) with ((pre ++ writeUInt32BE (Z.of_nat (length data))) ++ data ++ post)
    by (unfold sshString; by rewrite <-!(assoc_L (++))).
  replace (length pre + 4)%nat with (length (pre ++ writeUInt32BE (Z.of_nat (length data)))) by (by rewrite length_app).
  rewrite drop_app_length, take_app_length, length_sshString, length_app. cbn [length writeUInt32BE]. do 2 f_equal. lia.
Qed.

Lemma readSshString_inv pre rest data next : Forall is_byte rest →
  readSshString (pre ++ rest) (length pre) = Some (data, next) →
  ∃ post, rest = sshString data ++ post ∧ next = length (pre ++ sshString data) ∧ wireable data ∧ Forall is_byte post.
Proof.
  intros Hb H. unfold readSshString in H. destruct (Nat.ltb_spec (length (pre ++ rest)) (length pre + 4)) as [?|Hlen]; [done|].
  rewrite length_app in *. destruct rest as [|a [|b [|c [|d rest]]]]; cbn [length] in Hlen; try lia.
  repeat (apply Forall_cons in Hb as [? Hb]). destruct (writeUInt32BE_read a b c d) as [Hw Hr]; try done.
  revert H. unfold readUInt32BE. rewrite drop_app_length. set (n := a * 16777216 + b * 65536 + c * 256 + d) in *. cbn [length].
  destruct (Z.ltb_spec (Z.of_nat (length pre + S (S (S (S (length rest)))))) (Z.of_nat (length pre + 4) + n)); [done|]. intros [= <- <-].
  replace (length pre + 4)%nat with (length (pre ++ [a; b; c; d])) by (by rewrite length_app).
  change (a :: b :: c :: d :: rest) with ([a; b; c; d] ++ rest). rewrite (assoc_L (++) pre), drop_app_length.
  assert (length (take (Z.to_nat n) rest) = Z.to_nat n) as Hl by (rewrite length_take; lia).
  exists (drop (Z.to_nat n) rest). unfold sshString, wireable. rewrite Hl, Z2Nat.id, Hw by lia. split_and!.
  - by rewrite <-(assoc_L (++)), take_drop.
  - rewrite !length_app, Hl. cbn [length]. lia.
  - lia.
  - by apply Forall_drop.
Qed.

(** ** The signature file *)

(** The encoding of its fields. *)
Definition encodeSshSig (s : SshSig) : Bytes :=
  SSHSIG_MAGIC ++ writeUInt32BE 1 ++ sshString (sg_publicKey s) ++ sshString (sg_namespace s) ++ sshString (sg_reserved s)
  ++ sshString (sg_hashAlg s) ++ sshString (sg_signature s).

Definition wireableSig (s : SshSig) : Prop :=
  wireable (sg_publicKey s) ∧ wireable (sg_namespace s) ∧ wireable (sg_reserved s) ∧ wireable (sg_hashAlg s) ∧ wireable (sg_signature s).

(** One more field at the end of a prefix. *)
Lemma read_field pre post data l n : wireable data → l = pre ++ sshString data ++ post → n = length pre →
  readSshString l n = Some (data, length (pre ++ sshString data)).
Proof. intros Hd -> ->. rewrite length_app. by apply readSshString_app. Qed.

Lemma parse_encode s : wireableSig s → parseSshSig (encodeSshSig s) = Some s.
Proof.
  destruct s as [pk ns rs ha sg]. intros (H1 & H2 & H3 & H4 & H5). unfold parseSshSig, encodeSshSig. cbn [sg_publicKey sg_namespace sg_reserved sg_hashAlg sg_signature] in *.
  set (header := SSHSIG_MAGIC ++ writeUInt32BE 1). rewrite (assoc_L (++) SSHSIG_MAGIC). fold header.
  set (body := sshString pk ++ _). rewrite (proj2 (Nat.ltb_ge _ _)) by (rewrite length_app; cbn; lia).
  replace (take 6 (header ++ body)) with SSHSIG_MAGIC by reflexivity. rewrite bool_decide_eq_true_2 by done. cbn [orb negb].
  replace (readUInt32BE (header ++ body) 6) with 1 by reflexivity. cbn [Z.eqb Pos.eqb negb]. subst body.
  rewrite (read_field header (sshString ns ++ sshString rs ++ sshString ha ++ sshString sg) pk) by done. cbn [mbind option_bind].
  rewrite (read_field (header ++ sshString pk) (sshString rs ++ sshString ha ++ sshString sg) ns) by (done || by rewrite <-!(assoc_L (++))). cbn [mbind option_bind].
  rewrite (read_field ((header ++ sshString pk) ++ sshString ns) (sshString ha ++ sshString sg) rs) by (done || by rewrite <-!(assoc_L (++))). cbn [mbind option_bind].
  rewrite (read_field (((header ++ sshString pk) ++ sshString ns) ++ sshString rs) (sshString sg) ha) by (done || by rewrite <-!(assoc_L (++))). cbn [mbind option_bind].
  rewrite (read_field ((((header ++ sshString pk) ++ sshString ns) ++ sshString rs) ++ sshString ha) [] sg) by (done || by rewrite app_nil_r, <-!(assoc_L (++))). cbn [mbind option_bind].
  rewrite <-!(assoc_L (++)), Nat.eqb_refl. done.
Qed.

(** Reads the next field of the buffer [pre ++ rest]. *)
Ltac next_field H post Hw :=
  match type of H with
  | (readSshString (?pre ++ ?rest) ?n ≫= _) = _ =>
      let d := fresh "d" in let c := fresh "c" in let E := fresh "E" in let Hr := fresh "Hr" in
      destruct (readSshString (pre ++ rest) n) as [[d c]|] eqn:E; [|done]; cbn [mbind option_bind] in H;
      apply readSshString_inv in E as (post & Hr & -> & Hw & ?); [|done]; rewrite Hr, (assoc_L (++) pre (sshString d) post) in H
  end.

Lemma encode_parse blob s : Forall is_byte blob → parseSshSig blob = Some s → blob = encodeSshSig s ∧ wireableSig s.
Proof.
  intros Hb H. unfold parseSshSig in H. destruct (Nat.ltb_spec (length blob) 10) as [?|Hlen]; [done|].
  destruct (bool_decide (take 6 blob = SSHSIG_MAGIC)) eqn:Em; [|done]. bool_hyps. cbn [orb negb] in H.
  destruct (Z.eqb_spec (readUInt32BE blob 6) 1) as [Hv|]; [|done]. cbn [negb] in H.
  assert (blob = SSHSIG_MAGIC ++ drop 6 blob) as Hbl by (rewrite <-Em; by rewrite take_drop).
  generalize dependent (drop 6 blob). intros r ->. clear Em.
  destruct r as [|a [|b [|c [|d rest]]]]; try (cbn in Hlen; lia).
  apply Forall_app in Hb as [_ Hb]. do 4 (apply Forall_cons in Hb as [? Hb]). destruct (writeUInt32BE_read a b c d) as [Hw Hr]; try done.
  assert (a * 16777216 + b * 65536 + c * 256 + d = 1) as Hone by exact Hv. rewrite Hone in Hw.
  replace (SSHSIG_MAGIC ++ a :: b :: c :: d :: rest) with ((SSHSIG_MAGIC ++ writeUInt32BE 1) ++ rest) in * by (rewrite Hw; by rewrite <-(assoc_L (++))).
  change 10%nat with (length (SSHSIG_MAGIC ++ writeUInt32BE 1)) in H. set (header := SSHSIG_MAGIC ++ writeUInt32BE 1) in *.
  next_field H p1 W1. next_field H p2 W2. next_field H p3 W3. next_field H p4 W4. next_field H p5 W5.
  match type of H with (if negb (?x =? ?y)%nat then _ else _) = _ => destruct (Nat.eqb_spec x y) as [Heq|]; [|done] end.
  rewrite (length_app _ p5) in Heq. destruct p5; [|cbn in Heq; lia]. cbn [negb] in H. injection H as <-.
  split; [|by split_and!]. unfold encodeSshSig. cbn [sg_publicKey sg_namespace sg_reserved sg_hashAlg sg_signature]. subst. subst header.
  by rewrite app_nil_r, <-!(assoc_L (++)).
Qed.

(** ** Base64 *)

Definition byteable (x : Z) : Prop := 0 <= x < 64.

Lemma sextetsToBytes_unsextets l bytes : unsextets l = Some bytes → sextetsToBytes l = bytes.
Proof.
  revert l bytes. assert (∀ n l bytes, (length l <= n)%nat → unsextets l = Some bytes → sextetsToBytes l = bytes) as H; [|intros l bytes; by apply (H (length l))].
  induction n as [|n IH]; intros l bytes Hl Hu; [destruct l; [by simplify_eq/=|cbn in Hl; lia]|].
  destruct l as [|a [|b [|c [|d l]]]]; cbn [unsextets sextetsToBytes] in *; simplify_eq; try done.
  destruct (unsextets l) as [rest|] eqn:E; [|done]. cbn in Hu. injection Hu as <-. rewrite (IH l rest) by (done || cbn in Hl; lia). done.
Qed.

Lemma sextetsToBytes_bytes l : Forall byteable l → Forall is_byte (sextetsToBytes l).
Proof.
  revert l. assert (∀ n l, (length l <= n)%nat → Forall byteable l → Forall is_byte (sextetsToBytes l)) as H; [|intros l; by apply (H (length l))].
  induction n as [|n IH]; intros l Hl Hf; [destruct l; [constructor|cbn in Hl; lia]|].
  destruct l as [|a [|b [|c [|d l]]]]; cbn [sextetsToBytes]; try constructor;
    repeat match goal with H : Forall _ (_ :: _) |- _ => apply Forall_cons in H as [? H] end; unfold byteable, is_byte in *;
    repeat (apply Forall_cons; split); try apply Forall_nil; try done; try (Z.to_euclidean_division_equations; lia).
  apply IH; [cbn in Hl; lia|done].
Qed.

Lemma base64Sextet_byteable c x : base64Sextet c = Some x → byteable x.
Proof.
  unfold base64Sextet. intros Hf. apply fmap_Some in Hf as ([i d] & Hf & ->). apply list_find_Some in Hf as (Hl & _ & _).
  apply lookup_lt_Some in Hl. change (length BASE64_ALPHABET) with 64%nat in Hl. unfold byteable. cbn. lia.
Qed.

Lemma fromBase64_bytes s : Forall is_byte (fromBase64 s).
Proof.
  unfold fromBase64. apply sextetsToBytes_bytes, Forall_forall. intros x (c & _ & Hc)%list_elem_of_omap. by eapply base64Sextet_byteable.
Qed.

Lemma unarmor_bytes armored blob : unarmorSshSig armored = Some blob → Forall is_byte blob.
Proof. unfold unarmorSshSig. intros H. repeat (case_match; try done). simplify_eq. apply fromBase64_bytes. Qed.

(** ** Text and bytes *)

Lemma utf8_fromUtf8 bytes : Forall is_byte bytes → utf8 (fromUtf8 bytes) = bytes.
Proof.
  unfold utf8, fromUtf8. rewrite String.list_ascii_of_string_of_list_ascii. induction 1 as [|b l Hb _ IH]; [done|]. cbn. f_equal; [|done].
  unfold is_byte in Hb. rewrite Ascii.nat_ascii_embedding by lia. lia.
Qed.

Lemma fromUtf8_utf8 s : fromUtf8 (utf8 s) = s.
Proof.
  unfold utf8, fromUtf8. rewrite <-list_fmap_compose. induction s as [|c s IH]; [done|]. cbn. rewrite Nat2Z.id, Ascii.ascii_nat_embedding. by f_equal.
Qed.

#[export] Instance utf8_inj : Inj (=) (=) utf8.
Proof. intros s t H. by rewrite <-(fromUtf8_utf8 s), H, fromUtf8_utf8. Qed.

(** ** What a signature covers *)

Lemma sshString_app_inj d d' p p' : wireable d → wireable d' → sshString d ++ p = sshString d' ++ p' → d = d' ∧ p = p'.
Proof.
  intros H H' E. pose proof (readSshString_app [] d p H) as R. pose proof (readSshString_app [] d' p' H') as R'.
  cbn [app length] in *. rewrite E, R' in R. injection R as -> _. split; [done|]. by apply app_inv_head in E.
Qed.

(** The signed bytes determine the hash algorithm and the hash of the message. *)
Lemma signedBlob_inj ha ha' h h' : wireable (utf8 ha) → wireable (utf8 ha') → wireable h → wireable h' →
  signedBlob ha h = signedBlob ha' h' → ha = ha' ∧ h = h'.
Proof.
  intros W1 W1' W2 W2' E. unfold signedBlob in E. apply app_inv_head in E. do 2 (apply sshString_app_inj in E as [_ E]; [|done..]).
  apply sshString_app_inj in E as [->%(inj utf8) E]; [|done..].
  rewrite <-(app_nil_r (sshString h)), <-(app_nil_r (sshString h')) in E. by apply sshString_app_inj in E as [-> _].
Qed.

(** The key, the inner hash and the parsed signature of an accepted file, and the text it covers. *)
Definition ssh_accepted (w : KeyWorld) (line challenge : string) (f : SshSig) : Prop :=
  ∃ hashAlg key inner next innerHash sig text,
    sg_namespace f = utf8 SSH_NAMESPACE ∧ sg_hashAlg f = utf8 hashAlg ∧ (hashAlg = "sha256" ∨ hashAlg = "sha512") ∧
    kw_parseKey w (trim line) = Some key ∧ kw_type w key ∈ SSH_ALLOWED_TYPES ∧ kw_toBuffer w key = Some (sg_publicKey f) ∧
    readSshString (sg_signature f) 0 = Some (utf8 inner, next) ∧ jget inner SSH_INNER_HASH = Some innerHash ∧
    kw_parseSignature w (sg_signature f) (kw_type w key) = Some sig ∧
    (text = challenge ∨ text = challenge +:+ NL) ∧
    kw_verify w key innerHash (signedBlob hashAlg (kw_hash w hashAlg (utf8 text))) sig = Some true.

Lemma Forall_readSshString buf d n : Forall is_byte buf → readSshString buf 0 = Some (d, n) → Forall is_byte d.
Proof. unfold readSshString. intros Hb H. repeat (case_match; try done). simplify_eq. by apply Forall_take, Forall_drop. Qed.

(** Bytes whose text is a given ASCII text. *)
Lemma fromUtf8_eq bytes s : Forall is_byte bytes → fromUtf8 bytes = s ↔ bytes = utf8 s.
Proof. intros Hb. split; [|intros ->; apply fromUtf8_utf8]. intros <-. by rewrite utf8_fromUtf8. Qed.

Lemma encode_bytes s : Forall is_byte (encodeSshSig s) →
  Forall is_byte (sg_publicKey s) ∧ Forall is_byte (sg_namespace s) ∧ Forall is_byte (sg_hashAlg s) ∧ Forall is_byte (sg_signature s).
Proof. unfold encodeSshSig, sshString. rewrite !Forall_app. naive_solver. Qed.

(** C3: An SSH signature is accepted exactly when the pasted file is the armored encoding of five fields, with nothing
    before or after them, such that: the namespace is the service's own, the hash is SHA-256 or SHA-512, the
    embedded key is byte for byte the wire form of the pasted key, which has an allowed type, the inner
    algorithm has a known hash (so that no SHA-1 signature counts), and that key verifies the signature over
    the magic, the namespace, the hash's name and the hash of the stored challenge, as it is or with one line
    feed at its end. *)
Theorem ssh_signature_exact w line challenge armored :
  verifySshSignature w line challenge armored = true ↔
  ∃ f, unarmorSshSig armored = Some (encodeSshSig f) ∧ wireableSig f ∧ ssh_accepted w line challenge f.
Proof.
  unfold verifySshSignature. destruct (unarmorSshSig armored) as [blob|] eqn:Eu; cbn [mbind option_bind].
  2: { split; [done|]. by intros (f & ? & _). }
  pose proof (unarmor_bytes _ _ Eu) as Hb. split.
  - destruct (parseSshSig blob) as [f|] eqn:Ep; [|done]. cbn [mbind option_bind]. apply encode_parse in Ep as [-> Hw]; [|done].
    destruct (encode_bytes f Hb) as (_ & Bn & Bh & Bs).
    destruct (bool_decide (fromUtf8 (sg_namespace f) = _)) eqn:En; [|done]. bool_hyps. cbn [negb].
    destruct (negb (bool_decide (fromUtf8 (sg_hashAlg f) = "sha256")) && _) eqn:Eh; [done|].
    destruct (kw_parseKey w (trim line)) as [key|] eqn:Ek; [|done]. cbn [mbind option_bind].
    destruct (bool_decide (kw_type w key ∈ _)) eqn:Et; [|done]. bool_hyps. cbn [negb].
    destruct (kw_toBuffer w key) as [wire|] eqn:Ewire; [|done]. cbn [mbind option_bind].
    destruct (bool_decide (sg_publicKey f = wire)) eqn:Epk; [|done]. bool_hyps. cbn [negb].
    destruct (readSshString (sg_signature f) 0) as [[inner next]|] eqn:Ei; [|done]. cbn [mbind option_bind].
    destruct (jget (fromUtf8 inner) SSH_INNER_HASH) as [innerHash|] eqn:Eih; [|done]. cbn [mbind option_bind].
    destruct (kw_parseSignature w _ _) as [sig|] eqn:Es; [|done]. cbn [mbind option_bind default]. intros (text & Hin & Hv)%existsb_exists.
    unfold verifies in Hv. bool_hyps. exists f. split; [done|]. split; [done|].
    exists (fromUtf8 (sg_hashAlg f)), key, (fromUtf8 inner), next, innerHash, sig, text.
    rewrite !utf8_fromUtf8 by eauto using Forall_readSshString. split_and!; try done.
    + by apply fromUtf8_eq.
    + apply andb_false_iff in Eh as [Eh|Eh]; apply negb_false_iff in Eh; bool_hyps; auto.
    + by subst.
    + destruct Hin as [<-|[<-|[]]]; auto.
  - intros (f & [= ->] & Hw & hashAlg & key & inner & next & innerHash & sig & text & Hn & Hh & Ha & Hk & Ht & Hb' & Hi & Hih & Hs & Htext & Hv).
    rewrite (parse_encode f Hw). cbn [mbind option_bind]. rewrite Hn, fromUtf8_utf8, bool_decide_eq_true_2 by done. cbn [negb].
    rewrite Hh, fromUtf8_utf8. assert (negb (bool_decide (hashAlg = "sha256")) && negb (bool_decide (hashAlg = "sha512")) = false) as ->.
    { by destruct Ha as [-> | ->]. }
    rewrite Hk. cbn [mbind option_bind]. rewrite bool_decide_eq_true_2 by done. cbn [negb]. rewrite Hb'. cbn [mbind option_bind].
    rewrite bool_decide_eq_true_2 by done. cbn [negb]. rewrite Hi. cbn [mbind option_bind]. rewrite fromUtf8_utf8, Hih. cbn [mbind option_bind].
    rewrite Hs. cbn [mbind option_bind default]. apply existsb_exists. exists text.
    split; [destruct Htext as [-> | ->]; [by left|right; by left]|]. unfold verifies. by apply bool_decide_eq_true_2.
Qed.

(** ** The file an honest signer pastes *)

Definition sextetReads (x : Z) : bool := bool_decide (base64Sextet (base64Char x) = Some x) && negb (bool_decide (base64Char x = "="%char)).

Lemma base64Char_sextet x : 0 <= x < 64 → base64Sextet (base64Char x) = Some x ∧ base64Char x ≠ "="%char.
Proof.
  intros Hx. assert (sextetReads x = true) as [H1 H2]%andb_true_iff by (apply (below_forallb _ 64); [vm_compute; reflexivity|done]).
  by bool_hyps.
Qed.

Lemma fromBase64_to bytes : Forall is_byte bytes → fromBase64 (toBase64 bytes) = bytes.
Proof.
  intros Hb. unfold fromBase64, toBase64. rewrite String.list_ascii_of_string_of_list_ascii.
  assert (∀ l p, Forall byteable l → p = [] ∨ head p = Some "="%char →
            omap base64Sextet (beforePadding ((base64Char <$> l) ++ p)) = l) as H.
  { intros l p Hl Hp. induction Hl as [|x l Hx _ IH].
    - destruct p as [|c p]; [done|]. destruct Hp as [|[= ->]]; [done|]. reflexivity.
    - destruct (base64Char_sextet x Hx) as [Hs Hne]. cbn [fmap list_fmap app beforePadding]. rewrite decide_False by done.
      cbn [omap list_omap]. rewrite Hs. by f_equal. }
  rewrite H; [|by apply sextets_range|unfold padding; repeat case_match; auto]. by apply sextetsToBytes_unsextets, unsextets_sextets.
Qed.

(** The armored file, in chunks. *)
Definition armorSshSig (chunks : list string) : string := lines ([BEGIN_SSH] ++ chunks ++ [END_SSH; ""]).

(** A line without line feed or carriage return. *)
Definition plainLine (s : string) : bool := all_chars (fun c => negb (bool_decide (c = Ascii.ascii_of_nat 10)) && negb (bool_decide (c = CR))) s.

Lemma plain_free s : plainLine s = true → split_on (Ascii.ascii_of_nat 10) s = [s] ∧ dropCR s = s.
Proof.
  intros H. split.
  - apply split_on_free. unfold plainLine, all_chars in *. rewrite forallb_forall in *. intros c Hc. specialize (H c Hc). by apply andb_true_iff in H as [? _].
  - unfold plainLine, all_chars in H. induction s as [|c s IH]; [done|]. cbn [String.list_ascii_of_string forallb] in H.
    apply andb_true_iff in H as [Hc Hs]. apply andb_true_iff in Hc as [_ Hc]. bool_hyps. specialize (IH Hs).
    destruct s as [|c' s]; [cbn; by rewrite decide_False|]. change (dropCR (String c (String c' s))) with (String c (dropCR (String c' s))). by rewrite IH.
Qed.

Lemma splitLines_lines l : l ≠ [] → forallb plainLine l = true → splitLines (lines l) = l.
Proof.
  intros Hne Hp. unfold splitLines, lines. assert (split_on (Ascii.ascii_of_nat 10) (String.concat NL l) = l) as ->.
  { induction l as [|a [|b l] IH]; [done| |].
    - cbn [String.concat]. apply plain_free. by apply andb_true_iff in Hp as [? _].
    - cbn [forallb] in Hp. apply andb_true_iff in Hp as [Ha Hp]. 
      change (String.concat NL (a :: b :: l)) with (a +:+ String (Ascii.ascii_of_nat 10) (String.concat NL (b :: l))).
      rewrite split_on_app, (proj1 (plain_free a Ha)), IH by done. done. }
  induction l as [|a [|b l] IH]; [done|done|]. cbn [forallb] in Hp. apply andb_true_iff in Hp as [Ha Hp].
  change (dropCRs (a :: b :: l)) with (dropCR a :: dropCRs (b :: l)). rewrite (proj2 (plain_free a Ha)). by rewrite IH.
Qed.

(** The characters of the body of a file. *)
Definition is_base64 (c : Ascii.ascii) : bool := bool_decide (c ∈ BASE64_ALPHABET) || bool_decide (c = "="%char).

Lemma base64_plain c : is_base64 c = true → is_space c = false ∧ c ≠ Ascii.ascii_of_nat 10 ∧ c ≠ CR ∧ c ≠ "-"%char.
Proof. destruct c as [[] [] [] [] [] [] [] []]; vm_compute; intros H; try discriminate H; split_and!; done. Qed.

Lemma all_chars_app f s t : all_chars f (s +:+ t) = all_chars f s && all_chars f t.
Proof. unfold all_chars. by rewrite list_ascii_app, forallb_app. Qed.

Lemma trim_plain s : all_chars is_base64 s = true → trim s = s.
Proof.
  intros H. assert (∀ s, all_chars is_base64 s = true → trim_end s = s) as Hend.
  { clear. intros s H. induction s as [|c s IH]; [done|]. apply andb_true_iff in H as [Hc Hs]. cbn [trim_end].
    rewrite (IH Hs). destruct (base64_plain c Hc) as [Hsp _]. destruct s; [by rewrite Hsp|done]. }
  unfold trim. destruct s as [|c s]; [done|]. apply andb_true_iff in H as Hh. destruct Hh as [Hc _]. cbn [trim_start].
  destruct (base64_plain c Hc) as [-> _]. by apply Hend.
Qed.

Lemma toBase64_chars bytes : Forall is_byte bytes → all_chars is_base64 (toBase64 bytes) = true.
Proof.
  intros Hb. unfold all_chars, toBase64. rewrite String.list_ascii_of_string_of_list_ascii, forallb_app. apply andb_true_iff. split.
  - apply forallb_forall. intros c Hc%list_elem_of_In. apply list_elem_of_fmap in Hc as (x & -> & Hx).
    pose proof (sextets_range _ Hb) as Hr. eapply Forall_forall in Hr; [|done]. destruct (base64Char_sextet x Hr) as [Hs _].
    unfold is_base64. apply orb_true_iff. left. apply bool_decide_eq_true_2. unfold base64Sextet in Hs.
    apply fmap_Some in Hs as ([i d] & Hf & _). apply list_find_Some in Hf as (Hl & <- & _). by eapply list_elem_of_lookup_2.
  - unfold padding. by repeat case_match.
Qed.

Lemma concat_chars f chunks : all_chars f (String.concat "" chunks) = true ↔ Forall (fun s => all_chars f s = true) chunks.
Proof.
  induction chunks as [|a chunks IH]; [done|]. rewrite Forall_cons, <-IH. destruct chunks as [|b chunks].
  - cbn. rewrite ?andb_true_r. naive_solver.
  - change (String.concat "" (a :: b :: chunks)) with (a +:+ String.concat "" (b :: chunks)). by rewrite all_chars_app, andb_true_iff.
Qed.

(** The verifier reads back what the signer's tool armored, wherever it breaks the lines. *)
Lemma unarmor_armor blob chunks : Forall is_byte blob → blob ≠ [] → String.concat "" chunks = toBase64 blob →
  unarmorSshSig (armorSshSig chunks) = Some blob.
Proof.
  intros Hb Hne Hc. pose proof (toBase64_chars blob Hb) as Hchars. rewrite <-Hc in Hchars. apply concat_chars in Hchars as Hall.
  assert (Forall (fun s => plainLine s = true ∧ s ≠ BEGIN_SSH ∧ s ≠ END_SSH) chunks) as Hplain.
  { eapply Forall_impl; [exact Hall|]. intros s Hs. split.
    - unfold plainLine, all_chars in *. rewrite forallb_forall in *. intros c Hin. destruct (base64_plain c (Hs c Hin)) as (_ & ? & ? & _).
      by rewrite !bool_decide_eq_false_2.
    - split; intros ->; by vm_compute in Hs. }
  unfold unarmorSshSig, armorSshSig. rewrite splitLines_lines; [|done|].
  2: { rewrite !forallb_app. apply andb_true_iff. split; [done|]. apply andb_true_iff. split; [|done].
       apply forallb_forall. intros s Hs%list_elem_of_In. eapply Forall_forall in Hplain; [|done]. tauto. }
  assert (indexOf BEGIN_SSH ([BEGIN_SSH] ++ chunks ++ [END_SSH; ""]) = Some 0%nat) as -> by done.
  assert (indexOf END_SSH ([BEGIN_SSH] ++ chunks ++ [END_SSH; ""]) = Some (S (length chunks))) as ->.
  { unfold indexOf. change ([BEGIN_SSH] ++ chunks ++ [END_SSH; ""]) with (BEGIN_SSH :: chunks ++ [END_SSH; ""]).
    rewrite (proj2 (list_find_Some _ _ (S (length chunks)) END_SSH)); [done|]. split_and!.
    - change ((chunks ++ END_SSH :: [""]) !! length chunks = Some END_SSH). by apply list_lookup_middle.
    - done.
    - intros j y Hj Hlt ->. destruct j as [|j]; [done|]. change ((chunks ++ [END_SSH; ""]) !! j = Some END_SSH) in Hj. rewrite lookup_app_l in Hj by lia.
      apply list_elem_of_lookup_2 in Hj. eapply Forall_forall in Hplain; [|done]. tauto. }
  rewrite (proj2 (Nat.leb_gt _ _)) by lia. cbn [Nat.add]. replace (S (length chunks) - 1)%nat with (length chunks) by lia.
  cbn [app drop]. rewrite drop_0, take_app_length, Hc, trim_plain by (by apply toBase64_chars).
  assert (BASE64_RE (toBase64 blob) = true) as ->.
  { unfold BASE64_RE. apply andb_true_iff. split; [|by apply toBase64_chars]. rewrite bool_decide_eq_false_2; [done|].
    destruct blob as [|a [|b [|c l]]]; done. }
  cbn [negb]. by rewrite fromBase64_to.
Qed.

(** ** Runs of the plugin *)

(** What the form step stores of a pasted key and its challenge. *)
Definition keyData (kind : KeyKind) (publicKey fingerprint algorithm : string) (c : KeyChallenge) : JObject :=
  [("kind", JStr (kindText kind)); ("publicKey", JStr publicKey); ("fingerprint", JStr fingerprint); ("algorithm", JStr algorithm);
   ("challenge", JStr (kc_message c)); ("expiresAt", JStr (kc_expiresAt c))].

(** The data is that of a key that was read and a challenge drawn for it. *)
Definition issued_data (w : KeyWorld) (data : JObject) (kind : KeyKind) (publicKey fingerprint algorithm : string) (drawn : Bytes) (t : Z) (c : KeyChallenge) : Prop :=
  data = keyData kind publicKey fingerprint algorithm c ∧ detectKeyKind publicKey = Some kind ∧
  (∃ label, readPasted w kind publicKey = Ok (fingerprint, algorithm, label)) ∧ buildKeyChallenge kind drawn t = Some c.

Lemma key_states w state : reachable (publicKeyPlugin w) state →
  st_id (wz_currentStep state) = STEP_FORM ∨
  ∃ kind publicKey fingerprint algorithm drawn t c, issued_data w (wz_data state) kind publicKey fingerprint algorithm drawn t c.
Proof.
  revert state. apply reachable_ind'.
  - intros e userId origin log state [= _ <-]. by left.
  - intros [drawn t] state input userId origin log state' IH H. right. cbn [pm_handle publicKeyPlugin fst snd] in H. unfold handleStep in H.
    destruct (bool_decide (st_id (wz_currentStep state) = STEP_FORM)) eqn:Ef.
    { destruct (safeParse KeyInput input) as [parsed|]; [|done]. destruct (detectKeyKind _) as [kind|] eqn:Ek; [|done].
      destruct (readPasted w kind _) as [[[fp alg] label]|] eqn:Er; [|done]. destruct (buildKeyChallenge kind drawn t) as [c|] eqn:Ec; [|done].
      injection H as _ <-. exists kind, (trim (member "publicKey" parsed)), fp, alg, drawn, t, c. split; [done|]. eauto. }
    bool_hyps. destruct IH as [?|IH]; [done|]. destruct (bool_decide (st_id (wz_currentStep state) = STEP_SIGN)).
    { destruct (bool_decide (dataString "challenge" state = "")); [done|]. injection H as _ <-. exact IH. }
    destruct (bool_decide (st_id (wz_currentStep state) = STEP_VERIFY)); [|done].
    destruct (kindOf _); [|done]. destruct (_ || _); [done|]. destruct (isChallengeExpired _ _); [done|].
    destruct (safeParse _ _); [|done]. by destruct (negb _).
Qed.

Lemma key_data state kind publicKey fingerprint algorithm c : wz_data state = keyData kind publicKey fingerprint algorithm c →
  dataString "kind" state = kindText kind ∧ dataString "publicKey" state = publicKey ∧ dataString "fingerprint" state = fingerprint ∧
  dataString "algorithm" state = algorithm ∧ dataString "challenge" state = kc_message c ∧ dataString "expiresAt" state = kc_expiresAt c.
Proof. intros H. unfold dataString. rewrite H. done. Qed.

Lemma kindOf_text kind : kindOf (kindText kind) = Some kind.
Proof. by destruct kind. Qed.

(** An unexpired challenge is one of the last fifteen minutes. *)
Lemma unexpired kind drawn t c now : 0 <= t → t + CHALLENGE_TTL_MS <= YEAR_9999_END → buildKeyChallenge kind drawn t = Some c →
  isChallengeExpired (kc_expiresAt c) now = bool_decide (t + CHALLENGE_TTL_MS < now).
Proof.
  intros H0 Ht H. unfold buildKeyChallenge in H. destruct (toISOString t); [|done]. cbn [mbind option_bind] in H.
  destruct (dateParse_toISOString (t + CHALLENGE_TTL_MS)) as (text & Ht' & Hp); [unfold CHALLENGE_TTL_MS in *; lia|].
  rewrite Ht' in H. cbn [mbind option_bind] in H. injection H as <-. cbn [kc_expiresAt]. unfold isChallengeExpired. rewrite Hp.
  destruct (Z.ltb_spec (t + CHALLENGE_TTL_MS) now); [by rewrite bool_decide_eq_true_2|by rewrite bool_decide_eq_false_2 by lia].
Qed.


(** ** An honest run *)

(** What a tool that holds the private keys promises: keys of the allowed types have a wire form, and its signatures
    are parsed and verify. *)
Class SshSigner (w : KeyWorld) (sign : SshKey w → Bytes → Bytes) := {
  signer_wire : ∀ key, kw_type w key ∈ SSH_ALLOWED_TYPES → ∃ wire, kw_toBuffer w key = Some wire ∧ wireable wire ∧ Forall is_byte wire;
  signer_bytes : ∀ key blob, wireable (sign key blob) ∧ Forall is_byte (sign key blob);
  signer_verifies : ∀ key blob, kw_type w key ∈ SSH_ALLOWED_TYPES →
    ∃ inner next innerHash sig, readSshString (sign key blob) 0 = Some (utf8 inner, next) ∧ jget inner SSH_INNER_HASH = Some innerHash ∧
      kw_parseSignature w (sign key blob) (kw_type w key) = Some sig ∧ kw_verify w key innerHash blob sig = Some true;
}.

(** The fields of a signature of a text, under SHA-512. *)
Definition signFields (w : KeyWorld) (sign : SshKey w → Bytes → Bytes) (key : SshKey w) (text : string) : SshSig :=
  {| sg_publicKey := kw_toBuffer w key ?? []; sg_namespace := utf8 SSH_NAMESPACE; sg_reserved := []; sg_hashAlg := utf8 "sha512";
     sg_signature := sign key (signedBlob "sha512" (kw_hash w "sha512" (utf8 text))) |}.

Lemma utf8_bytes s : Forall is_byte (utf8 s).
Proof.
  unfold utf8, is_byte. induction s as [|c s IH]; [constructor|]. cbn. constructor; [|done]. pose proof (Ascii.nat_ascii_bounded c). lia.
Qed.

Lemma writeUInt32BE_bytes n : Forall is_byte (writeUInt32BE n).
Proof. unfold writeUInt32BE, is_byte. repeat (apply Forall_cons; split); try (by apply Forall_nil); apply Z.mod_pos_bound; lia. Qed.

Lemma sshString_bytes d : Forall is_byte d → Forall is_byte (sshString d).
Proof. intros Hd. unfold sshString. apply Forall_app. split; [apply writeUInt32BE_bytes|done]. Qed.

Lemma signed_file_accepted w sign `{!SshSigner w sign} line key text chunks :
  kw_parseKey w (trim line) = Some key → kw_type w key ∈ SSH_ALLOWED_TYPES →
  String.concat "" chunks = toBase64 (encodeSshSig (signFields w sign key text)) →
  verifySshSignature w line text (armorSshSig chunks) = true.
Proof.
  intros Hk Ht Hc. destruct (signer_wire key Ht) as (wire & Hw & Ww & Bw). destruct (signer_bytes key (signedBlob "sha512" (kw_hash w "sha512" (utf8 text)))) as [Ws Bs].
  destruct (signer_verifies key (signedBlob "sha512" (kw_hash w "sha512" (utf8 text))) Ht) as (inner & next & innerHash & sig & H1 & H2 & H3 & H4).
  apply ssh_signature_exact. exists (signFields w sign key text).
  assert (sg_publicKey (signFields w sign key text) = wire) as Hpk by (cbn; by rewrite Hw). split_and!.
  - apply unarmor_armor; [|done|done]. unfold encodeSshSig. rewrite Hpk. rewrite !Forall_app. split_and!;
      try (by apply writeUInt32BE_bytes); try (by apply (utf8_bytes "SSHSIG")); apply sshString_bytes; try done; apply utf8_bytes || constructor.
  - unfold wireableSig. rewrite Hpk. by split_and!.
  - exists "sha512", key, inner, next, innerHash, sig, text. rewrite Hpk. split_and!; try done; auto.
Qed.

Lemma challenge_text kind drawn t c : 0 <= t → t + CHALLENGE_TTL_MS <= YEAR_9999_END → buildKeyChallenge kind drawn t = Some c →
  kc_message c ≠ "" ∧ kc_expiresAt c ≠ "".
Proof.
  intros H0 Ht H. pose proof (unexpired kind drawn t c t H0 Ht H) as Hx. rewrite bool_decide_eq_false_2 in Hx by (unfold CHALLENGE_TTL_MS; lia).
  split; [|intros E; by rewrite E in Hx]. unfold buildKeyChallenge in H. destruct (toISOString t); [|done]. cbn [mbind option_bind] in H.
  destruct (toISOString (t + _)); [|done]. cbn [mbind option_bind] in H. by injection H as <-.
Qed.

Lemma challenge_exists kind drawn t : 0 <= t → t + CHALLENGE_TTL_MS <= YEAR_9999_END → ∃ c, buildKeyChallenge kind drawn t = Some c.
Proof.
  intros H0 Ht. unfold buildKeyChallenge. destruct (dateParse_toISOString t) as (a & -> & _); [unfold CHALLENGE_TTL_MS in *; lia|].
  destruct (dateParse_toISOString (t + CHALLENGE_TTL_MS)) as (b & -> & _); [unfold CHALLENGE_TTL_MS in *; lia|]. cbn. eauto.
Qed.

(** A field of at most 65536 characters. *)
Definition pasteable (s : string) : Prop := s ≠ "" ∧ Z.of_nat (String.length s) <= MAX_INPUT_CHARS.

Lemma paste_parses key s : pasteable s →
  safeParse (object [required key (zstring [min1; maxLength MAX_INPUT_CHARS])]) (JObj [(key, JStr s)]) = Some [(key, JStr s)].
Proof.
  intros [Hne Hl]. unfold safeParse, parse, object. cbn [sc_strict sc_shape andb parseFields f_key required jget]. rewrite decide_True by done.
  assert (min1 s = Some s) as Hm by (unfold min1; by rewrite bool_decide_eq_false_2).
  assert (maxLength MAX_INPUT_CHARS s = Some s) as Hx by (unfold maxLength; by rewrite (proj2 (Z.ltb_ge _ _))).
  unfold required. cbn [f_schema zstring]. unfold runChecks. cbn [foldl mbind option_bind].
  rewrite Hm. cbn [mbind option_bind]. by rewrite Hx.
Qed.

Lemma member_same key s : member key [(key, JStr s)] = s.
Proof. unfold member. cbn. by rewrite decide_True. Qed.

(** The three steps, for a key that was read. *)
Lemma form_step w kind line fp alg label drawn t c userId origin :
  pasteable line → trim line = line → detectKeyKind line = Some kind → readPasted w kind line = Ok (fp, alg, label) →
  buildKeyChallenge kind drawn t = Some c →
  ∃ log s1, handleStep w drawn t (makeFormStep userId) (JObj [("publicKey", JStr line)]) userId origin = (log, Ok (HContinue s1)) ∧
    st_id (wz_currentStep s1) = STEP_SIGN ∧ wz_data s1 = keyData kind line fp alg c.
Proof.
  intros Hp Htrim Hk Hr Hc. unfold handleStep. rewrite bool_decide_eq_true_2 by done. unfold KeyInput. rewrite (paste_parses "publicKey" line Hp).
  rewrite member_same, Htrim, Hk, Hr, Hc. eexists _, _. split; [done|]. by split.
Qed.

Lemma sign_step w kind line fp alg c drawn t s1 input userId origin :
  kc_message c ≠ "" → st_id (wz_currentStep s1) = STEP_SIGN → wz_data s1 = keyData kind line fp alg c →
  ∃ s2, handleStep w drawn t s1 input userId origin = ([], Ok (HContinue s2)) ∧
    st_id (wz_currentStep s2) = STEP_VERIFY ∧ wz_data s2 = keyData kind line fp alg c.
Proof.
  intros Hm Hid Hd. unfold handleStep. rewrite Hid, bool_decide_eq_false_2, bool_decide_eq_true_2 by done.
  destruct (key_data _ _ _ _ _ _ Hd) as (_ & _ & _ & _ & -> & _). rewrite bool_decide_eq_false_2 by done. eexists. split; [done|]. by split.
Qed.

Lemma verify_step w kind line fp alg c drawn now s2 signature userId origin :
  kc_message c ≠ "" → kc_expiresAt c ≠ "" → line ≠ "" → fp ≠ "" → alg ≠ "" → isChallengeExpired (kc_expiresAt c) now = false →
  st_id (wz_currentStep s2) = STEP_VERIFY → wz_data s2 = keyData kind line fp alg c → pasteable signature →
  verifySignature w kind line (kc_message c) signature = true →
  ∃ log, handleStep w drawn now s2 (JObj [("signature", JStr signature)]) userId origin = (log, Ok (HComplete [buildPublicKeyBadge kind fp alg])).
Proof.
  intros Hm Hx Hl Hf Ha Hexp Hid Hd Hp Hv. unfold handleStep. rewrite Hid, !bool_decide_eq_false_2, bool_decide_eq_true_2 by done.
  destruct (key_data _ _ _ _ _ _ Hd) as (-> & -> & -> & -> & -> & ->). rewrite kindOf_text, !bool_decide_eq_false_2 by done. cbn [orb].
  rewrite Hexp. unfold SignatureInput. rewrite (paste_parses "signature" signature Hp), member_same, Hv. by eexists.
Qed.

(** C7: Whoever holds the private key gets the badge. For a pasted SSH key line that the library reads as a key of an
    allowed type, the form step gives a challenge, the next step asks for the signature, and the armored file that the
    signer's tool makes over exactly that challenge, broken into lines in any way, completes the run with the badge of
    that key, at any time within fifteen minutes of the first step. *)
Theorem honest_key_run w sign `{!SshSigner w sign} line key fp userId origin drawn t e1 input1 drawn2 now :
  pasteable line → trim line = line → detectKeyKind line = Some Ssh →
  kw_parseKey w line = Some key → kw_type w key ∈ SSH_ALLOWED_TYPES → kw_fingerprint w key = Some fp → fp ≠ "" → sshAlgorithm w key ≠ "" →
  0 <= t → t + CHALLENGE_TTL_MS <= YEAR_9999_END → now <= t + CHALLENGE_TTL_MS →
  let plugin := publicKeyPlugin w in
  ∃ c log1 s1 s2, buildKeyChallenge Ssh drawn t = Some c ∧
    pm_handle plugin (drawn, t) (makeFormStep userId) (JObj [("publicKey", JStr line)]) userId origin = (log1, Ok (HContinue s1)) ∧
    pm_handle plugin e1 s1 input1 userId origin = ([], Ok (HContinue s2)) ∧
    ∀ chunks, String.concat "" chunks = toBase64 (encodeSshSig (signFields w sign key (kc_message c))) → pasteable (armorSshSig chunks) →
      ∃ log2, pm_handle plugin (drawn2, now) s2 (JObj [("signature", JStr (armorSshSig chunks))]) userId origin =
        (log2, Ok (HComplete [buildPublicKeyBadge Ssh fp (sshAlgorithm w key)])).
Proof.
  intros Hp Htrim Hkind Hk Ht Hfp Hne Halg H0 Hy Hnow plugin. destruct (challenge_exists Ssh drawn t H0 Hy) as [c Hc].
  destruct (challenge_text _ _ _ _ H0 Hy Hc) as [Hm Hx].
  assert (readPasted w Ssh line = Ok (fp, sshAlgorithm w key, sshAlgorithm w key +:+ " key (" +:+ fp +:+ ")")) as Hread.
  { unfold readPasted, parseSshPublicKey. rewrite Htrim, Hk. cbn [mbind option_bind]. rewrite bool_decide_eq_true_2 by done. cbn [negb]. by rewrite Hfp. }
  destruct (form_step w Ssh line fp _ _ drawn t c userId origin Hp Htrim Hkind Hread Hc) as (log1 & s1 & E1 & Hid1 & Hd1).
  destruct (sign_step w Ssh line fp _ c e1.1 e1.2 s1 input1 userId origin Hm Hid1 Hd1) as (s2 & E2 & Hid2 & Hd2).
  exists c, log1, s1, s2. split_and!; [done|exact E1|exact E2|]. intros chunks Hch Hpa.
  apply (verify_step w Ssh line fp (sshAlgorithm w key) c); try done; [by destruct Hp| |].
  - rewrite (unexpired _ _ _ _ _ H0 Hy Hc). apply bool_decide_eq_false_2. cbn [snd]. lia.
  - cbn [verifySignature]. apply (signed_file_accepted w sign line key); [by rewrite Htrim|done|exact Hch].
Qed.

(** ** Examples *)

Module KeyDemo.

(** A key is its line; its signature of some bytes ends in their checksum. *)
Definition inner (key : string) (blob : Bytes) : Bytes := sshString (utf8 "ssh-ed25519") ++ sshString (utf8 key ++ [checksum blob]).

Definition w : KeyWorld := {|
  PgpKey := unit; PgpCleartext := unit; PgpSignature := unit; SshKey := string; SshSignature := Bytes;
  kw_readKey _ := None; kw_isPrivate _ := false; kw_getFingerprint _ := ""; kw_getAlgorithmInfo _ := {| pi_algorithm := None; pi_bits := None; pi_curve := None |};
  kw_primaryUserId _ := None; kw_readCleartextMessage _ := None; kw_getText _ := ""; kw_verifyCleartext _ _ := None; kw_readSignature _ := None;
  kw_createMessage _ := true; kw_verifyDetached _ _ _ := None;
  kw_parseKey line := if Nat.ltb (String.length line) 100 then Some line else None;
  kw_type _ := "ed25519"; kw_curve _ := None; kw_size _ := 256;
  kw_fingerprint key := Some ("SHA256:" +:+ key); kw_toBuffer key := if Nat.ltb (String.length key) 100 then Some (utf8 key) else Some [];
  kw_parseSignature bytes _ := Some bytes; kw_verify key _ blob sig := Some (bool_decide (sig = inner (String.substring 0 100 key) blob));
  kw_hash _ bytes := [checksum bytes];
|}.

Definition sign (key : string) (blob : Bytes) : Bytes := inner (String.substring 0 100 key) blob.

Lemma length_substring s n : (String.length (String.substring 0 n s) <= n)%nat.
Proof. revert n. induction s as [|c s IH]; intros [|n]; cbn; try lia. specialize (IH n). lia. Qed.

Lemma length_utf8_string s : length (utf8 s) = String.length s.
Proof. unfold utf8. by rewrite length_map, length_list_ascii. Qed.

#[global] Instance signer : SshSigner w sign.
Proof.
  split.
  - intros key _. cbn [kw_toBuffer w]. destruct (Nat.ltb_spec (String.length key) 100).
    + exists (utf8 key). split; [done|]. split; [unfold wireable; rewrite length_utf8_string; lia|apply utf8_bytes].
    + exists []. split; [done|]. split; [done|constructor].
  - intros key blob. unfold sign, inner. pose proof (length_substring key 100) as Hl. split.
    + unfold wireable. rewrite !length_app, !length_sshString, length_app, !length_utf8_string. cbn [length String.length]. lia.
    + apply Forall_app. split; apply sshString_bytes; [apply utf8_bytes|]. apply Forall_app. split; [apply utf8_bytes|].
      constructor; [apply checksum_byte|constructor].
  - intros key blob _. exists "ssh-ed25519". eexists _, "sha512", (sign key blob). split_and!; try done.
    + unfold sign, inner. by apply (readSshString_app []).
    + cbn [kw_verify w]. by rewrite bool_decide_eq_true_2.
Qed.

Definition line : string := "ssh-ed25519 AAAA alice@laptop".
Definition t0 : Z := 1750000000000.
Definition form : list PluginEffect * result Thrown HandleStepResult :=
  pm_handle (publicKeyPlugin w) (replicate 16 7, t0) (makeFormStep "alice") (JObj [("publicKey", JStr line)]) "alice" "o".
Definition after (o : list PluginEffect * result Thrown HandleStepResult) : WizardState :=
  match o.2 with Ok (HContinue s) => s | _ => makeFormStep "" end.
Definition ready : WizardState := after (pm_handle (publicKeyPlugin w) ([], t0 + 1) (after form) JNull "alice" "o").
Definition file : string := armorSshSig [toBase64 (encodeSshSig (signFields w sign line (dataString "challenge" ready)))].
Definition final (now : Z) : list PluginEffect * result Thrown HandleStepResult :=
  pm_handle (publicKeyPlugin w) ([], now) ready (JObj [("signature", JStr file)]) "alice" "o".

End KeyDemo.


(** A minute after the challenge expired, the same file is refused. *)
Lemma expired_key_challenge :
  KeyDemo.final (KeyDemo.t0 + CHALLENGE_TTL_MS + 60000) = fails "This challenge expired. Restart to get a fresh challenge to sign.".
Proof. vm_compute. reflexivity. Qed.

Lemma honest_key_run_witness :
  let plugin := publicKeyPlugin KeyDemo.w in
  ∃ c log1 s1 s2, buildKeyChallenge Ssh (replicate 16 7) KeyDemo.t0 = Some c ∧
    pm_handle plugin (replicate 16 7, KeyDemo.t0) (makeFormStep "alice") (JObj [("publicKey", JStr KeyDemo.line)]) "alice" "o" = (log1, Ok (HContinue s1)) ∧
    pm_handle plugin ([], KeyDemo.t0 + 1) s1 JNull "alice" "o" = ([], Ok (HContinue s2)) ∧
    ∀ chunks, String.concat "" chunks = toBase64 (encodeSshSig (signFields KeyDemo.w KeyDemo.sign KeyDemo.line (kc_message c))) →
      pasteable (armorSshSig chunks) →
      ∃ log2, pm_handle plugin ([], KeyDemo.t0 + 60000) s2 (JObj [("signature", JStr (armorSshSig chunks))]) "alice" "o" =
        (log2, Ok (HComplete [buildPublicKeyBadge Ssh ("SHA256:" +:+ KeyDemo.line) "ed25519"])).
Proof.
  apply (honest_key_run KeyDemo.w KeyDemo.sign KeyDemo.line KeyDemo.line ("SHA256:" +:+ KeyDemo.line) "alice" "o" (replicate 16 7) KeyDemo.t0
    ([], KeyDemo.t0 + 1) JNull [] (KeyDemo.t0 + 60000)); try (vm_compute; reflexivity); try (vm_compute; intros H; discriminate H).
  - split; [vm_compute; discriminate|vm_compute; discriminate].
  - apply (bool_decide_unpack _). vm_compute. exact I.
Defined.
