(* ===== verification/OAuthPlugins.v ===== *)
(** * Plugins over the sign-in of another site (plugins/github, reddit, google, youtube, instagram,
    steam), and the plugins of the extension and of invite codes (plugins/tlsn-attestation with
    lib/tlsn-verifier.ts, plugins/invite-code)

    The first five send the user out with a drawn state and exchange the code that comes back for a
    token; steam posts a signed assertion back to its issuer. Sites, the clock and the environment
    are parameters, as are the parser of URLs and the serializer of JSON values in messages. A
    handler returns early through the error of [result]. *)

From S2P Require Import Prelude Threads Matching Policy Selection RateLimit Registry Claims Vc Pairwise Nullifier.
From S2P Require Import SybilScore Session SybilConfig OidcAuthorize Bitstring Interleave StatusList OidcFlow Disclosure Issuance Plugins Ledger.
From S2P Require Import SignInOtp PairProtocol InviteCodes Wizard PluginKit ChallengePlugins.

Open Scope Z_scope.
Open Scope minister_scope.

(** ** Early returns *)

Abbreviation handler A := (result (outcome HandleStepResult) A).

Definition early {A} (message : string) : handler A := Err (fails message).
Definition throws {A} (message : string) : handler A := Err ([], Err (TMsg message)).
Definition orFail {A} (o : option A) (message : string) : handler A := match o with Some a => Ok a | None => early message end.
Definition unless (b : bool) (message : string) : handler unit := if b then early message else Ok tt.
Definition finish (r : handler (outcome HandleStepResult)) : outcome HandleStepResult := match r with Ok o | Err o => o end.

(** A request in a try block, whose failure is an answer, and one outside, whose failure is thrown. *)
Definition tryFetch (fetch : Fetch) (req : Request) (prefix : string) : handler Response :=
  match fetch req with Ok res => Ok res | Err m => early (prefix +:+ m) end.
Definition rawFetch (fetch : Fetch) (req : Request) : handler Response :=
  match fetch req with Ok res => Ok res | Err m => throws m end.
Definition json (res : Response) : handler Json := match rs_json res with Ok j => Ok j | Err m => throws m end.

(** [j.key]: of null it throws, of what is not an object it is undefined. *)
Definition prop (j : Json) (key : string) : handler (option Json) :=
  match j with
  | JNull => throws ("Cannot read properties of null (reading '" +:+ key +:+ "')")
  | JObj o => Ok (jget key o)
  | _ => Ok None
  end.

(** ** URLs *)

(** The serializer of form parameters: a blank is a plus. *)
Fixpoint formEncode (s : string) : string :=
  match s with
  | EmptyString => EmptyString
  | String c s' =>
      if is_lower_letter c || is_upper_letter c || is_digit_char c || bool_decide (c ∈ String.list_ascii_of_string "*-._")
      then String c (formEncode s')
      else if bool_decide (c = " "%char) then String "+"%char (formEncode s')
      else let n := Ascii.nat_of_ascii c in
           String "%"%char (String (hexDigit (n / 16)) (String (hexDigit (n mod 16)) (formEncode s')))
  end.

Definition urlWith (base : string) (params : list (string * string)) : string :=
  base +:+ "?" +:+ String.concat "&" ((fun '(k, v) => formEncode k +:+ "=" +:+ formEncode v) <$> params).

(** ** What the five flows share *)

Record OAuthEnv := {
  oe_env : environment;
  oe_drawnState : Bytes;
  oe_drawnVerifier : Bytes;
  oe_sha256 : Bytes → Bytes;
  oe_fetch : Fetch;
  oe_now : Z;
  oe_tz : Z → Z;
  oe_stringify : Json → string;
  oe_isEmail : string → bool;
}.

Definition readClientCreds (idName secretName : string) (e : OAuthEnv) : option (string * string) :=
  clientId ← envValue (oe_env e) idName; clientSecret ← envValue (oe_env e) secretName; Some (clientId, clientSecret).

Definition CallbackInput : Schema := object [required "code" (zstring [min1])].

Definition redirectState (pluginId userId stepId url description state : string) (data : JObject) : WizardState :=
  {| wz_pluginId := pluginId; wz_userId := userId;
     wz_currentStep := {| st_id := stepId; st_payload := PRedirect {| rp_url := url; rp_description := Some description; rp_expectedState := Some state |} |};
     wz_data := data |}.

(** The error of the site, or its token. *)
Definition accessToken (site : string) (describe : bool) (tokenJson : Json) : handler string :=
  error ← prop tokenJson "error";
  match error with
  | Some (JStr error) =>
      description ← prop tokenJson "error_description";
      early (site +:+ ": " +:+ match description with Some (JStr d) => if describe then d else error | _ => error end)
  | _ =>
      token ← prop tokenJson "access_token";
      match token with Some (JStr t) => Ok t | _ => early (site +:+ " did not return an access_token") end
  end.

Definition FORM_HEADERS : list (string * string) := [("Content-Type", "application/x-www-form-urlencoded"); ("Accept", "application/json")].

Definition post (url : string) (headers body : list (string * string)) : Request :=
  {| rq_url := url; rq_post := true; rq_headers := headers; rq_body := body |}.

Definition oauthClaims (provider : string) (handle : option string) : JObject :=
  ("provider", JStr provider) :: match present handle with Some h => [("handle", JStr h)] | None => [] end.

Definition zint (ok : Z → bool) (v : Json) : option Json := match v with JNum z => if ok z then Some v else None | _ => None end.
Definition stringAt (key : string) (o : JObject) : option string := match jget key o with Some (JStr s) => Some s | _ => None end.
Definition numberAt (key : string) (o : JObject) : option Z := match jget key o with Some (JNum z) => Some z | _ => None end.

(** ** github *)

Module GitHub.

Definition GITHUB_PROVIDER : string := "github".
Record GithubUserFacts := { gf_id : Z; gf_login : string; gf_createdAt : option string; gf_followers : option Z }.

(** github/derive.ts has its own copies of these two. *)
Definition githubMonthsBetween : (Z → Z) → Z → Z → Z := PluginKit.monthsBetween.
Definition githubHighestBucket : Z → list Z → option Z := PluginKit.highestBucket.

Definition buildGithubBadges (tz : Z → Z) (facts : GithubUserFacts) (now : Z) : list IssuedBadge :=
  let sybilAnchor := pretty (gf_id facts) in
  [badge "oauth-account" [("provider", JStr GITHUB_PROVIDER); ("handle", JStr (gf_login facts))] (Some sybilAnchor) false]
  ++ option_list (
       text ← present (gf_createdAt facts);
       created ← dateParse text;
       bucket ← githubHighestBucket (githubMonthsBetween tz created now) ACCOUNT_AGE_MONTHS;
       Some (badge "account-age" [("provider", JStr GITHUB_PROVIDER); ("olderThanMonths", JNum bucket)] (Some sybilAnchor) false))
  ++ option_list (
       followers ← gf_followers facts;
       bucket ← githubHighestBucket followers FOLLOWERS_BUCKETS;
       Some (badge "social-following" [("provider", JStr GITHUB_PROVIDER); ("followersAtLeast", JNum bucket)] (Some sybilAnchor) false)).

Definition GITHUB_STEP_AUTHORIZE : string := "github-authorize".
Definition GITHUB_AUTHORIZE_URL : string := "https://github.com/login/oauth/authorize".
Definition GITHUB_TOKEN_URL : string := "https://github.com/login/oauth/access_token".
Definition GITHUB_USER_URL : string := "https://api.github.com/user".
Definition GITHUB_REQUESTED_SCOPES : string := "read:user".

Definition GithubUser : Schema :=
  object [required "id" (zint (fun _ => true)); required "login" (zstring [min1]); optional "created_at" (zstring [min1]);
          optional "followers" (zint (fun z => 0 <=? z))].

Definition githubCreds : OAuthEnv → option (string * string) := readClientCreds "GITHUB_CLIENT_ID" "GITHUB_CLIENT_SECRET".

Definition githubStartWizard (e : OAuthEnv) (userId origin : string) : outcome WizardState :=
  match githubCreds e with
  | None => ([], Err (TMsg "GitHub plugin is not configured: set GITHUB_CLIENT_ID and GITHUB_CLIENT_SECRET"))
  | Some (clientId, _) =>
      let state := toBase64Url (oe_drawnState e) in
      let redirectUri := origin +:+ "/badges/new/github/callback" in
      logged "plugin.github.authorize_initiated" []
        (redirectState "github" userId GITHUB_STEP_AUTHORIZE
           (urlWith GITHUB_AUTHORIZE_URL [("client_id", clientId); ("redirect_uri", redirectUri); ("scope", GITHUB_REQUESTED_SCOPES); ("state", state)])
           "We'll send you to GitHub to authorize this badge. After you approve, you'll bounce back here and Minister will issue the credential."
           state [("redirectUri", JStr redirectUri)])
  end.

Definition githubHandleStep (e : OAuthEnv) (state : WizardState) (input : Json) (userId origin : string) : outcome HandleStepResult :=
  if negb (bool_decide (st_id (wz_currentStep state) = GITHUB_STEP_AUTHORIZE)) then unknownStep state
  else finish (
    parsed ← orFail (safeParse CallbackInput input) "Missing GitHub callback code";
    '(clientId, clientSecret) ← orFail (githubCreds e) "GitHub plugin missing GITHUB_CLIENT_ID / GITHUB_CLIENT_SECRET";
    let redirectUri := dataString "redirectUri" state in
    _ ← unless (bool_decide (redirectUri = "")) "Wizard state missing redirect URI — restart the flow";
    tokenResponse ← tryFetch (oe_fetch e) (post GITHUB_TOKEN_URL FORM_HEADERS
      [("client_id", clientId); ("client_secret", clientSecret); ("code", member "code" parsed); ("redirect_uri", redirectUri)]) "Failed to reach GitHub: ";
    _ ← unless (negb (rs_ok tokenResponse)) ("GitHub token endpoint returned " +:+ pretty (rs_status tokenResponse));
    tokenJson ← json tokenResponse;
    token ← accessToken "GitHub" true tokenJson;
    userResponse ← rawFetch (oe_fetch e) (get GITHUB_USER_URL
      [("Authorization", "Bearer " +:+ token); ("User-Agent", "Minister"); ("Accept", "application/vnd.github+json")]);
    _ ← unless (negb (rs_ok userResponse)) ("GitHub /user returned " +:+ pretty (rs_status userResponse));
    userJson ← json userResponse;
    ghUser ← orFail (safeParse GithubUser userJson) "GitHub returned an unexpected user shape";
    let badges := buildGithubBadges (oe_tz e)
      {| gf_id := numberAt "id" ghUser ?? 0; gf_login := member "login" ghUser; gf_createdAt := stringAt "created_at" ghUser;
         gf_followers := numberAt "followers" ghUser |} (oe_now e) in
    Ok (logged "plugin.github.verified" [("issuedTypes", issuedTypes badges)] (HComplete badges))).

Definition githubPlugin : PluginModel :=
  {| pm_env := OAuthEnv; pm_id := "github"; pm_badgeTypes := ["oauth-account"; "account-age"; "social-following"];
     pm_isConfigured := fun e => Some (hasEnvCreds (oe_env e) ["GITHUB_CLIENT_ID"; "GITHUB_CLIENT_SECRET"]);
     pm_start := githubStartWizard; pm_handle := githubHandleStep |}.

End GitHub.

(** ** reddit *)

Module Reddit.

Definition REDDIT_PROVIDER : string := "reddit".
Record RedditUserFacts := { rf_id : string; rf_name : string; rf_createdUtc : option Z }.

Definition redditFullname (id : string) : string := "t2_" +:+ id.

Definition buildRedditBadges (tz : Z → Z) (facts : RedditUserFacts) (now : Z) : list IssuedBadge :=
  let anchor := redditFullname (rf_id facts) in
  let badges := [badge "oauth-account" [("provider", JStr REDDIT_PROVIDER); ("handle", JStr (rf_name facts))] (Some anchor) false] in
  let age := created ← rf_createdUtc facts; accountAgeBadge tz REDDIT_PROVIDER (dateFromUnixSeconds created) anchor now in
  badges ++ option_list age.

Definition REDDIT_STEP_AUTHORIZE : string := "reddit-authorize".
Definition REDDIT_AUTHORIZE_URL : string := "https://www.reddit.com/api/v1/authorize".
Definition REDDIT_TOKEN_URL : string := "https://www.reddit.com/api/v1/access_token".
Definition REDDIT_ME_URL : string := "https://oauth.reddit.com/api/v1/me".
Definition REDDIT_REQUESTED_SCOPES : string := "identity".
Definition USER_AGENT : string := "Minister/1.0 (badge verifier; +https://ministry.id)".

Definition RedditUser : Schema := object [required "id" (zstring [min1]); required "name" (zstring [min1]); optional "created_utc" znumber].

Definition redditCreds : OAuthEnv → option (string * string) := readClientCreds "REDDIT_CLIENT_ID" "REDDIT_CLIENT_SECRET".

Definition redditStartWizard (e : OAuthEnv) (userId origin : string) : outcome WizardState :=
  match redditCreds e with
  | None => ([], Err (TMsg "Reddit plugin is not configured: set REDDIT_CLIENT_ID and REDDIT_CLIENT_SECRET"))
  | Some (clientId, _) =>
      let state := randomToken (oe_drawnState e) in
      let '(verifier, challenge) := pkcePair (oe_sha256 e) (oe_drawnVerifier e) in
      let redirectUri := origin +:+ "/badges/new/reddit/callback" in
      logged "plugin.reddit.authorize_initiated" []
        (redirectState "reddit" userId REDDIT_STEP_AUTHORIZE
           (urlWith REDDIT_AUTHORIZE_URL
              [("client_id", clientId); ("response_type", "code"); ("state", state); ("redirect_uri", redirectUri); ("duration", "temporary");
               ("scope", REDDIT_REQUESTED_SCOPES); ("code_challenge", challenge); ("code_challenge_method", "S256")])
           "We'll send you to Reddit to authorize this badge. After you approve, you'll bounce back here and Minister will issue the credential."
           state [("redirectUri", JStr redirectUri); ("codeVerifier", JStr verifier)])
  end.

(** The credentials of a Basic header. *)
Definition basic (clientId clientSecret : string) : string := "Basic " +:+ toBase64 (utf8 (clientId +:+ ":" +:+ clientSecret)).

Definition redditHandleStep (e : OAuthEnv) (state : WizardState) (input : Json) (userId origin : string) : outcome HandleStepResult :=
  if negb (bool_decide (st_id (wz_currentStep state) = REDDIT_STEP_AUTHORIZE)) then unknownStep state
  else finish (
    parsed ← orFail (safeParse CallbackInput input) "Missing Reddit callback code";
    '(clientId, clientSecret) ← orFail (redditCreds e) "Reddit plugin missing REDDIT_CLIENT_ID / REDDIT_CLIENT_SECRET";
    let redirectUri := dataString "redirectUri" state in
    let codeVerifier := dataString "codeVerifier" state in
    _ ← unless (bool_decide (redirectUri = "") || bool_decide (codeVerifier = "")) "Wizard state missing PKCE data — restart the flow";
    tokenResponse ← tryFetch (oe_fetch e) (post REDDIT_TOKEN_URL
      ([("Authorization", basic clientId clientSecret)] ++ FORM_HEADERS ++ [("User-Agent", USER_AGENT)])
      [("grant_type", "authorization_code"); ("code", member "code" parsed); ("redirect_uri", redirectUri); ("code_verifier", codeVerifier)])
      "Failed to reach Reddit: ";
    _ ← unless (negb (rs_ok tokenResponse)) ("Reddit token endpoint returned " +:+ pretty (rs_status tokenResponse));
    tokenJson ← json tokenResponse;
    token ← accessToken "Reddit" false tokenJson;
    meResponse ← rawFetch (oe_fetch e) (get REDDIT_ME_URL
      [("Authorization", "Bearer " +:+ token); ("User-Agent", USER_AGENT); ("Accept", "application/json")]);
    _ ← unless (negb (rs_ok meResponse)) ("Reddit /me returned " +:+ pretty (rs_status meResponse));
    meJson ← json meResponse;
    user ← orFail (safeParse RedditUser meJson) "Reddit returned an unexpected user shape";
    let badges := buildRedditBadges (oe_tz e)
      {| rf_id := member "id" user; rf_name := member "name" user; rf_createdUtc := numberAt "created_utc" user |} (oe_now e) in
    Ok (logged "plugin.reddit.verified" [("issuedTypes", issuedTypes badges)] (HComplete badges))).

Definition redditPlugin : PluginModel :=
  {| pm_env := OAuthEnv; pm_id := "reddit"; pm_badgeTypes := ["oauth-account"; "account-age"];
     pm_isConfigured := fun e => Some (hasEnvCreds (oe_env e) ["REDDIT_CLIENT_ID"; "REDDIT_CLIENT_SECRET"]);
     pm_start := redditStartWizard; pm_handle := redditHandleStep |}.

End Reddit.

(** ** google and youtube, which share a client *)

Module Google.

Definition GOOGLE_AUTHORIZE_URL : string := "https://accounts.google.com/o/oauth2/v2/auth".
Definition GOOGLE_TOKEN_URL : string := "https://oauth2.googleapis.com/token".
Definition GOOGLE_USERINFO_URL : string := "https://openidconnect.googleapis.com/v1/userinfo".
Definition GOOGLE_STEP_AUTHORIZE : string := "google-authorize".
Definition GOOGLE_REQUESTED_SCOPES : string := "openid email".

Definition zboolean (v : Json) : option Json := match v with JBool _ => Some v | _ => None end.
Definition GoogleUserinfo (isEmail : string → bool) : Schema :=
  object [required "sub" (zstring [min1]); optional "email" (zstring [matching isEmail]); optional "email_verified" zboolean].

Definition googleCreds : OAuthEnv → option (string * string) := readClientCreds "GOOGLE_CLIENT_ID" "GOOGLE_CLIENT_SECRET".

Definition googleStartWizard (e : OAuthEnv) (userId origin : string) : outcome WizardState :=
  match googleCreds e with
  | None => ([], Err (TMsg "Google plugin is not configured: set GOOGLE_CLIENT_ID and GOOGLE_CLIENT_SECRET"))
  | Some (clientId, _) =>
      let state := randomToken (oe_drawnState e) in
      let '(verifier, challenge) := pkcePair (oe_sha256 e) (oe_drawnVerifier e) in
      let redirectUri := origin +:+ "/badges/new/google/callback" in
      logged "plugin.google.authorize_initiated" []
        (redirectState "google" userId GOOGLE_STEP_AUTHORIZE
           (urlWith GOOGLE_AUTHORIZE_URL
              [("client_id", clientId); ("redirect_uri", redirectUri); ("response_type", "code"); ("scope", GOOGLE_REQUESTED_SCOPES);
               ("state", state); ("code_challenge", challenge); ("code_challenge_method", "S256")])
           "We'll send you to Google to authorize this badge. After you approve, you'll bounce back here and Minister will issue the credential."
           state [("redirectUri", JStr redirectUri); ("codeVerifier", JStr verifier)])
  end.

(** The token of the code, through the shared client. *)
Definition googleToken (e : OAuthEnv) (creds : string * string) (code redirectUri codeVerifier : string) : handler string :=
  tokenResponse ← tryFetch (oe_fetch e) (post GOOGLE_TOKEN_URL FORM_HEADERS
    [("client_id", creds.1); ("client_secret", creds.2); ("code", code); ("redirect_uri", redirectUri);
     ("grant_type", "authorization_code"); ("code_verifier", codeVerifier)]) "Failed to reach Google: ";
  _ ← unless (negb (rs_ok tokenResponse)) ("Google token endpoint returned " +:+ pretty (rs_status tokenResponse));
  tokenJson ← json tokenResponse;
  accessToken "Google" true tokenJson.

Definition googleHandleStep (e : OAuthEnv) (state : WizardState) (input : Json) (userId origin : string) : outcome HandleStepResult :=
  if negb (bool_decide (st_id (wz_currentStep state) = GOOGLE_STEP_AUTHORIZE)) then unknownStep state
  else finish (
    parsed ← orFail (safeParse CallbackInput input) "Missing Google callback code";
    creds ← orFail (googleCreds e) "Google plugin missing GOOGLE_CLIENT_ID / GOOGLE_CLIENT_SECRET";
    let redirectUri := dataString "redirectUri" state in
    let codeVerifier := dataString "codeVerifier" state in
    _ ← unless (bool_decide (redirectUri = "") || bool_decide (codeVerifier = "")) "Wizard state missing PKCE data — restart the flow";
    token ← googleToken e creds (member "code" parsed) redirectUri codeVerifier;
    userResponse ← rawFetch (oe_fetch e) (get GOOGLE_USERINFO_URL [("Authorization", "Bearer " +:+ token); ("Accept", "application/json")]);
    _ ← unless (negb (rs_ok userResponse)) ("Google userinfo returned " +:+ pretty (rs_status userResponse));
    userJson ← json userResponse;
    info ← orFail (safeParse (GoogleUserinfo (oe_isEmail e)) userJson) "Google returned an unexpected userinfo shape";
    let verified := match jget "email_verified" info with Some (JBool b) => b | _ => false end in
    let handle := if verified then present (stringAt "email" info) else None in
    let claims := oauthClaims "google" handle in
    let emailDomain := match handle with Some h => match last (split_on "@"%char h) with Some d => JStr d | None => JNull end | None => JNull end in
    Ok (logged "plugin.google.verified" [("emailDomain", emailDomain); ("issuedTypes", JArr [JStr "oauth-account"])]
          (HComplete [badge "oauth-account" claims (Some (member "sub" info)) false]))).

Definition googlePlugin : PluginModel :=
  {| pm_env := OAuthEnv; pm_id := "google"; pm_badgeTypes := ["oauth-account"];
     pm_isConfigured := fun e => Some (hasEnvCreds (oe_env e) ["GOOGLE_CLIENT_ID"; "GOOGLE_CLIENT_SECRET"]);
     pm_start := googleStartWizard; pm_handle := googleHandleStep |}.

(** *** youtube *)

Definition YOUTUBE_CHANNELS_URL : string := "https://www.googleapis.com/youtube/v3/channels?part=snippet&mine=true".
Definition YOUTUBE_STEP_AUTHORIZE : string := "youtube-authorize".
Definition YOUTUBE_REQUESTED_SCOPES : string := "https://www.googleapis.com/auth/youtube.readonly".

Definition zobject (s : Schema) (v : Json) : option Json := match v with JObj o => JObj <$> parse s o | _ => None end.
Definition zarray (f : Json → option Json) (v : Json) : option Json := match v with JArr l => JArr <$> mapM f l | _ => None end.

(** [.default([])]: a member that is absent is empty. *)
Definition arrayAt (key : string) (o : JObject) : list Json := match jget key o with Some (JArr l) => l | _ => [] end.

Definition YoutubeChannelsResponse : Schema :=
  object [optional "items" (zarray (zobject (object [required "id" (zstring [min1]);
    optional "snippet" (zobject (object [optional "title" (zstring [min1]); optional "customUrl" (zstring [min1])]))])))].

Definition youtubeStartWizard (e : OAuthEnv) (userId origin : string) : outcome WizardState :=
  match googleCreds e with
  | None => ([], Err (TMsg "YouTube plugin is not configured: set GOOGLE_CLIENT_ID and GOOGLE_CLIENT_SECRET"))
  | Some (clientId, _) =>
      let state := randomToken (oe_drawnState e) in
      let '(verifier, challenge) := pkcePair (oe_sha256 e) (oe_drawnVerifier e) in
      let redirectUri := origin +:+ "/badges/new/youtube/callback" in
      logged "plugin.youtube.authorize_initiated" []
        (redirectState "youtube" userId YOUTUBE_STEP_AUTHORIZE
           (urlWith GOOGLE_AUTHORIZE_URL
              [("client_id", clientId); ("redirect_uri", redirectUri); ("response_type", "code"); ("scope", YOUTUBE_REQUESTED_SCOPES);
               ("state", state); ("code_challenge", challenge); ("code_challenge_method", "S256")])
           "We'll send you to Google to authorize this badge against your YouTube channel. After you approve, you'll bounce back here and Minister will issue the credential."
           state [("redirectUri", JStr redirectUri); ("codeVerifier", JStr verifier)])
  end.

Definition objectOf (v : Json) : JObject := match v with JObj o => o | _ => [] end.

Definition youtubeHandleStep (e : OAuthEnv) (state : WizardState) (input : Json) (userId origin : string) : outcome HandleStepResult :=
  if negb (bool_decide (st_id (wz_currentStep state) = YOUTUBE_STEP_AUTHORIZE)) then unknownStep state
  else finish (
    parsed ← orFail (safeParse CallbackInput input) "Missing YouTube callback code";
    creds ← orFail (googleCreds e) "YouTube plugin missing GOOGLE_CLIENT_ID / GOOGLE_CLIENT_SECRET";
    let redirectUri := dataString "redirectUri" state in
    let codeVerifier := dataString "codeVerifier" state in
    _ ← unless (bool_decide (redirectUri = "") || bool_decide (codeVerifier = "")) "Wizard state missing PKCE data — restart the flow";
    token ← googleToken e creds (member "code" parsed) redirectUri codeVerifier;
    channelsResponse ← rawFetch (oe_fetch e) (get YOUTUBE_CHANNELS_URL [("Authorization", "Bearer " +:+ token); ("Accept", "application/json")]);
    _ ← unless (negb (rs_ok channelsResponse)) ("YouTube channels endpoint returned " +:+ pretty (rs_status channelsResponse));
    channelsJson ← json channelsResponse;
    channels ← orFail (safeParse YoutubeChannelsResponse channelsJson) "YouTube returned an unexpected channels shape";
    channel ← orFail (head (arrayAt "items" channels)) "No YouTube channel found for this Google account — create a channel first";
    let snippet := match jget "snippet" (objectOf channel) with Some v => objectOf v | None => [] end in
    let handle := match stringAt "customUrl" snippet with Some u => Some u | None => stringAt "title" snippet end in
    Ok (logged "plugin.youtube.verified" [("issuedTypes", JArr [JStr "oauth-account"])]
          (HComplete [badge "oauth-account" (oauthClaims "youtube" handle) (Some (member "id" (objectOf channel))) false]))).

Definition youtubePlugin : PluginModel :=
  {| pm_env := OAuthEnv; pm_id := "youtube"; pm_badgeTypes := ["oauth-account"];
     pm_isConfigured := fun e => Some (hasEnvCreds (oe_env e) ["GOOGLE_CLIENT_ID"; "GOOGLE_CLIENT_SECRET"]);
     pm_start := youtubeStartWizard; pm_handle := youtubeHandleStep |}.

End Google.

(** ** instagram *)

Module Instagram.
Import Google.

Definition FACEBOOK_AUTHORIZE_URL : string := "https://www.facebook.com/v21.0/dialog/oauth".
Definition FACEBOOK_TOKEN_URL : string := "https://graph.facebook.com/v21.0/oauth/access_token".
Definition FACEBOOK_GRAPH_BASE : string := "https://graph.facebook.com/v21.0".
Definition INSTAGRAM_STEP_AUTHORIZE : string := "instagram-authorize".
Definition INSTAGRAM_REQUESTED_SCOPES : string := "pages_show_list,instagram_basic".

Definition FacebookPage : Schema := object [required "id" (zstring [min1]); required "access_token" (zstring [min1])].
Definition FacebookPagesResponse : Schema := object [optional "data" (zarray (zobject FacebookPage))].
Definition PageInstagramLink : Schema := object [optional "instagram_business_account" (zobject (object [required "id" (zstring [min1])]))].
Definition InstagramAccount : Schema := object [required "id" (zstring [min1]); optional "username" (zstring [min1])].

Definition instagramCreds : OAuthEnv → option (string * string) := readClientCreds "INSTAGRAM_CLIENT_ID" "INSTAGRAM_CLIENT_SECRET".

Definition instagramStartWizard (e : OAuthEnv) (userId origin : string) : outcome WizardState :=
  match instagramCreds e with
  | None => ([], Err (TMsg "Instagram plugin is not configured: set INSTAGRAM_CLIENT_ID and INSTAGRAM_CLIENT_SECRET"))
  | Some (clientId, _) =>
      let state := toBase64Url (oe_drawnState e) in
      let redirectUri := origin +:+ "/badges/new/instagram/callback" in
      logged "plugin.instagram.authorize_initiated" []
        (redirectState "instagram" userId INSTAGRAM_STEP_AUTHORIZE
           (urlWith FACEBOOK_AUTHORIZE_URL
              [("client_id", clientId); ("redirect_uri", redirectUri); ("scope", INSTAGRAM_REQUESTED_SCOPES); ("state", state); ("response_type", "code")])
           "We'll send you to Facebook to authorize this badge against a Facebook Page you administer with a linked Instagram Business or Creator account. After you approve, you'll bounce back here and Minister will issue the credential."
           state [("redirectUri", JStr redirectUri)])
  end.

Definition ACCEPT : list (string * string) := [("Accept", "application/json")].

(** The account of the first page that has one, with the token of the page. *)
Fixpoint findLinkedInstagramAccount (fetch : Fetch) (pages : list (string * string)) : handler (option (string * string)) :=
  match pages with
  | [] => Ok None
  | (id, token) :: pages' =>
      linkResponse ← rawFetch fetch (get (FACEBOOK_GRAPH_BASE +:+ "/" +:+ id +:+ "?fields=instagram_business_account&access_token=" +:+ encodeURIComponent token) ACCEPT);
      if negb (rs_ok linkResponse) then findLinkedInstagramAccount fetch pages'
      else
        linkJson ← json linkResponse;
        let igId := link ← safeParse PageInstagramLink linkJson; account ← jget "instagram_business_account" link; present (stringAt "id" (objectOf account)) in
        match igId with
        | Some igId => Ok (Some (igId, token))
        | None => findLinkedInstagramAccount fetch pages'
        end
  end.

(** A value that is neither undefined, null, false, zero nor empty. *)
Definition truthy (v : option Json) : bool :=
  match v with None | Some JNull | Some (JBool false) | Some (JNum 0) | Some (JStr "") => false | _ => true end.

Definition instagramHandleStep (e : OAuthEnv) (state : WizardState) (input : Json) (userId origin : string) : outcome HandleStepResult :=
  if negb (bool_decide (st_id (wz_currentStep state) = INSTAGRAM_STEP_AUTHORIZE)) then unknownStep state
  else finish (
    parsed ← orFail (safeParse CallbackInput input) "Missing Instagram callback code";
    '(clientId, clientSecret) ← orFail (instagramCreds e) "Instagram plugin missing INSTAGRAM_CLIENT_ID / INSTAGRAM_CLIENT_SECRET";
    let redirectUri := dataString "redirectUri" state in
    _ ← unless (bool_decide (redirectUri = "")) "Wizard state missing redirect URI — restart the flow";
    tokenResponse ← tryFetch (oe_fetch e) (get (urlWith FACEBOOK_TOKEN_URL
      [("client_id", clientId); ("client_secret", clientSecret); ("redirect_uri", redirectUri); ("code", member "code" parsed)]) ACCEPT) "Failed to reach Facebook: ";
    _ ← unless (negb (rs_ok tokenResponse)) ("Facebook token endpoint returned " +:+ pretty (rs_status tokenResponse));
    tokenJson ← json tokenResponse;
    error ← prop tokenJson "error";
    _ ← unless (truthy error) ("Facebook: " +:+ oe_stringify e (error ?? JNull));
    token ← prop tokenJson "access_token";
    token ← match token with Some (JStr t) => Ok t | _ => early "Facebook did not return an access_token" end;
    pagesResponse ← rawFetch (oe_fetch e) (get (FACEBOOK_GRAPH_BASE +:+ "/me/accounts?access_token=" +:+ encodeURIComponent token) ACCEPT);
    _ ← unless (negb (rs_ok pagesResponse)) ("Facebook Pages endpoint returned " +:+ pretty (rs_status pagesResponse));
    pagesJson ← json pagesResponse;
    pages ← orFail (safeParse FacebookPagesResponse pagesJson) "Facebook returned an unexpected Pages shape";
    linked ← findLinkedInstagramAccount (oe_fetch e) ((fun p => (member "id" (objectOf p), member "access_token" (objectOf p))) <$> arrayAt "data" pages);
    '(igAccountId, pageAccessToken) ← orFail linked
      "No Instagram Business or Creator account found linked to a Facebook Page you administer. This badge requires a Business or Creator Instagram account linked to a Facebook Page — a plain personal account cannot be verified.";
    igResponse ← rawFetch (oe_fetch e) (get (FACEBOOK_GRAPH_BASE +:+ "/" +:+ igAccountId +:+ "?fields=id,username&access_token=" +:+ encodeURIComponent pageAccessToken) ACCEPT);
    _ ← unless (negb (rs_ok igResponse)) ("Instagram account lookup returned " +:+ pretty (rs_status igResponse));
    igJson ← json igResponse;
    ig ← orFail (safeParse InstagramAccount igJson) "Instagram returned an unexpected account shape";
    Ok (logged "plugin.instagram.verified" [("issuedTypes", JArr [JStr "oauth-account"])]
          (HComplete [badge "oauth-account" (oauthClaims "instagram" (stringAt "username" ig)) (Some (member "id" ig)) false]))).

Definition instagramPlugin : PluginModel :=
  {| pm_env := OAuthEnv; pm_id := "instagram"; pm_badgeTypes := ["oauth-account"];
     pm_isConfigured := fun e => Some (hasEnvCreds (oe_env e) ["INSTAGRAM_CLIENT_ID"; "INSTAGRAM_CLIENT_SECRET"]);
     pm_start := instagramStartWizard; pm_handle := instagramHandleStep |}.

End Instagram.

(** ** steam *)

Module Steam.

Definition STEAM_OPENID_ENDPOINT : string := "https://steamcommunity.com/openid/login".

(** [/^https:\/\/steamcommunity\.com\/openid\/id\/([0-9]{17})$/] *)
Definition parseSteamId (claimedId : string) : option string :=
  id ← dropPrefix "https://steamcommunity.com/openid/id/" claimedId;
  if Nat.eqb (String.length id) 17 && all_chars is_digit_char id then Some id else None.

Definition buildCheckAuthParams (openidParams : list (string * string)) : list (string * string) :=
  let body := foldl (fun body '(key, value) => if String.prefix "openid." key then jset key value body else body) [] openidParams in
  jset "openid.mode" "check_authentication" body.

Definition assertionIsValid (responseBody : string) : bool :=
  existsb (fun line => bool_decide (trim line = "is_valid:true")) (splitLines responseBody).

Definition REQUIRED_SIGNED_FIELDS : list string := ["claimed_id"; "identity"; "return_to"; "response_nonce"; "assoc_handle"; "op_endpoint"].

Definition signedFieldsCoverRequired (signed : option string) : bool :=
  match present signed with
  | None => false
  | Some signed =>
      let fields : gset string := list_to_set (trim <$> split_on ","%char signed) in
      forallb (fun f => bool_decide (f ∈ fields)) REQUIRED_SIGNED_FIELDS
  end.

Definition STEAM_STEP_AUTHORIZE : string := "steam-openid".
Definition OPENID_NS : string := "http://specs.openid.net/auth/2.0".
Definition OPENID_IDENTIFIER_SELECT : string := "http://specs.openid.net/auth/2.0/identifier_select".

Definition personaApiKey (e : OAuthEnv) : option string := envValue (oe_env e) "STEAM_WEB_API_KEY".

(** [z.object({ openid: z.record(z.string(), z.string()) })] *)
Definition steamCallback (input : Json) : option (list (string * string)) :=
  match input with
  | JObj o => match jget "openid" o with
              | Some (JObj params) => mapM (fun '(k, v) => match v with JStr s => Some (k, s) | _ => None end) params
              | _ => None
              end
  | _ => None
  end.

(** Every failure leaves the name undefined. *)
Definition fetchPersona (e : OAuthEnv) (steamId : string) : option string :=
  key ← personaApiKey e;
  match oe_fetch e (get (urlWith "https://api.steampowered.com/ISteamUser/GetPlayerSummaries/v0002/" [("key", key); ("steamids", steamId)]) []) with
  | Ok res =>
      if rs_ok res then
        match rs_json res with
        | Ok (JObj o) =>
            match jget "response" o with
            | Some (JObj r) =>
                match jget "players" r with
                | Some (JArr (JObj p :: _)) => present (stringAt "personaname" p)
                | _ => None
                end
            | _ => None
            end
        | _ => None
        end
      else None
  | Err _ => None
  end.

Definition steamStartWizard (e : OAuthEnv) (userId origin : string) : outcome WizardState :=
  let state := randomToken (oe_drawnState e) in
  let returnTo := origin +:+ "/badges/new/steam/callback?state=" +:+ encodeURIComponent state in
  logged "plugin.steam.authorize_initiated" []
    (redirectState "steam" userId STEAM_STEP_AUTHORIZE
       (urlWith STEAM_OPENID_ENDPOINT
          [("openid.ns", OPENID_NS); ("openid.mode", "checkid_setup"); ("openid.return_to", returnTo); ("openid.realm", origin);
           ("openid.identity", OPENID_IDENTIFIER_SELECT); ("openid.claimed_id", OPENID_IDENTIFIER_SELECT)])
       "We'll send you to Steam to sign in. After you approve, you'll bounce back here and Minister will issue the credential."
       state [("expectedReturnTo", JStr returnTo)]).

Definition steamHandleStep (e : OAuthEnv) (state : WizardState) (input : Json) (userId origin : string) : outcome HandleStepResult :=
  if negb (bool_decide (st_id (wz_currentStep state) = STEAM_STEP_AUTHORIZE)) then unknownStep state
  else finish (
    openid ← orFail (steamCallback input) "Missing Steam OpenID response";
    _ ← unless (negb (bool_decide (jget "openid.mode" openid = Some "id_res"))) "Steam did not return a positive assertion";
    let expectedReturnTo := dataString "expectedReturnTo" state in
    _ ← unless (bool_decide (expectedReturnTo = "") || negb (bool_decide (jget "openid.return_to" openid = Some expectedReturnTo)))
          "Steam assertion did not match this request — restart it";
    _ ← unless (negb (signedFieldsCoverRequired (jget "openid.signed" openid))) "Steam assertion did not sign the required fields — restart it";
    _ ← unless (negb (bool_decide (jget "openid.op_endpoint" openid = Some STEAM_OPENID_ENDPOINT)))
          "Steam assertion came from an unexpected OpenID endpoint — restart it";
    steamId ← orFail (parseSteamId (jget "openid.claimed_id" openid ?? "")) "Steam returned an unexpected identity";
    verifyResponse ← tryFetch (oe_fetch e)
      (post STEAM_OPENID_ENDPOINT [("Content-Type", "application/x-www-form-urlencoded")] (buildCheckAuthParams openid)) "Failed to reach Steam: ";
    _ ← unless (negb (rs_ok verifyResponse)) ("Steam verification returned " +:+ pretty (rs_status verifyResponse));
    _ ← unless (negb (assertionIsValid (rs_text verifyResponse))) "Steam rejected the assertion — it may be forged or stale";
    let handle := fetchPersona e steamId in
    Ok (logged "plugin.steam.verified" [("issuedTypes", JArr [JStr "oauth-account"])]
          (HComplete [badge "oauth-account" (oauthClaims "steam" handle) (Some steamId) false]))).

Definition steamPlugin : PluginModel :=
  {| pm_env := OAuthEnv; pm_id := "steam"; pm_badgeTypes := ["oauth-account"]; pm_isConfigured := fun _ => None;
     pm_start := steamStartWizard; pm_handle := steamHandleStep |}.

End Steam.

(** ** tlsn-attestation *)

Module Tlsn.

(** The protocol and the host of a URL, when it parses, the environment variables, the service, the
    drawn bytes, and the message of the schema library's first issue. *)
Record TlsnEnv := {
  te_env : environment;
  te_url : string → option (string * string);
  te_fetch : Fetch;
  te_drawn : Bytes;
  te_issue : Json → option string;
  te_shapeIssue : Json → string;
}.

Definition ALLOWLIST_ENV : string := "MINISTER_TLSN_VERIFIER_ALLOWED_HOSTS".
Definition EXPECTED_NOTARY_KEY_ENV : string := "MINISTER_TLSN_EXPECTED_NOTARY_KEY".

Definition verifierUrl (env : environment) : string := env !! "TLSN_VERIFIER_URL" ?? "http://tlsn-verifier:7048".

(** A variable that is unset or blank. *)
Definition blank (v : option string) : bool := match v with None => true | Some raw => bool_decide (trim raw = "") end.

Definition validateTlsnVerifierConfig (env : environment) (url : string → option (string * string)) : bool * list string :=
  let raw := env !! "TLSN_VERIFIER_URL" in
  let warnings :=
    if blank raw then
      ["[tlsn-verifier] TLSN_VERIFIER_URL is unset; falling back to the compose default. Set it explicitly in production."]
    else
      match url (raw ?? "") with
      | None => ["[tlsn-verifier] TLSN_VERIFIER_URL is not a valid URL: " +:+ (raw ?? "")]
      | Some (protocol, hostname) =>
          (if negb (bool_decide (protocol = "http:")) && negb (bool_decide (protocol = "https:"))
           then ["[tlsn-verifier] TLSN_VERIFIER_URL must use http(s); got " +:+ protocol] else [])
          ++ (let allowRaw := env !! ALLOWLIST_ENV in
              if blank allowRaw then
                ["[tlsn-verifier] SSRF hardening INCOMPLETE: " +:+ ALLOWLIST_ENV +:+ " not configured; the verifier URL host is not allowlist-enforced."]
              else
                let allowed := filter (fun h => h ≠ "") ((fun h => toLowerCase (trim h)) <$> split_on ","%char (allowRaw ?? "")) in
                let host := toLowerCase hostname in
                if bool_decide (host ∈ allowed) then []
                else ["[tlsn-verifier] TLSN_VERIFIER_URL host " +:+ QUOTE +:+ host +:+ QUOTE +:+ " is not in " +:+ ALLOWLIST_ENV +:+ " (" +:+
                      String.concat ", " allowed +:+ ")."])
      end in
  (bool_decide (warnings = []), warnings).

Definition normalizeNotaryKey (key : string) : string :=
  let lower := toLowerCase (trim key) in default lower (dropPrefix "0x" lower).

(** Bit by bit, over strings of equal length. *)
Definition constantTimeEqual (a b : string) : bool :=
  if negb (Nat.eqb (String.length a) (String.length b)) then false
  else foldl (fun r '(x, y) => Z.lor r (Z.lxor x y)) 0 (zip (utf8 a) (utf8 b)) =? 0.

(** [None] when the key is accepted, the message of the exception otherwise. *)
Definition assertNotaryKey (env : environment) (notaryKey : option string) : option string :=
  if blank notaryKey then Some "tlsn-verifier returned a transcript with no notary key (keyless/passthrough); refusing to issue a badge"
  else
    let pinRaw := env !! EXPECTED_NOTARY_KEY_ENV in
    if blank pinRaw then None
    else if negb (constantTimeEqual (normalizeNotaryKey (notaryKey ?? "")) (normalizeNotaryKey (pinRaw ?? "")))
    then Some ("tlsn-verifier notary key did not match the pinned " +:+ EXPECTED_NOTARY_KEY_ENV)
    else None.

Record VerifiedTranscript := { vt_sent : string; vt_received : string; vt_serverName : string }.

(** [s.replace(/\/$/, "")] *)
Fixpoint dropSlash (s : string) : string :=
  match s with
  | EmptyString => EmptyString
  | String c EmptyString => if decide (c = "/"%char) then EmptyString else s
  | String c s' => String c (dropSlash s')
  end.

(** The discriminated union of the verifier's answers. *)
Definition VerifyResponse (j : Json) : option (result string (VerifiedTranscript * option string)) :=
  match j with
  | JObj o =>
      match jget "ok" o with
      | Some (JBool true) =>
          match jget "transcript" o with
          | Some (JObj t) =>
              sent ← stringAt "sent" t; received ← stringAt "received" t; serverName ← stringAt "serverName" t;
              key ← match jget "notaryKey" o with None => Some None | Some (JStr k) => Some (Some k) | _ => None end;
              Some (Ok ({| vt_sent := sent; vt_received := received; vt_serverName := serverName |}, key))
          | _ => None
          end
      | Some (JBool false) => error ← stringAt "error" o; Some (Err error)
      | _ => None
      end
  | _ => None
  end.

(** The error is the message of the exception. *)
Definition verifyPresentation (e : TlsnEnv) (presentation expectedDomain : string) : result string VerifiedTranscript :=
  let base := dropSlash (verifierUrl (te_env e)) in
  match te_url e base with
  | None => Err ("tlsn-verifier URL is not a valid URL: " +:+ base)
  | Some (scheme, _) =>
      if negb (bool_decide (scheme = "http:")) && negb (bool_decide (scheme = "https:"))
      then Err ("tlsn-verifier URL must use http(s), got " +:+ scheme)
      else
        let url := base +:+ "/verify" in
        match te_fetch e (post url [("Content-Type", "application/json")] [("presentation", presentation); ("expectedDomain", expectedDomain)]) with
        | Err cause => Err ("Could not reach tlsn-verifier at " +:+ url +:+ ": " +:+ cause)
        | Ok response =>
            match rs_json response with
            | Err _ => Err ("tlsn-verifier returned non-JSON (HTTP " +:+ pretty (rs_status response) +:+ ")")
            | Ok j =>
                match VerifyResponse j with
                | None => Err ("tlsn-verifier response did not match the expected shape: " +:+ te_shapeIssue e j)
                | Some (Err error) => Err error
                | Some (Ok (transcript, notaryKey)) =>
                    match assertNotaryKey (te_env e) notaryKey with Some m => Err m | None => Ok transcript end
                end
            end
        end
  end.

Definition STEP_PROVE : string := "tlsn-prove".
Definition SubmitInput : Schema := object [required "presentation" (zstring [min1])].

Definition tlsnStartWizard (e : TlsnEnv) (userId origin : string) : outcome WizardState :=
  let token := randomToken (te_drawn e) in
  let url := "https://example.com/" in
  let needle := "Example Domain" in
  ([], Ok {| wz_pluginId := "tlsn-attestation"; wz_userId := userId;
     wz_currentStep := {| st_id := STEP_PROVE;
       st_payload := PExtensionAction {| xp_action := "tlsn-prove";
         xp_params := [("url", JStr url); ("submitUrl", JStr (origin +:+ "/api/tlsn/submit")); ("sessionToken", JStr token)];
         xp_description := Some ("Prove that " +:+ url +:+ " contains the text " +:+ QUOTE +:+ needle +:+ QUOTE +:+ ".");
         xp_expectedSubmissionToken := Some token |} |};
     wz_data := [("domain", JStr "example.com"); ("url", JStr url); ("needle", JStr needle)] |}).

(** [x | 0] *)
Definition int32 (x : Z) : Z := (x + 2147483648) mod 4294967296 - 2147483648.

Definition base36Digit (d : Z) : Ascii.ascii := default "0"%char (String.list_ascii_of_string "0123456789abcdefghijklmnopqrstuvwxyz" !! Z.to_nat d).

(** [n.toString(36)] of a number below 2^32. *)
Fixpoint base36 (fuel : nat) (n : Z) (acc : string) : string :=
  match fuel with
  | O => acc
  | S fuel' => let acc' := String (base36Digit (n mod 36)) acc in if n <? 36 then acc' else base36 fuel' (n / 36) acc'
  end.

Definition hashForAudit (value : string) : string :=
  base36 7 (Z.abs (foldl (fun h c => int32 (h * 31 + c)) 0 (utf8 value))) "".

Definition tlsnHandleStep (e : TlsnEnv) (state : WizardState) (input : Json) (userId origin : string) : outcome HandleStepResult :=
  if negb (bool_decide (st_id (wz_currentStep state) = STEP_PROVE)) then fails ("Unknown step: " +:+ st_id (wz_currentStep state))
  else finish (
    parsed ← orFail (safeParse SubmitInput input) (te_issue e input ?? "Invalid submission");
    let domain := dataString "domain" state in
    let needle := dataString "needle" state in
    _ ← unless (bool_decide (domain = "") || bool_decide (needle = "")) "Wizard state corrupted — restart the flow";
    transcript ← match verifyPresentation e (member "presentation" parsed) domain with Ok t => Ok t | Err m => early ("Verification failed: " +:+ m) end;
    _ ← unless (negb (includes needle (vt_received transcript)))
          ("Expected the response to contain " +:+ QUOTE +:+ needle +:+ QUOTE +:+ " but it didn't");
    Ok (logged "plugin.tlsn_attestation.verified" [("domain", JStr domain); ("needleHash", JStr (hashForAudit needle))]
          (HComplete [badge "tlsn-attestation" [("domain", JStr domain); ("claim", JStr needle)] None false]))).

Definition tlsnAttestationPlugin : PluginModel :=
  {| pm_env := TlsnEnv; pm_id := "tlsn-attestation"; pm_badgeTypes := ["tlsn-attestation"]; pm_isConfigured := fun _ => None;
     pm_start := tlsnStartWizard; pm_handle := tlsnHandleStep |}.

End Tlsn.

(** ** invite-code *)

Module InvitePlugin.

(** What redeeming a code for a user answers, and the message of the first issue with an input. *)
Record InviteEnv := { ie_redeem : string → string → RedeemResult; ie_issue : Json → option string }.

Definition ENTER_CODE : string := "enter-code".
Definition InviteFormInput : Schema := object [required "code" (zstring [min1])].

Definition inviteMakeFormStep (userId : string) : WizardState :=
  startAt "invite-code" userId
    (formStep ENTER_CODE "Redeem an invite code" "Enter the code you were given. Codes can be single- or multi-use and may expire."
       [textField "code" "Invite code" "ABCD-EFGH-JKLM" (Some "Case doesn't matter.")] "Redeem").

Definition inviteHandleStep (e : InviteEnv) (state : WizardState) (input : Json) (userId origin : string) : outcome HandleStepResult :=
  if negb (bool_decide (st_id (wz_currentStep state) = ENTER_CODE)) then unknownStep state
  else match safeParse InviteFormInput input with
       | None => fails (ie_issue e input ?? "Enter an invite code")
       | Some parsed =>
           match ie_redeem e (normalizeInviteCode (member "code" parsed)) userId with
           | RedeemFailed message => fails message
           | RedeemThrown => ([], Err (TMsg "redeemInviteCode"))
           | RedeemOk inviteCodeId label =>
               logged "plugin.invite_code.redeemed" [("inviteCodeId", JStr inviteCodeId); ("label", JStr label)]
                 (HComplete [badge "invite-code" [("label", JStr label)] None false])
           end
       end.

Definition inviteCodePlugin : PluginModel :=
  {| pm_env := InviteEnv; pm_id := "invite-code"; pm_badgeTypes := ["invite-code"]; pm_isConfigured := fun _ => None;
     pm_start := fun _ userId _ => ([], Ok (inviteMakeFormStep userId)); pm_handle := inviteHandleStep |}.

End InvitePlugin.
