(* ===== verification/PluginProofs.v ===== *)
(** * The registry of plugins (plugins/registry.ts) and what every plugin promises the wizard

    The badges of a completed step have a type of the plugin's manifest, claims that the type's
    schema accepts, and no anchor in their claims unless they declare it. The second part says, for
    each challenge plugin, what was proved when a badge is issued. *)

From S2P Require Import Prelude Threads Matching Policy Selection RateLimit Registry Claims Vc Pairwise Nullifier.
From S2P Require Import SybilScore Session SybilConfig OidcAuthorize Bitstring Interleave StatusList OidcFlow Disclosure Issuance Plugins Ledger.
From S2P Require Import SignInOtp PairProtocol InviteCodes Wizard PluginKit EmailPlugins ChallengePlugins KeyPlugin OAuthPlugins.

Open Scope Z_scope.
Open Scope minister_scope.

Import EmailDomain EmailExact DnsTxt HackerNews Wallet GitHub Reddit Google Instagram Steam Tlsn InvitePlugin.

(** ** The registry *)

Definition PLUGINS (isEmail : string → bool) (w : KeyWorld) : list PluginModel :=
  [emailDomainPlugin isEmail; emailExactPlugin isEmail; dnsTxtPlugin; githubPlugin; googlePlugin; redditPlugin; steamPlugin; hackernewsPlugin;
   instagramPlugin; youtubePlugin; walletPlugin; inviteCodePlugin; tlsnAttestationPlugin; publicKeyPlugin w].

Definition getPlugin (isEmail : string → bool) (w : KeyWorld) (id : string) : option PluginModel :=
  snd <$> list_find (fun m => pm_id m = id) (PLUGINS isEmail w).

Lemma plugin_ids_distinct isEmail w : NoDup (pm_id <$> PLUGINS isEmail w).
Proof. apply (bool_decide_unpack _). vm_compute. exact I. Qed.

(** ** What issuance asks of a badge *)

Definition issuable (isEmail : string → bool) (b : IssuedBadge) : Prop :=
  ∃ schema claims, schemaOf isEmail (bi_type (is_badge b)) = Some schema ∧ parse schema (bi_claims (is_badge b)) = Some claims.

(** The two badges whose claims the schemas may refuse: an address that is no longer an address once it is
    normalized, and an invitation without a label. *)
Definition exceptional (isEmail : string → bool) (b : IssuedBadge) : Prop :=
  (bi_type (is_badge b) = "email-exact" ∧ ∃ a, bi_claims (is_badge b) = [("email", JStr a)] ∧ isEmail a = false) ∨
  (bi_type (is_badge b) = "invite-code" ∧ bi_claims (is_badge b) = [("label", JStr "")]).

(** The anchor is declared, or absent from the claims, or it is also the public handle of the account. *)
Definition hidden (b : IssuedBadge) : Prop :=
  match is_sybilAnchor b with
  | None => True
  | Some anchor => is_revealsAnchor b = true ∨ anchorAppearsAsValue anchor (JObj (bi_claims (is_badge b))) = false ∨
                   jget "handle" (bi_claims (is_badge b)) = Some (JStr anchor)
  end.

Definition passes (isEmail : string → bool) (types : list string) (b : IssuedBadge) : Prop :=
  bi_type (is_badge b) ∈ types ∧ bi_attributes (is_badge b) = bi_claims (is_badge b) ∧
  (issuable isEmail b ∨ exceptional isEmail b) ∧ hidden b.

(** ** Parsed inputs *)

Lemma parseFields_required shape o o' f :
  NoDup (map f_key shape) → parseFields shape o = Some o' → f ∈ shape → f_optional f = false →
  ∃ v v', f_schema f v = Some v' ∧ jget (f_key f) o' = Some v'.
Proof.
  revert o'. induction shape as [|g shape IH]; intros o' Hnd H Hin Ho; [by apply not_elem_of_nil in Hin|].
  cbn [map] in Hnd. apply NoDup_cons in Hnd as [Hg Hnd]. cbn [parseFields] in H. apply elem_of_cons in Hin as [-> | Hin].
  - destruct (jget (f_key g) o) as [v|]; [|by rewrite Ho in H]. destruct (f_schema g v) as [v'|] eqn:Ev; [|done]. cbn [mbind option_bind] in H.
    destruct (parseFields shape o) as [rest|]; [|done]. injection H as <-. exists v, v'. split; [done|]. cbn. by rewrite decide_True.
  - assert (f_key f ≠ f_key g) as Hne. { intros E. apply Hg. rewrite <-E. apply list_elem_of_In, in_map, list_elem_of_In, Hin. }
    destruct (jget (f_key g) o) as [v|].
    + destruct (f_schema g v) as [v'|]; [|done]. cbn [mbind option_bind] in H. destruct (parseFields shape o) as [rest|] eqn:E; [|done].
      injection H as <-. destruct (IH rest Hnd eq_refl Hin Ho) as (x & x' & Hx & Hj). exists x, x'. split; [done|]. cbn. by rewrite decide_False.
    + destruct (f_optional g); [|done]. by apply (IH o').
Qed.

Lemma text_min1 v v' : zstring [min1] v = Some v' → ∃ s, v' = JStr s ∧ s ≠ "".
Proof.
  destruct v; try done. cbn. unfold runChecks, min1. cbn [foldl mbind option_bind]. case_bool_decide; [done|]. intros [= <-]. eauto.
Qed.

(** A required text of a parsed object is not empty. *)
Lemma member_nonempty shape key input o :
  NoDup (map f_key shape) → required key (zstring [min1]) ∈ shape → safeParse (object shape) input = Some o → member key o ≠ "".
Proof.
  intros Hnd Hin H. destruct input; try done. cbn [safeParse] in H. apply parse_shape in H.
  destruct (parseFields_required _ _ _ _ Hnd H Hin eq_refl) as (v & v' & Hv & Hj). cbn [f_schema f_key required] in *.
  apply text_min1 in Hv as (s & -> & Hs). unfold member. by rewrite Hj.
Qed.

(** ** Shapes of badges *)

Lemma zstring_text s : s ≠ "" → zstring [min1] (JStr s) = Some (JStr s).
Proof. intros Hs. cbn. unfold runChecks, min1. cbn [foldl mbind option_bind]. by rewrite bool_decide_eq_false_2. Qed.

Lemma zenum_in l s : s ∈ l → zenum l (JStr s) = Some (JStr s).
Proof. intros Hs. cbn. by rewrite decide_True. Qed.

Lemma zliterals_in l n : n ∈ l → zliterals l (JNum n) = Some (JNum n).
Proof. intros Hs. cbn. by rewrite decide_True. Qed.

(** Runs an object schema on an object with literal keys. *)
Ltac parse_object :=
  unfold parse, text, object, strict, required, optional, badge;
  cbn [is_badge bi_claims bi_type sc_strict sc_shape andb negb map f_key f_optional f_schema forallb fmap list_fmap fst];
  repeat (rewrite bool_decide_eq_true_2 by (by apply (bool_decide_unpack _)); cbn [andb negb]);
  repeat (cbn [parseFields f_key f_optional f_schema jget mbind option_bind];
          first [rewrite decide_True by done | rewrite decide_False by done
                | rewrite zstring_text by done | rewrite zenum_in by done | rewrite zliterals_in by done]);
  cbn [mbind option_bind].

Lemma highestBucket_in value buckets b : highestBucket value buckets = Some b → b ∈ buckets ∧ b <= value.
Proof.
  unfold highestBucket. assert (∀ acc, foldl (fun best b => if b <=? value then Some b else best) acc buckets = Some b →
    acc = Some b ∨ (b ∈ buckets ∧ b <= value)) as H.
  { induction buckets as [|x l IH]; intros acc Hf; [by left|]. cbn [foldl] in Hf. destruct (IH _ Hf) as [E|[Hin ?]].
    - destruct (Z.leb_spec x value); [injection E as ->; right; split; [left|done]|by left].
    - right. split; [by right|done]. }
  intros Hf. by destruct (H None Hf).
Qed.

Lemma appears_nil anchor : anchorAppearsAsValue anchor (JObj []) = false.
Proof. done. Qed.

Lemma appears_provider anchor p o : p ∈ OAUTH_PROVIDERS →
  anchorAppearsAsValue anchor (JObj (("provider", JStr p) :: o)) = anchorAppearsAsValue anchor (JObj o).
Proof. intros Hp. cbn. rewrite (bool_decide_eq_true_2 _ Hp), (bool_decide_eq_true_2 ("provider" = "provider") eq_refl). done. Qed.

Lemma appears_other anchor key v o : key ≠ "provider" →
  anchorAppearsAsValue anchor (JObj ((key, v) :: o)) = anchorAppearsAsValue anchor v || anchorAppearsAsValue anchor (JObj o).
Proof. intros Hk. cbn. by rewrite (bool_decide_eq_false_2 (key = "provider") Hk). Qed.

Lemma passes_oauth isEmail types provider handle anchor :
  "oauth-account" ∈ types → provider ∈ OAUTH_PROVIDERS → passes isEmail types (badge "oauth-account" (oauthClaims provider handle) (Some anchor) false).
Proof.
  intros Ht Hp. split; [done|]. split; [done|]. split.
  - left. exists OAuthAccountClaims. unfold oauthClaims. destruct (present handle) as [h|] eqn:E.
    + assert (h ≠ "") as Hh by (destruct handle as [[|]|]; simplify_eq/=; done). exists [("provider", JStr provider); ("handle", JStr h)].
      split; [done|]. unfold OAuthAccountClaims. by parse_object.
    + exists [("provider", JStr provider)]. split; [done|]. unfold OAuthAccountClaims. by parse_object.
  - right. unfold oauthClaims. cbn [is_badge badge bi_claims]. destruct (present handle) as [h|].
    + destruct (decide (h = anchor)) as [-> | Hne]; [by right|]. left.
      rewrite appears_provider, appears_other, appears_nil by done. cbn. by rewrite bool_decide_eq_false_2.
    + left. by rewrite appears_provider.
Qed.

(** A coarse fact of an account: the claims are a provider and a number. *)
Lemma passes_tier isEmail types type key values provider n anchor :
  (type, key, values) ∈ [("account-age", "olderThanMonths", ACCOUNT_AGE_MONTHS); ("social-following", "followersAtLeast", FOLLOWERS_BUCKETS)] →
  type ∈ types → provider ∈ OAUTH_PROVIDERS → n ∈ values →
  passes isEmail types (badge type [("provider", JStr provider); (key, JNum n)] (Some anchor) false).
Proof.
  intros Hk Ht Hp Hn. apply elem_of_cons in Hk as [Hk | Hk%list_elem_of_singleton]; injection Hk as -> -> ->; (split; [done|]); (split; [done|]); split.
  - left. exists AccountAgeClaims, [("provider", JStr provider); ("olderThanMonths", JNum n)]. split; [done|]. unfold AccountAgeClaims. by parse_object.
  - right. left. cbn [is_badge badge bi_claims]. by rewrite appears_provider.
  - left. exists SocialFollowingClaims, [("provider", JStr provider); ("followersAtLeast", JNum n)]. split; [done|]. unfold SocialFollowingClaims. by parse_object.
  - right. left. cbn [is_badge badge bi_claims]. by rewrite appears_provider.
Qed.

(** ** Domains *)

Lemma concat_cons2 sep a b l : String.concat sep (a :: b :: l) = a +:+ sep +:+ String.concat sep (b :: l).
Proof. done. Qed.

Lemma concat_split_on d s : String.concat (String d "") (split_on d s) = s.
Proof.
  induction s as [|c s IH]; [done|]. cbn [split_on]. destruct (split_on_cons d s) as (p & ps & E). rewrite E in IH |- *. case_decide as Hcd.
  - rewrite Hcd, concat_cons2. change ("" +:+ String d "" +:+ ?x) with (String d x). by rewrite IH.
  - destruct ps as [|q ps]; [cbn in *; by rewrite IH|]. rewrite concat_cons2 in IH |- *.
    change (String c p +:+ ?x) with (String c (p +:+ x)). by rewrite IH.
Qed.

Lemma concat_snoc sep l x : l ≠ [] → String.concat sep (l ++ [x]) = String.concat sep l +:+ sep +:+ x.
Proof.
  induction l as [|a [|b l] IH]; intros H; [done|done|]. change ((a :: b :: l) ++ [x]) with (a :: b :: (l ++ [x])). rewrite !concat_cons2.
  change (b :: l ++ [x]) with ((b :: l) ++ [x]). rewrite IH by done. by rewrite !string_app_assoc.
Qed.

Lemma all_chars_concat f sep l : all_chars f sep = true → forallb (all_chars f) l = true → all_chars f (String.concat sep l) = true.
Proof.
  intros Hs. induction l as [|a [|b l] IH]; intros H; [done|by apply andb_true_iff in H as [? _]|].
  rewrite concat_cons2. cbn [forallb] in H. apply andb_true_iff in H as [Ha H]. unfold all_chars in *. rewrite !list_ascii_app, !forallb_app, Ha, Hs. by apply IH.
Qed.

Lemma domain_char_lower c : is_domain_char c = true → lower_char c = c ∧ is_space c = false ∧ is_url_char c = false.
Proof. destruct c as [[] [] [] [] [] [] [] []]; vm_compute; intros H; try discriminate H; done. Qed.

Lemma lower_domain s : all_chars is_domain_char s = true → toLowerCase s = s.
Proof.
  unfold all_chars. induction s as [|c s IH]; [done|]. cbn [String.list_ascii_of_string forallb]. intros [Hc Hs]%andb_true_iff. cbn [toLowerCase].
  destruct (domain_char_lower c Hc) as [-> _]. by rewrite IH.
Qed.

Lemma trim_end_domain s : all_chars is_domain_char s = true → trim_end s = s.
Proof.
  unfold all_chars. induction s as [|c s IH]; [done|]. cbn [String.list_ascii_of_string forallb]. intros [Hc Hs]%andb_true_iff. cbn [trim_end].
  destruct (domain_char_lower c Hc) as (_ & Hsp & _). rewrite IH by done. destruct s; [by rewrite Hsp|done].
Qed.

Lemma trim_domain s : all_chars is_domain_char s = true → trim s = s.
Proof.
  intros H. unfold trim. destruct s as [|c s]; [done|]. unfold all_chars in H. cbn [String.list_ascii_of_string forallb] in H. apply andb_true_iff in H as H'.
  destruct H' as [Hc _]. cbn [trim_start]. destruct (domain_char_lower c Hc) as (_ & -> & _). by apply trim_end_domain.
Qed.

Lemma LABEL_RE_chars label : LABEL_RE label = true → all_chars is_domain_char label = true ∧ label ≠ "".
Proof.
  unfold LABEL_RE, all_chars. intros H. split; [|by intros ->]. destruct (head _); [|done]. destruct (last _); [|done].
  apply andb_true_iff in H as [H _]. apply andb_true_iff in H as [_ H]. rewrite forallb_forall in *. intros c Hc. specialize (H c Hc).
  unfold is_label_char, is_label_end in H. unfold is_domain_char. destruct (is_lower_letter c), (is_digit_char c), (bool_decide (c = "-"%char)); try done. by rewrite orb_true_r.
Qed.

(** The letters at the end of a name. *)
Lemma letters_run_app l rest : forallb is_lower_letter l = true → match rest with c :: _ => is_lower_letter c = false | [] => True end →
  letters_run (l ++ rest) = (length l, rest).
Proof.
  induction l as [|c l IH]; intros Hl Hr; cbn [app letters_run].
  - destruct rest as [|c rest]; [done|]. cbn. by rewrite Hr.
  - cbn [forallb] in Hl. apply andb_true_iff in Hl as [Hc Hl]. rewrite Hc, IH by done. done.
Qed.

Lemma forallb_reverse {A} (f : A → bool) l : forallb f (reverse l) = forallb f l.
Proof. apply eq_bool_prop_intro. rewrite !Is_true_true, !forallb_forall. split; intros H x Hx; apply H; by apply list_elem_of_In, elem_of_reverse, list_elem_of_In. Qed.

Lemma DOMAIN_RE_intro pre tld : pre ≠ "" → all_chars is_domain_char pre = true → TLD_RE tld = true → DOMAIN_RE (pre +:+ "." +:+ tld) = true.
Proof.
  intros Hne Hpre Ht. unfold TLD_RE in Ht. apply andb_true_iff in Ht as [Hlen Hl]. unfold DOMAIN_RE. rewrite !list_ascii_app, !reverse_app.
  change (reverse (String.list_ascii_of_string ".")) with ["."%char]. rewrite <-(assoc_L (++)), letters_run_app; [|by rewrite forallb_reverse|done].
  cbn [app]. rewrite length_reverse, length_list_ascii, Hlen.
  destruct (reverse (String.list_ascii_of_string pre)) as [|c host] eqn:E.
  { apply (f_equal length) in E. rewrite length_reverse, length_list_ascii in E. by destruct pre. }
  rewrite bool_decide_eq_true_2 by done. cbn [andb]. rewrite <-E, forallb_reverse. exact Hpre.
Qed.

Lemma dropDot_label pre label : label ≠ "" → last (String.list_ascii_of_string label) ≠ Some "."%char → dropDot (pre +:+ label) = pre +:+ label.
Proof.
  intros Hne Hl. assert (∀ s, s ≠ "" → last (String.list_ascii_of_string s) ≠ Some "."%char → dropDot s = s) as H.
  { clear. intros s. induction s as [|c s IH]; [done|]. intros _ Hl. destruct s as [|c' s].
    - cbn in *. rewrite decide_False; [done|]. intros ->. by apply Hl.
    - change (dropDot (String c (String c' s))) with (String c (dropDot (String c' s))). by rewrite IH. }
  apply H; [by destruct pre|]. rewrite list_ascii_app, last_app.
  destruct (last (String.list_ascii_of_string label)) eqn:E; [done|]. apply last_None in E. by destruct label.
Qed.

(** What the normal form of a domain is: the schema of the badge accepts it, and normalizing it again changes nothing. *)
Lemma normalizeDomain_spec input host : normalizeDomain input = Some host →
  all_chars is_domain_char host = true ∧ host ≠ "" ∧ DOMAIN_RE host = true ∧ normalizeDomain host = Some host.
Proof.
  unfold normalizeDomain. destruct (Nat.eqb _ 0); [done|]. destruct (negb (all_chars _ _)); [done|].
  set (h := dropDot (toLowerCase (trim input))). clearbody h. destruct (Nat.eqb (String.length h) 0 || Nat.ltb 253 (String.length h)) eqn:El; [done|].
  destruct (Nat.ltb (length (split_on "."%char h)) 2) eqn:En; [done|]. destruct (forallb LABEL_RE (split_on "."%char h)) eqn:Ef; [|done]. cbn [negb].
  destruct (last (split_on "."%char h)) as [tld|] eqn:Et; [|done]. destruct (TLD_RE tld) eqn:Er; [|done]. intros [= <-].
  apply last_Some in Et as Hsplit. destruct Hsplit as [l Hl]. pose proof (concat_split_on "."%char h) as Hj.
  assert (l ≠ []) as Hne by (intros ->; by rewrite Hl in En).
  assert (forallb (all_chars is_domain_char) (split_on "."%char h) = true) as Hchars.
  { rewrite forallb_forall in *. intros x Hx. by apply LABEL_RE_chars, Ef. }
  assert (all_chars is_domain_char h = true) as Hall by (rewrite <-Hj; by apply all_chars_concat).
  rewrite Hl, concat_snoc in Hj by done. set (pre := String.concat _ l) in Hj.
  assert (pre ≠ "" ∧ all_chars is_domain_char pre = true) as [Hpre Hprec].
  { rewrite Hl, forallb_app in Hchars, Ef. apply andb_true_iff in Hchars as [Hc _]. apply andb_true_iff in Ef as [He _]. split; [|by apply all_chars_concat].
    subst pre. destruct l as [|a l]; [done|]. cbn [forallb] in He. apply andb_true_iff in He as [Ha _]. apply LABEL_RE_chars in Ha as [_ Ha].
    destruct l; [done|]. rewrite concat_cons2. by destruct a. }
  assert (h ≠ "") as Hh by (rewrite <-Hj; by destruct pre).
  assert (toLowerCase (trim h) = h) as Hn by (by rewrite trim_domain, lower_domain).
  split_and!; [done|done|rewrite <-Hj; by apply DOMAIN_RE_intro|]. rewrite Hn.
  assert (Nat.eqb (String.length h) 0 = false) as -> by (by destruct h). assert (all_chars (fun c => negb (is_url_char c)) h = true) as ->.
  { unfold all_chars in *. rewrite forallb_forall in *. intros c Hc. by destruct (domain_char_lower c (Hall c Hc)) as (_ & _ & ->). }
  cbn [negb]. assert (dropDot h = h) as ->.
  { rewrite <-Hj, string_app_assoc. apply dropDot_label; [by intros ->|]. unfold TLD_RE in Er. apply andb_true_iff in Er as [_ Er].
    intros E%last_Some_elem_of. unfold all_chars in Er. rewrite forallb_forall in Er. by apply list_elem_of_In, Er in E. }
  by rewrite El, En, Ef, Et, Er.
Qed.

(** ** Each plugin *)

Lemma zstring_domain d : d ≠ "" → toLowerCase d = d → DOMAIN_RE d = true → zstring [min1; lowered; matching DOMAIN_RE] (JStr d) = Some (JStr d).
Proof.
  intros Hd Hl Hr. cbn. unfold runChecks, min1, lowered, matching. cbn [foldl mbind option_bind]. rewrite bool_decide_eq_false_2 by done.
  cbn [mbind option_bind]. by rewrite Hl, Hr.
Qed.

(** What the schema library promises of its e-mail test: an at sign, and after the last one a domain. *)
Class EmailTest (isEmail : string → bool) := {
  email_shape : ∀ e, isEmail e = true → ∃ domain, deriveDomain (toLowerCase e) = Some domain ∧ DOMAIN_RE domain = true;
}.

(** All badges of a list pass. *)
Abbreviation all_pass isEmail types badges := (badges ≠ [] ∧ ∀ b, b ∈ badges → passes isEmail types b).

Lemma pass_one isEmail types b : passes isEmail types b → all_pass isEmail types [b].
Proof. intros H. split; [done|]. by intros ? ->%list_elem_of_singleton. Qed.

Lemma deriveDomain_free email domain : deriveDomain email = Some domain → split_last "@"%char domain = None ∧ domain ≠ "" ∧ toLowerCase domain = domain.
Proof.
  unfold deriveDomain. destruct (split_last "@"%char email) as [[l d]|] eqn:E; [|done]. apply split_last_Some in E as [_ E].
  intros H. assert (domain = toLowerCase d ∧ d ≠ "") as [-> Hd] by (by destruct d; simplify_eq). split_and!; [|by destruct d|apply toLowerCase_idemp].
  clear H Hd. rewrite split_last_None in *. unfold all_chars in *. induction d as [|c d IH]; [done|].
  cbn [toLowerCase String.list_ascii_of_string forallb] in *. apply andb_true_iff in E as [Hc E]. rewrite IH by done. rewrite andb_true_r.
  bool_hyps. rewrite bool_decide_eq_false_2; [done|]. destruct c as [[] [] [] [] [] [] [] []]; vm_compute; congruence.
Qed.

Section EmailPasses.
Context (isEmail : string → bool) `{!EmailTest isEmail}.

Lemma matching_email input o : safeParse (FormInput isEmail) input = Some o → isEmail (member "email" o) = true.
Proof.
  intros H. destruct input; try done. cbn [safeParse] in H. apply parse_shape in H.
  destruct (parseFields_required (sc_shape (FormInput isEmail)) _ _ (required "email" (zstring [matching isEmail])) ltac:(apply (bool_decide_unpack _); done) H ltac:(left) eq_refl)
    as (v & v' & Hv & Hj).
  unfold member. cbn [f_key required] in Hj. rewrite Hj. cbn in Hv. destruct v; try done. cbn in Hv. unfold runChecks, matching in Hv. cbn in Hv.
  destruct (isEmail s) eqn:E; [|done]. by injection Hv as <-.
Qed.

Lemma email_domain_states state : reachable (emailDomainPlugin isEmail) state →
  st_id (wz_currentStep state) = EmailPlugins.STEP_FORM ∨
  DOMAIN_RE (dataString "domain" state) = true ∧ toLowerCase (dataString "domain" state) = dataString "domain" state ∧ split_last "@"%char (dataString "domain" state) = None.
Proof.
  revert state. apply reachable_ind'.
  - intros e userId origin log state [= _ <-]. by left.
  - intros e state input userId origin log state' IH H. right. cbn [pm_handle emailDomainPlugin] in H. unfold emailDomainHandleStep in H.
    destruct (bool_decide _).
    + destruct (safeParse _ input) as [parsed|] eqn:Ep; [|done]. apply matching_email in Ep. destruct (email_shape _ Ep) as (d & Hd & Hr).
      rewrite Hd in H. injection H as _ <-. apply deriveDomain_free in Hd as (Hf & _ & Hl). split_and!; [exact Hr|exact Hl|exact Hf].
    + destruct (bool_decide _); [|done]. destruct (safeParse _ input); [|done]. destruct (_ || _); [done|]. by destruct (normalizeEmailAnchor _).
Qed.

Lemma email_domain_passes state e input userId origin log badges : reachable (emailDomainPlugin isEmail) state →
  emailDomainHandleStep isEmail e state input userId origin = (log, Ok (HComplete badges)) → all_pass isEmail ["email-domain"] badges.
Proof.
  intros Hr%email_domain_states H. unfold emailDomainHandleStep in H. destruct (bool_decide (st_id (wz_currentStep state) = EmailPlugins.STEP_FORM)) eqn:Ef.
  { destruct (safeParse _ _); [|done]. by destruct (deriveDomain _). }
  bool_hyps. destruct Hr as [?|(Hre & Hl & Hfree)]; [done|]. destruct (bool_decide _); [|done]. destruct (safeParse _ input); [|done].
  destruct (bool_decide (dataString "domain" state = "")) eqn:Ed; [done|]. bool_hyps. destruct (bool_decide (dataString "email" state = "")); [done|]. cbn [orb] in H.
  destruct (normalizeEmailAnchor _) as [anchor|] eqn:En; [|done]. injection H as _ <-. apply pass_one. set (d := dataString "domain" state) in *.
  split; [by left|]. split; [done|]. split.
  - left. exists EmailDomainClaims, [("domain", JStr d)]. split; [done|]. unfold EmailDomainClaims, parse. cbn [badge is_badge bi_claims object sc_strict sc_shape andb parseFields].
    cbn [f_key f_schema required jget]. rewrite decide_True by done. by rewrite zstring_domain.
  - right. left. unfold badge. cbn [is_badge bi_claims]. rewrite appears_other, appears_nil by done. cbn. rewrite bool_decide_eq_false_2; [done|].
    intros E. apply normalize_fold in En as (p & _ & ->). rewrite E in Hfree. apply split_last_None in Hfree.
    unfold all_chars in Hfree. rewrite list_ascii_app, forallb_app in Hfree. apply andb_true_iff in Hfree as [_ Hfree]. done.
Qed.

Lemma email_exact_passes e state input userId origin log badges :
  emailExactHandleStep isEmail e state input userId origin = (log, Ok (HComplete badges)) → all_pass isEmail ["email-exact"] badges.
Proof.
  intros H. unfold emailExactHandleStep in H. destruct (bool_decide _).
  { destruct (safeParse _ _); [|done]. by destruct (deriveDomain _). }
  destruct (bool_decide _); [|done]. destruct (safeParse _ input); [|done]. destruct (bool_decide _); [done|].
  destruct (normalizeEmailAnchor _) as [a|]; [|done]. injection H as _ <-. apply pass_one. split; [by left|]. split; [done|]. split; [|by left].
  destruct (isEmail a) eqn:E; [|right; left; split; [done|]; by exists a].
  left. exists (EmailExactClaims isEmail), [("email", JStr (toLowerCase a))]. split; [done|]. unfold EmailExactClaims, parse.
  cbn [badge is_badge bi_claims object sc_strict sc_shape andb parseFields f_key f_schema required jget]. rewrite decide_True by done.
  assert (zstring [matching isEmail; lowered] (JStr a) = Some (JStr (toLowerCase a))) as ->; [|done].
  unfold zstring, runChecks, matching, lowered. cbn [foldl mbind option_bind]. by rewrite E.
Qed.

End EmailPasses.

Lemma dns_passes isEmail e state input userId origin log badges :
  dnsHandleStep e state input userId origin = (log, Ok (HComplete badges)) → all_pass isEmail ["domain-control"] badges.
Proof.
  intros H. unfold dnsHandleStep in H. destruct (bool_decide _).
  { destruct (safeParse _ _); [|done]. by destruct (normalizeDomain _). }
  destruct (bool_decide _); [|done]. destruct (_ || _); [done|]. destruct (normalizeDomain _) as [host|] eqn:En; [|done].
  destruct (forallb _ _). 2: { destruct (head _); [done|]. by destruct (existsb _ _). }
  injection H as _ <-. apply pass_one. apply normalizeDomain_spec in En as (Hc & Hne & Hre & _). split; [by left|]. split; [done|]. split; [|by left].
  left. exists DomainControlClaims, [("domain", JStr host)]. split; [done|]. unfold DomainControlClaims, parse, buildDomainControlBadge.
  cbn [badge is_badge bi_claims object sc_strict sc_shape andb parseFields f_key f_schema required jget]. rewrite decide_True by done.
  by rewrite zstring_domain by (done || by apply lower_domain).
Qed.

Lemma passes_age isEmail types tz provider created anchor now b : "account-age" ∈ types → provider ∈ OAUTH_PROVIDERS →
  accountAgeBadge tz provider created anchor now = Some b → passes isEmail types b.
Proof.
  intros Ht Hp H. unfold accountAgeBadge in H. destruct created as [c|]; [|done]. cbn [mbind option_bind] in H.
  destruct (highestBucket _ _) as [n|] eqn:E; [|done]. injection H as <-. apply highestBucket_in in E as [E _].
  apply (passes_tier isEmail types "account-age" "olderThanMonths" ACCOUNT_AGE_MONTHS); try done. by left.
Qed.

(** A named account, with what follows it. *)
Lemma pass_account isEmail types provider handle anchor rest : handle ≠ "" → "oauth-account" ∈ types → provider ∈ OAUTH_PROVIDERS →
  (∀ b, b ∈ rest → passes isEmail types b) →
  all_pass isEmail types (badge "oauth-account" [("provider", JStr provider); ("handle", JStr handle)] (Some anchor) false :: rest).
Proof.
  intros Hh Ht Hp Hr. split; [done|]. intros b [-> | Hb]%elem_of_cons; [|by apply Hr].
  pose proof (passes_oauth isEmail types provider (Some handle) anchor Ht Hp) as H. unfold oauthClaims in H.
  by destruct handle.
Qed.

Lemma hn_passes isEmail e state input userId origin log badges :
  hnHandleStep e state input userId origin = (log, Ok (HComplete badges)) → all_pass isEmail ["oauth-account"; "account-age"] badges.
Proof.
  intros H. unfold hnHandleStep in H. destruct (bool_decide _).
  { destruct (safeParse _ _); [|done]. by destruct (negb _). }
  destruct (bool_decide _); [|done]. destruct (_ || _); [done|]. destruct (he_fetch e _) as [res|]; [|done]. destruct (negb (rs_ok res)); [done|].
  destruct (rs_json res) as [raw|]; [|done].
  assert (∃ hn, safeParse HnUser raw = Some hn ∧ badges = buildHackerNewsBadges (he_tz e) {| hf_id := member "id" hn; hf_created := numberOf "created" hn |} (he_now e)) as (hn & Hp & ->).
  { destruct raw; try done; (destruct (safeParse HnUser _) as [hn|] eqn:Ep; [|done]); (destruct (negb (aboutContainsToken _ _)); [done|]);
      injection H as _ <-; by exists hn. }
  clear H. apply (member_nonempty _ "id") in Hp as Hne; [|apply (bool_decide_unpack _); done|left].
  unfold buildHackerNewsBadges. cbn [hf_id hf_created]. split; [done|]. intros b [Hb%list_elem_of_singleton | Hb]%elem_of_app.
  - subst b. split; [by left|]. split; [done|]. split; [|by left]. left.
    exists OAuthAccountClaims, [("provider", JStr HN_PROVIDER); ("handle", JStr (member "id" hn))]. split; [done|]. unfold OAuthAccountClaims.
    assert (HN_PROVIDER ∈ OAUTH_PROVIDERS) by (apply (bool_decide_unpack _); done). by parse_object.
  - destruct (numberOf "created" hn) as [c|]; [|by apply elem_of_nil in Hb]. cbn [mbind option_bind] in Hb.
    destruct (accountAgeBadge _ _ _ _ _) as [b'|] eqn:Ea; [|by apply elem_of_nil in Hb]. apply list_elem_of_singleton in Hb as ->.
    eapply passes_age; [| |exact Ea]; apply (bool_decide_unpack _); done.
Qed.

(** *** Handlers with early returns *)

(** No early return completes a run. *)
Definition quiet {A} (m : handler A) : Prop := ∀ o log badges, m = Err o → o ≠ (log, Ok (HComplete badges)).

Lemma quiet_answer {A} (a : A) : quiet (Ok a : handler A).
Proof. by intros o log badges [=]. Qed.
Lemma quiet_early {A} message : quiet (early message : handler A).
Proof. by intros o log badges [= <-]. Qed.
Lemma quiet_throws {A} message : quiet (throws message : handler A).
Proof. by intros o log badges [= <-]. Qed.
Lemma quiet_orFail {A} (o : option A) message : quiet (orFail o message).
Proof. destruct o; [apply quiet_answer|apply quiet_early]. Qed.
Lemma quiet_unless b message : quiet (unless b message).
Proof. destruct b; [apply quiet_early|apply quiet_answer]. Qed.
Lemma quiet_tryFetch fetch req prefix : quiet (tryFetch fetch req prefix).
Proof. unfold tryFetch. destruct (fetch req); [apply quiet_answer|apply quiet_early]. Qed.
Lemma quiet_rawFetch fetch req : quiet (rawFetch fetch req).
Proof. unfold rawFetch. destruct (fetch req); [apply quiet_answer|apply quiet_throws]. Qed.
Lemma quiet_json res : quiet (json res).
Proof. unfold json. destruct (rs_json res); [apply quiet_answer|apply quiet_throws]. Qed.
Lemma quiet_prop j key : quiet (prop j key).
Proof. destruct j; apply quiet_answer || apply quiet_throws. Qed.
Lemma quiet_bind {A B} (m : handler A) (k : A → handler B) : quiet m → (∀ a, quiet (k a)) → quiet (m ≫= k).
Proof. intros Hm Hk. destruct m as [a|o]; [exact (Hk a)|]. intros o' log badges [= <-]. by eapply Hm. Qed.

Create HintDb quiet.
#[export] Hint Resolve quiet_answer quiet_early quiet_throws quiet_orFail quiet_unless quiet_tryFetch quiet_rawFetch quiet_json quiet_prop : quiet.

Ltac quietly :=
  repeat first [ progress auto with quiet
               | apply quiet_bind; [|intros]
               | match goal with |- quiet (match ?x with _ => _ end) => destruct x end
               | match goal with |- quiet (if ?x then _ else _) => destruct x end ].

Lemma quiet_accessToken site describe j : quiet (accessToken site describe j).
Proof. unfold accessToken. quietly. Qed.
#[export] Hint Resolve quiet_accessToken : quiet.

Lemma quiet_googleToken e creds code redirectUri codeVerifier : quiet (googleToken e creds code redirectUri codeVerifier).
Proof. unfold googleToken. quietly. Qed.
#[export] Hint Resolve quiet_googleToken : quiet.

Lemma quiet_findLinked fetch pages : quiet (findLinkedInstagramAccount fetch pages).
Proof. induction pages as [|[id token] pages IH]; cbn [findLinkedInstagramAccount]; quietly. Qed.
#[export] Hint Resolve quiet_findLinked : quiet.

Lemma finish_bind {A} (m : handler A) k log badges : quiet m → finish (m ≫= k) = (log, Ok (HComplete badges)) →
  ∃ a, m = Ok a ∧ finish (k a) = (log, Ok (HComplete badges)).
Proof. intros Hq H. destruct m as [a|o]; [by exists a|]. cbn in H. by eapply Hq in H. Qed.

(** The next step of a handler that completes. *)
Ltac proceed H a E := apply finish_bind in H as (a & E & H); [|quietly].
Ltac skip H := let a := fresh in let E := fresh in proceed H a E; clear E.

Lemma orFail_Ok {A} (o : option A) message a : orFail o message = Ok a → o = Some a.
Proof. destruct o; [by intros [= ->]|done]. Qed.
Lemma unless_Ok b message u : unless b message = Ok u → b = false.
Proof. by destruct b. Qed.

Lemma github_passes isEmail e state input userId origin log badges :
  githubHandleStep e state input userId origin = (log, Ok (HComplete badges)) →
  all_pass isEmail ["oauth-account"; "account-age"; "social-following"] badges.
Proof.
  intros H. unfold githubHandleStep in H. destruct (negb _); [done|]. proceed H parsed Ep. proceed H creds Ec. destruct creds as [clientId clientSecret].
  do 7 skip H. proceed H userJson Ej. proceed H ghUser Eu. apply orFail_Ok in Eu. injection H as _ <-.
  apply (member_nonempty _ "login") in Eu as Hne; [|apply (bool_decide_unpack _); done|right; left].
  unfold buildGithubBadges. cbn [gf_id gf_login gf_createdAt gf_followers app]. apply pass_account; try done; try (apply (bool_decide_unpack _); done).
  intros b [Hb|Hb]%elem_of_app.
  - destruct (present _) as [text|]; [|by apply elem_of_nil in Hb]. cbn [mbind option_bind] in Hb.
    destruct (dateParse text) as [created|]; [|by apply elem_of_nil in Hb]. cbn [mbind option_bind] in Hb.
    destruct (githubHighestBucket _ _) as [n|] eqn:E; [|by apply elem_of_nil in Hb]. apply list_elem_of_singleton in Hb as ->. apply highestBucket_in in E as [E _].
    apply (passes_tier isEmail _ "account-age" "olderThanMonths" ACCOUNT_AGE_MONTHS); try done; [by left|apply (bool_decide_unpack _); done..].
  - destruct (numberAt "followers" ghUser) as [f|]; [|by apply elem_of_nil in Hb]. cbn [mbind option_bind] in Hb.
    destruct (githubHighestBucket _ _) as [n|] eqn:E; [|by apply elem_of_nil in Hb]. apply list_elem_of_singleton in Hb as ->. apply highestBucket_in in E as [E _].
    apply (passes_tier isEmail _ "social-following" "followersAtLeast" FOLLOWERS_BUCKETS); try done; [by right; left|apply (bool_decide_unpack _); done..].
Qed.

Lemma reddit_passes isEmail e state input userId origin log badges :
  redditHandleStep e state input userId origin = (log, Ok (HComplete badges)) → all_pass isEmail ["oauth-account"; "account-age"] badges.
Proof.
  intros H. unfold redditHandleStep in H. destruct (negb _); [done|]. proceed H parsed Ep. proceed H creds Ec. destruct creds as [clientId clientSecret].
  do 7 skip H. proceed H meJson Ej. proceed H user Eu. apply orFail_Ok in Eu. injection H as _ <-.
  apply (member_nonempty _ "name") in Eu as Hne; [|apply (bool_decide_unpack _); done|right; left].
  unfold buildRedditBadges. cbn [rf_id rf_name rf_createdUtc app]. apply pass_account; try done; try (apply (bool_decide_unpack _); done).
  intros b Hb. destruct (numberAt "created_utc" user) as [c|]; [|by apply elem_of_nil in Hb]. cbn [mbind option_bind] in Hb.
  destruct (accountAgeBadge _ _ _ _ _) as [b'|] eqn:Ea; [|by apply elem_of_nil in Hb]. apply list_elem_of_singleton in Hb as ->.
  eapply passes_age; [| |exact Ea]; apply (bool_decide_unpack _); done.
Qed.

(** The three providers that may have no handle. *)
Lemma pass_oauth isEmail provider handle anchor : provider ∈ OAUTH_PROVIDERS →
  all_pass isEmail ["oauth-account"] [badge "oauth-account" (oauthClaims provider handle) (Some anchor) false].
Proof. intros Hp. apply pass_one, passes_oauth; [by left|done]. Qed.

Lemma google_passes isEmail e state input userId origin log badges :
  googleHandleStep e state input userId origin = (log, Ok (HComplete badges)) → all_pass isEmail ["oauth-account"] badges.
Proof.
  intros H. unfold googleHandleStep in H. destruct (negb _); [done|]. proceed H parsed Ep. proceed H creds Ec.
  do 4 skip H. proceed H userJson Ej. proceed H info Eu. injection H as _ <-. apply pass_oauth, (bool_decide_unpack _). done.
Qed.

Lemma youtube_passes isEmail e state input userId origin log badges :
  youtubeHandleStep e state input userId origin = (log, Ok (HComplete badges)) → all_pass isEmail ["oauth-account"] badges.
Proof.
  intros H. unfold youtubeHandleStep in H. destruct (negb _); [done|]. proceed H parsed Ep. proceed H creds Ec.
  do 4 skip H. proceed H channelsJson Ej. proceed H channels Eu. proceed H channel Eh. injection H as _ <-. apply pass_oauth, (bool_decide_unpack _). done.
Qed.

Lemma instagram_passes isEmail e state input userId origin log badges :
  instagramHandleStep e state input userId origin = (log, Ok (HComplete badges)) → all_pass isEmail ["oauth-account"] badges.
Proof.
  intros H. unfold instagramHandleStep in H. destruct (negb _); [done|]. proceed H parsed Ep. proceed H creds Ec. destruct creds as [clientId clientSecret].
  proceed H u1 E1. proceed H r1 E2. proceed H u2 E3. proceed H j1 E4. proceed H err E5. proceed H u3 E6. proceed H tok E7. proceed H token E8.
  proceed H r2 E9. proceed H u4 E10. proceed H j2 E11. proceed H pages E12. proceed H linked E13. proceed H found E14. destruct found as [ig tk].
  proceed H r3 E15. proceed H u5 E16. proceed H j3 E17. proceed H account E18. injection H as _ <-. apply pass_oauth, (bool_decide_unpack _). done.
Qed.

Lemma steam_passes isEmail e state input userId origin log badges :
  steamHandleStep e state input userId origin = (log, Ok (HComplete badges)) → all_pass isEmail ["oauth-account"] badges.
Proof.
  intros H. unfold steamHandleStep in H. destruct (negb _); [done|]. proceed H openid Ep. do 4 skip H. proceed H steamId Es. do 3 skip H.
  injection H as _ <-. apply pass_oauth, (bool_decide_unpack _). done.
Qed.

Lemma tlsn_passes isEmail e state input userId origin log badges :
  tlsnHandleStep e state input userId origin = (log, Ok (HComplete badges)) → all_pass isEmail ["tlsn-attestation"] badges.
Proof.
  intros H. unfold tlsnHandleStep in H. destruct (negb _); [done|]. proceed H parsed Ep. proceed H u Eu. apply unless_Ok in Eu.
  apply orb_false_iff in Eu as [E1 E2]. bool_hyps. proceed H transcript Et. skip H. injection H as _ <-. apply pass_one.
  set (domain := dataString "domain" state) in *. set (needle := dataString "needle" state) in *. split; [by left|]. split; [done|]. split; [|done].
  left. exists TlsnAttestationClaims, [("domain", JStr domain); ("claim", JStr needle)]. split; [done|]. unfold TlsnAttestationClaims. by parse_object.
Qed.

Lemma invite_passes isEmail e state input userId origin log badges :
  inviteHandleStep e state input userId origin = (log, Ok (HComplete badges)) → all_pass isEmail ["invite-code"] badges.
Proof.
  intros H. unfold inviteHandleStep in H. destruct (negb _); [done|]. destruct (safeParse _ _); [|done]. destruct (ie_redeem _ _ _) as [id label| |]; [|done..].
  injection H as _ <-. apply pass_one. split; [by left|]. split; [done|]. split; [|done]. destruct (decide (label = "")) as [-> | Hne]; [right; by right|].
  left. exists InviteCodeClaims, [("label", JStr label)]. split; [done|]. unfold InviteCodeClaims. by parse_object.
Qed.

Lemma key_passes isEmail w drawn now state input userId origin log badges :
  handleStep w drawn now state input userId origin = (log, Ok (HComplete badges)) → all_pass isEmail ["public-key"] badges.
Proof.
  intros H. unfold handleStep in H. destruct (bool_decide _).
  { destruct (safeParse _ _); [|done]. destruct (detectKeyKind _); [|done]. destruct (readPasted _ _ _) as [[[? ?] ?]|]; [|done]. by destruct (buildKeyChallenge _ _ _). }
  destruct (bool_decide _); [by destruct (bool_decide _)|]. destruct (bool_decide _); [|done]. destruct (kindOf _) as [kind|]; [|done].
  destruct (_ || _) eqn:Eg; [done|]. repeat (apply orb_false_iff in Eg as [Eg ?]). bool_hyps. destruct (isChallengeExpired _ _); [done|].
  destruct (safeParse _ _); [|done]. destruct (negb _); [by destruct kind|]. injection H as _ <-. apply pass_one.
  split; [by left|]. split; [done|]. split; [|by left]. left.
  exists PublicKeyClaims, [("kind", JStr (kindText kind)); ("fingerprint", JStr (dataString "fingerprint" state)); ("algorithm", JStr (dataString "algorithm" state))].
  split; [done|]. unfold PublicKeyClaims, buildPublicKeyBadge.
  assert (kindText kind ∈ PUBLIC_KEY_KINDS) by (destruct kind; apply (bool_decide_unpack _); done). by parse_object.
Qed.

(** An address is none of the words the wallet badges disclose. *)
Lemma address_is_no_word chain raw a word : normalizeWalletAddress chain raw = Some a → word ∈ WALLET_CHAINS ++ ONCHAIN_EVENTS → word ≠ a.
Proof.
  intros H Hw ->. assert (∃ c s, a = String c s ∧ (c = "0"%char ∨ c = "1"%char ∨ c = "3"%char ∨ (c = "b"%char ∧ String.get 0 s = Some "c"%char))) as (c & s & -> & Hc).
  { unfold normalizeWalletAddress in H. destruct (bool_decide (chain = "ethereum")).
    - destruct (ETH_ADDRESS_RE (trim raw)) eqn:E; [|done]. injection H as <-. unfold ETH_ADDRESS_RE, prefixedHex in E.
      destruct (trim raw) as [|c s]; [done|]. cbn [dropPrefix] in E. case_decide as Hc; [|done]. subst c. exists "0"%char, (toLowerCase s). by split; [|left].
    - destruct (BTC_BASE58_RE (trim raw)) eqn:E; [|destruct (BTC_BECH32_RE (trim raw)) eqn:E2; [|done]]; injection H as <-.
      + destruct (trim raw) as [|c s]; [done|]. cbn [BTC_BASE58_RE] in E. repeat (apply andb_true_iff in E as [E _]). exists c, s. split; [done|].
        apply orb_true_iff in E as [E|E]; bool_hyps; auto.
      + unfold BTC_BECH32_RE in E2. destruct (trim raw) as [|c s]; [done|]. cbn [dropPrefix] in E2. case_decide as Hc; [|done]. subst c.
        destruct s as [|c s]; [done|]. cbn [dropPrefix] in E2. case_decide as Hc; [|done]. subst c. exists "b"%char, (String "c" s). split; [done|]. auto 6. }
  assert (forallb (fun w => match w with
    | String c s => negb (bool_decide (c ∈ ["0"; "1"; "3"]%char)) && negb (bool_decide (c = "b"%char) && bool_decide (String.get 0 s = Some "c"%char)) | "" => true end)
    (WALLET_CHAINS ++ ONCHAIN_EVENTS) = true) as Hall by (vm_compute; reflexivity).
  rewrite forallb_forall in Hall. specialize (Hall (String c s) ltac:(by apply list_elem_of_In)). cbn in Hall. apply andb_true_iff in Hall as [H1 H2]. bool_hyps.
  destruct Hc as [-> | [-> | [-> | [-> Hg]]]]; try (apply H1; apply (bool_decide_unpack _); done). rewrite Hg in H2. done.
Qed.

Lemma wallet_states state : reachable walletPlugin state →
  st_id (wz_currentStep state) = WALLET_STEP_FORM ∨
  ∃ chain raw address drawn t c, normalizeWalletAddress chain raw = Some address ∧ buildWalletChallenge chain address drawn t = Some c ∧
    wz_data state = [("chain", JStr chain); ("address", JStr address); ("message", JStr (wc_message c)); ("expiresAt", JStr (wc_expiresAt c))].
Proof.
  revert state. apply reachable_ind'.
  - intros e userId origin log state [= _ <-]. by left.
  - intros e state input userId origin log state' IH H. right. cbn [pm_handle walletPlugin] in H. unfold walletHandleStep in H.
    destruct (bool_decide (st_id (wz_currentStep state) = WALLET_STEP_FORM)) eqn:Ef.
    { destruct (safeParse _ _) as [parsed|]; [|done]. destruct (negb _); [done|]. destruct (normalizeWalletAddress _ _) as [a|] eqn:En; [|done].
      destruct (buildWalletChallenge _ _ _ _) as [c|] eqn:Ec; [|done]. injection H as _ <-. do 6 eexists. split; [exact En|]. split; [exact Ec|done]. }
    bool_hyps. destruct IH as [?|IH]; [done|]. destruct (bool_decide _).
    { destruct (bool_decide _); [done|]. injection H as _ <-. exact IH. }
    destruct (bool_decide _); [|done]. destruct (_ || _); [done|]. destruct (walletIsChallengeExpired _ _); [done|]. destruct (safeParse _ _); [|done].
    by destruct (negb _).
Qed.

(** What a completed wallet run verified. *)
Definition wallet_verified (e : WalletEnv) (chain address message signature : string) : Prop :=
  if bool_decide (chain = "ethereum") then verifyEthereumSignature e address message signature = true else verifyBitcoinSignature e address message signature = true.

Lemma wallet_completes e state input userId origin log badges : reachable walletPlugin state →
  walletHandleStep e state input userId origin = (log, Ok (HComplete badges)) →
  ∃ chain raw address drawn t c signature,
    chain ∈ WALLET_CHAINS ∧ normalizeWalletAddress chain raw = Some address ∧ buildWalletChallenge chain address drawn t = Some c ∧
    walletIsChallengeExpired (wc_expiresAt c) (we_now e) = false ∧ wallet_verified e chain address (wc_message c) signature ∧
    badges = (buildWalletBadges e chain address).1.
Proof.
  intros Hr%wallet_states H. unfold walletHandleStep in H. destruct (bool_decide (st_id (wz_currentStep state) = WALLET_STEP_FORM)) eqn:Ef.
  { destruct (safeParse _ _) as [parsed|]; [|done]. destruct (negb _); [done|]. destruct (normalizeWalletAddress _ _); [|done]. by destruct (buildWalletChallenge _ _ _ _). }
  bool_hyps. destruct Hr as [?|(chain & raw & address & drawn & t & c & Hn & Hc & Hd)]; [done|]. destruct (bool_decide _); [by destruct (bool_decide _)|].
  destruct (bool_decide _); [|done].
  assert (dataString "chain" state = chain ∧ dataString "address" state = address ∧ dataString "message" state = wc_message c ∧
          dataString "expiresAt" state = wc_expiresAt c) as (D1 & D2 & D3 & D4) by (unfold dataString; rewrite Hd; done). rewrite D1, D2, D3, D4 in H.
  destruct (bool_decide (chain ∈ WALLET_CHAINS)) eqn:Ec; [|done]. bool_hyps. cbn [negb] in H. destruct (_ || _); [done|].
  destruct (walletIsChallengeExpired _ _) eqn:Ex; [done|]. destruct (safeParse _ _) as [parsed|]; [|done].
  exists chain, raw, address, drawn, t, c, (member "signature" parsed). unfold wallet_verified.
  destruct (bool_decide (chain = "ethereum")) eqn:Ee.
  - destruct (verifyEthereumSignature _ _ _ _) eqn:Ev; [|done]. cbn [negb] in H. destruct (buildWalletBadges e chain address) as [bs events]. injection H as _ <-. done.
  - destruct (verifyBitcoinSignature _ _ _ _) eqn:Ev; [|done]. cbn [negb] in H. destruct (buildWalletBadges e chain address) as [bs events]. injection H as _ <-. done.
Qed.

Lemma wallet_passes isEmail e state input userId origin log badges : reachable walletPlugin state →
  walletHandleStep e state input userId origin = (log, Ok (HComplete badges)) → all_pass isEmail ["wallet-control"; "wallet-age"; "onchain-event"] badges.
Proof.
  intros Hr H. destruct (wallet_completes _ _ _ _ _ _ _ Hr H) as (chain & raw & address & drawn & t & c & sig & Hc & Hn & _ & _ & _ & ->).
  assert (∀ word, word ∈ WALLET_CHAINS ++ ONCHAIN_EVENTS → bool_decide (word = address) = false) as Hw.
  { intros word Hin. apply bool_decide_eq_false_2. by eapply address_is_no_word. }
  assert (chain ∈ WALLET_CHAINS ++ ONCHAIN_EVENTS) as Hc' by (apply elem_of_app; by left).
  unfold buildWalletBadges. cbn [fst]. split; [done|]. intros b [-> | [Hb|Hb]%elem_of_app]%elem_of_cons.
  - split; [by left|]. split; [done|]. split; [|right; left; unfold badge; cbn [is_badge bi_claims]; rewrite appears_other, appears_nil by done; cbn; by rewrite Hw].
    left. exists WalletControlClaims, [("chain", JStr chain)]. split; [done|]. unfold WalletControlClaims. by parse_object.
  - apply list_elem_of_fmap in Hb as (event & -> & He). assert (event ∈ ONCHAIN_EVENTS) as Hev.
    { destruct (bool_decide (chain = "ethereum")); [|by apply elem_of_nil in He]. apply list_elem_of_omap in He as ([event' set] & Hin & Heq).
      apply list_elem_of_singleton in Hin. injection Hin as -> _. case_bool_decide; [|done]. injection Heq as <-. by left. }
    split; [apply (bool_decide_unpack _); done|]. split; [done|].
    split; [|right; left; unfold badge; cbn [is_badge bi_claims]; rewrite appears_other, appears_nil by done; cbn; rewrite Hw; [done|apply elem_of_app; by right]].
    left. exists OnchainEventClaims, [("event", JStr event)]. split; [done|]. unfold OnchainEventClaims. by parse_object.
  - destruct (walletAgeBadge _ _ _ _ _) as [b'|] eqn:Ea; [|by apply elem_of_nil in Hb]. apply list_elem_of_singleton in Hb as ->.
    unfold walletAgeBadge in Ea. destruct (fetchWalletFirstTxDate _ _ _); [|done]. cbn [mbind option_bind] in Ea.
    destruct (highestBucket _ _) as [n|] eqn:E; [|done]. injection Ea as <-. apply highestBucket_in in E as [E _].
    split; [apply (bool_decide_unpack _); done|]. split; [done|].
    split; [|right; left; unfold badge; cbn [is_badge bi_claims]; rewrite !appears_other, appears_nil by done; cbn; by rewrite Hw].
    left. exists WalletAgeClaims, [("chain", JStr chain); ("olderThanMonths", JNum n)]. split; [done|]. unfold WalletAgeClaims. by parse_object.
Qed.

(** ** Every plugin *)

(** C4: What a plugin hands over, the wizard can issue. For every plugin of the registry and every state it led a
    user to, a step that completes hands over at least one badge; each has a type of the plugin's manifest, its
    attributes are its claims, its claims pass the schema of its type, and its anchor does not occur in them unless
    the badge declares so, or the account's public handle is its immutable id. The exceptions of the schemas are an
    address whose normal form is no address any more, and an invite code with an empty label. *)
Theorem plugin_badges_pass isEmail w m e state input userId origin log badges :
  EmailTest isEmail → m ∈ PLUGINS isEmail w → reachable m state →
  pm_handle m e state input userId origin = (log, Ok (HComplete badges)) → all_pass isEmail (pm_badgeTypes m) badges.
Proof.
  intros HE Hm Hr H. unfold PLUGINS in Hm.
  repeat (apply elem_of_cons in Hm as [-> | Hm]; [cbn [pm_env pm_handle pm_badgeTypes emailDomainPlugin emailExactPlugin dnsTxtPlugin githubPlugin googlePlugin redditPlugin
    steamPlugin hackernewsPlugin instagramPlugin youtubePlugin walletPlugin inviteCodePlugin tlsnAttestationPlugin publicKeyPlugin] in *|]).
  - by eapply email_domain_passes.
  - by eapply email_exact_passes.
  - by eapply dns_passes.
  - by eapply github_passes.
  - by eapply google_passes.
  - by eapply reddit_passes.
  - by eapply steam_passes.
  - by eapply hn_passes.
  - by eapply instagram_passes.
  - by eapply youtube_passes.
  - by eapply wallet_passes.
  - by eapply invite_passes.
  - by eapply tlsn_passes.
  - by eapply key_passes.
  - by apply elem_of_nil in Hm.
Qed.

(** ** What was proved *)

(** *** A domain *)

(** A resolver serves a record that is the challenge. *)
Definition serves (e : DnsEnv) (server host token : string) : Prop :=
  ∃ records chunks, de_resolveTxtVia e server (challengeHost host) = Ok records ∧ chunks ∈ records ∧ trim (String.concat "" chunks) = challengeValue token.

Lemma queryResolver_match e server host token : isMatch (queryResolver e server (challengeHost host) (challengeValue token)) = true ↔ serves e server host token.
Proof.
  unfold queryResolver, serves. destruct (de_resolveTxtVia e server (challengeHost host)) as [records|err]; cbn.
  - unfold txtRecordsContainChallenge. rewrite bool_decide_eq_false_2 by done. destruct (existsb _ records) eqn:E; split; try done.
    + intros _. apply existsb_exists in E as (chunks & Hin & E). bool_hyps. exists records, chunks. split; [done|]. split; [by apply list_elem_of_In|done].
    + intros (r & chunks & [= <-] & Hin & Heq). exfalso. eapply not_true_iff_false; [exact E|]. apply existsb_exists. exists chunks.
      split; [by apply list_elem_of_In|]. by apply bool_decide_eq_true_2.
  - split; [by destruct (isNoRecordError err)|]. by intros (r & chunks & [=] & _).
Qed.

Lemma dns_states state : reachable dnsTxtPlugin state →
  st_id (wz_currentStep state) = DNS_STEP_FORM ∨
  st_id (wz_currentStep state) = DNS_STEP_VERIFY ∧ ∃ typed host drawn, normalizeDomain typed = Some host ∧ wz_data state = [("domain", JStr host); ("token", JStr (randomToken drawn))].
Proof.
  revert state. apply reachable_ind'.
  - intros e userId origin log state [= _ <-]. by left.
  - intros e state input userId origin log state' IH H. right. cbn [pm_handle dnsTxtPlugin] in H. unfold dnsHandleStep in H. destruct (bool_decide _).
    { destruct (safeParse _ _) as [parsed|]; [|done]. destruct (normalizeDomain _) as [host|] eqn:En; [|done]. injection H as _ <-. split; [done|].
      exists (member "domain" parsed), host, (de_drawn e). done. }
    destruct (bool_decide _); [|done]. destruct (_ || _); [done|]. destruct (normalizeDomain _); [|done]. destruct (forallb _ _); [done|].
    destruct (head _); [done|]. by destruct (existsb _ _).
Qed.


(** Conversely, the run completes once both resolvers serve the challenge. *)
Lemma published_domain_completes e state input userId origin :
  reachable dnsTxtPlugin state → st_id (wz_currentStep state) = DNS_STEP_VERIFY → dataString "token" state ≠ "" →
  (∀ server, server ∈ CORROBORATING_RESOLVERS → serves e server (dataString "domain" state) (dataString "token" state)) →
  pm_handle dnsTxtPlugin e state input userId origin =
    ([EAudit "plugin.dns_txt.verified" [("domain", JStr (dataString "domain" state))]], Ok (HComplete [buildDomainControlBadge (dataString "domain" state)])).
Proof.
  intros Hr%dns_states Hid Ht Hs. destruct Hr as [Hr|(Hr & typed & host & drawn & Hn & Hd)]; [by rewrite Hr in Hid|].
  assert (dataString "domain" state = host) as D1 by (unfold dataString; rewrite Hd; done). rewrite D1 in *.
  pose proof (normalizeDomain_spec _ _ Hn) as (_ & Hne & _ & Hi). cbn [pm_handle dnsTxtPlugin]. unfold dnsHandleStep. rewrite Hr, bool_decide_eq_false_2, bool_decide_eq_true_2 by done.
  rewrite D1, !bool_decide_eq_false_2 by done. cbn [orb]. rewrite Hi. assert (forallb isMatch ((fun server => queryResolver e server (challengeHost host) (challengeValue (dataString "token" state))) <$> CORROBORATING_RESOLVERS) = true) as ->; [|done].
  apply forallb_forall. intros o Ho%list_elem_of_In. apply list_elem_of_fmap in Ho as (server & -> & Hin). by apply queryResolver_match, Hs.
Qed.

(** *** An account of a site *)

(** The Hacker News badges name the account whose profile, as the site serves it, has the token of the run. *)
Lemma hn_badge_proved e state input userId origin log badges :
  hnHandleStep e state input userId origin = (log, Ok (HComplete badges)) →
  ∃ res j hn about, he_fetch e (get (HN_USER_URL (dataString "username" state)) []) = Ok res ∧ rs_ok res = true ∧ rs_json res = Ok j ∧
    safeParse HnUser j = Some hn ∧ stringOf "about" hn = Some about ∧ includes (dataString "token" state) about = true ∧ dataString "token" state ≠ "" ∧
    badges = buildHackerNewsBadges (he_tz e) {| hf_id := member "id" hn; hf_created := numberOf "created" hn |} (he_now e).
Proof.
  intros H. unfold hnHandleStep in H. destruct (bool_decide _).
  { destruct (safeParse _ _); [|done]. by destruct (negb _). }
  destruct (bool_decide _); [|done]. destruct (bool_decide (dataString "username" state = "")); [done|].
  destruct (bool_decide (dataString "token" state = "")) eqn:Et; [done|]. bool_hyps. cbn [orb] in H.
  destruct (he_fetch e _) as [res|] eqn:Ef; [|done]. destruct (rs_ok res) eqn:Eo; [|done]. cbn [negb] in H. destruct (rs_json res) as [raw|] eqn:Ej; [|done].
  destruct raw; try done; (destruct (safeParse HnUser _) as [hn|] eqn:Ep; [|done]); (destruct (aboutContainsToken _ _) eqn:Ea; [|done]); cbn [negb] in H; injection H as _ <-;
    unfold aboutContainsToken in Ea; (destruct (stringOf "about" hn) as [[|c about]|] eqn:Eab; [done| |done]); rewrite bool_decide_eq_false_2 in Ea by done;
    eexists res, _, hn, (String c about); done.
Qed.

(** A Steam badge rests on an assertion of Steam's endpoint for this run's return address, which Steam, asked again,
    calls valid, and whose signature covers every field that is relied on. *)
Lemma steam_badge_proved e state input userId origin log badges :
  steamHandleStep e state input userId origin = (log, Ok (HComplete badges)) →
  ∃ openid steamId res, steamCallback input = Some openid ∧
    jget "openid.mode" openid = Some "id_res" ∧ jget "openid.return_to" openid = Some (dataString "expectedReturnTo" state) ∧
    signedFieldsCoverRequired (jget "openid.signed" openid) = true ∧ jget "openid.op_endpoint" openid = Some STEAM_OPENID_ENDPOINT ∧
    parseSteamId (jget "openid.claimed_id" openid ?? "") = Some steamId ∧
    oe_fetch e (post STEAM_OPENID_ENDPOINT [("Content-Type", "application/x-www-form-urlencoded")] (buildCheckAuthParams openid)) = Ok res ∧
    assertionIsValid (rs_text res) = true ∧ badges = [badge "oauth-account" (oauthClaims "steam" (fetchPersona e steamId)) (Some steamId) false].
Proof.
  intros H. unfold steamHandleStep in H. destruct (negb _); [done|]. proceed H openid E0. apply orFail_Ok in E0.
  proceed H u1 E1. apply unless_Ok, negb_false_iff in E1. proceed H u2 E2. apply unless_Ok, orb_false_iff in E2 as [E2 E2']. apply negb_false_iff in E2'.
  proceed H u3 E3. apply unless_Ok, negb_false_iff in E3. proceed H u4 E4. apply unless_Ok, negb_false_iff in E4.
  proceed H steamId E5. apply orFail_Ok in E5. proceed H res E6. skip H. proceed H u5 E7. apply unless_Ok, negb_false_iff in E7. injection H as _ <-.
  bool_hyps. exists openid, steamId, res. split_and!; try done. unfold tryFetch in E6. destruct (oe_fetch e _) as [r|]; [by injection E6 as ->|done].
Qed.

(** *** A page *)

Lemma constantTimeEqual_spec a b : constantTimeEqual a b = true ↔ a = b.
Proof.
  unfold constantTimeEqual. destruct (Nat.eqb_spec (String.length a) (String.length b)) as [Hl|Hl]; cbn [negb].
  2: { split; [done|]. intros ->. done. }
  assert (∀ l l' : Bytes, length l = length l' → ∀ r, foldl (fun r '(x, y) => Z.lor r (Z.lxor x y)) r (zip l l') = 0 ↔ r = 0 ∧ l = l') as H.
  { induction l as [|x l IH]; intros [|y l'] Hlen r; try done; [cbn; naive_solver|]. cbn [zip zip_with foldl]. injection Hlen as Hlen.
    rewrite (IH l' Hlen), Z.lor_eq_0_iff, Z.lxor_eq_0_iff. naive_solver. }
  rewrite Z.eqb_eq, H by (unfold utf8; by rewrite !length_map, !length_list_ascii). split; [|by intros ->]. intros [_ E].
  revert b Hl E. induction a as [|c a IH]; intros [|c' b] Hl E; try done. injection Hl as Hl. injection E as Ec E.
  f_equal; [|by apply IH]. rewrite <-(Ascii.ascii_nat_embedding c), <-(Ascii.ascii_nat_embedding c'). f_equal. lia.
Qed.

(** An attestation rests on a transcript of the attested host that has the attested text and that the verifier bound to
    a notary's key, the pinned one when one is pinned. *)
Lemma tlsn_badge_proved e state input userId origin log badges :
  tlsnHandleStep e state input userId origin = (log, Ok (HComplete badges)) →
  ∃ presentation transcript res j key, te_fetch e (post (dropSlash (verifierUrl (te_env e)) +:+ "/verify") [("Content-Type", "application/json")]
      [("presentation", presentation); ("expectedDomain", dataString "domain" state)]) = Ok res ∧ rs_json res = Ok j ∧
    VerifyResponse j = Some (Ok (transcript, Some key)) ∧ trim key ≠ "" ∧
    (∀ pin, te_env e !! EXPECTED_NOTARY_KEY_ENV = Some pin → trim pin ≠ "" → normalizeNotaryKey key = normalizeNotaryKey pin) ∧
    includes (dataString "needle" state) (vt_received transcript) = true ∧
    badges = [badge "tlsn-attestation" [("domain", JStr (dataString "domain" state)); ("claim", JStr (dataString "needle" state))] None false].
Proof.
  intros H. unfold tlsnHandleStep in H. destruct (negb _); [done|]. proceed H parsed Ep. skip H. proceed H transcript Et. proceed H u Eu.
  apply unless_Ok, negb_false_iff in Eu. injection H as _ <-. destruct (verifyPresentation _ _ _) as [tr|] eqn:Ev; [|done]. injection Et as ->.
  unfold verifyPresentation in Ev. destruct (te_url e _) as [[scheme host]|]; [|done]. destruct (_ && _); [done|].
  destruct (te_fetch e _) as [res|] eqn:Ef; [|done]. destruct (rs_json res) as [j|] eqn:Ej; [|done].
  destruct (VerifyResponse j) as [[[tr key]|]|] eqn:Er; [|done..]. destruct (assertNotaryKey (te_env e) key) eqn:Ek; [done|]. injection Ev as ->.
  unfold assertNotaryKey in Ek. destruct (blank key) eqn:Eb; [done|]. destruct key as [key|]; [|done]. cbn [blank] in Eb. bool_hyps.
  exists (member "presentation" parsed), transcript, res, j, key. split_and!; try done.
  intros pin Hpin Hne. rewrite Hpin in Ek. cbn [blank default] in Ek. rewrite bool_decide_eq_false_2 in Ek by done.
  destruct (constantTimeEqual _ _) eqn:Ec; [|done]. by apply constantTimeEqual_spec in Ec.
Qed.

(** *** An age *)

(** A bucket of months is only given when that many calendar months have passed on the local calendar. *)
Lemma months_have_passed tz from to n : 0 < n → n <= monthsBetween tz from to →
  let '(fy, fm, fd) := localDate tz from in let '(ty, tm, td) := localDate tz to in
  fy * 12 + fm + n < ty * 12 + tm ∨ (fy * 12 + fm + n = ty * 12 + tm ∧ fd <= td).
Proof.
  unfold monthsBetween. destruct (localDate tz from) as [[fy fm] fd], (localDate tz to) as [[ty tm] td]. intros Hn H.
  destruct (Z.ltb_spec td fd); lia.
Qed.

Lemma age_badge_reached tz provider created anchor now b : accountAgeBadge tz provider (Some created) anchor now = Some b →
  ∃ n, jget "olderThanMonths" (bi_claims (is_badge b)) = Some (JNum n) ∧ n <= monthsBetween tz created now.
Proof.
  unfold accountAgeBadge. cbn [mbind option_bind]. destruct (highestBucket _ _) as [n|] eqn:E; [|done]. intros [= <-].
  apply highestBucket_in in E as [_ E]. by exists n.
Qed.

(** ** Examples *)

Module PluginDemo.

Definition isEmail (e : string) : bool := match deriveDomain (toLowerCase e) with Some d => DOMAIN_RE d | None => false end.

#[global] Instance email_test : EmailTest isEmail.
Proof. split. intros e. unfold isEmail. destruct (deriveDomain _) as [d|]; [|done]. by exists d. Qed.

Definition token : string := randomToken (replicate 24 7).

(** Both resolvers serve the challenge, the second in two chunks and among other records. *)
Definition dns : DnsEnv := {| de_drawn := replicate 24 7;
  de_resolveTxtVia := fun server host =>
    if bool_decide (host = "_minister-challenge.example.com")
    then Ok (if bool_decide (server = "1.1.1.1") then [["minister-verification=" +:+ token]] else [["v=spf1"]; ["minister-"; "verification=" +:+ token +:+ " "]])
    else Err {| dn_code := Some "ENOTFOUND"; dn_message := "not found" |} |}.

(** One of them does not know the record yet. *)
Definition propagating : DnsEnv := {| de_drawn := replicate 24 7;
  de_resolveTxtVia := fun server host => if bool_decide (server = "1.1.1.1") then de_resolveTxtVia dns server host else Err {| dn_code := Some "ENODATA"; dn_message := "no data" |} |}.

Definition waiting : WizardState :=
  match (pm_handle dnsTxtPlugin dns (dnsMakeFormStep "alice") (JObj [("domain", JStr " Example.COM. ")]) "alice" "o").2 with
  | Ok (HContinue s) => s | _ => dnsMakeFormStep "" end.

Lemma waiting_reachable : reachable dnsTxtPlugin waiting.
Proof.
  eapply (reach_step dnsTxtPlugin dns (dnsMakeFormStep "alice") (JObj [("domain", JStr " Example.COM. ")]) "alice" "o"); [|vm_compute; reflexivity].
  by eapply (reach_start dnsTxtPlugin dns "alice" "o").
Qed.

End PluginDemo.


(** One resolver is not enough. *)
Lemma one_resolver_fails :
  pm_handle dnsTxtPlugin PluginDemo.propagating PluginDemo.waiting JNull "alice" "o" =
    fails "We couldn't find the TXT record yet. DNS changes can take a few minutes to propagate — double-check the host and value, then wait a moment and click Verify again.".
Proof. vm_compute. reflexivity. Qed.

Lemma plugin_badges_pass_witness :
  all_pass PluginDemo.isEmail ["domain-control"] [buildDomainControlBadge "example.com"].
Proof.
  apply (plugin_badges_pass PluginDemo.isEmail {| PgpKey := unit; PgpCleartext := unit; PgpSignature := unit; SshKey := unit; SshSignature := unit;
      kw_readKey _ := None; kw_isPrivate _ := false; kw_getFingerprint _ := ""; kw_getAlgorithmInfo _ := {| pi_algorithm := None; pi_bits := None; pi_curve := None |};
      kw_primaryUserId _ := None; kw_readCleartextMessage _ := None; kw_getText _ := ""; kw_verifyCleartext _ _ := None; kw_readSignature _ := None;
      kw_createMessage _ := true; kw_verifyDetached _ _ _ := None; kw_parseKey _ := None; kw_type _ := ""; kw_curve _ := None; kw_size _ := 0;
      kw_fingerprint _ := None; kw_toBuffer _ := None; kw_parseSignature _ _ := None; kw_verify _ _ _ _ := None; kw_hash _ b := b |}
    dnsTxtPlugin PluginDemo.dns PluginDemo.waiting JNull "alice" "o" [EAudit "plugin.dns_txt.verified" [("domain", JStr "example.com")]]).
  - exact PluginDemo.email_test.
  - right. right. left.
  - exact PluginDemo.waiting_reachable.
  - vm_compute. reflexivity.
Defined.

(** The guard of the wizard against leaked anchors never stops a badge that passes, unless the handle is the anchor. *)
Lemma guard_stays_silent isEmail types b anchor : passes isEmail types b → is_sybilAnchor b = Some anchor →
  jget "handle" (bi_claims (is_badge b)) ≠ Some (JStr anchor) →
  negb (is_revealsAnchor b) && (anchorAppearsAsValue anchor (JObj (bi_attributes (is_badge b))) || anchorAppearsAsValue anchor (JObj (bi_claims (is_badge b)))) = false.
Proof.
  intros (_ & Ha & _ & Hh) Hs Hne. unfold hidden in Hh. rewrite Hs in Hh. rewrite Ha. destruct Hh as [-> | [-> | Hh]]; [done|by rewrite andb_false_r|done].
Qed.
