(* ===== verification/Admin.v ===== *)
(** * The admin actions (server/admin-action.ts, server/admin-actions.ts, server/sybil-admin-actions.ts,
    lib/oidc-client-admin.ts)

    Bans and admin rights, the registered OIDC clients, and the weights, caps and cutoffs of the
    anti-sybil score. The actions run on the users of Session.v, the OpenID Connect tables of
    OidcFlow.v and the configuration of SybilConfig.v. Invite codes are in InviteCodes.v. The URL
    parser, the id test, the messages of the schema library, the password hash, draws and row ids
    are parameters; of an audit row the actor and the action are kept. *)

From Stdlib Require Import QArith Qround.
From S2P Require Import Prelude Threads Matching Policy Selection RateLimit Registry Claims Vc Pairwise Nullifier.
From S2P Require Import SybilScore Session SybilConfig OidcAuthorize Bitstring Interleave StatusList OidcFlow Disclosure Issuance Plugins Ledger.
From S2P Require Import SignInOtp PairProtocol Wizard PluginKit OAuthPlugins.

Open Scope Z_scope.
Open Scope minister_scope.

(** ** Validation (lib/oidc-client-admin.ts) *)

Definition BASE_SCOPES : list string := ["openid"; "profile"].
Definition badgeScopes : list string := (fun t => "badge:" +:+ t) <$> knownBadgeTypes.
Definition allOidcScopes : list string := BASE_SCOPES ++ "sybil-score" :: badgeScopes.

(** [new URL(line)]: protocol, host name and fragment, when it parses. *)
Record ParsedUrl := { url_protocol : string; url_hostname : string; url_hash : string }.

(** [[...new Set(l)]] *)
Fixpoint uniqueOf (seen l : list string) : list string :=
  match l with
  | [] => []
  | x :: l => if bool_decide (x ∈ seen) then uniqueOf seen l else x :: uniqueOf (x :: seen) l
  end.

(** What is wrong with a line. *)
Definition redirectProblem (newURL : string → option ParsedUrl) (line : string) : option string :=
  match newURL line with
  | None => Some ("Not an absolute URL: " +:+ line)
  | Some url =>
      if negb (bool_decide (url_hash url = "")) then Some ("Redirect URIs must not contain a fragment: " +:+ line)
      else if bool_decide (url_protocol url = "https:") then None
      else if bool_decide (url_protocol url = "http:") && (bool_decide (url_hostname url = "localhost") || bool_decide (url_hostname url = "127.0.0.1"))
      then None
      else Some ("Must be https (or http on localhost): " +:+ line)
  end.

Definition parseRedirectUris (newURL : string → option ParsedUrl) (text : string) : result string (list string) :=
  let lines := filter (fun l => l ≠ "") (trim <$> splitLines text) in
  if bool_decide (lines = []) then Err "At least one redirect URI is required"
  else match head (omap (redirectProblem newURL) lines) with
       | Some error => Err error
       | None => Ok (uniqueOf [] lines)
       end.

Definition validateAnonAppId (value : option string) : result string (option string) :=
  let trimmed := trim (value ?? "") in
  if Nat.eqb (String.length trimmed) 0 then Ok None
  else if negb (ANON_APP_ID_PATTERN trimmed)
  then Err ("Invalid anon app id " +:+ QUOTE +:+ trimmed +:+ QUOTE +:+ ": must match ^[a-z0-9-]{3,32}$")
  else Ok (Some trimmed).

(** The value to write, or [None] to leave the column alone. *)
Definition resolveAnonAppIdUpdate (existing submitted : option string) : result string (option string) :=
  match existing with
  | Some _ =>
      if negb (bool_decide (submitted = None)) && negb (bool_decide (submitted = existing))
      then Err "anon app id is immutable once set and cannot be changed" else Ok None
  | None => Ok submitted
  end.

Definition validateClientScopes (scopes : list string) : result string (list string) :=
  let unique := uniqueOf [] scopes in
  let unknown := filter (fun s => s ∉ allOidcScopes) unique in
  if negb (bool_decide (unknown = [])) then Err ("Unknown scope: " +:+ String.concat ", " unknown)
  else if negb (bool_decide ("openid" ∈ unique)) then Err "The openid scope is required"
  else Ok unique.

(** ** The database *)

(** [ad_rowIds] gives the client id of a client's row. *)
Record AdminDB := {
  ad_users : gmap string UserFlags;
  ad_oidc : OidcDB;
  ad_rowIds : gmap string string;
  ad_config : ConfigDB;
  ad_audit : list (string * string);
}.

Definition with_users (m : gmap string UserFlags) (db : AdminDB) : AdminDB :=
  {| ad_users := m; ad_oidc := ad_oidc db; ad_rowIds := ad_rowIds db; ad_config := ad_config db; ad_audit := ad_audit db |}.
Definition with_oidc (o : OidcDB) (db : AdminDB) : AdminDB :=
  {| ad_users := ad_users db; ad_oidc := o; ad_rowIds := ad_rowIds db; ad_config := ad_config db; ad_audit := ad_audit db |}.
Definition with_rowIds (m : gmap string string) (db : AdminDB) : AdminDB :=
  {| ad_users := ad_users db; ad_oidc := ad_oidc db; ad_rowIds := m; ad_config := ad_config db; ad_audit := ad_audit db |}.
Definition with_sybil (c : ConfigDB) (db : AdminDB) : AdminDB :=
  {| ad_users := ad_users db; ad_oidc := ad_oidc db; ad_rowIds := ad_rowIds db; ad_config := c; ad_audit := ad_audit db |}.
Definition auditAdmin (actor action : string) (db : AdminDB) : AdminDB :=
  {| ad_users := ad_users db; ad_oidc := ad_oidc db; ad_rowIds := ad_rowIds db; ad_config := ad_config db;
     ad_audit := ad_audit db ++ [(actor, action)] |}.

Definition set_clients (m : gmap string OidcClient) (db : OidcDB) : OidcDB :=
  {| od_clients := m; od_users := od_users db; od_badges := od_badges db; od_codes := od_codes db;
     od_tokens := od_tokens db; od_grants := od_grants db; od_overrides := od_overrides db;
     od_subjects := od_subjects db; od_memberships := od_memberships db; od_epochs := od_epochs db;
     od_status := od_status db; od_audit := od_audit db |}.

(** An answer, a refusal that is returned, or an exception. *)
Inductive AdminResult (A : Type) := AOk (a : A) | ARefused (error : string) | AThrown (error : string).
#[global] Arguments AOk {A} a.
#[global] Arguments ARefused {A} error.
#[global] Arguments AThrown {A} error.

Record AdminWorld := {
  aw_isCuid : string → bool;
  aw_issue : Json → option string;
  aw_minIssue : string;
  aw_newURL : string → option ParsedUrl;
  aw_hashClientSecret : string → string;
}.

Section Actions.
Context (w : AdminWorld) (now : Z).

(** The wrapper of server/admin-action.ts: the admin gate, the parse, the handler. *)
Definition adminAction {A} (auth : option Session) (schema : Schema) (input : Json)
    (handler : Session → JObject → thread AdminDB (AdminResult A)) : thread AdminDB (AdminResult A) :=
  session ← read (fun db => requireAdmin auth (ad_users db));
  match session with
  | Err _ => mret (ARefused "Not authorized")
  | Ok session =>
      match safeParse schema input with
      | None => mret (ARefused (aw_issue w input ?? "Invalid input"))
      | Some parsed => handler session parsed
      end
  end.

Definition audited {A} (session : Session) (action : string) (a : A) : thread AdminDB (AdminResult A) :=
  _ ← write (auditAdmin (s_userId session) action); mret (AOk a).

Definition boolAt (key : string) (o : JObject) : bool := match jget key o with Some (JBool b) => b | _ => false end.

(** *** Users *)

Definition SetBannedInput : Schema := object [required "userId" (zstring [matching (aw_isCuid w)]); required "banned" Google.zboolean].
Definition SetAdminInput : Schema := object [required "userId" (zstring [matching (aw_isCuid w)]); required "admin" Google.zboolean].

Definition set_banned (banned : bool) (u : UserFlags) : UserFlags :=
  {| u_sessionGeneration := if banned then u_sessionGeneration u + 1 else u_sessionGeneration u; u_isAdmin := u_isAdmin u;
     u_isBanned := banned; u_mergedIntoUserId := u_mergedIntoUserId u; u_setupCompletedAt := u_setupCompletedAt u |}.
Definition set_admin (admin : bool) (u : UserFlags) : UserFlags :=
  {| u_sessionGeneration := u_sessionGeneration u; u_isAdmin := admin;
     u_isBanned := u_isBanned u; u_mergedIntoUserId := u_mergedIntoUserId u; u_setupCompletedAt := u_setupCompletedAt u |}.

(** [updateMany] that sets [revokedAt] where it is null, on the tokens a condition selects. *)
Definition revoke (sel : AccessToken → bool) (t : AccessToken) : AccessToken :=
  if sel t && bool_decide (at_revokedAt t = None)
  then {| at_userId := at_userId t; at_clientId := at_clientId t; at_scopes := at_scopes t; at_approvedBadgeIds := at_approvedBadgeIds t;
          at_profileName := at_profileName t; at_profileAvatar := at_profileAvatar t; at_sybilScore := at_sybilScore t;
          at_sybilBucket := at_sybilBucket t; at_anonEpoch := at_anonEpoch t; at_expiresAt := at_expiresAt t; at_revokedAt := Some now |}
  else t.
Definition revokeTokens (sel : AccessToken → bool) (db : OidcDB) : OidcDB := set_tokens (revoke sel <$> od_tokens db) db.
Definition ofUser (userId : string) (t : AccessToken) : bool := bool_decide (at_userId t = userId).
Definition ofClient (clientId : string) (t : AccessToken) : bool := bool_decide (at_clientId t = clientId).

(** The transaction; whether a row was updated. *)
Definition banTx (userId : string) (banned : bool) (db : AdminDB) : bool * AdminDB :=
  match ad_users db !! userId with
  | Some u =>
      if u_isAdmin u then (false, db)
      else
        let db := with_users (<[userId := set_banned banned u]> (ad_users db)) db in
        (true, if banned then with_oidc (revokeTokens (ofUser userId) (ad_oidc db)) db else db)
  | None => (false, db)
  end.

Definition setUserBanned (auth : option Session) (input : Json) : thread AdminDB (AdminResult unit) :=
  adminAction auth SetBannedInput input (fun session input =>
    let userId := member "userId" input in
    let banned := boolAt "banned" input in
    if bool_decide (userId = s_userId session) then mret (ARefused "You can't ban yourself")
    else
      updated ← act (banTx userId banned);
      if negb updated then mret (ARefused "User not found (or is an admin)")
      else audited session (if banned then "admin.user_banned" else "admin.user_unbanned") tt).

(** [updateMany]; a banned user is not promoted. *)
Definition adminTx (userId : string) (admin : bool) (db : AdminDB) : bool * AdminDB :=
  match ad_users db !! userId with
  | Some u => if admin && u_isBanned u then (false, db) else (true, with_users (<[userId := set_admin admin u]> (ad_users db)) db)
  | None => (false, db)
  end.

Definition setUserAdmin (auth : option Session) (input : Json) : thread AdminDB (AdminResult unit) :=
  adminAction auth SetAdminInput input (fun session input =>
    let userId := member "userId" input in
    let admin := boolAt "admin" input in
    if bool_decide (userId = s_userId session) then mret (ARefused "You can't change your own admin status")
    else
      updated ← act (adminTx userId admin);
      if negb updated then mret (ARefused "User not found (or is banned)")
      else audited session (if admin then "admin.granted" else "admin.revoked") tt).

(** *** OIDC clients *)

Definition trimmed : Check := fun s => Some (trim s).
Definition scopesField (v : Json) : option Json :=
  match Google.zarray (zstring []) v with Some (JArr []) => None | r => r end.
Definition OidcClientFields : list Field :=
  [required "name" (zstring [trimmed; min1; maxLength 80]); required "redirectUris" (zstring []);
   required "scopes" scopesField; optional "anonAppId" (zstring [])].
Definition CreateOidcClientInput : Schema := object (OidcClientFields ++ [optional "publicClient" Google.zboolean]).
Definition UpdateOidcClientInput : Schema := object (OidcClientFields ++ [required "id" (zstring [matching (aw_isCuid w)])]).
Definition ClientIdInput : Schema := object [required "id" (zstring [matching (aw_isCuid w)])].

Definition stringsAt (key : string) (o : JObject) : list string :=
  omap (fun v => match v with JStr s => Some s | _ => None end) (Google.arrayAt key o).

Definition generateClientId (drawn : Bytes) : string := "mc_" +:+ toBase64Url drawn.
Definition generateClientSecret (drawn : Bytes) : string := toBase64Url drawn.

Definition appIdTaken (anonAppId : string) (db : AdminDB) : bool :=
  existsb (fun e => bool_decide (oc_anonAppId e.2 = Some anonAppId)) (map_to_list (od_clients (ad_oidc db))).

(** A row by its id. *)
Definition clientRow (id : string) (db : AdminDB) : option (string * OidcClient) :=
  clientId ← ad_rowIds db !! id; client ← od_clients (ad_oidc db) !! clientId; Some (clientId, client).

(** [oidcClient.create]: the id, the client id and the app id are unique. *)
Definition insertClient (id clientId : string) (client : OidcClient) (db : AdminDB) : bool * AdminDB :=
  if bool_decide (is_Some (ad_rowIds db !! id)) || bool_decide (is_Some (od_clients (ad_oidc db) !! clientId))
     || match oc_anonAppId client with Some a => appIdTaken a db | None => false end
  then (false, db)
  else (true, with_rowIds (<[id := clientId]> (ad_rowIds db))
                (with_oidc (set_clients (<[clientId := client]> (od_clients (ad_oidc db))) (ad_oidc db)) db)).

(** The parsed fields of both forms. *)
Definition clientFields {A} (input : JObject) (k : list string → list string → option string → thread AdminDB (AdminResult A)) :
    thread AdminDB (AdminResult A) :=
  match parseRedirectUris (aw_newURL w) (member "redirectUris" input) with
  | Err error => mret (ARefused error)
  | Ok uris =>
      match validateClientScopes (stringsAt "scopes" input) with
      | Err error => mret (ARefused error)
      | Ok scopes =>
          match validateAnonAppId (stringAt "anonAppId" input) with
          | Err error => mret (ARefused error)
          | Ok anonAppId => k uris scopes anonAppId
          end
      end
  end.

Definition inUse (anonAppId : string) : string := "anon app id " +:+ QUOTE +:+ anonAppId +:+ QUOTE +:+ " is already in use".

(** The pre-check on a new app id. *)
Definition unlessTaken {A} (anonAppId : option string) (k : thread AdminDB (AdminResult A)) : thread AdminDB (AdminResult A) :=
  match anonAppId with
  | None => k
  | Some a => clash ← read (appIdTaken a); if clash : bool then mret (ARefused (inUse a)) else k
  end.

Definition createOidcClient (auth : option Session) (id : string) (drawnId drawnSecret : Bytes) (input : Json) :
    thread AdminDB (AdminResult (string * option string)) :=
  adminAction auth CreateOidcClientInput input (fun session input =>
    clientFields input (fun uris scopes anonAppId =>
      unlessTaken anonAppId (
        let clientId := generateClientId drawnId in
        let clientSecret := if boolAt "publicClient" input then None else Some (generateClientSecret drawnSecret) in
        created ← act (insertClient id clientId
          {| oc_name := member "name" input; oc_redirectUris := uris; oc_allowedScopes := scopes;
             oc_clientSecretHash := aw_hashClientSecret w <$> clientSecret; oc_anonAppId := anonAppId |});
        if negb created then mret (AThrown "Unique constraint failed")
        else audited session "admin.oidc_client.created" (clientId, clientSecret)))).

(** The outstanding grants of a client go with a change: tokens revoked, codes dropped. *)
Definition dropCodes (clientId : string) (db : OidcDB) : OidcDB :=
  OidcFlow.set_codes (filter (fun e => ac_clientId e.2.1 ≠ clientId) (od_codes db)) db.
Definition invalidate (clientId : string) (db : OidcDB) : OidcDB := dropCodes clientId (revokeTokens (ofClient clientId) db).

(** The transaction of an update: the row, named by its id, the tokens and codes of the client id read before;
    a missing row and a taken app id throw. *)
Definition updateTx (id clientId name : string) (uris scopes : list string) (set : option string) (db : AdminDB) : bool * AdminDB :=
  match clientRow id db with
  | None => (false, db)
  | Some (rowClientId, client) =>
      if match set with Some a => appIdTaken a db && negb (bool_decide (oc_anonAppId client = Some a)) | None => false end then (false, db)
      else
        let client' := {| oc_name := name; oc_redirectUris := uris; oc_allowedScopes := scopes;
                          oc_clientSecretHash := oc_clientSecretHash client;
                          oc_anonAppId := match set with Some a => Some a | None => oc_anonAppId client end |} in
        (true, with_oidc (invalidate clientId (set_clients (<[rowClientId := client']> (od_clients (ad_oidc db))) (ad_oidc db))) db)
  end.

Definition updateOidcClient (auth : option Session) (input : Json) : thread AdminDB (AdminResult unit) :=
  adminAction auth UpdateOidcClientInput input (fun session input =>
    clientFields input (fun uris scopes anonAppId =>
      existing ← read (clientRow (member "id" input));
      match existing with
      | None => mret (ARefused "Client not found")
      | Some (clientId, client) =>
          match resolveAnonAppIdUpdate (oc_anonAppId client) anonAppId with
          | Err error => mret (ARefused error)
          | Ok set =>
              unlessTaken set (
                updated ← act (updateTx (member "id" input) clientId (member "name" input) uris scopes set);
                if negb updated then mret (AThrown "update")
                else audited session "admin.oidc_client.updated" tt)
          end
      end)).

Definition rotateTx (id clientId hash : string) (db : AdminDB) : bool * AdminDB :=
  match clientRow id db with
  | None => (false, db)
  | Some (rowClientId, client) =>
      let client' := {| oc_name := oc_name client; oc_redirectUris := oc_redirectUris client; oc_allowedScopes := oc_allowedScopes client;
                        oc_clientSecretHash := Some hash; oc_anonAppId := oc_anonAppId client |} in
      (true, with_oidc (invalidate clientId (set_clients (<[rowClientId := client']> (od_clients (ad_oidc db))) (ad_oidc db))) db)
  end.

Definition rotateOidcClientSecret (auth : option Session) (drawn : Bytes) (input : Json) : thread AdminDB (AdminResult string) :=
  adminAction auth ClientIdInput input (fun session input =>
    client ← read (clientRow (member "id" input));
    match client with
    | None => mret (ARefused "Client not found")
    | Some (clientId, client) =>
        match present (oc_clientSecretHash client) with
        | None => mret (ARefused "Public clients have no secret to rotate")
        | Some _ =>
            let clientSecret := generateClientSecret drawn in
            updated ← act (rotateTx (member "id" input) clientId (aw_hashClientSecret w clientSecret));
            if negb updated then mret (AThrown "update")
            else audited session "admin.oidc_client.secret_rotated" clientSecret
        end
    end).

Definition deleteTx (id clientId : string) (db : AdminDB) : bool * AdminDB :=
  match clientRow id db with
  | None => (false, db)
  | Some (rowClientId, _) =>
      let o := ad_oidc db in
      let o := set_tokens (filter (fun e => at_clientId e.2 ≠ clientId) (od_tokens o)) o in
      let o := dropCodes clientId o in
      let o := set_grants (filter (fun e => e.1.2 ≠ clientId) (od_grants o)) o in
      let o := set_overrides (filter (fun e => e.1.2 ≠ clientId) (od_overrides o)) o in
      let o := set_clients (delete rowClientId (od_clients o)) o in
      (true, with_rowIds (delete id (ad_rowIds db)) (with_oidc o db))
  end.

Definition deleteOidcClient (auth : option Session) (input : Json) : thread AdminDB (AdminResult unit) :=
  adminAction auth ClientIdInput input (fun session input =>
    client ← read (clientRow (member "id" input));
    match client with
    | None => mret (ARefused "Client not found")
    | Some (clientId, _) =>
        deleted ← act (deleteTx (member "id" input) clientId);
        if negb deleted then mret (AThrown "delete")
        else audited session "admin.oidc_client.deleted" tt
    end).

(** *** The anti-sybil score (server/sybil-admin-actions.ts)

    A number of an input is a finite double, here a rational; strings of the inputs are not empty. *)

(** [Math.max(0, Math.floor(x))] *)
Definition clampFloor (x : Q) : Z := Z.max 0 (Qfloor x).

(** The wrapper for an input that is already typed; [valid] says that its strings are not empty. *)
Definition adminTyped {A} (auth : option Session) (valid : bool) (handler : Session → thread AdminDB (AdminResult A)) :
    thread AdminDB (AdminResult A) :=
  session ← read (fun db => requireAdmin auth (ad_users db));
  match session with
  | Err _ => mret (ARefused "Not authorized")
  | Ok session => if negb valid then mret (ARefused (aw_minIssue w)) else handler session
  end.

Definition set_sybil (weight : Z) (category : string) (row : BadgeWeight) : BadgeWeight :=
  {| bw_sybilWeight := weight; bw_recoveryWeight := bw_recoveryWeight row; bw_pendingRecoveryWeight := bw_pendingRecoveryWeight row;
     bw_recoveryEffectiveAt := bw_recoveryEffectiveAt row; bw_category := category; bw_allowSoloRecovery := bw_allowSoloRecovery row |}.

Definition with_tables (weights : gmap (string * string) BadgeWeight) (categories : gmap string Z) (buckets : option Cutoffs) (c : ConfigDB) : ConfigDB :=
  {| db_weights := weights; db_categories := categories; db_buckets := buckets; db_recovery := db_recovery c; db_group := db_group c; SybilConfig.db_audit := SybilConfig.db_audit c |}.

(** [badgeWeight.update] and [sybilCategory.update]; a missing row throws. *)
Definition sybilWeightTx (key : string * string) (weight : Z) (category : string) (db : AdminDB) : bool * AdminDB :=
  let c := ad_config db in
  match db_weights c !! key with
  | Some row => (true, with_sybil (with_tables (<[key := set_sybil weight category row]> (db_weights c)) (db_categories c) (db_buckets c) c) db)
  | None => (false, db)
  end.
Definition capTx (name : string) (cap : Z) (db : AdminDB) : bool * AdminDB :=
  let c := ad_config db in
  match db_categories c !! name with
  | Some _ => (true, with_sybil (with_tables (db_weights c) (<[name := cap]> (db_categories c)) (db_buckets c) c) db)
  | None => (false, db)
  end.

Definition updateSybilWeight (auth : option Session) (badgeType qualifier : string) (sybilWeight : Q) (category : string) :
    thread AdminDB (AdminResult unit) :=
  adminTyped auth (negb (bool_decide (badgeType = "") || bool_decide (qualifier = "") || bool_decide (category = ""))) (fun session =>
    existing ← read (fun db => db_weights (ad_config db) !! (badgeType, qualifier));
    categoryRow ← read (fun db => db_categories (ad_config db) !! category);
    match existing with
    | None => mret (ARefused ("Unknown weight row: " +:+ badgeType +:+ " / " +:+ qualifier))
    | Some existing =>
        if bool_decide (categoryRow = None) then mret (ARefused ("Unknown category: " +:+ category))
        else
          let toWeight := clampFloor sybilWeight in
          if (toWeight =? bw_sybilWeight existing) && bool_decide (category = bw_category existing) then mret (AOk tt)
          else
            updated ← act (sybilWeightTx (badgeType, qualifier) toWeight category);
            if negb updated then mret (AThrown "update") else audited session "admin.sybil_weights.updated" tt
    end).

Definition updateSybilCategoryCap (auth : option Session) (name : string) (cap : Q) : thread AdminDB (AdminResult unit) :=
  adminTyped auth (negb (bool_decide (name = ""))) (fun session =>
    let cap := clampFloor cap in
    existing ← read (fun db => db_categories (ad_config db) !! name);
    match existing with
    | None => mret (ARefused ("No category " +:+ QUOTE +:+ name +:+ QUOTE))
    | Some existing =>
        if existing =? cap then mret (AOk tt)
        else
          updated ← act (capTx name cap);
          if negb updated then mret (AThrown "update") else audited session "admin.sybil_category.cap_updated" tt
    end).

Record CutoffsInput := { bi_1 : Q; bi_2 : Q; bi_3 : Q; bi_4 : Q; bi_3Cats : Q; bi_4Cats : Q }.

Definition saveBucketCutoffs (auth : option Session) (input : CutoffsInput) : thread AdminDB (AdminResult unit) :=
  adminTyped auth true (fun session =>
    let c := {| b1 := clampFloor (bi_1 input); b2 := clampFloor (bi_2 input); b3 := clampFloor (bi_3 input); b4 := clampFloor (bi_4 input);
                b3Cats := clampFloor (bi_3Cats input); b4Cats := clampFloor (bi_4Cats input) |} in
    if negb ((b1 c <=? b2 c) && (b2 c <=? b3 c) && (b3 c <=? b4 c)) then mret (ARefused "Raw cutoffs must be non-decreasing: b1 ≤ b2 ≤ b3 ≤ b4.")
    else if negb (b3Cats c <=? b4Cats c) then mret (ARefused "Breadth floors must be non-decreasing: b3 cats ≤ b4 cats.")
    else
      _ ← write (fun db => with_sybil (with_tables (db_weights (ad_config db)) (db_categories (ad_config db)) (Some c) (ad_config db)) db);
      audited session "admin.sybil_buckets.updated" tt).

End Actions.

(** ** Requests *)

Inductive AdminRequest :=
  | RqBan (auth : option Session) (input : Json)
  | RqAdmin (auth : option Session) (input : Json)
  | RqCreate (auth : option Session) (id : string) (drawnId drawnSecret : Bytes) (input : Json)
  | RqUpdate (auth : option Session) (input : Json)
  | RqRotate (auth : option Session) (drawn : Bytes) (input : Json)
  | RqDelete (auth : option Session) (input : Json)
  | RqWeight (auth : option Session) (badgeType qualifier : string) (sybilWeight : Q) (category : string)
  | RqCap (auth : option Session) (name : string) (cap : Q)
  | RqCutoffs (auth : option Session) (input : CutoffsInput).

Definition answered {A} (r : AdminResult A) : AdminResult unit :=
  match r with AOk _ => AOk tt | ARefused e => ARefused e | AThrown e => AThrown e end.

Definition handleAdmin (w : AdminWorld) (rq : Z * AdminRequest) : thread AdminDB (AdminResult unit) :=
  match rq.2 with
  | RqBan auth input => setUserBanned w rq.1 auth input
  | RqAdmin auth input => setUserAdmin w auth input
  | RqCreate auth id d1 d2 input => r ← createOidcClient w auth id d1 d2 input; mret (answered r)
  | RqUpdate auth input => updateOidcClient w rq.1 auth input
  | RqRotate auth drawn input => r ← rotateOidcClientSecret w rq.1 auth drawn input; mret (answered r)
  | RqDelete auth input => deleteOidcClient w auth input
  | RqWeight auth t q x c => updateSybilWeight w auth t q x c
  | RqCap auth n x => updateSybilCategoryCap w auth n x
  | RqCutoffs auth input => saveBucketCutoffs w auth input
  end.

(** All at once under a schedule, or one after the other. *)
Definition serveAdmin (w : AdminWorld) (rqs : list (Z * AdminRequest)) (sched : list nat) (db : AdminDB) : list (AdminResult unit) * AdminDB :=
  let st := pool_run sched (handleAdmin w <$> rqs, db) in (returned st.1, st.2).
Definition inTurn (w : AdminWorld) (rqs : list (Z * AdminRequest)) (db : AdminDB) : AdminDB :=
  foldl (fun db rq => (run_solo (handleAdmin w rq) db).2) db rqs.

(** ** Well-formed rows *)

(** A redirect URI is https, or http on the loopback, without a fragment. *)
Definition valid_uri (w : AdminWorld) (uri : string) : Prop :=
  ∃ url, aw_newURL w uri = Some url ∧ url_hash url = "" ∧
    (url_protocol url = "https:" ∨ url_protocol url = "http:" ∧ (url_hostname url = "localhost" ∨ url_hostname url = "127.0.0.1")).
Definition valid_uris (w : AdminWorld) (uris : list string) : Prop := uris ≠ [] ∧ NoDup uris ∧ Forall (valid_uri w) uris.
Definition valid_scopes (scopes : list string) : Prop := "openid" ∈ scopes ∧ NoDup scopes ∧ ∀ s, s ∈ scopes → s ∈ allOidcScopes.
Definition valid_appId (a : option string) : Prop := ∀ x, a = Some x → ANON_APP_ID_PATTERN x = true.
Definition valid_client (w : AdminWorld) (c : OidcClient) : Prop :=
  valid_uris w (oc_redirectUris c) ∧ valid_scopes (oc_allowedScopes c) ∧ valid_appId (oc_anonAppId c).

(** The cutoffs of the buckets rise. *)
Definition ladder (c : Cutoffs) : Prop := 0 <= b1 c <= b2 c ∧ b2 c <= b3 c <= b4 c ∧ 0 <= b3Cats c <= b4Cats c.

(** ** What the actions may write

    Every write of every action is one of these; only two touch a user. *)
Inductive other_write (w : AdminWorld) : AdminDB → AdminDB → Prop :=
  | ow_same db : other_write w db db
  | ow_audit actor action db : other_write w db (auditAdmin actor action db)
  | ow_insert id clientId client db : valid_client w client → other_write w db (insertClient id clientId client db).2
  | ow_update now id clientId name uris scopes set db :
      valid_uris w uris → valid_scopes scopes → valid_appId set → other_write w db (updateTx now id clientId name uris scopes set db).2
  | ow_rotate now id clientId hash db : other_write w db (rotateTx now id clientId hash db).2
  | ow_delete id clientId db : other_write w db (deleteTx id clientId db).2
  | ow_weight key weight category db : other_write w db (sybilWeightTx key weight category db).2
  | ow_cap name cap db : other_write w db (capTx name cap db).2
  | ow_cutoffs c db : ladder c →
      other_write w db (with_sybil (with_tables (db_weights (ad_config db)) (db_categories (ad_config db)) (Some c) (ad_config db)) db).

Inductive admin_write (w : AdminWorld) : AdminDB → AdminDB → Prop :=
  | aw_other db db' : other_write w db db' → admin_write w db db'
  | aw_ban now u banned db : admin_write w db (banTx now u banned db).2
  | aw_admin u admin db : admin_write w db (adminTx u admin db).2.

Lemma elem_of_uniqueOf x seen l : x ∈ uniqueOf seen l ↔ x ∈ l ∧ x ∉ seen.
Proof.
  revert seen. induction l as [|y l IH]; intros seen; cbn; [set_solver|].
  case_bool_decide; rewrite ?elem_of_cons, IH; [set_solver|]. destruct (decide (x = y)) as [->|]; set_solver.
Qed.

Lemma NoDup_uniqueOf seen l : NoDup (uniqueOf seen l).
Proof.
  revert seen. induction l as [|y l IH]; intros seen; cbn; [constructor|]. case_bool_decide; [done|].
  constructor; [|done]. rewrite elem_of_uniqueOf. set_solver.
Qed.

Lemma redirect_ok w uri : redirectProblem (aw_newURL w) uri = None → valid_uri w uri.
Proof.
  unfold redirectProblem. destruct (aw_newURL w uri) as [url|] eqn:E; [|done]. destruct (negb _) eqn:Eh; [done|]. bool_hyps.
  destruct (bool_decide (url_protocol url = "https:")) eqn:Es; bool_hyps; [intros _; exists url; naive_solver|].
  destruct (_ && _) eqn:El; [|done]. apply andb_true_iff in El as [Ep Eo]. intros _. exists url.
  apply orb_true_iff in Eo as [Eo|Eo]; bool_hyps; auto 7.
Qed.

Lemma parseRedirectUris_ok w text uris : parseRedirectUris (aw_newURL w) text = Ok uris → valid_uris w uris.
Proof.
  unfold parseRedirectUris. set (lines := filter _ _). case_bool_decide as Hl; [done|].
  destruct (head (omap _ lines)) eqn:Eh; [done|]. intros [= <-]. split_and!.
  - destruct lines as [|x l]; [done|]. intros E. assert (x ∈ uniqueOf [] (x :: l)) as Hx by (apply elem_of_uniqueOf; set_solver).
    rewrite E in Hx. set_solver.
  - apply NoDup_uniqueOf.
  - apply Forall_forall. intros x [Hx _]%elem_of_uniqueOf. apply redirect_ok.
    destruct (redirectProblem _ x) as [e|] eqn:Ep; [|done].
    assert (e ∈ omap (redirectProblem (aw_newURL w)) lines) as He by (apply list_elem_of_omap; eauto).
    destruct (omap _ lines); [set_solver|done].
Qed.

Lemma validateClientScopes_ok scopes scopes' : validateClientScopes scopes = Ok scopes' → valid_scopes scopes'.
Proof.
  unfold validateClientScopes. case_bool_decide as Eu; cbn [negb]; [|done]. case_bool_decide as Eo; cbn [negb]; [|done].
  intros [= <-]. split_and!; [done|apply NoDup_uniqueOf|]. intros s Hs. destruct (decide (s ∈ allOidcScopes)) as [|Hn]; [done|].
  assert (s ∈ filter (fun s => s ∉ allOidcScopes) (uniqueOf [] scopes)) as Hf by by apply list_elem_of_filter. rewrite Eu in Hf. set_solver.
Qed.

Lemma validateAnonAppId_ok value a : validateAnonAppId value = Ok a → valid_appId a.
Proof.
  unfold validateAnonAppId. destruct (Nat.eqb _ _); [by intros [= <-]|]. destruct (negb _) eqn:E; [done|]. intros [= <-] x [= <-].
  by apply negb_false_iff.
Qed.

(** ** Every action stays within the writes *)

Section Writes.
Context (w : AdminWorld) (R : AdminDB → AdminDB → Prop) (HR : ∀ db db', other_write w db db' → R db db').
Abbreviation writes := (steps_in R).

#[local] Instance writes_refl : Reflexive R.
Proof using HR. intros db. apply HR. constructor. Qed.

Lemma writes_audited {A} session action (a : A) : writes (audited session action a).
Proof using HR. apply steps_in_bind; [|done]. apply steps_in_write. intros db. apply HR. constructor. Qed.

(** A guarded update followed by its audit row. *)
Lemma writes_tx {A} (f : AdminDB → bool * AdminDB) (no : AdminResult A) session action (a : A) :
  (∀ db, R db (f db).2) → writes (updated ← act f; if negb updated then mret no else audited session action a).
Proof using HR. intros Hf. apply steps_in_bind; [by apply steps_in_act|]. intros []; [apply writes_audited|done]. Qed.

Lemma writes_action {A} auth schema input (handler : Session → JObject → thread AdminDB (AdminResult A)) :
  (∀ session o, writes (handler session o)) → writes (adminAction w auth schema input handler).
Proof using HR.
  intros H. apply steps_in_bind; [apply steps_in_read, _|]. intros [session|]; [|done]. destruct (safeParse _ _); [apply H|done].
Qed.

Lemma writes_typed {A} auth valid (handler : Session → thread AdminDB (AdminResult A)) :
  (∀ session, writes (handler session)) → writes (adminTyped w auth valid handler).
Proof using HR. intros H. apply steps_in_bind; [apply steps_in_read, _|]. intros [session|]; [|done]. destruct valid; [apply H|done]. Qed.

Lemma writes_fields {A} input (k : list string → list string → option string → thread AdminDB (AdminResult A)) :
  (∀ uris scopes a, valid_uris w uris → valid_scopes scopes → valid_appId a → writes (k uris scopes a)) → writes (clientFields w input k).
Proof using HR.
  intros H. unfold clientFields. destruct (parseRedirectUris _ _) as [uris|] eqn:Eu; [|done].
  destruct (validateClientScopes _) as [scopes|] eqn:Es; [|done]. destruct (validateAnonAppId _) as [a|] eqn:Ea; [|done].
  apply H; eauto using parseRedirectUris_ok, validateClientScopes_ok, validateAnonAppId_ok.
Qed.

Lemma writes_unlessTaken {A} a (k : thread AdminDB (AdminResult A)) : writes k → writes (unlessTaken a k).
Proof using HR. intros H. destruct a; [|done]. apply steps_in_bind; [apply steps_in_read, _|]. by intros []. Qed.

Lemma resolve_valid existing submitted set :
  valid_appId submitted → resolveAnonAppIdUpdate existing submitted = Ok set → valid_appId set.
Proof using HR. unfold resolveAnonAppIdUpdate. intros H. destruct existing; [destruct (_ && _); [done|by intros [= <-]]|by intros [= <-]]. Qed.

(** The requests that name a user to change. *)
Definition names_user (rq : AdminRequest) : bool := match rq with RqBan _ _ | RqAdmin _ _ => true | _ => false end.

Lemma writes_other now rq : names_user rq = false → writes (handleAdmin w (now, rq)).
Proof using HR.
  intros Hn. destruct rq; try done; cbn [handleAdmin fst snd].
  - apply steps_in_bind; [|done]. apply writes_action. intros session o. cbv beta zeta. apply writes_fields. intros. apply writes_unlessTaken, writes_tx.
    intros db. apply HR. by constructor.
  - apply writes_action. intros session o. cbv beta zeta. apply writes_fields. intros uris scopes a Hu Hs Ha. apply steps_in_bind; [apply steps_in_read, _|].
    intros [[clientId client]|]; [|done]. destruct (resolveAnonAppIdUpdate _ _) as [set|] eqn:E; [|done]. apply writes_unlessTaken, writes_tx.
    intros db. apply HR. constructor; eauto using resolve_valid.
  - apply steps_in_bind; [|done]. apply writes_action. intros session o. cbv beta zeta. apply steps_in_bind; [apply steps_in_read, _|].
    intros [[clientId client]|]; [|done]. destruct (present _); [|done]. apply writes_tx. intros db. apply HR. constructor.
  - apply writes_action. intros session o. cbv beta zeta. apply steps_in_bind; [apply steps_in_read, _|]. intros [[clientId client]|]; [|done].
    apply writes_tx. intros db. apply HR. constructor.
  - apply writes_typed. intros session. cbv beta zeta. apply steps_in_bind; [apply steps_in_read, _|]. intros existing.
    apply steps_in_bind; [apply steps_in_read, _|]. intros category'. destruct existing; [|done]. destruct (bool_decide _); [done|].
    destruct (_ && _); [done|]. apply writes_tx. intros db. apply HR. constructor.
  - apply writes_typed. intros session. cbv beta zeta. apply steps_in_bind; [apply steps_in_read, _|]. intros [existing|]; [|done].
    destruct (_ =? _); [done|]. apply writes_tx. intros db. apply HR. constructor.
  - apply writes_typed. intros session. cbv beta zeta. destruct (negb _) eqn:E1; [done|]. destruct (negb (_ <=? _)) eqn:E2; [done|].
    apply steps_in_bind; [|intros; apply writes_audited]. apply steps_in_write. intros db. apply HR. constructor. unfold ladder, clampFloor in *. cbn in *.
    apply negb_false_iff in E1, E2. rewrite !andb_true_iff, !Z.leb_le in E1. apply Z.leb_le in E2. lia.
Qed.

End Writes.

Lemma writes_handle w rq : steps_in (admin_write w) (handleAdmin w rq).
Proof.
  pose proof (aw_other w) as HR. destruct rq as [now rq]. destruct (names_user rq) eqn:En; [|by apply writes_other].
  destruct rq; try done; cbn [handleAdmin fst snd].
  - apply writes_action; [done|]. intros session o. cbv beta zeta. destruct (bool_decide _); [done|]. apply (writes_tx w); [done|]. intros db. apply aw_ban.
  - apply writes_action; [done|]. intros session o. cbv beta zeta. destruct (bool_decide _); [done|]. apply (writes_tx w); [done|]. intros db. apply aw_admin.
Qed.

Lemma steps_in_mono {DB A} (R R' : DB → DB → Prop) (t : thread DB A) : (∀ db db', R db db' → R' db db') → steps_in R t → steps_in R' t.
Proof. intros H. induction t as [a|f k IH]; [done|]. intros Ht db. destruct (Ht db). split; [by apply H|by apply IH]. Qed.

(** What every write keeps, every interleaving of the actions keeps. *)
Lemma serve_within w (R : AdminDB → AdminDB → Prop) `{!PreOrder R} rqs sched db :
  (∀ db db', admin_write w db db' → R db db') → R db (serveAdmin w rqs sched db).2.
Proof.
  intros H. unfold serveAdmin. cbn [snd]. apply steps_in_pool; [done|]. apply Forall_fmap, Forall_true. intros rq. eapply steps_in_mono; [exact H|apply writes_handle].
Qed.


(** ** Clients *)

(** No two clients share an app id, and a row names a client. *)
Record ClientsOk (w : AdminWorld) (db : AdminDB) : Prop := {
  ck_valid : ∀ id c, od_clients (ad_oidc db) !! id = Some c → valid_client w c;
  ck_appId : ∀ id1 id2 c1 c2 a, od_clients (ad_oidc db) !! id1 = Some c1 → od_clients (ad_oidc db) !! id2 = Some c2 →
    oc_anonAppId c1 = Some a → oc_anonAppId c2 = Some a → id1 = id2;
}.

Lemma appIdTaken_false a db id c : appIdTaken a db = false → od_clients (ad_oidc db) !! id = Some c → oc_anonAppId c ≠ Some a.
Proof.
  unfold appIdTaken. intros H Hc E. apply not_true_iff_false in H. apply H, existsb_exists. exists (id, c).
  split; [by apply list_elem_of_In, elem_of_map_to_list|]. by apply bool_decide_eq_true_2.
Qed.

(** Replacing or adding a row whose app id is its own. *)
Lemma ClientsOk_insert w db db' id c :
  od_clients (ad_oidc db') = <[id := c]> (od_clients (ad_oidc db)) → valid_client w c →
  (∀ a id' c', oc_anonAppId c = Some a → od_clients (ad_oidc db) !! id' = Some c' → oc_anonAppId c' = Some a → id' = id) →
  ClientsOk w db → ClientsOk w db'.
Proof.
  intros E Hc Ha [Hv Hu]. split; rewrite E.
  - intros id' c' [[<- <-]|[_ ?]]%lookup_insert_Some; eauto.
  - intros id1 id2 c1 c2 a [[<- <-]|[Hn1 H1]]%lookup_insert_Some [[<- <-]|[Hn2 H2]]%lookup_insert_Some E1 E2; [done| | |by eapply Hu].
    + by rewrite (Ha a id2 c2).
    + by rewrite (Ha a id1 c1).
Qed.

Lemma clientRow_Some id db clientId c : clientRow id db = Some (clientId, c) → od_clients (ad_oidc db) !! clientId = Some c.
Proof.
  unfold clientRow. destruct (ad_rowIds db !! id) as [x|]; [|done]. cbn. destruct (od_clients _ !! x) eqn:E; [|done]. by intros [= <- <-].
Qed.

Lemma write_clients w db db' : admin_write w db db' → ClientsOk w db → ClientsOk w db'.
Proof.
  intros Hw Hok. pose proof Hok as [Hv Hu].
  destruct Hw as [db db' Hw|now u banned db|u admin db];
    [destruct Hw as [|actor action db|id clientId c db Hc|now id clientId name uris scopes set db H1 H2 H3
                    |now id clientId hash db|id clientId db|key weight category db|name cap db|c db Hl]| |]; try done.
  - unfold insertClient. destruct (_ || _) eqn:E; [done|]. apply orb_false_iff in E as [_ E].
    eapply ClientsOk_insert; [done|done| |done]. intros a id' c' Ea Hl Ea'. rewrite Ea in E. by destruct (appIdTaken_false _ _ _ _ E Hl).
  - unfold updateTx. destruct (clientRow id db) as [[rid c]|] eqn:Er; [|done]. apply clientRow_Some in Er.
    destruct (match set with Some a => _ | None => _ end) eqn:E; [done|]. destruct (Hv _ _ Er) as (Vu & Vs & Va).
    eapply ClientsOk_insert; [done|split_and!; cbn; [done..|by destruct set]| |done].
    cbn. intros a id' c' Ea Hl Ea'. destruct set as [a'|]; [|by eapply Hu]. injection Ea as ->. apply andb_false_iff in E as [E|E].
    + by destruct (appIdTaken_false _ _ _ _ E Hl).
    + apply negb_false_iff in E. bool_hyps. by eapply Hu.
  - unfold rotateTx. destruct (clientRow id db) as [[rid c]|] eqn:Er; [|done]. apply clientRow_Some in Er.
    eapply ClientsOk_insert; [done|exact (Hv _ _ Er)| |done]. cbn. intros a id' c' Ea Hl Ea'. by eapply Hu.
  - unfold deleteTx. destruct (clientRow id db) as [[rid c]|]; [|done]. split; cbn.
    + intros ? ? [_ ?]%lookup_delete_Some. eauto.
    + intros ? ? ? ? ? [_ ?]%lookup_delete_Some [_ ?]%lookup_delete_Some. eauto.
  - unfold sybilWeightTx. by destruct (db_weights _ !! key).
  - unfold capTx. by destruct (db_categories _ !! name).
  - unfold banTx. destruct (ad_users db !! u) as [f|]; [|done]. destruct (u_isAdmin f); [done|]. by destruct banned.
  - unfold adminTx. destruct (ad_users db !! u) as [f|]; [|done]. by destruct (_ && _).
Qed.

(** C30: registered clients stay well formed. Under any interleaving of admin requests every client keeps a list of
    redirect URIs without repetition, each https or http on the loopback and without a fragment, scopes of which all are
    known and one is openid, and an app id of the right form, if any; and no two clients share an app id. *)
Theorem clients_stay_valid w rqs sched db : ClientsOk w db → ClientsOk w (serveAdmin w rqs sched db).2.
Proof.
  intros H. revert H. assert (PreOrder (fun db db' => ClientsOk w db → ClientsOk w db')) by (split; [by intros ?|intros ? ? ?; auto]).
  apply (serve_within w (fun db db' => ClientsOk w db → ClientsOk w db')). apply write_clients.
Qed.

(** ** Bans *)

(** Generations grow, and no write gives back a token: tokens are only revoked or deleted. *)
Definition never_back (db db' : AdminDB) : Prop :=
  (∀ u f, ad_users db !! u = Some f → ∃ f', ad_users db' !! u = Some f' ∧ u_sessionGeneration f <= u_sessionGeneration f') ∧
  (∀ jti t', od_tokens (ad_oidc db') !! jti = Some t' → ∃ t, od_tokens (ad_oidc db) !! jti = Some t ∧ at_userId t' = at_userId t ∧
     at_clientId t' = at_clientId t ∧ (at_revokedAt t ≠ None → at_revokedAt t' ≠ None)).

#[export] Instance never_back_preorder : PreOrder never_back.
Proof.
  split.
  - intros db. split; intros; eauto 6 with lia.
  - intros a b c [G1 T1] [G2 T2]. split.
    + intros u f Hf. destruct (G1 _ _ Hf) as (f1 & H1 & ?), (G2 _ _ H1) as (f2 & H2 & ?). exists f2. split; [done|lia].
    + intros jti t2 H2. destruct (T2 _ _ H2) as (t1 & H1 & U1 & C1 & R1), (T1 _ _ H1) as (t & H & U & C & R).
      exists t. split_and!; [done|congruence|congruence|auto].
Qed.

Lemma revoke_spec now sel t :
  at_userId (revoke now sel t) = at_userId t ∧ at_clientId (revoke now sel t) = at_clientId t ∧
  (at_revokedAt t ≠ None → at_revokedAt (revoke now sel t) ≠ None) ∧ (sel t = true → at_revokedAt (revoke now sel t) ≠ None).
Proof. unfold revoke. destruct (sel t); cbn; [|done]. case_bool_decide; cbn; naive_solver. Qed.

Lemma revokeTokens_lookup now sel o jti t' :
  od_tokens (revokeTokens now sel o) !! jti = Some t' → ∃ t, od_tokens o !! jti = Some t ∧ t' = revoke now sel t.
Proof. cbn. rewrite lookup_fmap. destruct (od_tokens o !! jti) as [t|]; [|done]. intros [= <-]. eauto. Qed.

(** Tokens with some of them revoked, users as they were. *)
Lemma never_back_tokens (db db' : AdminDB) now sel :
  ad_users db' = ad_users db → od_tokens (ad_oidc db') = od_tokens (revokeTokens now sel (ad_oidc db)) → never_back db db'.
Proof.
  intros Eu Et. split; [rewrite Eu; intros; eauto with lia|]. rewrite Et. intros jti t' (t & Ht & ->)%revokeTokens_lookup.
  destruct (revoke_spec now sel t) as (? & ? & ? & _). eauto 6.
Qed.

Lemma never_back_users (db db' : AdminDB) u f f' :
  ad_users db !! u = Some f → ad_users db' = <[u := f']> (ad_users db) → u_sessionGeneration f <= u_sessionGeneration f' →
  od_tokens (ad_oidc db') = od_tokens (ad_oidc db) → never_back db db'.
Proof.
  intros Hf Eu Hle Et. split; [|rewrite Et; eauto 6]. rewrite Eu. intros v g Hg. destruct (decide (v = u)) as [->|].
  - rewrite lookup_insert_eq. exists f'. split; [done|]. by simplify_eq.
  - rewrite lookup_insert_ne by done. eauto with lia.
Qed.

Lemma write_never_back w db db' : admin_write w db db' → never_back db db'.
Proof.
  intros Hw.
  destruct Hw as [db db' Hw|now u banned db|u admin db];
    [destruct Hw as [|actor action db|id clientId c db Hc|now id clientId name uris scopes set db H1 H2 H3
                    |now id clientId hash db|id clientId db|key weight category db|name cap db|c db Hl]| |]; try (change (never_back db db); reflexivity).
  - unfold insertClient. destruct (_ || _); [reflexivity|]. change (never_back db db). reflexivity.
  - unfold updateTx. destruct (clientRow id db) as [[rid c]|]; [|reflexivity]. destruct (match set with Some a => _ | None => _ end); [reflexivity|]. by eapply never_back_tokens.
  - unfold rotateTx. destruct (clientRow id db) as [[rid c]|]; [|reflexivity]. by eapply never_back_tokens.
  - unfold deleteTx. destruct (clientRow id db) as [[rid c]|]; [|reflexivity]. split; cbn; [eauto with lia|].
    intros jti t' [Ht _]%map_lookup_filter_Some. eauto 6.
  - unfold sybilWeightTx. destruct (db_weights _ !! key); change (never_back db db); reflexivity.
  - unfold capTx. destruct (db_categories _ !! name); change (never_back db db); reflexivity.
  - unfold banTx. destruct (ad_users db !! u) as [f|] eqn:Ef; [|reflexivity]. destruct (u_isAdmin f); [reflexivity|]. destruct banned; cbn [fst snd].
    + transitivity (with_users (<[u := set_banned true f]> (ad_users db)) db); [|by eapply never_back_tokens].
      eapply (never_back_users db _ u f (set_banned true f)); [done|done|cbn; lia|done].
    + by eapply (never_back_users db _ u f (set_banned false f)).
  - unfold adminTx. destruct (ad_users db !! u) as [f|] eqn:Ef; [|reflexivity]. destruct (_ && _); [reflexivity|]. cbn [fst snd].
    by eapply (never_back_users db _ u f (set_admin admin f)).
Qed.

(** What a successful ban did. *)
Lemma ban_run w now auth input db db' :
  run_solo (setUserBanned w now auth input) db = (AOk tt, db') →
  ∃ s o u, auth = Some s ∧ live_session (ad_users db) s ∧ (∃ f, ad_users db !! s_userId s = Some f ∧ u_isAdmin f = true) ∧
    safeParse (SetBannedInput w) input = Some o ∧ member "userId" o = u ∧ u ≠ s_userId s ∧
    ∃ f actor, ad_users db !! u = Some f ∧ u_isAdmin f = false ∧ db' = auditAdmin actor (if boolAt "banned" o then "admin.user_banned" else "admin.user_unbanned") (banTx now u (boolAt "banned" o) db).2.
Proof.
  unfold setUserBanned, adminAction. rewrite run_solo_read. destruct (requireAdmin auth (ad_users db)) as [s|] eqn:Ea; [|done].
  apply requireAdmin_live in Ea as (-> & Hlive & Hadm). destruct (safeParse _ input) as [o|] eqn:Ep; [|done]. cbv beta zeta.
  case_bool_decide as Hne; [done|]. rewrite run_solo_bind. cbn [act run_solo fst snd]. unfold banTx at 1.
  destruct (ad_users db !! member "userId" o) as [f|] eqn:Ef; [|done]. destruct (u_isAdmin f) eqn:Eadm; [done|]. cbn [fst negb].
  intros H. injection H as <-. exists s, o, (member "userId" o). split_and!; try done. exists f, (s_userId s). done.
Qed.

(** C8: a ban shuts a user out. Once an admin has banned a user, and whatever admin requests run afterwards, in any
    interleaving, an unban among them: no session the user had before the ban passes any more, and every access token
    of the user that is still in the table is revoked. *)
Theorem ban_shuts_out w now auth input o db db' f session rqs sched :
  safeParse (SetBannedInput w) input = Some o → boolAt "banned" o = true →
  run_solo (setUserBanned w now auth input) db = (AOk tt, db') →
  ad_users db !! member "userId" o = Some f → s_userId session = member "userId" o →
  default 0 (s_sessionGeneration session) <= u_sessionGeneration f →
  let after := (serveAdmin w rqs sched db').2 in
  getCurrentSession (Some session) (ad_users after) = None ∧
  ∀ jti t, od_tokens (ad_oidc after) !! jti = Some t → at_userId t = member "userId" o → at_revokedAt t ≠ None.
Proof.
  intros Hp Hb Hrun Hf Hs Hgen after. apply ban_run in Hrun as (s & o' & u & _ & _ & _ & Hp' & Hu & _ & f' & actor & Hf' & Hadm & Hdb').
  rewrite Hp in Hp'. injection Hp' as <-. rewrite Hu in *. rewrite Hf in Hf'. injection Hf' as <-. rewrite Hb in Hdb'.
  unfold banTx in Hdb'. rewrite Hf, Hadm in Hdb'. cbn [snd] in Hdb'. set (db1 := with_oidc _ _) in Hdb'.
  assert (never_back db' after) as [HG HT] by (apply serve_within; [apply _|apply write_never_back]).
  assert (ad_users db' !! u = Some (set_banned true f)) as Hbanned by (rewrite Hdb'; cbn; apply lookup_insert_eq).
  destruct (HG _ _ Hbanned) as (g & Hg & Hle). cbn in Hle. split.
  - unfold getCurrentSession, loadSessionFlags. rewrite Hs. case_bool_decide; [done|]. rewrite Hg.
    destruct (Z.eqb_spec (u_sessionGeneration g) (default 0 (s_sessionGeneration session))); [lia|done].
  - intros jti t Ht Htu. destruct (HT _ _ Ht) as (t1 & Ht1 & Hu1 & _ & Hr). apply Hr. rewrite Hdb' in Ht1.
    apply (revokeTokens_lookup now (ofUser u) (ad_oidc db)) in Ht1 as (t0 & _ & ->).
    destruct (revoke_spec now (ofUser u) t0) as (Eu & _ & _ & Hsel). apply Hsel, bool_decide_eq_true_2. congruence.
Qed.

(** ** The last admin *)

Definition live_admin (db : AdminDB) (u : string) : Prop :=
  ∃ f, ad_users db !! u = Some f ∧ u_isAdmin f = true ∧ u_isBanned f = false ∧ u_mergedIntoUserId f = None.

(** Handlers that leave the users alone. *)
Definition same_users (db db' : AdminDB) : Prop := ad_users db' = ad_users db.

#[export] Instance same_users_preorder : PreOrder same_users.
Proof. split; [done|]. unfold same_users. congruence. Qed.

(** The two writes to the users leave every other user's row alone. *)
Lemma user_write_other (db : AdminDB) u v x b :
  v ≠ u → ad_users (banTx x u b db).2 !! v = ad_users db !! v ∧ ad_users (adminTx u b db).2 !! v = ad_users db !! v.
Proof.
  intros Hne. unfold banTx, adminTx. destruct (ad_users db !! u) as [f|]; [|done]. split.
  - destruct (u_isAdmin f); [done|]. destruct b; cbn; by apply lookup_insert_ne.
  - destruct (_ && _); [done|]. cbn. by apply lookup_insert_ne.
Qed.

(** An action that changes users has a live admin behind it, whose row it keeps. *)
Lemma action_keeps_actor {A} w auth schema input (target : JObject → string) (no : AdminResult A)
    (handler : Session → JObject → thread AdminDB (AdminResult A)) db :
  (∀ s o, target o = s_userId s → handler s o = mret no) →
  (∀ s o v, target o ≠ s_userId s → v ≠ target o → ad_users (run_solo (handler s o) db).2 !! v = ad_users db !! v) →
  (∃ u, live_admin db u) → ∃ u, live_admin (run_solo (adminAction w auth schema input handler) db).2 u.
Proof.
  intros Hself Hother Hex. unfold adminAction. rewrite run_solo_read. destruct (requireAdmin auth (ad_users db)) as [s|] eqn:Ea; [|done].
  apply requireAdmin_live in Ea as (_ & (_ & f & Hf & _ & Hb & Hm) & f' & Hf' & Hadm). rewrite Hf in Hf'. injection Hf' as <-.
  destruct (safeParse _ input) as [o|]; [|done]. destruct (decide (target o = s_userId s)) as [E|E]; [by rewrite Hself|].
  exists (s_userId s), f. split; [|done]. by rewrite Hother.
Qed.

Lemma other_same_users w db db' : other_write w db db' → same_users db db'.
Proof.
  unfold same_users. intros [| | | | | | | |]; try done.
  - unfold insertClient. by destruct (_ || _).
  - unfold updateTx. destruct (clientRow id db0) as [[rid c]|]; [|done]. by destruct (match set with Some a => _ | None => _ end).
  - unfold rotateTx. by destruct (clientRow id db0) as [[rid c]|].
  - unfold deleteTx. by destruct (clientRow id db0) as [[rid c]|].
  - unfold sybilWeightTx. by destruct (db_weights _ !! key).
  - unfold capTx. by destruct (db_categories _ !! name).
Qed.

Lemma admin_remains_step w rq db : (∃ u, live_admin db u) → ∃ u, live_admin (run_solo (handleAdmin w rq) db).2 u.
Proof.
  intros Hex. destruct rq as [now rq]. destruct (names_user rq) eqn:En.
  - destruct rq; try done; cbn [handleAdmin fst snd].
    + apply (action_keeps_actor w auth _ input (member "userId") (ARefused "You can't ban yourself")); [|..|done].
      * intros s o E. cbv beta zeta. by rewrite bool_decide_eq_true_2.
      * intros s o v E Hv. cbv beta zeta. rewrite bool_decide_eq_false_2, run_solo_bind by done. cbn [act run_solo fst snd].
        destruct (user_write_other db (member "userId" o) v now (boolAt "banned" o) Hv) as [H _].
        destruct (banTx _ _ _ db) as [[] db1]; exact H.
    + apply (action_keeps_actor w auth _ input (member "userId") (ARefused "You can't change your own admin status")); [|..|done].
      * intros s o E. cbv beta zeta. by rewrite bool_decide_eq_true_2.
      * intros s o v E Hv. cbv beta zeta. rewrite bool_decide_eq_false_2, run_solo_bind by done. cbn [act run_solo fst snd].
        destruct (user_write_other db (member "userId" o) v now (boolAt "admin" o) Hv) as [_ H].
        destruct (adminTx _ _ db) as [[] db1]; exact H.
  - assert (same_users db (run_solo (handleAdmin w (now, rq)) db).2) as E.
    { apply steps_in_run; [apply _|]. apply writes_other; [apply other_same_users|done]. }
    destruct Hex as (u & f & Hf & H). exists u, f. by rewrite E.
Qed.

(** One after the other, admin requests never leave the service without an admin. *)
Theorem an_admin_remains w rqs db : (∃ u, live_admin db u) → ∃ u, live_admin (inTurn w rqs db) u.
Proof. unfold inTurn. revert db. induction rqs as [|rq rqs IH]; intros db H; [done|]. cbn [foldl]. by apply IH, admin_remains_step. Qed.

(** ** A change of a client *)

(** No outstanding code, and no live token. *)
Definition invalidated (clientId : string) (db : AdminDB) : Prop :=
  (∀ code row, od_codes (ad_oidc db) !! code = Some row → ac_clientId row.1 ≠ clientId) ∧
  (∀ jti t, od_tokens (ad_oidc db) !! jti = Some t → at_clientId t = clientId → at_revokedAt t ≠ None).

Lemma invalidate_spec now clientId o db : ad_oidc db = invalidate now clientId o → invalidated clientId db.
Proof.
  intros E. split; rewrite E.
  - cbn. by intros code row [_ ?]%map_lookup_filter_Some.
  - intros jti t (t0 & _ & ->)%(revokeTokens_lookup now (ofClient clientId)) Hc.
    destruct (revoke_spec now (ofClient clientId) t0) as (_ & Ec & _ & Hs). apply Hs, bool_decide_eq_true_2. congruence.
Qed.

(** An edit, a new secret and a deletion leave no outstanding grant of the client. *)
Lemma client_change_invalidates now db id clientId name uris scopes set hash :
  let update := updateTx now id clientId name uris scopes set db in
  let rotate := rotateTx now id clientId hash db in
  let del := deleteTx id clientId db in
  (update.1 = true → invalidated clientId update.2) ∧ (rotate.1 = true → invalidated clientId rotate.2) ∧ (del.1 = true → invalidated clientId del.2).
Proof.
  unfold updateTx, rotateTx, deleteTx. destruct (clientRow id db) as [[rid c]|]; [|done]. cbn zeta. split_and!.
  - destruct (match set with Some a => _ | None => _ end); [done|]. intros _. by eapply invalidate_spec.
  - intros _. by eapply invalidate_spec.
  - intros _. split; cbn.
    + by intros code row [_ ?]%map_lookup_filter_Some.
    + by intros jti t [_ ?]%map_lookup_filter_Some.
Qed.

(** ** The anti-sybil editor and recovery *)

(** The columns recovery reads, of every row, and the rows of the threshold. *)
Definition recoveryColumns (row : BadgeWeight) : Z * option Z * option Z * bool :=
  (bw_recoveryWeight row, bw_pendingRecoveryWeight row, bw_recoveryEffectiveAt row, bw_allowSoloRecovery row).
Definition same_recovery (db db' : AdminDB) : Prop :=
  recoveryColumns <$> db_weights (ad_config db') = recoveryColumns <$> db_weights (ad_config db) ∧
  db_recovery (ad_config db') = db_recovery (ad_config db) ∧
  (∀ c, db_buckets (ad_config db') = Some c → db_buckets (ad_config db) = Some c ∨ ladder c).

#[export] Instance same_recovery_preorder : PreOrder same_recovery.
Proof.
  split; [intros db; unfold same_recovery; naive_solver|]. intros a b c (W1 & R1 & L1) (W2 & R2 & L2).
  split_and!; [congruence|congruence|]. intros x [H|?]%L2; [by apply L1|by right].
Qed.

Lemma same_recovery_eq db db' : ad_config db' = ad_config db → same_recovery db db'.
Proof. unfold same_recovery. intros ->. auto. Qed.

(** No admin request of this file touches what recovery reads, and the cutoffs it stores rise. *)
Theorem recovery_untouched w rqs sched db : same_recovery db (serveAdmin w rqs sched db).2.
Proof.
  apply serve_within; [apply _|]. intros d d' [? ? Ho|now u banned db0|u admin db0].
  - destruct Ho as [db1|actor action db1|id clientId c db1 _|now id clientId name uris scopes set db1 _ _ _|now id clientId hash db1|id clientId db1
                   |key weight category db1|name cap db1|c db1 Hl]; try (by apply same_recovery_eq).
    + apply same_recovery_eq. unfold insertClient. by destruct (_ || _).
    + apply same_recovery_eq. unfold updateTx. destruct (clientRow id db1) as [[rid c]|]; [|done]. by destruct (match set with Some a => _ | None => _ end).
    + apply same_recovery_eq. unfold rotateTx. by destruct (clientRow id db1) as [[rid c]|].
    + apply same_recovery_eq. unfold deleteTx. by destruct (clientRow id db1) as [[rid c]|].
    + unfold sybilWeightTx. destruct (db_weights (ad_config db1) !! key) as [row|] eqn:E; [|reflexivity]. split_and!; [|done|auto].
      cbn. rewrite fmap_insert. change (recoveryColumns (set_sybil weight category row)) with (recoveryColumns row).
      apply insert_id. by rewrite lookup_fmap, E.
    + unfold capTx. destruct (db_categories _ !! name); [|reflexivity]. split_and!; [done|done|auto].
    + split_and!; [done|done|]. cbn. intros x [= <-]. by right.
  - apply same_recovery_eq. unfold banTx. destruct (ad_users db0 !! u) as [f|]; [|done]. destruct (u_isAdmin f); [done|]. by destruct banned.
  - apply same_recovery_eq. unfold adminTx. destruct (ad_users db0 !! u) as [f|]; [|done]. by destruct (_ && _).
Qed.

(** ** Examples *)

Module AdminDemo.

Definition world : AdminWorld :=
  {| aw_isCuid := fun _ => true; aw_issue := fun _ => None; aw_minIssue := "Too small"; aw_hashClientSecret := fun s => s;
     aw_newURL := fun s => if decide (s = "https://rp/cb") then Some {| url_protocol := "https:"; url_hostname := "rp"; url_hash := "" |} else None |}.

Definition flags (admin : bool) : UserFlags :=
  {| u_sessionGeneration := 0; u_isAdmin := admin; u_isBanned := false; u_mergedIntoUserId := None; u_setupCompletedAt := None |}.

(** Two admins and a user who has just consented at a client. *)
Definition db : AdminDB :=
  {| ad_users := {[ "a" := flags true; "b" := flags true; "u" := flags false ]}; ad_oidc := demo_consented;
     ad_rowIds := {[ "r" := "rp" ]}; ad_audit := [];
     ad_config := {| db_weights := ∅; db_categories := ∅; db_buckets := None; db_recovery := None; db_group := None; SybilConfig.db_audit := [] |} |}.

Definition session (u : string) : Session :=
  {| s_userId := u; s_sessionGeneration := Some 0; s_aal := Some 2; s_recovered := false; s_auth_time := Some 0; s_cred := None |}.

Definition ban : Json := JObj [("userId", JStr "u"); ("banned", JBool true)].
Definition unban : Json := JObj [("userId", JStr "u"); ("banned", JBool false)].
Definition demotion (u : string) : Json := JObj [("userId", JStr u); ("admin", JBool false)].
Definition edit (appId : string) : Json :=
  JObj [("name", JStr "RP"); ("redirectUris", JStr "https://rp/cb"); ("scopes", JArr [JStr "openid"]); ("anonAppId", JStr appId); ("id", JStr "r")].

(** The exchange of the code at the token endpoint. *)
Definition exchange : thread AdminDB (AdminResult unit) :=
  r ← zoom ad_oidc with_oidc (tokenPOST demo_world 2000 "j1" demo_token);
  mret (match r with Ok _ => AOk tt | Err _ => ARefused "token" end).

End AdminDemo.

(** Two admins who demotion each other at the same time leave no admin. *)
Lemma admins_demote_each_other :
  let '(answers, db') := serveAdmin AdminDemo.world
    [(1, RqAdmin (Some (AdminDemo.session "a")) (AdminDemo.demotion "b")); (1, RqAdmin (Some (AdminDemo.session "b")) (AdminDemo.demotion "a"))]
    [0; 1; 0; 1; 0; 1]%nat AdminDemo.db in
  answers = [AOk tt; AOk tt] ∧ u_isAdmin <$> ad_users db' = {[ "a" := false; "b" := false; "u" := false ]}.
Proof. vm_compute. done. Qed.

(** A code of a banned user is exchanged after the ban, for a token that is not revoked. *)
Lemma ban_leaves_codes :
  let '(banned, db1) := run_solo (setUserBanned AdminDemo.world 1500 (Some (AdminDemo.session "a")) AdminDemo.ban) AdminDemo.db in
  let '(exchanged, db2) := run_solo AdminDemo.exchange db1 in
  banned = AOk tt ∧ exchanged = AOk tt ∧ u_isBanned <$> ad_users db2 !! "u" = Some true ∧
  at_revokedAt <$> od_tokens (ad_oidc db2) !! "j1" = Some None.
Proof. vm_compute. done. Qed.

(** An edit of a client in the middle of an exchange leaves a token that is not revoked. *)
Lemma exchange_survives_edit :
  let st := pool_run ([0; 0; 0] ++ [1; 1; 1; 1; 1; 1; 1] ++ replicate 20 0)%nat
    ([AdminDemo.exchange; handleAdmin AdminDemo.world (1500, RqUpdate (Some (AdminDemo.session "a")) (AdminDemo.edit ""))], AdminDemo.db) in
  returned st.1 = [AOk tt; AOk tt] ∧ at_revokedAt <$> od_tokens (ad_oidc st.2) !! "j1" = Some None.
Proof. vm_compute. done. Qed.

(** Two overlapping edits both set the app id of a client: the second replaces the first. *)
Lemma app_id_replaced :
  let '(answers, db') := serveAdmin AdminDemo.world
    [(1, RqUpdate (Some (AdminDemo.session "a")) (AdminDemo.edit "one")); (1, RqUpdate (Some (AdminDemo.session "b")) (AdminDemo.edit "two"))]
    ([0; 0; 0; 1; 1; 1] ++ [0; 0; 1; 1])%nat AdminDemo.db in
  let first := (pool_run ([0; 0; 0; 1; 1; 1] ++ [0; 0])%nat (handleAdmin AdminDemo.world <$>
    [(1, RqUpdate (Some (AdminDemo.session "a")) (AdminDemo.edit "one")); (1, RqUpdate (Some (AdminDemo.session "b")) (AdminDemo.edit "two"))], AdminDemo.db)).2 in
  answers = [AOk tt; AOk tt] ∧
  oc_anonAppId <$> od_clients (ad_oidc first) !! "rp" = Some (Some "one") ∧ oc_anonAppId <$> od_clients (ad_oidc db') !! "rp" = Some (Some "two").
Proof. vm_compute. done. Qed.

Lemma ban_shuts_out_witness :
  let db' := (run_solo (setUserBanned AdminDemo.world 1500 (Some (AdminDemo.session "a")) AdminDemo.ban) AdminDemo.db).2 in
  let after := (serveAdmin AdminDemo.world [(1600, RqBan (Some (AdminDemo.session "b")) AdminDemo.unban)] [0; 0; 0]%nat db').2 in
  u_isBanned <$> ad_users after !! "u" = Some false ∧
  getCurrentSession (Some (AdminDemo.session "u")) (ad_users AdminDemo.db) = Some (AdminDemo.session "u") ∧
  getCurrentSession (Some (AdminDemo.session "u")) (ad_users after) = None.
Proof.
  intros db' after. split; [by vm_compute|]. split; [by vm_compute|].
  apply (ban_shuts_out AdminDemo.world 1500 (Some (AdminDemo.session "a")) AdminDemo.ban [("userId", JStr "u"); ("banned", JBool true)]
    AdminDemo.db db' (AdminDemo.flags false) (AdminDemo.session "u") [(1600, RqBan (Some (AdminDemo.session "b")) AdminDemo.unban)] [0; 0; 0]%nat).
  - by vm_compute.
  - by vm_compute.
  - by vm_compute.
  - by vm_compute.
  - done.
  - vm_compute. congruence.
Defined.

Lemma clients_stay_valid_witness :
  let before := with_rowIds ∅ (with_oidc (set_clients ∅ demo_odb) AdminDemo.db) in
  let after := (serveAdmin AdminDemo.world
    [(1, RqCreate (Some (AdminDemo.session "a")) "r2" [0; 1; 2] [3; 4; 5] (AdminDemo.edit "one"))] [0; 0; 0; 0]%nat before).2 in
  oc_redirectUris <$> od_clients (ad_oidc after) !! "mc_AAEC" = Some ["https://rp/cb"] ∧ ClientsOk AdminDemo.world after.
Proof.
  intros before after. split; [by vm_compute|].
  apply (clients_stay_valid AdminDemo.world [(1, RqCreate (Some (AdminDemo.session "a")) "r2" [0; 1; 2] [3; 4; 5] (AdminDemo.edit "one"))]
    [0; 0; 0; 0]%nat before).
  split.
  - intros id c Hc. change ((∅ : gmap string OidcClient) !! id = Some c) in Hc. by rewrite lookup_empty in Hc.
  - intros id1 id2 c1 c2 a Hc. change ((∅ : gmap string OidcClient) !! id1 = Some c1) in Hc. by rewrite lookup_empty in Hc.
Defined.
