(* ===== verification/Groups.v ===== *)
(** * Groups (server/group-actions.ts, server/group-permissions.ts, lib/group-roles.ts,
    lib/reserved-slugs.ts, lib/user-sybil-bucket.ts)

    A user with a strong enough account founds a group under a unique slug; the owner and the
    admins manage the members, each of whom holds a revocable badge anchored on the
    membership. Every action is a handler: its checks are separate reads, its writes one
    transaction, and handlers interleave between them. Ids are drawn by the database and never
    repeat: a draw that was used before is refused as a violated unique constraint. *)

From S2P Require Import Prelude Threads Matching Policy Selection RateLimit Registry Claims Vc Pairwise.
From S2P Require Import SybilScore Session SybilConfig OidcAuthorize Bitstring Interleave StatusList OidcFlow.
From S2P Require Import Disclosure Issuance.

Open Scope Z_scope.
Open Scope minister_scope.

(** ** Roles *)

Inductive GroupRole := RMember | RAdmin | ROwner.

#[export] Instance GroupRole_eq_dec : EqDecision GroupRole.
Proof. solve_decision. Defined.

Definition roleName (r : GroupRole) : string :=
  match r with RMember => "member" | RAdmin => "admin" | ROwner => "owner" end.

Definition roleRank (r : GroupRole) : Z := match r with RMember => 1 | RAdmin => 2 | ROwner => 3 end.
Definition roleAtLeast (role floor : GroupRole) : bool := roleRank floor <=? roleRank role.

(** ** Slugs *)

Definition RESERVED_GROUP_SLUGS : list string :=
  ["admin"; "api"; "app"; "apps"; "auth"; "oidc"; "login"; "logout"; "signin"; "signout"; "settings"; "profile";
   "account"; "u"; "user"; "users"; "badge"; "badges"; "group"; "groups"; "share"; "shares"; "new"; "well-known";
   "static"; "assets"; "public"; "help"; "support"; "about"; "terms"; "privacy"; "security"; "status"; "docs";
   "blog"; "root"; "system"; "null"; "undefined";
   "minister"; "ministry"; "official"; "verified"; "ethereum"; "bitcoin"; "openai"; "google"; "apple"; "microsoft";
   "amazon"; "meta"; "facebook"; "twitter"; "discord"; "github"].

Definition isReservedGroupSlug (slug : string) : bool := bool_decide (toLowerCase slug ∈ RESERVED_GROUP_SLUGS).

Definition SLUG_TOMBSTONE_DAYS : Z := 30.
Definition SLUG_TOMBSTONE_MS : Z := SLUG_TOMBSTONE_DAYS * 24 * 60 * 60 * 1000.

Definition SlugSchema (raw : string) : result string string :=
  let s := toLowerCase (trim raw) in
  if Nat.ltb (String.length s) 3 then Err "Group name must be at least 3 characters."
  else if Nat.ltb 32 (String.length s) then Err "Group name must be at most 32 characters."
  else if SLUG_RE s then Ok s else Err "Use lowercase letters, numbers, and single hyphens only.".

(** ** Tables *)

Record GroupRow := {
  gr_slug : string;
  gr_displayName : string;
  gr_description : option string;
  gr_ownerUserId : string;
  gr_verified : bool;
}.

Record MembershipRow := { gm_id : string; gm_role : GroupRole; gm_addedBy : option string }.

(** Groups by id, memberships by (groupId, userId), slug tombstones by slug, and the ids of
    groups and memberships drawn so far. *)
Record GroupDB := {
  gd_users : gmap string UserFlags;
  gd_groups : gmap string GroupRow;
  gd_members : gmap (string * string) MembershipRow;
  gd_slugTombstones : gmap string Z;
  gd_config : option GroupConfigValues;
  gd_tables : BadgeTables;
  gd_status : DB;
  gd_born : gset string;
}.

Definition with_groups (m : gmap string GroupRow) (db : GroupDB) : GroupDB :=
  {| gd_users := gd_users db; gd_groups := m; gd_members := gd_members db; gd_slugTombstones := gd_slugTombstones db;
     gd_config := gd_config db; gd_tables := gd_tables db; gd_status := gd_status db; gd_born := gd_born db |}.
Definition with_members (m : gmap (string * string) MembershipRow) (db : GroupDB) : GroupDB :=
  {| gd_users := gd_users db; gd_groups := gd_groups db; gd_members := m; gd_slugTombstones := gd_slugTombstones db;
     gd_config := gd_config db; gd_tables := gd_tables db; gd_status := gd_status db; gd_born := gd_born db |}.
Definition with_slugTombstones (m : gmap string Z) (db : GroupDB) : GroupDB :=
  {| gd_users := gd_users db; gd_groups := gd_groups db; gd_members := gd_members db; gd_slugTombstones := m;
     gd_config := gd_config db; gd_tables := gd_tables db; gd_status := gd_status db; gd_born := gd_born db |}.
Definition with_tables (t : BadgeTables) (db : GroupDB) : GroupDB :=
  {| gd_users := gd_users db; gd_groups := gd_groups db; gd_members := gd_members db;
     gd_slugTombstones := gd_slugTombstones db; gd_config := gd_config db; gd_tables := t; gd_status := gd_status db;
     gd_born := gd_born db |}.
Definition with_status (s : DB) (db : GroupDB) : GroupDB :=
  {| gd_users := gd_users db; gd_groups := gd_groups db; gd_members := gd_members db;
     gd_slugTombstones := gd_slugTombstones db; gd_config := gd_config db; gd_tables := gd_tables db; gd_status := s;
     gd_born := gd_born db |}.
Definition with_born (s : gset string) (db : GroupDB) : GroupDB :=
  {| gd_users := gd_users db; gd_groups := gd_groups db; gd_members := gd_members db;
     gd_slugTombstones := gd_slugTombstones db; gd_config := gd_config db; gd_tables := gd_tables db;
     gd_status := gd_status db; gd_born := s |}.
Definition auditGroup (userId action detail : string) (db : GroupDB) : GroupDB :=
  with_tables (addAudit (Some userId) action detail (gd_tables db)) db.

Record GroupWorld := {
  gw_vc : VcWorld;
  gw_isEmail : string → bool;
  gw_isCuid : string → bool;
  gw_zod : string → string;
  gw_jitter : nat → Z;
}.

(** The result of an action: a thrown error is [Err], a refusal is [Ok (Err _)]. *)
Abbreviation action A := (thread GroupDB (result string (result string A))).

Definition refuse {A} (msg : string) : action A := mret (Ok (Err msg)).

Section Actions.
Context (w : GroupWorld) (now : Z).

(** ** Helpers *)

Definition groupMembershipBadge (slug : string) (role : GroupRole) (groupId : string) : BadgeToIssue :=
  let claim := [("group", JStr slug); ("role", JStr (roleName role)); ("groupId", JStr groupId)] in
  {| bi_type := GROUP_MEMBERSHIP_BADGE_TYPE; bi_attributes := claim; bi_claims := claim; bi_expiresAt := None;
     bi_eligibilities := [] |}.

Definition requireGroupSession (auth : option Session) : thread GroupDB (result string Session) :=
  read (fun db => match requireSession auth (gd_users db) with Ok s => Ok s | Err _ => Err "Not signed in" end).

(** The acting user's role and the group, or the permission error's message. *)
Definition requireGroupRole (groupId userId : string) (minRole : GroupRole) (db : GroupDB) :
    result string (GroupRole * GroupRow) :=
  match gd_members db !! (groupId, userId), gd_groups db !! groupId with
  | Some m, Some g =>
      if roleAtLeast (gm_role m) minRole then Ok (gm_role m, g)
      else Err "You do not have permission to perform this action on this group."
  | _, _ => Err "You are not a member of this group."
  end.

(** Run with the role, or answer its refusal. *)
Definition withRole {A} (groupId userId : string) (minRole : GroupRole) (k : GroupRole * GroupRow → action A) : action A :=
  ctx ← read (requireGroupRole groupId userId minRole);
  match ctx with Ok ctx => k ctx | Err msg => refuse msg end.

(** The badge of a new membership, in the caller's transaction. *)
Definition issueMembership (userId slug : string) (role : GroupRole) (groupId membershipId badgeId : string) (db : GroupDB) :
    result IssueError GroupDB :=
  match issueBadge (gw_vc w) (gw_isEmail w) now (fun u => bool_decide (gd_users db !! u ≠ None)) badgeId userId None
          (groupMembershipBadge slug role groupId) None None (Some (groupMembershipAnchor membershipId)) (gd_tables db) with
  | (Ok _, t) => Ok (with_tables t db)
  | (Err e, _) => Err e
  end.

(** A transaction: its result, and the database it leaves (unchanged when it throws). *)
Definition transaction {E A} (f : GroupDB → result E (A * GroupDB)) (db : GroupDB) : result E A * GroupDB :=
  match f db with Ok (a, db') => (Ok a, db') | Err e => (Err e, db) end.

(** [groupMembership.create] *)
Definition createMembership (groupId userId membershipId : string) (role : GroupRole) (addedBy : string) (db : GroupDB) :
    result IssueError GroupDB :=
  if bool_decide (membershipId ∈ gd_born db) || bool_decide (gd_members db !! (groupId, userId) ≠ None) then Err P2002
  else if bool_decide (gd_groups db !! groupId = None) || bool_decide (gd_users db !! userId = None) then Err NoSuchUser
  else Ok (with_born ({[membershipId]} ∪ gd_born db)
             (with_members (<[(groupId, userId) := {| gm_id := membershipId; gm_role := role; gm_addedBy := Some addedBy |}]>
                (gd_members db)) db)).

(** ** Founding *)

Record CreateGroupInput := { cg_slug : string; cg_displayName : string; cg_description : option string }.

Definition parseDisplayName (raw : string) : result string string :=
  let s := trim raw in
  if bool_decide (s = "") then Err "A display name is required."
  else if Nat.ltb 80 (String.length s) then Err (gw_zod w "displayName") else Ok s.

Definition parseDescription (raw : option string) : result string (option string) :=
  match raw with
  | None => Ok None
  | Some raw => let s := trim raw in
                if Nat.ltb 500 (String.length s) then Err (gw_zod w "description") else Ok (Some s)
  end.

Definition parseCreateGroup (input : CreateGroupInput) : result string (string * string * option string) :=
  slug ← SlugSchema (cg_slug input);
  displayName ← parseDisplayName (cg_displayName input);
  description ← parseDescription (cg_description input);
  Ok (slug, displayName, description).

Definition slugTaken (slug : string) (db : GroupDB) : bool :=
  existsb (fun '(_, g) => bool_decide (gr_slug g = slug)) (map_to_list (gd_groups db)).

Definition ownedCount (userId : string) (db : GroupDB) : Z :=
  Z.of_nat (length (filter (fun e => gr_ownerUserId e.2 = userId) (map_to_list (gd_groups db)))).

(** [computeUserSybilBucket]; [None] is the throw of an unloadable configuration. *)
Definition computeUserSybilBucket (config : option SybilScoringConfig) (userId : string) (db : GroupDB) : option Z :=
  config ← config;
  Some (bucket (sybilScore config now (vw_did (gw_vc w))
    (map (fun r => toScorable (bg_row r)) (filter (fun r => br_userId (bg_row r) = userId) (bt_badges (gd_tables db)))))).

(** The ids the founding transaction draws. *)
Record Draws := { dr_groupId : string; dr_membershipId : string; dr_badgeId : string }.

(** The founding transaction. *)
Definition foundGroup (userId slug displayName : string) (description : option string) (d : Draws) (db : GroupDB) :
    result IssueError (string * GroupDB) :=
  if slugTaken slug db || bool_decide (dr_groupId d ∈ gd_born db) then Err P2002
  else if bool_decide (gd_users db !! userId = None) then Err NoSuchUser
  else
    let db1 := with_born ({[dr_groupId d]} ∪ gd_born db)
                 (with_groups (<[dr_groupId d := {| gr_slug := slug; gr_displayName := displayName; gr_description := description;
                                                    gr_ownerUserId := userId; gr_verified := false |}]> (gd_groups db)) db) in
    db2 ← createMembership (dr_groupId d) userId (dr_membershipId d) ROwner userId db1;
    db3 ← issueMembership userId slug ROwner (dr_groupId d) (dr_membershipId d) (dr_badgeId d) db2;
    let db4 := with_slugTombstones (delete slug (gd_slugTombstones db3)) db3 in
    Ok (dr_groupId d, auditGroup userId "group.created" (dr_groupId d) db4).

Definition createGroup (auth : option Session) (config : option SybilScoringConfig) (d : Draws) (input : CreateGroupInput) :
    action (string * string) :=
  session ←! requireGroupSession auth;
  let userId := s_userId session in
  match parseCreateGroup input with
  | Err e => refuse e
  | Ok (slug, displayName, description) =>
      if isReservedGroupSlug slug then refuse "That group name is reserved and can't be used."
      else
        existing ← read (slugTaken slug);
        if (existing : bool) then refuse "That group name is already taken."
        else
          tombstone ← read (fun db => gd_slugTombstones db !! slug);
          if match tombstone with Some deletedAt => now - deletedAt <? SLUG_TOMBSTONE_MS | None => false end
          then refuse "That group name was recently used and isn't available yet. Please choose another."
          else
            limits ← read gd_config;
            match limits with
            | None => refuse "Group founding is temporarily unavailable. Try again later."
            | Some limits =>
                owned ← read (ownedCount userId);
                if maxOwnedGroups limits <=? owned then refuse ("You already own the maximum of " +:+ pretty (maxOwnedGroups limits) +:+ " groups. Delete or transfer one to free a slot.")
                else
                  bucket ← read (computeUserSybilBucket config userId);
                  match bucket with
                  | None => refuse "Couldn't verify your account strength. Try again later."
                  | Some bucket =>
                      if bucket <? foundingMinBucket limits
                      then refuse ("Founding a group needs a stronger account (strength " +:+ pretty (foundingMinBucket limits) +:+ "+). Add more verifications first.")
                      else
                        founded ← act (transaction (foundGroup userId slug displayName description d));
                        mret (match founded with
                              | Ok groupId => Ok (Ok (groupId, slug))
                              | Err P2002 => Ok (Err "That group name is already taken.")
                              | Err _ => Err "createGroup"
                              end)
                  end
            end
  end.

(** ** Owner-only lifecycle *)

(** [revokeStatusAnchor] for each membership of a group, in the caller's transaction. *)
Definition revokeAnchors (reason actor : string) (ids : list string) (s : DB) : DB :=
  foldl (fun s id => (revokeStatusAnchor now (gw_jitter w) (groupMembershipAnchor id) reason (Some actor) s).2) s ids.

Definition membershipsOf (groupId : string) (m : gmap (string * string) MembershipRow) : list ((string * string) * MembershipRow) :=
  filter (fun e => e.1.1 = groupId) (map_to_list m).

Definition deleteGroupTx (groupId slug actor : string) (db : GroupDB) : result string (unit * GroupDB) :=
  let ids := map (fun e => gm_id e.2) (membershipsOf groupId (gd_members db)) in
  match gd_groups db !! groupId with
  | None => Err "Record to delete does not exist"
  | Some _ =>
      let db1 := with_status (revokeAnchors "group.deleted" actor ids (gd_status db)) db in
      let db2 := with_members (filter (fun e => e.1.1 ≠ groupId) (gd_members db1))
                   (with_groups (delete groupId (gd_groups db1)) db1) in
      let db3 := with_slugTombstones (<[slug := now]> (gd_slugTombstones db2)) db2 in
      Ok (tt, auditGroup actor "group.deleted" groupId db3)
  end.

(** A transaction whose errors are thrown. *)
Definition throwing (f : GroupDB → result string (unit * GroupDB)) : action unit :=
  done ← act (transaction f);
  mret (match done with Ok _ => Ok (Ok tt) | Err e => Err e end).

Definition deleteGroup (auth : option Session) (groupId : string) : action unit :=
  session ←! requireGroupSession auth;
  if negb (gw_isCuid w groupId) then refuse (gw_zod w "groupId")
  else withRole groupId (s_userId session) ROwner (fun ctx =>
    throwing (deleteGroupTx groupId (gr_slug ctx.2) (s_userId session))).

Definition updateGroup (groupId actor : string) (f : GroupRow → GroupRow) (auditAction : string) (db : GroupDB) :
    result string (unit * GroupDB) :=
  match gd_groups db !! groupId with
  | None => Err "Record to update not found"
  | Some g => Ok (tt, auditGroup actor auditAction groupId (with_groups (<[groupId := f g]> (gd_groups db)) db))
  end.

Definition setDisplayName (name : string) (g : GroupRow) : GroupRow :=
  {| gr_slug := gr_slug g; gr_displayName := name; gr_description := gr_description g; gr_ownerUserId := gr_ownerUserId g;
     gr_verified := gr_verified g |}.
Definition setDescription (d : option string) (g : GroupRow) : GroupRow :=
  {| gr_slug := gr_slug g; gr_displayName := gr_displayName g; gr_description := d; gr_ownerUserId := gr_ownerUserId g;
     gr_verified := gr_verified g |}.

Definition renameGroup (auth : option Session) (groupId displayName : string) : action unit :=
  session ←! requireGroupSession auth;
  if negb (gw_isCuid w groupId) then refuse (gw_zod w "groupId")
  else match parseDisplayName displayName with
       | Err e => refuse e
       | Ok displayName =>
           withRole groupId (s_userId session) ROwner (fun _ =>
             throwing (updateGroup groupId (s_userId session) (setDisplayName displayName) "group.renamed"))
       end.

Definition editGroup (auth : option Session) (groupId : string) (description : option string) : action unit :=
  session ←! requireGroupSession auth;
  if negb (gw_isCuid w groupId) then refuse (gw_zod w "groupId")
  else match parseDescription description with
       | Err e => refuse e
       | Ok description =>
           withRole groupId (s_userId session) ROwner (fun _ =>
             throwing (updateGroup groupId (s_userId session) (setDescription description) "group.edited"))
       end.

(** ** Membership *)

Definition addMemberTx (groupId slug targetUserId : string) (role : GroupRole) (actor membershipId badgeId : string) (db : GroupDB) :
    result IssueError (unit * GroupDB) :=
  db1 ← createMembership groupId targetUserId membershipId role actor db;
  db2 ← issueMembership targetUserId slug role groupId membershipId badgeId db1;
  Ok (tt, auditGroup actor "group.member_added" groupId db2).

(** The assignable roles: [true] grants admin. *)
Definition assignedRole (makeAdmin : bool) : GroupRole := if makeAdmin then RAdmin else RMember.

Definition addMember (auth : option Session) (groupId targetUserId : string) (makeAdmin : bool) (membershipId badgeId : string) :
    action unit :=
  session ←! requireGroupSession auth;
  if negb (gw_isCuid w groupId && gw_isCuid w targetUserId) then refuse (gw_zod w "groupId")
  else withRole groupId (s_userId session) RAdmin (fun ctx =>
    if makeAdmin && bool_decide (ctx.1 ≠ ROwner) then refuse "Only the group owner can grant the admin role."
    else
      targetUser ← read (fun db => bool_decide (gd_users db !! targetUserId ≠ None));
      if negb targetUser then refuse "No such user."
      else
        already ← read (fun db => bool_decide (gd_members db !! (groupId, targetUserId) ≠ None));
        if (already : bool) then refuse "That user is already a member of this group."
        else
          added ← act (transaction (addMemberTx groupId (gr_slug ctx.2) targetUserId (assignedRole makeAdmin) (s_userId session)
                                     membershipId badgeId));
          mret (match added with
                | Ok _ => Ok (Ok tt)
                | Err P2002 => Ok (Err "That user is already a member of this group.")
                | Err _ => Err "addMember"
                end)).

Definition removeMemberTx (groupId targetUserId membershipId actor : string) (db : GroupDB) : result string (unit * GroupDB) :=
  match gd_members db !! (groupId, targetUserId) with
  | None => Err "Record to delete does not exist"
  | Some _ =>
      let db1 := with_members (delete (groupId, targetUserId) (gd_members db)) db in
      let db2 := with_status (revokeAnchors "group.member_removed" actor [membershipId] (gd_status db1)) db1 in
      Ok (tt, auditGroup actor "group.member_removed" groupId db2)
  end.

Definition removeMember (auth : option Session) (groupId targetUserId : string) : action unit :=
  session ←! requireGroupSession auth;
  if negb (gw_isCuid w groupId && gw_isCuid w targetUserId) then refuse (gw_zod w "groupId")
  else withRole groupId (s_userId session) RAdmin (fun ctx =>
    target ← read (fun db => gd_members db !! (groupId, targetUserId));
    match target with
    | None => refuse "That user is not a member of this group."
    | Some target =>
        if bool_decide (gm_role target = ROwner)
        then refuse "The group owner can't be removed. Transfer ownership or delete the group."
        else if bool_decide (gm_role target = RAdmin) && bool_decide (ctx.1 ≠ ROwner)
        then refuse "Only the group owner can remove an admin."
        else throwing (removeMemberTx groupId targetUserId (gm_id target) (s_userId session))
    end).

Definition setRoleTx (groupId targetUserId : string) (role : GroupRole) (actor : string) (db : GroupDB) : result string (unit * GroupDB) :=
  match gd_members db !! (groupId, targetUserId) with
  | None => Err "Record to update not found"
  | Some m =>
      Ok (tt, auditGroup actor "group.member_role_changed" groupId
                (with_members (<[(groupId, targetUserId) := {| gm_id := gm_id m; gm_role := role; gm_addedBy := gm_addedBy m |}]>
                   (gd_members db)) db))
  end.

Definition setMemberRole (auth : option Session) (groupId targetUserId : string) (makeAdmin : bool) : action unit :=
  session ←! requireGroupSession auth;
  if negb (gw_isCuid w groupId && gw_isCuid w targetUserId) then refuse (gw_zod w "groupId")
  else withRole groupId (s_userId session) ROwner (fun _ =>
    target ← read (fun db => gd_members db !! (groupId, targetUserId));
    match target with
    | None => refuse "That user is not a member of this group."
    | Some target =>
        if bool_decide (gm_role target = ROwner) then refuse "The owner's role can't be changed here."
        else if bool_decide (gm_role target = assignedRole makeAdmin) then mret (Ok (Ok tt))
        else throwing (setRoleTx groupId targetUserId (assignedRole makeAdmin) (s_userId session))
    end).

End Actions.

(** ** Requests *)

Inductive GroupRequest :=
  | GCreate (auth : option Session) (config : option SybilScoringConfig) (d : Draws) (input : CreateGroupInput)
  | GDelete (auth : option Session) (groupId : string)
  | GRename (auth : option Session) (groupId displayName : string)
  | GEdit (auth : option Session) (groupId : string) (description : option string)
  | GAdd (auth : option Session) (groupId targetUserId : string) (makeAdmin : bool) (membershipId badgeId : string)
  | GRemove (auth : option Session) (groupId targetUserId : string)
  | GSetRole (auth : option Session) (groupId targetUserId : string) (makeAdmin : bool).

(** The answer without its payload: the error thrown, the refusal, or success. *)
Definition outcomeOf {A} (r : result string (result string A)) : result string (result string unit) :=
  match r with Ok (Ok _) => Ok (Ok tt) | Ok (Err e) => Ok (Err e) | Err e => Err e end.

Definition handleGroup (w : GroupWorld) (now : Z) (rq : GroupRequest) : action unit :=
  match rq with
  | GCreate auth config d input => r ← createGroup w now auth config d input; mret (outcomeOf r)
  | GDelete auth groupId => deleteGroup w now auth groupId
  | GRename auth groupId displayName => renameGroup w auth groupId displayName
  | GEdit auth groupId description => editGroup w auth groupId description
  | GAdd auth groupId targetUserId makeAdmin membershipId badgeId =>
      addMember w now auth groupId targetUserId makeAdmin membershipId badgeId
  | GRemove auth groupId targetUserId => removeMember w now auth groupId targetUserId
  | GSetRole auth groupId targetUserId makeAdmin => setMemberRole w auth groupId targetUserId makeAdmin
  end.

(** Requests, each with its clock, under a schedule. *)
Definition serveGroups (w : GroupWorld) (rqs : list (Z * GroupRequest)) (sched : list nat) (db : GroupDB) :=
  pool_run sched (map (fun '(now, rq) => handleGroup w now rq) rqs, db).

(** One request after the other. *)
Definition runGroups (w : GroupWorld) (rqs : list (Z * GroupRequest)) (db : GroupDB) : GroupDB :=
  foldl (fun db '(now, rq) => (run_solo (handleGroup w now rq) db).2) db rqs.
