(* ===== verification/GroupProofs.v ===== *)
(** * Groups: properties *)

From S2P Require Import Prelude Threads Matching Policy Selection RateLimit Registry Claims Vc Pairwise.
From S2P Require Import SybilScore Session SybilConfig OidcAuthorize Bitstring Interleave StatusList OidcFlow.
From S2P Require Import Disclosure Issuance Groups.

Open Scope Z_scope.
Open Scope minister_scope.

(** ** The invariant *)

(** Every group has exactly one owner, the user its row names; memberships belong to groups;
    slugs and membership ids are unique, and every id in use was drawn. *)
Record groups_ok (db : GroupDB) : Prop := {
  go_owner : ∀ g r, gd_groups db !! g = Some r → ∃ m, gd_members db !! (g, gr_ownerUserId r) = Some m ∧ gm_role m = ROwner;
  go_member : ∀ g u m, gd_members db !! (g, u) = Some m →
    ∃ r, gd_groups db !! g = Some r ∧ (gm_role m = ROwner → u = gr_ownerUserId r);
  go_slug : ∀ g g' r r', gd_groups db !! g = Some r → gd_groups db !! g' = Some r' → gr_slug r = gr_slug r' → g = g';
  go_born : ∀ g r, gd_groups db !! g = Some r → g ∈ gd_born db;
  go_drawn : ∀ k m, gd_members db !! k = Some m → gm_id m ∈ gd_born db;
  go_ids : ∀ k k' m m', gd_members db !! k = Some m → gd_members db !! k' = Some m' → gm_id m = gm_id m' → k = k';
}.

(** What no action changes: an id is drawn once, a group keeps its slug and owner until it is
    deleted, and is never back. *)
Record group_step (db db' : GroupDB) : Prop := {
  gs_born : gd_born db ⊆ gd_born db';
  gs_dead : ∀ g, g ∈ gd_born db → gd_groups db !! g = None → gd_groups db' !! g = None;
  gs_same : ∀ g r, g ∈ gd_born db → gd_groups db !! g = Some r → gd_groups db' !! g = None ∨
    ∃ r', gd_groups db' !! g = Some r' ∧ gr_slug r' = gr_slug r ∧ gr_ownerUserId r' = gr_ownerUserId r;
}.

#[export] Instance group_step_preorder : PreOrder group_step.
Proof.
  split; [split; [done|done|eauto]|]. intros a b c [B1 D1 S1] [B2 D2 S2]. split; [set_solver|eauto|].
  intros g r Hg Hr. destruct (S1 g r Hg Hr) as [Hn|(r1 & Hr1 & Hs1 & Ho1)]; [left; apply D2; [set_solver|done]|].
  destruct (S2 g r1) as [Hn|(r2 & Hr2 & Hs2 & Ho2)]; [set_solver|done|by left|]. right. exists r2. split_and!; [done|congruence..].
Qed.

(** Actions that touch neither groups, memberships nor drawn ids. *)
Lemma same_groups_ok db db' :
  gd_groups db' = gd_groups db → gd_members db' = gd_members db → gd_born db' = gd_born db →
  groups_ok db → groups_ok db' ∧ group_step db db'.
Proof. intros Hg Hm Hb []. split; split; rewrite ?Hg, ?Hm, ?Hb; eauto. Qed.

(** ** Transactions *)

Lemma createMembership_ok g u mid role by_ db db' :
  createMembership g u mid role by_ db = Ok db' →
  (mid ∉ gd_born db) ∧ gd_members db !! (g, u) = None ∧ is_Some (gd_groups db !! g) ∧ is_Some (gd_users db !! u) ∧
  db' = with_born ({[mid]} ∪ gd_born db)
          (with_members (<[(g, u) := {| gm_id := mid; gm_role := role; gm_addedBy := Some by_ |}]> (gd_members db)) db).
Proof.
  unfold createMembership. destruct (bool_decide (mid ∈ gd_born db)) eqn:E1; [done|].
  destruct (bool_decide (gd_members db !! (g, u) ≠ None)) eqn:E2; [done|]. cbn [orb].
  destruct (bool_decide (gd_groups db !! g = None)) eqn:E3; [done|]. cbn [orb].
  destruct (bool_decide (gd_users db !! u = None)) eqn:E4; [done|]. bool_hyps. intros [= <-].
  split_and!; [done| |by apply not_eq_None_Some|by apply not_eq_None_Some|done].
  destruct (gd_members db !! (g, u)); [|done]. by destruct E2.
Qed.

(** Adding a membership that is not an owner's. *)
Lemma createMembership_keeps g u mid role by_ db db' :
  role ≠ ROwner → createMembership g u mid role by_ db = Ok db' → groups_ok db → groups_ok db' ∧ group_step db db'.
Proof.
  intros Hrole (Hmid & Hnone & [r Hr] & _ & ->)%createMembership_ok [Hown Hmem Hslug Hborn Hdrawn Hids]. split; split; cbn.
  - intros g0 r0 H0. destruct (Hown g0 r0 H0) as (m & Hm & Hmr). exists m. split; [|done].
    rewrite lookup_insert_ne; [done|]. intros [= -> ->]. congruence.
  - intros g0 u0 m [[[= <- <-] <-]|[Hne Hm]]%lookup_insert_Some; [|by eapply Hmem]. exists r. by split.
  - done.
  - intros g0 r0 H0. apply elem_of_union_r. by eapply Hborn.
  - intros k m [[<- <-]|[Hne Hm]]%lookup_insert_Some; [by apply elem_of_union_l, elem_of_singleton|]. apply elem_of_union_r. by eapply Hdrawn.
  - intros k k' m m' [[<- <-]|[Hne Hm]]%lookup_insert_Some [[<- <-]|[Hne' Hm']]%lookup_insert_Some Heq; [done| | |by eapply Hids].
    + cbn in Heq. destruct Hmid. rewrite Heq. by eapply Hdrawn.
    + cbn in Heq. destruct Hmid. rewrite <-Heq. by eapply Hdrawn.
  - intros x Hx. by apply elem_of_union_r.
  - done.
  - eauto.
Qed.

Lemma issueMembership_frame w now u slug role g mid bid db db' :
  issueMembership w now u slug role g mid bid db = Ok db' → ∃ t, db' = with_tables t db.
Proof. unfold issueMembership. destruct (issueBadge _ _ _ _ _ _ _ _ _ _ _ _) as [[i|e] t]; [intros [= <-]; eauto|done]. Qed.

Lemma addMemberTx_keeps w now g slug u role actor mid bid db r :
  role ≠ ROwner → addMemberTx w now g slug u role actor mid bid db = Ok r → groups_ok db → groups_ok r.2 ∧ group_step db r.2.
Proof.
  intros Hrole H Hok. unfold addMemberTx in H. apply bind_Ok in H as (db1 & H1 & H). apply bind_Ok in H as (db2 & H2 & H).
  injection H as <-. apply issueMembership_frame in H2 as [t ->]. destruct (createMembership_keeps _ _ _ _ _ _ _ Hrole H1 Hok) as [Hok1 Hs].
  edestruct (same_groups_ok db1) as [Hok2 Hs2]; [| | | exact Hok1 |split; [exact Hok2|by etrans]]; done.
Qed.

Lemma foundGroup_keeps w now u slug name desc d db r :
  foundGroup w now u slug name desc d db = Ok r → groups_ok db → groups_ok r.2 ∧ group_step db r.2.
Proof.
  unfold foundGroup. destruct (slugTaken slug db) eqn:Es; [done|]. cbn [orb].
  destruct (bool_decide (dr_groupId d ∈ gd_born db)) eqn:Eg; [done|]. destruct (bool_decide (gd_users db !! u = None)); [done|].
  bool_hyps. intros H Hok. apply bind_Ok in H as (db2 & H2 & H). apply bind_Ok in H as (db3 & H3 & H). injection H as <-. cbn [snd].
  apply issueMembership_frame in H3 as [t ->]. apply createMembership_ok in H2 as (Hmid & Hnone & _ & _ & ->). cbn in Hmid, Hnone.
  destruct Hok as [Hown Hmem Hslug Hborn Hdrawn Hids].
  assert (gd_groups db !! dr_groupId d = None) as Hnew by (apply eq_None_not_Some; intros [r0 H0]; by apply Eg; eapply Hborn).
  assert (∀ g r, gd_groups db !! g = Some r → gr_slug r ≠ slug) as Hfree.
  { intros g r H0 Heq. eapply not_true_iff_false; [exact Es|]. apply existsb_exists. exists (g, r).
    split; [by apply list_elem_of_In, elem_of_map_to_list|]. by apply bool_decide_eq_true_2. }
  split; split; cbn.
  - intros g r [[<- <-]|[Hne Hr]]%lookup_insert_Some.
    + eexists. cbn. rewrite lookup_insert_eq. done.
    + destruct (Hown g r Hr) as (m & Hm & Hmr). exists m. split; [|done]. rewrite lookup_insert_ne; [done|]. congruence.
  - intros g u0 m [[[= <- <-] <-]|[Hne Hm]]%lookup_insert_Some.
    + eexists. rewrite lookup_insert_eq. split; [done|]. done.
    + destruct (Hmem g u0 m Hm) as (r & Hr & Ho). exists r. split; [|done]. rewrite lookup_insert_ne; [done|]. congruence.
  - intros g g' r r' [[<- <-]|[Hne Hr]]%lookup_insert_Some [[<- <-]|[Hne' Hr']]%lookup_insert_Some Heq; [done| | |by eapply Hslug].
    + by destruct (Hfree _ _ Hr').
    + by destruct (Hfree _ _ Hr).
  - intros g r [[<- <-]|[Hne Hr]]%lookup_insert_Some; rewrite !elem_of_union, !elem_of_singleton; [tauto|]. right. right. by eapply Hborn.
  - intros k m [[<- <-]|[Hne Hm]]%lookup_insert_Some; rewrite !elem_of_union, !elem_of_singleton; [by left|]. right. right. by eapply Hdrawn.
  - intros k k' m m' [[<- <-]|[Hne Hm]]%lookup_insert_Some [[<- <-]|[Hne' Hm']]%lookup_insert_Some Heq; [done| | |by eapply Hids]; cbn in Heq.
    + destruct Hmid. rewrite Heq. apply elem_of_union_r. by eapply Hdrawn.
    + destruct Hmid. rewrite <-Heq. apply elem_of_union_r. by eapply Hdrawn.
  - intros x Hx. rewrite !elem_of_union. tauto.
  - intros g Hg Hn. rewrite lookup_insert_ne; [done|]. intros <-. done.
  - intros g r Hg Hr. right. exists r. rewrite lookup_insert_ne; [done|]. intros <-. done.
Qed.

Lemma deleteGroupTx_keeps w now g slug actor db r :
  deleteGroupTx w now g slug actor db = Ok r → groups_ok db → groups_ok r.2 ∧ group_step db r.2.
Proof.
  unfold deleteGroupTx. destruct (gd_groups db !! g) as [gr|] eqn:Eg; [|done]. intros [= <-] [Hown Hmem Hslug Hborn Hdrawn Hids]. cbn [snd].
  split; split; cbn.
  - intros g0 r [Hne Hr]%lookup_delete_Some. destruct (Hown g0 r Hr) as (m & Hm & Hmr). exists m. split; [|done].
    by apply map_lookup_filter_Some_2.
  - intros g0 u m [Hm Hne]%map_lookup_filter_Some. cbn in Hne. destruct (Hmem g0 u m Hm) as (r & Hr & Ho). exists r.
    by rewrite lookup_delete_ne.
  - intros g0 g' r r' [_ Hr]%lookup_delete_Some [_ Hr']%lookup_delete_Some. by eapply Hslug.
  - intros g0 r [_ Hr]%lookup_delete_Some. by eapply Hborn.
  - intros k m [Hm _]%map_lookup_filter_Some. by eapply Hdrawn.
  - intros k k' m m' [Hm _]%map_lookup_filter_Some [Hm' _]%map_lookup_filter_Some. by eapply Hids.
  - done.
  - intros g0 _ Hn. apply lookup_delete_None. by right.
  - intros g0 r Hg Hr. destruct (decide (g0 = g)) as [->|]; [left; apply lookup_delete_eq|]. right. exists r. by rewrite lookup_delete_ne.
Qed.

Lemma updateGroup_keeps g actor f a db r :
  (∀ r, gr_slug (f r) = gr_slug r ∧ gr_ownerUserId (f r) = gr_ownerUserId r) →
  updateGroup g actor f a db = Ok r → groups_ok db → groups_ok r.2 ∧ group_step db r.2.
Proof.
  intros Hf. unfold updateGroup. destruct (gd_groups db !! g) as [gr|] eqn:Eg; [|done].
  intros [= <-] [Hown Hmem Hslug Hborn Hdrawn Hids]. cbn [snd]. destruct (Hf gr) as [Hs Ho].
  assert (∀ g0 r0, <[g := f gr]> (gd_groups db) !! g0 = Some r0 → ∃ r1, gd_groups db !! g0 = Some r1 ∧ gr_slug r0 = gr_slug r1 ∧
            gr_ownerUserId r0 = gr_ownerUserId r1) as Hback.
  { intros g0 r0 [[<- <-]|[Hne Hr]]%lookup_insert_Some; eauto. }
  split; split; cbn.
  - intros g0 r (r1 & Hr1 & _ & ->)%Hback. by apply Hown.
  - intros g0 u m Hm. destruct (Hmem g0 u m Hm) as (r & Hr & Howner). destruct (decide (g0 = g)) as [->|].
    + exists (f gr). rewrite lookup_insert_eq. split; [done|]. rewrite Ho. assert (r = gr) as -> by congruence. done.
    + exists r. by rewrite lookup_insert_ne.
  - intros g0 g' r r' (r1 & Hr1 & -> & _)%Hback (r2 & Hr2 & -> & _)%Hback. by eapply Hslug.
  - intros g0 r (r1 & Hr1 & _)%Hback. by eapply Hborn.
  - done.
  - done.
  - done.
  - intros g0 _ Hn. rewrite lookup_insert_ne; [done|]. congruence.
  - intros g0 r _ Hr. right. destruct (decide (g0 = g)) as [->|].
    + exists (f gr). rewrite lookup_insert_eq. split; [done|]. by assert (r = gr) as -> by congruence.
    + exists r. by rewrite lookup_insert_ne.
Qed.

(** A user that does not own a group, as a fact that lasts. *)
Definition not_owner (g u : string) (db : GroupDB) : Prop :=
  g ∈ gd_born db ∧ ∀ r, gd_groups db !! g = Some r → gr_ownerUserId r ≠ u.

Lemma not_owner_lasts g u db db' : not_owner g u db → group_step db db' → not_owner g u db'.
Proof.
  intros [Hb Hn] [B D S]. split; [set_solver|]. intros r' Hr'.
  destruct (gd_groups db !! g) as [r|] eqn:Er; [|by rewrite (D g Hb Er) in Hr'].
  destruct (S g r Hb Er) as [Hnone|(r1 & Hr1 & _ & Ho)]; [congruence|]. assert (r1 = r') as -> by congruence. rewrite Ho. by apply Hn.
Qed.

Lemma member_not_owner g u m db :
  groups_ok db → gd_members db !! (g, u) = Some m → gm_role m ≠ ROwner → not_owner g u db.
Proof.
  intros Hok Hm Hrole. destruct (go_member _ Hok _ _ _ Hm) as (r & Hr & _). split; [by eapply go_born|].
  intros r' Hr'. assert (r' = r) as -> by congruence. intros Heq.
  destruct (go_owner _ Hok _ _ Hr) as (m' & Hm' & Hr''). rewrite Heq in Hm'. congruence.
Qed.

Lemma removeMemberTx_keeps w now g u mid actor db r :
  not_owner g u db → removeMemberTx w now g u mid actor db = Ok r → groups_ok db → groups_ok r.2 ∧ group_step db r.2.
Proof.
  intros [_ Hno]. unfold removeMemberTx. destruct (gd_members db !! (g, u)) as [m|] eqn:Em; [|done].
  intros [= <-] [Hown Hmem Hslug Hborn Hdrawn Hids]. cbn [snd]. split; split; cbn; try done.
  - intros g0 r Hr. destruct (Hown g0 r Hr) as (m0 & Hm0 & Hmr). exists m0. split; [|done].
    rewrite lookup_delete_ne; [done|]. intros [= -> ->]. by eapply Hno.
  - intros g0 u0 m0 [_ Hm0]%lookup_delete_Some. by eapply Hmem.
  - intros k m0 [_ Hm0]%lookup_delete_Some. by eapply Hdrawn.
  - intros k k' m0 m' [_ Hm0]%lookup_delete_Some [_ Hm']%lookup_delete_Some. by eapply Hids.
  - eauto.
Qed.

Lemma setRoleTx_keeps g u role actor db r :
  role ≠ ROwner → not_owner g u db → setRoleTx g u role actor db = Ok r → groups_ok db → groups_ok r.2 ∧ group_step db r.2.
Proof.
  intros Hrole [_ Hno]. unfold setRoleTx. destruct (gd_members db !! (g, u)) as [m|] eqn:Em; [|done].
  intros [= <-] [Hown Hmem Hslug Hborn Hdrawn Hids]. cbn [snd].
  assert (∀ k m', <[(g, u) := {| gm_id := gm_id m; gm_role := role; gm_addedBy := gm_addedBy m |}]> (gd_members db) !! k = Some m' →
            ∃ m0, gd_members db !! k = Some m0 ∧ gm_id m' = gm_id m0 ∧ (gm_role m' = ROwner → gm_role m0 = ROwner)) as Hback.
  { intros k m' [[<- <-]|[Hne Hm]]%lookup_insert_Some; eauto. exists m. split_and!; [done|done|]. cbn. congruence. }
  split; split; cbn; try done.
  - intros g0 r Hr. destruct (Hown g0 r Hr) as (m0 & Hm0 & Hmr). exists m0. split; [|done].
    rewrite lookup_insert_ne; [done|]. intros [= -> ->]. by eapply Hno.
  - intros g0 u0 m0 (m1 & Hm1 & _ & Hr1)%Hback. destruct (Hmem _ _ _ Hm1) as (r & Hr & Ho). exists r. auto.
  - intros k m0 (m1 & Hm1 & -> & _)%Hback. by eapply Hdrawn.
  - intros k k' m0 m' (m1 & Hm1 & -> & _)%Hback (m2 & Hm2 & -> & _)%Hback. by eapply Hids.
  - eauto.
Qed.

(** ** Handlers *)

Abbreviation obeys := (follows groups_ok group_step (fun _ => True)).

Lemma obeys_tx {E A B} db0 (f : GroupDB → result E (A * GroupDB)) (k : result E A → B) :
  (∀ db r, groups_ok db → group_step db0 db → f db = Ok r → groups_ok r.2 ∧ group_step db r.2) →
  obeys db0 (x ← act (transaction f); mret (k x)).
Proof.
  intros Hf. apply follows_act. intros db Hok Hs. unfold transaction.
  destruct (f db) as [[a db']|e] eqn:Ef; cbn [fst snd]; [|done]. by destruct (Hf db (a, db') Hok Hs Ef).
Qed.

Lemma obeys_session {A} db0 auth (k : Session → action A) :
  (∀ session db, group_step db0 db → obeys db (k session)) → obeys db0 (session ←! requireGroupSession auth; k session).
Proof.
  intros Hk. unfold tbind, requireGroupSession. apply follows_read; [apply _|]. intros db _ Hs.
  destruct (requireSession auth (gd_users db)); [by apply Hk|done].
Qed.

Lemma obeys_role {A} db0 g u minRole (k : GroupRole * GroupRow → action A) :
  (∀ ctx db, groups_ok db → group_step db0 db → obeys db (k ctx)) → obeys db0 (withRole g u minRole k).
Proof.
  intros Hk. unfold withRole. apply follows_read; [apply _|]. intros db Hok Hs.
  destruct (requireGroupRole g u minRole db); [by apply Hk|done].
Qed.

Lemma assignedRole_not_owner b : assignedRole b ≠ ROwner.
Proof. by destruct b. Qed.

(** Reading a membership that is not the owner's, before a transaction on it. *)
Lemma obeys_target {A} db0 g u (k : option MembershipRow → action A) :
  (∀ db, obeys db (k None)) →
  (∀ m db, gm_role m = ROwner → obeys db (k (Some m))) →
  (∀ m db, not_owner g u db → obeys db (k (Some m))) →
  obeys db0 (target ← read (fun db => gd_members db !! (g, u)); k target).
Proof.
  intros Hnone Hown Hother. apply follows_read; [apply _|]. intros db Hok Hs.
  destruct (gd_members db !! (g, u)) as [m|] eqn:Em; [|done].
  destruct (decide (gm_role m = ROwner)); [by apply Hown|]. apply Hother. by eapply member_not_owner.
Qed.

Lemma handleGroup_obeys w now rq db : obeys db (handleGroup w now rq).
Proof.
  destruct rq as [auth config d input|auth g|auth g name|auth g desc|auth g u b mid bid|auth g u|auth g u b]; cbn [handleGroup].
  - apply follows_map, obeys_session. intros session db1 _.
    destruct (parseCreateGroup w input) as [[[slug name] desc]|e]; [|done]. destruct (isReservedGroupSlug slug); [done|].
    apply follows_read; [apply _|]. intros db2 _ _. destruct (slugTaken slug db2); [done|].
    apply follows_read; [apply _|]. intros db3 _ _. destruct (match gd_slugTombstones db3 !! slug with Some _ => _ | None => _ end); [done|].
    apply follows_read; [apply _|]. intros db4 _ _. destruct (gd_config db4) as [limits|]; [|done].
    apply follows_read; [apply _|]. intros db5 _ _. destruct (maxOwnedGroups limits <=? _); [done|].
    apply follows_read; [apply _|]. intros db6 _ _. destruct (computeUserSybilBucket _ _ _ _ _) as [bucket|]; [|done].
    destruct (bucket <? _); [done|]. apply obeys_tx. intros db' r Hok _ Hr. by eapply foundGroup_keeps.
  - apply obeys_session. intros session db1 _. destruct (negb _); [done|]. apply obeys_role. intros ctx db2 _ _.
    apply obeys_tx. intros db' r Hok _ Hr. by eapply deleteGroupTx_keeps.
  - apply obeys_session. intros session db1 _. destruct (negb _); [done|]. destruct (parseDisplayName w name); [|done].
    apply obeys_role. intros ctx db2 _ _. apply obeys_tx. intros db' r Hok _ Hr. eapply updateGroup_keeps; [|done..]. done.
  - apply obeys_session. intros session db1 _. destruct (negb _); [done|]. destruct (parseDescription w desc); [|done].
    apply obeys_role. intros ctx db2 _ _. apply obeys_tx. intros db' r Hok _ Hr. eapply updateGroup_keeps; [|done..]. done.
  - apply obeys_session. intros session db1 _. destruct (negb _); [done|]. apply obeys_role. intros ctx db2 _ _.
    destruct (b && _); [done|]. apply follows_read; [apply _|]. intros db3 _ _. destruct (negb _); [done|].
    apply follows_read; [apply _|]. intros db4 _ _. destruct (bool_decide _); [done|]. apply obeys_tx. intros db' r Hok _ Hr.
    eapply addMemberTx_keeps; [apply assignedRole_not_owner|done..].
  - apply obeys_session. intros session db1 _. destruct (negb _); [done|]. apply obeys_role. intros ctx db2 _ _.
    apply obeys_target; [done| |].
    + intros m db3 Hr. by rewrite bool_decide_eq_true_2.
    + intros m db3 Hno. destruct (bool_decide (gm_role m = ROwner)); [done|]. destruct (_ && _); [done|].
      apply obeys_tx. intros db' r Hok Hs Hr. eapply removeMemberTx_keeps; [|done..]. by eapply not_owner_lasts.
  - apply obeys_session. intros session db1 _. destruct (negb _); [done|]. apply obeys_role. intros ctx db2 _ _.
    apply obeys_target; [done| |].
    + intros m db3 Hr. by rewrite bool_decide_eq_true_2.
    + intros m db3 Hno. destruct (bool_decide (gm_role m = ROwner)); [done|]. destruct (bool_decide _); [done|].
      apply obeys_tx. intros db' r Hok Hs Hr. eapply setRoleTx_keeps; [apply assignedRole_not_owner| |done..]. by eapply not_owner_lasts.
Qed.

(** ** What an action commits

    The specification of the actions as a step relation on databases: who may take which step,
    and when. *)

Definition roleIn (db : GroupDB) (g u : string) : option GroupRole := gm_role <$> gd_members db !! (g, u).

Inductive commits (w : GroupWorld) (now : Z) (actor : string) : GroupRequest → GroupDB → GroupDB → Prop :=
  | commit_create auth config d input slug name desc limits b db db' :
      parseCreateGroup w input = Ok (slug, name, desc) → isReservedGroupSlug slug = false → slugTaken slug db = false →
      (∀ t, gd_slugTombstones db !! slug = Some t → SLUG_TOMBSTONE_MS <= now - t) →
      gd_config db = Some limits → ownedCount actor db < maxOwnedGroups limits →
      computeUserSybilBucket w now config actor db = Some b → foundingMinBucket limits <= b →
      foundGroup w now actor slug name desc d db = Ok (dr_groupId d, db') →
      commits w now actor (GCreate auth config d input) db db'
  | commit_delete auth g r db db' :
      gw_isCuid w g = true → roleIn db g actor = Some ROwner → gd_groups db !! g = Some r → deleteGroupTx w now g (gr_slug r) actor db = Ok (tt, db') →
      commits w now actor (GDelete auth g) db db'
  | commit_rename auth g raw name db db' :
      gw_isCuid w g = true → roleIn db g actor = Some ROwner → parseDisplayName w raw = Ok name →
      updateGroup g actor (setDisplayName name) "group.renamed" db = Ok (tt, db') →
      commits w now actor (GRename auth g raw) db db'
  | commit_edit auth g raw desc db db' :
      gw_isCuid w g = true → roleIn db g actor = Some ROwner → parseDescription w raw = Ok desc →
      updateGroup g actor (setDescription desc) "group.edited" db = Ok (tt, db') →
      commits w now actor (GEdit auth g raw) db db'
  | commit_add auth g u makeAdmin mid bid role r db db' :
      gw_isCuid w g && gw_isCuid w u = true → roleIn db g actor = Some role → roleAtLeast role RAdmin = true → (makeAdmin = true → role = ROwner) →
      gd_groups db !! g = Some r →
      addMemberTx w now g (gr_slug r) u (assignedRole makeAdmin) actor mid bid db = Ok (tt, db') →
      commits w now actor (GAdd auth g u makeAdmin mid bid) db db'
  | commit_remove auth g u m role db db' :
      gw_isCuid w g && gw_isCuid w u = true → roleIn db g actor = Some role → roleAtLeast role RAdmin = true → gd_members db !! (g, u) = Some m →
      gm_role m ≠ ROwner → (gm_role m = RAdmin → role = ROwner) →
      removeMemberTx w now g u (gm_id m) actor db = Ok (tt, db') →
      commits w now actor (GRemove auth g u) db db'
  | commit_role auth g u makeAdmin m db db' :
      gw_isCuid w g && gw_isCuid w u = true → roleIn db g actor = Some ROwner → gd_members db !! (g, u) = Some m →
      gm_role m ≠ ROwner → gm_role m ≠ assignedRole makeAdmin →
      setRoleTx g u (assignedRole makeAdmin) actor db = Ok (tt, db') →
      commits w now actor (GSetRole auth g u makeAdmin) db db'.

Definition authOf (rq : GroupRequest) : option Session :=
  match rq with
  | GCreate auth _ _ _ | GDelete auth _ | GRename auth _ _ | GEdit auth _ _ | GAdd auth _ _ _ _ _ | GRemove auth _ _
  | GSetRole auth _ _ _ => auth
  end.

(** An answer: a commit by the signed-in user, or no change. *)
Definition answers (w : GroupWorld) (now : Z) (rq : GroupRequest) (db : GroupDB) (out : result string (result string unit) * GroupDB) : Prop :=
  out.2 = db ∨
  out.1 = Ok (Ok tt) ∧ ∃ session, requireSession (authOf rq) (gd_users db) = Ok session ∧ commits w now (s_userId session) rq db out.2.

Lemma run_session {A} auth (k : Session → action A) db :
  run_solo (session ←! requireGroupSession auth; k session) db =
    match requireSession auth (gd_users db) with Ok s => run_solo (k s) db | Err _ => (Err "Not signed in", db) end.
Proof. rewrite run_solo_tbind. cbn. by destruct (requireSession auth (gd_users db)). Qed.

Lemma run_role {A} g u minRole (k : GroupRole * GroupRow → action A) db :
  run_solo (withRole g u minRole k) db =
    match requireGroupRole g u minRole db with Ok ctx => run_solo (k ctx) db | Err m => (Ok (Err m), db) end.
Proof. unfold withRole. rewrite run_solo_read. by destruct (requireGroupRole g u minRole db). Qed.

Lemma requireGroupRole_ok g u minRole db role r :
  requireGroupRole g u minRole db = Ok (role, r) →
  roleIn db g u = Some role ∧ gd_groups db !! g = Some r ∧ roleAtLeast role minRole = true.
Proof.
  unfold requireGroupRole, roleIn. destruct (gd_members db !! (g, u)) as [m|]; [|done].
  destruct (gd_groups db !! g) as [gr|]; [|done]. destruct (roleAtLeast (gm_role m) minRole) eqn:E; [|done]. by intros [= <- <-].
Qed.

Lemma owner_floor role : roleAtLeast role ROwner = true → role = ROwner.
Proof. by destruct role. Qed.

(** The last step of an action. *)
Lemma run_throwing f db :
  run_solo (throwing f) db =
    match f db with Ok (_, db') => (Ok (Ok tt), db') | Err e => (Err e, db) end.
Proof. unfold throwing, transaction. rewrite run_solo_bind. cbn. by destruct (f db) as [[[] db']|e]. Qed.

Lemma answers_unchanged w now rq db r : answers w now rq db (r, db).
Proof. by left. Qed.

#[export] Hint Resolve answers_unchanged : minister.

Lemma answers_throwing w now rq session f db :
  requireSession (authOf rq) (gd_users db) = Ok session →
  (∀ db', f db = Ok (tt, db') → commits w now (s_userId session) rq db db') →
  answers w now rq db (run_solo (throwing f) db).
Proof.
  intros Hs Hc. rewrite run_throwing. destruct (f db) as [[[] db']|e]; [|by left]. right. split; [done|]. exists session. auto.
Qed.

Lemma createGroup_answers w now auth config d input db :
  answers w now (GCreate auth config d input) db (run_solo (handleGroup w now (GCreate auth config d input)) db).
Proof.
  cbn [handleGroup]. rewrite run_solo_bind. unfold createGroup. rewrite run_session.
  destruct (requireSession auth (gd_users db)) as [session|e] eqn:Es; [|by left].
  destruct (parseCreateGroup w input) as [[[slug name] desc]|e] eqn:Ep; [|by left].
  destruct (isReservedGroupSlug slug) eqn:Er; [by left|]. rewrite run_solo_read. destruct (slugTaken slug db) eqn:Et; [by left|].
  rewrite run_solo_read. destruct (match gd_slugTombstones db !! slug with Some _ => _ | None => _ end) eqn:Eq; [by left|].
  rewrite run_solo_read. destruct (gd_config db) as [limits|] eqn:Ec; [|by left].
  rewrite run_solo_read. destruct (Z.leb_spec (maxOwnedGroups limits) (ownedCount (s_userId session) db)) as [|Ho]; [by left|].
  rewrite run_solo_read. destruct (computeUserSybilBucket w now config (s_userId session) db) as [b|] eqn:Eb; [|by left].
  destruct (Z.ltb_spec b (foundingMinBucket limits)) as [|Hb]; [by left|]. rewrite run_solo_bind. cbn [act run_solo fst snd].
  unfold transaction. destruct (foundGroup w now (s_userId session) slug name desc d db) as [[gid db']|e] eqn:Ef; cbn [fst snd mret thread_ret run_solo].
  - right. split; [done|]. exists session. split; [done|]. assert (gid = dr_groupId d) as ->.
    { unfold foundGroup in Ef. run_guards Ef. apply bind_Ok in Ef as (db2 & _ & Ef). apply bind_Ok in Ef as (db3 & _ & Ef). by injection Ef. }
    eapply commit_create; eauto. intros t Ht. rewrite Ht in Eq. by bool_hyps.
  - left. by destruct e.
Qed.

(** Run alone, an action answers success after one commit of its specification, or leaves the
    database as it was. *)
Lemma handleGroup_answers w now rq db : answers w now rq db (run_solo (handleGroup w now rq) db).
Proof.
  destruct rq as [auth config d input|auth g|auth g name|auth g desc|auth g u b mid bid|auth g u|auth g u b];
    [apply createGroup_answers|..]; cbn [handleGroup].
  - unfold deleteGroup. rewrite run_session. destruct (requireSession auth (gd_users db)) as [session|e] eqn:Es; [|by left].
    destruct (negb _) eqn:Ecu; [by left|]. apply negb_false_iff in Ecu. rewrite run_role. destruct (requireGroupRole _ _ _ _) as [[role r]|e] eqn:Er; [|by left].
    apply requireGroupRole_ok in Er as (Hr & Hg & ->%owner_floor). eapply answers_throwing; [done|]. intros db' H. by eapply commit_delete.
  - unfold renameGroup. rewrite run_session. destruct (requireSession auth (gd_users db)) as [session|e] eqn:Es; [|by left].
    destruct (negb _) eqn:Ecu; [by left|]. apply negb_false_iff in Ecu. destruct (parseDisplayName w name) as [name'|e] eqn:En; [|by left]. rewrite run_role.
    destruct (requireGroupRole _ _ _ _) as [[role r]|e] eqn:Er; [|by left]. apply requireGroupRole_ok in Er as (Hr & Hg & ->%owner_floor).
    eapply answers_throwing; [done|]. intros db' H. by eapply commit_rename.
  - unfold editGroup. rewrite run_session. destruct (requireSession auth (gd_users db)) as [session|e] eqn:Es; [|by left].
    destruct (negb _) eqn:Ecu; [by left|]. apply negb_false_iff in Ecu. destruct (parseDescription w desc) as [desc'|e] eqn:En; [|by left]. rewrite run_role.
    destruct (requireGroupRole _ _ _ _) as [[role r]|e] eqn:Er; [|by left]. apply requireGroupRole_ok in Er as (Hr & Hg & ->%owner_floor).
    eapply answers_throwing; [done|]. intros db' H. by eapply commit_edit.
  - unfold addMember. rewrite run_session. destruct (requireSession auth (gd_users db)) as [session|e] eqn:Es; [|by left].
    destruct (negb _) eqn:Ecu; [by left|]. apply negb_false_iff in Ecu. rewrite run_role. destruct (requireGroupRole _ _ _ _) as [[role r]|e] eqn:Er; [|by left].
    apply requireGroupRole_ok in Er as (Hr & Hg & Hf). cbn [fst snd].
    destruct (b && bool_decide (role ≠ ROwner)) eqn:Eb; [by left|]. rewrite run_solo_read. destruct (negb _); [by left|].
    rewrite run_solo_read. destruct (bool_decide (gd_members db !! (g, u) ≠ None)); [by left|]. rewrite run_solo_bind. cbn [act run_solo fst snd].
    unfold transaction. destruct (addMemberTx _ _ _ _ _ _ _ _ _ _) as [[[] db']|e] eqn:Ea; cbn [fst snd mret thread_ret run_solo]; [|left; by destruct e].
    right. split; [done|]. exists session. split; [done|]. eapply commit_add; [done|done|done| |done|done]. intros ->. cbn in Eb. by apply bool_decide_eq_false_1, dec_stable in Eb.
  - unfold removeMember. rewrite run_session. destruct (requireSession auth (gd_users db)) as [session|e] eqn:Es; [|by left].
    destruct (negb _) eqn:Ecu; [by left|]. apply negb_false_iff in Ecu. rewrite run_role. destruct (requireGroupRole _ _ _ _) as [[role r]|e] eqn:Er; [|by left].
    apply requireGroupRole_ok in Er as (Hr & Hg & Hf). rewrite run_solo_read. destruct (gd_members db !! (g, u)) as [m|] eqn:Em; [|by left].
    case_bool_decide as Ho; [by left|]. cbn [fst snd]. destruct (bool_decide (gm_role m = RAdmin) && _) eqn:Ea; [by left|].
    eapply answers_throwing; [done|]. intros db' H. eapply commit_remove; [done..| |done]. intros Had.
    rewrite Had, bool_decide_eq_true_2 in Ea by done. cbn in Ea. by apply bool_decide_eq_false_1, dec_stable in Ea.
  - unfold setMemberRole. rewrite run_session. destruct (requireSession auth (gd_users db)) as [session|e] eqn:Es; [|by left].
    destruct (negb _) eqn:Ecu; [by left|]. apply negb_false_iff in Ecu. rewrite run_role. destruct (requireGroupRole _ _ _ _) as [[role r]|e] eqn:Er; [|by left].
    apply requireGroupRole_ok in Er as (Hr & Hg & ->%owner_floor). rewrite run_solo_read.
    destruct (gd_members db !! (g, u)) as [m|] eqn:Em; [|by left]. case_bool_decide as Ho; [by left|]. case_bool_decide as Hn; [by left|].
    eapply answers_throwing; [done|]. intros db' H. by eapply commit_role.
Qed.

(** The membership row a reader's role comes from. *)
Lemma requireGroupRole_run g u minRole db role r :
  roleIn db g u = Some role → gd_groups db !! g = Some r → roleAtLeast role minRole = true →
  requireGroupRole g u minRole db = Ok (role, r).
Proof.
  unfold requireGroupRole, roleIn. destruct (gd_members db !! (g, u)) as [m|]; [|done]. intros [= <-] -> Hf. by rewrite Hf.
Qed.

Lemma roleIn_group db g u role : groups_ok db → roleIn db g u = Some role → is_Some (gd_groups db !! g).
Proof.
  unfold roleIn. intros Hok H. destruct (gd_members db !! (g, u)) as [m|] eqn:Em; [|done].
  destruct (go_member _ Hok _ _ _ Em) as (r & Hr & _). eauto.
Qed.

(** Every step of the specification is taken by the action. *)
Lemma commits_run w now rq session db db' :
  groups_ok db → requireSession (authOf rq) (gd_users db) = Ok session → commits w now (s_userId session) rq db db' →
  run_solo (handleGroup w now rq) db = (Ok (Ok tt), db').
Proof.
  intros Hok Hs H. destruct H as [auth config d input slug name desc limits b db db' Hp Hr Ht Hq Hc Ho Hb Hf Hfound
    |auth g r db db' Hcu Hrole Hg Htx|auth g raw name db db' Hcu Hrole Hn Htx|auth g raw desc db db' Hcu Hrole Hn Htx
    |auth g u makeAdmin mid bid role r db db' Hcu Hrole Hfl Hadm Hg Htx|auth g u m role db db' Hcu Hrole Hfl Hm Hno Hadm Htx
    |auth g u makeAdmin m db db' Hcu Hrole Hm Hno Hne Htx]; cbn [handleGroup authOf] in *.
  - rewrite run_solo_bind. unfold createGroup. rewrite run_session, Hs, Hp, Hr, run_solo_read, Ht, run_solo_read.
    assert ((match gd_slugTombstones db !! slug with Some t => now - t <? SLUG_TOMBSTONE_MS | None => false end) = false) as ->.
    { destruct (gd_slugTombstones db !! slug) as [t|]; [|done]. apply Z.ltb_ge. by apply Hq. }
    rewrite run_solo_read, Hc, run_solo_read. destruct (Z.leb_spec (maxOwnedGroups limits) (ownedCount (s_userId session) db)); [lia|].
    rewrite run_solo_read, Hb. destruct (Z.ltb_spec b (foundingMinBucket limits)); [lia|].
    rewrite run_solo_bind. cbn [act run_solo fst snd]. unfold transaction. by rewrite Hfound.
  - unfold deleteGroup. rewrite run_session, Hs, Hcu. cbn [negb]. rewrite run_role, (requireGroupRole_run _ _ _ _ ROwner r), run_throwing by done.
    cbn [negb fst snd]. by rewrite Htx.
  - destruct (roleIn_group _ _ _ _ Hok Hrole) as [r Hg]. unfold renameGroup.
    rewrite run_session, Hs, Hcu, Hn. cbn [negb]. rewrite run_role, (requireGroupRole_run _ _ _ _ ROwner r), run_throwing by done. cbn [negb]. by rewrite Htx.
  - destruct (roleIn_group _ _ _ _ Hok Hrole) as [r Hg]. unfold editGroup.
    rewrite run_session, Hs, Hcu, Hn. cbn [negb]. rewrite run_role, (requireGroupRole_run _ _ _ _ ROwner r), run_throwing by done. cbn [negb]. by rewrite Htx.
  - unfold addMember. rewrite run_session, Hs, Hcu. cbn [negb]. rewrite run_role, (requireGroupRole_run _ _ _ _ role r) by done. cbn [negb fst snd].
    assert (makeAdmin && bool_decide (role ≠ ROwner) = false) as ->.
    { destruct makeAdmin; [|done]. rewrite Hadm by done. done. }
    assert (∃ db1, createMembership g u mid (assignedRole makeAdmin) (s_userId session) db = Ok db1) as [db1 Hc].
    { unfold addMemberTx in Htx. apply bind_Ok in Htx as (db1 & H1 & _). eauto. }
    apply createMembership_ok in Hc as (_ & Hnm & _ & [uf Hu] & _). rewrite run_solo_read, Hu. cbn [negb].
    rewrite bool_decide_eq_true_2 by done. cbn [negb]. rewrite run_solo_read, Hnm, bool_decide_eq_false_2 by tauto.
    rewrite run_solo_bind. cbn [act run_solo fst snd]. unfold transaction. by rewrite Htx.
  - destruct (roleIn_group _ _ _ _ Hok Hrole) as [r Hg]. unfold removeMember.
    rewrite run_session, Hs, Hcu. cbn [negb]. rewrite run_role, (requireGroupRole_run _ _ _ _ role r) by done. cbn [negb fst snd].
    rewrite run_solo_read, Hm, bool_decide_eq_false_2 by done.
    assert (bool_decide (gm_role m = RAdmin) && bool_decide (role ≠ ROwner) = false) as ->.
    { case_bool_decide as Ha; [|done]. rewrite Hadm by done. done. }
    rewrite run_throwing. by rewrite Htx.
  - destruct (roleIn_group _ _ _ _ Hok Hrole) as [r Hg]. unfold setMemberRole.
    rewrite run_session, Hs, Hcu. cbn [negb]. rewrite run_role, (requireGroupRole_run _ _ _ _ ROwner r) by done. cbn [negb fst snd].
    rewrite run_solo_read, Hm, !bool_decide_eq_false_2, run_throwing by done. by rewrite Htx.
Qed.

(** ** Properties *)

(** C21: One owner per group, under every interleaving of group actions: a group that exists
    has exactly one member with the role owner, the user that founded it; memberships belong to
    existing groups, slugs and membership ids are unique, a group's slug and owner never change,
    and a deleted group's id never comes back. *)
Theorem one_owner_per_group w rqs sched db :
  groups_ok db → groups_ok (serveGroups w rqs sched db).2 ∧ group_step db (serveGroups w rqs sched db).2.
Proof.
  intros Hok. unfold serveGroups.
  destruct (follows_pool groups_ok group_step (fun _ => True) (map (fun '(now, rq) => handleGroup w now rq) rqs) sched db)
    as (H1 & H2 & _); [|done|done].
  apply Forall_forall. intros t ([now rq] & -> & _)%list_elem_of_fmap. apply handleGroup_obeys.
Qed.


(** The role of a user that a step leaves alone. *)
Lemma roleIn_insert_ne db k g u m :
  (g, u) ≠ k → roleIn (with_members (<[k := m]> (gd_members db)) db) g u = roleIn db g u.
Proof. intros Hne. unfold roleIn. cbn. by rewrite lookup_insert_ne. Qed.

Lemma addMemberTx_members w now g slug u role actor mid bid db db' :
  addMemberTx w now g slug u role actor mid bid db = Ok (tt, db') →
  gd_members db !! (g, u) = None ∧ gd_status db' = gd_status db ∧ gd_groups db' = gd_groups db ∧
  gd_slugTombstones db' = gd_slugTombstones db ∧
  gd_members db' = <[(g, u) := {| gm_id := mid; gm_role := role; gm_addedBy := Some actor |}]> (gd_members db).
Proof.
  unfold addMemberTx. intros H. apply bind_Ok in H as (db1 & H1 & H). apply bind_Ok in H as (db2 & H2 & H). injection H as <-.
  apply issueMembership_frame in H2 as [t ->]. by apply createMembership_ok in H1 as (_ & Hn & _ & _ & ->).
Qed.

Lemma foundGroup_members w now u slug name desc d db gid db' :
  foundGroup w now u slug name desc d db = Ok (gid, db') →
  slugTaken slug db = false ∧ (dr_groupId d ∉ gd_born db) ∧ gd_status db' = gd_status db ∧
  gd_groups db' = <[dr_groupId d := {| gr_slug := slug; gr_displayName := name; gr_description := desc;
                                       gr_ownerUserId := u; gr_verified := false |}]> (gd_groups db) ∧
  gd_slugTombstones db' = delete slug (gd_slugTombstones db) ∧
  gd_members db' = <[(dr_groupId d, u) := {| gm_id := dr_membershipId d; gm_role := ROwner; gm_addedBy := Some u |}]> (gd_members db).
Proof.
  unfold foundGroup. destruct (slugTaken slug db); [done|]. cbn [orb]. destruct (bool_decide (dr_groupId d ∈ gd_born db)) eqn:Eg; [done|].
  destruct (bool_decide (gd_users db !! u = None)); [done|]. bool_hyps. intros H. apply bind_Ok in H as (db2 & H2 & H).
  apply bind_Ok in H as (db3 & H3 & H). injection H as <- <-. apply issueMembership_frame in H3 as [t ->].
  by apply createMembership_ok in H2 as (_ & _ & _ & _ & ->).
Qed.

(** Who may change whose role. *)
Definition authorized (db db' : GroupDB) (actor g u : string) : Prop :=
  (gd_groups db !! g = None ∧ u = actor ∧ roleIn db' g u = Some ROwner) ∨
  (roleIn db' g u ≠ Some ROwner ∧ ∃ ra, roleIn db g actor = Some ra ∧ roleAtLeast ra RAdmin = true ∧
     (roleIn db g u = Some RAdmin ∨ roleIn db' g u = Some RAdmin ∨ roleIn db g u = Some ROwner → ra = ROwner) ∧
     (roleIn db g u = Some ROwner → gd_groups db' !! g = None)).

Lemma commits_authorized w now actor rq db db' g u :
  groups_ok db → commits w now actor rq db db' → roleIn db' g u ≠ roleIn db g u → authorized db db' actor g u.
Proof.
  intros Hok H Hne. destruct H as [auth config d input slug name desc limits b db db' Hp Hr Ht Hq Hc Ho Hb Hf Hfound
    |auth g0 r db db' Hcu Hrole Hg Htx|auth g0 raw name db db' Hcu Hrole Hn Htx|auth g0 raw desc db db' Hcu Hrole Hn Htx
    |auth g0 u0 makeAdmin mid bid role r db db' Hcu Hrole Hfl Hadm Hg Htx|auth g0 u0 m role db db' Hcu Hrole Hfl Hm Hno Hadm Htx
    |auth g0 u0 makeAdmin m db db' Hcu Hrole Hm Hno Hna Htx].
  - apply foundGroup_members in Hfound as (_ & Hnew & _ & _ & _ & Hmem). unfold roleIn in Hne. rewrite Hmem in Hne.
    destruct (decide ((dr_groupId d, actor) = (g, u))) as [[= <- <-]|]; [|by rewrite lookup_insert_ne in Hne].
    left. split_and!; [|done|unfold roleIn; by rewrite Hmem, lookup_insert_eq].
    apply eq_None_not_Some. intros [r Hg]. by apply Hnew; eapply go_born.
  - unfold deleteGroupTx in Htx. rewrite Hg in Htx. injection Htx as <-.
    destruct (decide (g = g0)) as [->|Hng].
    + right. split.
      { unfold roleIn. cbn. rewrite map_lookup_filter. destruct (gd_members db !! (g0, u)); [|done]. cbn. by rewrite option_guard_False by tauto. }
      exists ROwner. split_and!; [done|done|done|]. intros _. cbn. apply lookup_delete_eq.
    + destruct Hne. unfold roleIn. cbn. f_equal. rewrite map_lookup_filter. destruct (gd_members db !! (g, u)); [|done]. cbn.
      by rewrite option_guard_True.
  - unfold updateGroup in Htx. destruct (gd_groups db !! g0); [|done]. injection Htx as <-. done.
  - unfold updateGroup in Htx. destruct (gd_groups db !! g0); [|done]. injection Htx as <-. done.
  - apply addMemberTx_members in Htx as (Hnone & _ & _ & _ & Hmem). unfold roleIn in Hne. rewrite Hmem in Hne.
    destruct (decide ((g0, u0) = (g, u))) as [[= <- <-]|]; [|by rewrite lookup_insert_ne in Hne].
    right. unfold roleIn at 1 3 4 5 6. rewrite Hmem, lookup_insert_eq, Hnone. cbn. split; [by destruct makeAdmin|].
    exists role. split_and!; [done|done| |done]. intros [?|[Ha|?]]; [done| |done]. apply Hadm. by destruct makeAdmin.
  - unfold removeMemberTx in Htx. rewrite Hm in Htx. injection Htx as <-. unfold roleIn in Hne. cbn in Hne.
    destruct (decide ((g0, u0) = (g, u))) as [[= <- <-]|]; [|by rewrite lookup_delete_ne in Hne].
    right. unfold roleIn at 1 3 4 5 6. cbn. rewrite lookup_delete_eq, Hm. cbn. split; [done|]. exists role.
    split_and!; [done|done| |by intros [= ?]]. intros [[= Ha]|[Ha|[= Ha]]]; [by apply Hadm|done|done].
  - unfold setRoleTx in Htx. rewrite Hm in Htx. injection Htx as <-. unfold roleIn in Hne. cbn in Hne.
    destruct (decide ((g0, u0) = (g, u))) as [[= <- <-]|]; [|by rewrite lookup_insert_ne in Hne].
    right. unfold roleIn at 1 3 4 5 6. cbn. rewrite lookup_insert_eq, Hm. cbn. split; [by destruct makeAdmin|].
    exists ROwner. split_and!; [done|done|done|by intros [= ?]].
Qed.

(** No admin coup. Run alone, an action changes a role in a group only if the signed-in
    user founds the group, or is its owner or an admin; roles of admin are given and taken, and
    the owner's membership ended, by the owner alone, the latter only with the group. *)
Theorem only_owner_moves_admins w now rq db r db' g u :
  groups_ok db → run_solo (handleGroup w now rq) db = (r, db') → roleIn db' g u ≠ roleIn db g u →
  ∃ session, requireSession (authOf rq) (gd_users db) = Ok session ∧ authorized db db' (s_userId session) g u.
Proof.
  intros Hok H Hne. pose proof (handleGroup_answers w now rq db) as [Ha|(_ & session & Hs & Hc)]; rewrite H in *; cbn [snd] in *.
  - by rewrite Ha in Hne.
  - exists session. split; [done|]. by eapply commits_authorized.
Qed.

(** ** Revocation *)

(** A fact revoked at every party: its tombstone stands and all its handles are revoked. *)
Definition anchorRevoked (anchor : string) (s : DB) : Prop :=
  is_Some (db_tombstones s !! anchor) ∧ ∀ clientId e, db_entries s !! (anchor, clientId) = Some e → revoked e.

Lemma revoke_one now jitter anchor reason actor s :
  anchorRevoked anchor (revokeStatusAnchor now jitter anchor reason actor s).2.
Proof.
  split; [apply revokeWrites_tombs; by left|]. intros c e' He'. cbn [revokeStatusAnchor snd] in He'.
  destruct (revokeWrites_entry_inv now jitter anchor reason actor _ _ _ _ He') as (e & He & _).
  destruct (revokeWrites_entry now jitter anchor reason actor (clearKeys anchor s) s (anchor, c)) as [_ H].
  destruct (H e He) as (e1 & He1 & _ & Hr). assert (e1 = e') as -> by congruence. apply Hr.
  destruct (decide (en_revokedAt e = None)) as [Hn|Hn]; [left; apply elem_of_clearKeys; eauto|by right].
Qed.

Lemma revoke_keeps now jitter anchor reason actor a s :
  anchorRevoked a s → anchorRevoked a (revokeStatusAnchor now jitter anchor reason actor s).2.
Proof.
  intros [Ht He]. split; [apply revokeWrites_tombs; by right|]. intros c e' He'. cbn [revokeStatusAnchor snd] in He'.
  destruct (revokeWrites_entry_inv now jitter anchor reason actor _ _ _ _ He') as (e & He0 & _).
  destruct (revokeWrites_entry now jitter anchor reason actor (clearKeys anchor s) s (a, c)) as [_ H].
  destruct (H e He0) as (e1 & He1 & _ & Hr). assert (e1 = e') as -> by congruence. apply Hr. right. by eapply He.
Qed.

Lemma revokeAnchors_keep w now reason actor ids a s : anchorRevoked a s → anchorRevoked a (revokeAnchors w now reason actor ids s).
Proof. unfold revokeAnchors. revert s. induction ids as [|id ids IH]; intros s Hs; [done|]. cbn [foldl]. by apply IH, revoke_keeps. Qed.

Lemma revokeAnchors_all w now reason actor ids id s :
  id ∈ ids → anchorRevoked (groupMembershipAnchor id) (revokeAnchors w now reason actor ids s).
Proof.
  unfold revokeAnchors. revert s. induction ids as [|id' ids IH]; intros s Hin; [by apply elem_of_nil in Hin|]. cbn [foldl].
  apply elem_of_cons in Hin as [<-|Hin]; [apply revokeAnchors_keep, revoke_one|by apply IH].
Qed.

(** One step: a membership is kept with its id, or its anchor is revoked; revocations last. *)
Lemma commits_lapse w now actor rq db db' k m :
  groups_ok db → commits w now actor rq db db' → gd_members db !! k = Some m →
  (∃ m', gd_members db' !! k = Some m' ∧ gm_id m' = gm_id m) ∨ anchorRevoked (groupMembershipAnchor (gm_id m)) (gd_status db').
Proof.
  intros Hok H Hk. destruct H as [auth config d input slug name desc limits b db db' Hp Hr Ht Hq Hc Ho Hb Hf Hfound
    |auth g0 r db db' Hcu Hrole Hg Htx|auth g0 raw name db db' Hcu Hrole Hn Htx|auth g0 raw desc db db' Hcu Hrole Hn Htx
    |auth g0 u0 makeAdmin mid bid role r db db' Hcu Hrole Hfl Hadm Hg Htx|auth g0 u0 m0 role db db' Hcu Hrole Hfl Hm Hno Hadm Htx
    |auth g0 u0 makeAdmin m0 db db' Hcu Hrole Hm Hno Hna Htx].
  - apply foundGroup_members in Hfound as (_ & Hnew & _ & _ & _ & ->). left. exists m. split; [|done].
    rewrite lookup_insert_ne; [done|]. intros <-. destruct (go_member _ Hok _ _ _ Hk) as (r & Hg & _). by apply Hnew; eapply go_born.
  - unfold deleteGroupTx in Htx. rewrite Hg in Htx. injection Htx as <-. cbn. destruct (decide (k.1 = g0)) as [Hkg|Hkg].
    + right. apply revokeAnchors_all. apply list_elem_of_fmap. exists (k, m). split; [done|]. apply list_elem_of_filter.
      split; [done|]. by apply elem_of_map_to_list.
    + left. exists m. split; [|done]. by apply map_lookup_filter_Some_2.
  - unfold updateGroup in Htx. destruct (gd_groups db !! g0); [|done]. injection Htx as <-. left. by exists m.
  - unfold updateGroup in Htx. destruct (gd_groups db !! g0); [|done]. injection Htx as <-. left. by exists m.
  - apply addMemberTx_members in Htx as (Hnone & _ & _ & _ & ->). left. exists m. split; [|done]. rewrite lookup_insert_ne; [done|]. congruence.
  - unfold removeMemberTx in Htx. rewrite Hm in Htx. injection Htx as <-. cbn. destruct (decide (k = (g0, u0))) as [->|].
    + right. assert (m = m0) as -> by congruence. apply revoke_one.
    + left. exists m. by rewrite lookup_delete_ne.
  - unfold setRoleTx in Htx. rewrite Hm in Htx. injection Htx as <-. cbn. left. destruct (decide (k = (g0, u0))) as [->|].
    + eexists. rewrite lookup_insert_eq. split; [done|]. cbn. congruence.
    + exists m. by rewrite lookup_insert_ne.
Qed.

Lemma commits_status w now actor rq db db' a :
  commits w now actor rq db db' → anchorRevoked a (gd_status db) → anchorRevoked a (gd_status db').
Proof.
  intros H Ha. destruct H as [auth config d input slug name desc limits b db db' Hp Hr Ht Hq Hc Ho Hb Hf Hfound
    |auth g0 r db db' Hcu Hrole Hg Htx|auth g0 raw name db db' Hcu Hrole Hn Htx|auth g0 raw desc db db' Hcu Hrole Hn Htx
    |auth g0 u0 makeAdmin mid bid role r db db' Hcu Hrole Hfl Hadm Hg Htx|auth g0 u0 m0 role db db' Hcu Hrole Hfl Hm Hno Hadm Htx
    |auth g0 u0 makeAdmin m0 db db' Hcu Hrole Hm Hno Hna Htx].
  - by apply foundGroup_members in Hfound as (_ & _ & -> & _).
  - unfold deleteGroupTx in Htx. rewrite Hg in Htx. injection Htx as <-. by apply revokeAnchors_keep.
  - unfold updateGroup in Htx. destruct (gd_groups db !! g0); [|done]. by injection Htx as <-.
  - unfold updateGroup in Htx. destruct (gd_groups db !! g0); [|done]. by injection Htx as <-.
  - by apply addMemberTx_members in Htx as (_ & -> & _).
  - unfold removeMemberTx in Htx. rewrite Hm in Htx. injection Htx as <-. by apply revoke_keeps.
  - unfold setRoleTx in Htx. rewrite Hm in Htx. by injection Htx as <-.
Qed.

(** The action run alone keeps the invariant. *)
Lemma run_groups_ok w now rq db : groups_ok db → groups_ok (run_solo (handleGroup w now rq) db).2.
Proof. intros Hok. by apply (follows_solo groups_ok group_step (fun _ => True) _ db (handleGroup_obeys w now rq db) Hok). Qed.

(** The memberships as the disclosure path reads them. *)
Definition membershipRoles (db : GroupDB) : gmap (string * string) string := (fun m => roleName (gm_role m)) <$> gd_members db.

(** Leaving a group reaches everyone. Over any sequence of group actions, a membership
    either stays, with its id and so its anchor, or its anchor is revoked at every relying
    party that holds a handle of it, for good; and while the user has no membership in the
    group, no badge of that group is disclosed for them. *)
Theorem lapsed_membership_revoked w rqs db g u m :
  groups_ok db → gd_members db !! (g, u) = Some m →
  let db' := runGroups w rqs db in
  ((∃ m', gd_members db' !! (g, u) = Some m' ∧ gm_id m' = gm_id m) ∨
   anchorRevoked (groupMembershipAnchor (gm_id m)) (gd_status db')) ∧
  (gd_members db' !! (g, u) = None → ∀ ow now clientId sub handle row odb,
     od_memberships odb = membershipRoles db' → br_type row = GROUP_MEMBERSHIP_BADGE_TYPE → groupIdOf row = Some g →
     (run_solo (discloseBadge ow now u clientId sub handle row) odb).1 = None).
Proof.
  intros Hok Hm. cbn zeta. split.
  - assert (∀ db, groups_ok db → (∃ m', gd_members db !! (g, u) = Some m' ∧ gm_id m' = gm_id m) ∨
              anchorRevoked (groupMembershipAnchor (gm_id m)) (gd_status db) →
            (∃ m', gd_members (runGroups w rqs db) !! (g, u) = Some m' ∧ gm_id m' = gm_id m) ∨
              anchorRevoked (groupMembershipAnchor (gm_id m)) (gd_status (runGroups w rqs db))) as Hind; [|eauto].
    unfold runGroups. induction rqs as [|[now rq] rqs IH]; intros db0 Hok0 H0; [done|]. cbn [foldl].
    apply IH; [by apply run_groups_ok|]. pose proof (handleGroup_answers w now rq db0) as [->|(_ & session & _ & Hc)]; [done|].
    destruct H0 as [(m' & Hm' & Hid)|Hr]; [|right; by eapply commits_status]. rewrite <-Hid. by eapply commits_lapse.
  - intros Hnone ow now clientId sub handle row odb Hodb Ht Hg. unfold discloseBadge.
    destruct (rowNullifier _ _ _ _) as [nul|actions].
    2:{ destruct (run_solo (omit u actions) odb) as [r o] eqn:E. cbn. by eapply omit_None. }
    rewrite decide_True by done. rewrite Hg, run_solo_bind, run_solo_read, Hodb. unfold membershipRoles. rewrite lookup_fmap, Hnone.
    reflexivity.
Qed.

(** ** The quarantine of slugs *)

Definition quarantined (slug : string) (t : Z) (db : GroupDB) : Prop :=
  gd_slugTombstones db !! slug = Some t ∧ slugTaken slug db = false.

Lemma slugTaken_false slug db : slugTaken slug db = false ↔ ∀ g r, gd_groups db !! g = Some r → gr_slug r ≠ slug.
Proof.
  unfold slugTaken. rewrite <-not_true_iff_false, existsb_exists. split.
  - intros H g r Hg Heq. apply H. exists (g, r). split; [by apply list_elem_of_In, elem_of_map_to_list|by apply bool_decide_eq_true_2].
  - intros H ([g r] & Hin%list_elem_of_In%elem_of_map_to_list & Heq). bool_hyps. by eapply H.
Qed.

Lemma commits_quarantine w now actor rq db db' slug t :
  groups_ok db → commits w now actor rq db db' → now < t + SLUG_TOMBSTONE_MS → quarantined slug t db → quarantined slug t db'.
Proof.
  intros Hok H Hnow [Htomb Hfree]. rewrite slugTaken_false in Hfree. unfold quarantined. rewrite slugTaken_false.
  destruct H as [auth config d input slug0 name desc limits b db db' Hp Hr Ht Hq Hc Ho Hb Hf Hfound
    |auth g0 r db db' Hcu Hrole Hg Htx|auth g0 raw name db db' Hcu Hrole Hn Htx|auth g0 raw desc db db' Hcu Hrole Hn Htx
    |auth g0 u0 makeAdmin mid bid role r db db' Hcu Hrole Hfl Hadm Hg Htx|auth g0 u0 m0 role db db' Hcu Hrole Hfl Hm Hno Hadm Htx
    |auth g0 u0 makeAdmin m0 db db' Hcu Hrole Hm Hno Hna Htx].
  - apply foundGroup_members in Hfound as (_ & _ & _ & -> & -> & _). assert (slug0 ≠ slug) as Hne.
    { intros ->. specialize (Hq t Htomb). lia. }
    split; [by rewrite lookup_delete_ne|]. intros g r [[<- <-]|[_ Hg]]%lookup_insert_Some; [done|by eapply Hfree].
  - unfold deleteGroupTx in Htx. rewrite Hg in Htx. injection Htx as <-. cbn. split.
    + rewrite lookup_insert_ne; [done|]. by eapply Hfree.
    + intros g' r' [_ Hg']%lookup_delete_Some. by eapply Hfree.
  - unfold updateGroup in Htx. destruct (gd_groups db !! g0) as [r0|] eqn:Eg; [|done]. injection Htx as <-. cbn. split; [done|].
    intros g' r' [[<- <-]|[_ Hg']]%lookup_insert_Some; [cbn; by eapply Hfree|by eapply Hfree].
  - unfold updateGroup in Htx. destruct (gd_groups db !! g0) as [r0|] eqn:Eg; [|done]. injection Htx as <-. cbn. split; [done|].
    intros g' r' [[<- <-]|[_ Hg']]%lookup_insert_Some; [cbn; by eapply Hfree|by eapply Hfree].
  - by apply addMemberTx_members in Htx as (_ & _ & -> & -> & _).
  - unfold removeMemberTx in Htx. rewrite Hm in Htx. by injection Htx as <-.
  - unfold setRoleTx in Htx. rewrite Hm in Htx. by injection Htx as <-.
Qed.

(** A deleted group's name rests for thirty days. After a group is deleted, no sequence of
    actions within the thirty days that follow puts a group under its slug. *)
Theorem slug_quarantine w now auth g r db db1 rqs :
  groups_ok db → gd_groups db !! g = Some r →
  run_solo (handleGroup w now (GDelete auth g)) db = (Ok (Ok tt), db1) →
  Forall (fun '(t, _) => t < now + SLUG_TOMBSTONE_MS) rqs →
  ∀ g' r', gd_groups (runGroups w rqs db1) !! g' = Some r' → gr_slug r' ≠ gr_slug r.
Proof.
  intros Hok Hg Hdel Hrqs. apply slugTaken_false.
  assert (groups_ok db1 ∧ quarantined (gr_slug r) now db1) as [Hok1 Hq1].
  { pose proof (run_groups_ok w now (GDelete auth g) db Hok) as Hok1. rewrite Hdel in Hok1. split; [done|].
    pose proof (handleGroup_answers w now (GDelete auth g) db) as [Ha|(_ & session & _ & Hc)]; rewrite Hdel in *; cbn [snd] in *.
    - subst db1. exfalso. cbn [handleGroup] in Hdel. unfold deleteGroup in Hdel. rewrite run_session in Hdel.
      destruct (requireSession auth (gd_users db)) as [session|]; [|done]. destruct (negb _); [done|]. rewrite run_role in Hdel.
      destruct (requireGroupRole _ _ _ _) as [ctx|]; [|done]. rewrite run_throwing in Hdel. unfold deleteGroupTx in Hdel.
      rewrite Hg in Hdel. injection Hdel as Hdel. apply (f_equal gd_groups) in Hdel. cbn in Hdel.
      assert (delete g (gd_groups db) !! g = None) as Hnone by apply lookup_delete_eq. rewrite Hdel in Hnone. congruence.
    - inversion Hc as [|auth' g0 r0 db0 db0' Hcu Hrole Hg0 Htx| | | | |]; subst. assert (r0 = r) as -> by congruence.
      unfold deleteGroupTx in Htx. rewrite Hg in Htx. injection Htx as <-. split; [cbn; apply lookup_insert_eq|].
      apply slugTaken_false. cbn. intros g' r' [Hne Hg']%lookup_delete_Some Heq. apply Hne. symmetry. by eapply (go_slug _ Hok). }
  clear Hdel. revert db1 Hok1 Hq1. unfold runGroups. induction Hrqs as [|[t rq] rqs Ht Hrqs IH]; intros db1 Hok1 Hq1; [apply Hq1|].
  cbn [foldl]. apply IH; [by apply run_groups_ok|].
  pose proof (handleGroup_answers w t rq db1) as [->|(_ & session & _ & Hc)]; [done|]. by eapply commits_quarantine.
Qed.

(** ** Examples *)

Lemma runGroups_ok w rqs db : groups_ok db → groups_ok (runGroups w rqs db).
Proof.
  unfold runGroups. revert db. induction rqs as [|[now rq] rqs IH]; intros db Hok; [done|]. cbn [foldl]. by apply IH, run_groups_ok.
Qed.

Module GroupDemo.

Definition w : GroupWorld :=
  {| gw_vc := VcDemo.w; gw_isEmail := fun _ => true; gw_isCuid := fun _ => true; gw_zod := fun f => "Invalid " +:+ f;
     gw_jitter := fun _ => 0 |}.

Definition user : UserFlags :=
  {| u_sessionGeneration := 0; u_isAdmin := false; u_isBanned := false; u_mergedIntoUserId := None; u_setupCompletedAt := Some 1 |}.

Definition as_ (u : string) : option Session :=
  Some {| s_userId := u; s_sessionGeneration := None; s_aal := Some 2; s_recovered := false; s_auth_time := None; s_cred := None |}.

(** Three users, no group yet; one group each. *)
Definition db : GroupDB :=
  {| gd_users := {[ "own" := user; "adm" := user; "mem" := user ]}; gd_groups := ∅; gd_members := ∅;
     gd_slugTombstones := ∅; gd_config := Some {| foundingMinBucket := 0; maxOwnedGroups := 1 |};
     gd_tables := {| bt_badges := []; bt_eligibilities := ∅; bt_audit := [] |};
     gd_status := {| db_lists := ∅; db_entries := ∅; db_tombstones := ∅; db_audit := [] |}; gd_born := ∅ |}.

Lemma db_ok : groups_ok db.
Proof. split; cbn; intros *; rewrite lookup_empty; discriminate. Qed.

Definition start : Z := 1752400000000.

Definition create (u slug id : string) : GroupRequest :=
  GCreate (as_ u) (Some seedConfig) {| dr_groupId := "g" +:+ id; dr_membershipId := "m" +:+ id; dr_badgeId := "b" +:+ id |}
    {| cg_slug := slug; cg_displayName := "Group " +:+ id; cg_description := None |}.
Definition add (by_ u : string) (admin : bool) (id : string) : GroupRequest := GAdd (as_ by_) "g1" u admin ("m" +:+ id) ("b" +:+ id).

(** A group with its owner, an admin and a member. *)
Definition setup : list (Z * GroupRequest) :=
  [(start, create "own" "chess" "1"); (start + 1, add "own" "adm" true "2"); (start + 2, add "adm" "mem" false "3")].
Definition staffed : GroupDB := runGroups w setup db.

Lemma staffed_ok : groups_ok staffed.
Proof. apply runGroups_ok, db_ok. Qed.

Lemma staffed_roles : map (fun u => gd_members staffed !! ("g1", u)) ["own"; "adm"; "mem"] =
  [Some {| gm_id := "m1"; gm_role := ROwner; gm_addedBy := Some "own" |};
   Some {| gm_id := "m2"; gm_role := RAdmin; gm_addedBy := Some "own" |};
   Some {| gm_id := "m3"; gm_role := RMember; gm_addedBy := Some "adm" |}].
Proof. vm_compute. reflexivity. Qed.

End GroupDemo.

(** *** Overlapping actions

    The checks of an action and its transaction are separate, and three guarantees that hold
    of actions run one after the other do not survive an overlap. *)

(** The quota: two overlapping foundings by one user each count the groups owned before either
    commits, and both pass a limit of one. *)
Theorem founding_quota_race :
  let out := serveGroups GroupDemo.w [(GroupDemo.start, GroupDemo.create "own" "chess" "1"); (GroupDemo.start, GroupDemo.create "own" "go-club" "2")]
               [0; 0; 0; 0; 0; 1; 1; 1; 1; 1; 0; 0; 1; 1]%nat GroupDemo.db in
  gd_config out.2 = Some {| foundingMinBucket := 0; maxOwnedGroups := 1 |} ∧ ownedCount "own" out.2 = 2.
Proof. vm_compute. split; reflexivity. Qed.

(** The coup guard: an admin's removal of a member read before the owner promotes them
    removes an admin. *)
Theorem removal_coup_race :
  let promote := GSetRole (GroupDemo.as_ "own") "g1" "mem" true in
  let before := (serveGroups GroupDemo.w [(GroupDemo.start + 9, promote)] [0; 0; 0; 0]%nat GroupDemo.staffed).2 in
  let out := serveGroups GroupDemo.w [(GroupDemo.start + 9, GRemove (GroupDemo.as_ "adm") "g1" "mem"); (GroupDemo.start + 9, promote)]
               [0; 0; 0; 1; 1; 1; 1; 0]%nat GroupDemo.staffed in
  roleIn before "g1" "mem" = Some RAdmin ∧ roleIn out.2 "g1" "mem" = None ∧
  (run_solo (handleGroup GroupDemo.w (GroupDemo.start + 9) (GRemove (GroupDemo.as_ "adm") "g1" "mem")) before).1 =
    Ok (Err "Only the group owner can remove an admin.").
Proof. vm_compute. repeat split; reflexivity. Qed.

(** The revocation: a removal that read a membership before it was ended and renewed deletes
    the renewed row but revokes the anchor of the old one, so the relying parties that hold a
    badge of the renewed membership are never told. *)
Theorem removal_misses_renewed_anchor :
  let out := serveGroups GroupDemo.w
               [(GroupDemo.start + 9, GRemove (GroupDemo.as_ "adm") "g1" "mem"); (GroupDemo.start + 9, GRemove (GroupDemo.as_ "own") "g1" "mem");
                (GroupDemo.start + 9, GroupDemo.add "own" "mem" false "4")]
               [0; 0; 0; 1; 1; 1; 1; 2; 2; 2; 2; 2; 0]%nat GroupDemo.staffed in
  returned out.1 = [Ok (Ok tt); Ok (Ok tt); Ok (Ok tt)] ∧ roleIn out.2 "g1" "mem" = None ∧
  is_Some (db_tombstones (gd_status out.2) !! groupMembershipAnchor "m3") ∧
  db_tombstones (gd_status out.2) !! groupMembershipAnchor "m4" = None.
Proof. vm_compute. repeat split; eauto. Qed.

(** The quarantine: a founding checked before the slug is founded and deleted by someone else
    commits right after the deletion, and clears its tombstone. *)
Theorem quarantine_race :
  let out := serveGroups GroupDemo.w
               [(GroupDemo.start, GroupDemo.create "mem" "chess" "2"); (GroupDemo.start, GroupDemo.create "own" "chess" "1");
                (GroupDemo.start + 1, GDelete (GroupDemo.as_ "own") "g1")]
               [0; 0; 0; 0; 0; 0; 1; 1; 1; 1; 1; 1; 1; 2; 2; 2; 0]%nat GroupDemo.db in
  gr_slug <$> gd_groups out.2 !! "g2" = Some "chess" ∧ gd_slugTombstones out.2 !! "chess" = None.
Proof. vm_compute. split; reflexivity. Qed.

(** *** Instances of the properties *)

Lemma one_owner_per_group_witness :
  groups_ok (serveGroups GroupDemo.w [(GroupDemo.start, GroupDemo.create "own" "chess" "1"); (GroupDemo.start, GroupDemo.create "adm" "chess" "2")]
    [0; 1; 0; 1; 0; 1; 0; 1; 0; 1; 0; 1; 0; 1]%nat GroupDemo.db).2.
Proof.
  apply (one_owner_per_group GroupDemo.w [(GroupDemo.start, GroupDemo.create "own" "chess" "1"); (GroupDemo.start, GroupDemo.create "adm" "chess" "2")]
    [0; 1; 0; 1; 0; 1; 0; 1; 0; 1; 0; 1; 0; 1]%nat GroupDemo.db GroupDemo.db_ok).
Defined.


Lemma only_owner_moves_admins_witness :
  ∃ session, requireSession (GroupDemo.as_ "own") (gd_users GroupDemo.staffed) = Ok session ∧
    authorized GroupDemo.staffed (run_solo (handleGroup GroupDemo.w (GroupDemo.start + 9) (GSetRole (GroupDemo.as_ "own") "g1" "mem" true)) GroupDemo.staffed).2
      (s_userId session) "g1" "mem".
Proof.
  apply (only_owner_moves_admins GroupDemo.w (GroupDemo.start + 9) (GSetRole (GroupDemo.as_ "own") "g1" "mem" true) GroupDemo.staffed
    (run_solo (handleGroup GroupDemo.w (GroupDemo.start + 9) (GSetRole (GroupDemo.as_ "own") "g1" "mem" true)) GroupDemo.staffed).1);
    [exact GroupDemo.staffed_ok|by destruct (run_solo _ _)|vm_compute; discriminate].
Defined.

Lemma lapsed_membership_revoked_witness :
  anchorRevoked (groupMembershipAnchor "m3")
    (gd_status (runGroups GroupDemo.w [(GroupDemo.start + 9, GRemove (GroupDemo.as_ "adm") "g1" "mem")] GroupDemo.staffed)).
Proof.
  destruct (lapsed_membership_revoked GroupDemo.w [(GroupDemo.start + 9, GRemove (GroupDemo.as_ "adm") "g1" "mem")] GroupDemo.staffed "g1" "mem"
    {| gm_id := "m3"; gm_role := RMember; gm_addedBy := Some "adm" |} GroupDemo.staffed_ok) as [[(m' & Hm' & _)|Hr] _];
    [vm_compute; reflexivity|vm_compute in Hm'; discriminate|exact Hr].
Defined.

Lemma slug_quarantine_witness :
  ∃ db1, run_solo (handleGroup GroupDemo.w (GroupDemo.start + 9) (GDelete (GroupDemo.as_ "own") "g1")) GroupDemo.staffed = (Ok (Ok tt), db1) ∧
  ∀ g' r', gd_groups (runGroups GroupDemo.w [(GroupDemo.start + 99, GroupDemo.create "mem" "chess" "7")] db1) !! g' = Some r' → gr_slug r' ≠ "chess".
Proof.
  destruct (run_solo (handleGroup GroupDemo.w (GroupDemo.start + 9) (GDelete (GroupDemo.as_ "own") "g1")) GroupDemo.staffed)
    as [[[[]|e]|e] db1] eqn:E; [|vm_compute in E; discriminate..].
  exists db1. split; [reflexivity|].
  apply (slug_quarantine GroupDemo.w (GroupDemo.start + 9) (GroupDemo.as_ "own") "g1"
    {| gr_slug := "chess"; gr_displayName := "Group 1"; gr_description := None; gr_ownerUserId := "own"; gr_verified := false |}
    GroupDemo.staffed db1 [(GroupDemo.start + 99, GroupDemo.create "mem" "chess" "7")] GroupDemo.staffed_ok);
    [vm_compute; reflexivity|exact E|repeat constructor].
Defined.
