(* ===== verification/ShareLinks.v ===== *)
(** * Share links (lib/share-links.ts, server/share-actions.ts, app/share/[token]/page.tsx)

    A user picks badges and gets a bearer link; whoever opens it while it is neither revoked
    nor expired sees the badges, re-minted about a pseudonym of the link. Handlers interleave
    between database operations. The re-mint is that of Vc.v and the pseudonyms are those of
    Pairwise.v; the id and e-mail tests of the validation library, its messages, and mail are
    parameters. *)

From S2P Require Import Prelude Threads Matching Policy Selection RateLimit Registry Claims Vc Pairwise.
From S2P Require Import SybilScore Session SybilConfig OidcAuthorize Bitstring Interleave StatusList OidcFlow.

Open Scope Z_scope.
Open Scope minister_scope.

(** ** Data *)

Record ShareLinkRow := {
  sk_id : string;
  sk_userId : string;
  sk_badgeIds : list string;
  sk_expiresAt : Z;
  sk_requiresAccount : bool;
  sk_revokedAt : option Z;
  sk_createdAt : Z;
}.

Record ShareLinkView := { sv_shareLinkId : string; sv_viewerUserId : option string; sv_viewedAt : Z }.

(** Links by token; audit rows (user, action, detail); mails (to, subject). *)
Record ShareDB := {
  sd_users : gmap string UserFlags;
  sd_badges : list BadgeRow;
  sd_links : gmap string ShareLinkRow;
  sd_views : list ShareLinkView;
  sd_audit : list (string * string * string);
  sd_mails : list (string * string);
}.

Definition with_links (m : gmap string ShareLinkRow) (db : ShareDB) : ShareDB :=
  {| sd_users := sd_users db; sd_badges := sd_badges db; sd_links := m; sd_views := sd_views db;
     sd_audit := sd_audit db; sd_mails := sd_mails db |}.
Definition addView (v : ShareLinkView) (db : ShareDB) : ShareDB :=
  {| sd_users := sd_users db; sd_badges := sd_badges db; sd_links := sd_links db; sd_views := sd_views db ++ [v];
     sd_audit := sd_audit db; sd_mails := sd_mails db |}.
Definition auditShare (userId action detail : string) (db : ShareDB) : ShareDB :=
  {| sd_users := sd_users db; sd_badges := sd_badges db; sd_links := sd_links db; sd_views := sd_views db;
     sd_audit := sd_audit db ++ [(userId, action, detail)]; sd_mails := sd_mails db |}.
Definition mailShare (to subject : string) (db : ShareDB) : ShareDB :=
  {| sd_users := sd_users db; sd_badges := sd_badges db; sd_links := sd_links db; sd_views := sd_views db;
     sd_audit := sd_audit db; sd_mails := sd_mails db ++ [(to, subject)] |}.

Record ShareWorld := {
  sw_vc : VcWorld;
  sw_pairwise : PairwiseEnv;
  sw_isCuid : string → bool;
  sw_isEmail : string → bool;
  sw_zod : string → string;
  sw_mail : string → bool;
}.

Definition DEFAULT_SHARE_TTL_DAYS : Z := 7.
Definition MAX_SHARE_TTL_DAYS : Z := 90.
Definition DAY_MS : Z := 24 * 60 * 60 * 1000.

(** A pseudonym; the served value does not depend on the comparisons in flight. *)
Definition pairwiseValue (env : PairwiseEnv) (family : PairwiseFamily) (a b : string) : result string string :=
  (derivePairwise env family (taggedInput family a b) {| ps_inFlight := []; ps_events := [] |}).1.

(** ** Opening a link *)

Record SharedBadge := { sb_id : string; sb_type : string; sb_attributes : option (gmap string RowAttr); sb_vcJwt : string }.

Record SharedLink := {
  sh_linkId : string;
  sh_ownerUserId : string;
  sh_requiresAccount : bool;
  sh_expiresAt : Z;
  sh_createdAt : Z;
  sh_badges : list SharedBadge;
}.

Section Handlers.
Context (w : ShareWorld) (now : Z).

(** The badges of a link, in the order the owner chose. *)
Definition badgeOrder (badgeIds : list string) : list (string * Z) :=
  foldl (fun m '(i, id) => jset id (Z.of_nat i) m) [] (imap pair badgeIds).

Definition orderOf (badgeIds : list string) (b : BadgeRow) : Z := jget (br_id b) (badgeOrder badgeIds) ?? 0.

Definition linkBadges (row : ShareLinkRow) (db : ShareDB) : list BadgeRow :=
  js_sort (fun a b => orderOf (sk_badgeIds row) a - orderOf (sk_badgeIds row) b)
    (filter (fun b => br_userId b = sk_userId row ∧ br_id b ∈ sk_badgeIds row ∧ br_issuer b = vw_did (sw_vc w)) (sd_badges db)).

Definition shareOptions (row : ShareLinkRow) (subjectId jti : string) (b : BadgeRow) : RemintOptions :=
  {| ro_subjectId := subjectId; ro_jti := jti;
     ro_maxExpiresAt := Some (match br_expiresAt b with
                              | Some e => if e <? sk_expiresAt row then e else sk_expiresAt row
                              | None => sk_expiresAt row
                              end);
     ro_notBefore := None; ro_sanitizeClaims := Some (sanitizeDisclosedClaims (sw_isEmail w));
     ro_disclosureTtlSeconds := None; ro_nullifier := None; ro_credentialStatus := None |}.

(** The id and the credential of one badge on the page; an error omits it. *)
Definition mintShared (row : ShareLinkRow) (subjectId : string) (b : BadgeRow) : result string (string * string) :=
  jti ← pairwiseValue (sw_pairwise w) FShareLinkJti (br_id b) (sk_id row);
  vcJwt ← reMintVc (sw_vc w) now (br_vcJwt b) (shareOptions row subjectId jti b);
  Ok (jti, vcJwt).

Definition discloseShared (row : ShareLinkRow) (subjectId : string) (b : BadgeRow) : thread ShareDB (option SharedBadge) :=
  match getBadgeType (br_type b) with
  | None => mret None
  | Some meta =>
      if bt_revocable meta then
        _ ← write (auditShare (sk_userId row) "sharelink.badge_disclosure_omitted" "revocable-badge-excluded-from-share-links");
        mret None
      else
        match mintShared row subjectId b with
        | Err reason => _ ← write (auditShare (sk_userId row) "sharelink.badge_disclosure_omitted" reason); mret None
        | Ok (jti, vcJwt) =>
            mret (Some {| sb_id := jti; sb_type := br_type b; sb_attributes := br_attributes b; sb_vcJwt := vcJwt |})
        end
  end.

Fixpoint discloseAllShared (row : ShareLinkRow) (subjectId : string) (bs : list BadgeRow) : thread ShareDB (list SharedBadge) :=
  match bs with
  | [] => mret []
  | b :: rest =>
      shared ← discloseShared row subjectId b;
      others ← discloseAllShared row subjectId rest;
      mret (match shared with Some s => s :: others | None => others end)
  end.

Definition linkDead (row : ShareLinkRow) : bool :=
  bool_decide (sk_revokedAt row ≠ None) || (sk_expiresAt row <? now).

Definition loadShareLinkByToken (token : string) : thread ShareDB (result string (option SharedLink)) :=
  row ← read (fun db => sd_links db !! token);
  match row with
  | None => mret (Ok None)
  | Some row =>
      if linkDead row then mret (Ok None)
      else
        badges ← read (linkBadges row);
        sub ←! attempt (pairwiseValue (sw_pairwise w) FShareLinkSub (sk_userId row) (sk_id row));
        disclosed ← discloseAllShared row (buildPairwiseDid (vw_domain (sw_vc w)) sub) badges;
        mret (Ok (Some {| sh_linkId := sk_id row; sh_ownerUserId := sk_userId row;
                          sh_requiresAccount := sk_requiresAccount row; sh_expiresAt := sk_expiresAt row;
                          sh_createdAt := sk_createdAt row; sh_badges := disclosed |}))
  end.

Inductive SharePageResult := TooManyRequests | LinkUnavailable | SignInRequired | Shown (link : SharedLink).

(** The page; [allowed] is the verdict of the view limiter. *)
Definition SharePage (allowed : bool) (auth : option Session) (token : string) : thread ShareDB (result string SharePageResult) :=
  if negb allowed then mret (Ok TooManyRequests)
  else
    link ←! loadShareLinkByToken token;
    match link with
    | None => mret (Ok LinkUnavailable)
    | Some link =>
        session ← read (fun db => getCurrentSession auth (sd_users db));
        if sh_requiresAccount link && bool_decide (session = None) then
          _ ← write (addView {| sv_shareLinkId := sh_linkId link; sv_viewerUserId := None; sv_viewedAt := now |});
          mret (Ok SignInRequired)
        else
          _ ← write (addView {| sv_shareLinkId := sh_linkId link; sv_viewerUserId := s_userId <$> session; sv_viewedAt := now |});
          mret (Ok (Shown link))
    end.

(** ** Creating and revoking *)

(** [None] for a field that is absent; [ttlDays] that is not an integer is [Some None]. *)
Record CreateShareInput := {
  ci_badgeIds : list string;
  ci_ttlDays : option (option Z);
  ci_requiresAccount : option bool;
  ci_sendToEmail : option string;
}.

Record CreateShareData := { cs_badgeIds : list string; cs_ttlDays : Z; cs_requiresAccount : bool; cs_sendToEmail : option string }.

Definition parseCreate (input : CreateShareInput) : result string CreateShareData :=
  _ ← guard_or (negb (bool_decide (ci_badgeIds input = []))) "Pick at least one badge";
  _ ← guard_or (forallb (sw_isCuid w) (ci_badgeIds input)) (sw_zod w "badgeIds");
  ttlDays ← match ci_ttlDays input with
            | None => Ok DEFAULT_SHARE_TTL_DAYS
            | Some None => Err (sw_zod w "ttlDays")
            | Some (Some n) => if (1 <=? n) && (n <=? MAX_SHARE_TTL_DAYS) then Ok n else Err (sw_zod w "ttlDays")
            end;
  sendToEmail ← match ci_sendToEmail input with
                | None => Ok None
                | Some e => if sw_isEmail w e then Ok (Some e)
                            else if bool_decide (e = "") then Ok None else Err (sw_zod w "sendToEmail")
                end;
  Ok {| cs_badgeIds := ci_badgeIds input; cs_ttlDays := ttlDays; cs_requiresAccount := ci_requiresAccount input ?? false;
        cs_sendToEmail := sendToEmail |}.

(** [origin.replace(/\/$/, "")] *)
Fixpoint dropTrailingSlash (s : string) : string :=
  match s with
  | EmptyString => EmptyString
  | String c EmptyString => if bool_decide (c = "/"%char) then EmptyString else s
  | String c s' => String c (dropTrailingSlash s')
  end.

Definition buildShareUrl (origin token : string) : string := dropTrailingSlash origin +:+ "/share/" +:+ token.

Definition ownedBadges (userId : string) (badgeIds : list string) (db : ShareDB) : list BadgeRow :=
  filter (fun b => br_userId b = userId ∧ br_id b ∈ badgeIds) (sd_badges db).

(** [shareLink.create]: the unique token and the id throw when taken. *)
Definition createLinkRow (token : string) (row : ShareLinkRow) (db : ShareDB) : result string unit * ShareDB :=
  if bool_decide (sd_links db !! token ≠ None) || existsb (fun '(_, r) => bool_decide (sk_id r = sk_id row)) (map_to_list (sd_links db))
  then (Err "Unique constraint failed", db)
  else (Ok tt, with_links (<[token := row]> (sd_links db)) db).

Definition requireShareSession (auth : option Session) (db : ShareDB) : result string Session :=
  match requireSession auth (sd_users db) with Ok s => Ok s | Err _ => Err "Not signed in" end.

(** A thrown error is [Err]; a refusal is [Ok (Err _)]; [token] and [id] are the draws. *)
Definition createShareLink (auth : option Session) (input : CreateShareInput) (origin token id : string) :
    thread ShareDB (result string (result string (string * string))) :=
  session ←! read (requireShareSession auth);
  match parseCreate input with
  | Err e => mret (Ok (Err e))
  | Ok data =>
      let userId := s_userId session in
      owned ← read (ownedBadges userId (cs_badgeIds data));
      if negb (Nat.eqb (length owned) (length (cs_badgeIds data))) then mret (Ok (Err "Some badges are not yours"))
      else if existsb (fun b => match getBadgeType (br_type b) with Some m => bt_revocable m | None => false end) owned
      then mret (Ok (Err "Group membership badges can't be shared via a link because they can be revoked. Disclose them by signing in to an app instead."))
      else
        _ ←! act (createLinkRow token
               {| sk_id := id; sk_userId := userId; sk_badgeIds := cs_badgeIds data;
                  sk_expiresAt := now + cs_ttlDays data * 24 * 60 * 60 * 1000;
                  sk_requiresAccount := cs_requiresAccount data; sk_revokedAt := None; sk_createdAt := now |});
        let url := buildShareUrl origin token in
        _ ← write (auditShare userId "share_link.created" id);
        sent ← match cs_sendToEmail data with
               | None => mret (Ok tt)
               | Some to =>
                   act (fun db => if sw_mail w to
                                  then (Ok tt, mailShare to "Someone shared their Minister badges with you" db)
                                  else (Err "mail", db))
               end;
        mret (match sent with Ok _ => Ok (Ok (token, url)) | Err e => Err e end)
  end.

(** [updateMany] on the owner's unrevoked link of that id; the number of rows written. *)
Definition revokeRow (shareLinkId userId : string) (r : ShareLinkRow) : bool :=
  bool_decide (sk_id r = shareLinkId ∧ sk_userId r = userId ∧ sk_revokedAt r = None).

Definition setRevoked (t : Z) (r : ShareLinkRow) : ShareLinkRow :=
  {| sk_id := sk_id r; sk_userId := sk_userId r; sk_badgeIds := sk_badgeIds r; sk_expiresAt := sk_expiresAt r;
     sk_requiresAccount := sk_requiresAccount r; sk_revokedAt := Some t; sk_createdAt := sk_createdAt r |}.

Definition revokeWhere (shareLinkId userId : string) (db : ShareDB) : nat * ShareDB :=
  (length (filter (fun e => revokeRow shareLinkId userId e.2 = true) (map_to_list (sd_links db))),
   with_links ((fun r => if revokeRow shareLinkId userId r then setRevoked now r else r) <$> sd_links db) db).

Definition revokeShareLink (auth : option Session) (shareLinkId : string) : thread ShareDB (result string (result string unit)) :=
  session ←! read (requireShareSession auth);
  if negb (sw_isCuid w shareLinkId) then mret (Ok (Err "Invalid input"))
  else
    count ← act (revokeWhere shareLinkId (s_userId session));
    if Nat.eqb count 0 then mret (Ok (Err "Share link not found or already revoked"))
    else
      _ ← write (auditShare (s_userId session) "share_link.revoked" shareLinkId);
      mret (Ok (Ok tt)).

(** ** Listings *)

Definition FULL_EMAIL_DISCLOSING_TYPES : list string := ["email-exact"].
Definition disclosesFullEmail (badgeType : string) : bool := bool_decide (badgeType ∈ FULL_EMAIL_DISCLOSING_TYPES).

Inductive LinkStatus := LinkActive | LinkExpired | LinkRevoked.

Definition linkStatus (r : ShareLinkRow) : LinkStatus :=
  if bool_decide (sk_revokedAt r ≠ None) then LinkRevoked else if sk_expiresAt r <? now then LinkExpired else LinkActive.

Record ShareLinkSummary := {
  sm_id : string; sm_token : string; sm_badgeCount : nat; sm_requiresAccount : bool; sm_createdAt : Z;
  sm_expiresAt : Z; sm_revokedAt : option Z; sm_viewCount : nat; sm_status : LinkStatus; sm_exposesFullEmail : bool;
}.

(** Rows by descending creation. *)
Definition newestFirst (l : list (string * ShareLinkRow)) : list (string * ShareLinkRow) :=
  js_sort (fun a b => sk_createdAt b.2 - sk_createdAt a.2) l.

Definition loadUserShareLinks (userId : string) : thread ShareDB (list ShareLinkSummary) :=
  rows ← read (fun db => (newestFirst (filter (fun e => sk_userId e.2 = userId) (map_to_list (sd_links db))), sd_views db));
  let allBadgeIds := set_of (flat_map (fun e => sk_badgeIds e.2) rows.1) in
  fullEmailBadgeIds ←
    (if bool_decide (allBadgeIds = []) then mret []
     else read (fun db => br_id <$> filter (fun b => br_userId b = userId ∧ br_id b ∈ allBadgeIds ∧
                                              disclosesFullEmail (br_type b) = true) (sd_badges db)));
  mret (map (fun e : string * ShareLinkRow =>
    {| sm_id := sk_id e.2; sm_token := e.1; sm_badgeCount := length (sk_badgeIds e.2);
       sm_requiresAccount := sk_requiresAccount e.2; sm_createdAt := sk_createdAt e.2; sm_expiresAt := sk_expiresAt e.2;
       sm_revokedAt := sk_revokedAt e.2;
       sm_viewCount := length (filter (fun v => sv_shareLinkId v = sk_id e.2) rows.2);
       sm_status := linkStatus e.2;
       sm_exposesFullEmail := existsb (fun id => bool_decide (id ∈ fullEmailBadgeIds)) (sk_badgeIds e.2) |}) rows.1).

Record IncomingShareLinkSummary := {
  im_token : string; im_badgeCount : nat; im_requiresAccount : bool; im_expiresAt : Z; im_lastViewedAt : Z; im_status : LinkStatus;
}.

(** The user's views of a link, latest first. *)
Definition viewsBy (userId linkId : string) (db : ShareDB) : list ShareLinkView :=
  js_sort (fun a b => sv_viewedAt b - sv_viewedAt a)
    (filter (fun v => sv_shareLinkId v = linkId ∧ sv_viewerUserId v = Some userId) (sd_views db)).

Definition loadIncomingShareLinks (userId : string) (db : ShareDB) : list IncomingShareLinkSummary :=
  omap (fun e : string * ShareLinkRow =>
    match viewsBy userId (sk_id e.2) db with
    | v :: _ => Some {| im_token := e.1; im_badgeCount := length (sk_badgeIds e.2); im_requiresAccount := sk_requiresAccount e.2;
                        im_expiresAt := sk_expiresAt e.2; im_lastViewedAt := sv_viewedAt v; im_status := linkStatus e.2 |}
    | [] => None
    end)
    (newestFirst (filter (fun e => sk_userId e.2 ≠ userId) (map_to_list (sd_links db)))).

End Handlers.

(** ** Requests *)

Inductive ShareRequest :=
  | OpenLink (now : Z) (allowed : bool) (auth : option Session) (token : string)
  | CreateLink (now : Z) (auth : option Session) (input : CreateShareInput) (origin token id : string)
  | RevokeLink (now : Z) (auth : option Session) (shareLinkId : string).

Inductive ShareResponse :=
  | Opened (r : result string SharePageResult)
  | Created (r : result string (result string (string * string)))
  | Revoked (r : result string (result string unit)).

Definition respond (w : ShareWorld) (rq : ShareRequest) : thread ShareDB ShareResponse :=
  match rq with
  | OpenLink now allowed auth token => r ← SharePage w now allowed auth token; mret (Opened r)
  | CreateLink now auth input origin token id => r ← createShareLink w now auth input origin token id; mret (Created r)
  | RevokeLink now auth shareLinkId => r ← revokeShareLink w now auth shareLinkId; mret (Revoked r)
  end.

(** The response, with the request it answers. *)
Definition handleShare (w : ShareWorld) (rq : ShareRequest) : thread ShareDB (ShareRequest * ShareResponse) :=
  a ← respond w rq; mret (rq, a).

Definition serveShare (w : ShareWorld) (rqs : list ShareRequest) (sched : list nat) (db : ShareDB) :=
  pool_run sched (map (handleShare w) rqs, db).

(** ** Lemmas *)

(** Rendering a link writes audit rows only. *)
Record render_frame (db db' : ShareDB) : Prop := {
  rf_users : sd_users db' = sd_users db;
  rf_badges : sd_badges db' = sd_badges db;
  rf_links : sd_links db' = sd_links db;
  rf_views : sd_views db' = sd_views db;
  rf_mails : sd_mails db' = sd_mails db;
}.

#[export] Instance render_frame_preorder : PreOrder render_frame.
Proof. split; [by split|]. intros a b c [] []; split; congruence. Qed.

Lemma auditShare_frame u a d db : render_frame db (auditShare u a d db).
Proof. by split. Qed.

#[export] Hint Resolve auditShare_frame : minister.

Lemma discloseShared_frame w now row subject b : steps_in render_frame (discloseShared w now row subject b).
Proof.
  unfold discloseShared. destruct (getBadgeType (br_type b)) as [meta|]; [|done].
  destruct (bt_revocable meta); [apply steps_in_bind; [apply steps_in_write; auto with minister|done]|].
  destruct (mintShared w now row subject b) as [[jti vc]|e]; [done|].
  apply steps_in_bind; [apply steps_in_write; auto with minister|done].
Qed.

Lemma discloseAllShared_frame w now row subject bs : steps_in render_frame (discloseAllShared w now row subject bs).
Proof.
  induction bs as [|b bs IH]; [done|]. cbn [discloseAllShared]. apply steps_in_bind; [apply discloseShared_frame|].
  intros s. by apply steps_in_bind.
Qed.

Lemma load_frame w now token : steps_in render_frame (loadShareLinkByToken w now token).
Proof.
  unfold loadShareLinkByToken. apply steps_in_bind; [apply steps_in_read, _|]. intros [row|]; [|done].
  destruct (linkDead now row); [done|]. apply steps_in_bind; [apply steps_in_read, _|]. intros badges.
  unfold tbind. apply steps_in_bind; [done|]. intros [sub|e]; [|done].
  apply steps_in_bind; [apply discloseAllShared_frame|done].
Qed.

(** A badge on the page: an unrevocable badge of the owner, chosen for the link, re-minted
    about the link's pseudonym, expiring with the link and with the badge. *)
Record shown_badge (w : ShareWorld) (now : Z) (row : ShareLinkRow) (subjectId : string) (b : BadgeRow) (s : SharedBadge) : Prop := {
  sn_owner : br_userId b = sk_userId row;
  sn_chosen : br_id b ∈ sk_badgeIds row;
  sn_issuer : br_issuer b = vw_did (sw_vc w);
  sn_type : sb_type s = br_type b;
  sn_meta : ∃ meta, getBadgeType (br_type b) = Some meta ∧ bt_revocable meta = false;
  sn_id : pairwiseValue (sw_pairwise w) FShareLinkJti (br_id b) (sk_id row) = Ok (sb_id s);
  sn_vc : ∃ o claims month expSec,
    signCompactJwt (sw_vc w) (vcHeader (sw_vc w))
      (disclosure (sw_vc w) now (shareOptions w row subjectId (sb_id s) b) o claims month expSec) = Some (sb_vcJwt s) ∧
    expSec <= sk_expiresAt row / 1000 ∧ (∀ e, br_expiresAt b = Some e → expSec <= e / 1000);
}.

Lemma mintShared_ok w now row subjectId b jti vc :
  mintShared w now row subjectId b = Ok (jti, vc) →
  pairwiseValue (sw_pairwise w) FShareLinkJti (br_id b) (sk_id row) = Ok jti ∧
  ∃ o claims month expSec,
    signCompactJwt (sw_vc w) (vcHeader (sw_vc w))
      (disclosure (sw_vc w) now (shareOptions w row subjectId jti b) o claims month expSec) = Some vc ∧
    expSec <= sk_expiresAt row / 1000 ∧ (∀ e, br_expiresAt b = Some e → expSec <= e / 1000).
Proof.
  unfold mintShared. intros H. apply bind_Ok in H as (j & Hj & H). apply bind_Ok in H as (v & Hv & H). simplify_eq.
  split; [done|]. apply remint_ok in Hv as (d & o & claims & month & expSec & _ & _ & _ & _ & He & Hs).
  exists o, claims, month, expSec. split; [done|]. apply remintExp_ok in He as (_ & _ & ->). cbn [shareOptions ro_maxExpiresAt].
  destruct (br_expiresAt b) as [e|]; cbn [fmap option_fmap option_map clamp]; [|split; [lia|done]].
  pose proof (Z.div_le_mono e (sk_expiresAt row) 1000). pose proof (Z.div_le_mono (sk_expiresAt row) e 1000).
  destruct (Z.ltb_spec e (sk_expiresAt row)); (split; [lia|intros ? [= <-]; lia]).
Qed.

Lemma discloseAll_shown w now row subjectId bs db :
  Forall (fun b => br_userId b = sk_userId row ∧ br_id b ∈ sk_badgeIds row ∧ br_issuer b = vw_did (sw_vc w)) bs →
  Forall (fun s => ∃ b, b ∈ bs ∧ shown_badge w now row subjectId b s) (run_solo (discloseAllShared w now row subjectId bs) db).1.
Proof.
  revert db. induction bs as [|b bs IH]; intros db Hbs; [constructor|].
  apply Forall_cons in Hbs as [(Hu & Hid & Hiss) Hbs]. cbn [discloseAllShared]. rewrite !run_solo_bind. cbn [run_solo mret thread_ret fst].
  specialize (IH (run_solo (discloseShared w now row subjectId b) db).2 Hbs).
  assert (Forall (fun s => ∃ b0, b0 ∈ b :: bs ∧ shown_badge w now row subjectId b0 s)
            (run_solo (discloseAllShared w now row subjectId bs) (run_solo (discloseShared w now row subjectId b) db).2).1) as IH'.
  { eapply Forall_impl; [exact IH|]. intros s (b0 & ? & ?). exists b0. split; [by right|done]. }
  destruct (run_solo (discloseShared w now row subjectId b) db).1 as [s|] eqn:E; [|exact IH'].
  constructor; [|exact IH']. exists b. split; [left|].
  unfold discloseShared in E. destruct (getBadgeType (br_type b)) as [meta|] eqn:Em; [|done].
  destruct (bt_revocable meta) eqn:Er; [done|].
  destruct (mintShared w now row subjectId b) as [[jti vc]|e] eqn:Ev; [|done]. cbn in E. injection E as <-.
  apply mintShared_ok in Ev as [Hj Hv]. split; eauto.
Qed.

Lemma linkBadges_ok w row db :
  Forall (fun b => b ∈ sd_badges db ∧ br_userId b = sk_userId row ∧ br_id b ∈ sk_badgeIds row ∧ br_issuer b = vw_did (sw_vc w))
    (linkBadges w row db).
Proof.
  apply Forall_forall. unfold linkBadges. intros b Hb%elem_of_js_sort. apply list_elem_of_filter in Hb. tauto.
Qed.

(** What no handler takes away: a link stays, with its owner, badges, expiry and gate, and a
    revocation is final. *)
Record same_link (r r' : ShareLinkRow) : Prop := {
  sl_id_eq : sk_id r' = sk_id r;
  sl_owner_eq : sk_userId r' = sk_userId r;
  sl_badges_eq : sk_badgeIds r' = sk_badgeIds r;
  sl_expires_eq : sk_expiresAt r' = sk_expiresAt r;
  sl_gate_eq : sk_requiresAccount r' = sk_requiresAccount r;
  sl_revoked_mono : sk_revokedAt r ≠ None → sk_revokedAt r' ≠ None;
}.

Definition links_grow (db db' : ShareDB) : Prop :=
  ∀ token r, sd_links db !! token = Some r → ∃ r', sd_links db' !! token = Some r' ∧ same_link r r'.

#[export] Instance same_link_preorder : PreOrder same_link.
Proof. split; [by split|]. intros a b c [] []; split; try congruence; auto. Qed.

#[export] Instance links_grow_preorder : PreOrder links_grow.
Proof.
  split; [intros db token r Hr; by exists r|]. intros a b c H1 H2 token r Hr.
  destruct (H1 _ _ Hr) as (r1 & Hr1 & S1). destruct (H2 _ _ Hr1) as (r2 & Hr2 & S2).
  exists r2. split; [done|]. by etrans.
Qed.

Lemma same_links_grow db db' : sd_links db' = sd_links db → links_grow db db'.
Proof. intros H token r Hr. exists r. rewrite H. by split. Qed.

Lemma dead_grows now r r' : same_link r r' → linkDead now r = true → linkDead now r' = true.
Proof.
  intros [_ _ _ He _ Hr] [H|H]%orb_true_iff; unfold linkDead; apply orb_true_iff.
  - left. bool_hyps. by apply bool_decide_eq_true_2, Hr.
  - right. by rewrite He.
Qed.

Lemma createLinkRow_grow token row db : links_grow db (createLinkRow token row db).2.
Proof.
  unfold createLinkRow. destruct (bool_decide (sd_links db !! token ≠ None)) eqn:E; cbn [orb]; [done|].
  destruct (existsb _ _); [done|]. bool_hyps. intros t r Hr. cbn [snd with_links sd_links].
  destruct (decide (t = token)) as [->|]; [|rewrite lookup_insert_ne by done; by exists r].
  destruct E. by rewrite Hr.
Qed.

Lemma revokeWhere_grow now id userId db : links_grow db (revokeWhere now id userId db).2.
Proof.
  intros t r Hr. cbn [revokeWhere snd with_links sd_links]. rewrite lookup_fmap, Hr. cbn.
  eexists. split; [done|]. by destruct (revokeRow id userId r); split.
Qed.

Lemma frame_grows db db' : render_frame db db' → links_grow db db'.
Proof. intros []. by apply same_links_grow. Qed.

Lemma steps_in_weaken {DB A} (R R' : DB → DB → Prop) (t : thread DB A) :
  (∀ db db', R db db' → R' db db') → steps_in R t → steps_in R' t.
Proof. intros HR. induction t as [a|f k IH]; simpl; [done|]. intros H db. destruct (H db). auto. Qed.

Lemma steps_in_tbind {DB E A B} (R : DB → DB → Prop) (t : thread DB (result E A)) (k : A → thread DB (result E B)) :
  steps_in R t → (∀ a, steps_in R (k a)) → steps_in R (tbind t k).
Proof. intros Ht Hk. apply steps_in_bind; [done|]. by intros [a|e]. Qed.

(** Link ids are unique; creating and revoking keep that and the views. *)
Definition unique_ids (db : ShareDB) : Prop :=
  ∀ t t' r r', sd_links db !! t = Some r → sd_links db !! t' = Some r' → sk_id r = sk_id r' → t = t'.

Record keeps_views (db db' : ShareDB) : Prop := {
  kv_grow : links_grow db db';
  kv_unique : unique_ids db → unique_ids db';
  kv_views : sd_views db' = sd_views db;
}.

#[export] Instance keeps_views_preorder : PreOrder keeps_views.
Proof. split; [by split|]. intros a b c [] []; split; [by etrans|auto|congruence]. Qed.

Lemma same_links_keep db db' : sd_links db' = sd_links db → sd_views db' = sd_views db → keeps_views db db'.
Proof. intros Hl Hv. split; [by apply same_links_grow| |done]. unfold unique_ids. by rewrite Hl. Qed.

Lemma createLinkRow_keep token row db : keeps_views db (createLinkRow token row db).2.
Proof.
  split; [apply createLinkRow_grow| |].
  - unfold createLinkRow. destruct (bool_decide (sd_links db !! token ≠ None)); cbn [orb]; [done|].
    destruct (existsb _ _) eqn:Ex; [done|]. intros Hu t t' r r'. cbn [snd with_links sd_links].
    assert (∀ t r, sd_links db !! t = Some r → sk_id r ≠ sk_id row) as Hnew.
    { intros t0 r0 H0 Heq. eapply not_true_iff_false; [exact Ex|]. apply existsb_exists. exists (t0, r0). split.
      - by apply list_elem_of_In, elem_of_map_to_list.
      - by apply bool_decide_eq_true_2. }
    intros [[<- <-]|[? H1]]%lookup_insert_Some [[<- <-]|[? H2]]%lookup_insert_Some Heq; try done.
    + by destruct (Hnew _ _ H2).
    + by destruct (Hnew _ _ H1).
    + by eapply Hu.
  - unfold createLinkRow. by destruct (_ || _).
Qed.

Lemma revokeWhere_keep now id userId db : keeps_views db (revokeWhere now id userId db).2.
Proof.
  split; [apply revokeWhere_grow| |done]. intros Hu t t' r r'. cbn [revokeWhere snd with_links sd_links].
  rewrite !lookup_fmap. intros (r1 & H1 & ->)%fmap_Some (r2 & H2 & ->)%fmap_Some Heq. eapply Hu; [done..|].
  by destruct (revokeRow id userId r1), (revokeRow id userId r2).
Qed.

Lemma createShareLink_keep w now auth input origin token id :
  steps_in keeps_views (createShareLink w now auth input origin token id).
Proof.
  unfold createShareLink. apply steps_in_tbind; [apply steps_in_read, _|]. intros session.
  destruct (parseCreate w input) as [data|e]; [|done]. apply steps_in_bind; [apply steps_in_read, _|]. intros owned.
  destruct (negb _); [done|]. destruct (existsb _ owned); [done|].
  apply steps_in_tbind; [apply steps_in_act; intros db; apply createLinkRow_keep|]. intros [].
  apply steps_in_bind; [apply steps_in_write; intros db; by apply same_links_keep|]. intros [].
  apply steps_in_bind; [|done]. destruct (cs_sendToEmail data) as [to|]; [|done].
  apply steps_in_act. intros db. destruct (sw_mail w to); by apply same_links_keep.
Qed.

Lemma revokeShareLink_keep w now auth id : steps_in keeps_views (revokeShareLink w now auth id).
Proof.
  unfold revokeShareLink. apply steps_in_tbind; [apply steps_in_read, _|]. intros session.
  destruct (negb _); [done|]. apply steps_in_bind; [apply steps_in_act; intros db; apply revokeWhere_keep|]. intros n.
  destruct (Nat.eqb n 0); [done|]. apply steps_in_bind; [|done].
  apply steps_in_write. intros db. by apply same_links_keep.
Qed.

Lemma load_keep w now token : steps_in keeps_views (loadShareLinkByToken w now token).
Proof. eapply steps_in_weaken; [|apply load_frame]. intros db db' []. by apply same_links_keep. Qed.

Lemma addView_grow v db : links_grow db (addView v db).
Proof. by apply same_links_grow. Qed.

Lemma keep_grows {A} (t : thread ShareDB A) : steps_in keeps_views t → steps_in links_grow t.
Proof. apply steps_in_weaken. by intros db db' []. Qed.

Lemma respond_grow w rq : steps_in links_grow (respond w rq).
Proof.
  destruct rq as [now allowed auth token|now auth input origin token id|now auth id]; cbn [respond];
    (apply steps_in_bind; [|done]).
  - unfold SharePage. destruct (negb allowed); [done|].
    apply steps_in_tbind; [apply keep_grows, load_keep|]. intros [l|]; [|done].
    apply steps_in_bind; [apply steps_in_read, _|]. intros session.
    destruct (_ && _); (apply steps_in_bind; [apply steps_in_write, addView_grow|done]).
  - apply keep_grows, createShareLink_keep.
  - apply keep_grows, revokeShareLink_keep.
Qed.

(** A page for a dead link shows nothing. *)
Lemma SharePage_dead w now allowed auth token db0 r0 :
  sd_links db0 !! token = Some r0 → linkDead now r0 = true →
  stays (links_grow db0) (fun r => ∀ link, r ≠ Ok (Shown link)) (SharePage w now allowed auth token).
Proof.
  intros Hr0 Hd. unfold SharePage. destruct (negb allowed); [done|]. apply stays_tbind.
  unfold loadShareLinkByToken. apply stays_bind, stays_read. intros db Hg.
  destruct (Hg _ _ Hr0) as (r & -> & Hs). by rewrite (dead_grows _ _ _ Hs Hd).
Qed.

(** ** Links *)


(** A dead link stays dead. Whatever requests run together and however they interleave, a
    link that is revoked or past its expiry when they start is never shown again: no request
    removes a revocation, extends an expiry or takes over its token. *)
Theorem dead_link_discloses_nothing w rqs sched db token row :
  sd_links db !! token = Some row →
  Forall (fun '(rq, a) => ∀ now allowed auth link,
      rq = OpenLink now allowed auth token → linkDead now row = true → a ≠ Opened (Ok (Shown link)))
    (returned (serveShare w rqs sched db).1).
Proof.
  intros Hrow. unfold serveShare.
  refine (proj2 (stays_pool (links_grow db) (fun p : ShareRequest * ShareResponse => let '(rq, a) := p in
    ∀ now allowed auth link, rq = OpenLink now allowed auth token → linkDead now row = true → a ≠ Opened (Ok (Shown link)))
    (map (handleShare w) rqs) sched db _ _)); [|done].
  apply Forall_forall. intros t (rq & -> & _)%list_elem_of_fmap. unfold handleShare. apply stays_bind.
  assert (∀ rq, (∀ now allowed auth, rq = OpenLink now allowed auth token → linkDead now row = false) →
    stays (links_grow db) (fun a => stays (links_grow db) (fun p : ShareRequest * ShareResponse => let '(rq, a) := p in
      ∀ now allowed auth link, rq = OpenLink now allowed auth token → linkDead now row = true → a ≠ Opened (Ok (Shown link)))
      (mret (rq, a))) (respond w rq)) as Hother.
  { intros rq' Hrq. eapply stays_impl; [|eapply stays_frame, (respond_grow w rq'); intros; by etrans].
    intros a _. apply stays_ret. intros now allowed auth link -> Hd. by rewrite (Hrq _ _ _ eq_refl) in Hd. }
  destruct rq as [now allowed auth token'| |]; [|by apply Hother..].
  destruct (decide (token' = token)) as [->|]; [|apply Hother; congruence].
  destruct (linkDead now row) eqn:Hd; [|apply Hother; congruence].
  cbn [respond]. apply stays_bind. eapply stays_impl; [|by apply (SharePage_dead w now allowed auth token db row)].
  intros r Hr. apply stays_ret. intros n al au l _ _ [= ->]. by eapply Hr.
Qed.

(** What the views may say about a viewer [u] of the link of [r0]. *)
Section Incoming.
Context (w : ShareWorld) (rqs : list ShareRequest) (db0 : ShareDB) (token u : string) (r0 : ShareLinkRow).

Definition requested : Prop :=
  ∃ now session, OpenLink now true (Some session) token ∈ rqs ∧ s_userId session = u.

Definition views_earned (db : ShareDB) : Prop :=
  links_grow db0 db ∧ unique_ids db ∧
  ∀ v, v ∈ sd_views db → sv_viewerUserId v = Some u → sv_shareLinkId v = sk_id r0 → v ∈ sd_views db0 ∨ requested.

Lemma views_earned_keep db db' : views_earned db → keeps_views db db' → views_earned db'.
Proof using. intros (Hg & Hu & Hv) [G U V]. split_and!; [by etrans|auto|]. by rewrite V. Qed.

Lemma addView_earned v db :
  views_earned db → (sv_viewerUserId v = Some u → sv_shareLinkId v = sk_id r0 → requested) → views_earned (addView v db).
Proof using.
  intros (Hg & Hu & Hv) Hnew. split_and!; [etrans; [done|apply addView_grow]|done|].
  intros v' [H|H%list_elem_of_singleton]%elem_of_app Hw Hid; [by apply Hv|]. subst v'. right. auto.
Qed.

Hypothesis Hr0 : sd_links db0 !! token = Some r0.

(** The link a page loads has the id of [r0] only under its token. *)
Lemma load_earned now token' :
  stays views_earned (fun res => ∀ l, res = Ok (Some l) → sh_linkId l = sk_id r0 → token' = token)
    (loadShareLinkByToken w now token').
Proof using Hr0.
  unfold loadShareLinkByToken. apply stays_bind, stays_read. intros db (Hg & Hu & _).
  destruct (sd_links db !! token') as [row|] eqn:E; [|done]. destruct (linkDead now row); [done|].
  assert (sk_id row = sk_id r0 → token' = token) as Htok.
  { destruct (Hg _ _ Hr0) as (r & Hr & Hs). intros Hid. eapply Hu; [done..|]. by rewrite Hid, (sl_id_eq _ _ Hs). }
  apply stays_bind, stays_read. intros db1 _. apply stays_tbind, stays_ret.
  destruct (pairwiseValue _ _ _ _) as [sub|e]; [|done]. apply stays_bind.
  eapply stays_impl; [|eapply stays_frame; [exact views_earned_keep|eapply steps_in_weaken; [|apply discloseAllShared_frame]]].
  - intros bs _. apply stays_ret. intros l [= <-]. exact Htok.
  - intros db2 db3 []. by apply same_links_keep.
Qed.

Lemma respond_earned rq : rq ∈ rqs → stays views_earned (fun _ => True) (respond w rq).
Proof using Hr0.
  intros Hrq. destruct rq as [now allowed auth token'|now auth input origin token' id|now auth id]; cbn [respond].
  - apply stays_bind. unfold SharePage. destruct allowed; cbn [negb]; [|done]. apply stays_tbind.
    eapply stays_impl; [|apply (load_earned now token')]. intros [[l|]|e] Hl; [|done..].
    apply stays_bind, stays_read. intros db _. destruct (_ && _); apply stays_bind.
    + apply stays_write; [|done]. intros db' Hdb'. by apply addView_earned.
    + apply stays_write; [|done]. intros db' Hdb'. apply addView_earned; [done|]. cbn [sv_viewerUserId sv_shareLinkId].
      intros Hu Hid. assert (token' = token) as -> by by eapply Hl.
      destruct (getCurrentSession auth (sd_users db)) as [session|] eqn:Es; [|done]. injection Hu as Hu.
      exists now, session. split; [|done]. unfold getCurrentSession in Es.
      destruct (loadSessionFlags auth (sd_users db)) as [fl|] eqn:Ef; [|done]. injection Es as <-.
      apply loadSessionFlags_live in Ef as [<- _]. exact Hrq.
  - apply stays_bind. eapply stays_impl; [|eapply stays_frame, createShareLink_keep; exact views_earned_keep]. done.
  - apply stays_bind. eapply stays_impl; [|eapply stays_frame, revokeShareLink_keep; exact views_earned_keep]. done.
Qed.

End Incoming.

(** The list of links shared with a user is a consequence of the gate of the page. After
    any pool of requests, a link is listed for a user only if it is another user's, and either
    a view by that user was already recorded or one of the requests opened that very link with
    a session of that user. *)
Theorem incoming_needs_view w rqs sched db token row u now im :
  sd_links db !! token = Some row → unique_ids db →
  im ∈ loadIncomingShareLinks now u (serveShare w rqs sched db).2 → im_token im = token →
  sk_userId row ≠ u ∧
  ((∃ v, v ∈ sd_views db ∧ sv_viewerUserId v = Some u ∧ sv_shareLinkId v = sk_id row) ∨ requested rqs token u).
Proof.
  intros Hrow Hu Him <-.
  destruct (stays_pool (views_earned rqs db (im_token im) u row) (fun _ => True) (map (handleShare w) rqs) sched db)
    as [(Hg & Hu' & Hv) _].
  { apply Forall_forall. intros t (rq & -> & Hrq)%list_elem_of_fmap. unfold handleShare. apply stays_bind.
    eapply stays_impl; [|by apply respond_earned]. done. }
  { split_and!; [done|done|]. by left. }
  fold (serveShare w rqs sched db) in *. set (db' := (serveShare w rqs sched db).2) in *.
  unfold loadIncomingShareLinks in Him. apply list_elem_of_omap in Him as ([t r] & Ht & Hsome).
  unfold newestFirst in Ht. apply elem_of_js_sort, list_elem_of_filter in Ht as [Hne Ht%elem_of_map_to_list]. cbn [fst snd] in *.
  destruct (viewsBy u (sk_id r) db') as [|v vs] eqn:Ev; [done|]. injection Hsome as <-. cbn [im_token] in *.
  destruct (Hg _ _ Hrow) as (r' & Hr' & Hs). rewrite Ht in Hr'. injection Hr' as <-.
  split; [by rewrite <-(sl_owner_eq _ _ Hs)|].
  assert (v ∈ viewsBy u (sk_id r) db') as Hin by (rewrite Ev; left). unfold viewsBy in Hin.
  apply elem_of_js_sort, list_elem_of_filter in Hin as [[Hid Hvw] Hin]. rewrite (sl_id_eq _ _ Hs) in Hid.
  destruct (Hv v Hin Hvw Hid) as [H0|Hreq]; [|by right]. left. eauto.
Qed.

Lemma owned_all userId badgeIds (db : ShareDB) :
  NoDup (br_id <$> sd_badges db) → length (ownedBadges userId badgeIds db) = length badgeIds →
  NoDup badgeIds ∧ ∀ id, id ∈ badgeIds → ∃ b, b ∈ ownedBadges userId badgeIds db ∧ br_id b = id.
Proof.
  intros Hnd Hlen. set (ids := br_id <$> ownedBadges userId badgeIds db).
  assert (NoDup ids) as Hids.
  { eapply sublist_NoDup; [exact Hnd|]. apply fmap_sublist, sublist_filter. }
  assert (ids ⊆+ badgeIds) as Hsub.
  { apply NoDup_submseteq; [done|]. intros id (b & -> & Hb)%list_elem_of_fmap. apply list_elem_of_filter in Hb. tauto. }
  assert (ids ≡ₚ badgeIds) as Hperm by (apply submseteq_length_Permutation; [done|]; unfold ids; rewrite length_fmap; lia).
  split; [by rewrite <-Hperm|]. intros id Hid. rewrite <-Hperm in Hid. apply list_elem_of_fmap in Hid as (b & -> & Hb). eauto.
Qed.

Lemma parseCreate_ok w input data :
  parseCreate w input = Ok data → cs_badgeIds data = ci_badgeIds input ∧ cs_badgeIds data ≠ [] ∧
    1 <= cs_ttlDays data <= MAX_SHARE_TTL_DAYS.
Proof.
  unfold parseCreate. intros H. apply bind_Ok in H as (u1 & H1%guard_or_Ok & H). apply bind_Ok in H as (u2 & _ & H).
  apply bind_Ok in H as (n & Hn & H). apply bind_Ok in H as (e & _ & H). injection H as <-. cbn. bool_hyps.
  split_and!; [done|done| |]; destruct (ci_ttlDays input) as [[m|]|]; try done; run_guards Hn; bool_hyps;
    unfold DEFAULT_SHARE_TTL_DAYS, MAX_SHARE_TTL_DAYS in *; lia.
Qed.

(** Creating a link. A link is stored under a fresh token for the signed-in user, for one
    to ninety days, and covers at least one badge, without repetition, each of them a badge of
    that user that cannot be revoked; a refusal stores nothing. *)
Theorem create_share_sound w now auth input origin token id db r db' :
  NoDup (br_id <$> sd_badges db) →
  run_solo (createShareLink w now auth input origin token id) db = (Ok r, db') →
  match r with
  | Err _ => sd_links db' = sd_links db
  | Ok (token', url) =>
      ∃ session row, requireSession auth (sd_users db) = Ok session ∧ token' = token ∧
        url = buildShareUrl origin token ∧ sd_links db !! token = None ∧
        sd_links db' = <[token := row]> (sd_links db) ∧
        sk_userId row = s_userId session ∧ sk_revokedAt row = None ∧
        now + DAY_MS <= sk_expiresAt row <= now + MAX_SHARE_TTL_DAYS * DAY_MS ∧
        sk_badgeIds row = ci_badgeIds input ∧ sk_badgeIds row ≠ [] ∧ NoDup (sk_badgeIds row) ∧
        ∀ bid, bid ∈ sk_badgeIds row → ∃ b, b ∈ sd_badges db ∧ br_id b = bid ∧ br_userId b = s_userId session ∧
          ∀ meta, getBadgeType (br_type b) = Some meta → bt_revocable meta = false
  end.
Proof.
  intros Hnd. unfold createShareLink. rewrite run_solo_tbind. cbn [read act run_solo fst snd].
  unfold requireShareSession at 1. destruct (requireSession auth (sd_users db)) as [session|e] eqn:Es; [|done].
  destruct (parseCreate w input) as [data|e] eqn:Ep; [|intros H; by simplify_eq/=].
  destruct (parseCreate_ok _ _ _ Ep) as (Hb & Hne & Httl). rewrite run_solo_read.
  destruct (Nat.eqb_spec (length (ownedBadges (s_userId session) (cs_badgeIds data) db)) (length (cs_badgeIds data))) as [Hlen|];
    cbn [negb]; [|intros H; by simplify_eq/=].
  destruct (existsb _ (ownedBadges _ _ db)) eqn:Ex; [intros H; by simplify_eq/=|].
  rewrite run_solo_tbind. cbn [act run_solo fst snd]. unfold createLinkRow at 1 2.
  destruct (bool_decide (sd_links db !! token ≠ None) || _) eqn:Ec; [done|]. apply orb_false_iff in Ec as [Hfresh _]. bool_hyps.
  cbn [fst snd]. rewrite run_solo_bind. cbn [write act run_solo fst snd]. rewrite run_solo_bind.
  intros H. cbn [mret thread_ret run_solo] in H. injection H as Hr Hdb.
  destruct (owned_all _ _ _ Hnd Hlen) as [Hndb Hown].
  assert (sd_links db' = <[token := {| sk_id := id; sk_userId := s_userId session; sk_badgeIds := cs_badgeIds data;
    sk_expiresAt := now + cs_ttlDays data * 24 * 60 * 60 * 1000; sk_requiresAccount := cs_requiresAccount data;
    sk_revokedAt := None; sk_createdAt := now |}]> (sd_links db)) as Hl.
  { rewrite <-Hdb. destruct (cs_sendToEmail data) as [to|]; [|done]. cbn [act run_solo fst snd]. by destruct (sw_mail w to). }
  destruct (run_solo _ _).1 as [[]|e]; [|done]. injection Hr as <-. eexists session, _.
  split_and!; [done..| |exact Hl|done|done| | |done|done|done|].
  - destruct (sd_links db !! token); [|done]. by destruct Hfresh.
  - cbn [sk_expiresAt]. unfold DAY_MS. lia.
  - cbn [sk_expiresAt]. unfold DAY_MS, MAX_SHARE_TTL_DAYS in *. lia.
  - intros bid Hbid. destruct (Hown bid Hbid) as (b & Hin & <-). apply list_elem_of_filter in Hin as Hin'. destruct Hin' as [[Hu _] Hbd].
    exists b. split_and!; [done..|]. intros meta Hm. destruct (bt_revocable meta) eqn:Er; [|done].
    exfalso. eapply not_true_iff_false; [exact Ex|]. apply existsb_exists. exists b. split; [by apply list_elem_of_In|]. by rewrite Hm.
Qed.

(** ** Witnesses *)
Module ShareDemo.

Definition w : ShareWorld :=
  {| sw_vc := VcDemo.w; sw_pairwise := PairwiseDemo.env "local"; sw_isCuid := fun _ => true; sw_isEmail := fun _ => true;
     sw_zod := fun f => "Invalid " +:+ f; sw_mail := fun _ => true |}.

Definition user : UserFlags :=
  {| u_sessionGeneration := 0; u_isAdmin := false; u_isBanned := false; u_mergedIntoUserId := None; u_setupCompletedAt := Some 1 |}.

Definition session (u : string) : Session :=
  {| s_userId := u; s_sessionGeneration := None; s_aal := Some 2; s_recovered := false; s_auth_time := None; s_cred := None |}.

Definition badge (id type anchor vc : string) : BadgeRow :=
  {| br_id := id; br_userId := "u1"; br_type := type; br_attributes := None; br_issuedAt := 1752400000000;
     br_expiresAt := None; br_issuer := "did:web:minister.example"; br_vcJwt := vc; br_nullifierRef := None;
     br_statusAnchor := if bool_decide (anchor = "") then None else Some anchor |}.

Definition link (revoked : option Z) : ShareLinkRow :=
  {| sk_id := "l1"; sk_userId := "u1"; sk_badgeIds := ["b1"; "b2"]; sk_expiresAt := 1753000000000;
     sk_requiresAccount := true; sk_revokedAt := revoked; sk_createdAt := 1752450000000 |}.

Definition db (revoked : option Z) : ShareDB :=
  {| sd_users := {[ "u1" := user; "u2" := user ]};
     sd_badges := [badge "b1" "email-domain" "" "vc1"; badge "b2" "group-membership" "gm:1" "vc9"];
     sd_links := {[ "tok" := link revoked ]}; sd_views := []; sd_audit := []; sd_mails := [] |}.

Definition open (u : string) : ShareRequest := OpenLink 1752500000000 true (Some (session u)) "tok".

Definition input : CreateShareInput :=
  {| ci_badgeIds := ["b1"]; ci_ttlDays := None; ci_requiresAccount := None; ci_sendToEmail := Some "x@example.com" |}.

Lemma unique : unique_ids (db None).
Proof. intros t t' r r' H H' _. cbn in H, H'. apply lookup_singleton_Some in H as [<- _], H' as [<- _]. done. Qed.

End ShareDemo.


Lemma dead_link_discloses_nothing_witness :
  returned (serveShare ShareDemo.w [ShareDemo.open "u2"] [0;0;0]%nat (ShareDemo.db (Some 1752460000000))).1 =
    [(ShareDemo.open "u2", Opened (Ok LinkUnavailable))] ∧
  Forall (fun '(rq, a) => ∀ now allowed auth link,
      rq = OpenLink now allowed auth "tok" → linkDead now (ShareDemo.link (Some 1752460000000)) = true → a ≠ Opened (Ok (Shown link)))
    (returned (serveShare ShareDemo.w [ShareDemo.open "u2"] [0;0;0]%nat (ShareDemo.db (Some 1752460000000))).1).
Proof.
  split; [vm_compute; reflexivity|].
  apply (dead_link_discloses_nothing ShareDemo.w [ShareDemo.open "u2"] [0;0;0]%nat (ShareDemo.db (Some 1752460000000)) "tok"
    (ShareDemo.link (Some 1752460000000))).
  reflexivity.
Defined.

Lemma incoming_needs_view_witness :
  ∃ im, loadIncomingShareLinks 1752500000000 "u2" (serveShare ShareDemo.w [ShareDemo.open "u2"] (replicate 9 0%nat) (ShareDemo.db None)).2 = [im] ∧
    "u1" ≠ "u2" ∧ (im_token im = "tok" → (∃ v, v ∈ sd_views (ShareDemo.db None) ∧ sv_viewerUserId v = Some "u2" ∧ sv_shareLinkId v = "l1") ∨
      requested [ShareDemo.open "u2"] "tok" "u2").
Proof.
  destruct (loadIncomingShareLinks 1752500000000 "u2" (serveShare ShareDemo.w [ShareDemo.open "u2"] (replicate 9 0%nat) (ShareDemo.db None)).2)
    as [|im [|]] eqn:E; try (vm_compute in E; discriminate).
  exists im. split; [reflexivity|]. split; [discriminate|]. intros Htok.
  refine (proj2 (incoming_needs_view ShareDemo.w [ShareDemo.open "u2"] (replicate 9 0%nat) (ShareDemo.db None) "tok"
    (ShareDemo.link None) "u2" 1752500000000 im _ ShareDemo.unique _ Htok)); [reflexivity|]. rewrite E. left.
Defined.

Lemma create_share_sound_witness :
  ∃ url db', run_solo (createShareLink ShareDemo.w 1752500000000 (Some (ShareDemo.session "u1")) ShareDemo.input "https://m.example/" "tok2" "l2")
      (ShareDemo.db None) = (Ok (Ok ("tok2", url)), db') ∧ url = "https://m.example/share/tok2" ∧
    ∃ row, sd_links db' = <["tok2" := row]> (sd_links (ShareDemo.db None)) ∧ sk_userId row = "u1".
Proof.
  destruct (run_solo (createShareLink ShareDemo.w 1752500000000 (Some (ShareDemo.session "u1")) ShareDemo.input "https://m.example/" "tok2" "l2")
    (ShareDemo.db None)) as [[[[t url]|]|e] db'] eqn:E; try (vm_compute in E; discriminate).
  pose proof (create_share_sound _ _ _ _ _ _ _ (ShareDemo.db None) _ _ ltac:(apply (bool_decide_unpack _); vm_compute; exact I) E) as H.
  cbn beta iota in H. destruct H as (session & row & Hs & -> & -> & _ & Hl & Hu & _).
  exists (buildShareUrl "https://m.example/" "tok2"), db'. split; [reflexivity|]. split; [reflexivity|]. exists row. split; [exact Hl|].
  vm_compute in Hs. injection Hs as <-. exact Hu.
Defined.
