(* ===== verification/Merge.v ===== *)
(** * Account merge (lib/merge.ts)

    A merge re-points every row of the donor account to the survivor in one transaction,
    resolves the collisions of the tables that are unique per user, preserves the donor's
    pseudonym at the parties only the donor used, tombstones the donor and stores a snapshot
    from which a reversal within seven days restores the split.

    The transactions run at repeatable read: each is one atomic step on the database, which
    may fail with a write conflict and is then run again. The ledger's change of owner after
    the commit is the service's business: what it is asked for is part of the result. *)

From S2P Require Import Prelude Threads Matching Policy Selection RateLimit Registry SybilScore.
From S2P Require Import Session SybilConfig OidcAuthorize Bitstring Interleave StatusList OidcFlow.

Open Scope Z_scope.

(** ** Owned rows

    What the merge needs of a row: its owner, and to give it to another user. *)

Class Owned (R : Type) := {
  owner : R → option string;
  reown : string → R → R;
}.

Class OwnedLaws (R : Type) `{Owned R} : Prop := {
  owner_reown u r : owner (reown u r) = Some u;
  reown_owner u r : owner r = Some u → reown u r = r;
  reown_reown u v r : reown u (reown v r) = reown u r;
}.

(** Rows of which only the owner matters here; the owner is nullable in the second. *)
Record OwnRow := { ow_userId : string }.
Record NullableRow := { nr_userId : option string }.
Record BadgeOwn := { bo_userId : string; bo_nullifierRef : option string }.
Record TokenOwn := { tk_userId : string; tk_clientId : string }.
Record EmailOwn := { eo_userId : string; eo_isPrimary : bool }.
Record Eligibility := {
  el_userId : string; el_badgeType : string; el_eligibleAt : Z; el_fuzzDays : Z; el_source : string }.
Record Redemption := { rd_userId : string; rd_inviteCodeId : string; rd_redeemedAt : Z }.

#[export] Instance own_owned : Owned OwnRow :=
  {| owner r := Some (ow_userId r); reown u _ := {| ow_userId := u |} |}.
#[export] Instance nullable_owned : Owned NullableRow :=
  {| owner := nr_userId; reown u _ := {| nr_userId := Some u |} |}.
#[export] Instance badge_owned : Owned BadgeOwn :=
  {| owner r := Some (bo_userId r);
     reown u r := {| bo_userId := u; bo_nullifierRef := bo_nullifierRef r |} |}.
#[export] Instance token_owned : Owned TokenOwn :=
  {| owner r := Some (tk_userId r); reown u r := {| tk_userId := u; tk_clientId := tk_clientId r |} |}.
#[export] Instance email_owned : Owned EmailOwn :=
  {| owner r := Some (eo_userId r); reown u r := {| eo_userId := u; eo_isPrimary := eo_isPrimary r |} |}.
#[export] Instance eligibility_owned : Owned Eligibility :=
  {| owner r := Some (el_userId r);
     reown u r := {| el_userId := u; el_badgeType := el_badgeType r; el_eligibleAt := el_eligibleAt r;
                     el_fuzzDays := el_fuzzDays r; el_source := el_source r |} |}.
#[export] Instance redemption_owned : Owned Redemption :=
  {| owner r := Some (rd_userId r);
     reown u r := {| rd_userId := u; rd_inviteCodeId := rd_inviteCodeId r; rd_redeemedAt := rd_redeemedAt r |} |}.

Ltac owned_laws := split; [done|by intros ? [] ?; simplify_eq/=|done].
#[export] Instance own_laws : OwnedLaws OwnRow. Proof. owned_laws. Qed.
#[export] Instance nullable_laws : OwnedLaws NullableRow. Proof. owned_laws. Qed.
#[export] Instance badge_laws : OwnedLaws BadgeOwn. Proof. owned_laws. Qed.
#[export] Instance token_laws : OwnedLaws TokenOwn. Proof. owned_laws. Qed.
#[export] Instance email_laws : OwnedLaws EmailOwn. Proof. owned_laws. Qed.
#[export] Instance eligibility_laws : OwnedLaws Eligibility. Proof. owned_laws. Qed.
#[export] Instance redemption_laws : OwnedLaws Redemption. Proof. owned_laws. Qed.

(** *** Queries on a table of owned rows *)
Section Table.
Context {K : Type} `{Countable K} {R : Type} `{Owned R}.

Definition rowsOf (u : string) (t : gmap K R) : list (K * R) :=
  map_to_list (filter (fun e => owner e.2 = Some u) t).

Definition keysOf (u : string) (t : gmap K R) : list K := (rowsOf u t).*1.

(** [updateMany({ where: { userId: d }, data: { userId: s } })] *)
Definition moveAll (d s : string) (t : gmap K R) : gmap K R :=
  (fun r => if decide (owner r = Some d) then reown s r else r) <$> t.

(** [updateMany({ where: { id: { in: ks } }, data: { userId: u } })] and its count. *)
Definition moveKeys (ks : list K) (u : string) (t : gmap K R) : gmap K R :=
  map_imap (fun k r => Some (if decide (k ∈ ks) then reown u r else r)) t.

Definition countKeys (ks : list K) (t : gmap K R) : nat :=
  length (filter (fun e : K * R => e.1 ∈ ks) (map_to_list t)).

(** The same on rows that are still with [s]. *)
Definition moveKeysFrom (s : string) (ks : list K) (u : string) (t : gmap K R) : gmap K R :=
  map_imap (fun k r => Some (if decide (k ∈ ks ∧ owner r = Some s) then reown u r else r)) t.

Definition countKeysFrom (s : string) (ks : list K) (t : gmap K R) : nat :=
  length (filter (fun e : K * R => e.1 ∈ ks ∧ owner e.2 = Some s) (map_to_list t)).

(** [deleteMany({ where: { id: { in: ks } } })] *)
Definition deleteKeys (ks : list K) (t : gmap K R) : gmap K R :=
  filter (fun e => e.1 ∉ ks) t.

(** A unique constraint: no two rows agree on [f]. *)
Definition uniqueOn {B : Type} `{EqDecision B} (f : R → B) (t : gmap K R) : bool :=
  bool_decide (NoDup (map (fun e => f e.2) (map_to_list t))).

End Table.

(** ** The database *)

Record MergeUser := {
  mu_isBanned : bool;
  mu_isAdmin : bool;
  mu_sessionGeneration : Z;
  mu_email : option string;
  mu_mergedIntoUserId : option string;
  mu_mergedAt : option Z;
  mu_dedupHandle : option string;
}.

Record GrantRow := { gr_id : string; gr_state : GrantState }.

(** The keys of the rows that moved. *)
Record MovedRows := {
  mv_badge : list string;
  mv_shareLink : list string;
  mv_oidcAccessToken : list string;
  mv_wizardSession : list string;
  mv_recoveryCode : list string;
  mv_recoveryAttempt : list string;
  mv_userEmail : list string;
  mv_auditLog : list string;
  mv_account : list (string * string);
  mv_session : list string;
  mv_authenticator : list string;
  mv_subjectOverride : list string;
  mv_inviteRedemption : list string;
  mv_eligibility : list string;
  mv_oidcClientOwned : list string;
  mv_oidcGrant : list string;
}.

(** A grant both accounts had: the client, the survivor's grant before, the donor's row. *)
Record GrantMerged := { gm_clientId : string; gm_survivorPrev : GrantState; gm_donorDeleted : GrantRow }.

Record MergeSnapshot := {
  sn_survivorUserId : string;
  sn_donorUserId : string;
  sn_movedAt : Z;
  sn_moved : MovedRows;
  sn_eligibilityDeleted : list (string * Eligibility);
  sn_inviteRedemptionDeleted : list (string * Redemption);
  sn_overridesCreated : list (string * string);
  sn_oidcGrantMerged : list GrantMerged;
  sn_strandedClients : list (string * string);
  sn_survivorPrevBanned : bool;
  sn_survivorPrevGeneration : Z;
  sn_survivorPrevEmail : option string;
  sn_donorPrevGeneration : Z;
  sn_demotedPrimaryEmailIds : list string;
  sn_dedupReassigned : list string;
}.

Record MergeRecord := {
  mr_snapshot : MergeSnapshot;
  mr_reversibleUntil : Z;
  mr_reversedAt : option Z;
}.

(** Overrides and grants are keyed by (userId, clientId), accounts by (provider,
    providerAccountId), authenticators by their unique credential id. *)
Record MergeDB := {
  mg_users : gmap string MergeUser;
  mg_badges : gmap string BadgeOwn;
  mg_shareLinks : gmap string OwnRow;
  mg_tokens : gmap string TokenOwn;
  mg_wizards : gmap string OwnRow;
  mg_recoveryCodes : gmap string OwnRow;
  mg_recoveryAttempts : gmap string OwnRow;
  mg_emails : gmap string EmailOwn;
  mg_auditLogs : gmap string NullableRow;
  mg_accounts : gmap (string * string) OwnRow;
  mg_sessions : gmap string OwnRow;
  mg_authenticators : gmap string OwnRow;
  mg_overrides : gmap (string * string) string;
  mg_redemptions : gmap string Redemption;
  mg_eligibility : gmap string Eligibility;
  mg_clients : gmap string NullableRow;
  mg_grants : gmap (string * string) GrantRow;
  mg_authCodes : gmap string OwnRow;
  mg_records : gmap string MergeRecord;
}.

Definition MAX_TX_ATTEMPTS : nat := 5.
Definition REVERSAL_MS : Z := MERGE_REVERSAL_DAYS * 24 * 60 * 60 * 1000.

Definition unionStrings (a b : list string) : list string := set_of (a ++ b).

(** ** Collisions *)

(** The unique constraints of the two tables. *)
Definition eligibilityKey (r : Eligibility) : string * string := (el_userId r, el_badgeType r).
Definition redemptionKey (r : Redemption) : string * string := (rd_inviteCodeId r, rd_userId r).

(** For each eligibility of the donor: the row to delete if the survivor has one of the same
    type (the later one goes), and the id to move. *)
Definition eligibilityStep (survivors : list (string * Eligibility))
    (acc : list (string * Eligibility) * list string) (d : string * Eligibility) :
    list (string * Eligibility) * list string :=
  let '(deleted, toMove) := acc in
  match last (filter (fun s => el_badgeType s.2 = el_badgeType d.2) survivors) with
  | None => (deleted, toMove ++ [d.1])
  | Some s =>
      if el_eligibleAt d.2 <? el_eligibleAt s.2 then (deleted ++ [s], toMove ++ [d.1])
      else (deleted ++ [d], toMove)
  end.

Definition eligibilityPlan (d s : string) (t : gmap string Eligibility) : list (string * Eligibility) * list string :=
  foldl (eligibilityStep (rowsOf s t)) ([], []) (rowsOf d t).

(** The donor's duplicates go. *)
Definition redemptionPlan (d s : string) (t : gmap string Redemption) : list (string * Redemption) * list string :=
  let codes := map (fun e => rd_inviteCodeId e.2) (rowsOf s t) in
  (filter (fun e => rd_inviteCodeId e.2 ∈ codes) (rowsOf d t),
   (filter (fun e => rd_inviteCodeId e.2 ∉ codes) (rowsOf d t)).*1).

(** The donor's clients, with their pseudonyms: an override for those the survivor did not
    use, and the ones left stranded. *)
Definition subjectPlan (donorSubs : list (string * string)) (used : list string) :
    list (string * string) * list (string * string) :=
  (filter (fun e => e.1 ∉ used) donorSubs, filter (fun e => e.1 ∈ used) donorSubs).

Definition clientsOf (u : string) (t : gmap string TokenOwn) : list string :=
  set_of (map (fun e => tk_clientId e.2) (rowsOf u t)).

(** The clients of a user's rows of a table keyed by (userId, clientId). *)
Definition pairsOf {A} (u : string) (t : gmap (string * string) A) : list (string * A) :=
  map (fun e => (e.1.2, e.2)) (map_to_list (filter (fun e => e.1.1 = u) t)).

Definition overrideClients (u : string) (t : gmap (string * string) string) : list string := (pairsOf u t).*1.

(** Re-key a row of a table keyed by (userId, clientId). *)
Definition rekey {A} (d s c : string) (t : gmap (string * string) A) : gmap (string * string) A :=
  match t !! (d, c) with Some x => <[(s, c) := x]> (delete (d, c) t) | None => t end.

(** The donor's own overrides move, where the survivor has none. *)
Definition moveOverrides (d s : string) (cs : list string) (t : gmap (string * string) string) :
    gmap (string * string) string := foldl (fun t c => rekey d s c t) t cs.

(** New overrides; the unique constraint throws. *)
Fixpoint createOverrides (s : string) (ovs : list (string * string)) (t : gmap (string * string) string) :
    option (gmap (string * string) string) :=
  match ovs with
  | [] => Some t
  | (c, sub) :: ovs =>
      match t !! (s, c) with
      | Some _ => None
      | None => createOverrides s ovs (<[(s, c) := sub]> t)
      end
  end.

Definition unionGrant (sg dg : GrantState) : GrantState :=
  {| gs_badgeTypes := unionStrings (gs_badgeTypes sg) (gs_badgeTypes dg);
     gs_badgeIds := unionStrings (gs_badgeIds sg) (gs_badgeIds dg);
     gs_profileName := gs_profileName sg || gs_profileName dg;
     gs_profileAvatar := gs_profileAvatar sg || gs_profileAvatar dg;
     gs_sybilScore := gs_sybilScore sg || gs_sybilScore dg |}.

(** One grant of the donor: moved, or united with the survivor's grant as it was read. *)
Definition grantStep (d s : string) (survivors : gmap (string * string) GrantRow)
    (acc : gmap (string * string) GrantRow * list string * list GrantMerged) (dg : string * GrantRow) :
    gmap (string * string) GrantRow * list string * list GrantMerged :=
  let '(t, moved, merged) := acc in
  match survivors !! (s, dg.1) with
  | None => (rekey d s dg.1 t, moved ++ [dg.1], merged)
  | Some sg =>
      (delete (d, dg.1) (<[(s, dg.1) := {| gr_id := gr_id sg; gr_state := unionGrant (gr_state sg) (gr_state dg.2) |}]> t),
       moved, merged ++ [{| gm_clientId := dg.1; gm_survivorPrev := gr_state sg; gm_donorDeleted := dg.2 |}])
  end.

Definition grantPlan (d s : string) (t : gmap (string * string) GrantRow) :
    gmap (string * string) GrantRow * list string * list GrantMerged :=
  foldl (grantStep d s t) (t, [], []) (pairsOf d t).

(** ** The merge transaction *)

Record MergeSummary := {
  ms_recordId : string;
  ms_moved : MovedRows;
  ms_oidcGrantMerged : nat;
  ms_authCodesDeleted : nat;
  ms_eligibilityDeleted : nat;
  ms_redemptionsDeleted : nat;
  ms_overridesCreated : nat;
  ms_strandedClients : list string;
}.

(** The change of owner the ledger is asked for after the commit: the entries and the handle
    they are under. *)
Record Reassign := { ra_entryRefs : list string; ra_fromHandle : option string }.

Definition absorb (survivor donor : MergeUser) : MergeUser :=
  {| mu_isBanned := mu_isBanned survivor || mu_isBanned donor; mu_isAdmin := mu_isAdmin survivor;
     mu_sessionGeneration := mu_sessionGeneration survivor + 1; mu_email := mu_email survivor;
     mu_mergedIntoUserId := mu_mergedIntoUserId survivor; mu_mergedAt := mu_mergedAt survivor;
     mu_dedupHandle := mu_dedupHandle survivor |}.

Definition tombstone (now : Z) (survivorUserId : string) (donor : MergeUser) : MergeUser :=
  {| mu_isBanned := mu_isBanned donor; mu_isAdmin := mu_isAdmin donor;
     mu_sessionGeneration := mu_sessionGeneration donor + 1; mu_email := mu_email donor;
     mu_mergedIntoUserId := Some survivorUserId; mu_mergedAt := Some now;
     mu_dedupHandle := mu_dedupHandle donor |}.

Definition demote (ids : list string) (t : gmap string EmailOwn) : gmap string EmailOwn :=
  map_imap (fun k r => Some (if decide (k ∈ ids) then {| eo_userId := eo_userId r; eo_isPrimary := false |} else r)) t.

Definition promote (ids : list string) (t : gmap string EmailOwn) : gmap string EmailOwn :=
  map_imap (fun k r => Some (if decide (k ∈ ids) then {| eo_userId := eo_userId r; eo_isPrimary := true |} else r)) t.

Section Transaction.
Context (now : Z) (recordId s d : string) (donorSubs : list (string * string)).

(** Same clients as when the pseudonyms were derived. *)
Definition noDrift (db : MergeDB) : bool :=
  let current := clientsOf d (mg_tokens db) in
  Nat.eqb (length current) (length (set_of donorSubs.*1)) && forallb (fun c => bool_decide (c ∈ donorSubs.*1)) current.

Definition survivorUsed (db : MergeDB) : list string :=
  set_of (clientsOf s (mg_tokens db) ++ overrideClients s (mg_overrides db)).

(** The donor's own overrides that move. *)
Definition ownOverrides (db : MergeDB) : list string :=
  filter (fun c => c ∉ overrideClients s (mg_overrides db)) (overrideClients d (mg_overrides db)).

Definition demotedEmails (db : MergeDB) : list string :=
  (filter (fun e => eo_isPrimary e.2 = true) (rowsOf d (mg_emails db))).*1.

Definition movedRows (db : MergeDB) : MovedRows :=
  {| mv_badge := keysOf d (mg_badges db); mv_shareLink := keysOf d (mg_shareLinks db);
     mv_oidcAccessToken := keysOf d (mg_tokens db); mv_wizardSession := keysOf d (mg_wizards db);
     mv_recoveryCode := keysOf d (mg_recoveryCodes db); mv_recoveryAttempt := keysOf d (mg_recoveryAttempts db);
     mv_userEmail := keysOf d (mg_emails db); mv_auditLog := keysOf d (mg_auditLogs db);
     mv_account := keysOf d (mg_accounts db); mv_session := keysOf d (mg_sessions db);
     mv_authenticator := keysOf d (mg_authenticators db); mv_subjectOverride := ownOverrides db;
     mv_inviteRedemption := (redemptionPlan d s (mg_redemptions db)).2;
     mv_eligibility := (eligibilityPlan d s (mg_eligibility db)).2;
     mv_oidcClientOwned := keysOf d (mg_clients db); mv_oidcGrant := (grantPlan d s (mg_grants db)).1.2 |}.

Definition mergeSnapshot (survivor donor : MergeUser) (db : MergeDB) : MergeSnapshot :=
  let subjects := subjectPlan donorSubs (survivorUsed db) in
  {| sn_survivorUserId := s; sn_donorUserId := d; sn_movedAt := now; sn_moved := movedRows db;
     sn_eligibilityDeleted := (eligibilityPlan d s (mg_eligibility db)).1;
     sn_inviteRedemptionDeleted := (redemptionPlan d s (mg_redemptions db)).1;
     sn_overridesCreated := subjects.1; sn_oidcGrantMerged := (grantPlan d s (mg_grants db)).2;
     sn_strandedClients := subjects.2; sn_survivorPrevBanned := mu_isBanned survivor;
     sn_survivorPrevGeneration := mu_sessionGeneration survivor; sn_survivorPrevEmail := mu_email survivor;
     sn_donorPrevGeneration := mu_sessionGeneration donor;
     sn_demotedPrimaryEmailIds := demotedEmails db;
     sn_dedupReassigned := omap (fun e => bo_nullifierRef e.2) (rowsOf d (mg_badges db)) |}.

Definition mergedEligibility (db : MergeDB) : gmap string Eligibility :=
  let plan := eligibilityPlan d s (mg_eligibility db) in
  moveKeys plan.2 s (deleteKeys plan.1.*1 (mg_eligibility db)).

Definition mergedRedemptions (db : MergeDB) : gmap string Redemption :=
  let plan := redemptionPlan d s (mg_redemptions db) in
  moveKeys plan.2 s (deleteKeys plan.1.*1 (mg_redemptions db)).

(** The tables after the merge, given the overrides. *)
Definition mergedTables (survivor donor : MergeUser) (overrides : gmap (string * string) string) (db : MergeDB) : MergeDB :=
  {| mg_users := <[d := tombstone now s donor]> (<[s := absorb survivor donor]> (mg_users db));
     mg_badges := moveAll d s (mg_badges db);
     mg_shareLinks := moveAll d s (mg_shareLinks db);
     mg_tokens := moveAll d s (mg_tokens db);
     mg_wizards := moveAll d s (mg_wizards db);
     mg_recoveryCodes := moveAll d s (mg_recoveryCodes db);
     mg_recoveryAttempts := moveAll d s (mg_recoveryAttempts db);
     mg_emails := demote (demotedEmails db) (moveAll d s (mg_emails db));
     mg_auditLogs := moveAll d s (mg_auditLogs db);
     mg_accounts := moveAll d s (mg_accounts db);
     mg_sessions := moveAll d s (mg_sessions db);
     mg_authenticators := moveAll d s (mg_authenticators db);
     mg_overrides := overrides;
     mg_redemptions := mergedRedemptions db;
     mg_eligibility := mergedEligibility db;
     mg_clients := moveAll d s (mg_clients db);
     mg_grants := (grantPlan d s (mg_grants db)).1.1;
     mg_authCodes := filter (fun e => owner e.2 ≠ Some d) (mg_authCodes db);
     mg_records := <[recordId := {| mr_snapshot := mergeSnapshot survivor donor db;
                                    mr_reversibleUntil := now + REVERSAL_MS; mr_reversedAt := None |}]> (mg_records db) |}.

Definition runMergeTx (db : MergeDB) : result string (MergeSummary * Reassign * MergeDB) :=
  match mg_users db !! s with
  | None => Err ("Survivor account " +:+ s +:+ " not found")
  | Some survivor =>
  match mg_users db !! d with
  | None => Err ("Donor account " +:+ d +:+ " not found")
  | Some donor =>
  if bool_decide (mu_mergedIntoUserId donor ≠ None) then Err ("Donor account " +:+ d +:+ " is already merged (tombstoned)")
  else if negb (noDrift db) then
    Err "merge: donor OIDC token clients changed between sub precompute and transaction — aborting (safe to retry)"
  else if negb (uniqueOn eligibilityKey (mergedEligibility db) && uniqueOn redemptionKey (mergedRedemptions db))
  then Err "Unique constraint failed"
  else
    let snapshot := mergeSnapshot survivor donor db in
    match createOverrides s (sn_overridesCreated snapshot) (moveOverrides d s (ownOverrides db) (mg_overrides db)),
          mg_records db !! recordId with
    | Some overrides, None =>
        Ok ({| ms_recordId := recordId; ms_moved := sn_moved snapshot;
               ms_oidcGrantMerged := length (sn_oidcGrantMerged snapshot);
               ms_authCodesDeleted := length (rowsOf d (mg_authCodes db));
               ms_eligibilityDeleted := length (sn_eligibilityDeleted snapshot);
               ms_redemptionsDeleted := length (sn_inviteRedemptionDeleted snapshot);
               ms_overridesCreated := length (sn_overridesCreated snapshot);
               ms_strandedClients := (sn_strandedClients snapshot).*1 |},
            {| ra_entryRefs := sn_dedupReassigned snapshot; ra_fromHandle := mu_dedupHandle donor |},
            mergedTables survivor donor overrides db)
    | _, _ => Err "Unique constraint failed"
    end
  end end.

End Transaction.

(** ** Merging *)

(** A transaction that the database may abort with a write conflict is tried again, at most
    five times; [conflict i] is whether attempt [i] is aborted. *)
Fixpoint runWithWriteConflictRetry {A} (conflict : nat → bool) (run : MergeDB → result string (A * MergeDB))
    (remaining attempt : nat) : thread MergeDB (result string A) :=
  match remaining with
  | O => mret (Err "Transaction failed due to a write conflict or a deadlock")
  | S remaining =>
      r ← act (fun db =>
        if conflict attempt then (None, db)
        else match run db with Ok (a, db') => (Some (Ok a), db') | Err e => (Some (Err e), db) end);
      match r with
      | Some r => mret r
      | None => runWithWriteConflictRetry conflict run remaining (S attempt)
      end
  end.

(** [sub c] derives the donor's pseudonym at a client; [None] is a throw. *)
Definition mergeAccounts (now : Z) (recordId : string) (sub : string → string → option string)
    (conflict : nat → bool) (s d : string) : thread MergeDB (result string (MergeSummary * Reassign)) :=
  if decide (s = d) then mret (Err "Cannot merge an account into itself")
  else
    clients ← read (fun db => clientsOf d (mg_tokens db));
    match mapM (fun c => sub' ← sub d c; Some (c, sub')) clients with
    | None => mret (Err "pairwise")
    | Some donorSubs =>
        runWithWriteConflictRetry conflict (runMergeTx now recordId s d donorSubs) MAX_TX_ATTEMPTS 1
    end.

(** ** Reversal *)

(** A row goes back to the donor if the survivor has it; the table's key throws. *)
Definition rekeyBack {A} (s d c : string) (t : gmap (string * string) A) : option (nat * gmap (string * string) A) :=
  match t !! (s, c), t !! (d, c) with
  | None, _ => Some (0%nat, t)
  | Some _, None => Some (1%nat, rekey s d c t)
  | Some _, Some _ => None
  end.

Fixpoint rekeyAllBack {A} (s d : string) (cs : list string) (t : gmap (string * string) A) :
    option (nat * gmap (string * string) A) :=
  match cs with
  | [] => Some (0%nat, t)
  | c :: cs =>
      '(n, t) ← rekeyBack s d c t;
      '(m, t) ← rekeyAllBack s d cs t;
      Some ((n + m)%nat, t)
  end.

(** [deleteMany({ where: { userId: s, clientId, sub } })] for each override created. *)
Definition dropOverrides (s : string) (ovs : list (string * string)) (t : gmap (string * string) string) :
    gmap (string * string) string :=
  foldl (fun t ov => if decide (t !! (s, ov.1) = Some ov.2) then delete (s, ov.1) t else t) t ovs.

(** Recreate the rows that lost a collision, under their ids; the key and the unique
    constraint throw. *)
Fixpoint recreate {R B} `{EqDecision B} (f : R → B) (rows : list (string * R)) (t : gmap string R) :
    option (gmap string R) :=
  match rows with
  | [] => Some t
  | (k, r) :: rows =>
      match t !! k with
      | Some _ => None
      | None => let t' := <[k := r]> t in if uniqueOn f t' then recreate f rows t' else None
      end
  end.

(** The survivor's grant as it was, the donor's row again. *)
Fixpoint splitGrants (s d : string) (ms : list GrantMerged) (t : gmap (string * string) GrantRow) :
    option (gmap (string * string) GrantRow) :=
  match ms with
  | [] => Some t
  | m :: ms =>
      let t1 := alter (fun g => {| gr_id := gr_id g; gr_state := gm_survivorPrev m |}) (s, gm_clientId m) t in
      if decide (t1 !! (d, gm_clientId m) = None ∧ map_Forall (fun _ g => gr_id g ≠ gr_id (gm_donorDeleted m)) t1)
      then splitGrants s d ms (<[(d, gm_clientId m) := gm_donorDeleted m]> t1)
      else None
  end.

(** The survivor's flag as it was, both generations bumped, the donor live again. *)
Definition unabsorb (prevBanned : bool) (u : MergeUser) : MergeUser :=
  {| mu_isBanned := prevBanned; mu_isAdmin := mu_isAdmin u; mu_sessionGeneration := mu_sessionGeneration u + 1;
     mu_email := mu_email u; mu_mergedIntoUserId := mu_mergedIntoUserId u; mu_mergedAt := mu_mergedAt u;
     mu_dedupHandle := mu_dedupHandle u |}.

Definition untombstone (u : MergeUser) : MergeUser :=
  {| mu_isBanned := mu_isBanned u; mu_isAdmin := mu_isAdmin u; mu_sessionGeneration := mu_sessionGeneration u + 1;
     mu_email := mu_email u; mu_mergedIntoUserId := None; mu_mergedAt := None; mu_dedupHandle := mu_dedupHandle u |}.

Record ReverseReassign := { rr_entryRefs : list string; rr_fromHandle : option string; rr_toHandle : option string }.

Inductive ReverseResult :=
  | Reversed (restoredRows recreatedDeleted : nat) (reassign : ReverseReassign)
  | NotReversed (error : string).

(** Rows moved by their keys alone; [countKeys] is the number updated. *)
Definition restoredByKey (m : MovedRows) (db : MergeDB) : nat :=
  (countKeys (mv_badge m) (mg_badges db) + countKeys (mv_shareLink m) (mg_shareLinks db)
   + countKeys (mv_oidcAccessToken m) (mg_tokens db) + countKeys (mv_wizardSession m) (mg_wizards db)
   + countKeys (mv_recoveryCode m) (mg_recoveryCodes db) + countKeys (mv_recoveryAttempt m) (mg_recoveryAttempts db)
   + countKeys (mv_userEmail m) (mg_emails db) + countKeys (mv_auditLog m) (mg_auditLogs db)
   + countKeys (mv_account m) (mg_accounts db) + countKeys (mv_session m) (mg_sessions db)
   + countKeys (mv_inviteRedemption m) (mg_redemptions db) + countKeys (mv_eligibility m) (mg_eligibility db)
   + countKeys (mv_oidcClientOwned m) (mg_clients db))%nat.

Section Reversal.
Context (now : Z) (recordId : string) (snap : MergeSnapshot).

(** The tables whose rows go back by key, and those that were worked out before. *)
Definition reversedTables (survivor donor : MergeUser) (record : MergeRecord)
    (overrides : gmap (string * string) string) (redemptions : gmap string Redemption)
    (eligibility : gmap string Eligibility) (grants : gmap (string * string) GrantRow) (db : MergeDB) : MergeDB :=
  let s := sn_survivorUserId snap in let d := sn_donorUserId snap in let m := sn_moved snap in
  {| mg_users := <[d := untombstone donor]> (<[s := unabsorb (sn_survivorPrevBanned snap) survivor]> (mg_users db));
     mg_badges := moveKeys (mv_badge m) d (mg_badges db);
     mg_shareLinks := moveKeys (mv_shareLink m) d (mg_shareLinks db);
     mg_tokens := moveKeys (mv_oidcAccessToken m) d (mg_tokens db);
     mg_wizards := moveKeys (mv_wizardSession m) d (mg_wizards db);
     mg_recoveryCodes := moveKeys (mv_recoveryCode m) d (mg_recoveryCodes db);
     mg_recoveryAttempts := moveKeys (mv_recoveryAttempt m) d (mg_recoveryAttempts db);
     mg_emails := promote (sn_demotedPrimaryEmailIds snap) (moveKeys (mv_userEmail m) d (mg_emails db));
     mg_auditLogs := moveKeys (mv_auditLog m) d (mg_auditLogs db);
     mg_accounts := moveKeys (mv_account m) d (mg_accounts db);
     mg_sessions := moveKeys (mv_session m) d (mg_sessions db);
     mg_authenticators := moveKeysFrom s (mv_authenticator m) d (mg_authenticators db);
     mg_overrides := overrides;
     mg_redemptions := redemptions;
     mg_eligibility := eligibility;
     mg_clients := moveKeys (mv_oidcClientOwned m) d (mg_clients db);
     mg_grants := grants;
     mg_authCodes := mg_authCodes db;
     mg_records := <[recordId := {| mr_snapshot := mr_snapshot record; mr_reversibleUntil := mr_reversibleUntil record;
                                    mr_reversedAt := Some now |}]> (mg_records db) |}.

(** A collision throws and rolls the transaction back. *)
Definition runReverseTx (db : MergeDB) : result string (ReverseResult * MergeDB) :=
  let s := sn_survivorUserId snap in let d := sn_donorUserId snap in let m := sn_moved snap in
  let refuse := Ok (NotReversed "Donor account is no longer in the merged state this record describes", db) in
  match mg_users db !! d with
  | None => refuse
  | Some donor =>
  if bool_decide (mu_mergedIntoUserId donor ≠ Some s) then refuse
  else
    let redemptions := moveKeys (mv_inviteRedemption m) d (mg_redemptions db) in
    let eligibility := moveKeys (mv_eligibility m) d (mg_eligibility db) in
    if negb (uniqueOn redemptionKey redemptions && uniqueOn eligibilityKey eligibility)
    then Err "Unique constraint failed"
    else
    match rekeyAllBack s d (mv_subjectOverride m) (mg_overrides db), rekeyAllBack s d (mv_oidcGrant m) (mg_grants db) with
    | Some (ovs, overrides), Some (grs, grants) =>
        match recreate eligibilityKey (sn_eligibilityDeleted snap) eligibility,
              recreate redemptionKey (sn_inviteRedemptionDeleted snap) redemptions,
              splitGrants s d (sn_oidcGrantMerged snap) grants,
              mg_users db !! s, mg_records db !! recordId with
        | Some eligibility, Some redemptions, Some grants, Some survivor, Some record =>
            Ok (Reversed
                  (restoredByKey m db + countKeysFrom s (mv_authenticator m) (mg_authenticators db) + ovs + grs)%nat
                  (length (sn_eligibilityDeleted snap) + length (sn_inviteRedemptionDeleted snap)
                   + length (sn_oidcGrantMerged snap))%nat
                  {| rr_entryRefs := sn_dedupReassigned snap; rr_fromHandle := mu_dedupHandle survivor;
                     rr_toHandle := mu_dedupHandle donor |},
                reversedTables survivor donor record (dropOverrides s (sn_overridesCreated snap) overrides)
                  redemptions eligibility grants db)
        | Some _, Some _, Some _, _, _ => Err "Record to update not found"
        | _, _, _, _, _ => Err "Unique constraint failed"
        end
    | _, _ => Err "Unique constraint failed"
    end
  end.

End Reversal.

Definition reverseMerge (now : Z) (conflict : nat → bool) (mergeRecordId : string) :
    thread MergeDB (result string ReverseResult) :=
  record ← read (fun db => mg_records db !! mergeRecordId);
  match record with
  | None => mret (Ok (NotReversed "Merge record not found"))
  | Some record =>
      if bool_decide (mr_reversedAt record ≠ None) then mret (Ok (NotReversed "This merge was already reversed"))
      else if mr_reversibleUntil record <=? now then
        mret (Ok (NotReversed "The reversal window for this merge has passed"))
      else runWithWriteConflictRetry conflict (runReverseTx now mergeRecordId (mr_snapshot record)) MAX_TX_ATTEMPTS 1
  end.

(** ** Lemmas: the tables *)
Section TableLemmas.
Context {K : Type} `{Countable K} {R : Type} `{OwnedLaws R}.
Implicit Types (t : gmap K R) (k : K) (r : R) (ks : list K).

Lemma rowsOf_spec u t k r : (k, r) ∈ rowsOf u t ↔ t !! k = Some r ∧ owner r = Some u.
Proof using. unfold rowsOf. by rewrite elem_of_map_to_list, map_lookup_filter_Some. Qed.

Lemma keysOf_spec u t k : k ∈ keysOf u t ↔ ∃ r, t !! k = Some r ∧ owner r = Some u.
Proof using.
  unfold keysOf. rewrite list_elem_of_fmap. setoid_rewrite <- rowsOf_spec. split.
  - intros ([? r] & -> & ?). eauto.
  - intros [r ?]. by exists (k, r).
Qed.

Lemma rowsOf_keys_NoDup u t : NoDup (rowsOf u t).*1.
Proof using. apply NoDup_fst_map_to_list. Qed.

Lemma moveAll_lookup d s t k :
  moveAll d s t !! k = (fun r => if decide (owner r = Some d) then reown s r else r) <$> t !! k.
Proof using. apply lookup_fmap. Qed.

Lemma moveKeys_lookup ks u t k :
  moveKeys ks u t !! k = (fun r => if decide (k ∈ ks) then reown u r else r) <$> t !! k.
Proof using. unfold moveKeys. rewrite map_lookup_imap. by destruct (t !! k). Qed.

Lemma moveKeysFrom_lookup s ks u t k :
  moveKeysFrom s ks u t !! k = (fun r => if decide (k ∈ ks ∧ owner r = Some s) then reown u r else r) <$> t !! k.
Proof using. unfold moveKeysFrom. rewrite map_lookup_imap. by destruct (t !! k). Qed.

Lemma deleteKeys_lookup ks t k : deleteKeys ks t !! k = if decide (k ∈ ks) then None else t !! k.
Proof using.
  unfold deleteKeys. apply option_eq. intros r. rewrite map_lookup_filter_Some. cbn.
  case_decide; naive_solver.
Qed.

(** Moving back the rows that moved restores the table. *)
Lemma moveAll_back d s t : moveKeys (keysOf d t) d (moveAll d s t) = t.
Proof using All.
  apply map_eq. intros k. rewrite moveKeys_lookup, moveAll_lookup.
  destruct (t !! k) as [r|] eqn:E; cbn; [f_equal|done].
  case_decide as Hk; rewrite keysOf_spec in Hk; case_decide.
  - by rewrite reown_reown, reown_owner.
  - destruct Hk as (? & ? & ?). simplify_eq.
  - destruct Hk. eauto.
  - done.
Qed.

Lemma moveAll_back_from d s t : moveKeysFrom s (keysOf d t) d (moveAll d s t) = t.
Proof using All.
  rewrite <- (moveAll_back d s t) at 3. apply map_eq. intros k.
  rewrite moveKeys_lookup, moveKeysFrom_lookup, moveAll_lookup.
  destruct (t !! k) as [r|] eqn:E; cbn; [f_equal|done].
  destruct (decide (k ∈ keysOf d t)) as [Hk|Hk]; [|by rewrite decide_False by tauto].
  pose proof Hk as (? & ? & ?)%keysOf_spec. simplify_eq.
  rewrite !(decide_True (P:=owner _ = Some d)) by done.
  rewrite decide_True; [done|]. by rewrite owner_reown.
Qed.

Lemma moveAll_leaves d s t k r : d ≠ s → moveAll d s t !! k = Some r → owner r ≠ Some d.
Proof using All.
  rewrite moveAll_lookup. intros Hds (r0 & ? & ->)%fmap_Some Hr.
  case_decide; [rewrite owner_reown in Hr; congruence|done].
Qed.

Section Unique.
Context {B : Type} `{EqDecision B} (f : R → B).

Lemma uniqueOn_spec t :
  uniqueOn f t = true ↔ ∀ k1 k2 r1 r2, t !! k1 = Some r1 → t !! k2 = Some r2 → f r1 = f r2 → k1 = k2.
Proof using.
  unfold uniqueOn. rewrite bool_decide_eq_true. split.
  - intros HN k1 k2 r1 r2 Hk1%elem_of_map_to_list Hk2%elem_of_map_to_list Hf.
    apply list_elem_of_lookup in Hk1 as [i1 Hk1], Hk2 as [i2 Hk2].
    assert (i1 = i2) as ->.
    { eapply NoDup_lookup; [apply HN|..]; rewrite list_lookup_fmap.
      - by rewrite Hk1.
      - rewrite Hk2. cbn. by rewrite Hf. }
    by simplify_eq.
  - intros Hu. apply NoDup_fmap_2_strong; [|apply NoDup_map_to_list].
    intros [k1 r1] [k2 r2] Hk1 Hk2 Hf. apply elem_of_map_to_list in Hk1, Hk2. cbn in Hf.
    assert (k1 = k2) as -> by eauto. by simplify_eq.
Qed.

Lemma uniqueOn_mono t1 t2 : t1 ⊆ t2 → uniqueOn f t2 = true → uniqueOn f t1 = true.
Proof using. rewrite !uniqueOn_spec. intros Hs Hu k1 k2 r1 r2 Hk1 Hk2. eapply Hu; by eapply lookup_weaken. Qed.

End Unique.
End TableLemmas.

Lemma emails_back d s (t : gmap string EmailOwn) :
  let ids := (filter (fun e => eo_isPrimary e.2 = true) (rowsOf d t)).*1 in
  promote ids (moveKeys (keysOf d t) d (demote ids (moveAll d s t))) = t.
Proof.
  intros ids. apply map_eq. intros k. unfold promote, demote.
  rewrite map_lookup_imap, moveKeys_lookup, map_lookup_imap, moveAll_lookup.
  destruct (t !! k) as [r|] eqn:E; cbn; [f_equal|done].
  assert (k ∈ ids ↔ owner r = Some d ∧ eo_isPrimary r = true) as Hids.
  { unfold ids. rewrite list_elem_of_fmap. split.
    - intros ([? r'] & -> & [? ?%rowsOf_spec]%list_elem_of_filter). naive_solver.
    - intros [? ?]. exists (k, r). by rewrite list_elem_of_filter, rowsOf_spec. }
  assert (k ∈ keysOf d t ↔ owner r = Some d) as Hk by (rewrite keysOf_spec; naive_solver).
  destruct r as [o p]. cbn in *. repeat case_decide; cbn in *; destruct p; naive_solver.
Qed.

(** ** Lemmas: tables keyed by (userId, clientId) *)
Section PairLemmas.
Context {A : Type}.
Implicit Types t : gmap (string * string) A.

Lemma pairsOf_spec u t c x : (c, x) ∈ pairsOf u t ↔ t !! (u, c) = Some x.
Proof.
  unfold pairsOf. rewrite list_elem_of_In, in_map_iff. setoid_rewrite <- list_elem_of_In. split.
  - intros ([[u' c'] x'] & ? & He). apply elem_of_map_to_list, map_lookup_filter_Some in He. naive_solver.
  - intros Hx. exists ((u, c), x). split; [done|]. by apply elem_of_map_to_list, map_lookup_filter_Some.
Qed.

Lemma pairsOf_NoDup u t : NoDup (pairsOf u t).*1.
Proof.
  unfold pairsOf. rewrite <- list_fmap_compose. apply NoDup_fmap_2_strong; [|apply NoDup_map_to_list].
  intros [[u1 c1] x1] [[u2 c2] x2] H1 H2 Hc. cbn in Hc. subst c2.
  apply elem_of_map_to_list, map_lookup_filter_Some in H1, H2. naive_solver.
Qed.

Lemma rekey_lookup d s c t u c' : d ≠ s → is_Some (t !! (d, c)) →
  rekey d s c t !! (u, c') =
    if decide (c' = c) then
      if decide (u = d) then None else if decide (u = s) then t !! (d, c) else t !! (u, c')
    else t !! (u, c').
Proof.
  intros Hds [x Hx]. unfold rekey. rewrite Hx.
  destruct (decide ((s, c) = (u, c'))); [simplify_eq; rewrite lookup_insert_eq|rewrite lookup_insert_ne by done].
  - repeat case_decide; congruence.
  - destruct (decide ((d, c) = (u, c'))); [simplify_eq; rewrite lookup_delete_eq; repeat case_decide; congruence|].
    rewrite lookup_delete_ne by done. repeat case_decide; congruence.
Qed.

(** Moving a list of the donor's rows. *)
Lemma rekeys_lookup d s cs t u c : d ≠ s → NoDup cs → (∀ c, c ∈ cs → is_Some (t !! (d, c))) →
  foldl (fun t c => rekey d s c t) t cs !! (u, c) =
    if decide (c ∈ cs) then
      if decide (u = d) then None else if decide (u = s) then t !! (d, c) else t !! (u, c)
    else t !! (u, c).
Proof.
  intros Hds. revert t. induction cs as [|c0 cs IH]; intros t HN Hall; [done|].
  inversion HN as [|? ? Hc0 HN']; subst. cbn [foldl].
  assert (Hs0 : is_Some (t !! (d, c0))) by (apply Hall; left).
  rewrite IH; [|done|].
  - rewrite !rekey_lookup by done. repeat case_decide; set_solver.
  - intros c1 Hc1. rewrite rekey_lookup by done. rewrite decide_False by set_solver.
    apply Hall. by right.
Qed.

(** Moving back from the survivor when the donor has none of them. *)
Lemma rekeyAllBack_ok s d cs t : d ≠ s → NoDup cs →
  (∀ c, c ∈ cs → is_Some (t !! (s, c)) ∧ t !! (d, c) = None) →
  rekeyAllBack s d cs t = Some (length cs, foldl (fun t c => rekey s d c t) t cs).
Proof.
  intros Hds. revert t. induction cs as [|c0 cs IH]; intros t HN Hall; [done|].
  inversion HN as [|? ? Hc0 HN']; subst. destruct (Hall c0) as [[x Hx] Hn]; [left|].
  cbn [rekeyAllBack foldl length]. unfold rekeyBack. rewrite Hx, Hn. cbn. rewrite IH; [done|done|].
  intros c1 Hc1. rewrite !rekey_lookup by eauto. rewrite !decide_False by set_solver. apply Hall. by right.
Qed.
End PairLemmas.

(** ** Lemmas: overrides *)

Lemma createOverrides_spec s ovs t t' : createOverrides s ovs t = Some t' →
  NoDup ovs.*1 ∧
  (∀ c sub, (c, sub) ∈ ovs → t !! (s, c) = None ∧ t' !! (s, c) = Some sub) ∧
  (∀ u c, u ≠ s ∨ c ∉ ovs.*1 → t' !! (u, c) = t !! (u, c)).
Proof.
  revert t. induction ovs as [|[c0 sub0] ovs IH]; intros t Hc; cbn in Hc.
  { simplify_eq. split_and!; [constructor|set_solver|done]. }
  destruct (t !! (s, c0)) eqn:E; [done|]. apply IH in Hc as (HN & Hin & Hout). clear IH.
  assert (c0 ∉ ovs.*1) as Hc0.
  { intros ([c1 sub] & -> & Hm)%list_elem_of_fmap. destruct (Hin c1 sub Hm) as [Hx _].
    by rewrite lookup_insert_eq in Hx. }
  split_and!; cbn [fmap list_fmap fst] in *.
  - by constructor.
  - intros c sub [[= -> ->]|Hm]%elem_of_cons.
    + split; [done|]. rewrite Hout by auto. apply lookup_insert_eq.
    + destruct (Hin c sub Hm) as [Hx ?]. split; [|done].
      assert (c ≠ c0) by (intros ->; apply Hc0, list_elem_of_fmap; by exists (c0, sub)).
      rewrite lookup_insert_ne in Hx by congruence. done.
  - intros u c Huc. rewrite Hout by set_solver. apply lookup_insert_ne. set_solver.
Qed.

(** Creation succeeds when the clients are new to the survivor. *)
Lemma createOverrides_total s ovs t : NoDup ovs.*1 → (∀ c, c ∈ ovs.*1 → t !! (s, c) = None) →
  is_Some (createOverrides s ovs t).
Proof.
  revert t. induction ovs as [|[c0 sub0] ovs IH]; intros t HN Hall; cbn; [done|].
  inversion HN; subst. rewrite (Hall c0) by set_solver. apply IH; [done|].
  intros c Hc. rewrite lookup_insert_ne; [apply Hall; set_solver|set_solver].
Qed.

Lemma dropOverrides_lookup s ovs t u c : NoDup ovs.*1 → (∀ c sub, (c, sub) ∈ ovs → t !! (s, c) = Some sub) →
  dropOverrides s ovs t !! (u, c) = if decide (u = s ∧ c ∈ ovs.*1) then None else t !! (u, c).
Proof.
  unfold dropOverrides. revert t. induction ovs as [|[c0 sub0] ovs IH]; intros t HN Hall; cbn [foldl].
  { rewrite decide_False by set_solver. done. }
  cbn [fmap list_fmap fst snd] in *. inversion HN as [|? ? Hc0 HN']; subst.
  rewrite decide_True by (apply Hall; left). rewrite IH; [|done|].
  - destruct (decide ((s, c0) = (u, c))); [simplify_eq; rewrite lookup_delete_eq|rewrite lookup_delete_ne by done];
      repeat case_decide; set_solver.
  - intros c1 sub1 Hm. rewrite lookup_delete_ne; [apply Hall; by right|].
    intros [= ->]. apply Hc0, list_elem_of_fmap. by exists (c1, sub1).
Qed.

(** Moving the donor's own overrides, creating the new ones, and undoing both. *)
Lemma overrides_back d s own created t t' : d ≠ s → NoDup own →
  (∀ c, c ∈ own → is_Some (t !! (d, c)) ∧ t !! (s, c) = None) →
  createOverrides s created (moveOverrides d s own t) = Some t' →
  ∃ t1, rekeyAllBack s d own t' = Some (length own, t1) ∧ dropOverrides s created t1 = t.
Proof.
  intros Hds HN Hown (HNc & Hin & Hout)%createOverrides_spec.
  assert (Hmv := fun u c => rekeys_lookup d s own t u c Hds HN (fun c Hc => proj1 (Hown c Hc))).
  fold (moveOverrides d s own t) in Hmv.
  assert (Hdisj : ∀ c, c ∈ own → c ∉ created.*1).
  { intros c Hc ([c1 sub] & -> & Hm)%list_elem_of_fmap. destruct (Hin _ _ Hm) as [Hx _].
    rewrite Hmv, decide_True, decide_False, decide_True in Hx by done.
    destruct (Hown c1 Hc) as [[? Hy] _]. congruence. }
  assert (Hback : ∀ c, c ∈ own → is_Some (t' !! (s, c)) ∧ t' !! (d, c) = None).
  { intros c Hc. rewrite !Hout, !Hmv by auto. destruct (Hown c Hc) as [[x ->] _].
    repeat case_decide; naive_solver. }
  eexists. split; [by apply rekeyAllBack_ok|].
  apply map_eq. intros [u c].
  assert (Hbk := fun u c => rekeys_lookup s d own t' u c (not_eq_sym Hds) HN (fun c Hc => proj1 (Hback c Hc))).
  rewrite dropOverrides_lookup; [|done|].
  - rewrite Hbk. destruct (decide (c ∈ own)) as [Hc|Hc].
    + rewrite decide_False by naive_solver. rewrite !Hout, !Hmv, !(decide_True (P:=c ∈ own)) by auto.
      destruct (Hown c Hc) as [_ Hn]. repeat case_decide; congruence.
    + destruct (decide (u = s ∧ c ∈ created.*1)) as [[-> Hcc]|Hn].
      * apply list_elem_of_fmap in Hcc as ([c1 sub] & -> & Hm). destruct (Hin _ _ Hm) as [Hx _].
        rewrite Hmv in Hx. by rewrite decide_False in Hx by done.
      * rewrite Hout by (destruct (decide (u = s)); naive_solver). by rewrite Hmv, decide_False by done.
  - intros c1 sub1 Hm. rewrite Hbk. rewrite decide_False; [by apply Hin|].
    intros Hc. apply (Hdisj _ Hc), list_elem_of_fmap. by exists (c1, sub1).
Qed.

(** ** Lemmas: grants *)

(** The survivor's grant for a client of the donor's, after the merge. *)
Definition grantAfter (sg : option GrantRow) (dg : GrantRow) : GrantRow :=
  match sg with
  | None => dg
  | Some sg => {| gr_id := gr_id sg; gr_state := unionGrant (gr_state sg) (gr_state dg) |}
  end.

Definition grantsMoved (s : string) (t : gmap (string * string) GrantRow) (ps : list (string * GrantRow)) : list string :=
  (filter (fun p => t !! (s, p.1) = None) ps).*1.

Definition grantsMerged (s : string) (t : gmap (string * string) GrantRow) (ps : list (string * GrantRow)) : list GrantMerged :=
  omap (fun p => sg ← t !! (s, p.1);
    Some {| gm_clientId := p.1; gm_survivorPrev := gr_state sg; gm_donorDeleted := p.2 |}) ps.

Lemma grantPlan_lists d s t t0 mv mg ps :
  let '(_, mv', mg') := foldl (grantStep d s t) (t0, mv, mg) ps in
  mv' = mv ++ grantsMoved s t ps ∧ mg' = mg ++ grantsMerged s t ps.
Proof.
  revert t0 mv mg. induction ps as [|[c g] ps IH]; intros t0 mv mg; cbn [foldl].
  { unfold grantsMoved. cbn. by rewrite !app_nil_r. }
  unfold grantStep at 2. cbn [fst snd]. unfold grantsMoved, grantsMerged in *. cbn [omap list_omap fst snd].
  rewrite filter_cons. cbn [fst].
  destruct (t !! (s, c)) as [sg|] eqn:E; cbn [mbind option_bind].
  - rewrite decide_False by done. specialize (IH (delete (d, c) (<[(s, c) := {| gr_id := gr_id sg;
      gr_state := unionGrant (gr_state sg) (gr_state g) |}]> t0)) mv
      (mg ++ [{| gm_clientId := c; gm_survivorPrev := gr_state sg; gm_donorDeleted := g |}])).
    destruct (foldl _ _ _) as [[? ?] ?]. by rewrite <- app_assoc in IH.
  - rewrite decide_True by done. specialize (IH (rekey d s c t0) (mv ++ [c]) mg).
    destruct (foldl _ _ _) as [[? ?] ?]. by rewrite <- app_assoc in IH.
Qed.

Lemma grantStep_lookup d s t t0 mv mg c g u c' : d ≠ s → t0 !! (d, c) = Some g →
  (grantStep d s t (t0, mv, mg) (c, g)).1.1 !! (u, c') =
    if decide (c' = c) then
      if decide (u = d) then None else if decide (u = s) then Some (grantAfter (t !! (s, c)) g) else t0 !! (u, c')
    else t0 !! (u, c').
Proof.
  intros Hds Hg. unfold grantStep. cbn [fst snd]. destruct (t !! (s, c)) as [sg|] eqn:E; cbn [fst grantAfter].
  - destruct (decide ((d, c) = (u, c'))) as [|Hne]; [simplify_eq; rewrite lookup_delete_eq|rewrite lookup_delete_ne by done].
    { repeat case_decide; congruence. }
    destruct (decide ((s, c) = (u, c'))) as [|Hne']; [simplify_eq; rewrite lookup_insert_eq|rewrite lookup_insert_ne by done];
      repeat case_decide; congruence.
  - rewrite rekey_lookup, Hg by eauto. done.
Qed.

Lemma grantPlan_fold_lookup d s t t0 mv mg ps u c : d ≠ s → NoDup ps.*1 →
  (∀ c g, (c, g) ∈ ps → t0 !! (d, c) = Some g) →
  (foldl (grantStep d s t) (t0, mv, mg) ps).1.1 !! (u, c) =
    if decide (c ∈ ps.*1) then
      if decide (u = d) then None else if decide (u = s) then grantAfter (t !! (s, c)) <$> t0 !! (d, c) else t0 !! (u, c)
    else t0 !! (u, c).
Proof.
  intros Hds. revert t0 mv mg. induction ps as [|[c0 g0] ps IH]; intros t0 mv mg HN Hall; cbn [foldl].
  { by rewrite decide_False by set_solver. }
  cbn [fmap list_fmap fst] in *. inversion HN as [|? ? Hc0 HN']; subst.
  assert (Hg0 : t0 !! (d, c0) = Some g0) by (apply Hall; left).
  assert (Hst := fun u c => grantStep_lookup d s t t0 mv mg c0 g0 u c Hds Hg0).
  destruct (grantStep d s t (t0, mv, mg) (c0, g0)) as [[t1 mv1] mg1]. cbn [fst] in Hst.
  rewrite IH; [|done|].
  - rewrite !Hst. destruct (decide (c ∈ ps.*1)).
    + rewrite !(decide_False (P:=c = c0)), (decide_True (P:=c ∈ c0 :: _)) by set_solver. done.
    + destruct (decide (c = c0)) as [->|]; [|by rewrite (decide_False (P:=c ∈ c0 :: _)) by set_solver].
      rewrite (decide_True (P:=c0 ∈ c0 :: _)), Hg0 by set_solver. done.
  - intros c1 g1 Hm. rewrite Hst, decide_False; [apply Hall; by right|].
    intros ->. apply Hc0, list_elem_of_fmap. by exists (c0, g1).
Qed.

(** The grants after the merge. *)
Lemma grantPlan_lookup d s t u c : d ≠ s →
  (grantPlan d s t).1.1 !! (u, c) =
    match t !! (d, c) with
    | Some g => if decide (u = d) then None else if decide (u = s) then Some (grantAfter (t !! (s, c)) g) else t !! (u, c)
    | None => t !! (u, c)
    end.
Proof.
  intros Hds. unfold grantPlan. rewrite grantPlan_fold_lookup; [|done|apply pairsOf_NoDup|by intros ? ? ?%pairsOf_spec].
  destruct (t !! (d, c)) as [g|] eqn:E.
  - rewrite decide_True; [done|]. apply list_elem_of_fmap. exists (c, g). by rewrite pairsOf_spec.
  - rewrite decide_False; [done|]. intros ([c1 g] & -> & Hm)%list_elem_of_fmap. apply pairsOf_spec in Hm. cbn in E. congruence.
Qed.

(** Splitting the united grants restores the table [t]: [t1] has the survivor's rows under
    their ids, the donor's are gone, and the rest is as in [t]. *)
Record SplitState (s d : string) (ms : list GrantMerged) (t t1 : gmap (string * string) GrantRow) : Prop := {
  ss_NoDup : NoDup (gm_clientId <$> ms);
  ss_each m : m ∈ ms → t !! (d, gm_clientId m) = Some (gm_donorDeleted m) ∧ t1 !! (d, gm_clientId m) = None ∧
    ∃ sg g, t !! (s, gm_clientId m) = Some sg ∧ gr_state sg = gm_survivorPrev m ∧
      t1 !! (s, gm_clientId m) = Some g ∧ gr_id g = gr_id sg;
  ss_rest u c : (c ∈ gm_clientId <$> ms → u ≠ s ∧ u ≠ d) → t1 !! (u, c) = t !! (u, c);
}.

Lemma SplitState_ids s d ms t t1 k g : SplitState s d ms t t1 → t1 !! k = Some g →
  ∃ g0, t !! k = Some g0 ∧ gr_id g0 = gr_id g.
Proof.
  intros [HN He Hr] Hg. destruct k as [u c].
  destruct (decide (c ∈ gm_clientId <$> ms)) as [Hc|Hc]; [|rewrite Hr in Hg by tauto; eauto].
  pose proof Hc as (m & -> & Hm)%list_elem_of_fmap. destruct (He m Hm) as (Hd & Hd1 & sg & g' & Hs & _ & Hs1 & Hid).
  destruct (decide (u = d)) as [->|]; [congruence|]. destruct (decide (u = s)) as [->|].
  - exists sg. split; [done|]. congruence.
  - rewrite Hr in Hg by tauto. eauto.
Qed.

Lemma splitGrants_restores s d ms t t1 : d ≠ s → uniqueOn gr_id t = true → SplitState s d ms t t1 →
  splitGrants s d ms t1 = Some t.
Proof.
  intros Hds Hu. revert t1. induction ms as [|m ms IH]; intros t1 Hss.
  { cbn. f_equal. apply map_eq. intros [u c]. apply (ss_rest _ _ _ _ _ Hss). set_solver. }
  cbn [splitGrants]. set (c0 := gm_clientId m).
  destruct (ss_each _ _ _ _ _ Hss m) as (Hd & Hd1 & sg & g & Hs & Hst & Hs1 & Hid); [left|].
  fold c0 in Hd, Hd1, Hs, Hs1.
  set (ta := alter _ _ t1).
  assert (Hta : ∀ u c, ta !! (u, c) = if decide ((u, c) = (s, c0)) then t !! (s, c0) else t1 !! (u, c)).
  { intros u c. unfold ta. case_decide as He; [|by rewrite lookup_alter_ne].
    rewrite He, lookup_alter_eq, Hs1, Hs. cbn. f_equal. destruct sg. cbn in *. congruence. }
  rewrite decide_True.
  - apply IH. pose proof (ss_NoDup _ _ _ _ _ Hss) as HN. cbn [fmap list_fmap] in HN.
    inversion HN as [|? ? Hc0 HN']; subst. fold c0 in Hc0. split; [done|..].
    + intros m' Hm'. assert (gm_clientId m' ≠ c0) as Hne by (intros <-; apply Hc0, list_elem_of_fmap; eauto).
      rewrite !lookup_insert_ne, !Hta, !decide_False by congruence.
      apply (ss_each _ _ _ _ _ Hss). by right.
    + intros u c Huc. destruct (decide ((u, c) = (d, c0))) as [[= -> ->]|]; [by rewrite lookup_insert_eq|].
      rewrite lookup_insert_ne by congruence. rewrite Hta. case_decide as He; [congruence|].
      apply (ss_rest _ _ _ _ _ Hss). intros [->| ?]%elem_of_cons; [|tauto]. fold c0 in n, He. split; intros ->; congruence.
  - split; [rewrite Hta, decide_False by congruence; done|].
    intros [u c] g1 Hg1 Hids. rewrite Hta in Hg1.
    assert (∃ g0, t !! (u, c) = Some g0 ∧ gr_id g0 = gr_id g1) as (g0 & Hg0 & He).
    { case_decide as He; [rewrite He; eauto|]. eapply SplitState_ids; eauto. }
    assert ((u, c) = (d, c0)) as Hk. { eapply (proj1 (uniqueOn_spec gr_id t) Hu); [done..|congruence]. }
    rewrite Hk in Hg1. case_decide; congruence.
Qed.

Lemma grantsMoved_spec s d t c :
  c ∈ grantsMoved s t (pairsOf d t) ↔ is_Some (t !! (d, c)) ∧ t !! (s, c) = None.
Proof.
  unfold grantsMoved. rewrite list_elem_of_fmap. split.
  - intros ([c1 g] & -> & [? Hm]%list_elem_of_filter). apply pairsOf_spec in Hm. eauto.
  - intros [[g Hg] Hn]. exists (c, g). by rewrite list_elem_of_filter, pairsOf_spec.
Qed.

Lemma grantsMerged_spec s d t m :
  m ∈ grantsMerged s t (pairsOf d t) ↔
    t !! (d, gm_clientId m) = Some (gm_donorDeleted m) ∧
    ∃ sg, t !! (s, gm_clientId m) = Some sg ∧ gm_survivorPrev m = gr_state sg.
Proof.
  unfold grantsMerged. rewrite list_elem_of_omap. split.
  - intros ([c g] & Hm%pairsOf_spec & Hb). cbn in Hb. destruct (t !! (s, c)) eqn:E; cbn in Hb; [|done]. simplify_eq. eauto.
  - intros [Hd (sg & Hs & Hp)]. exists (gm_clientId m, gm_donorDeleted m). rewrite pairsOf_spec. split; [done|].
    cbn. rewrite Hs. cbn. destruct m; cbn in *. congruence.
Qed.

Lemma grantsMerged_clients s t ps c : c ∈ gm_clientId <$> grantsMerged s t ps → c ∈ ps.*1.
Proof.
  intros (m & -> & ([c1 g] & Hm & Hb)%list_elem_of_omap)%list_elem_of_fmap. apply list_elem_of_fmap.
  exists (c1, g). cbn in Hb. destruct (t !! (s, c1)); cbn in Hb; [|done]. by simplify_eq.
Qed.

Lemma grantsMerged_NoDup s t ps : NoDup ps.*1 → NoDup (gm_clientId <$> grantsMerged s t ps).
Proof.
  induction ps as [|[c g] ps IH]; intros HN; [constructor|].
  cbn [fmap list_fmap fst] in HN. inversion HN as [|? ? Hc HN']; subst.
  unfold grantsMerged. cbn [omap list_omap fst]. fold (grantsMerged s t ps).
  destruct (t !! (s, c)); cbn; [constructor; [by intros ?%grantsMerged_clients|]|]; by apply IH.
Qed.

(** Uniting the grants and splitting them again. *)
Lemma grants_back d s t : d ≠ s → uniqueOn gr_id t = true →
  let '(t', mv, mg) := grantPlan d s t in
  ∃ t1, rekeyAllBack s d mv t' = Some (length mv, t1) ∧ splitGrants s d mg t1 = Some t.
Proof.
  intros Hds Hu. pose proof (grantPlan_lists d s t t [] [] (pairsOf d t)) as Hl.
  pose proof (fun u c => grantPlan_lookup d s t u c Hds) as Hlk. fold (grantPlan d s t) in Hl.
  destruct (grantPlan d s t) as [[t' mv] mg]. destruct Hl as [-> ->]. cbn [fst app] in *.
  assert (NoDup (grantsMoved s t (pairsOf d t))) as HN.
  { unfold grantsMoved. eapply sublist_NoDup; [apply (pairsOf_NoDup d t)|apply fmap_sublist, sublist_filter]. }
  assert (∀ c, c ∈ grantsMoved s t (pairsOf d t) → is_Some (t' !! (s, c)) ∧ t' !! (d, c) = None) as Hmv.
  { intros c [[g Hg] Hn]%grantsMoved_spec. rewrite !Hlk, Hg. repeat case_decide; naive_solver. }
  eexists. split; [by apply rekeyAllBack_ok|]. apply splitGrants_restores; [done..|].
  assert (Hbk := fun u c => rekeys_lookup s d _ t' u c (not_eq_sym Hds) HN (fun c Hc => proj1 (Hmv c Hc))).
  split; [apply grantsMerged_NoDup, pairsOf_NoDup|..].
  - intros m Hm. pose proof Hm as (Hd & sg & Hs & Hp)%grantsMerged_spec. split; [done|].
    assert (gm_clientId m ∉ grantsMoved s t (pairsOf d t)) by (rewrite grantsMoved_spec, Hs; naive_solver).
    rewrite !Hbk, !decide_False by done. rewrite !Hlk, Hd.
    rewrite decide_True by done. split; [done|]. rewrite decide_False, decide_True by done.
    rewrite Hs. cbn. eauto 6.
  - intros u c Huc. rewrite Hbk. case_decide as Hc.
    + pose proof Hc as [[g Hg] Hn]%grantsMoved_spec. rewrite !Hlk, Hg. repeat case_decide; cbn; congruence || (subst; cbn; rewrite ?Hn; done).
    + rewrite Hlk. destruct (t !! (d, c)) as [g|] eqn:Hg; [|done].
      destruct (t !! (s, c)) as [sg|] eqn:Hs; [|destruct Hc; rewrite grantsMoved_spec; eauto].
      rewrite !decide_False; [done|..]; apply Huc, list_elem_of_fmap;
        exists {| gm_clientId := c; gm_survivorPrev := gr_state sg; gm_donorDeleted := g |};
        rewrite grantsMerged_spec; eauto.
Qed.

(** ** Lemmas: rows that lose a collision *)

Lemma deleteKeys_cons {R} `{Owned R} k ks (t : gmap string R) : deleteKeys (k :: ks) t = delete k (deleteKeys ks t).
Proof.
  apply map_eq. intros k'. rewrite deleteKeys_lookup. destruct (decide (k' = k)) as [->|].
  - rewrite lookup_delete_eq, decide_True; [done|left].
  - rewrite lookup_delete_ne, deleteKeys_lookup by done. repeat case_decide; set_solver.
Qed.

Section Losers.
Context {R : Type} `{OwnedLaws R} {B : Type} `{EqDecision B} (f : R → B).

Lemma recreate_deleted del (t : gmap string R) : uniqueOn f t = true → NoDup del.*1 →
  (∀ k r, (k, r) ∈ del → t !! k = Some r) →
  recreate f del (deleteKeys del.*1 t) = Some t.
Proof using All.
  intros Hu. induction del as [|[k r] del IH]; intros HN Hall.
  { cbn. f_equal. apply map_eq. intros k. rewrite deleteKeys_lookup, decide_False by set_solver. done. }
  cbn [fmap list_fmap fst] in *. inversion HN as [|? ? Hk HN']; subst.
  cbn [recreate]. rewrite deleteKeys_cons, lookup_delete_eq, insert_delete_eq.
  rewrite (insert_id (deleteKeys _ t)).
  - rewrite (uniqueOn_mono _ _ t); [|apply map_filter_subseteq|done]. apply IH; [done|].
    intros k' r' Hm. apply Hall. by right.
  - rewrite deleteKeys_lookup, decide_False by done. apply Hall. left.
Qed.

(** Delete the losers, move the rest, move it back, recreate the losers. *)
Lemma losers_back d s del mv (t : gmap string R) : uniqueOn f t = true → NoDup del.*1 →
  (∀ k r, (k, r) ∈ del → t !! k = Some r) →
  (∀ k, k ∈ mv → ∃ r, t !! k = Some r ∧ owner r = Some d) →
  let t' := moveKeys mv d (moveKeys mv s (deleteKeys del.*1 t)) in
  uniqueOn f t' = true ∧ recreate f del t' = Some t.
Proof using All.
  intros Hu HN Hdel Hmv t'.
  assert (t' = deleteKeys del.*1 t) as ->.
  { apply map_eq. intros k. unfold t'. rewrite !moveKeys_lookup, !deleteKeys_lookup.
    destruct (decide (k ∈ del.*1)); [done|]. destruct (t !! k) as [r|] eqn:E; cbn; [f_equal|done].
    case_decide as Hk; [|done]. destruct (Hmv k Hk) as (? & ? & ?). simplify_eq.
    by rewrite reown_reown, reown_owner. }
  split; [|by apply recreate_deleted]. eapply uniqueOn_mono; [apply map_filter_subseteq|done].
Qed.
End Losers.

Lemma NoDup_omap_fst {A B C} (f : A → option (B * C)) l : NoDup l →
  (∀ x y a b, x ∈ l → y ∈ l → f x = Some a → f y = Some b → a.1 = b.1 → x = y) →
  NoDup (omap f l).*1.
Proof.
  induction 1 as [|x l Hx HN IH]; intros Hinj; cbn; [constructor|].
  assert (NoDup (omap f l).*1) by (apply IH; intros; eapply Hinj; try right; eauto).
  destruct (f x) as [a|] eqn:Ex; cbn; [|done]. constructor; [|done].
  intros (b & Hab & (y & Hy & Ey)%list_elem_of_omap)%list_elem_of_fmap.
  destruct Hx. replace x with y; [done|]. symmetry. eapply Hinj; [left|by right|done..].
Qed.

(** *** Eligibilities *)
Section EligibilityPlan.
Context (d s : string) (t : gmap string Eligibility).
Context (Hds : d ≠ s) (Hu : uniqueOn eligibilityKey t = true).

Definition eligibilityRival (e : string * Eligibility) : option (string * Eligibility) :=
  last (filter (fun r => el_badgeType r.2 = el_badgeType e.2) (rowsOf s t)).

Definition eligibilityLoser (e : string * Eligibility) : option (string * Eligibility) :=
  r ← eligibilityRival e; Some (if el_eligibleAt e.2 <? el_eligibleAt r.2 then r else e).

Definition eligibilityMoves (e : string * Eligibility) : bool :=
  match eligibilityRival e with None => true | Some r => el_eligibleAt e.2 <? el_eligibleAt r.2 end.

Lemma eligibilityPlan_eq :
  eligibilityPlan d s t =
  (omap eligibilityLoser (rowsOf d t), (filter (fun e => eligibilityMoves e = true) (rowsOf d t)).*1).
Proof using.
  unfold eligibilityPlan.
  assert (∀ rows acc, foldl (eligibilityStep (rowsOf s t)) acc rows =
    (acc.1 ++ omap eligibilityLoser rows, acc.2 ++ (filter (fun e => eligibilityMoves e = true) rows).*1)) as ->; [|done].
  induction rows as [|e rows IH]; intros [del mv]; cbn [foldl]; [cbn; by rewrite !app_nil_r|].
  rewrite IH, filter_cons. cbn [omap list_omap]. unfold eligibilityStep, eligibilityLoser, eligibilityMoves.
  fold (eligibilityRival e). destruct (eligibilityRival e) as [r|]; cbn; [|by rewrite <- app_assoc].
  destruct (el_eligibleAt e.2 <? el_eligibleAt r.2); cbn; by rewrite <- ?app_assoc.
Qed.

Lemma eligibilityRival_Some e r : eligibilityRival e = Some r → r ∈ rowsOf s t ∧ el_badgeType r.2 = el_badgeType e.2.
Proof using.
  unfold eligibilityRival. intros Hl%last_Some_elem_of. apply list_elem_of_filter in Hl. tauto.
Qed.

Lemma eligibilityRival_None e r : eligibilityRival e = None → r ∈ rowsOf s t → el_badgeType r.2 ≠ el_badgeType e.2.
Proof using.
  unfold eligibilityRival. intros Hl%last_None Hr Ht.
  assert (r ∈ filter (fun r => el_badgeType r.2 = el_badgeType e.2) (rowsOf s t)) as Hm by (by apply list_elem_of_filter).
  rewrite Hl in Hm. by apply not_elem_of_nil in Hm.
Qed.

Lemma eligibility_type_unique u k1 r1 k2 r2 : (k1, r1) ∈ rowsOf u t → (k2, r2) ∈ rowsOf u t →
  el_badgeType r1 = el_badgeType r2 → k1 = k2.
Proof using Hu.
  intros [H1 Ho1]%rowsOf_spec [H2 Ho2]%rowsOf_spec Ht. cbn in Ho1, Ho2. simplify_eq.
  eapply (proj1 (uniqueOn_spec eligibilityKey t) Hu); [done..|]. unfold eligibilityKey. congruence.
Qed.

Lemma eligibilityLoser_row e l : e ∈ rowsOf d t → eligibilityLoser e = Some l → t !! l.1 = Some l.2.
Proof using.
  intros He Hl. unfold eligibilityLoser in Hl. destruct (eligibilityRival e) as [r|] eqn:Er; cbn in Hl; [|done].
  apply eligibilityRival_Some in Er as [Hr _]. destruct r as [kr rr], e as [ke re].
  apply rowsOf_spec in Hr, He. case_match; simplify_eq; cbn; tauto.
Qed.

Lemma eligibilityLoser_inj e1 e2 l1 l2 : e1 ∈ rowsOf d t → e2 ∈ rowsOf d t →
  eligibilityLoser e1 = Some l1 → eligibilityLoser e2 = Some l2 → l1.1 = l2.1 → e1 = e2.
Proof using Hds Hu.
  intros He1 He2 H1 H2 Hl. assert (l1 = l2) as <-.
  { pose proof (eligibilityLoser_row _ _ He1 H1). pose proof (eligibilityLoser_row _ _ He2 H2).
    destruct l1, l2. cbn in *. congruence. }
  destruct e1 as [k1 r1], e2 as [k2 r2].
  assert (k1 = k2) as ->; [|apply rowsOf_spec in He1, He2; naive_solver].
  unfold eligibilityLoser in H1, H2.
  destruct (eligibilityRival (k1, r1)) as [[ks1 s1]|] eqn:E1; cbn in H1; [|done].
  destruct (eligibilityRival (k2, r2)) as [[ks2 s2]|] eqn:E2; cbn in H2; [|done].
  apply eligibilityRival_Some in E1 as [Hs1 Ht1], E2 as [Hs2 Ht2]. cbn in Ht1, Ht2.
  eapply eligibility_type_unique; [done..|].
  pose proof Hs1 as [? ?]%rowsOf_spec. pose proof Hs2 as [? ?]%rowsOf_spec.
  pose proof He1 as [? ?]%rowsOf_spec. pose proof He2 as [? ?]%rowsOf_spec.
  repeat case_match; simplify_eq; congruence.
Qed.

Lemma eligibility_losers_NoDup : NoDup (eligibilityPlan d s t).1.*1.
Proof using Hds Hu.
  rewrite eligibilityPlan_eq. cbn [fst]. apply NoDup_omap_fst; [apply NoDup_map_to_list|].
  intros. by eapply eligibilityLoser_inj.
Qed.

Lemma eligibility_moved k : k ∈ (eligibilityPlan d s t).2 →
  ∃ r, (k, r) ∈ rowsOf d t ∧ eligibilityMoves (k, r) = true.
Proof using.
  rewrite eligibilityPlan_eq. cbn [snd].
  intros ([k' r] & -> & [Hm Hr]%list_elem_of_filter)%list_elem_of_fmap. eauto.
Qed.

(** The merge and its reversal on eligibilities. *)
Lemma eligibility_back :
  let plan := eligibilityPlan d s t in
  let t' := moveKeys plan.2 d (moveKeys plan.2 s (deleteKeys plan.1.*1 t)) in
  uniqueOn eligibilityKey t' = true ∧ recreate eligibilityKey plan.1 t' = Some t.
Proof using Hds Hu.
  cbn. apply losers_back; [done|apply eligibility_losers_NoDup|..].
  - intros k r. rewrite eligibilityPlan_eq. cbn [fst]. intros (e & He & Hl)%list_elem_of_omap.
    by apply (eligibilityLoser_row e (k, r)).
  - intros k (r & [? ?]%rowsOf_spec & _)%eligibility_moved. eauto.
Qed.

(** A moved row beats its rival, which is deleted. *)
Lemma eligibility_rival_deleted k r k' r' : (k, r) ∈ rowsOf d t → eligibilityMoves (k, r) = true →
  (k', r') ∈ rowsOf s t → el_badgeType r' = el_badgeType r → k' ∈ (eligibilityPlan d s t).1.*1.
Proof using Hu.
  intros Hr Hm Hr' Ht. rewrite eligibilityPlan_eq. cbn [fst]. unfold eligibilityMoves in Hm.
  destruct (eligibilityRival (k, r)) as [[k1 r1]|] eqn:E; [|by destruct (eligibilityRival_None _ _ E Hr')].
  pose proof (eligibilityRival_Some _ _ E) as [Hr1 Ht1].
  assert (k1 = k') as -> by (eapply eligibility_type_unique; [done..|]; cbn in *; congruence).
  apply list_elem_of_fmap. exists (k', r1). split; [done|]. apply list_elem_of_omap. exists (k, r). split; [done|].
  unfold eligibilityLoser. rewrite E. cbn in *. by rewrite Hm.
Qed.

(** The merged table respects the unique constraint: the merge cannot trip over it. *)
Lemma eligibility_merge_unique :
  let plan := eligibilityPlan d s t in
  uniqueOn eligibilityKey (moveKeys plan.2 s (deleteKeys plan.1.*1 t)) = true.
Proof using Hds Hu.
  cbn. apply uniqueOn_spec. intros k1 k2 r1 r2. rewrite !moveKeys_lookup, !deleteKeys_lookup.
  destruct (decide (k1 ∈ (eligibilityPlan d s t).1.*1)) as [|Hk1]; [done|].
  destruct (decide (k2 ∈ (eligibilityPlan d s t).1.*1)) as [|Hk2]; [done|].
  intros (x1 & H1 & ->)%fmap_Some (x2 & H2 & ->)%fmap_Some. unfold eligibilityKey.
  destruct (decide (k1 ∈ (eligibilityPlan d s t).2)) as [(y1 & Hy1 & Hm1)%eligibility_moved|];
    destruct (decide (k2 ∈ (eligibilityPlan d s t).2)) as [(y2 & Hy2 & Hm2)%eligibility_moved|];
    cbn; intros [=].
  - pose proof Hy1 as [? ?]%rowsOf_spec. pose proof Hy2 as [? ?]%rowsOf_spec. simplify_eq.
    by eapply eligibility_type_unique.
  - pose proof Hy1 as [? ?]%rowsOf_spec. simplify_eq. destruct Hk2.
    eapply eligibility_rival_deleted; [done..| |done]. apply rowsOf_spec. cbn. split; congruence.
  - pose proof Hy2 as [? ?]%rowsOf_spec. simplify_eq. destruct Hk1.
    eapply eligibility_rival_deleted; [done..| |done]. apply rowsOf_spec. cbn. split; congruence.
  - eapply (proj1 (uniqueOn_spec eligibilityKey t) Hu); [done..|]. unfold eligibilityKey. congruence.
Qed.
End EligibilityPlan.

(** *** Redemptions *)
Section RedemptionPlan.
Context (d s : string) (t : gmap string Redemption).
Context (Hu : uniqueOn redemptionKey t = true).

Lemma redemption_moved k : k ∈ (redemptionPlan d s t).2 ↔
  ∃ r, (k, r) ∈ rowsOf d t ∧ ∀ k' r', (k', r') ∈ rowsOf s t → rd_inviteCodeId r' ≠ rd_inviteCodeId r.
Proof using.
  unfold redemptionPlan. cbn [snd]. rewrite list_elem_of_fmap. split.
  - intros ([k0 r] & -> & [Hn Hr]%list_elem_of_filter). exists r. split; [done|]. intros k' r' Hr' He. destruct Hn.
    cbn. rewrite <- He. apply list_elem_of_In, in_map_iff. exists (k', r'). split; [done|]. by apply list_elem_of_In.
  - intros (r & Hr & Hn). exists (k, r). split; [done|]. apply list_elem_of_filter. split; [|done].
    intros ([k' r'] & He & Hr')%list_elem_of_In%in_map_iff. apply list_elem_of_In in Hr'. by eapply Hn.
Qed.

Lemma redemption_back :
  let plan := redemptionPlan d s t in
  let t' := moveKeys plan.2 d (moveKeys plan.2 s (deleteKeys plan.1.*1 t)) in
  uniqueOn redemptionKey t' = true ∧ recreate redemptionKey plan.1 t' = Some t.
Proof using Hu.
  cbn [fst]. apply losers_back; [done|..].
  - eapply sublist_NoDup; [apply (rowsOf_keys_NoDup d t)|apply fmap_sublist, sublist_filter].
  - intros k r. unfold redemptionPlan. cbn [fst]. intros [_ [? ?]%rowsOf_spec]%list_elem_of_filter. done.
  - intros k (r & [? ?]%rowsOf_spec & _)%redemption_moved. eauto.
Qed.

Lemma redemption_merge_unique :
  let plan := redemptionPlan d s t in
  uniqueOn redemptionKey (moveKeys plan.2 s (deleteKeys plan.1.*1 t)) = true.
Proof using Hu.
  cbn [fst]. apply uniqueOn_spec. intros k1 k2 r1 r2. rewrite !moveKeys_lookup, !deleteKeys_lookup.
  destruct (decide (k1 ∈ (redemptionPlan d s t).1.*1)) as [|Hk1]; [done|].
  destruct (decide (k2 ∈ (redemptionPlan d s t).1.*1)) as [|Hk2]; [done|].
  intros (x1 & H1 & ->)%fmap_Some (x2 & H2 & ->)%fmap_Some. unfold redemptionKey.
  destruct (decide (k1 ∈ (redemptionPlan d s t).2)) as [(y1 & [? ?]%rowsOf_spec & Hm1)%redemption_moved|];
    destruct (decide (k2 ∈ (redemptionPlan d s t).2)) as [(y2 & [? ?]%rowsOf_spec & Hm2)%redemption_moved|];
    cbn; intros [=]; simplify_eq.
  - eapply (proj1 (uniqueOn_spec redemptionKey t) Hu); [done..|]. unfold redemptionKey. cbn in *. congruence.
  - destruct (Hm1 k2 x2); [|done]. apply rowsOf_spec. cbn. split; congruence.
  - destruct (Hm2 k1 x1); [|done]. apply rowsOf_spec. cbn. split; congruence.
  - eapply (proj1 (uniqueOn_spec redemptionKey t) Hu); [done..|]. unfold redemptionKey. congruence.
Qed.
End RedemptionPlan.
