(* ===== verification/MergeProofs.v ===== *)
(** * Account merge: theorems (lib/merge.ts)

    When a merge succeeds and what it leaves; that a reversal inside the window undoes it;
    which pseudonyms survive; and three ways in which merges and reversals do not compose. *)

From S2P Require Import Prelude Threads Matching Policy Selection RateLimit Registry SybilScore.
From S2P Require Import Session SybilConfig OidcAuthorize Bitstring Interleave StatusList OidcFlow Merge.

Open Scope Z_scope.

(** ** The schema *)

(** The unique constraints of the tables, and that only a tombstone has a merge date. *)
Record SchemaOk (db : MergeDB) : Prop := {
  so_eligibility : uniqueOn eligibilityKey (mg_eligibility db) = true;
  so_redemptions : uniqueOn redemptionKey (mg_redemptions db) = true;
  so_grants : uniqueOn gr_id (mg_grants db) = true;
  so_users u x : mg_users db !! u = Some x → mu_mergedIntoUserId x = None → mu_mergedAt x = None;
}.

(** A user at a later session generation. *)
Definition laterGeneration (n : Z) (u : MergeUser) : MergeUser :=
  {| mu_isBanned := mu_isBanned u; mu_isAdmin := mu_isAdmin u; mu_sessionGeneration := mu_sessionGeneration u + n;
     mu_email := mu_email u; mu_mergedIntoUserId := mu_mergedIntoUserId u; mu_mergedAt := mu_mergedAt u;
     mu_dedupHandle := mu_dedupHandle u |}.

(** The database after a merge of [d] into [s] and its reversal, [record] being the merge's:
    only the session generations, the donor's codes and the record are not as before. *)
Definition afterReversal (recordId s d : string) (record : MergeRecord) (db : MergeDB) : MergeDB :=
  {| mg_users := alter (laterGeneration 2) d (alter (laterGeneration 2) s (mg_users db));
     mg_badges := mg_badges db; mg_shareLinks := mg_shareLinks db; mg_tokens := mg_tokens db;
     mg_wizards := mg_wizards db; mg_recoveryCodes := mg_recoveryCodes db;
     mg_recoveryAttempts := mg_recoveryAttempts db; mg_emails := mg_emails db; mg_auditLogs := mg_auditLogs db;
     mg_accounts := mg_accounts db; mg_sessions := mg_sessions db; mg_authenticators := mg_authenticators db;
     mg_overrides := mg_overrides db; mg_redemptions := mg_redemptions db; mg_eligibility := mg_eligibility db;
     mg_clients := mg_clients db; mg_grants := mg_grants db;
     mg_authCodes := filter (fun e => owner e.2 ≠ Some d) (mg_authCodes db);
     mg_records := <[recordId := record]> (mg_records db) |}.

(** ** The transaction *)

Section Tx.
Context (now : Z) (recordId s d : string) (donorSubs : list (string * string)).

(** The conditions under which the transaction commits. *)
Record Mergeable (survivor donor : MergeUser) (overrides : gmap (string * string) string) (db : MergeDB) : Prop := {
  me_survivor : mg_users db !! s = Some survivor;
  me_donor : mg_users db !! d = Some donor;
  me_live : mu_mergedIntoUserId donor = None;
  me_drift : noDrift d donorSubs db = true;
  me_unique : uniqueOn eligibilityKey (mergedEligibility s d db) && uniqueOn redemptionKey (mergedRedemptions s d db) = true;
  me_overrides : createOverrides s (subjectPlan donorSubs (survivorUsed s db)).1
    (moveOverrides d s (ownOverrides s d db) (mg_overrides db)) = Some overrides;
  me_record : mg_records db !! recordId = None;
}.

Lemma runMergeTx_Ok db sum ra db' : runMergeTx now recordId s d donorSubs db = Ok (sum, ra, db') →
  ∃ survivor donor overrides, Mergeable survivor donor overrides db ∧
    ra_entryRefs ra = sn_dedupReassigned (mergeSnapshot now s d donorSubs survivor donor db) ∧
    db' = mergedTables now recordId s d donorSubs survivor donor overrides db.
Proof using.
  unfold runMergeTx. intros H.
  destruct (mg_users db !! s) as [survivor|] eqn:E1; [|done].
  destruct (mg_users db !! d) as [donor|] eqn:E2; [|done].
  destruct (bool_decide _) eqn:E3; [done|]. apply bool_decide_eq_false, dec_stable in E3.
  destruct (noDrift d donorSubs db) eqn:E4; [|done]. cbn [negb] in H.
  destruct (_ && _) eqn:E5 in H; [|done]. cbn [negb] in H.
  destruct (createOverrides _ _ _) as [overrides|] eqn:E6 in H; [|done].
  destruct (mg_records db !! recordId) eqn:E7; [done|].
  injection H as <- <- <-. exists survivor, donor, overrides. split; [by split|done].
Qed.

Lemma runMergeTx_commits survivor donor overrides db : Mergeable survivor donor overrides db →
  ∃ sum ra, runMergeTx now recordId s d donorSubs db =
    Ok (sum, ra, mergedTables now recordId s d donorSubs survivor donor overrides db).
Proof using.
  intros [H1 H2 H3 H4 H5 H6 H7]. unfold runMergeTx. rewrite H1, H2, bool_decide_false by congruence.
  rewrite H4, H5. cbn [negb sn_overridesCreated mergeSnapshot]. rewrite H6, H7. eauto.
Qed.

Lemma ownOverrides_spec db c : c ∈ ownOverrides s d db ↔ is_Some (mg_overrides db !! (d, c)) ∧ mg_overrides db !! (s, c) = None.
Proof using.
  unfold ownOverrides, overrideClients. rewrite list_elem_of_filter, !list_elem_of_fmap. split.
  - intros [Hn ([c1 x] & -> & Hx%pairsOf_spec)]. split; [eauto|]. apply eq_None_not_Some. intros [y Hy].
    apply Hn. exists (c1, y). by rewrite pairsOf_spec.
  - intros [[x Hx] Hn]. split; [|exists (c, x); by rewrite pairsOf_spec].
    intros ([c1 y] & -> & Hy%pairsOf_spec). cbn in Hn. congruence.
Qed.

Lemma ownOverrides_NoDup db : NoDup (ownOverrides s d db).
Proof using.
  eapply sublist_NoDup; [apply (pairsOf_NoDup d (mg_overrides db))|]. unfold ownOverrides. apply sublist_filter.
Qed.

End Tx.

Lemma users_back now s d survivor donor (users : gmap string MergeUser) : d ≠ s →
  users !! s = Some survivor → users !! d = Some donor →
  mu_mergedIntoUserId donor = None → mu_mergedAt donor = None →
  <[d := untombstone (tombstone now s donor)]>
    (<[s := unabsorb (mu_isBanned survivor) (absorb survivor donor)]>
      (<[d := tombstone now s donor]> (<[s := absorb survivor donor]> users))) =
  alter (laterGeneration 2) d (alter (laterGeneration 2) s users).
Proof.
  intros Hds Hs Hd Hm Ha. apply map_eq. intros u.
  destruct (decide (u = d)) as [->|]; [|destruct (decide (u = s)) as [->|]].
  - rewrite lookup_insert_eq, lookup_alter_eq, lookup_alter_ne, Hd by done. cbn. f_equal.
    destruct donor. unfold laterGeneration, untombstone, tombstone. cbn in *. subst. f_equal. lia.
  - rewrite lookup_insert_ne, lookup_insert_eq, lookup_alter_ne, lookup_alter_eq, Hs by done. cbn. f_equal.
    destruct survivor. unfold laterGeneration, unabsorb, absorb. cbn in *. f_equal. lia.
  - rewrite !lookup_insert_ne, !lookup_alter_ne by done. done.
Qed.

Section Roundtrip.
Context (now : Z) (recordId s d : string) (donorSubs : list (string * string)) (Hds : d ≠ s).
Context (db : MergeDB) (Hok : SchemaOk db).
Context (survivor donor : MergeUser) (overrides : gmap (string * string) string).
Context (Hme : Mergeable recordId s d donorSubs survivor donor overrides db).

Let snap := mergeSnapshot now s d donorSubs survivor donor db.
Let merged := mergedTables now recordId s d donorSubs survivor donor overrides db.

(** The row-wise part of the reversal restores the tables. *)
Lemma reversedTables_after_merge now' grants record :
  grants = mg_grants db →
  reversedTables now' recordId snap (absorb survivor donor) (tombstone now s donor) record
    (mg_overrides db) (mg_redemptions db) (mg_eligibility db) grants merged =
  afterReversal recordId s d {| mr_snapshot := mr_snapshot record; mr_reversibleUntil := mr_reversibleUntil record;
                                mr_reversedAt := Some now' |} db.
Proof using Hds Hok Hme.
  intros ->. unfold reversedTables, afterReversal, merged, mergedTables.
  cbn [snap mergeSnapshot movedRows sn_survivorUserId sn_donorUserId sn_moved sn_survivorPrevBanned
    sn_demotedPrimaryEmailIds mv_badge mv_shareLink mv_oidcAccessToken mv_wizardSession mv_recoveryCode
    mv_recoveryAttempt mv_userEmail mv_auditLog mv_account mv_session mv_authenticator mv_oidcClientOwned
    mg_users mg_badges mg_shareLinks mg_tokens mg_wizards mg_recoveryCodes mg_recoveryAttempts mg_emails
    mg_auditLogs mg_accounts mg_sessions mg_authenticators mg_clients mg_authCodes mg_records].
  pose proof Hme as [H1 H2 H3 _ _ _ _].
  rewrite users_back; [|done..|by eapply (so_users _ Hok)].
  unfold demotedEmails. rewrite (emails_back d s), !moveAll_back, moveAll_back_from, insert_insert_eq. done.
Qed.

Lemma runReverseTx_after_merge now' : ∃ n k rr,
  runReverseTx now' recordId snap merged =
    Ok (Reversed n k rr,
        afterReversal recordId s d {| mr_snapshot := snap; mr_reversibleUntil := now + REVERSAL_MS;
                                      mr_reversedAt := Some now' |} db) ∧
  rr_entryRefs rr = sn_dedupReassigned snap.
Proof using Hds Hok Hme.
  pose proof Hme as [H1 H2 H3 H4 H5 H6 H7].
  pose proof (eligibility_back d s _ Hds (so_eligibility _ Hok)) as [He1 He2].
  pose proof (redemption_back d s _ (so_redemptions _ Hok)) as [Hr1 Hr2].
  pose proof (grants_back d s _ Hds (so_grants _ Hok)) as Hg.
  destruct (overrides_back d s (ownOverrides s d db) _ _ _ Hds (ownOverrides_NoDup s d db)
    (fun c Hc => proj1 (ownOverrides_spec s d db c) Hc) H6) as (ov1 & Ho1 & Ho2).
  unfold runReverseTx.
  change (sn_survivorUserId snap) with s. change (sn_donorUserId snap) with d.
  assert (mg_users merged !! d = Some (tombstone now s donor)) as -> by apply lookup_insert_eq.
  rewrite bool_decide_false by (cbn; congruence). cbn zeta.
  change (mv_inviteRedemption (sn_moved snap)) with (redemptionPlan d s (mg_redemptions db)).2.
  change (mv_eligibility (sn_moved snap)) with (eligibilityPlan d s (mg_eligibility db)).2.
  change (mg_redemptions merged) with (mergedRedemptions s d db).
  change (mg_eligibility merged) with (mergedEligibility s d db).
  unfold mergedRedemptions, mergedEligibility. rewrite Hr1, He1. cbn [negb andb].
  change (mv_subjectOverride (sn_moved snap)) with (ownOverrides s d db).
  change (mg_overrides merged) with overrides. rewrite Ho1.
  change (mv_oidcGrant (sn_moved snap)) with (grantPlan d s (mg_grants db)).1.2.
  change (mg_grants merged) with (grantPlan d s (mg_grants db)).1.1.
  change (sn_oidcGrantMerged snap) with (grantPlan d s (mg_grants db)).2.
  destruct (grantPlan d s (mg_grants db)) as [[t' mv] mg]. cbn [fst snd].
  destruct Hg as (t1 & Hg1 & Hg2). rewrite Hg1.
  change (sn_eligibilityDeleted snap) with (eligibilityPlan d s (mg_eligibility db)).1.
  change (sn_inviteRedemptionDeleted snap) with (redemptionPlan d s (mg_redemptions db)).1.
  rewrite He2, Hr2, Hg2.
  assert (mg_users merged !! s = Some (absorb survivor donor)) as ->.
  { cbn. rewrite lookup_insert_ne by done. apply lookup_insert_eq. }
  assert (mg_records merged !! recordId = Some {| mr_snapshot := snap; mr_reversibleUntil := now + REVERSAL_MS;
    mr_reversedAt := None |}) as -> by apply lookup_insert_eq.
  change (sn_overridesCreated snap) with (subjectPlan donorSubs (survivorUsed s db)).1. rewrite Ho2.
  rewrite reversedTables_after_merge by done. cbn [mr_snapshot mr_reversibleUntil]. do 3 eexists. split; [reflexivity|done].
Qed.
End Roundtrip.

(** ** Retrying *)

(** The transaction runs once, at the first attempt the database does not abort. *)
Lemma retry_solo {A} (conflict : nat → bool) (run : MergeDB → result string (A * MergeDB)) n i db :
  (∃ j, (i ≤ j < i + n)%nat ∧ conflict j = false) →
  run_solo (runWithWriteConflictRetry conflict run n i) db =
    match run db with Ok (a, db') => (Ok a, db') | Err e => (Err e, db) end.
Proof.
  revert i. induction n as [|n IH]; intros i (j & Hj & Hc); [lia|]. cbn.
  destruct (conflict i) eqn:Ei; cbn.
  - apply IH. exists j. split; [|done]. assert (i ≠ j) by congruence. lia.
  - destruct (run db) as [[a db']|e]; done.
Qed.

(** When every attempt is aborted the last error is thrown and nothing is written. *)
Lemma retry_exhausted {A} (conflict : nat → bool) (run : MergeDB → result string (A * MergeDB)) n i db :
  (∀ j, (i ≤ j < i + n)%nat → conflict j = true) →
  run_solo (runWithWriteConflictRetry conflict run n i) db =
    (Err "Transaction failed due to a write conflict or a deadlock", db).
Proof.
  revert i. induction n as [|n IH]; intros i Hc; [done|]. cbn. rewrite (Hc i) by lia. cbn. apply IH.
  intros j Hj. apply Hc. lia.
Qed.

(** A committed result comes from the transaction. *)
Lemma retry_Ok {A} (conflict : nat → bool) (run : MergeDB → result string (A * MergeDB)) n i db a db' :
  run_solo (runWithWriteConflictRetry conflict run n i) db = (Ok a, db') → run db = Ok (a, db').
Proof.
  revert i. induction n as [|n IH]; intros i; [done|]. cbn. destruct (conflict i); cbn; [apply IH|].
  destruct (run db) as [[a0 db0]|e]; cbn; [|done]. by intros [= -> ->].
Qed.

(** ** The pseudonyms derived before the transaction *)

Definition donorSubsOf (sub : string → string → option string) (d : string) (db : MergeDB) : option (list (string * string)) :=
  mapM (fun c => sub' ← sub d c; Some (c, sub')) (clientsOf d (mg_tokens db)).

Lemma donorSubs_spec sub d db subs : donorSubsOf sub d db = Some subs →
  subs.*1 = clientsOf d (mg_tokens db) ∧ ∀ c x, (c, x) ∈ subs → sub d c = Some x.
Proof.
  unfold donorSubsOf. generalize (clientsOf d (mg_tokens db)). intros cs HF%mapM_Some. split.
  - induction HF as [|c [c' x] cs subs Hc HF IH]; [done|]. cbn.
    destruct (sub d c); cbn in Hc; simplify_eq. by f_equal.
  - intros c x (i & Hi)%list_elem_of_lookup. destruct (Forall2_lookup_r _ _ _ _ _ HF Hi) as (c0 & _ & Hc).
    destruct (sub d c0) eqn:E; cbn in Hc; by simplify_eq.
Qed.

Lemma donorSubs_total sub d db : (∀ c, c ∈ clientsOf d (mg_tokens db) → is_Some (sub d c)) → is_Some (donorSubsOf sub d db).
Proof.
  intros Hall. unfold donorSubsOf. apply mapM_is_Some. apply Forall_forall. intros c Hc.
  destruct (Hall c) as [x Hx]; [done|]. cbn. rewrite Hx. cbn. eauto.
Qed.

(** Derived in the state the transaction sees, they have not drifted. *)
Lemma noDrift_fresh sub d db subs : donorSubsOf sub d db = Some subs → noDrift d subs db = true.
Proof.
  intros [Hs _]%donorSubs_spec. unfold noDrift. rewrite Hs. apply andb_true_iff. split.
  - apply Nat.eqb_eq. apply Permutation_length, NoDup_Permutation; [apply NoDup_set_of..|].
    intros c. by rewrite elem_of_set_of.
  - apply forallb_forall. intros c Hc%list_elem_of_In. by apply bool_decide_eq_true.
Qed.

Lemma mergeAccounts_Ok now rid sub conflict s d db r db' :
  run_solo (mergeAccounts now rid sub conflict s d) db = (Ok r, db') →
  s ≠ d ∧ ∃ subs, donorSubsOf sub d db = Some subs ∧ runMergeTx now rid s d subs db = Ok (r, db').
Proof.
  unfold mergeAccounts. case_decide; [done|]. rewrite run_solo_read. fold (donorSubsOf sub d db).
  destruct (donorSubsOf sub d db) as [subs|]; [|done]. intros H0%retry_Ok. eauto.
Qed.

Lemma mergeAccounts_commits now rid sub conflict s d db subs r db' : s ≠ d →
  (∃ j, (1 ≤ j ≤ MAX_TX_ATTEMPTS)%nat ∧ conflict j = false) →
  donorSubsOf sub d db = Some subs → runMergeTx now rid s d subs db = Ok (r, db') →
  run_solo (mergeAccounts now rid sub conflict s d) db = (Ok r, db').
Proof.
  intros Hsd (j & Hj & Hc) Hsubs Hrun. unfold mergeAccounts. rewrite decide_False by done. rewrite run_solo_read.
  fold (donorSubsOf sub d db). rewrite Hsubs, retry_solo, Hrun; [done|]. exists j. unfold MAX_TX_ATTEMPTS in *. split; [lia|done].
Qed.

Lemma survivorUsed_spec s db c : c ∈ survivorUsed s db ↔ c ∈ clientsOf s (mg_tokens db) ∨ is_Some (mg_overrides db !! (s, c)).
Proof.
  unfold survivorUsed, overrideClients. rewrite elem_of_set_of, elem_of_app, list_elem_of_fmap. f_equiv. split.
  - intros ([c1 x] & -> & Hx%pairsOf_spec). eauto.
  - intros [x Hx]. exists (c, x). by rewrite pairsOf_spec.
Qed.

(** The overrides the merge leaves. *)
Lemma overrides_after s d db subs overrides u c : d ≠ s →
  createOverrides s (subjectPlan subs (survivorUsed s db)).1
    (moveOverrides d s (ownOverrides s d db) (mg_overrides db)) = Some overrides →
  (u = s → c ∈ subs.*1 → c ∈ survivorUsed s db) →
  overrides !! (u, c) =
    if decide (c ∈ ownOverrides s d db) then
      if decide (u = d) then None else if decide (u = s) then mg_overrides db !! (d, c) else mg_overrides db !! (u, c)
    else mg_overrides db !! (u, c).
Proof.
  intros Hds (_ & _ & Hout)%createOverrides_spec Hc. rewrite Hout.
  - unfold moveOverrides. apply rekeys_lookup; [done|apply ownOverrides_NoDup|].
    by intros c0 [? ?]%ownOverrides_spec.
  - destruct (decide (u = s)) as [->|]; [right|by left]. cbn. intros ([c1 x] & -> & [Hn Hm]%list_elem_of_filter)%list_elem_of_fmap.
    apply Hn, Hc; [done|]. apply list_elem_of_fmap. by exists (c1, x).
Qed.

(** ** Round trip *)

Lemma reverseMerge_solo now' conflict' rid db record : mg_records db !! rid = Some record →
  mr_reversedAt record = None → now' < mr_reversibleUntil record →
  run_solo (reverseMerge now' conflict' rid) db =
  run_solo (runWithWriteConflictRetry conflict' (runReverseTx now' rid (mr_snapshot record)) MAX_TX_ATTEMPTS 1) db.
Proof.
  intros Hr Hn Hw. unfold reverseMerge. rewrite run_solo_read, Hr, bool_decide_false by congruence.
  destruct (Z.leb_spec (mr_reversibleUntil record) now'); [lia|done].
Qed.


(** ** When a merge commits *)

Lemma subjects_collide s d db subs c overrides : d ≠ s →
  c ∈ subs.*1 → c ∉ survivorUsed s db → is_Some (mg_overrides db !! (d, c)) →
  createOverrides s (subjectPlan subs (survivorUsed s db)).1
    (moveOverrides d s (ownOverrides s d db) (mg_overrides db)) ≠ Some overrides.
Proof.
  intros Hds Hc Hu Hd (_ & Hin & _)%createOverrides_spec.
  apply list_elem_of_fmap in Hc as ([c1 x] & -> & Hm). cbn in Hu, Hd.
  destruct (Hin c1 x) as [Hn _]; [by apply list_elem_of_filter|].
  assert (mg_overrides db !! (s, c1) = None) as Hs.
  { apply eq_None_not_Some. intros Hs. apply Hu, survivorUsed_spec. by right. }
  unfold moveOverrides in Hn. rewrite rekeys_lookup in Hn; [|done|apply ownOverrides_NoDup|by intros ? [? ?]%ownOverrides_spec].
  rewrite decide_True in Hn by by apply ownOverrides_spec.
  rewrite decide_False, decide_True in Hn by done. destruct Hd. congruence.
Qed.

Lemma subjects_created s d db subs : d ≠ s → NoDup subs.*1 →
  (∀ c, c ∈ subs.*1 → c ∉ survivorUsed s db → mg_overrides db !! (d, c) = None) →
  is_Some (createOverrides s (subjectPlan subs (survivorUsed s db)).1
    (moveOverrides d s (ownOverrides s d db) (mg_overrides db))).
Proof.
  intros Hds HN Hall. apply createOverrides_total.
  - eapply sublist_NoDup; [exact HN|apply fmap_sublist, sublist_filter].
  - cbn. intros c ([c1 x] & -> & [Hu Hm]%list_elem_of_filter)%list_elem_of_fmap. cbn in *.
    assert (mg_overrides db !! (d, c1) = None) as Hd by (apply Hall; [apply list_elem_of_fmap; by exists (c1, x)|done]).
    unfold moveOverrides. rewrite rekeys_lookup; [|done|apply ownOverrides_NoDup|by intros ? [? ?]%ownOverrides_spec].
    rewrite decide_False by (rewrite ownOverrides_spec, Hd; intros [[? ?] _]; done).
    apply eq_None_not_Some. intros Hs. apply Hu, survivorUsed_spec. by right.
Qed.

Lemma merge_commits_step now rid sub conflict s d db :
  SchemaOk db → s ≠ d → mg_records db !! rid = None →
  (∃ j, (1 ≤ j ≤ MAX_TX_ATTEMPTS)%nat ∧ conflict j = false) →
  (∀ c, c ∈ clientsOf d (mg_tokens db) → is_Some (sub d c)) →
  is_Some (mg_users db !! s) →
  (∃ donor, mg_users db !! d = Some donor ∧ mu_mergedIntoUserId donor = None) →
  (∀ c, c ∈ clientsOf d (mg_tokens db) → c ∉ clientsOf s (mg_tokens db) →
        is_Some (mg_overrides db !! (d, c)) → is_Some (mg_overrides db !! (s, c))) →
  ∃ r, (run_solo (mergeAccounts now rid sub conflict s d) db).1 = Ok r.
Proof.
  intros Hok Hsd Hrid Hconf Hsub [survivor Hs] (donor & Hd & Hlive) Hov.
  destruct (donorSubs_total sub d db Hsub) as [subs Hsubs]. pose proof (donorSubs_spec _ _ _ _ Hsubs) as [Hcl _].
  destruct (subjects_created s d db subs) as [ovs Hovs]; [congruence|rewrite Hcl; apply NoDup_set_of|..].
  { intros c Hc Hu. rewrite survivorUsed_spec in Hu. rewrite Hcl in Hc. apply eq_None_not_Some. intros Hd'.
    apply Hu. right. apply Hov; [done|tauto|done]. }
  destruct (runMergeTx_commits now rid s d subs survivor donor ovs db) as (sum & ra & Hrun).
  { split; [done..|by eapply noDrift_fresh| |done|done]. apply andb_true_iff. split.
    - apply eligibility_merge_unique; [congruence|apply Hok].
    - apply redemption_merge_unique, Hok. }
  exists (sum, ra). by erewrite mergeAccounts_commits.
Qed.

(** A merge commits exactly when both accounts exist, the donor is not a tombstone, and
    the donor has no pseudonym of its own at a party that it has tokens for and the survivor
    never used; in particular the unique constraints on eligibilities and redemptions are
    never violated. *)
Theorem merge_commits_exactly now rid sub conflict s d db :
  SchemaOk db → s ≠ d → mg_records db !! rid = None →
  (∃ j, (1 ≤ j ≤ MAX_TX_ATTEMPTS)%nat ∧ conflict j = false) →
  (∀ c, c ∈ clientsOf d (mg_tokens db) → is_Some (sub d c)) →
  (∃ r, (run_solo (mergeAccounts now rid sub conflict s d) db).1 = Ok r) ↔
  is_Some (mg_users db !! s) ∧
  (∃ donor, mg_users db !! d = Some donor ∧ mu_mergedIntoUserId donor = None) ∧
  (∀ c, c ∈ clientsOf d (mg_tokens db) → c ∉ clientsOf s (mg_tokens db) →
        is_Some (mg_overrides db !! (d, c)) → is_Some (mg_overrides db !! (s, c))).
Proof.
  intros Hok Hsd Hrid Hconf Hsub. destruct (donorSubs_total sub d db Hsub) as [subs Hsubs].
  pose proof (donorSubs_spec _ _ _ _ Hsubs) as [Hcl _]. split.
  - intros [r Hr]. destruct (run_solo _ db) as [r' db'] eqn:E. cbn in Hr. subst r'.
    apply mergeAccounts_Ok in E as (_ & subs' & Hs' & Hrun). rewrite Hsubs in Hs'. injection Hs' as <-.
    destruct r as [sum ra]. apply runMergeTx_Ok in Hrun as (survivor & donor & ovs & [H1 H2 H3 _ _ H6 _] & _ & _).
    split_and!; [eauto..|]. intros c Hcd Hcs Hd.
    destruct (mg_overrides db !! (s, c)) as [x|] eqn:Es; [eauto|]. exfalso.
    eapply subjects_collide; [|by rewrite Hcl| |exact Hd|exact H6]; [congruence|].
    rewrite survivorUsed_spec, Es. intros [?|[? ?]]; done.
  - intros (Hs & Hd & Hov). by apply merge_commits_step.
Qed.

(** ** Pseudonyms *)

(** The subject an account presents to a client (lib/oidc-subject.ts). *)
Definition subjectAt (pairwise : string → string → string) (db : MergeDB) (u c : string) : string :=
  default (pairwise u c) (mg_overrides db !! (u, c)).

Lemma clientsOf_spec u t c : c ∈ clientsOf u t ↔ ∃ k r, t !! k = Some r ∧ tk_userId r = u ∧ tk_clientId r = c.
Proof.
  unfold clientsOf. rewrite elem_of_set_of, elem_of_map. split.
  - intros ([k r] & -> & [? ?]%rowsOf_spec). exists k, r. naive_solver.
  - intros (k & r & ? & <- & <-). exists (k, r). by rewrite rowsOf_spec.
Qed.

Lemma clientsOf_moved d s u t c : d ≠ s →
  c ∈ clientsOf u (moveAll d s t) ↔
    if decide (u = s) then c ∈ clientsOf s t ∨ c ∈ clientsOf d t else u ≠ d ∧ c ∈ clientsOf u t.
Proof.
  intros Hds. rewrite clientsOf_spec. setoid_rewrite moveAll_lookup. split.
  - intros (k & r & (r0 & Hr & ->)%fmap_Some & Hu & Hc).
    destruct (decide (owner r0 = Some d)) as [Ho|Ho]; cbn in Ho, Hu, Hc; subst.
    + rewrite decide_True by done. right. injection Ho as <-. apply clientsOf_spec. by exists k, r0.
    + case_decide as Hs; [left; rewrite <- Hs|split; [congruence|]]; apply clientsOf_spec; by exists k, r0.
  - intros H. assert (∀ k r, t !! k = Some r → tk_clientId r = c → (tk_userId r = u ∧ u ≠ d ∨ tk_userId r = d ∧ u = s) →
      ∃ k r, (fun r => if decide (owner r = Some d) then reown s r else r) <$> t !! k = Some r ∧ tk_userId r = u ∧ tk_clientId r = c) as Hgo.
    { intros k r Hk Hc Hr. exists k. rewrite Hk. cbn. eexists. split; [done|]. cbn.
      clear H. destruct Hr as [[? ?]|[? ->]]; case_decide as Ho; cbn; split; congruence. }
    case_decide; [destruct H as [H|H]|destruct H as [? H]]; apply clientsOf_spec in H as (k & r & ? & ? & ?);
      eapply Hgo; eauto; subst; auto.
Qed.

(** after a merge the survivor presents the donor's pseudonym to the parties only the
    donor used, and keeps its own where the donor has no override; no other account's
    pseudonyms change. *)
Theorem subjects_after_merge pairwise now rid conflict s d db r db' :
  run_solo (mergeAccounts now rid (fun u c => Some (pairwise u c)) conflict s d) db = (Ok r, db') →
  (∀ c, c ∈ clientsOf d (mg_tokens db) → c ∉ clientsOf s (mg_tokens db) → mg_overrides db !! (s, c) = None →
        subjectAt pairwise db' s c = subjectAt pairwise db d c) ∧
  (∀ c, mg_overrides db !! (d, c) = None →
        c ∉ clientsOf d (mg_tokens db) ∨ c ∈ clientsOf s (mg_tokens db) ∨ is_Some (mg_overrides db !! (s, c)) →
        subjectAt pairwise db' s c = subjectAt pairwise db s c) ∧
  (∀ u c, u ≠ s → u ≠ d → subjectAt pairwise db' u c = subjectAt pairwise db u c).
Proof.
  destruct r as [sum ra]. intros (Hsd & subs & Hsubs & Hrun)%mergeAccounts_Ok.
  pose proof (donorSubs_spec _ _ _ _ Hsubs) as [Hcl Hsub].
  apply runMergeTx_Ok in Hrun as (survivor & donor & ovs & [_ _ _ _ _ H6 _] & _ & ->).
  unfold subjectAt. cbn [mg_overrides mergedTables]. split_and!.
  - intros c Hc Hcs Hs. assert (c ∉ survivorUsed s db) as Hu by (rewrite survivorUsed_spec, Hs; intros [?|[? ?]]; done).
    rewrite <- Hcl in Hc.
    destruct (mg_overrides db !! (d, c)) as [x|] eqn:Ed.
    { exfalso. eapply subjects_collide; [|exact Hc|exact Hu|by rewrite Ed|exact H6]. congruence. }
    apply createOverrides_spec in H6 as (_ & Hin & _). apply list_elem_of_fmap in Hc as ([c1 x] & -> & Hm). cbn in *.
    destruct (Hin c1 x) as [_ ->]; [by apply list_elem_of_filter|]. cbn. apply Hsub in Hm. congruence.
  - intros c Hd Hc. rewrite (overrides_after s d db subs ovs); [|congruence|exact H6|].
    + rewrite decide_False; [done|]. rewrite ownOverrides_spec, Hd. intros [[? ?] _]. done.
    + intros _ Hm. rewrite Hcl in Hm. rewrite survivorUsed_spec. tauto.
  - intros u c Hus Hud. rewrite (overrides_after s d db subs ovs); [|congruence|exact H6|congruence].
    by rewrite !(decide_False (P:=u = _)) by done; case_decide.
Qed.

(** A survivor that already uses a party under its own pseudonym loses it when the donor
    has an override there: from then on the survivor presents the donor's override. *)
Theorem survivor_subject_replaced pairwise now rid conflict s d db r db' c sub :
  run_solo (mergeAccounts now rid (fun u c => Some (pairwise u c)) conflict s d) db = (Ok r, db') →
  c ∈ clientsOf s (mg_tokens db) → mg_overrides db !! (s, c) = None → mg_overrides db !! (d, c) = Some sub →
  subjectAt pairwise db s c = pairwise s c ∧ subjectAt pairwise db' s c = sub.
Proof.
  destruct r as [sum ra]. intros (Hsd & subs & Hsubs & Hrun)%mergeAccounts_Ok Hc Hs Hd.
  apply runMergeTx_Ok in Hrun as (survivor & donor & ovs & [_ _ _ _ _ H6 _] & _ & ->).
  unfold subjectAt. cbn [mg_overrides mergedTables]. split; [by rewrite Hs|].
  rewrite (overrides_after s d db subs ovs); [|congruence|exact H6|by intros; apply survivorUsed_spec; left].
  rewrite decide_True by (apply ownOverrides_spec; by rewrite Hd).
  rewrite decide_False, decide_True by congruence. by rewrite Hd.
Qed.

(** an account that absorbed another one cannot itself be merged away: if the first merge
    preserved a pseudonym at a party the next survivor does not use, the second merge always
    fails and changes nothing. *)
Theorem chained_merge_fails now rid sub conflict now' rid' sub' conflict' d0 d1 s db r db1 c :
  run_solo (mergeAccounts now rid sub conflict d1 d0) db = (Ok r, db1) →
  s ≠ d0 → s ≠ d1 →
  c ∈ clientsOf d0 (mg_tokens db) → c ∉ clientsOf d1 (mg_tokens db) → mg_overrides db !! (d1, c) = None →
  c ∉ clientsOf s (mg_tokens db) → mg_overrides db !! (s, c) = None →
  ∃ e, (run_solo (mergeAccounts now' rid' sub' conflict' s d1) db1).1 = Err e.
Proof.
  destruct r as [sum ra]. intros (H10 & subs & Hsubs & Hrun)%mergeAccounts_Ok Hs0 Hs1 Hc0 Hc1 Ho1 Hcs Hos.
  pose proof (donorSubs_spec _ _ _ _ Hsubs) as [Hcl _].
  apply runMergeTx_Ok in Hrun as (survivor & donor & ovs & [_ _ _ _ _ H6 _] & _ & ->).
  set (db1 := mergedTables _ _ _ _ _ _ _ _ _).
  destruct (run_solo _ db1) as [[[sum' ra']|e] db2] eqn:E; [exfalso|by exists e].
  apply mergeAccounts_Ok in E as (_ & subs' & Hsubs' & Hrun').
  pose proof (donorSubs_spec _ _ _ _ Hsubs') as [Hcl' _].
  apply runMergeTx_Ok in Hrun' as (? & ? & ovs' & [_ _ _ _ _ H6' _] & _ & _).
  assert (Hin : is_Some (ovs !! (d1, c))).
  { pose proof H6 as (_ & Hin & _)%createOverrides_spec. rewrite <- Hcl in Hc0.
    apply list_elem_of_fmap in Hc0 as ([c' y] & -> & Hm). cbn [fst]. destruct (Hin c' y) as [_ ->]; [|done].
    apply list_elem_of_filter. split; [|done]. cbn in *. rewrite survivorUsed_spec, Ho1. intros [?|[? ?]]; done. }
  assert (Hsc : ovs !! (s, c) = None).
  { rewrite (overrides_after d1 d0 db subs ovs); [|congruence|exact H6|congruence]. rewrite !(decide_False (P:=s = _)) by done. by case_decide. }
  eapply (subjects_collide s d1 db1); [congruence| | |exact Hin|exact H6'].
  - rewrite Hcl'. cbn. rewrite clientsOf_moved, decide_True by congruence. by right.
  - rewrite survivorUsed_spec. cbn [mg_tokens mg_overrides db1 mergedTables].
    rewrite clientsOf_moved, decide_False, Hsc by congruence. intros [[_ ?]|[? ?]]; done.
Qed.

(** ** The schema is kept *)

Lemma recreate_unique {R B} `{EqDecision B} (f : R → B) rows (t t' : gmap string R) :
  uniqueOn f t = true → recreate f rows t = Some t' → uniqueOn f t' = true.
Proof.
  revert t. induction rows as [|[k r] rows IH]; intros t Hu H; cbn in H; [by simplify_eq|].
  destruct (t !! k); [done|]. destruct (uniqueOn f (<[k:=r]> t)) eqn:E; [|done]. by eapply IH.
Qed.

(** A table whose rows all come, with their ids, from distinct rows of another one. *)
Lemma unique_ids_from (origin : string * string → string * string) (t t' : gmap (string * string) GrantRow) :
  uniqueOn gr_id t = true →
  (∀ k g, t' !! k = Some g → ∃ g0, t !! origin k = Some g0 ∧ gr_id g0 = gr_id g) →
  (∀ k1 k2, is_Some (t' !! k1) → is_Some (t' !! k2) → origin k1 = origin k2 → k1 = k2) →
  uniqueOn gr_id t' = true.
Proof.
  rewrite !uniqueOn_spec. intros Hu Ho Hinj k1 k2 g1 g2 H1 H2 Hid.
  apply Hinj; [eauto..|]. destruct (Ho _ _ H1) as (x1 & ? & ?), (Ho _ _ H2) as (x2 & ? & ?).
  eapply Hu; [done..|congruence].
Qed.

Lemma grantPlan_unique d s t : d ≠ s → uniqueOn gr_id t = true → uniqueOn gr_id (grantPlan d s t).1.1 = true.
Proof.
  intros Hds Hu. set (origin := fun k : string * string =>
    if decide (k.1 = s ∧ is_Some (t !! (d, k.2)) ∧ t !! (s, k.2) = None) then (d, k.2) else k).
  assert (∀ k, is_Some ((grantPlan d s t).1.1 !! k) → k.1 = d → t !! k = None) as Hd.
  { intros [u c] [g Hg] Hk. cbn in Hk. subst. rewrite grantPlan_lookup in Hg by done.
    destruct (t !! (d, c)); [|done]. by rewrite decide_True in Hg. }
  apply (unique_ids_from origin t); [done|..].
  - intros [u c] g Hg. rewrite grantPlan_lookup in Hg by done. unfold origin. cbn.
    destruct (t !! (d, c)) as [dg|] eqn:Ed.
    + destruct (decide (u = d)); [done|]. destruct (decide (u = s)); simplify_eq.
      * destruct (t !! (s, c)) as [sg|] eqn:Es; cbn.
        -- rewrite decide_False by (intros (? & ? & ?); done). eauto.
        -- rewrite decide_True by (split_and!; eauto). rewrite Ed. eauto.
      * rewrite decide_False by tauto. eauto.
    + rewrite decide_False by (intros (? & [? ?] & ?); done). eauto.
  - intros [u1 c1] [u2 c2] H1 H2. unfold origin. cbn. intros Ho.
    case_decide as A1; case_decide as A2; simplify_eq; try done.
    + destruct A1 as (-> & _), A2 as (-> & _). done.
    + destruct A1 as (_ & [x Hx] & _). specialize (Hd _ H2 eq_refl). cbn in Hd. congruence.
    + destruct A2 as (_ & [x Hx] & _). specialize (Hd _ H1 eq_refl). cbn in Hd. congruence.
Qed.

Lemma rekeyBack_unique s d c t n t' : uniqueOn gr_id t = true → rekeyBack s d c t = Some (n, t') →
  uniqueOn gr_id t' = true.
Proof.
  intros Hu H. unfold rekeyBack in H. destruct (t !! (s, c)) as [g|] eqn:Es; [|by simplify_eq].
  destruct (t !! (d, c)) eqn:Ed; [done|]. injection H as <- <-. assert (Hds : d ≠ s) by congruence.
  apply (unique_ids_from (fun k => if decide (k = (d, c)) then (s, c) else k) t); [done|..].
  - intros [u c'] g'. rewrite rekey_lookup by eauto. rewrite Es. intros H.
    repeat case_decide; simplify_eq; eauto.
  - intros [u1 c1] [u2 c2]. rewrite !rekey_lookup by eauto. intros H1 H2 H.
    repeat case_decide; simplify_eq; try done; by destruct H1 || by destruct H2.
Qed.

Lemma rekeyAllBack_unique s d cs t n t' : uniqueOn gr_id t = true →
  rekeyAllBack s d cs t = Some (n, t') → uniqueOn gr_id t' = true.
Proof.
  revert t n. induction cs as [|c cs IH]; intros t n Hu H; cbn in H; [by simplify_eq|].
  destruct (rekeyBack s d c t) as [[n1 t1]|] eqn:E1; cbn in H; [|done].
  destruct (rekeyAllBack s d cs t1) as [[n2 t2]|] eqn:E2; cbn in H; [|done]. simplify_eq.
  eapply IH; [|done]. by eapply rekeyBack_unique.
Qed.

Lemma splitGrants_unique s d ms t t' : uniqueOn gr_id t = true → splitGrants s d ms t = Some t' → uniqueOn gr_id t' = true.
Proof.
  revert t. induction ms as [|m ms IH]; intros t Hu H; cbn [splitGrants] in H; [by simplify_eq|].
  destruct (decide _) as [[Hd Hids]|]; [|done]. eapply IH; [|exact H].
  set (t1 := alter _ _ t) in *.
  assert (uniqueOn gr_id t1 = true) as Hu1.
  { apply (unique_ids_from id t); [done| |done]. intros k g. unfold t1. rewrite lookup_alter.
    case_decide as Hk; [subst k; intros (g0 & ? & ->)%fmap_Some; by exists g0|intros; by exists g]. }
  rewrite uniqueOn_spec in *. intros k1 k2 g1 g2 [[<- <-]|[? H1]]%lookup_insert_Some [[<- <-]|[? H2]]%lookup_insert_Some Hid;
    [done| | |by eapply Hu1].
  - by destruct (Hids _ _ H2).
  - by destruct (Hids _ _ H1).
Qed.

Lemma runMergeTx_schema now rid s d subs db a db' : s ≠ d → SchemaOk db →
  runMergeTx now rid s d subs db = Ok (a, db') → SchemaOk db'.
Proof.
  destruct a as [sum ra]. intros Hsd Hok (survivor & donor & ovs & [H1 H2 H3 _ H5 _ _] & _ & ->)%runMergeTx_Ok.
  apply andb_true_iff in H5 as [He Hr]. split; cbn; [done..| |].
  - apply grantPlan_unique; [congruence|apply Hok].
  - intros u x [[<- <-]|[? [[<- <-]|[? Hx]]%lookup_insert_Some]]%lookup_insert_Some; [done| |by eapply (so_users _ Hok)].
    cbn. by eapply (so_users _ Hok).
Qed.

Lemma runReverseTx_schema now rid snap db a db' : SchemaOk db →
  runReverseTx now rid snap db = Ok (a, db') → SchemaOk db'.
Proof.
  intros Hok. unfold runReverseTx. destruct (mg_users db !! _) as [donor|] eqn:Ed; [|by intros [= <- <-]].
  case_bool_decide as Hm; [by intros [= <- <-]|]. cbn zeta.
  destruct (_ && _) eqn:Hu; [|done]. apply andb_true_iff in Hu as [Hr He]. cbn [negb].
  destruct (rekeyAllBack _ _ (mv_subjectOverride _) _) as [[n1 ovs]|]; [|done].
  destruct (rekeyAllBack _ _ (mv_oidcGrant _) _) as [[n2 grs]|] eqn:Hg; [|done].
  destruct (recreate eligibilityKey _ _) as [el|] eqn:Hel; [|done].
  destruct (recreate redemptionKey _ _) as [rd|] eqn:Hrd; [|done].
  destruct (splitGrants _ _ _ _) as [gr|] eqn:Hgr; [|done].
  destruct (mg_users db !! sn_survivorUserId snap) as [survivor|] eqn:Es; [|done].
  destruct (mg_records db !! rid) as [record|]; [|done]. intros [= _ <-]. split; cbn.
  - by eapply recreate_unique.
  - by eapply recreate_unique.
  - eapply splitGrants_unique; [|exact Hgr]. eapply rekeyAllBack_unique; [|exact Hg]. apply Hok.
  - intros u x [[<- <-]|[? [[<- <-]|[? Hx]]%lookup_insert_Some]]%lookup_insert_Some; [done| |by eapply (so_users _ Hok)].
    cbn. by eapply (so_users _ Hok).
Qed.

(** One operation keeps the schema. *)
Definition keepsSchema (db db' : MergeDB) : Prop := SchemaOk db → SchemaOk db'.

#[export] Instance keepsSchema_preorder : PreOrder keepsSchema.
Proof. split; [by intros ? ?|intros ? ? ? H1 H2 H; by apply H2, H1]. Qed.

Lemma retry_schema {A} conflict (run : MergeDB → result string (A * MergeDB)) n i :
  (∀ db a db', SchemaOk db → run db = Ok (a, db') → SchemaOk db') →
  steps_in keepsSchema (runWithWriteConflictRetry conflict run n i).
Proof.
  intros Hrun. revert i. induction n as [|n IH]; intros i; cbn [runWithWriteConflictRetry]; [done|].
  apply steps_in_bind.
  - apply steps_in_act. intros db Hok. destruct (conflict i); [done|].
    destruct (run db) as [[a db']|e] eqn:E; [by eapply Hrun|done].
  - intros [r|]; [done|apply IH].
Qed.

Lemma mergeAccounts_schema now rid sub conflict s d : steps_in keepsSchema (mergeAccounts now rid sub conflict s d).
Proof.
  unfold mergeAccounts. case_decide; [done|]. apply steps_in_bind; [apply steps_in_read, _|]. intros cs.
  destruct (mapM _ cs) as [subs|]; [|done]. apply retry_schema. intros db a db' Hok. by apply runMergeTx_schema.
Qed.

Lemma reverseMerge_schema now conflict rid : steps_in keepsSchema (reverseMerge now conflict rid).
Proof.
  unfold reverseMerge. apply steps_in_bind; [apply steps_in_read, _|]. intros [record|]; [|done].
  case_bool_decide; [done|]. case_match; [done|]. apply retry_schema. intros db a db' Hok. by apply runReverseTx_schema.
Qed.

(** A merge or a reversal, as a request. *)
Inductive MergeRequest :=
  | Merge (recordId survivor donor : string)
  | Reverse (recordId : string).

Definition mergeHandler (now : Z) (sub : string → string → option string) (conflict : nat → bool) (r : MergeRequest) :
    thread MergeDB (result string unit) :=
  match r with
  | Merge rid s d => r ← mergeAccounts now rid sub conflict s d;
                     mret (match r with Ok _ => Ok tt | Err e => Err e end)
  | Reverse rid => r ← reverseMerge now conflict rid;
                   mret (match r with Ok (Reversed _ _ _) => Ok tt | Ok (NotReversed e) => Err e | Err e => Err e end)
  end.

(** Merges and reversals of any accounts, interleaved in any way, keep the schema: one
    eligibility per user and type, one redemption per user and code, grant ids unique, and
    merge dates only on tombstones. *)
Theorem schema_preserved now sub conflict rs sched db :
  SchemaOk db → SchemaOk (pool_run sched (mergeHandler now sub conflict <$> rs, db)).2.
Proof.
  apply (steps_in_pool keepsSchema). apply Forall_fmap, Forall_true. intros [rid s d|rid];
    (apply steps_in_bind; [apply mergeAccounts_schema || apply reverseMerge_schema|done]).
Qed.

(** ** What a merge leaves *)

Definition ownsNone {K} `{Countable K} {R} `{Owned R} (u : string) (t : gmap K R) : Prop :=
  ∀ k r, t !! k = Some r → owner r ≠ Some u.

(** The account owns no row of any table, and has no grant. *)
Definition ownsNothing (u : string) (db : MergeDB) : Prop :=
  ownsNone u (mg_badges db) ∧ ownsNone u (mg_shareLinks db) ∧ ownsNone u (mg_tokens db) ∧ ownsNone u (mg_wizards db) ∧
  ownsNone u (mg_recoveryCodes db) ∧ ownsNone u (mg_recoveryAttempts db) ∧ ownsNone u (mg_emails db) ∧
  ownsNone u (mg_auditLogs db) ∧ ownsNone u (mg_accounts db) ∧ ownsNone u (mg_sessions db) ∧
  ownsNone u (mg_authenticators db) ∧ ownsNone u (mg_redemptions db) ∧ ownsNone u (mg_eligibility db) ∧
  ownsNone u (mg_clients db) ∧ ownsNone u (mg_authCodes db) ∧ ∀ c, mg_grants db !! (u, c) = None.

(** At most one primary address per account. *)
Definition onePrimary (t : gmap string EmailOwn) : Prop :=
  ∀ k1 k2 r1 r2, t !! k1 = Some r1 → t !! k2 = Some r2 → eo_isPrimary r1 = true → eo_isPrimary r2 = true →
    eo_userId r1 = eo_userId r2 → k1 = k2.

Lemma moveAll_ownsNone {K} `{Countable K} {R} `{OwnedLaws R} d s (t : gmap K R) : d ≠ s → ownsNone d (moveAll d s t).
Proof. intros Hds k r. by apply moveAll_leaves. Qed.

(** Moving part of the donor's rows and deleting the rest leaves none. *)
Lemma moveKeys_ownsNone {R} `{OwnedLaws R} d s mv del (t : gmap string R) : d ≠ s →
  (∀ k r, (k, r) ∈ rowsOf d t → k ∈ mv ∨ k ∈ del) → ownsNone d (moveKeys mv s (deleteKeys del t)).
Proof.
  intros Hds Hall k r. rewrite moveKeys_lookup, deleteKeys_lookup.
  destruct (decide (k ∈ del)); [done|]. intros (r0 & Hr & ->)%fmap_Some.
  case_decide; [rewrite owner_reown; congruence|]. intros Ho. destruct (Hall k r0); [by apply rowsOf_spec|done..].
Qed.

Lemma mergedEligibility_ownsNone s d db : d ≠ s → ownsNone d (mergedEligibility s d db).
Proof.
  intros Hds. apply moveKeys_ownsNone; [done|]. intros k r Hr. rewrite eligibilityPlan_eq. cbn [fst snd].
  destruct (eligibilityMoves s (mg_eligibility db) (k, r)) eqn:E.
  - left. apply list_elem_of_fmap. exists (k, r). by rewrite list_elem_of_filter.
  - right. apply list_elem_of_fmap. exists (k, r). split; [done|]. apply list_elem_of_omap. exists (k, r). split; [done|].
    unfold eligibilityMoves in E. unfold eligibilityLoser. destruct (eligibilityRival _ _ _); [|done]. cbn in *. by rewrite E.
Qed.

Lemma mergedRedemptions_ownsNone s d db : d ≠ s → ownsNone d (mergedRedemptions s d db).
Proof.
  intros Hds. apply moveKeys_ownsNone; [done|]. intros k r Hr. unfold redemptionPlan. cbn [fst snd].
  rewrite !list_elem_of_fmap. setoid_rewrite list_elem_of_filter.
  destruct (decide (rd_inviteCodeId r ∈ map (fun e => rd_inviteCodeId e.2) (rowsOf s (mg_redemptions db)))).
  - right. by exists (k, r).
  - left. by exists (k, r).
Qed.

Lemma emails_merged d s (t : gmap string EmailOwn) k r :
  demote (filter (fun e => eo_isPrimary e.2 = true) (rowsOf d t)).*1 (moveAll d s t) !! k = Some r →
  ∃ r0, t !! k = Some r0 ∧
    (eo_userId r0 ≠ d ∧ r = r0 ∨ eo_userId r0 = d ∧ r = {| eo_userId := s; eo_isPrimary := false |}).
Proof.
  unfold demote. rewrite map_lookup_imap, moveAll_lookup. destruct (t !! k) as [r0|] eqn:E; cbn; [|done].
  intros [= <-]. exists r0. split; [done|]. destruct (decide (Some (eo_userId r0) = Some d)) as [Ho|Ho]; cbn.
  - right. split; [congruence|]. case_decide as Hk; cbn; [done|]. f_equal. apply not_true_is_false. intros Hp. destruct Hk.
    apply list_elem_of_fmap. exists (k, r0). by rewrite list_elem_of_filter, rowsOf_spec.
  - left. split; [congruence|]. rewrite decide_False; [done|].
    intros ([k' r'] & -> & [_ [Hr Hd]%rowsOf_spec]%list_elem_of_filter)%list_elem_of_fmap. cbn in *. congruence.
Qed.

(** a committed merge leaves the donor tombstoned into the survivor and owning nothing;
    bans stick, administration is never gained, both session generations move on, the
    survivor's primary address stays the only one, and no other user changes. *)
Theorem merge_postcondition now rid sub conflict s d db r db' :
  run_solo (mergeAccounts now rid sub conflict s d) db = (Ok r, db') →
  onePrimary (mg_emails db) →
  ownsNothing d db' ∧ onePrimary (mg_emails db') ∧
  (∃ survivor donor survivor' donor',
    mg_users db !! s = Some survivor ∧ mg_users db !! d = Some donor ∧
    mg_users db' !! s = Some survivor' ∧ mg_users db' !! d = Some donor' ∧
    mu_isBanned survivor' = mu_isBanned survivor || mu_isBanned donor ∧
    mu_isAdmin survivor' = mu_isAdmin survivor ∧
    mu_sessionGeneration survivor' = mu_sessionGeneration survivor + 1 ∧
    mu_mergedIntoUserId donor = None ∧ mu_mergedIntoUserId donor' = Some s ∧
    mu_sessionGeneration donor' = mu_sessionGeneration donor + 1) ∧
  (∀ u, u ≠ s → u ≠ d → mg_users db' !! u = mg_users db !! u).
Proof.
  destruct r as [sum ra]. intros (Hsd & subs & Hsubs & Hrun)%mergeAccounts_Ok Hone.
  apply runMergeTx_Ok in Hrun as (survivor & donor & ovs & [H1 H2 H3 _ _ _ _] & _ & ->).
  assert (Hds : d ≠ s) by congruence. split_and!.
  - unfold ownsNothing. cbn [mergedTables mg_badges mg_shareLinks mg_tokens mg_wizards mg_recoveryCodes mg_recoveryAttempts
      mg_emails mg_auditLogs mg_accounts mg_sessions mg_authenticators mg_redemptions mg_eligibility mg_clients mg_authCodes mg_grants].
    split_and!; try by apply moveAll_ownsNone.
    + intros k r (r0 & _ & [[? ->]|[? ->]])%emails_merged; cbn; congruence.
    + by apply mergedRedemptions_ownsNone.
    + by apply mergedEligibility_ownsNone.
    + by intros k r [_ ?]%map_lookup_filter_Some.
    + intros c. rewrite grantPlan_lookup by done. destruct (mg_grants db !! (d, c)) eqn:E; [by rewrite decide_True|done].
  - cbn [mg_emails mergedTables]. intros k1 k2 r1 r2 (x1 & Hx1 & [[? ->]|[? ->]])%emails_merged (x2 & Hx2 & [[? ->]|[? ->]])%emails_merged;
      cbn; try done. by apply Hone.
  - exists survivor, donor, (absorb survivor donor), (tombstone now s donor). cbn.
    rewrite lookup_insert_ne, lookup_insert_eq, lookup_insert_eq by done. done.
  - intros u Hus Hud. cbn. by rewrite !lookup_insert_ne by done.
Qed.

(** ** Crossing merges *)

(** The transaction does not look at the survivor's own tombstone: when two merges cross,
    the second commits onto the account the first tombstoned, and both accounts end as
    tombstones of each other. *)
Theorem crossing_merges now rid sub conflict a b db r db1 now' rid' :
  SchemaOk db →
  run_solo (mergeAccounts now rid sub conflict a b) db = (Ok r, db1) →
  (∀ donor, mg_users db !! a = Some donor → mu_mergedIntoUserId donor = None) →
  rid' ≠ rid → mg_records db !! rid' = None →
  (∃ j, (1 ≤ j ≤ MAX_TX_ATTEMPTS)%nat ∧ conflict j = false) →
  (∀ u c, is_Some (sub u c)) →
  (∀ c, c ∈ clientsOf b (mg_tokens db) → c ∈ clientsOf a (mg_tokens db)) →
  (∀ c, mg_overrides db !! (a, c) = None ∧ mg_overrides db !! (b, c) = None) →
  ∃ r2 db2 ua ub,
    run_solo (mergeAccounts now' rid' sub conflict b a) db1 = (Ok r2, db2) ∧
    mg_users db2 !! a = Some ua ∧ mu_mergedIntoUserId ua = Some b ∧
    mg_users db2 !! b = Some ub ∧ mu_mergedIntoUserId ub = Some a.
Proof.
  intros Hok Hm Hlive Hrid Hrec Hconf Hsub Hcl Hov.
  destruct r as [sum ra]. apply mergeAccounts_Ok in Hm as (Hab & subs & Hsubs & Hrun).
  pose proof (donorSubs_spec _ _ _ _ Hsubs) as [Hkeys _].
  assert (SchemaOk db1) as Hok1 by exact (runMergeTx_schema _ _ _ _ _ _ _ _ Hab Hok Hrun).
  apply runMergeTx_Ok in Hrun as (survivor & donor & ovs & [H1 H2 H3 _ _ H6 _] & _ & ->).
  set (db1 := mergedTables _ _ _ _ _ _ _ _ _) in *.
  assert (mg_users db1 !! a = Some (absorb survivor donor)) as Ha.
  { cbn. rewrite lookup_insert_ne by done. apply lookup_insert_eq. }
  assert (mg_users db1 !! b = Some (tombstone now a donor)) as Hb by apply lookup_insert_eq.
  assert (∀ c, mg_overrides db1 !! (a, c) = None) as Hnone.
  { intros c. cbn. rewrite (overrides_after a b db subs ovs); [|congruence|exact H6|].
    - rewrite decide_False; [apply Hov|]. rewrite ownOverrides_spec. destruct (Hov c) as [_ ->]. intros [[? ?] _]. done.
    - intros _ Hc. rewrite Hkeys in Hc. apply survivorUsed_spec. left. by apply Hcl. }
  assert (∃ r2, (run_solo (mergeAccounts now' rid' sub conflict b a) db1).1 = Ok r2) as [r2 Hr2].
  { apply merge_commits_step; [done|congruence| |done|done|by rewrite Hb| |].
    - cbn. by rewrite lookup_insert_ne.
    - exists (absorb survivor donor). split; [done|]. exact (Hlive _ H1).
    - intros c _ _. rewrite Hnone. by intros [? ?]. }
  destruct (run_solo _ db1) as [r0 db2] eqn:E. cbn in Hr2. subst r0.
  apply mergeAccounts_Ok in E as (_ & subs' & _ & Hrun'). destruct r2 as [sum2 ra2].
  apply runMergeTx_Ok in Hrun' as (survivor' & donor' & ovs' & [H1' H2' _ _ _ _ _] & _ & ->).
  rewrite Ha in H2'. rewrite Hb in H1'. simplify_eq.
  do 4 eexists. split; [reflexivity|]. cbn. rewrite lookup_insert_eq, lookup_insert_ne, lookup_insert_eq by congruence. done.
Qed.

(** The reversal sets the survivor's ban to what it was before the merge, whatever happened
    since: an account banned after a merge is unbanned by its reversal. *)
Theorem reversal_sets_ban now conflict rid db n k rr db' record :
  mg_records db !! rid = Some record →
  run_solo (reverseMerge now conflict rid) db = (Ok (Reversed n k rr), db') →
  sn_survivorUserId (mr_snapshot record) ≠ sn_donorUserId (mr_snapshot record) →
  ∃ u, mg_users db' !! sn_survivorUserId (mr_snapshot record) = Some u ∧
    mu_isBanned u = sn_survivorPrevBanned (mr_snapshot record).
Proof.
  intros Hr Hrun Hsd. unfold reverseMerge in Hrun. rewrite run_solo_read, Hr in Hrun.
  case_bool_decide; [done|]. destruct (_ <=? now); [done|]. apply retry_Ok in Hrun. unfold runReverseTx in Hrun.
  destruct (mg_users db !! sn_donorUserId _) as [donor|]; [|done]. case_bool_decide; [done|]. cbn zeta in Hrun.
  destruct (_ && _); [|done]. cbn [negb] in Hrun.
  destruct (rekeyAllBack _ _ (mv_subjectOverride _) _) as [[? ?]|]; [|done].
  destruct (rekeyAllBack _ _ (mv_oidcGrant _) _) as [[? ?]|]; [|done].
  destruct (recreate eligibilityKey _ _); [|done]. destruct (recreate redemptionKey _ _); [|done].
  destruct (splitGrants _ _ _ _); [|done].
  destruct (mg_users db !! sn_survivorUserId _) as [survivor|]; [|done].
  destruct (mg_records db !! rid); [|done]. injection Hrun as _ _ _ <-.
  cbn. rewrite lookup_insert_ne, lookup_insert_eq by done. by eexists.
Qed.

(** ** Witnesses *)
Module Demo.

Definition user (banned admin : bool) : MergeUser :=
  {| mu_isBanned := banned; mu_isAdmin := admin; mu_sessionGeneration := 3; mu_email := Some "a@x.org";
     mu_mergedIntoUserId := None; mu_mergedAt := None; mu_dedupHandle := Some "handle" |}.

Definition grant (i : string) (types : list string) : GrantRow :=
  {| gr_id := i; gr_state := {| gs_badgeTypes := types; gs_badgeIds := ["b" +:+ i]; gs_profileName := false;
                                gs_profileAvatar := true; gs_sybilScore := false |} |}.

Definition elig (u t : string) (at_ : Z) : Eligibility :=
  {| el_userId := u; el_badgeType := t; el_eligibleAt := at_; el_fuzzDays := 2; el_source := "plugin" |}.

(** "s" and "d" share the party "rp1"; only "d" uses "rp2"; "t" uses nothing. They collide on
    an eligibility (both ways), a redemption and a grant. *)
Definition db : MergeDB :=
  {| mg_users := {["s" := user false true; "d" := user false true; "t" := user false false]};
     mg_badges := {["b1" := {| bo_userId := "s"; bo_nullifierRef := None |};
                   "b2" := {| bo_userId := "d"; bo_nullifierRef := Some "n2" |}]};
     mg_shareLinks := {["l1" := {| ow_userId := "d" |}]};
     mg_tokens := {["j1" := {| tk_userId := "s"; tk_clientId := "rp1" |}; "j2" := {| tk_userId := "d"; tk_clientId := "rp1" |};
                   "j3" := {| tk_userId := "d"; tk_clientId := "rp2" |}]};
     mg_wizards := ∅; mg_recoveryCodes := {["c1" := {| ow_userId := "d" |}]}; mg_recoveryAttempts := ∅;
     mg_emails := {["e1" := {| eo_userId := "s"; eo_isPrimary := true |}; "e2" := {| eo_userId := "d"; eo_isPrimary := true |}]};
     mg_auditLogs := {["a1" := {| nr_userId := Some "d" |}; "a2" := {| nr_userId := None |}]};
     mg_accounts := {[("google", "g1") := {| ow_userId := "d" |}]};
     mg_sessions := {["t1" := {| ow_userId := "d" |}]};
     mg_authenticators := {["k1" := {| ow_userId := "s" |}; "k2" := {| ow_userId := "d" |}]};
     mg_overrides := ∅;
     mg_redemptions := {["r1" := {| rd_userId := "s"; rd_inviteCodeId := "i1"; rd_redeemedAt := 1 |};
                        "r2" := {| rd_userId := "d"; rd_inviteCodeId := "i1"; rd_redeemedAt := 2 |};
                        "r3" := {| rd_userId := "d"; rd_inviteCodeId := "i2"; rd_redeemedAt := 3 |}]};
     mg_eligibility := {["x1" := elig "s" "age" 10; "x2" := elig "d" "age" 5; "x3" := elig "s" "mail" 1; "x4" := elig "d" "mail" 9]};
     mg_clients := {["o1" := {| nr_userId := Some "d" |}]};
     mg_grants := {[("s", "rp1") := grant "g1" ["age"]; ("d", "rp1") := grant "g2" ["mail"]; ("d", "rp2") := grant "g3" ["age"]]};
     mg_authCodes := {["z1" := {| ow_userId := "d" |}]};
     mg_records := ∅ |}.

(** The same, without the party only "d" uses. *)
Definition shared : MergeDB :=
  {| mg_users := mg_users db; mg_badges := mg_badges db; mg_shareLinks := mg_shareLinks db;
     mg_tokens := delete "j3" (mg_tokens db); mg_wizards := mg_wizards db; mg_recoveryCodes := mg_recoveryCodes db;
     mg_recoveryAttempts := mg_recoveryAttempts db; mg_emails := mg_emails db; mg_auditLogs := mg_auditLogs db;
     mg_accounts := mg_accounts db; mg_sessions := mg_sessions db; mg_authenticators := mg_authenticators db;
     mg_overrides := mg_overrides db; mg_redemptions := mg_redemptions db; mg_eligibility := mg_eligibility db;
     mg_clients := mg_clients db; mg_grants := mg_grants db; mg_authCodes := mg_authCodes db; mg_records := mg_records db |}.

Definition pairwise (u c : string) : string := u +:+ "@" +:+ c.
Definition sub (u c : string) : option string := Some (pairwise u c).
Definition calm : nat → bool := fun _ => false.
(** The first two attempts are aborted. *)
Definition busy : nat → bool := fun i => (i <=? 2)%nat.

Lemma users_ok (m : gmap string MergeUser) :
  bool_decide (map_Forall (fun _ x => mu_mergedIntoUserId x = None → mu_mergedAt x = None) m) = true →
  ∀ u x, m !! u = Some x → mu_mergedIntoUserId x = None → mu_mergedAt x = None.
Proof. intros H%bool_decide_eq_true. exact H. Qed.

Lemma merge_db_ok : SchemaOk db.
Proof. split; [vm_compute; reflexivity..|apply users_ok; vm_compute; reflexivity]. Qed.

Lemma shared_ok : SchemaOk shared.
Proof. split; [vm_compute; reflexivity..|apply users_ok; vm_compute; reflexivity]. Qed.

End Demo.


Lemma merge_commits_exactly_witness :
  (∃ r, (run_solo (mergeAccounts 1000 "m1" Demo.sub Demo.busy "s" "d") Demo.db).1 = Ok r) ∧
  ¬ (∃ r, (run_solo (mergeAccounts 1000 "m1" Demo.sub Demo.busy "s" "nobody") Demo.db).1 = Ok r).
Proof.
  assert (∃ j, (1 ≤ j ≤ MAX_TX_ATTEMPTS)%nat ∧ Demo.busy j = false) as Hj by (exists 3%nat; split; [vm_compute; lia|reflexivity]).
  split.
  - apply (merge_commits_exactly 1000 "m1" Demo.sub Demo.busy "s" "d" Demo.db Demo.merge_db_ok); [done|done|done|by eexists|].
    split_and!; [vm_compute; by eexists|by eexists|]. intros c _ _ [? H]. vm_compute in H. discriminate.
  - rewrite (merge_commits_exactly 1000 "m1" Demo.sub Demo.busy "s" "nobody" Demo.db Demo.merge_db_ok); [|done|done|done|by eexists].
    intros (_ & (donor & H & _) & _). vm_compute in H. discriminate.
Defined.

Lemma subjects_after_merge_witness : ∃ r db1,
  run_solo (mergeAccounts 1000 "m1" Demo.sub Demo.calm "s" "d") Demo.db = (Ok r, db1) ∧
  subjectAt Demo.pairwise db1 "s" "rp2" = "d@rp2" ∧ subjectAt Demo.pairwise db1 "s" "rp1" = "s@rp1".
Proof.
  destruct (run_solo (mergeAccounts 1000 "m1" Demo.sub Demo.calm "s" "d") Demo.db) as [[r|e] db1] eqn:E;
    [|vm_compute in E; discriminate].
  exists r, db1. split; [done|].
  destruct (subjects_after_merge Demo.pairwise 1000 "m1" Demo.calm "s" "d" Demo.db r db1 E) as (Ha & Hb & _). split.
  - rewrite Ha; [vm_compute; reflexivity|apply (bool_decide_unpack _); vm_compute; exact I..|vm_compute; reflexivity].
  - rewrite Hb; [vm_compute; reflexivity|vm_compute; reflexivity|].
    right. left. apply (bool_decide_unpack _). vm_compute. exact I.
Defined.

Lemma chained_merge_fails_witness : ∃ r db1 e,
  run_solo (mergeAccounts 1000 "m1" Demo.sub Demo.calm "s" "d") Demo.db = (Ok r, db1) ∧
  (run_solo (mergeAccounts 2000 "m2" Demo.sub Demo.calm "t" "s") db1).1 = Err e.
Proof.
  destruct (run_solo (mergeAccounts 1000 "m1" Demo.sub Demo.calm "s" "d") Demo.db) as [[r|e] db1] eqn:E;
    [|vm_compute in E; discriminate].
  destruct (chained_merge_fails 1000 "m1" Demo.sub Demo.calm 2000 "m2" Demo.sub Demo.calm "d" "s" "t" Demo.db r db1 "rp2" E)
    as [e He]; [done|done|apply (bool_decide_unpack _); vm_compute; exact I..|vm_compute; reflexivity|
      apply (bool_decide_unpack _); vm_compute; exact I|vm_compute; reflexivity|].
  exists r, db1, e. split; [reflexivity|exact He].
Defined.

Lemma schema_preserved_witness :
  SchemaOk (pool_run [0; 1; 1; 0; 2; 2]%nat
    (mergeHandler 1000 Demo.sub Demo.calm <$> [Merge "m1" "s" "d"; Merge "m2" "t" "s"; Reverse "m1"], Demo.db)).2.
Proof. apply (schema_preserved 1000 Demo.sub Demo.calm [Merge "m1" "s" "d"; Merge "m2" "t" "s"; Reverse "m1"]), Demo.merge_db_ok. Defined.

Lemma merge_postcondition_witness : ∃ r db1,
  run_solo (mergeAccounts 1000 "m1" Demo.sub Demo.calm "s" "d") Demo.db = (Ok r, db1) ∧ ownsNothing "d" db1.
Proof.
  destruct (run_solo (mergeAccounts 1000 "m1" Demo.sub Demo.calm "s" "d") Demo.db) as [[r|e] db1] eqn:E;
    [|vm_compute in E; discriminate].
  exists r, db1. split; [done|]. apply (merge_postcondition 1000 "m1" Demo.sub Demo.calm "s" "d" Demo.db r db1 E).
  intros k1 k2 r1 r2 H1 H2 _ _ Hu. cbn in H1, H2.
  apply lookup_insert_Some in H1 as [[<- <-]|[_ [<- <-]%lookup_singleton_Some]];
    apply lookup_insert_Some in H2 as [[<- <-]|[_ [<- <-]%lookup_singleton_Some]]; done.
Defined.

Lemma crossing_merges_witness : ∃ r db1 r2 db2 ua ub,
  run_solo (mergeAccounts 1000 "m1" Demo.sub Demo.calm "s" "d") Demo.shared = (Ok r, db1) ∧
  run_solo (mergeAccounts 1001 "m2" Demo.sub Demo.calm "d" "s") db1 = (Ok r2, db2) ∧
  mg_users db2 !! "s" = Some ua ∧ mu_mergedIntoUserId ua = Some "d" ∧
  mg_users db2 !! "d" = Some ub ∧ mu_mergedIntoUserId ub = Some "s".
Proof.
  destruct (run_solo (mergeAccounts 1000 "m1" Demo.sub Demo.calm "s" "d") Demo.shared) as [[r|e] db1] eqn:E;
    [|vm_compute in E; discriminate].
  exists r, db1.
  destruct (crossing_merges 1000 "m1" Demo.sub Demo.calm "s" "d" Demo.shared r db1 1001 "m2" Demo.shared_ok E)
    as (r2 & db2 & ua & ub & H).
  - intros donor Hd. vm_compute in Hd. by injection Hd as <-.
  - done.
  - done.
  - exists 1%nat. split; [vm_compute; lia|done].
  - by eexists.
  - apply Forall_forall. apply (bool_decide_unpack _). vm_compute. exact I.
  - intros c. split; apply lookup_empty.
  - exists r2, db2, ua, ub. split; [done|exact H].
Defined.
