(* ===== verification/Credentials.v ===== *)
(** * Credentials: lifecycle, quarantine gate, addresses and passkeys

    lib/credential-lifecycle.ts, lib/credential-gate.ts, lib/credential-notify.ts,
    lib/passkey-enroll.ts, lib/email-signin-user.ts, server/credential-actions.ts and the
    enrolment hook of auth.ts. Each server action is a handler on a database of users,
    addresses, passkeys and single-use markers; every statement is one atomic operation, a
    [$transaction] too, and handlers interleave between operations. Mail transport, the JWT
    library and Unicode normalization are parameters. *)

From S2P Require Import Prelude Threads Matching Policy Selection RateLimit Registry SybilScore.
From S2P Require Import Session SybilConfig RecoveryEditor Recovery.

Open Scope Z_scope.
Open Scope minister_scope.

(** ** Lifecycle (lib/credential-lifecycle.ts) *)

Inductive CredentialStatus := active | quarantined.

#[export] Instance CredentialStatus_eq_dec : EqDecision CredentialStatus.
Proof. solve_decision. Defined.

(** The stored status is a string; quarantine lapses by the clock. *)
Definition effectiveCredentialStatus (status : string) (quarantinedUntil : option Z) (now : Z) : CredentialStatus :=
  if negb (bool_decide (status = "quarantined")) then active
  else match quarantinedUntil with
       | Some t => if t <=? now then active else quarantined
       | None => quarantined
       end.

(** The first passkey is active at once, every other one is held. *)
Definition lifecycleForNewPasskey (existingPasskeyCount : nat) (now : Z) : string * option Z :=
  if Nat.eqb existingPasskeyCount 0 then ("active", None)
  else ("quarantined", Some (now + CREDENTIAL_QUARANTINE_MS)).

(** [Math.ceil(a / b)] *)
Definition ceilDiv (a b : Z) : Z := - ((- a) / b).

Definition describeRemaining (untilMs now : Z) : string :=
  let remaining := untilMs - now in
  let hour := 60 * 60 * 1000 in
  if remaining <=? 0 then "moments"
  else if 2 * remaining <? 3 * hour then "about an hour"
  else if remaining <? 48 * hour then "about " +:+ pretty (ceilDiv remaining hour) +:+ " hours"
  else "about " +:+ pretty (ceilDiv remaining (24 * hour)) +:+ " days".

Inductive PrivilegedActionName :=
  | merge_start | merge_confirm | recovery_codes_generate | email_set_primary | anon_seed_rekey.

Definition actionName (a : PrivilegedActionName) : string :=
  match a with
  | merge_start => "merge.start" | merge_confirm => "merge.confirm"
  | recovery_codes_generate => "recovery-codes.generate"
  | email_set_primary => "email.set-primary" | anon_seed_rekey => "anon-seed.rekey"
  end.

Inductive RefusalReason := no_active_passkey | acting_passkey_untrusted.

(** [retryAt] is the instant whose ISO form the refusal carries. *)
Record QuarantineRefusal := {
  qr_reason : RefusalReason;
  qr_retryAt : option Z;
  qr_canStepUp : bool;
  qr_message : string;
}.

Record GatePasskeyRow := { gp_credentialID : string; gp_status : string; gp_quarantinedUntil : option Z }.

Definition passkeyActive (now : Z) (p : GatePasskeyRow) : bool :=
  bool_decide (effectiveCredentialStatus (gp_status p) (gp_quarantinedUntil p) now = active).

(** The least of a list of instants ([sort] and [[0]]). *)
Definition earliest (l : list Z) : option Z :=
  match l with [] => None | t :: l => Some (foldl Z.min t l) end.

Definition evaluatePrivilegedGate (passkeys : list GatePasskeyRow) (actingCredentialId : option string) (now : Z) :
    option QuarantineRefusal :=
  let actives := filter (fun p => passkeyActive now p = true) passkeys in
  match actives with
  | [] =>
      match passkeys with
      | [] => Some {| qr_reason := no_active_passkey; qr_retryAt := None; qr_canStepUp := false;
                      qr_message := "This action needs a passkey on your account. Add a passkey under Settings → Credentials, then try again." |}
      | _ :: _ =>
          let retryAtMs := earliest (omap gp_quarantinedUntil passkeys) in
          Some {| qr_reason := no_active_passkey; qr_retryAt := retryAtMs; qr_canStepUp := false;
                  qr_message := match retryAtMs with
                    | Some t => "For your security, this action is paused while your newly added passkey finishes its security hold. It unlocks in " +:+ describeRemaining t now +:+ ". You can keep signing in and using your account as usual until then."
                    | None => "For your security, this action is paused while your passkey is in a security hold. You can keep signing in and using your account as usual."
                    end |}
      end
  | _ :: _ =>
      match actingCredentialId with
      | None => None
      | Some c =>
          match head (filter (fun p => gp_credentialID p = c) passkeys) with
          | None => Some {| qr_reason := acting_passkey_untrusted; qr_retryAt := None; qr_canStepUp := true;
                            qr_message := "This session signed in with a passkey that is no longer on your account. Confirm with one of your current passkeys to continue." |}
          | Some acting =>
              if passkeyActive now acting then None
              else Some {| qr_reason := acting_passkey_untrusted; qr_retryAt := gp_quarantinedUntil acting; qr_canStepUp := true;
                           qr_message := match gp_quarantinedUntil acting with
                             | Some t => "For your security, this change can't be approved by the passkey you added recently while it's in its security hold. Confirm with one of your other passkeys, or wait — the new passkey clears in " +:+ describeRemaining t now +:+ "."
                             | None => "For your security, this change can't be approved by a passkey that's in a security hold. Confirm with one of your other passkeys."
                             end |}
          end
      end
  end.

(** ** The database *)

Record CredUser := { cu_flags : UserFlags; cu_email : option string }.

Record EmailCred := {
  em_userId : string;
  em_email : string;
  em_verifiedAt : option Z;
  em_isPrimary : bool;
  em_status : string;
  em_quarantinedUntil : option Z;
  em_createdAt : Z;
}.

Record PasskeyCred := {
  pk_userId : string;
  pk_label : option string;
  pk_status : string;
  pk_quarantinedUntil : option Z;
  pk_addedAt : Z;
  pk_lastUsedAt : option Z;
}.

(** An [oauth-account] badge; its attributes hold a provider and a handle, if they are strings. *)
Record OauthBadge := { ob_userId : string; ob_provider : option string; ob_handle : option string; ob_issuedAt : Z }.

(** Addresses by id, passkeys by credential id (unique across users), markers by (identifier,
    token), audit rows (user, action, detail), mails sent (to, subject). *)
Record CredDB := {
  cd_users : gmap string CredUser;
  cd_emails : gmap string EmailCred;
  cd_passkeys : gmap string PasskeyCred;
  cd_badges : gmap string OauthBadge;
  cd_markers : gmap (string * string) Z;
  cd_audit : list (string * string * string);
  cd_mails : list (string * string);
}.

Definition with_emails (m : gmap string EmailCred) (db : CredDB) : CredDB :=
  {| cd_users := cd_users db; cd_emails := m; cd_passkeys := cd_passkeys db; cd_badges := cd_badges db;
     cd_markers := cd_markers db; cd_audit := cd_audit db; cd_mails := cd_mails db |}.
Definition with_passkeys (m : gmap string PasskeyCred) (db : CredDB) : CredDB :=
  {| cd_users := cd_users db; cd_emails := cd_emails db; cd_passkeys := m; cd_badges := cd_badges db;
     cd_markers := cd_markers db; cd_audit := cd_audit db; cd_mails := cd_mails db |}.
Definition with_cred_users (m : gmap string CredUser) (db : CredDB) : CredDB :=
  {| cd_users := m; cd_emails := cd_emails db; cd_passkeys := cd_passkeys db; cd_badges := cd_badges db;
     cd_markers := cd_markers db; cd_audit := cd_audit db; cd_mails := cd_mails db |}.
Definition with_markers (m : gmap (string * string) Z) (db : CredDB) : CredDB :=
  {| cd_users := cd_users db; cd_emails := cd_emails db; cd_passkeys := cd_passkeys db; cd_badges := cd_badges db;
     cd_markers := m; cd_audit := cd_audit db; cd_mails := cd_mails db |}.

Definition auditCred (userId action detail : string) (db : CredDB) : CredDB :=
  {| cd_users := cd_users db; cd_emails := cd_emails db; cd_passkeys := cd_passkeys db; cd_badges := cd_badges db;
     cd_markers := cd_markers db; cd_audit := cd_audit db ++ [(userId, action, detail)]; cd_mails := cd_mails db |}.

Definition recordMail (to subject : string) (db : CredDB) : CredDB :=
  {| cd_users := cd_users db; cd_emails := cd_emails db; cd_passkeys := cd_passkeys db; cd_badges := cd_badges db;
     cd_markers := cd_markers db; cd_audit := cd_audit db; cd_mails := cd_mails db ++ [(to, subject)] |}.

(** A user's rows. *)
Definition emailsOf (u : string) (m : gmap string EmailCred) : list (string * EmailCred) :=
  map_to_list (filter (fun e => em_userId e.2 = u) m).
Definition passkeysOf (u : string) (m : gmap string PasskeyCred) : list (string * PasskeyCred) :=
  map_to_list (filter (fun e => pk_userId e.2 = u) m).
Definition verifiedOf (u : string) (m : gmap string EmailCred) : list (string * EmailCred) :=
  map_to_list (filter (fun e => em_userId e.2 = u ∧ em_verifiedAt e.2 ≠ None) m).

(** The row of an address ([email] is unique). *)
Definition emailRow (email : string) (m : gmap string EmailCred) : option (string * EmailCred) :=
  head (map_to_list (filter (fun e => em_email e.2 = email) m)).

(** What an action throws. *)
Inductive CredError :=
  | Thrown (e : ActionError)
  | QuarantineError (refusal : QuarantineRefusal)
  | EmailCollisionError (email : string).

Definition plain (msg : string) : CredError := Thrown (PlainError msg).
Definition liftError {A} (r : result ActionError A) : result CredError A :=
  match r with Ok a => Ok a | Err e => Err (Thrown e) end.
Definition throw_if (b : bool) (e : CredError) : result CredError unit := if b then Err e else Ok tt.

(** ** The parameters

    Mail egress ([None]: [sendMail] throws), the tokens of the address-verification link, and
    NFKC normalization. *)
Record CredWorld := {
  cw_mail : string → bool;
  cw_signVerify : string → string → option string;
  cw_verifyToken : Z → string → option (string * string);
  cw_nfkc : string → string;
}.

Section Actions.
Context (w : CredWorld) (now : Z).

(** *** Mail and notification (lib/credential-notify.ts) *)

Definition sendMail (to subject : string) : thread CredDB (result CredError unit) :=
  act (fun db => if cw_mail w to then (Ok tt, recordMail to subject db) else (Err (plain "mail"), db)).

(** In sequence; the first failure is thrown. *)
Fixpoint sendAll (tos : list string) (subject : string) : thread CredDB (result CredError unit) :=
  match tos with
  | [] => mret (Ok tt)
  | to :: tos => _ ←! sendMail to subject; sendAll tos subject
  end.

Definition audit (userId action detail : string) : thread CredDB unit := write (auditCred userId action detail).

Definition notifyCredentialChange (userId summary : string) : thread CredDB (result CredError unit) :=
  emails ← read (fun db => map (fun e => em_email e.2) (verifiedOf userId (cd_emails db)));
  _ ← audit userId "credential.changed" summary;
  sendAll emails "A credential changed on your Minister account".

(** *** The gate (lib/credential-gate.ts) *)

Definition gateRows (userId : string) (db : CredDB) : list GatePasskeyRow :=
  map (fun e => {| gp_credentialID := e.1; gp_status := pk_status e.2; gp_quarantinedUntil := pk_quarantinedUntil e.2 |})
    (passkeysOf userId (cd_passkeys db)).

Definition evaluateForUser (userId : string) (acting : option string) : thread CredDB (option QuarantineRefusal) :=
  passkeys ← read (gateRows userId);
  mret (evaluatePrivilegedGate passkeys acting now).

Definition loadPrivilegedGate := evaluateForUser.

Definition gatePrivilegedAction (userId : string) (acting : option string) (action : PrivilegedActionName) :
    thread CredDB (option QuarantineRefusal) :=
  refusal ← evaluateForUser userId acting;
  match refusal with
  | Some r => _ ← audit userId "credential.quarantine_refused" (actionName action); mret refusal
  | None => mret None
  end.

Definition requirePrivilegedAction (userId : string) (acting : option string) (action : PrivilegedActionName) :
    thread CredDB (result CredError unit) :=
  refusal ← gatePrivilegedAction userId acting action;
  mret (match refusal with Some r => Err (QuarantineError r) | None => Ok tt end).

(** *** The acting principal (server/credential-actions.ts) *)

Definition requirePrincipal (auth : option Session) : thread CredDB (result CredError Session) :=
  read (fun db => liftError (requireSession auth (cu_flags <$> cd_users db))).

Definition rejectRecovered (session : Session) : result CredError unit :=
  throw_if (s_recovered session)
    (plain "This is a recovery session with reduced capabilities. Re-establish a passkey to manage credentials.").

(** The checks every mutation makes first. *)
Definition mutating (auth : option Session) : thread CredDB (result CredError Session) :=
  session ←! requirePrincipal auth;
  _ ←! attempt (rejectRecovered session);
  _ ←! attempt (liftError (requireAal (Some session) 2));
  mret (Ok session).

(** *** Verification links *)

Definition VERIFY_TTL_SECONDS : Z := 24 * 60 * 60.
Definition VERIFY_CONSUMPTION_IDENTIFIER : string := "email-verify".

(** [verificationToken.create]; the key throws. *)
Definition createCredMarker (identifier token : string) (expires : Z) (db : CredDB) : result CredError unit * CredDB :=
  match cd_markers db !! (identifier, token) with
  | Some _ => (Err (plain "Unique constraint failed"), db)
  | None => (Ok tt, with_markers (<[(identifier, token) := expires]> (cd_markers db)) db)
  end.

(** [verificationToken.delete]; a missing row throws. *)
Definition deleteCredMarker (identifier token : string) (db : CredDB) : bool * CredDB :=
  match cd_markers db !! (identifier, token) with
  | Some _ => (true, with_markers (delete (identifier, token) (cd_markers db)) db)
  | None => (false, db)
  end.

Definition issueEmailVerifyToken (jti userEmailId : string) : thread CredDB (result CredError string) :=
  _ ←! act (createCredMarker VERIFY_CONSUMPTION_IDENTIFIER jti (now + VERIFY_TTL_SECONDS * 1000));
  mret (match cw_signVerify w userEmailId jti with
        | Some token => Ok token
        | None => Err (plain "AUTH_SECRET must be set (≥32 chars) for email-verify tokens")
        end).

Definition consumeEmailVerifyToken (token : string) : thread CredDB (option string) :=
  match cw_verifyToken w now token with
  | None => mret None
  | Some (userEmailId, jti) =>
      deleted ← act (deleteCredMarker VERIFY_CONSUMPTION_IDENTIFIER jti);
      mret (if (deleted : bool) then Some userEmailId else None)
  end.

(** *** Addresses *)

(** [/^[^\s@]+@[^\s@]+\.[^\s@]+$/]: no white space, one [@], and in what follows it a dot
    that is neither first nor last. *)
Fixpoint dotInside (s : list Ascii.ascii) : bool :=
  match s with
  | c :: (_ :: _) as s' => bool_decide (c = "."%char) || dotInside s'
  | _ => false
  end.

Definition emailShape (s : string) : bool :=
  let cs := String.list_ascii_of_string s in
  negb (existsb is_space cs) &&
  match list_find (fun c => c = "@"%char) cs with
  | Some (i, _) =>
      let domain := drop (S i) cs in
      negb (Nat.eqb i 0) && negb (bool_decide ("@"%char ∈ domain)) && dotInside (tail domain)
  | None => false
  end.

Definition normalizeEmail (raw : string) : result CredError string :=
  let email := toLowerCase (trim (cw_nfkc w raw)) in
  if emailShape email then Ok email else Err (plain "Enter a valid email address.").

(** [userEmail.create]: the unique address (or id) throws P2002, an unknown user another
    error. *)
Definition createEmailRow (id : string) (row : EmailCred) (db : CredDB) : result CredError unit * CredDB :=
  match cd_emails db !! id, emailRow (em_email row) (cd_emails db), cd_users db !! em_userId row with
  | None, None, Some _ => (Ok tt, with_emails (<[id := row]> (cd_emails db)) db)
  | None, None, None => (Err (plain "Foreign key constraint failed"), db)
  | _, _, _ => (Err (EmailCollisionError (em_email row)), db)
  end.

Definition addEmail (auth : option Session) (id jti emailInput : string) : thread CredDB (result CredError (string * string)) :=
  session ←! mutating auth;
  let userId := s_userId session in
  email ←! attempt (normalizeEmail emailInput);
  _ ←! act (createEmailRow id
          {| em_userId := userId; em_email := email; em_verifiedAt := None; em_isPrimary := false;
             em_status := "quarantined"; em_quarantinedUntil := Some (now + CREDENTIAL_QUARANTINE_MS); em_createdAt := now |});
  sent ← (_ ←! issueEmailVerifyToken jti id;
          sendMail email "Verify your email for Minister");
  match sent with
  | Err e => _ ← write (fun db => with_emails (delete id (cd_emails db)) db); mret (Err e)
  | Ok _ =>
      _ ←! notifyCredentialChange userId ("email " +:+ email +:+ " added (pending verification)");
      mret (Ok (id, email))
  end.

(** [userEmail.update]; a missing row throws. *)
Definition setVerified (id : string) (db : CredDB) : result CredError unit * CredDB :=
  match cd_emails db !! id with
  | None => (Err (plain "Record to update not found"), db)
  | Some r => (Ok tt, with_emails (<[id := {| em_userId := em_userId r; em_email := em_email r; em_verifiedAt := Some now;
                                             em_isPrimary := em_isPrimary r; em_status := em_status r;
                                             em_quarantinedUntil := em_quarantinedUntil r; em_createdAt := em_createdAt r |}]> (cd_emails db)) db)
  end.

Definition verifyEmail (token : string) : thread CredDB (result CredError string) :=
  if bool_decide (token = "") then mret (Err (plain "Missing verification token."))
  else
    consumed ← consumeEmailVerifyToken token;
    match consumed with
    | None => mret (Err (plain "This verification link is invalid or has expired."))
    | Some id =>
        existing ← read (fun db => cd_emails db !! id);
        match existing with
        | None => mret (Err (plain "This email is no longer associated with an account."))
        | Some row =>
            if bool_decide (em_verifiedAt row = None) then
              _ ←! act (setVerified id);
              _ ← audit (em_userId row) "credential.email_verified" (em_email row);
              mret (Ok (em_email row))
            else mret (Ok (em_email row))
        end
    end.

(** The row, if it is the user's. *)
Definition ownEmail (userId id : string) (db : CredDB) : result CredError EmailCred :=
  match cd_emails db !! id with
  | Some r => if bool_decide (em_userId r = userId) then Ok r else Err (plain "Email not found.")
  | None => Err (plain "Email not found.")
  end.

(** [delete]; a missing row throws. *)
Definition deleteEmailRow (id : string) (db : CredDB) : result CredError unit * CredDB :=
  match cd_emails db !! id with
  | None => (Err (plain "Record to delete does not exist"), db)
  | Some _ => (Ok tt, with_emails (delete id (cd_emails db)) db)
  end.

Definition removeEmail (auth : option Session) (emailId : string) : thread CredDB (result CredError unit) :=
  session ←! mutating auth;
  let userId := s_userId session in
  target ←! read (ownEmail userId emailId);
  others ← read (fun db => length (filter (fun e => e.1 ≠ emailId) (verifiedOf userId (cd_emails db))));
  _ ←! attempt (throw_if ((bool_decide (em_verifiedAt target ≠ None) || em_isPrimary target) && Nat.eqb others 0)
         (plain "You can't remove your last verified email. Add and verify another address first."));
  _ ←! act (deleteEmailRow emailId);
  notifyCredentialChange userId ("email " +:+ em_email target +:+ " removed").

Definition setPrimaryFlag (b : bool) (r : EmailCred) : EmailCred :=
  {| em_userId := em_userId r; em_email := em_email r; em_verifiedAt := em_verifiedAt r; em_isPrimary := b;
     em_status := em_status r; em_quarantinedUntil := em_quarantinedUntil r; em_createdAt := em_createdAt r |}.

Definition clearPrimary (userId : string) (m : gmap string EmailCred) : gmap string EmailCred :=
  (fun r => if decide (em_userId r = userId ∧ em_isPrimary r = true) then setPrimaryFlag false r else r) <$> m.

(** The transaction: clear, set, refresh the user's cached address. *)
Definition promoteEmail (userId emailId email : string) (db : CredDB) : result CredError unit * CredDB :=
  let cleared := clearPrimary userId (cd_emails db) in
  match cleared !! emailId, cd_users db !! userId with
  | Some r, Some u =>
      (Ok tt, with_cred_users (<[userId := {| cu_flags := cu_flags u; cu_email := Some email |}]> (cd_users db))
                (with_emails (<[emailId := setPrimaryFlag true r]> cleared) db))
  | _, _ => (Err (plain "Record to update not found"), db)
  end.

Definition setPrimaryEmail (auth : option Session) (emailId : string) : thread CredDB (result CredError unit) :=
  session ←! mutating auth;
  let userId := s_userId session in
  _ ←! requirePrivilegedAction userId (s_cred session) email_set_primary;
  target ←! read (ownEmail userId emailId);
  _ ←! attempt (throw_if (bool_decide (em_verifiedAt target = None))
         (plain "Verify this email before making it your primary address."));
  _ ←! act (promoteEmail userId emailId (em_email target));
  notifyCredentialChange userId ("primary email set to " +:+ em_email target).

(** *** Passkeys *)

Record CanAddPasskeyResult := { ca_allowed : bool; ca_bootstrap : bool; ca_reason : option string }.

Definition canAddPasskey (auth : option Session) : thread CredDB (result CredError CanAddPasskeyResult) :=
  session ←! requirePrincipal auth;
  existing ← read (fun db => length (passkeysOf (s_userId session) (cd_passkeys db)));
  let aal := default 0 (s_aal session) in
  mret (Ok (
    if Nat.eqb existing 0 then
      if aal <? 1 then {| ca_allowed := false; ca_bootstrap := true; ca_reason := Some "Sign in before adding a passkey." |}
      else {| ca_allowed := true; ca_bootstrap := true; ca_reason := None |}
    else if (aal <? 2) && negb (s_recovered session) then
      {| ca_allowed := false; ca_bootstrap := false; ca_reason := Some "Adding another passkey requires step-up to AAL2." |}
    else {| ca_allowed := true; ca_bootstrap := false; ca_reason := None |})).

(** The latest added, if any ([orderBy: addedAt desc], [findFirst]). *)
Definition newestPasskey (u : string) (m : gmap string PasskeyCred) : option PasskeyCred :=
  foldl (fun best e => match best with
                       | Some b => if pk_addedAt b <? pk_addedAt e.2 then Some e.2 else best
                       | None => Some e.2
                       end) None (passkeysOf u m).

Definition markPasskeyEnrolled (auth : option Session) : thread CredDB (result CredError bool) :=
  session ←! requirePrincipal auth;
  newest ← read (fun db => newestPasskey (s_userId session) (cd_passkeys db));
  mret (match newest with
        | None => Err (plain "No passkey found to finalize. The enrollment may not have completed.")
        | Some p => Ok (bool_decide (effectiveCredentialStatus (pk_status p) (pk_quarantinedUntil p) now = quarantined))
        end).

(** Count and insert under the per-user lock: one atomic operation. *)
Definition insertPasskeyWithLifecycle (userId credentialID : string) (label : option string) (db : CredDB) :
    result CredError nat * CredDB :=
  match cd_passkeys db !! credentialID with
  | Some _ => (Err (plain "Unique constraint failed"), db)
  | None =>
      let existing := length (passkeysOf userId (cd_passkeys db)) in
      let '(status, until) := lifecycleForNewPasskey existing now in
      (Ok existing, with_passkeys (<[credentialID := {| pk_userId := userId; pk_label := label; pk_status := status;
                                                       pk_quarantinedUntil := until; pk_addedAt := now;
                                                       pk_lastUsedAt := None |}]> (cd_passkeys db)) db)
  end.

(** The adapter's hook: a failed notification is recorded, not thrown. *)
Definition createAuthenticator (userId credentialID : string) (label : option string) : thread CredDB (result CredError unit) :=
  existing ←! act (insertPasskeyWithLifecycle userId credentialID label);
  sent ← notifyCredentialChange userId
    (if Nat.eqb existing 0 then "your first passkey was added"
     else "a passkey was added (held in a security cooldown before it can approve sensitive changes)");
  match sent with
  | Ok _ => mret (Ok tt)
  | Err _ => _ ← audit userId "credential.notify_failed" "passkey added; notification email failed to send"; mret (Ok tt)
  end.

(** The passkey, if it is the user's. *)
Definition ownPasskey (userId credentialID : string) (db : CredDB) : option PasskeyCred :=
  p ← cd_passkeys db !! credentialID; if bool_decide (pk_userId p = userId) then Some p else None.

Definition deletePasskey (userId credentialID : string) (db : CredDB) : result CredError unit * CredDB :=
  match ownPasskey userId credentialID db with
  | None => (Err (plain "Record to delete does not exist"), db)
  | Some _ => (Ok tt, with_passkeys (delete credentialID (cd_passkeys db)) db)
  end.

Definition removePasskey (auth : option Session) (credentialID : string) : thread CredDB (result CredError unit) :=
  session ←! mutating auth;
  let userId := s_userId session in
  _ ←! read (fun db => match ownPasskey userId credentialID db with
                       | None => Err (plain "Passkey not found.") | Some _ => Ok tt end);
  total ← read (fun db => length (passkeysOf userId (cd_passkeys db)));
  _ ←! attempt (throw_if (Nat.leb total 1)
         (plain "You can't remove your last passkey — it's your only phishing-resistant factor. Add another passkey first."));
  _ ←! act (deletePasskey userId credentialID);
  notifyCredentialChange userId "a passkey was removed".

(** *** The listing *)

Record CredentialAccount := { ac_id : string; ac_provider : string; ac_handle : option string; ac_linkedAt : Z }.

(** One row per linked account, the earliest; [jset]'s order is the order of insertion. *)
Definition dedupeAccounts (badges : list (string * OauthBadge)) : list CredentialAccount :=
  map snd (foldl (fun byKey b =>
    match ob_provider b.2 with
    | None => byKey
    | Some provider =>
        let key := provider +:+ ":" +:+ (default "" (ob_handle b.2)) in
        match jget key byKey with
        | Some _ => byKey
        | None => jset key {| ac_id := b.1; ac_provider := provider; ac_handle := ob_handle b.2; ac_linkedAt := ob_issuedAt b.2 |} byKey
        end
    end) [] badges).

Record CredentialEmail := {
  le_id : string; le_email : string; le_isPrimary : bool; le_verified : bool; le_status : CredentialStatus;
  le_quarantinedUntil : option Z; le_createdAt : Z }.

Record CredentialPasskey := {
  lp_credentialID : string; lp_label : option string; lp_status : CredentialStatus;
  lp_quarantinedUntil : option Z; lp_addedAt : Z; lp_lastUsedAt : option Z }.

Record CredentialListing := {
  cl_emails : list CredentialEmail;
  cl_passkeys : list CredentialPasskey;
  cl_accounts : list CredentialAccount;
  cl_recovered : bool;
  cl_canBootstrapPasskey : bool;
}.

(** [orderBy: [isPrimary desc, createdAt asc]] *)
Definition emailOrder (x y : string * EmailCred) : Z :=
  if Bool.eqb (em_isPrimary x.2) (em_isPrimary y.2) then em_createdAt x.2 - em_createdAt y.2
  else if em_isPrimary x.2 then -1 else 1.

Definition listEmail (e : string * EmailCred) : CredentialEmail :=
  {| le_id := e.1; le_email := em_email e.2; le_isPrimary := em_isPrimary e.2;
     le_verified := bool_decide (em_verifiedAt e.2 ≠ None);
     le_status := effectiveCredentialStatus (em_status e.2) (em_quarantinedUntil e.2) now;
     le_quarantinedUntil := em_quarantinedUntil e.2; le_createdAt := em_createdAt e.2 |}.

Definition listPasskey (p : string * PasskeyCred) : CredentialPasskey :=
  {| lp_credentialID := p.1; lp_label := pk_label p.2;
     lp_status := effectiveCredentialStatus (pk_status p.2) (pk_quarantinedUntil p.2) now;
     lp_quarantinedUntil := pk_quarantinedUntil p.2; lp_addedAt := pk_addedAt p.2; lp_lastUsedAt := pk_lastUsedAt p.2 |}.

Definition listCredentials (auth : option Session) : thread CredDB (result CredError CredentialListing) :=
  session ←! requirePrincipal auth;
  let userId := s_userId session in
  emails ← read (fun db => js_sort emailOrder (emailsOf userId (cd_emails db)));
  passkeys ← read (fun db => js_sort (fun x y => pk_addedAt x.2 - pk_addedAt y.2) (passkeysOf userId (cd_passkeys db)));
  badges ← read (fun db => js_sort (fun x y : string * OauthBadge => ob_issuedAt x.2 - ob_issuedAt y.2)
                             (map_to_list (filter (fun e => ob_userId e.2 = userId) (cd_badges db))));
  mret (Ok {| cl_emails := map listEmail emails; cl_passkeys := map listPasskey passkeys;
              cl_accounts := dedupeAccounts badges; cl_recovered := s_recovered session;
              cl_canBootstrapPasskey := Nat.eqb (length passkeys) 0 |}).

(** *** Results for the client *)

Inductive ActionResult (A : Type) :=
  | Done (data : A)
  | NeedsStepUp (requiredAal : Z)
  | Failed (quarantine : option QuarantineRefusal) (error : string)
  | Collision (email error : string).
Arguments Done {A} data.
Arguments NeedsStepUp {A} requiredAal.
Arguments Failed {A} quarantine error.
Arguments Collision {A} email error.

Definition COLLISION_MESSAGE : string := "That email is already in use on another account.".

Definition run {A} (fn : thread CredDB (result CredError A)) : thread CredDB (ActionResult A) :=
  r ← fn;
  mret (match r with
        | Ok a => Done a
        | Err (Thrown (StepUpRequiredError n _)) => NeedsStepUp n
        | Err (QuarantineError r) => Failed (Some r) (qr_message r)
        | Err (Thrown (PlainError msg)) => Failed None msg
        | Err (EmailCollisionError _) => Failed None COLLISION_MESSAGE
        end).

Definition addEmailAction (auth : option Session) (id jti email : string) : thread CredDB (ActionResult (string * string)) :=
  r ← addEmail auth id jti email;
  mret (match r with
        | Ok a => Done a
        | Err (Thrown (StepUpRequiredError n _)) => NeedsStepUp n
        | Err (EmailCollisionError email) => Collision email COLLISION_MESSAGE
        | Err (QuarantineError r) => Failed None (qr_message r)
        | Err (Thrown (PlainError msg)) => Failed None msg
        end).

Definition removeEmailAction auth emailId := run (removeEmail auth emailId).
Definition setPrimaryEmailAction auth emailId := run (setPrimaryEmail auth emailId).
Definition removePasskeyAction auth credentialID := run (removePasskey auth credentialID).
Definition markPasskeyEnrolledAction auth := run (markPasskeyEnrolled auth).
Definition canAddPasskeyAction auth := run (canAddPasskey auth).
Definition listCredentialsAction auth := run (listCredentials auth).

(** ** Who an address signs in (lib/email-signin-user.ts) *)

Record AdapterUser := { au_id : string; au_email : string; au_sessionGeneration : Z }.

Definition toAdapterUser (id : string) (u : CredUser) (emailOverride : option string) : AdapterUser :=
  {| au_id := id; au_email := default (default "" (cu_email u)) emailOverride;
     au_sessionGeneration := u_sessionGeneration (cu_flags u) |}.

(** The legacy lookup in the cached addresses. *)
Definition cachedUser (email : string) (db : CredDB) : option (string * CredUser) :=
  head (map_to_list (filter (fun e => cu_email e.2 = Some email) (cd_users db))).

Definition verifiedOwner (email : string) (db : CredDB) : option (string * CredUser) :=
  '(_, row) ← emailRow email (cd_emails db);
  if bool_decide (em_verifiedAt row = None) then None
  else u ← cd_users db !! em_userId row; Some (em_userId row, u).

Definition getUserByEmailIdentity (email : string) : thread CredDB (option AdapterUser) :=
  owned ← read (verifiedOwner email);
  match owned with
  | Some (id, u) => mret (Some (toAdapterUser id u (Some email)))
  | None =>
      legacy ← read (cachedUser email);
      mret ((fun x : string * CredUser => toAdapterUser x.1 x.2 None) <$> legacy)
  end.

Definition newUser (email : string) : CredUser :=
  {| cu_flags := {| u_sessionGeneration := 0; u_isAdmin := false; u_isBanned := false;
                    u_mergedIntoUserId := None; u_setupCompletedAt := None |};
     cu_email := Some email |}.

(** The transaction: drop unverified claims of the address, create the user and its verified
    primary address; a key or the unique address throws and rolls back. *)
Definition createEmailUserTx (userId emailId email : string) (db : CredDB) : result CredError AdapterUser * CredDB :=
  let emails := filter (fun e => ¬ (em_email e.2 = email ∧ em_verifiedAt e.2 = None)) (cd_emails db) in
  match cd_users db !! userId, emails !! emailId, emailRow email emails with
  | None, None, None =>
      (Ok (toAdapterUser userId (newUser email) (Some email)),
       with_cred_users (<[userId := newUser email]> (cd_users db))
         (with_emails (<[emailId := {| em_userId := userId; em_email := email; em_verifiedAt := Some now; em_isPrimary := true;
                                       em_status := "active"; em_quarantinedUntil := None; em_createdAt := now |}]> emails) db))
  | _, _, _ => (Err (plain "Unique constraint failed"), db)
  end.

Definition createEmailUser (userId emailId email : string) : thread CredDB (result CredError AdapterUser) :=
  act (createEmailUserTx userId emailId email).

(** A sign-in with a proven address. *)
Definition signInByEmail (userId emailId email : string) : thread CredDB (result CredError AdapterUser) :=
  existing ← getUserByEmailIdentity email;
  match existing with
  | Some u => mret (Ok u)
  | None => createEmailUser userId emailId email
  end.

End Actions.
