(* ===== verification/CredentialProofs.v ===== *)
(** * Credentials: theorems

    The quarantine gate says exactly what it promises and its refusals clear by themselves;
    addresses stay unique with one primary per account under every interleaving; an account
    that has a passkey never bootstraps again when requests do not overlap, and does when two
    removals race; and a removed primary address still signs in. *)

From S2P Require Import Prelude Threads Matching Policy Selection RateLimit Registry SybilScore.
From S2P Require Import Session SybilConfig RecoveryEditor Recovery Credentials.

Open Scope Z_scope.
Open Scope minister_scope.

(** ** The gate *)

Lemma effective_active status until now :
  effectiveCredentialStatus status until now = active ↔
  status ≠ "quarantined" ∨ ∃ t, until = Some t ∧ t ≤ now.
Proof.
  unfold effectiveCredentialStatus. case_bool_decide as Hs; cbn [negb].
  - destruct until as [t|]; [destruct (Z.leb_spec t now)|]; split; try done; try naive_solver lia.
  - naive_solver.
Qed.

Lemma passkeyActive_spec now p :
  passkeyActive now p = true ↔ gp_status p ≠ "quarantined" ∨ ∃ t, gp_quarantinedUntil p = Some t ∧ t ≤ now.
Proof. unfold passkeyActive. rewrite bool_decide_eq_true. apply effective_active. Qed.

(** What is out of quarantine stays out. *)
Lemma passkeyActive_mono now now' p : now ≤ now' → passkeyActive now p = true → passkeyActive now' p = true.
Proof. rewrite !passkeyActive_spec. intros Hle [?|(t & ? & ?)]; [by left|right]. exists t. split; [done|lia]. Qed.

Lemma earliest_spec l t : earliest l = Some t → t ∈ l ∧ ∀ x, x ∈ l → t ≤ x.
Proof.
  destruct l as [|y l]; [done|]. cbn. intros [= <-]. revert y. induction l as [|z l IH]; intros y; cbn.
  - split; [left|]. intros x ->%list_elem_of_singleton. lia.
  - destruct (IH (Z.min y z)) as [Hin Hle]. split.
    + apply elem_of_cons in Hin as [->|Hin]; [|by do 2 right].
      destruct (Z.min_spec y z) as [[_ ->]|[_ ->]]; [left|right; left].
    + intros x [->|[->|Hx]%elem_of_cons]%elem_of_cons; [| |apply Hle; by right];
        (etrans; [apply Hle; left|lia]).
Qed.

(** The passkey the session names. *)
Definition namedPasskey (c : string) (ps : list GatePasskeyRow) : option GatePasskeyRow :=
  head (filter (fun p => gp_credentialID p = c) ps).

Lemma gate_None ps acting now :
  evaluatePrivilegedGate ps acting now = None ↔
  (∃ p, p ∈ ps ∧ passkeyActive now p = true) ∧
  (∀ c, acting = Some c → ∃ p, namedPasskey c ps = Some p ∧ passkeyActive now p = true).
Proof.
  unfold evaluatePrivilegedGate. fold (namedPasskey).
  destruct (filter (fun p => passkeyActive now p = true) ps) as [|a actives] eqn:Ef.
  - split; [destruct ps; done|]. intros [(p & Hp & Ha) _].
    assert (p ∈ filter (fun p => passkeyActive now p = true) ps) as Hin by (by apply list_elem_of_filter).
    rewrite Ef in Hin. by apply not_elem_of_nil in Hin.
  - assert (a ∈ filter (fun p => passkeyActive now p = true) ps) as [Ha Hin]%list_elem_of_filter by (rewrite Ef; left).
    destruct acting as [c|]; [|split; [|done]; intros _; split; [by exists a|done]].
    unfold namedPasskey. destruct (head _) as [p|] eqn:Eh.
    + destruct (passkeyActive now p) eqn:Ep; split; try done.
      * intros _. split; [by exists a|]. intros c' [= <-]. eauto.
      * intros [_ H]. destruct (H c eq_refl) as (p' & H1 & H2). rewrite Eh in H1. congruence.
    + split; [done|]. intros [_ H]. destruct (H c eq_refl) as (p' & H1 & H2). rewrite Eh in H1. done.
Qed.

(** What the gate is for: the account has a passkey out of quarantine, and the passkey the
    session names, if it names one, is on the account and out of quarantine. *)
Definition accountTrusted (now : Z) (ps : list GatePasskeyRow) : Prop := ∃ p, p ∈ ps ∧ passkeyActive now p = true.

Definition sessionTrusted (now : Z) (acting : option string) (ps : list GatePasskeyRow) : Prop :=
  ∀ c, acting = Some c → ∃ p, p ∈ ps ∧ gp_credentialID p = c ∧ passkeyActive now p = true.

(** the gate opens exactly when the account has a passkey out of quarantine and the
    passkey the session names, if it names one, is on the account and out of quarantine. *)
Theorem gate_exact ps acting now :
  NoDup (gp_credentialID <$> ps) →
  evaluatePrivilegedGate ps acting now = None ↔ accountTrusted now ps ∧ sessionTrusted now acting ps.
Proof.
  intros HN. rewrite gate_None. unfold accountTrusted, sessionTrusted.
  assert (∀ c, (∃ p, namedPasskey c ps = Some p ∧ passkeyActive now p = true) ↔
    (∃ p, p ∈ ps ∧ gp_credentialID p = c ∧ passkeyActive now p = true)) as Hnamed.
  2: { split; intros [H1 H2]; (split; [done|]); intros c Hc; by apply Hnamed, H2. }
  intros c. unfold namedPasskey. split.
  - intros (p & Hh & Ha). exists p. apply head_Some_elem_of, list_elem_of_filter in Hh as [Hc Hp]. done.
  - intros (p & Hp & Hc & Ha). exists p. split; [|done].
    assert (p ∈ filter (fun p => gp_credentialID p = c) ps) as Hin by (by apply list_elem_of_filter).
    destruct (filter _ ps) as [|q l] eqn:Ef; [by apply not_elem_of_nil in Hin|]. cbn. f_equal.
    assert (q ∈ filter (fun p => gp_credentialID p = c) ps) as [Hqc Hq]%list_elem_of_filter by (rewrite Ef; left).
    apply list_elem_of_lookup in Hq as [i Hi], Hp as [j Hj].
    assert (i = j); [|congruence]. eapply NoDup_lookup; [exact HN|by rewrite list_lookup_fmap, Hi|].
    rewrite list_lookup_fmap, Hj. cbn. congruence.
Qed.

(** a refusal that names an instant clears by itself: from that instant on, with the same
    passkeys, an account held for want of an active passkey has one, and a session held for
    its own passkey passes. *)
Theorem refusal_clears ps acting now r t now' :
  evaluatePrivilegedGate ps acting now = Some r → qr_retryAt r = Some t → t ≤ now' →
  match qr_reason r with
  | no_active_passkey => accountTrusted now' ps ∧ evaluatePrivilegedGate ps None now' = None
  | acting_passkey_untrusted => now ≤ now' → evaluatePrivilegedGate ps acting now' = None
  end.
Proof.
  unfold evaluatePrivilegedGate at 1. intros H Ht Hle.
  destruct (filter (fun p => passkeyActive now p = true) ps) as [|a actives] eqn:Ef.
  - destruct ps as [|p0 ps']; [by simplify_eq/=|]. simplify_eq/=.
    change (match gp_quarantinedUntil p0 with Some u => _ | None => _ end) with (omap gp_quarantinedUntil (p0 :: ps')) in Ht.
    apply earliest_spec in Ht as [(p & Hp & Hu)%list_elem_of_omap _]. rewrite gate_None.
    assert (accountTrusted now' (p0 :: ps')) as Ht; [|by split].
    exists p. split; [done|]. apply passkeyActive_spec. right. eauto.
  - assert (a ∈ filter (fun p => passkeyActive now p = true) ps) as [Ha Hin]%list_elem_of_filter by (rewrite Ef; left).
    destruct acting as [c|]; [|done]. destruct (head _) as [p|] eqn:Eh; [|by simplify_eq/=].
    destruct (passkeyActive now p) eqn:Ep; [done|]. simplify_eq/=. intros Hnn.
    apply gate_None. split; [exists a; split; [done|by eapply passkeyActive_mono]|].
    intros c' [= <-]. exists p. split; [done|]. apply passkeyActive_spec. right. eauto.
Qed.

(** ** Addresses under interleaving *)

(** A request of the credential surface, a sign-in or a ceremony; [auth] is its session. *)
Inductive CredRequest :=
  | AddEmail (auth : option Session) (id jti email : string)
  | VerifyEmail (token : string)
  | RemoveEmail (auth : option Session) (id : string)
  | SetPrimary (auth : option Session) (id : string)
  | Enroll (userId credentialID : string) (label : option string)
  | RemovePasskey (auth : option Session) (credentialID : string)
  | SignIn (userId emailId email : string).

Definition handleCred (w : CredWorld) (now : Z) (rq : CredRequest) : thread CredDB unit :=
  match rq with
  | AddEmail auth id jti email => _ ← addEmailAction w now auth id jti email; mret tt
  | VerifyEmail token => _ ← verifyEmail w now token; mret tt
  | RemoveEmail auth id => _ ← removeEmailAction w auth id; mret tt
  | SetPrimary auth id => _ ← setPrimaryEmailAction w now auth id; mret tt
  | Enroll u c label => _ ← createAuthenticator w now u c label; mret tt
  | RemovePasskey auth c => _ ← removePasskeyAction w auth c; mret tt
  | SignIn u id email => _ ← signInByEmail now u id email; mret tt
  end.

(** Ids of rows are never shared: [own] is the account for which an id is drawn. *)
Definition idsRespect (own : string → string) (rq : CredRequest) : Prop :=
  match rq with
  | AddEmail (Some session) id _ _ => own id = s_userId session
  | SignIn u id _ => own id = u
  | _ => True
  end.

Record EmailsOk (own : string → string) (db : CredDB) : Prop := {
  eo_owner id r : cd_emails db !! id = Some r → em_userId r = own id;
  eo_user id r : cd_emails db !! id = Some r → is_Some (cd_users db !! em_userId r);
  eo_unique id1 id2 r1 r2 : cd_emails db !! id1 = Some r1 → cd_emails db !! id2 = Some r2 → em_email r1 = em_email r2 → id1 = id2;
  eo_primary id1 id2 r1 r2 : cd_emails db !! id1 = Some r1 → cd_emails db !! id2 = Some r2 →
    em_userId r1 = em_userId r2 → em_isPrimary r1 = true → em_isPrimary r2 = true → id1 = id2;
}.

(** The invariant speaks of the addresses and the users only. *)
Definition sameEmails (db db' : CredDB) : Prop := cd_emails db' = cd_emails db ∧ cd_users db' = cd_users db.

#[export] Instance sameEmails_preorder : PreOrder sameEmails.
Proof. split; [done|]. intros ? ? ? [? ?] [? ?]. split; congruence. Qed.

Lemma EmailsOk_same own db db' : EmailsOk own db → sameEmails db db' → EmailsOk own db'.
Proof. intros [? ? ? ?] [He Hu]. split; rewrite ?He, ?Hu; done. Qed.

Section Frames.
Context (w : CredWorld) (R : CredDB → CredDB → Prop) `{!PreOrder R}.
Context (Hmail : ∀ to subject db, R db (recordMail to subject db)).
Context (Haudit : ∀ u a d db, R db (auditCred u a d db)).

Lemma steps_tbind {E A B} (t : thread CredDB (result E A)) (k : A → thread CredDB (result E B)) :
  steps_in R t → (∀ a, steps_in R (k a)) → steps_in R (tbind t k).
Proof using. intros Ht Hk. apply steps_in_bind; [done|]. intros [a|e]; [apply Hk|done]. Qed.

Lemma sendMail_frame to subject : steps_in R (sendMail w to subject).
Proof using Hmail Haudit PreOrder0. apply steps_in_act. intros db. destruct (cw_mail w to); cbn; [apply Hmail|done]. Qed.

Lemma sendAll_frame tos subject : steps_in R (sendAll w tos subject).
Proof using Hmail Haudit PreOrder0. induction tos as [|to tos IH]; [done|]. apply steps_tbind; [apply sendMail_frame|done]. Qed.

Lemma audit_frame u a d : steps_in R (audit u a d).
Proof using Hmail Haudit PreOrder0. apply steps_in_write. auto. Qed.

Lemma notify_frame u summary : steps_in R (notifyCredentialChange w u summary).
Proof using Hmail Haudit PreOrder0.
  apply steps_in_bind; [apply steps_in_read, _|]. intros emails. apply steps_in_bind; [apply audit_frame|].
  intros _. apply sendAll_frame.
Qed.

Lemma gate_frame now u acting a : steps_in R (gatePrivilegedAction now u acting a).
Proof using Hmail Haudit PreOrder0.
  apply steps_in_bind; [apply steps_in_bind; [apply steps_in_read, _|done]|]. intros [r|]; [|done].
  apply steps_in_bind; [apply audit_frame|done].
Qed.

Lemma requirePrivileged_frame now u acting a : steps_in R (requirePrivilegedAction now u acting a).
Proof using Hmail Haudit PreOrder0. apply steps_in_bind; [apply gate_frame|done]. Qed.

Lemma mutating_frame auth : steps_in R (mutating auth).
Proof using PreOrder0.
  apply steps_tbind; [apply steps_in_read, _|]. intros session.
  apply steps_tbind; [done|]. intros _. apply steps_tbind; done.
Qed.
End Frames.

(** What the first checks of a mutation establish. *)
Definition principalOf (auth : option Session) (r : result CredError Session) : Prop :=
  ∀ session, r = Ok session → auth = Some session ∧ s_recovered session = false ∧ 2 ≤ default 0 (s_aal session).

Lemma principal_checks auth session db :
  liftError (requireSession auth (cu_flags <$> cd_users db)) = Ok session → auth = Some session.
Proof.
  intros H. destruct (requireSession auth _) as [s'|] eqn:E; [|done]. cbn in H. injection H as ->.
  by apply requireSession_live in E as [? _].
Qed.

Lemma mutating_stays (I : CredDB → Prop) auth : stays I (principalOf auth) (mutating auth).
Proof.
  apply stays_tbind, stays_read. intros db _.
  destruct (liftError (requireSession _ _)) as [session|e] eqn:E; [|by intros ? ?].
  apply principal_checks in E as ->. unfold rejectRecovered, throw_if.
  destruct (s_recovered session) eqn:Er; [by intros ? ?|]. apply stays_tbind, stays_ret.
  unfold requireAal. cbn. destruct (Z.ltb_spec (default 0 (s_aal session)) 2); [by intros ? ?|].
  cbn. intros s' [= <-]. done.
Qed.

Lemma emailRow_None email m : emailRow email m = None → ∀ id r, m !! id = Some r → em_email r ≠ email.
Proof.
  unfold emailRow. intros H id r Hr He.
  assert ((id, r) ∈ map_to_list (filter (fun e => em_email e.2 = email) m)) as Hin.
  { by apply elem_of_map_to_list, map_lookup_filter_Some. }
  destruct (map_to_list _); [by apply not_elem_of_nil in Hin|done].
Qed.

Lemma emailRow_Some email m id r : emailRow email m = Some (id, r) → m !! id = Some r ∧ em_email r = email.
Proof. unfold emailRow. intros H%head_Some_elem_of. by apply elem_of_map_to_list, map_lookup_filter_Some in H. Qed.

Section EmailInvariant.
Context (own : string → string).
Local Abbreviation I := (EmailsOk own).

(** A new row for a new address, primary only if the account has no other row. *)
Lemma EmailsOk_insert db id r : I db → own id = em_userId r → is_Some (cd_users db !! em_userId r) →
  cd_emails db !! id = None → emailRow (em_email r) (cd_emails db) = None →
  (em_isPrimary r = true → ∀ id' r', cd_emails db !! id' = Some r' → em_userId r' ≠ em_userId r) →
  I (with_emails (<[id := r]> (cd_emails db)) db).
Proof.
  intros [Ho Hu Hun Hp] Hown Huser Hid Hrow Hprim. pose proof (emailRow_None _ _ Hrow) as Hfresh. split; cbn.
  - intros id' r' [[<- <-]|[_ ?]]%lookup_insert_Some; eauto.
  - intros id' r' [[<- <-]|[_ ?]]%lookup_insert_Some; eauto.
  - intros i1 i2 r1 r2 [[<- <-]|[? ?]]%lookup_insert_Some [[<- <-]|[? ?]]%lookup_insert_Some He; [done| | |by eapply Hun];
      exfalso; eapply Hfresh; eauto; congruence.
  - intros i1 i2 r1 r2 [[<- <-]|[? ?]]%lookup_insert_Some [[<- <-]|[? ?]]%lookup_insert_Some He P1 P2;
      [done| | |by eapply Hp]; exfalso; eapply Hprim; eauto; congruence.
Qed.

(** Fewer rows. *)
Lemma EmailsOk_sub db m : I db → m ⊆ cd_emails db → I (with_emails m db).
Proof.
  intros [Ho Hu Hun Hp] Hm.
  assert (∀ id r, m !! id = Some r → cd_emails db !! id = Some r) as Hw by (intros; by eapply lookup_weaken).
  split; cbn; eauto.
Qed.

(** The same rows with other verification dates. *)
Lemma EmailsOk_fields db id r r' : I db → cd_emails db !! id = Some r →
  em_userId r' = em_userId r → em_email r' = em_email r → em_isPrimary r' = em_isPrimary r →
  I (with_emails (<[id := r']> (cd_emails db)) db).
Proof.
  intros [Ho Hu Hun Hp] Hid Eu Ee Ep.
  assert (∀ id0 x, <[id := r']> (cd_emails db) !! id0 = Some x → ∃ y, cd_emails db !! id0 = Some y ∧
    em_userId x = em_userId y ∧ em_email x = em_email y ∧ em_isPrimary x = em_isPrimary y) as Hback.
  { intros id0 x [[<- <-]|[? ?]]%lookup_insert_Some; eauto. }
  split; cbn.
  - intros id0 x (y & Hy & E1 & _)%Hback. rewrite E1. eauto.
  - intros id0 x (y & Hy & E1 & _)%Hback. rewrite E1. eauto.
  - intros i1 i2 r1 r2 (y1 & ? & ? & ? & ?)%Hback (y2 & ? & ? & ? & ?)%Hback He. eapply Hun; [done..|congruence].
  - intros i1 i2 r1 r2 (y1 & ? & ? & ? & ?)%Hback (y2 & ? & ? & ? & ?)%Hback He P1 P2. eapply Hp; [done..| | |]; congruence.
Qed.

Lemma clearPrimary_lookup u m id r : clearPrimary u m !! id = Some r →
  ∃ r0, m !! id = Some r0 ∧ em_userId r = em_userId r0 ∧ em_email r = em_email r0 ∧
    em_isPrimary r = (em_isPrimary r0 && negb (bool_decide (em_userId r0 = u))).
Proof using.
  unfold clearPrimary. rewrite lookup_fmap. intros (r0 & Hr & ->)%fmap_Some. exists r0. split; [done|].
  case_decide as Hd; cbn; split_and!; try done.
  - destruct Hd as [? ->]. by rewrite bool_decide_true.
  - destruct (em_isPrimary r0) eqn:Ep; [|done]. rewrite bool_decide_false; [done|]. intros ?. by apply Hd.
Qed.

Lemma promoteEmail_ok u id email db : I db → own id = u → I (promoteEmail u id email db).2.
Proof.
  intros [Ho Hu Hun Hp] Hown. unfold promoteEmail. destruct (clearPrimary u (cd_emails db) !! id) as [r|] eqn:Er; [|by split].
  destruct (cd_users db !! u) as [x|] eqn:Ex; [|by split]. cbn [snd].
  set (m := <[id := setPrimaryFlag true r]> (clearPrimary u (cd_emails db))).
  assert (∀ id0 y, m !! id0 = Some y → ∃ y0, cd_emails db !! id0 = Some y0 ∧ em_userId y = em_userId y0 ∧
    em_email y = em_email y0 ∧ (em_isPrimary y = true → id0 = id ∨ em_isPrimary y0 = true ∧ em_userId y0 ≠ u)) as Hback.
  { intros id0 y [[<- <-]|[? (y0 & ? & ? & ? & Ep)%clearPrimary_lookup]]%lookup_insert_Some.
    - apply clearPrimary_lookup in Er as (r0 & ? & ? & ? & _). exists r0. split_and!; auto.
    - exists y0. split_and!; [done..|]. rewrite Ep. intros [? Hb%negb_true_iff]%andb_true_iff. right. split; [done|].
      by apply bool_decide_eq_false in Hb. }
  split; cbn.
  - intros i y (y0 & ? & E1 & _)%Hback. rewrite E1. eauto.
  - intros i y (y0 & Hy & E1 & _)%Hback. rewrite E1. destruct (decide (em_userId y0 = u)) as [->|].
    + rewrite lookup_insert_eq. eauto.
    + rewrite lookup_insert_ne by done. eauto.
  - intros i1 i2 y1 y2 (z1 & ? & ? & ? & _)%Hback (z2 & ? & ? & ? & _)%Hback He. eapply Hun; [done..|congruence].
  - intros i1 i2 y1 y2 (z1 & Hz1 & U1 & ? & P1)%Hback (z2 & Hz2 & U2 & ? & P2)%Hback He Q1 Q2.
    pose proof (Ho _ _ Hz1). pose proof (Ho _ _ Hz2).
    destruct (P1 Q1) as [->|[? ?]], (P2 Q2) as [->|[? ?]]; [done|congruence..|].
    eapply Hp; [exact Hz1|exact Hz2|congruence|done|done].
Qed.

Lemma createEmailUserTx_ok now u id email db : I db → own id = u → I (createEmailUserTx now u id email db).2.
Proof.
  intros HI Hown. unfold createEmailUserTx. set (m := filter _ (cd_emails db)).
  destruct (cd_users db !! u) eqn:Eu; [done|]. destruct (m !! id) eqn:Ei; [done|].
  destruct (emailRow email m) eqn:Er; [done|]. cbn [snd].
  set (db1 := with_cred_users (<[u := newUser email]> (cd_users db)) (with_emails m db)).
  assert (I db1) as HI1.
  { pose proof (EmailsOk_sub db m HI (map_filter_subseteq _ _)) as [Ho Hu Hun Hp]. split; cbn in *; [eauto| |eauto..].
    intros id0 r Hr. destruct (decide (em_userId r = u)) as [->|]; [rewrite lookup_insert_eq; eauto|].
    rewrite lookup_insert_ne by done. eauto. }
  assert (m = cd_emails db1) as Em by done.
  apply (EmailsOk_insert db1); cbn; [done|done| |done|done|].
  - rewrite lookup_insert_eq. eauto.
  - intros _ id' r' Hr' He. pose proof (eo_user _ _ (EmailsOk_sub db m HI (map_filter_subseteq _ _)) id' r' Hr') as [y Hy].
    cbn in Hy. congruence.
Qed.
End EmailInvariant.

(** Mails and audit rows are outside the frame. *)
Ltac frame_side := intros; first [apply _ | split; reflexivity].

Section Handlers.
Context (own : string → string) (w : CredWorld) (now : Z).
Local Abbreviation I := (EmailsOk own).

(** A handler that leaves addresses and users alone. *)
Lemma framed {A} (t : thread CredDB A) : steps_in sameEmails t → stays I (fun _ => True) t.
Proof. apply stays_frame, EmailsOk_same. Qed.

Lemma notify_stays u summary : stays I (fun _ => True) (notifyCredentialChange w u summary).
Proof. apply framed, notify_frame; frame_side. Qed.

(** The rest of a handler after a framed step. *)
Lemma framed_tbind {E A B} (t : thread CredDB (result E A)) (k : A → thread CredDB (result E B)) :
  steps_in sameEmails t → (∀ a, stays I (fun _ => True) (k a)) → stays I (fun _ => True) (tbind t k).
Proof. intros Ht Hk. apply stays_tbind. eapply stays_impl; [|by apply framed]. intros [a|e]; [|done]. intros _. apply Hk. Qed.

Lemma framed_bind {A B} (t : thread CredDB A) (k : A → thread CredDB B) :
  steps_in sameEmails t → (∀ a, stays I (fun _ => True) (k a)) → stays I (fun _ => True) (t ≫= k).
Proof. intros Ht Hk. apply stays_bind. eapply stays_impl; [|by apply framed]. intros a _. apply Hk. Qed.

Lemma attempt_tbind {E A B} (r : result E A) (k : A → thread CredDB (result E B)) :
  (∀ a, r = Ok a → stays I (fun _ => True) (k a)) → stays I (fun _ => True) (tbind (attempt r) k).
Proof. intros Hk. apply stays_tbind, stays_ret. destruct r; [by apply Hk|done]. Qed.

(** An operation that keeps the addresses in order, then the rest. *)
Lemma act_tbind {E A B} (f : CredDB → result E A * CredDB) (k : A → thread CredDB (result E B)) :
  (∀ db, I db → I (f db).2) → (∀ a, stays I (fun _ => True) (k a)) → stays I (fun _ => True) (tbind (act f) k).
Proof.
  intros Hf Hk. apply stays_tbind, stays_act. intros db Hdb. split; [by apply Hf|]. destruct (f db).1; [apply Hk|done].
Qed.

(** A mutation on behalf of the request's session. *)
Lemma mutating_tbind {B} auth (k : Session → thread CredDB (result CredError B)) :
  (∀ session, auth = Some session → stays I (fun _ => True) (k session)) → stays I (fun _ => True) (tbind (mutating auth) k).
Proof.
  intros Hk. apply stays_tbind. eapply stays_impl; [|apply mutating_stays]. intros [session|e] Hp; [|done].
  apply Hk. by destruct (Hp session eq_refl).
Qed.

Lemma addEmail_stays auth id jti email : idsRespect own (AddEmail auth id jti email) →
  stays I (fun _ => True) (addEmail w now auth id jti email).
Proof.
  intros Hids. apply mutating_tbind. intros session ->. cbn in Hids. apply attempt_tbind. intros e _. apply act_tbind.
  - intros db HI. unfold createEmailRow. cbn [em_email em_userId].
    destruct (cd_emails db !! id) eqn:E1; [done|]. destruct (emailRow e (cd_emails db)) eqn:E2; [done|].
    destruct (cd_users db !! s_userId session) eqn:E3; [|done]. apply EmailsOk_insert; cbn; eauto.
  - intros _. apply framed_bind.
    + apply steps_tbind; [|intros; apply sendMail_frame; frame_side]. apply steps_tbind; [|done].
      apply steps_in_act. intros db. unfold createCredMarker. case_match; by split.
    + intros [x|err].
      * apply framed_tbind; [apply notify_frame; frame_side|done].
      * apply stays_bind, stays_write; [|done]. intros db HI. apply EmailsOk_sub; [done|apply delete_subseteq].
Qed.

Lemma verifyEmail_stays token : stays I (fun _ => True) (verifyEmail w now token).
Proof.
  unfold verifyEmail. case_bool_decide; [done|]. apply framed_bind.
  - unfold consumeEmailVerifyToken. destruct (cw_verifyToken w now token) as [[id jti]|]; [|done].
    apply steps_in_bind; [|done]. apply steps_in_act. intros db. unfold deleteCredMarker. case_match; by split.
  - intros [id|]; [|done]. apply framed_bind; [apply steps_in_read, _|]. intros [row|]; [|done].
    case_bool_decide; [|done]. apply act_tbind.
    + intros db HI. unfold setVerified. destruct (cd_emails db !! id) eqn:E; [|done]. by eapply EmailsOk_fields.
    + intros _. apply framed_bind; [apply audit_frame; frame_side|done].
Qed.

Lemma removeEmail_stays auth id : stays I (fun _ => True) (removeEmail w auth id).
Proof.
  apply mutating_tbind. intros session _. apply framed_tbind; [apply steps_in_read, _|]. intros target.
  apply framed_bind; [apply steps_in_read, _|]. intros others. apply attempt_tbind. intros _ _. apply act_tbind.
  - intros db HI. unfold deleteEmailRow. destruct (cd_emails db !! id); [|done]. apply EmailsOk_sub; [done|apply delete_subseteq].
  - intros _. apply notify_stays.
Qed.

Lemma setPrimaryEmail_stays auth id : stays I (fun _ => True) (setPrimaryEmail w now auth id).
Proof.
  apply mutating_tbind. intros session _. apply framed_tbind; [apply requirePrivileged_frame; frame_side|]. intros _.
  apply stays_tbind, stays_read. intros db HI. unfold ownEmail.
  destruct (cd_emails db !! id) as [r|] eqn:E; [|done]. case_bool_decide as Hu; [|done].
  apply attempt_tbind. intros _ _. apply act_tbind; [|intros _; apply notify_stays].
  intros db' HI'. apply promoteEmail_ok; [done|]. rewrite <- Hu. symmetry. exact (eo_owner _ _ HI _ _ E).
Qed.

Lemma createAuthenticator_stays u c label : stays I (fun _ => True) (createAuthenticator w now u c label).
Proof.
  apply framed_tbind.
  - apply steps_in_act. intros db. unfold insertPasskeyWithLifecycle. case_match; [done|]. case_match; by split.
  - intros n. apply framed_bind; [apply notify_frame; frame_side|]. intros [?|?]; [done|]. apply framed_bind; [apply audit_frame; frame_side|done].
Qed.

Lemma removePasskey_stays auth c : stays I (fun _ => True) (removePasskey w auth c).
Proof.
  apply mutating_tbind. intros session _. apply framed_tbind; [apply steps_in_read, _|]. intros _.
  apply framed_bind; [apply steps_in_read, _|]. intros total. apply attempt_tbind. intros _ _. apply framed_tbind.
  - apply steps_in_act. intros db. unfold deletePasskey. case_match; by split.
  - intros _. apply notify_stays.
Qed.

Lemma signIn_stays u id email : own id = u → stays I (fun _ => True) (signInByEmail now u id email).
Proof.
  intros Hown. apply framed_bind.
  - apply steps_in_bind; [apply steps_in_read, _|]. intros [[? ?]|]; [done|]. apply steps_in_bind; [apply steps_in_read, _|done].
  - intros [x|]; [done|]. apply stays_act. intros db HI. split; [by apply createEmailUserTx_ok|done].
Qed.

Lemma stays_then_ret {A B} (t : thread CredDB A) (f : A → B) :
  stays I (fun _ => True) t → stays I (fun _ => True) (a ← t; mret (f a)).
Proof. intros Ht. apply stays_bind. by eapply stays_impl; [|exact Ht]. Qed.

Lemma handleCred_stays rq : idsRespect own rq → stays I (fun _ => True) (handleCred w now rq).
Proof.
  intros Hids. destruct rq as [auth id jti email|token|auth id|auth id|u c label|auth c|u id email]; cbn [handleCred];
    apply (stays_then_ret _ (fun _ => tt)).
  - by apply stays_then_ret, addEmail_stays.
  - apply verifyEmail_stays.
  - apply stays_then_ret, removeEmail_stays.
  - apply stays_then_ret, setPrimaryEmail_stays.
  - apply createAuthenticator_stays.
  - apply stays_then_ret, removePasskey_stays.
  - by apply signIn_stays.
Qed.
End Handlers.


(** ** Passkeys, one request at a time *)

(** Requests served one after the other, each at its own time. *)
Definition serveCreds (w : CredWorld) (rqs : list (Z * CredRequest)) (db : CredDB) : CredDB :=
  foldl (fun db rq => (run_solo (handleCred w rq.1 rq.2) db).2) db rqs.

(** A passkey held for the full window from its enrolment. *)
Definition heldPasskey (p : PasskeyCred) : Prop :=
  pk_status p = "quarantined" ∧ pk_quarantinedUntil p = Some (pk_addedAt p + CREDENTIAL_QUARANTINE_MS).

(** The account has a passkey; those it did not have in [db0] are held. *)
Definition noNewBootstrap (u : string) (db0 db : CredDB) : Prop :=
  (∃ c p, cd_passkeys db !! c = Some p ∧ pk_userId p = u) ∧
  (∀ c p, cd_passkeys db !! c = Some p → pk_userId p = u → cd_passkeys db0 !! c = Some p ∨ heldPasskey p).

Definition samePasskeys (db db' : CredDB) : Prop := cd_passkeys db' = cd_passkeys db.

#[export] Instance samePasskeys_preorder : PreOrder samePasskeys.
Proof. split; [done|]. unfold samePasskeys. intros ? ? ? H1 H2. congruence. Qed.

Lemma samePasskeys_inv u db0 db db' : samePasskeys db db' → noNewBootstrap u db0 db → noNewBootstrap u db0 db'.
Proof. unfold samePasskeys, noNewBootstrap. by intros ->. Qed.

Lemma passkeysOf_spec u m c p : (c, p) ∈ passkeysOf u m ↔ m !! c = Some p ∧ pk_userId p = u.
Proof. unfold passkeysOf. by rewrite elem_of_map_to_list, map_lookup_filter_Some. Qed.

(** Deleting one of at least two passkeys leaves one. *)
Lemma passkeys_left u c m : (2 ≤ length (passkeysOf u m))%nat → ∃ c' p, delete c m !! c' = Some p ∧ pk_userId p = u.
Proof.
  intros Hlen. destruct (passkeysOf u (delete c m)) as [|[c' p] l] eqn:E.
  - exfalso. apply (f_equal length) in E. unfold passkeysOf in *. rewrite length_map_to_list in Hlen, E.
    rewrite map_filter_delete, map_size_delete in E. cbn in E. destruct (_ !! c) in E; unfold id in E; lia.
  - exists c', p. apply passkeysOf_spec. rewrite E. left.
Qed.

Section PasskeyFrames.
Context (w : CredWorld) (now : Z).
Local Abbreviation R := samePasskeys.

Lemma pk_notify u summary : steps_in R (notifyCredentialChange w u summary).
Proof. apply notify_frame; intros; first [apply _|done]. Qed.

Lemma pk_mutating_tbind {B} auth (k : Session → thread CredDB (result CredError B)) :
  (∀ s, steps_in R (k s)) → steps_in R (tbind (mutating auth) k).
Proof. intros Hk. apply steps_tbind; [apply mutating_frame, _|done]. Qed.

Lemma addEmail_pk auth id jti email : steps_in R (addEmail w now auth id jti email).
Proof.
  apply pk_mutating_tbind. intros s. apply steps_tbind; [done|]. intros e.
  apply steps_tbind; [apply steps_in_act; intros db; unfold createEmailRow; by repeat case_match|]. intros _.
  apply steps_in_bind.
  - apply steps_tbind; [|intros; apply sendMail_frame; intros; first [apply _|done]]. apply steps_tbind; [|done].
    apply steps_in_act. intros db. unfold createCredMarker. by case_match.
  - intros [x|err]; [apply steps_tbind; [apply pk_notify|done]|]. apply steps_in_bind; [by apply steps_in_write|done].
Qed.

Lemma verifyEmail_pk token : steps_in R (verifyEmail w now token).
Proof.
  unfold verifyEmail. case_bool_decide; [done|]. apply steps_in_bind.
  - unfold consumeEmailVerifyToken. destruct (cw_verifyToken w now token) as [[id jti]|]; [|done].
    apply steps_in_bind; [|done]. apply steps_in_act. intros db. unfold deleteCredMarker. by case_match.
  - intros [id|]; [|done]. apply steps_in_bind; [apply steps_in_read, _|]. intros [row|]; [|done].
    case_bool_decide; [|done]. apply steps_tbind; [apply steps_in_act; intros db; unfold setVerified; by case_match|].
    intros _. apply steps_in_bind; [by apply steps_in_write|done].
Qed.

Lemma removeEmail_pk auth id : steps_in R (removeEmail w auth id).
Proof.
  apply pk_mutating_tbind. intros s. apply steps_tbind; [apply steps_in_read, _|]. intros target.
  apply steps_in_bind; [apply steps_in_read, _|]. intros n. apply steps_tbind; [done|]. intros _.
  apply steps_tbind; [apply steps_in_act; intros db; unfold deleteEmailRow; by case_match|]. intros _. apply pk_notify.
Qed.

Lemma setPrimaryEmail_pk auth id : steps_in R (setPrimaryEmail w now auth id).
Proof.
  apply pk_mutating_tbind. intros s. apply steps_tbind; [apply requirePrivileged_frame; intros; first [apply _|done]|]. intros _.
  apply steps_tbind; [apply steps_in_read, _|]. intros target. apply steps_tbind; [done|]. intros _.
  apply steps_tbind; [apply steps_in_act; intros db; unfold promoteEmail; by repeat case_match|]. intros _. apply pk_notify.
Qed.

Lemma signIn_pk u id email : steps_in R (signInByEmail now u id email).
Proof.
  apply steps_in_bind.
  - apply steps_in_bind; [apply steps_in_read, _|]. intros [[? ?]|]; [done|]. apply steps_in_bind; [apply steps_in_read, _|done].
  - intros [x|]; [done|]. apply steps_in_act. intros db. unfold createEmailUserTx. by repeat case_match.
Qed.

(** Reads only. *)
Lemma mutating_pure auth db : (run_solo (mutating auth) db).2 = db.
Proof. symmetry. apply (steps_in_run (fun x y : CredDB => x = y)). apply mutating_frame. apply _. Qed.

(** After an operation that keeps the property, a framed rest keeps it too. *)
Lemma solo_then_framed {A B} (t : thread CredDB (result CredError A)) (k : A → thread CredDB (result CredError B)) u db0 db :
  noNewBootstrap u db0 (run_solo t db).2 → (∀ a, steps_in R (k a)) → noNewBootstrap u db0 (run_solo (tbind t k) db).2.
Proof.
  intros Hp Hk. rewrite run_solo_tbind. destruct (run_solo t db).1 as [a|e]; [|done].
  eapply samePasskeys_inv; [|exact Hp]. apply (steps_in_run samePasskeys), Hk.
Qed.

Lemma insertPasskey_inv u db0 u' c label db :
  noNewBootstrap u db0 db → noNewBootstrap u db0 (insertPasskeyWithLifecycle now u' c label db).2.
Proof.
  intros [(c0 & p0 & H0 & Hu0) Hall]. unfold insertPasskeyWithLifecycle. destruct (cd_passkeys db !! c) eqn:Ec.
  { split; [eauto|done]. }
  destruct (lifecycleForNewPasskey _ now) as [status until] eqn:El. split; cbn.
  - exists c0, p0. rewrite lookup_insert_ne by congruence. done.
  - intros c1 p1 [[<- <-]|[? ?]]%lookup_insert_Some Hu1; [|by eapply Hall]. right. cbn in Hu1.
    unfold lifecycleForNewPasskey in El. destruct (length _) eqn:En in El; cbn in El; simplify_eq/=; [|done].
    exfalso. apply length_zero_iff_nil in En.
    assert ((c0, p0) ∈ passkeysOf (pk_userId p0) (cd_passkeys db)) as Hin by (by apply passkeysOf_spec).
    rewrite En in Hin. by apply not_elem_of_nil in Hin.
Qed.

Lemma createAuthenticator_inv u db0 u' c label db :
  noNewBootstrap u db0 db → noNewBootstrap u db0 (run_solo (createAuthenticator w now u' c label) db).2.
Proof.
  intros HI. apply solo_then_framed; [by apply insertPasskey_inv|]. intros n.
  apply steps_in_bind; [apply pk_notify|]. intros [?|?]; [done|]. apply steps_in_bind; [by apply steps_in_write|done].
Qed.

Lemma deletePasskey_inv u db0 u' c db : (2 ≤ length (passkeysOf u' (cd_passkeys db)))%nat →
  noNewBootstrap u db0 db → noNewBootstrap u db0 (deletePasskey u' c db).2.
Proof.
  intros Hlen [(c0 & p0 & H0 & Hu0) Hall]. unfold deletePasskey, ownPasskey.
  destruct (cd_passkeys db !! c) as [p|] eqn:Ec; cbn; [|split; [eauto|done]].
  case_bool_decide as Hu; cbn; [|split; [eauto|done]]. split; cbn.
  - destruct (decide (u = u')) as [->|]; [by apply passkeys_left|].
    exists c0, p0. rewrite lookup_delete_ne by congruence. done.
  - intros c1 p1 [_ ?]%lookup_delete_Some. by eapply Hall.
Qed.

Lemma removePasskey_inv u db0 auth c db :
  noNewBootstrap u db0 db → noNewBootstrap u db0 (run_solo (removePasskey w auth c) db).2.
Proof.
  intros HI. unfold removePasskey. rewrite run_solo_tbind, mutating_pure.
  destruct (run_solo (mutating auth) db).1 as [session|e]; [|done].
  rewrite run_solo_tbind. cbn [run_solo read act fst snd].
  destruct (ownPasskey (s_userId session) c db); [|done]. rewrite run_solo_read, run_solo_tbind.
  cbn [run_solo attempt mret thread_ret fst snd]. unfold throw_if.
  destruct (Nat.leb_spec (length (passkeysOf (s_userId session) (cd_passkeys db))) 1); [done|].
  apply solo_then_framed; [|intros _; apply pk_notify]. cbn [run_solo act fst snd]. by apply deletePasskey_inv.
Qed.

Lemma handleCred_bootstrap u db0 rq db : noNewBootstrap u db0 db → noNewBootstrap u db0 (run_solo (handleCred w now rq) db).2.
Proof.
  intros HI. assert (∀ A (t : thread CredDB A) B (f : A → B), (run_solo (a ← t; mret (f a)) db).2 = (run_solo t db).2) as Hret.
  { intros. by rewrite run_solo_bind. }
  destruct rq as [auth id jti email|token|auth id|auth id|u' c label|auth c|u' id email]; cbn [handleCred];
    rewrite (Hret _ _ _ (fun _ => tt)).
  - unfold addEmailAction. rewrite Hret. eapply samePasskeys_inv; [|done]. apply (steps_in_run samePasskeys), addEmail_pk.
  - eapply samePasskeys_inv; [|done]. apply (steps_in_run samePasskeys), verifyEmail_pk.
  - unfold removeEmailAction, run. rewrite Hret. eapply samePasskeys_inv; [|done]. apply (steps_in_run samePasskeys), removeEmail_pk.
  - unfold setPrimaryEmailAction, run. rewrite Hret. eapply samePasskeys_inv; [|done]. apply (steps_in_run samePasskeys), setPrimaryEmail_pk.
  - by apply createAuthenticator_inv.
  - unfold removePasskeyAction, run. rewrite Hret. by apply removePasskey_inv.
  - eapply samePasskeys_inv; [|done]. apply (steps_in_run samePasskeys), signIn_pk.
Qed.
End PasskeyFrames.

(** When requests do not overlap, an account that has a passkey keeps one for ever, and
    every passkey added to it since is held for the full 72 hours from its enrolment: it
    cannot pass as the acting passkey of a privileged action before that. *)
Theorem no_second_bootstrap w rqs db u c p :
  cd_passkeys db !! c = Some p → pk_userId p = u →
  let db' := serveCreds w rqs db in
  gateRows u db' ≠ [] ∧
  ∀ c' p', cd_passkeys db' !! c' = Some p' → pk_userId p' = u → cd_passkeys db !! c' = Some p' ∨
    heldPasskey p' ∧ ∀ now, now < pk_addedAt p' + CREDENTIAL_QUARANTINE_MS →
      effectiveCredentialStatus (pk_status p') (pk_quarantinedUntil p') now = quarantined.
Proof.
  intros Hc Hu. assert (noNewBootstrap u db (serveCreds w rqs db)) as [(c0 & p0 & H0 & Hu0) Hall].
  { unfold serveCreds. assert (noNewBootstrap u db db) as HI by (split; [eauto|auto]). revert HI. generalize db at 2 4.
    induction rqs as [|rq rqs IH]; intros db1 HI; cbn; [done|]. by apply IH, handleCred_bootstrap. }
  cbn zeta. split.
  - assert ((c0, p0) ∈ passkeysOf u (cd_passkeys (serveCreds w rqs db))) as Hin by (by apply passkeysOf_spec).
    unfold gateRows. destruct (passkeysOf _ _); [by apply not_elem_of_nil in Hin|done].
  - intros c' p' Hc' Hu'. destruct (Hall c' p' Hc' Hu') as [?|[Hs Hq]]; [by left|right]. split; [by split|].
    intros now Hnow. rewrite Hs, Hq. unfold effectiveCredentialStatus. rewrite bool_decide_true by done. cbn.
    destruct (Z.leb_spec (pk_addedAt p' + CREDENTIAL_QUARANTINE_MS) now); [lia|done].
Qed.

(** ** Addresses and sign-in *)

Lemma mutating_Ok auth db session : (run_solo (mutating auth) db).1 = Ok session →
  auth = Some session ∧ live_session (cu_flags <$> cd_users db) session ∧ s_recovered session = false ∧
  2 ≤ default 0 (s_aal session).
Proof.
  unfold mutating. rewrite run_solo_tbind. cbn [run_solo requirePrincipal read act fst snd].
  destruct (requireSession auth (cu_flags <$> cd_users db)) as [s|] eqn:E; cbn [liftError]; [|done].
  apply requireSession_live in E as [-> Hl]. rewrite run_solo_tbind. cbn [run_solo attempt mret thread_ret fst snd].
  unfold rejectRecovered, throw_if. destruct (s_recovered s) eqn:Er; [done|]. rewrite run_solo_tbind.
  cbn [run_solo attempt mret thread_ret fst snd]. unfold requireAal. cbn [mbind option_bind].
  destruct (Z.ltb_spec (default 0 (s_aal s)) 2); [done|]. cbn. by intros [= <-].
Qed.

Lemma createEmailUserTx_spec now u id email db au db' :
  run_solo (createEmailUser now u id email) db = (Ok au, db') →
  au_id au = u ∧ cd_users db !! u = None ∧
  (∃ r, cd_emails db' !! id = Some r ∧ em_userId r = u ∧ em_email r = email ∧ em_verifiedAt r = Some now ∧ em_isPrimary r = true) ∧
  ∀ i r, i ≠ id → cd_emails db' !! i = Some r → cd_emails db !! i = Some r ∧ em_email r ≠ email.
Proof.
  cbn. unfold createEmailUserTx. set (m := filter _ (cd_emails db)).
  destruct (cd_users db !! u) eqn:Eu; [done|]. destruct (m !! id); [done|].
  destruct (emailRow email m) eqn:Er; [done|]. cbn. intros [= <- <-]. cbn. split_and!; [done..| |].
  - rewrite lookup_insert_eq. by eexists.
  - intros i r Hne. rewrite lookup_insert_ne by done. intros Hi. split; [|by eapply emailRow_None].
    by apply map_lookup_filter_Some in Hi as [? _].
Qed.

(** A removal deletes the row and nothing else of the addresses and the users. *)
Lemma removeEmail_Ok w auth id db db' : run_solo (removeEmail w auth id) db = (Ok tt, db') →
  cd_emails db' = delete id (cd_emails db) ∧ cd_users db' = cd_users db.
Proof.
  intros H. unfold removeEmail in H. rewrite run_solo_tbind, mutating_pure in H.
  destruct (run_solo (mutating auth) db).1 as [session|]; [|done].
  rewrite run_solo_tbind in H. cbn [run_solo read act fst snd] in H.
  destruct (ownEmail _ id db) as [r|]; [|done]. rewrite run_solo_read, run_solo_tbind in H.
  cbn [run_solo attempt mret thread_ret fst snd] in H. unfold throw_if in H. destruct (_ && _); [done|].
  rewrite run_solo_tbind in H. cbn [run_solo act fst snd] in H. unfold deleteEmailRow in H.
  destruct (cd_emails db !! id); [|done]. cbn [fst snd] in H.
  match type of H with run_solo ?t ?d = _ => assert (sameEmails d db') as [He Hus] end.
  { replace db' with (snd (Ok tt : result CredError unit, db')) by done. rewrite <- H. apply (steps_in_run sameEmails). apply notify_frame; frame_side. }
  done.
Qed.

(** An address that becomes primary is the principal's own and verified; the principal's
    session is live, at AAL2 and not a recovery session, and the account and the acting
    passkey pass the quarantine gate; afterwards the address is the account's only primary
    one and the cached address of the account. *)
Theorem set_primary_sound w now auth id db db' :
  run_solo (setPrimaryEmail w now auth id) db = (Ok tt, db') →
  ∃ session r u, auth = Some session ∧ live_session (cu_flags <$> cd_users db) session ∧
    s_recovered session = false ∧ 2 ≤ default 0 (s_aal session) ∧
    evaluatePrivilegedGate (gateRows (s_userId session) db) (s_cred session) now = None ∧
    cd_emails db !! id = Some r ∧ em_userId r = s_userId session ∧ em_verifiedAt r ≠ None ∧
    cd_users db' !! s_userId session = Some u ∧ cu_email u = Some (em_email r) ∧
    ∀ id' r', cd_emails db' !! id' = Some r' → em_userId r' = s_userId session → em_isPrimary r' = true ↔ id' = id.
Proof.
  intros H. unfold setPrimaryEmail in H. rewrite run_solo_tbind, mutating_pure in H.
  destruct (run_solo (mutating auth) db).1 as [session|] eqn:Em; [|done].
  apply mutating_Ok in Em as (Ha & Hl & Hr & Haal). rewrite run_solo_tbind in H.
  unfold requirePrivilegedAction, gatePrivilegedAction, evaluateForUser in H.
  rewrite !run_solo_bind in H. cbn [run_solo read act fst snd mret thread_ret] in H.
  destruct (evaluatePrivilegedGate _ _ now) as [refusal|] eqn:Eg; [done|]. cbn [run_solo mret thread_ret fst snd] in H.
  rewrite run_solo_tbind in H. cbn [run_solo read act fst snd] in H. unfold ownEmail in H.
  destruct (cd_emails db !! id) as [r|] eqn:Er; [|done]. case_bool_decide as Hu; [|done].
  rewrite run_solo_tbind in H. cbn [run_solo attempt mret thread_ret fst snd] in H. unfold throw_if in H.
  case_bool_decide as Hv; [done|]. rewrite run_solo_tbind in H. cbn [run_solo act fst snd] in H.
  unfold promoteEmail in H. destruct (clearPrimary _ _ !! id) as [r1|] eqn:E1; [|done].
  destruct (cd_users db !! s_userId session) as [x|] eqn:Ex; [|done]. cbn [fst snd] in H.
  match type of H with run_solo ?t ?d = _ => assert (sameEmails d db') as [He Hus] end.
  { replace db' with (snd (Ok tt : result CredError unit, db')) by done. rewrite <- H. apply (steps_in_run sameEmails). apply notify_frame; frame_side. }
  exists session, r. rewrite He, Hus. cbn. rewrite lookup_insert_eq. eexists. split_and!; try done.
  intros id' r' Hr' Hu'. apply lookup_insert_Some in Hr' as [[<- <-]|[Hne (r0 & ? & E2 & ? & E3)%clearPrimary_lookup]].
  - done.
  - split; [|congruence]. rewrite E3, bool_decide_true by congruence. rewrite andb_false_r. done.
Qed.

Lemma verifiedOwner_Some email db owner x : verifiedOwner email db = Some (owner, x) →
  ∃ i r, cd_emails db !! i = Some r ∧ em_email r = email ∧ em_verifiedAt r ≠ None ∧ em_userId r = owner.
Proof.
  unfold verifiedOwner. destruct (emailRow email (cd_emails db)) as [[i r]|] eqn:Er; cbn; [|done].
  apply emailRow_Some in Er as [Hi He]. case_bool_decide; [done|].
  destruct (cd_users db !! em_userId r); cbn; [|done]. intros [= <- <-]. eauto 6.
Qed.

(** A sign-in with a proven address reaches an account only through a verified row for
    the address or an account whose cached address it is; otherwise a new account is made,
    with the address verified and primary, and the unverified claims of others are dropped. *)
Theorem signin_needs_proof now u id email db au db' :
  run_solo (signInByEmail now u id email) db = (Ok au, db') →
  (db' = db ∧ ((∃ i r, cd_emails db !! i = Some r ∧ em_email r = email ∧ em_verifiedAt r ≠ None ∧ em_userId r = au_id au) ∨
               (∃ x, cd_users db !! au_id au = Some x ∧ cu_email x = Some email))) ∨
  (au_id au = u ∧ cd_users db !! u = None ∧
   (∃ r, cd_emails db' !! id = Some r ∧ em_userId r = u ∧ em_email r = email ∧ em_verifiedAt r = Some now ∧ em_isPrimary r = true) ∧
   ∀ i r, i ≠ id → cd_emails db' !! i = Some r → cd_emails db !! i = Some r ∧ em_email r ≠ email).
Proof.
  unfold signInByEmail, getUserByEmailIdentity. rewrite run_solo_bind, run_solo_read.
  destruct (verifiedOwner email db) as [[owner x]|] eqn:Eo.
  - cbn. intros [= <- <-]. left. split; [done|]. left. by apply verifiedOwner_Some in Eo.
  - rewrite run_solo_read. destruct (cachedUser email db) as [[y cu]|] eqn:Ec; cbn.
    + intros [= <- <-]. left. split; [done|]. right. cbn.
      apply head_Some_elem_of, elem_of_map_to_list, map_lookup_filter_Some in Ec as [? ?]. eauto.
    + intros H. apply createEmailUserTx_spec in H. by right.
Qed.

(** an account's primary address that is removed goes on signing the account in: the
    row is gone, but the cached address it was copied to is not cleared, and the sign-in
    falls back to it. *)
Theorem removed_primary_still_signs_in w now auth id db db' r x userId' emailId' :
  run_solo (removeEmail w auth id) db = (Ok tt, db') →
  cd_emails db !! id = Some r → cd_users db !! em_userId r = Some x → cu_email x = Some (em_email r) →
  (∀ i ri, cd_emails db !! i = Some ri → em_email ri = em_email r → i = id) →
  (∀ u y, cd_users db !! u = Some y → cu_email y = Some (em_email r) → u = em_userId r) →
  cd_emails db' !! id = None ∧
  ∃ au, run_solo (signInByEmail now userId' emailId' (em_email r)) db' = (Ok au, db') ∧ au_id au = em_userId r.
Proof.
  intros H Hr Hx Hcache Huniq Hone.
  assert (cd_emails db' = delete id (cd_emails db) ∧ cd_users db' = cd_users db) as [He Hus] by (by eapply removeEmail_Ok).
  split; [by rewrite He, lookup_delete_eq|].
  unfold signInByEmail, getUserByEmailIdentity. rewrite run_solo_bind, run_solo_read. unfold verifiedOwner.
  destruct (emailRow (em_email r) (cd_emails db')) as [[i ri]|] eqn:Er.
  { apply emailRow_Some in Er as [Hi Hei]. rewrite He in Hi. apply lookup_delete_Some in Hi as [Hne Hi].
    destruct Hne. symmetry. by eapply Huniq. }
  cbn [mbind option_bind]. rewrite run_solo_read.
  assert (cachedUser (em_email r) db' = Some (em_userId r, x)) as ->.
  { unfold cachedUser. rewrite Hus.
    assert ((em_userId r, x) ∈ map_to_list (filter (fun e => cu_email e.2 = Some (em_email r)) (cd_users db))) as Hin.
    { by apply elem_of_map_to_list, map_lookup_filter_Some. }
    destruct (map_to_list _) as [|[u y] l] eqn:El; [by apply not_elem_of_nil in Hin|]. cbn. f_equal.
    assert ((u, y) ∈ map_to_list (filter (fun e => cu_email e.2 = Some (em_email r)) (cd_users db))) as Hin2 by (rewrite El; left).
    apply elem_of_map_to_list, map_lookup_filter_Some in Hin2 as [Hu Hy]. cbn in Hy.
    assert (u = em_userId r) as -> by (by eapply Hone). congruence. }
  cbn. eexists. split; [done|]. done.
Qed.

(** ** Witnesses, and a race *)
Module CredDemo.

Definition world : CredWorld :=
  {| cw_mail := fun _ => true; cw_signVerify := fun id jti => Some (id +:+ "." +:+ jti);
     cw_verifyToken := fun _ t => if decide (t = "e3.j3") then Some ("e3", "j3") else None; cw_nfkc := fun s => s |}.

Definition flags : UserFlags :=
  {| u_sessionGeneration := 0; u_isAdmin := false; u_isBanned := false; u_mergedIntoUserId := None; u_setupCompletedAt := None |}.

Definition session (cred : option string) : option Session :=
  Some {| s_userId := "u"; s_sessionGeneration := Some 0; s_aal := Some 2; s_recovered := false; s_auth_time := Some 0; s_cred := cred |}.

Definition email (u a : string) (primary : bool) (verified : option Z) : EmailCred :=
  {| em_userId := u; em_email := a; em_verifiedAt := verified; em_isPrimary := primary; em_status := "active";
     em_quarantinedUntil := None; em_createdAt := 0 |}.

Definition passkey (u status : string) (until : option Z) : PasskeyCred :=
  {| pk_userId := u; pk_label := None; pk_status := status; pk_quarantinedUntil := until; pk_addedAt := 0; pk_lastUsedAt := None |}.

(** "u" has two verified addresses and two passkeys, one of them held until 1000. *)
Definition db : CredDB :=
  {| cd_users := {["u" := {| cu_flags := flags; cu_email := Some "a@x.org" |}]};
     cd_emails := {["e1" := email "u" "a@x.org" true (Some 1); "e2" := email "u" "b@x.org" false (Some 2)]};
     cd_passkeys := {["k1" := passkey "u" "active" None; "k2" := passkey "u" "quarantined" (Some 1000)]};
     cd_badges := ∅; cd_markers := ∅; cd_audit := []; cd_mails := [] |}.

Definition own (id : string) : string := if decide (id = "e9") then "v" else "u".

Lemma cred_db_ok : EmailsOk own db.
Proof.
  assert (∀ id r, cd_emails db !! id = Some r → (id, r) = ("e1", email "u" "a@x.org" true (Some 1)) ∨
    (id, r) = ("e2", email "u" "b@x.org" false (Some 2))) as Hrows.
  { intros id r Hr. cbn in Hr. apply lookup_insert_Some in Hr as [[<- <-]|[_ [<- <-]%lookup_singleton_Some]]; auto. }
  split.
  - intros id r [[= -> ->]|[= -> ->]]%Hrows; done.
  - intros id r [[= -> ->]|[= -> ->]]%Hrows; by eexists.
  - intros i1 i2 r1 r2 [[= -> ->]|[= -> ->]]%Hrows [[= -> ->]|[= -> ->]]%Hrows; done.
  - intros i1 i2 r1 r2 [[= -> ->]|[= -> ->]]%Hrows [[= -> ->]|[= -> ->]]%Hrows; done.
Qed.

(** Two removals by the same account, each of one of its two passkeys. *)
Definition removals : list CredRequest := [RemovePasskey (session None) "k1"; RemovePasskey (session None) "k2"].

(** Both count before either deletes. *)
Definition overlap : list nat := [0; 0; 0; 1; 1; 1; 0; 1]%nat.

End CredDemo.

(** Two removals that overlap leave the account without a passkey, although each alone
    refuses to take the last one; the next enrolment is then a bootstrap and active at once,
    not held for 72 hours. *)
Theorem passkey_removal_race :
  let db1 := (pool_run CredDemo.overlap (handleCred CredDemo.world 10 <$> CredDemo.removals, CredDemo.db)).2 in
  let db2 := serveCreds CredDemo.world [(11, Enroll "u" "k3" None)] db1 in
  cd_passkeys db1 = ∅ ∧ (pk_status <$> cd_passkeys db2 !! "k3") = Some "active" ∧
  evaluatePrivilegedGate (gateRows "u" db2) (Some "k3") 12 = None.
Proof. vm_compute. done. Qed.

Lemma gate_exact_witness :
  evaluatePrivilegedGate (gateRows "u" CredDemo.db) (Some "k1") 10 = None ∧
  evaluatePrivilegedGate (gateRows "u" CredDemo.db) (Some "k2") 10 ≠ None.
Proof.
  assert (NoDup (gp_credentialID <$> gateRows "u" CredDemo.db)) as HN by (apply (bool_decide_unpack _); vm_compute; exact I).
  split.
  - apply (gate_exact _ _ _ HN). split.
    + exists {| gp_credentialID := "k1"; gp_status := "active"; gp_quarantinedUntil := None |}. split; [|done].
      apply list_elem_of_In. vm_compute. auto.
    + intros c [= <-]. exists {| gp_credentialID := "k1"; gp_status := "active"; gp_quarantinedUntil := None |}.
      split; [|done]. apply list_elem_of_In. vm_compute. auto.
  - vm_compute. discriminate.
Defined.

Lemma refusal_clears_witness : ∃ r,
  evaluatePrivilegedGate (gateRows "u" CredDemo.db) (Some "k2") 10 = Some r ∧ qr_retryAt r = Some 1000 ∧
  evaluatePrivilegedGate (gateRows "u" CredDemo.db) (Some "k2") 1000 = None.
Proof.
  destruct (evaluatePrivilegedGate (gateRows "u" CredDemo.db) (Some "k2") 10) as [r|] eqn:E; [|vm_compute in E; discriminate].
  exists r. assert (qr_retryAt r = Some 1000) as Ht by (vm_compute in E; by injection E as <-).
  assert (qr_reason r = acting_passkey_untrusted) as Hr by (vm_compute in E; by injection E as <-).
  split_and!; [done..|]. pose proof (refusal_clears _ _ _ r 1000 1000 E Ht ltac:(lia)) as Hc. rewrite Hr in Hc. apply Hc. lia.
Defined.


Lemma no_second_bootstrap_witness :
  gateRows "u" (serveCreds CredDemo.world [(10, Enroll "u" "k3" None); (11, RemovePasskey (CredDemo.session None) "k1");
    (12, RemovePasskey (CredDemo.session None) "k2"); (13, RemovePasskey (CredDemo.session None) "k3")] CredDemo.db) ≠ [].
Proof.
  apply (no_second_bootstrap CredDemo.world [(10, Enroll "u" "k3" None); (11, RemovePasskey (CredDemo.session None) "k1");
    (12, RemovePasskey (CredDemo.session None) "k2"); (13, RemovePasskey (CredDemo.session None) "k3")] CredDemo.db "u" "k1"
    (CredDemo.passkey "u" "active" None)); vm_compute; reflexivity.
Defined.

Lemma set_primary_sound_witness : ∃ db' u,
  run_solo (setPrimaryEmail CredDemo.world 10 (CredDemo.session (Some "k1")) "e2") CredDemo.db = (Ok tt, db') ∧
  cd_users db' !! "u" = Some u ∧ cu_email u = Some "b@x.org".
Proof.
  destruct (run_solo (setPrimaryEmail CredDemo.world 10 (CredDemo.session (Some "k1")) "e2") CredDemo.db) as [[[]|e] db'] eqn:E;
    [|vm_compute in E; discriminate].
  destruct (set_primary_sound CredDemo.world 10 (CredDemo.session (Some "k1")) "e2" CredDemo.db db' E)
    as (s & r & u & Hs & _ & _ & _ & _ & Hr & _ & _ & Hu & Hc & _).
  exists db', u. injection Hs as <-. vm_compute in Hr. injection Hr as <-. split_and!; [reflexivity|exact Hu|exact Hc].
Defined.

Lemma signin_needs_proof_witness : ∃ au db',
  run_solo (signInByEmail 10 "v" "e9" "z@x.org") CredDemo.db = (Ok au, db') ∧ (au_id au = "v" ∨ db' = CredDemo.db).
Proof.
  destruct (run_solo (signInByEmail 10 "v" "e9" "z@x.org") CredDemo.db) as [[au|e] db'] eqn:E; [|vm_compute in E; discriminate].
  exists au, db'. split; [reflexivity|].
  destruct (signin_needs_proof 10 "v" "e9" "z@x.org" CredDemo.db au db' E) as [[? _]|[? _]]; auto.
Defined.

Lemma removed_primary_still_signs_in_witness : ∃ db' au,
  run_solo (removeEmail CredDemo.world (CredDemo.session None) "e1") CredDemo.db = (Ok tt, db') ∧
  run_solo (signInByEmail 20 "v" "e9" "a@x.org") db' = (Ok au, db') ∧ au_id au = "u".
Proof.
  destruct (run_solo (removeEmail CredDemo.world (CredDemo.session None) "e1") CredDemo.db) as [[[]|e] db'] eqn:E;
    [|vm_compute in E; discriminate].
  destruct (removed_primary_still_signs_in CredDemo.world 20 (CredDemo.session None) "e1" CredDemo.db db'
    (CredDemo.email "u" "a@x.org" true (Some 1)) {| cu_flags := CredDemo.flags; cu_email := Some "a@x.org" |} "v" "e9" E)
    as (_ & au & Hau & Hid).
  - vm_compute. reflexivity.
  - vm_compute. reflexivity.
  - reflexivity.
  - intros i ri Hi. cbn in Hi. apply lookup_insert_Some in Hi as [[<- <-]|[_ [<- <-]%lookup_singleton_Some]]; done.
  - intros u y Hu. cbn in Hu. apply lookup_singleton_Some in Hu as [<- <-]. done.
  - exists db', au. split_and!; [reflexivity|exact Hau|exact Hid].
Defined.
