(* ===== verification/RecoveryEntry.v ===== *)
(** * The recovery-code actions (server/recovery-code-actions.ts)

    A signed-in user with a passkey makes a batch of codes; anyone may redeem a code for the
    account of an address, which ends in a recovered session. The actions run on the tables of
    Credentials.v, RecoveryCodes.v and Recovery.v: users and single-use markers are shared. The
    mail, the JWT library, hashes, draws and row ids are parameters, as there. *)

From S2P Require Import Prelude Threads Matching Policy Selection RateLimit Registry SybilScore.
From S2P Require Import Session SybilConfig RecoveryEditor Recovery SignInOtp RecoveryCodes Credentials CredentialProofs.

Open Scope Z_scope.
Open Scope minister_scope.

(** ** The database *)

(** [en_recovery] holds the tables of recovery attempts; its users and markers are those of
    [en_cred]. [en_hits] is the table of the limiter. *)
Record EntryDB := {
  en_cred : CredDB;
  en_codes : gmap string RecoveryCodeRow;
  en_recovery : RecoveryDB;
  en_hits : gmap string (list Z);
}.

Definition set_cred (c : CredDB) (db : EntryDB) : EntryDB :=
  {| en_cred := c; en_codes := en_codes db; en_recovery := en_recovery db; en_hits := en_hits db |}.
Definition set_codes (m : gmap string RecoveryCodeRow) (db : EntryDB) : EntryDB :=
  {| en_cred := en_cred db; en_codes := m; en_recovery := en_recovery db; en_hits := en_hits db |}.
Definition set_hits (h : gmap string (list Z)) (db : EntryDB) : EntryDB :=
  {| en_cred := en_cred db; en_codes := en_codes db; en_recovery := en_recovery db; en_hits := h |}.

(** The tables a ticket is issued and verified on. *)
Definition ticketTables (db : EntryDB) : RecoveryDB :=
  let r := en_recovery db in
  {| rd_attempts := rd_attempts r; rd_proofs := rd_proofs r; rd_badges := rd_badges r; rd_tokens := cd_markers (en_cred db);
     rd_config := rd_config r; rd_emails := rd_emails r; rd_users := cu_flags <$> cd_users (en_cred db); rd_audit := rd_audit r |}.
Definition set_ticketTables (r : RecoveryDB) (db : EntryDB) : EntryDB :=
  {| en_cred := with_markers (rd_tokens r) (en_cred db); en_codes := en_codes db; en_recovery := r; en_hits := en_hits db |}.

(** ** The actions *)

Inductive GenerateRecoveryCodesResult :=
  | GeneratedCodes (codes : list string)
  | GenerateStepUp (error : string)
  | GenerateHeld (refusal : QuarantineRefusal)
  | GenerateRefused (error : string).

(** [SignedInAs] carries the user of the recovered session. *)
Inductive RedeemCodeResult :=
  | SignedInAs (userId : string)
  | RateLimited (retryAfterSeconds : Z)
  | InvalidCode.

Record EntryWorld := {
  ew_cred : CredWorld;
  ew_jwt : Jwt;
  ew_hash : string → string;
  ew_verify : string → string → bool;
  ew_env : environment;
}.

(** [Number.parseInt(value ?? "", 10) || 10] *)
Definition recoveryRedeemMax (env : environment) : Z :=
  match parseInt10 (default "" (env !! "MINISTER_RL_RECOVERY_MAX")) with
  | None | Some 0 => 10
  | Some n => n
  end.

Definition REDEEM_WINDOW_MS : Z := 15 * 60000.

Section Actions.
Context (w : EntryWorld) (now : Z).

Definition onCred {A} : thread CredDB A → thread EntryDB A := zoom en_cred set_cred.
Definition onCodes {A} : thread (gmap string RecoveryCodeRow) A → thread EntryDB A := zoom en_codes set_codes.
Definition onTickets {A} : thread RecoveryDB A → thread EntryDB A := zoom ticketTables set_ticketTables.

Definition generateMyRecoveryCodes (auth : option Session) (draws : nat → nat → nat) (ids : list string) :
    thread EntryDB (result CredError GenerateRecoveryCodesResult) :=
  session ← onCred (read (fun db => getCurrentSession auth (cu_flags <$> cd_users db)));
  match session with
  | None => mret (Ok (GenerateRefused "Not signed in"))
  | Some session =>
      if bool_decide (s_userId session = "") then mret (Ok (GenerateRefused "Not signed in"))
      else if default 0 (s_aal session) <? 2
      then mret (Ok (GenerateStepUp "Generating recovery codes requires signing in with a passkey first."))
      else
        refusal ← onCred (gatePrivilegedAction now (s_userId session) (s_cred session) recovery_codes_generate);
        match refusal with
        | Some r => mret (Ok (GenerateHeld r))
        | None =>
            codes ← onCodes (generateRecoveryCodes (ew_hash w) draws ids (s_userId session));
            match codes with
            | None => mret (Err (plain "Unique constraint failed"))
            | Some codes =>
                _ ←! onCred (notifyCredentialChange (ew_cred w) (s_userId session) "recovery codes regenerated");
                mret (Ok (GeneratedCodes codes))
            end
        end
  end.

Definition recoveryRedeemLimiter (ip : string) : thread EntryDB RateLimitVerdict :=
  act (fun db => let '(verdict, hits) := check REDEEM_WINDOW_MS (recoveryRedeemMax (ew_env w)) (en_hits db) ip now in
                 (verdict, set_hits hits db)).

(** A user recovery may sign in. *)
Definition usable (userId : string) (db : CredDB) : option string :=
  match cd_users db !! userId with
  | Some u => if u_isBanned (cu_flags u) || bool_decide (u_mergedIntoUserId (cu_flags u) ≠ None) then None else Some userId
  | None => None
  end.

(** The owner of an address, and the user whose primary address it is; [None] is no row. *)
Definition ownedUser (email : string) (db : CredDB) : option (option string) :=
  (fun row => usable (em_userId row.2) db) <$> emailRow email (cd_emails db).
Definition legacyUser (email : string) (db : CredDB) : option (option string) :=
  (fun row => usable row.1 db) <$> head (map_to_list (filter (fun e => cu_email e.2 = Some email) (cd_users db))).

Definition resolveUserId (identifier : string) : thread CredDB (option string) :=
  let trimmed := trim identifier in
  if Nat.eqb (String.length trimmed) 0 then mret None
  else
    let email := toLowerCase trimmed in
    owned ← read (ownedUser email);
    match owned with
    | Some r => mret r
    | None => legacy ← read (legacyUser email); mret (default None legacy)
    end.

(** [signIn] throws when the provider refuses. *)
Definition redeemRecoveryCodeAndSignIn (headers : string → option string) (jti userIdentifier code : string) :
    thread EntryDB (result CredError RedeemCodeResult) :=
  let ip := clientIpFrom (ew_env w) headers in
  verdict ← recoveryRedeemLimiter ip;
  if negb (allowed verdict) then mret (Ok (RateLimited (retryAfterSeconds verdict)))
  else
    userId ← onCred (resolveUserId userIdentifier);
    match userId with
    | None => mret (Ok InvalidCode)
    | Some userId =>
        redeemed ← onCodes (redeemRecoveryCode (ew_verify w) now userId code);
        if negb redeemed then mret (Ok InvalidCode)
        else
          _ ←! onCred (notifyCredentialChange (ew_cred w) userId "a recovery code was used to sign in");
          ticket ← onTickets (issueRecoveryTicket (ew_jwt w) now jti userId);
          match ticket with
          | None => mret (Err (plain "recovery ticket"))
          | Some ticket =>
              user ← onTickets (authorizeRecovery (ew_jwt w) now ticket);
              mret (match user with Some user => Ok (SignedInAs user) | None => Err (plain "CredentialsSignin") end)
          end
    end.

End Actions.

(** ** Requests *)

Inductive EntryRequest :=
  | EnGenerate (now : Z) (auth : option Session) (draws : nat → nat → nat) (ids : list string)
  | EnRedeem (now : Z) (headers : string → option string) (jti userIdentifier code : string).

Inductive EntryResponse :=
  | AnGenerate (r : result CredError GenerateRecoveryCodesResult)
  | AnRedeem (r : result CredError RedeemCodeResult).

Definition handleEntry (w : EntryWorld) (rq : EntryRequest) : thread EntryDB EntryResponse :=
  match rq with
  | EnGenerate now auth draws ids => r ← generateMyRecoveryCodes w now auth draws ids; mret (AnGenerate r)
  | EnRedeem now headers jti identifier code => r ← redeemRecoveryCodeAndSignIn w now headers jti identifier code; mret (AnRedeem r)
  end.

Definition serveEntry (w : EntryWorld) (rqs : list EntryRequest) (sched : list nat) (db : EntryDB) : list EntryResponse * EntryDB :=
  let st := pool_run sched (handleEntry w <$> rqs, db) in (returned st.1, st.2).

(** Verifying a ticket gives back what was signed. *)
Class TicketLaws (jwt : Jwt) := ticket_names : ∀ userId jti ticket now userId' jti',
  signTicket jwt userId jti = Some ticket → verifyTicket jwt now ticket = Some (userId', jti') → userId' = userId ∧ jti' = jti.

(** ** One session for a code *)

Section Accounting.
Context (w : EntryWorld) `{!TicketLaws (ew_jwt w)} (u : string) (own : string → string) (users : gmap string CredUser).

(** The recovered sessions of [u] an answer gives, and the codes of [u] a request may add: only with
    a session of [u] from a passkey. *)
Definition sessionsOf (r : EntryResponse) : nat :=
  match r with AnRedeem (Ok (SignedInAs v)) => if decide (v = u) then 1 else 0 | _ => 0 end.

Definition mayAdd (rq : EntryRequest) : nat :=
  match rq with
  | EnGenerate _ (Some s) _ _ => if decide (s_userId s = u ∧ 2 <= default 0 (s_aal s)) then Z.to_nat RECOVERY_CODE_COUNT else 0
  | _ => 0
  end.

Definition entryIdsOwned (rq : EntryRequest) : Prop :=
  match rq with EnGenerate _ (Some s) _ ids => ∀ id, id ∈ ids → own id = s_userId s | _ => True end.

(** Whoever is signed in may be. *)
Definition signsInUsable (r : EntryResponse) : Prop :=
  match r with AnRedeem (Ok (SignedInAs v)) => ∃ row, users !! v = Some row ∧ u_isBanned (cu_flags row) = false ∧ u_mergedIntoUserId (cu_flags row) = None | _ => True end.

Definition entryBudget (m : nat) (db : EntryDB) : Prop := codeBudget u own m (en_codes db) ∧ cd_users (en_cred db) = users.

(** What handlers of the other tables leave alone. *)
Definition entry_same (db db' : EntryDB) : Prop := en_codes db' = en_codes db ∧ cd_users (en_cred db') = cd_users (en_cred db).

Lemma entry_same_budget m db db' : entryBudget m db → entry_same db db' → entryBudget m db'.
Proof. unfold entryBudget. by intros [? ?] [-> ->]. Qed.

Lemma onCred_same {A} (t : thread CredDB A) : steps_in sameEmails t → steps_in entry_same (onCred t).
Proof. apply steps_in_zoom. by intros x db [_ ?]. Qed.

Lemma resolve_same identifier : steps_in sameEmails (resolveUserId identifier).
Proof.
  unfold resolveUserId. destruct (Nat.eqb _ _); [done|]. apply steps_in_bind; [apply steps_in_read, _|]. intros [|]; [done|].
  apply steps_in_bind; [apply steps_in_read, _|done].
Qed.

(** Handlers of the credential tables in front of a continuation. *)
Lemma uses_onCred {A B} (Q : B → nat → Prop) n (t : thread CredDB A) (k : A → thread EntryDB B) :
  steps_in sameEmails t → (∀ a, uses entryBudget Q n (k a)) → uses entryBudget Q n (onCred t ≫= k).
Proof. intros Ht Hk. eapply (uses_frame entry_same); [apply entry_same_budget|by apply onCred_same|done]. Qed.

Lemma uses_onCredT {A B} (Q : result CredError B → nat → Prop) n (t : thread CredDB (result CredError A)) (k : A → thread EntryDB (result CredError B)) :
  steps_in sameEmails t → (∀ e, Q (Err e) n) → (∀ a, uses entryBudget Q n (k a)) → uses entryBudget Q n (tbind (onCred t) k).
Proof. intros Ht He Hk. apply uses_onCred; [done|]. intros [a|e]; [apply Hk|apply He]. Qed.

Lemma uses_onRead {A B} (Q : B → nat → Prop) n (f : CredDB → A) (k : A → thread EntryDB B) :
  (∀ db, uses entryBudget Q n (k (f db))) → uses entryBudget Q n (onCred (read f) ≫= k).
Proof. intros Hk m [] HI. exists m, n. split; [lia|]. split; [exact HI|apply Hk]. Qed.

(** Handlers of the codes. *)
Lemma uses_onCodes {A B} (P : A → nat → Prop) (Q : B → nat → Prop) n (t : thread (gmap string RecoveryCodeRow) A) (k : A → thread EntryDB B) :
  uses (codeBudget u own) P n t → (∀ a n', P a n' → uses entryBudget Q n' (k a)) → uses entryBudget Q n (onCodes t ≫= k).
Proof.
  intros Ht Hk. apply uses_bind. eapply uses_impl; [exact Hk|].
  by apply (uses_zoom en_codes set_codes (codeBudget u own) (fun db => cd_users (en_cred db) = users)).
Qed.

Lemma generate_keeps now auth draws ids :
  entryIdsOwned (EnGenerate now auth draws ids) →
  uses entryBudget (fun r n => (sessionsOf (AnGenerate r) <= n)%nat ∧ signsInUsable (AnGenerate r)) (mayAdd (EnGenerate now auth draws ids))
    (generateMyRecoveryCodes w now auth draws ids).
Proof using.
  intros Hids. unfold generateMyRecoveryCodes. apply uses_onRead. intros c.
  unfold getCurrentSession. destruct (loadSessionFlags auth _) as [flags|] eqn:Es; [|split; [cbn; lia|done]].
  apply loadSessionFlags_live in Es as (-> & _). set (s := sf_session flags) in *. change (sf_session <$> Some flags) with (Some s). cbn iota.
  destruct (bool_decide (s_userId s = "")); [split; [cbn; lia|done]|]. destruct (Z.ltb_spec (default 0 (s_aal s)) 2); [split; [cbn; lia|done]|].
  apply uses_onCred; [by apply (gate_frame sameEmails)|]. intros [refusal|]; [split; [cbn; lia|done]|].
  assert (mayAdd (EnGenerate now (Some s) draws ids) = if decide (s_userId s = u) then Z.to_nat RECOVERY_CODE_COUNT else 0%nat) as ->.
  { cbn [mayAdd]. by repeat case_decide; naive_solver. }
  eapply uses_onCodes; [by apply generate_mints|]. intros [codes'|] n _; [|split; [cbn; lia|done]].
  apply uses_onCredT; [by apply (notify_frame _ sameEmails)|by split; [cbn; lia|]|]. intros _. split; [cbn; lia|done].
Qed.

Lemma ticket_step now jti v n :
  ((if decide (v = u) then 1 else 0) <= n)%nat →
  uses entryBudget (fun r n => (sessionsOf (AnRedeem r) <= n)%nat ∧ signsInUsable (AnRedeem r)) n
    (ticket ← onTickets (issueRecoveryTicket (ew_jwt w) now jti v);
     match ticket with
     | None => mret (Err (plain "recovery ticket"))
     | Some ticket =>
         user ← onTickets (authorizeRecovery (ew_jwt w) now ticket);
         mret (match user with Some user => Ok (SignedInAs user) | None => Err (plain "CredentialsSignin") end)
     end).
Proof.
  intros Hn m db HI. exists m, n. split; [lia|]. split; [exact HI|]. cbn.
  destruct (createMarker _ _ _ _) as [created db1]. cbn [fst snd]. destruct created; [|split; [cbn; lia|done]].
  destruct (signTicket _ v jti) as [ticket|] eqn:Es; [|split; [cbn; lia|done]].
  unfold authorizeRecovery. destruct (bool_decide (ticket = "")); [split; [cbn; lia|done]|].
  unfold verifyRecoveryTicket, verifyToken. destruct (verifyTicket _ now ticket) as [[v' jti']|] eqn:Ev; [|split; [cbn; lia|done]].
  destruct (ticket_names _ _ _ _ _ _ Es Ev) as [-> ->]. intros m2 db2 HI2. exists m2, n. split; [lia|]. split; [exact HI2|]. cbn.
  destruct (deleteMarker _ _ _) as [deleted db3]. cbn [fst snd]. destruct deleted; [|split; [cbn; lia|done]].
  intros m4 db4 [HI4 Hu]. exists m4, n. split; [lia|]. split; [by split|]. cbn. rewrite lookup_fmap, Hu.
  destruct (users !! v) as [row|] eqn:Er; [|split; [cbn; lia|done]]. cbn. destruct (_ || _) eqn:Eb; [split; [cbn; lia|done]|].
  apply orb_false_iff in Eb as [Eb Em]. bool_hyps. split; [exact Hn|]. exists row. split_and!; [done|done|].
  destruct (u_mergedIntoUserId _); naive_solver.
Qed.

Lemma redeem_keeps now headers jti identifier code :
  uses entryBudget (fun r n => (sessionsOf (AnRedeem r) <= n)%nat ∧ signsInUsable (AnRedeem r)) 0
    (redeemRecoveryCodeAndSignIn w now headers jti identifier code).
Proof.
  unfold redeemRecoveryCodeAndSignIn. apply uses_act. intros m db HI. exists m, 0%nat.
  destruct (check _ _ _ _ _) as [verdict hits]. cbn [fst snd]. split; [lia|]. split; [exact HI|].
  destruct (allowed verdict); cbn [negb]; [|by split; [cbn; lia|]].
  apply uses_onCred; [apply resolve_same|]. intros [v|]; [|by split; [cbn; lia|]].
  eapply uses_onCodes; [apply redeem_spends|]. intros redeemed n Hn. destruct redeemed; cbn [negb]; [|by split; [cbn; lia|]].
  apply uses_onCredT; [by apply (notify_frame _ sameEmails)|by split; [cbn; lia|]|]. intros _. by apply ticket_step.
Qed.

End Accounting.

(** C9: a recovered session costs a code. Under any interleaving of requests that make or redeem codes, the
    recovered sessions given for a user and the unused codes the user has left are together at most the unused
    codes the user had and ten for each request for new codes with a passkey session of this user; and nobody is
    signed in whose account is missing, banned or merged into another. *)
Theorem recovery_session_per_code w `{!TicketLaws (ew_jwt w)} own u rqs sched db :
  (∀ id r, en_codes db !! id = Some r → rcr_userId r = own id) → Forall (entryIdsOwned own) rqs →
  let '(responses, db') := serveEntry w rqs sched db in
  (sum_list (sessionsOf u <$> responses) + countUnusedCodes u (en_codes db') <=
   countUnusedCodes u (en_codes db) + sum_list (mayAdd u <$> rqs))%nat ∧
  Forall (signsInUsable (cd_users (en_cred db))) responses.
Proof.
  intros Hown Hids. unfold serveEntry. set (users := cd_users (en_cred db)).
  destruct (pool_run_funded (entryBudget u own users) (fun r n => (sessionsOf u r <= n)%nat ∧ signsInUsable users r) sched
    (handleEntry w <$> rqs) db (mayAdd u <$> rqs) (countUnusedCodes u (en_codes db))) as (m' & ns' & [[_ Hc] _] & Hf & Hle).
  - by repeat split.
  - apply Forall2_fmap, Forall_Forall2_diag, Forall_forall. intros rq Hin. rewrite Forall_forall in Hids.
    specialize (Hids _ Hin). destruct rq; cbn [handleEntry]; apply uses_bind.
    + by apply generate_keeps.
    + apply redeem_keeps. done.
  - split; [|by eapply returned_post; [|exact Hf]; intros ? ? []].
    pose proof (returned_funded _ _ (sessionsOf u) _ _ (fun a n H => proj1 H) Hf). lia.
Qed.

(** ** Refusals *)

(** No unused code of the account the identifier names is the one that was typed. *)
Definition wrongGuess (w : EntryWorld) (identifier code : string) (db : EntryDB) : Prop :=
  ∀ u id row, (run_solo (resolveUserId identifier) (en_cred db)).1 = Some u → unusedRows u (en_codes db) !! id = Some row →
    ew_verify w (normalizeRecoveryCode code) (rcr_codeHash row) = false.

Lemma run_onCred {A} (t : thread CredDB A) db :
  run_solo (onCred t) db = ((run_solo t (en_cred db)).1, set_cred (run_solo t (en_cred db)).2 db).
Proof. apply run_solo_zoom; [done|done|by intros []]. Qed.

Lemma run_onCodes {A} (t : thread (gmap string RecoveryCodeRow) A) db :
  run_solo (onCodes t) db = ((run_solo t (en_codes db)).1, set_codes (run_solo t (en_codes db)).2 db).
Proof. apply run_solo_zoom; [done|done|by intros []]. Qed.

Lemma run_resolve identifier c : (run_solo (resolveUserId identifier) c).2 = c.
Proof.
  unfold resolveUserId. destruct (Nat.eqb _ _); [done|]. rewrite run_solo_read. by destruct (ownedUser _ c).
Qed.

Lemma wrong_redeem w now u code codes :
  (∀ id row, unusedRows u codes !! id = Some row → ew_verify w (normalizeRecoveryCode code) (rcr_codeHash row) = false) →
  run_solo (redeemRecoveryCode (ew_verify w) now u code) codes = (false, codes).
Proof.
  intros H. unfold redeemRecoveryCode. destruct (negb _); [done|]. rewrite run_solo_read.
  assert (matchCode (ew_verify w) (normalizeRecoveryCode code) (map_to_list (unusedRows u codes)) = None) as ->; [|done].
  unfold matchCode. set (l := map_to_list _). assert (∀ e, e ∈ l → ew_verify w (normalizeRecoveryCode code) (rcr_codeHash e.2) = false) as Hl.
  { intros [id row] Hin%elem_of_map_to_list. by eapply H. }
  clearbody l. induction l as [|e l IH]; [done|]. cbn [foldl]. rewrite (Hl e) by left. apply IH. intros e' Hin. apply Hl. by right.
Qed.

(** Refusals are alike: an unknown address, an account that is banned or merged, and a wrong code get the same
    answer, and leave nothing behind but the hit of the limiter. *)
Theorem refusal_is_opaque w now headers jti identifier code db :
  wrongGuess w identifier code db →
  let '(verdict, hits) := check REDEEM_WINDOW_MS (recoveryRedeemMax (ew_env w)) (en_hits db) (clientIpFrom (ew_env w) headers) now in
  run_solo (redeemRecoveryCodeAndSignIn w now headers jti identifier code) db =
    (Ok (if allowed verdict then InvalidCode else RateLimited (retryAfterSeconds verdict)), set_hits hits db).
Proof.
  intros H. unfold redeemRecoveryCodeAndSignIn, recoveryRedeemLimiter. rewrite run_solo_bind. cbn [act run_solo fst snd].
  destruct (check _ _ _ _ _) as [verdict hits]. cbn [fst snd]. destruct (allowed verdict); cbn [negb]; [|done].
  rewrite run_solo_bind, run_onCred. cbn [fst snd en_cred set_hits]. rewrite run_resolve.
  specialize (H : ∀ u, _). destruct (run_solo (resolveUserId identifier) (en_cred db)).1 as [u|] eqn:Eu; [|done].
  rewrite run_solo_bind, run_onCodes. cbn [fst snd en_codes set_cred set_hits].
  rewrite wrong_redeem by (intros; by eapply H). done.
Qed.

(** ** A right code *)

Lemma usable_Some v c x : usable v c = Some x →
  x = v ∧ ∃ row, cd_users c !! v = Some row ∧ u_isBanned (cu_flags row) || bool_decide (u_mergedIntoUserId (cu_flags row) ≠ None) = false.
Proof. unfold usable. destruct (cd_users c !! v) as [row|]; [|done]. destruct (_ || _) eqn:E; [done|]. intros [= <-]. eauto. Qed.

Lemma resolve_usable identifier c u : (run_solo (resolveUserId identifier) c).1 = Some u →
  ∃ row, cd_users c !! u = Some row ∧ u_isBanned (cu_flags row) || bool_decide (u_mergedIntoUserId (cu_flags row) ≠ None) = false.
Proof.
  unfold resolveUserId. destruct (Nat.eqb _ _); [done|]. rewrite run_solo_read. unfold ownedUser.
  destruct (emailRow _ _) as [row|]; cbn.
  - by intros [-> ?]%usable_Some.
  - unfold legacyUser. destruct (head _) as [row|]; cbn; [|done]. by intros [-> ?]%usable_Some.
Qed.

Definition CHANGED : string := "A credential changed on your Minister account".

Lemma notify_sends w u summary c :
  (∀ a, cw_mail w a = true) →
  let '(r, c') := run_solo (notifyCredentialChange w u summary) c in
  r = Ok tt ∧ cd_users c' = cd_users c ∧ cd_markers c' = cd_markers c ∧
  cd_mails c' = cd_mails c ++ ((fun e => (em_email e.2, CHANGED)) <$> verifiedOf u (cd_emails c)).
Proof.
  intros Hw. unfold notifyCredentialChange. rewrite run_solo_read. unfold audit. rewrite run_solo_bind. cbn [write act run_solo fst snd].
  set (c0 := auditCred _ _ _ c). change (cd_users c) with (cd_users c0). change (cd_markers c) with (cd_markers c0). change (cd_mails c) with (cd_mails c0).
  generalize (verifiedOf u (cd_emails c)). intros l. clearbody c0. revert c0. induction l as [|e l IH]; intros c0.
  { cbn. by rewrite app_nil_r. }
  cbn [map sendAll]. unfold sendMail at 1. rewrite run_solo_tbind. cbn [act run_solo fst snd]. rewrite Hw. cbn [fst snd].
  specialize (IH (recordMail (em_email e.2) CHANGED c0)). destruct (run_solo _ _) as [r c']. destruct IH as (-> & -> & -> & ->).
  split_and!; [done..|]. cbn [fmap list_fmap recordMail cd_mails]. by rewrite <-(assoc_L (++)).
Qed.

Lemma ticket_signs_in w now jti u ticket db row :
  cd_markers (en_cred db) !! (TICKET_IDENTIFIER, jti) = None → signTicket (ew_jwt w) u jti = Some ticket → ticket ≠ "" →
  verifyTicket (ew_jwt w) now ticket = Some (u, jti) →
  cd_users (en_cred db) !! u = Some row → u_isBanned (cu_flags row) || bool_decide (u_mergedIntoUserId (cu_flags row) ≠ None) = false →
  ∃ db1, run_solo (onTickets (issueRecoveryTicket (ew_jwt w) now jti u)) db = (Some ticket, db1) ∧
  let '(r, db2) := run_solo (onTickets (authorizeRecovery (ew_jwt w) now ticket)) db1 in
  r = Some u ∧ en_codes db2 = en_codes db ∧ cd_mails (en_cred db2) = cd_mails (en_cred db).
Proof.
  intros Hm Hs Hne Hv Hrow Hok. unfold issueRecoveryTicket, issueToken. cbn. unfold createMarker. cbn. rewrite Hm. cbn. rewrite Hs.
  eexists. split; [done|]. unfold authorizeRecovery. rewrite bool_decide_eq_false_2 by done. unfold verifyRecoveryTicket, verifyToken. rewrite Hv. cbn.
  unfold deleteMarker. cbn. rewrite lookup_insert_eq. cbn. rewrite lookup_fmap, Hrow. cbn. by rewrite Hok.
Qed.

(** Whoever types an unused code of an account that is neither banned nor merged is signed in to it, uses up this
    one code, and every verified address of the account is told. *)
Theorem right_code_signs_in w now headers jti identifier code db u id row ticket :
  allowed (check REDEEM_WINDOW_MS (recoveryRedeemMax (ew_env w)) (en_hits db) (clientIpFrom (ew_env w) headers) now).1 = true →
  (run_solo (resolveUserId identifier) (en_cred db)).1 = Some u →
  unusedRows u (en_codes db) !! id = Some row → ew_verify w (normalizeRecoveryCode code) (rcr_codeHash row) = true →
  String.length (normalizeRecoveryCode code) = CODE_SYMBOLS →
  (∀ a, cw_mail (ew_cred w) a = true) → cd_markers (en_cred db) !! (TICKET_IDENTIFIER, jti) = None →
  signTicket (ew_jwt w) u jti = Some ticket → ticket ≠ "" → verifyTicket (ew_jwt w) now ticket = Some (u, jti) →
  let '(r, db') := run_solo (redeemRecoveryCodeAndSignIn w now headers jti identifier code) db in
  r = Ok (SignedInAs u) ∧ (countUnusedCodes u (en_codes db') + 1 = countUnusedCodes u (en_codes db))%nat ∧
  cd_mails (en_cred db') = cd_mails (en_cred db) ++ ((fun e => (em_email e.2, CHANGED)) <$> verifiedOf u (cd_emails (en_cred db))).
Proof.
  intros Hal Hu Hrow Hver Hlen Hmail Hm Hs Hne Hv. destruct (resolve_usable _ _ _ Hu) as (row' & Huser & Hok).
  unfold redeemRecoveryCodeAndSignIn, recoveryRedeemLimiter. rewrite run_solo_bind. cbn [act run_solo fst snd].
  destruct (check _ _ _ _ _) as [verdict hits]. cbn [fst snd] in *. rewrite Hal. cbn [negb].
  rewrite run_solo_bind, run_onCred. cbn [fst snd en_cred set_hits]. rewrite run_resolve, Hu.
  rewrite run_solo_bind, run_onCodes. cbn [fst snd en_codes set_cred set_hits].
  pose proof (redeem_finds (ew_verify w) now u code (en_codes db) id row Hrow Hver Hlen) as Hr.
  destruct (run_solo (redeemRecoveryCode _ _ _ _) _) as [ok codes']. destruct Hr as [-> Hcount]. cbn [fst snd negb].
  rewrite run_solo_tbind, run_onCred. cbn [fst snd en_cred set_codes set_cred set_hits].
  pose proof (notify_sends (ew_cred w) u "a recovery code was used to sign in" (en_cred db) Hmail) as Hn.
  destruct (run_solo (notifyCredentialChange _ _ _) _) as [r c']. destruct Hn as (-> & Hus & Hms & Hmails). cbn [fst snd].
  match goal with |- context [run_solo _ ?d] => set (db1 := d) end.
  destruct (ticket_signs_in w now jti u ticket db1 row') as (db2 & E1 & E2);
    [by cbn; rewrite Hms|done|done|done|by cbn; rewrite Hus|done|].
  rewrite run_solo_bind, E1. cbn [fst snd]. rewrite run_solo_bind.
  destruct (run_solo (onTickets (authorizeRecovery _ _ _)) db2) as [r db3]. destruct E2 as (-> & Hc & Hm3). cbn [fst snd mret thread_ret run_solo].
  split_and!; [done|by rewrite Hc|by rewrite Hm3].
Qed.

(** ** Examples *)

Module EntryDemo.

Definition jwt : Jwt :=
  {| signTicket := fun u jti => if decide (u = "u" ∧ jti = "j") then Some "t" else None;
     verifyTicket := fun _ t => if decide (t = "t") then Some ("u", "j") else None;
     signReProof := fun _ jti => Some jti; verifyReProof := fun _ _ => None |}.

Definition world (mail : string → bool) : EntryWorld :=
  {| ew_cred := {| cw_mail := mail; cw_signVerify := fun id jti => None; cw_verifyToken := fun _ _ => None; cw_nfkc := fun s => s |};
     ew_jwt := jwt; ew_hash := demo_hash; ew_verify := String.eqb; ew_env := ∅ |}.

Definition db : EntryDB := {| en_cred := CredDemo.db; en_codes := demo_batch; en_recovery := demo_rdb; en_hits := ∅ |}.

Definition redeem (jti : string) : EntryRequest := EnRedeem 5 (fun _ => None) jti "A@x.org" "aaaa aaaa aaaa".

#[global] Instance demo_tickets mail : TicketLaws (ew_jwt (world mail)).
Proof.
  intros u jti ticket now u' jti'. cbn. case_decide as E; [|done]. intros [= <-] [= <- <-]. naive_solver.
Qed.

End EntryDemo.

Lemma recovery_session_per_code_witness :
  (serveEntry (EntryDemo.world (fun _ => true)) [EntryDemo.redeem "j"; EntryDemo.redeem "i"] (replicate 20 0 ++ replicate 20 1)%nat EntryDemo.db).1 =
    [AnRedeem (Ok (SignedInAs "u")); AnRedeem (Ok InvalidCode)] ∧
  (sum_list (sessionsOf "u" <$> (serveEntry (EntryDemo.world (fun _ => true)) [EntryDemo.redeem "j"; EntryDemo.redeem "i"] [0; 1; 1; 0; 1; 0]%nat EntryDemo.db).1) <= 1)%nat.
Proof.
  split; [by vm_compute|].
  pose proof (recovery_session_per_code (EntryDemo.world (fun _ => true)) (fun _ => "u") "u" [EntryDemo.redeem "j"; EntryDemo.redeem "i"]
    [0; 1; 1; 0; 1; 0]%nat EntryDemo.db) as H.
  destruct (serveEntry _ _ _ _) as [responses db']. destruct H as [H _].
  - intros id r. cbn. unfold demo_batch. by intros [<- <-]%lookup_singleton_Some.
  - by repeat constructor.
  - assert ((countUnusedCodes "u" (en_codes EntryDemo.db) + sum_list (mayAdd "u" <$> [EntryDemo.redeem "j"; EntryDemo.redeem "i"]))%nat = 1%nat)
      as E by by vm_compute. rewrite E in H. cbn [fst]. lia.
Defined.

(** When mail is down, a right code is used up and nobody is signed in. *)
Lemma mail_outage_burns_code :
  let '(r, db') := run_solo (redeemRecoveryCodeAndSignIn (EntryDemo.world (fun _ => false)) 5 (fun _ => None) "j" "a@x.org" "aaaaaaaaaaaa") EntryDemo.db in
  r = Err (plain "mail") ∧ countUnusedCodes "u" (en_codes EntryDemo.db) = 1%nat ∧ countUnusedCodes "u" (en_codes db') = 0%nat.
Proof. vm_compute. done. Qed.
