(* ===== verification/MergeCeremony.v ===== *)
(** * The merge ceremony (lib/merge-proof.ts, server/merge-actions.ts)

    A merge takes two parties: the survivor, in a live AAL2 session that is not a recovery
    session and passes the quarantine gate, names an address of the donor; the link mailed to
    that verified address, used once, yields a donor proof; and the survivor's session spends
    the proof to run the merge of Merge.v. Handlers interleave between database operations;
    the merge itself is the handler [mergeAccounts] on its part of the database. *)

From S2P Require Import Prelude Threads Matching Policy Selection RateLimit Registry SybilScore.
From S2P Require Import Session SybilConfig RecoveryEditor Recovery OidcAuthorize Bitstring Interleave.
From S2P Require Import StatusList OidcFlow Merge MergeProofs Credentials CredentialProofs.

Open Scope Z_scope.

(** The accounts and the ownership of rows, the lifecycle columns of the passkeys, the
    address and verification columns of the addresses, the single-use markers, audit rows,
    mails, and the hits of the per-IP limiter. *)
Record CeremonyDB := {
  mc_db : MergeDB;
  mc_passkeys : gmap string (string * option Z);
  mc_addresses : gmap string (string * option Z);
  mc_markers : gmap (string * string) Z;
  mc_audit : list (string * string * string);
  mc_mails : list (string * string);
  mc_hits : gmap string (list Z);
}.

Definition set_mc_db (m : MergeDB) (db : CeremonyDB) : CeremonyDB :=
  {| mc_db := m; mc_passkeys := mc_passkeys db; mc_addresses := mc_addresses db; mc_markers := mc_markers db;
     mc_audit := mc_audit db; mc_mails := mc_mails db; mc_hits := mc_hits db |}.
Definition set_mc_markers (m : gmap (string * string) Z) (db : CeremonyDB) : CeremonyDB :=
  {| mc_db := mc_db db; mc_passkeys := mc_passkeys db; mc_addresses := mc_addresses db; mc_markers := m;
     mc_audit := mc_audit db; mc_mails := mc_mails db; mc_hits := mc_hits db |}.
Definition set_mc_hits (h : gmap string (list Z)) (db : CeremonyDB) : CeremonyDB :=
  {| mc_db := mc_db db; mc_passkeys := mc_passkeys db; mc_addresses := mc_addresses db; mc_markers := mc_markers db;
     mc_audit := mc_audit db; mc_mails := mc_mails db; mc_hits := h |}.
Definition add_mc_audit (u action detail : string) (db : CeremonyDB) : CeremonyDB :=
  {| mc_db := mc_db db; mc_passkeys := mc_passkeys db; mc_addresses := mc_addresses db; mc_markers := mc_markers db;
     mc_audit := mc_audit db ++ [(u, action, detail)]; mc_mails := mc_mails db; mc_hits := mc_hits db |}.
Definition add_mc_mail (to subject : string) (db : CeremonyDB) : CeremonyDB :=
  {| mc_db := mc_db db; mc_passkeys := mc_passkeys db; mc_addresses := mc_addresses db; mc_markers := mc_markers db;
     mc_audit := mc_audit db; mc_mails := mc_mails db ++ [(to, subject)]; mc_hits := mc_hits db |}.

(** The columns the session layer reads. *)
Definition sessionFlags (u : MergeUser) : UserFlags :=
  {| u_sessionGeneration := mu_sessionGeneration u; u_isAdmin := mu_isAdmin u; u_isBanned := mu_isBanned u;
     u_mergedIntoUserId := mu_mergedIntoUserId u; u_setupCompletedAt := None |}.

Definition currentSession (auth : option Session) (db : CeremonyDB) : option Session :=
  getCurrentSession auth (sessionFlags <$> mg_users (mc_db db)).

(** The passkeys of a user, with their lifecycle columns. *)
Definition ceremonyPasskeys (userId : string) (db : CeremonyDB) : list GatePasskeyRow :=
  omap (fun e : string * OwnRow => life ← mc_passkeys db !! e.1;
      Some {| gp_credentialID := e.1; gp_status := life.1; gp_quarantinedUntil := life.2 |})
    (rowsOf userId (mg_authenticators (mc_db db))).

(** ** Donor proofs (lib/merge-proof.ts) *)

Definition DONOR_PROOF_TTL_SECONDS : Z := 5 * 60.
Definition DONOR_PROOF_IDENTIFIER : string := "donor-proof-ticket".
Definition MERGE_LINK_IDENTIFIER : string := "merge-donor-link".
Definition MERGE_LINK_TTL_MS : Z := 15 * 60 * 1000.

(** The link's marker is bound to the pair by its identifier. *)
Definition linkIdentifier (survivor donor : string) : string :=
  MERGE_LINK_IDENTIFIER +:+ ":" +:+ survivor +:+ ":" +:+ donor.

Definition putMarker (identifier token : string) (expires : Z) (db : CeremonyDB) : bool * CeremonyDB :=
  match mc_markers db !! (identifier, token) with
  | Some _ => (false, db)
  | None => (true, set_mc_markers (<[(identifier, token) := expires]> (mc_markers db)) db)
  end.

Definition takeMarker (identifier token : string) (db : CeremonyDB) : bool * CeremonyDB :=
  match mc_markers db !! (identifier, token) with
  | Some _ => (true, set_mc_markers (delete (identifier, token) (mc_markers db)) db)
  | None => (false, db)
  end.

(** [deleteMany({ where: { identifier, token, expires: { gt: now } } })], count 1. *)
Definition takeLiveMarker (now : Z) (identifier token : string) (db : CeremonyDB) : bool * CeremonyDB :=
  match mc_markers db !! (identifier, token) with
  | Some expires => if now <? expires then (true, set_mc_markers (delete (identifier, token) (mc_markers db)) db) else (false, db)
  | None => (false, db)
  end.

(** ** The actions (server/merge-actions.ts) *)

(** The JWT library on donor proofs ([None]: no usable secret, or a ticket that does not
    verify), mail, the pairwise derivation, and the write conflicts of the merge. *)
Record CeremonyWorld := {
  kw_sign : string → string → option string;
  kw_verify : Z → string → option (string * string);
  kw_mail : string → bool;
  kw_sub : string → string → option string;
  kw_conflict : nat → bool;
}.

Inductive CeremonyResult (A : Type) :=
  | Granted (a : A)
  | AskStepUp (error : string)
  | Held (refusal : QuarantineRefusal)
  | Refused (error : string)
  | Raised (error : string).
Arguments Granted {A} a.
Arguments AskStepUp {A} error.
Arguments Held {A} refusal.
Arguments Refused {A} error.
Arguments Raised {A} error.

Section Ceremony.
Context (kw : CeremonyWorld) (now : Z).

Definition issueDonorProof (jti donorUserId : string) : thread CeremonyDB (option string) :=
  created ← act (putMarker DONOR_PROOF_IDENTIFIER jti (now + DONOR_PROOF_TTL_SECONDS * 1000));
  mret (if (created : bool) then kw_sign kw donorUserId jti else None).

Definition verifyDonorProof (ticket : string) : thread CeremonyDB (option string) :=
  match kw_verify kw now ticket with
  | None => mret None
  | Some (donorUserId, jti) =>
      deleted ← act (takeMarker DONOR_PROOF_IDENTIFIER jti);
      mret (if (deleted : bool) then Some donorUserId else None)
  end.

Definition auditMerge (u action detail : string) : thread CeremonyDB unit := write (add_mc_audit u action detail).

Definition mailOne (to subject : string) : thread CeremonyDB bool :=
  act (fun db => if kw_mail kw to then (true, add_mc_mail to subject db) else (false, db)).

Fixpoint mailAll (tos : list string) (subject : string) : thread CeremonyDB bool :=
  match tos with
  | [] => mret true
  | to :: tos => ok ← mailOne to subject; if (ok : bool) then mailAll tos subject else mret false
  end.

(** The gate of Credentials.v on this database. *)
Definition gateMerge (userId : string) (acting : option string) (action : PrivilegedActionName) :
    thread CeremonyDB (option QuarantineRefusal) :=
  passkeys ← read (ceremonyPasskeys userId);
  match evaluatePrivilegedGate passkeys acting now with
  | Some r => _ ← auditMerge userId "credential.quarantine_refused" (actionName action); mret (Some r)
  | None => mret None
  end.

(** The eligible account of a verified address. *)
Definition resolveVerifiedUserIdByEmail (email : string) (db : CeremonyDB) : option string :=
  '(id, (_, verifiedAt)) ← head (map_to_list (filter (fun e => e.2.1 = email) (mc_addresses db)));
  row ← mg_emails (mc_db db) !! id;
  u ← mg_users (mc_db db) !! eo_userId row;
  if bool_decide (verifiedAt = None) then None
  else if mu_isBanned u || bool_decide (mu_mergedIntoUserId u ≠ None) then None
  else Some (eo_userId row).

(** The session checks both survivor actions make. *)
Definition survivorSession {A} (auth : option Session) (below recovered : string)
    (k : Session → thread CeremonyDB (CeremonyResult A)) : thread CeremonyDB (CeremonyResult A) :=
  session ← read (currentSession auth);
  match session with
  | None => mret (Refused "Not signed in")
  | Some session =>
      if bool_decide (s_userId session = "") then mret (Refused "Not signed in")
      else if default 0 (s_aal session) <? 2 then mret (AskStepUp below)
      else if s_recovered session then mret (Refused recovered)
      else k session
  end.

(** Windows of fifteen minutes, ten links per IP. *)
Definition mergeLinkLimiter (ip : string) : thread CeremonyDB bool :=
  act (fun db => let '(verdict, hits) := check (15 * 60000) 10 (mc_hits db) ip now in (allowed verdict, set_mc_hits hits db)).

(** [true] when a link was mailed, which the caller is not told. *)
Definition startMerge (auth : option Session) (ip donorEmail token : string) : thread CeremonyDB (CeremonyResult bool) :=
  survivorSession auth "Merging accounts requires signing in with a passkey first."
    "A recovered session can't start an account merge. Add a passkey first." (fun session =>
  ok ← mergeLinkLimiter ip;
  if negb ok then mret (Refused "Too many merge requests. Try again later.")
  else
    let survivorUserId := s_userId session in
    refusal ← gateMerge survivorUserId (s_cred session) merge_start;
    match refusal with
    | Some r => mret (Held r)
    | None =>
        let email := toLowerCase (trim donorEmail) in
        if negb (existsb (fun c => bool_decide (c = "@"%char)) (String.list_ascii_of_string email))
        then mret (Refused "Enter the email on the account you want to merge in.")
        else
          donor ← read (resolveVerifiedUserIdByEmail email);
          match donor with
          | None => _ ← auditMerge survivorUserId "merge.link_requested" "false"; mret (Granted false)
          | Some donorUserId =>
              if decide (donorUserId = survivorUserId)
              then _ ← auditMerge survivorUserId "merge.link_requested" "false"; mret (Granted false)
              else
                created ← act (putMarker (linkIdentifier survivorUserId donorUserId) token (now + MERGE_LINK_TTL_MS));
                if negb created then mret (Raised "Unique constraint failed")
                else
                  sent ← mailOne email "Confirm merging this account into another";
                  if negb sent then mret (Raised "mail")
                  else _ ← auditMerge survivorUserId "merge.link_requested" donorUserId; mret (Granted true)
          end
    end).

Definition completeDonorLink (jti token survivorUserId donorUserId : string) : thread CeremonyDB (CeremonyResult string) :=
  if bool_decide (token = "" ∨ survivorUserId = "" ∨ donorUserId = "") then
    mret (Refused "This confirmation link is malformed.")
  else if decide (survivorUserId = donorUserId) then mret (Refused "An account can't be merged into itself.")
  else
    consumed ← act (takeLiveMarker now (linkIdentifier survivorUserId donorUserId) token);
    if negb consumed then mret (Refused "This confirmation link is invalid, expired, or already used.")
    else
      donor ← read (fun db => mg_users (mc_db db) !! donorUserId);
      match donor with
      | Some u =>
          if mu_isBanned u || bool_decide (mu_mergedIntoUserId u ≠ None)
          then mret (Refused "This account can no longer be merged.")
          else
            proof ← issueDonorProof jti donorUserId;
            match proof with
            | None => mret (Raised "donor-proof")
            | Some donorProof => _ ← auditMerge donorUserId "merge.donor_proven" survivorUserId; mret (Granted donorProof)
            end
      | None => mret (Refused "This account can no longer be merged.")
      end.

(** The verified addresses of the two accounts. *)
Definition verifiedAddresses (us : list string) (db : CeremonyDB) : list string :=
  omap (fun e : string * EmailOwn =>
      '(address, verifiedAt) ← mc_addresses db !! e.1;
      if bool_decide (eo_userId e.2 ∈ us ∧ verifiedAt ≠ None) then Some address else None)
    (map_to_list (mg_emails (mc_db db))).

Definition confirmMerge (recordId : string) (auth : option Session) (donorProofTicket intendedDonorUserId : string) :
    thread CeremonyDB (CeremonyResult MergeSummary) :=
  survivorSession auth "Completing a merge requires signing in with a passkey first."
    "A recovered session can't complete an account merge. Add a passkey first." (fun session =>
  let survivorUserId := s_userId session in
  refusal ← gateMerge survivorUserId (s_cred session) merge_confirm;
  match refusal with
  | Some r => mret (Held r)
  | None =>
      proven ← verifyDonorProof donorProofTicket;
      match proven with
      | None => mret (Refused "Donor confirmation is invalid, expired, or already used.")
      | Some donorUserId =>
          if negb (bool_decide (donorUserId = intendedDonorUserId))
          then mret (Refused "Donor confirmation doesn't match the account you selected.")
          else if decide (donorUserId = survivorUserId) then mret (Refused "An account can't be merged into itself.")
          else
            survivor ← read (fun db => mg_users (mc_db db) !! survivorUserId);
            donor ← read (fun db => mg_users (mc_db db) !! donorUserId);
            if bool_decide ((mu_mergedIntoUserId <$> survivor) ≠ Some None)
            then mret (Refused "Your account is no longer in a state that can absorb a merge.")
            else if bool_decide ((mu_mergedIntoUserId <$> donor) ≠ Some None)
            then mret (Refused "That account can no longer be merged (already merged or missing).")
            else
              emails ← read (verifiedAddresses [survivorUserId; donorUserId]);
              merged ← zoom mc_db set_mc_db (mergeAccounts now recordId (kw_sub kw) (kw_conflict kw) survivorUserId donorUserId);
              match merged with
              | Err e => mret (Raised e)
              | Ok (summary, _) =>
                  _ ← auditMerge survivorUserId "merge.completed" donorUserId;
                  sent ← mailAll emails "Two Minister accounts were merged";
                  mret (if (sent : bool) then Granted summary else Raised "mail")
              end
      end
  end).

End Ceremony.

(** ** A merge for a link *)

Inductive CeremonyRequest :=
  | Start (auth : option Session) (ip donorEmail token : string)
  | Complete (jti token survivorUserId donorUserId : string)
  | Confirm (recordId : string) (auth : option Session) (ticket intended : string).

Definition handleCeremony (kw : CeremonyWorld) (now : Z) (rq : CeremonyRequest) : thread CeremonyDB unit :=
  match rq with
  | Start auth ip email token => _ ← startMerge kw now auth ip email token; mret tt
  | Complete jti token s d => _ ← completeDonorLink kw now jti token s d; mret tt
  | Confirm rid auth ticket d => _ ← confirmMerge kw now rid auth ticket d; mret tt
  end.

(** Merges done and markers that can still lead to one. *)
Definition ceremonyWeight (db : CeremonyDB) : nat := (size (mc_markers db) + size (mg_records (mc_db db)))%nat.

Definition budget (m : nat) (db : CeremonyDB) : Prop := (ceremonyWeight db ≤ m)%nat.

(** A start may mail one link. *)
Definition linksOf (rq : CeremonyRequest) : nat := match rq with Start _ _ _ _ => 1%nat | _ => 0%nat end.

Definition sameWeight (db db' : CeremonyDB) : Prop := ceremonyWeight db' = ceremonyWeight db.

#[export] Instance sameWeight_preorder : PreOrder sameWeight.
Proof. split; [done|]. unfold sameWeight. intros ? ? ? H1 H2. congruence. Qed.

Lemma budget_same m db db' : budget m db → sameWeight db db' → budget m db'.
Proof. unfold budget, sameWeight. lia. Qed.

Section Budget.
Context (kw : CeremonyWorld) (now : Z).
Local Abbreviation T := (fun _ (_ : nat) => True).

(** Operations that do not change the weight, in front of the rest. *)
Lemma weightless {A B} n (t : thread CeremonyDB A) (k : A → thread CeremonyDB B) :
  steps_in sameWeight t → (∀ a, uses budget T n (k a)) → uses budget T n (t ≫= k).
Proof. intros Ht Hk. eapply uses_frame; [exact budget_same|exact Ht|exact Hk]. Qed.

Lemma weightless_ret {A} n (a : A) : uses budget T n (mret a).
Proof. done. Qed.

Lemma audit_weight u a d : steps_in sameWeight (auditMerge u a d).
Proof. by apply steps_in_write. Qed.

Lemma mailOne_weight to subject : steps_in sameWeight (mailOne kw to subject).
Proof. apply steps_in_act. intros db. by destruct (kw_mail kw to). Qed.

Lemma mailAll_weight tos subject : steps_in sameWeight (mailAll kw tos subject).
Proof.
  induction tos as [|to tos IH]; [done|]. apply steps_in_bind; [apply mailOne_weight|]. by intros [].
Qed.

Lemma read_weight {A} (f : CeremonyDB → A) : steps_in sameWeight (read f).
Proof. apply steps_in_read, _. Qed.

Lemma gateMerge_weight u acting a : steps_in sameWeight (gateMerge now u acting a).
Proof.
  apply steps_in_bind; [apply read_weight|]. intros ps. destruct (evaluatePrivilegedGate ps acting now); [|done].
  apply steps_in_bind; [apply audit_weight|done].
Qed.

(** A new marker costs a token, a marker taken gives one. *)
Lemma putMarker_uses {B} (Q : B → nat → Prop) n identifier token expires (k : bool → thread CeremonyDB B) :
  (∀ b, uses budget Q n (k b)) → uses budget Q (S n) (act (putMarker identifier token expires) ≫= k).
Proof.
  intros Hk. apply uses_act. intros m db Hm. unfold putMarker.
  destruct (mc_markers db !! (identifier, token)) eqn:E; cbn.
  - exists m, n. split_and!; [lia|done|apply Hk].
  - exists (S m), n. split_and!; [lia| |apply Hk]. unfold budget, ceremonyWeight in *. cbn.
    rewrite map_size_insert_None by done. lia.
Qed.

Lemma take_uses {B} (Q : B → nat → Prop) n (f : CeremonyDB → bool * CeremonyDB) (k : bool → thread CeremonyDB B) :
  (∀ db, (f db).1 = false ∧ (f db).2 = db ∨
         (f db).1 = true ∧ ∃ key, is_Some (mc_markers db !! key) ∧ (f db).2 = set_mc_markers (delete key (mc_markers db)) db) →
  uses budget Q n (k false) → uses budget Q (S n) (k true) → uses budget Q n (act f ≫= k).
Proof.
  intros Hf H0 H1. apply uses_act. intros m db Hm. destruct (Hf db) as [[-> ->]|[-> (key & [e He] & ->)]].
  - exists m, n. split_and!; [lia|done|done].
  - exists (m - 1)%nat, (S n). unfold budget, ceremonyWeight in *. cbn.
    assert (size (mc_markers db) ≠ 0%nat) by (rewrite map_size_ne_0_lookup; eauto).
    assert (size (delete key (mc_markers db)) = (size (mc_markers db) - 1)%nat) as Hs by (rewrite map_size_delete, He; lia).
    split_and!; [lia|lia|done].
Qed.

Lemma takeMarker_cases identifier token db :
  (takeMarker identifier token db).1 = false ∧ (takeMarker identifier token db).2 = db ∨
  (takeMarker identifier token db).1 = true ∧ ∃ key, is_Some (mc_markers db !! key) ∧
    (takeMarker identifier token db).2 = set_mc_markers (delete key (mc_markers db)) db.
Proof. unfold takeMarker. destruct (mc_markers db !! (identifier, token)) eqn:E; [right|by left]. split; [done|]. eauto. Qed.

Lemma takeLiveMarker_cases identifier token db :
  (takeLiveMarker now identifier token db).1 = false ∧ (takeLiveMarker now identifier token db).2 = db ∨
  (takeLiveMarker now identifier token db).1 = true ∧ ∃ key, is_Some (mc_markers db !! key) ∧
    (takeLiveMarker now identifier token db).2 = set_mc_markers (delete key (mc_markers db)) db.
Proof.
  unfold takeLiveMarker. destruct (mc_markers db !! (identifier, token)) eqn:E; [|by left].
  destruct (now <? z); [right; split; [done|]; eauto|by left].
Qed.

Lemma survivorSession_uses {A} n auth below recovered (k : Session → thread CeremonyDB (CeremonyResult A)) :
  (∀ session, uses budget T n (k session)) → uses budget T n (survivorSession auth below recovered k).
Proof.
  intros Hk. apply weightless; [apply read_weight|]. intros [session|]; [|done].
  case_bool_decide; [done|]. case_match; [done|]. by case_match.
Qed.

Lemma startMerge_uses auth ip email token : uses budget T 1 (startMerge kw now auth ip email token).
Proof.
  apply survivorSession_uses. intros session. apply weightless.
  { apply steps_in_act. intros db. by destruct (check _ _ _ _ _). }
  intros ok. destruct ok; [|done]. apply weightless; [apply gateMerge_weight|]. intros [r|]; [done|].
  cbn zeta. match goal with |- context [negb (existsb ?f ?l)] => destruct (existsb f l) end; [|done]. apply weightless; [apply read_weight|].
  intros [donor|]; [|apply weightless; [apply audit_weight|done]].
  destruct (decide (donor = s_userId session)); [apply weightless; [apply audit_weight|done]|].
  apply putMarker_uses. intros []; [|done]. apply weightless; [apply mailOne_weight|]. intros []; [|done].
  apply weightless; [apply audit_weight|done].
Qed.

Lemma completeDonorLink_uses jti token s d : uses budget T 0 (completeDonorLink kw now jti token s d).
Proof.
  unfold completeDonorLink. case_bool_decide; [done|]. destruct (decide (s = d)); [done|].
  apply take_uses; [apply takeLiveMarker_cases|done|]. apply weightless; [apply read_weight|].
  intros [u|]; [|done]. destruct (_ || _); [done|]. apply uses_bind.
  apply putMarker_uses. intros b. apply uses_ret. destruct (if b then _ else _); [|done].
  apply weightless; [apply audit_weight|done].
Qed.

(** The merge itself: one record, for one token. *)
Lemma mergeAccounts_uses rid s d :
  uses budget T 1 (zoom mc_db set_mc_db (mergeAccounts now rid (kw_sub kw) (kw_conflict kw) s d)).
Proof.
  unfold mergeAccounts. case_decide; [done|]. intros m db Hm. exists m, 1%nat. split_and!; [lia|by destruct db|]. cbn [act read].
  cbn -[runWithWriteConflictRetry]. destruct (mapM _ _) as [subs|]; [|done].
  generalize 1%nat at 2. generalize MAX_TX_ATTEMPTS. induction n as [|n IH]; intros i; [done|].
  cbn. clear m db Hm. intros m db Hm. destruct (kw_conflict kw i); cbn.
  { exists m, 1%nat. split_and!; [lia|by destruct db|apply IH]. }
  destruct (runMergeTx now rid s d subs (mc_db db)) as [[[sum ra] db']|e] eqn:E; cbn.
  - exists (S m), 0%nat. split_and!; [lia| |done]. unfold budget, ceremonyWeight in *. cbn.
    apply runMergeTx_Ok in E as (? & ? & ? & [_ _ _ _ _ _ Hr] & _ & ->). cbn. rewrite map_size_insert_None by done. lia.
  - exists m, 1%nat. split_and!; [lia|by destruct db|done].
Qed.

Lemma confirmMerge_uses rid auth ticket d : uses budget T 0 (confirmMerge kw now rid auth ticket d).
Proof.
  apply survivorSession_uses. intros session. apply weightless; [apply gateMerge_weight|]. intros [r|]; [done|].
  apply uses_bind. unfold verifyDonorProof. destruct (kw_verify kw now ticket) as [[donor jti]|]; [|done].
  apply take_uses; [apply takeMarker_cases|done|]. apply uses_ret.
  case_bool_decide; [|done]. cbn [negb]. destruct (decide (donor = s_userId session)); [done|].
  apply weightless; [apply read_weight|]. intros su. apply weightless; [apply read_weight|]. intros du.
  case_bool_decide; [done|]. case_bool_decide; [done|]. apply weightless; [apply read_weight|]. intros emails.
  apply uses_bind. eapply uses_impl; [|apply mergeAccounts_uses]. intros [[sum ra]|e] n0 _; [|done].
  apply weightless; [apply audit_weight|]. intros _. apply weightless; [apply mailAll_weight|done].
Qed.

Lemma handleCeremony_uses rq : uses budget T (linksOf rq) (handleCeremony kw now rq).
Proof.
  destruct rq; cbn [handleCeremony linksOf]; apply uses_bind; (eapply uses_impl; [by intros ? ? _|]).
  - apply startMerge_uses.
  - apply completeDonorLink_uses.
  - apply confirmMerge_uses.
Qed.
End Budget.

(** C18: whatever requests run at once and however they interleave, each merge that is done
    spends a donor proof, each donor proof a link, and each link a start by a survivor: the
    merges done never outnumber the markers there were plus the starts made. *)
Theorem merges_need_links kw now rqs sched db :
  (size (mg_records (mc_db (pool_run sched (handleCeremony kw now <$> rqs, db)).2)) ≤
   size (mg_records (mc_db db)) + size (mc_markers db) + sum_list (linksOf <$> rqs))%nat.
Proof.
  destruct (pool_run_funded budget (fun _ _ => True) sched (handleCeremony kw now <$> rqs) db (linksOf <$> rqs) (ceremonyWeight db))
    as (m & ns & Hm & _ & Hle).
  - unfold budget. done.
  - apply Forall2_fmap, Forall_Forall2_diag, Forall_true. apply handleCeremony_uses.
  - unfold budget, ceremonyWeight in *. lia.
Qed.

(** ** What a completed merge has behind it *)

(** The survivor: live, at AAL2, not recovering, past the gate. *)
Definition trustedSurvivor (now : Z) (auth : option Session) (session : Session) (db : CeremonyDB) : Prop :=
  auth = Some session ∧ live_session (sessionFlags <$> mg_users (mc_db db)) session ∧
  2 ≤ default 0 (s_aal session) ∧ s_recovered session = false ∧
  evaluatePrivilegedGate (ceremonyPasskeys (s_userId session) db) (s_cred session) now = None.

Lemma survivorSession_Granted {A} auth below recovered (k : Session → thread CeremonyDB (CeremonyResult A)) db a db' :
  run_solo (survivorSession auth below recovered k) db = (Granted a, db') →
  ∃ session, auth = Some session ∧ live_session (sessionFlags <$> mg_users (mc_db db)) session ∧
    2 ≤ default 0 (s_aal session) ∧ s_recovered session = false ∧ run_solo (k session) db = (Granted a, db').
Proof.
  unfold survivorSession. rewrite run_solo_read. unfold currentSession, getCurrentSession.
  destruct (loadSessionFlags auth _) as [flags|] eqn:E; cbn [fmap option_fmap option_map]; [|done].
  apply loadSessionFlags_live in E as (-> & Hl & _).
  case_bool_decide; [done|]. destruct (Z.ltb_spec (default 0 (s_aal (sf_session flags))) 2); [done|].
  destruct (s_recovered (sf_session flags)) eqn:Er; [done|]. intros Hk. eauto 8.
Qed.

Lemma gateMerge_solo now u acting a db :
  run_solo (gateMerge now u acting a) db =
    match evaluatePrivilegedGate (ceremonyPasskeys u db) acting now with
    | Some r => (Some r, add_mc_audit u "credential.quarantine_refused" (actionName a) db)
    | None => (None, db)
    end.
Proof. unfold gateMerge. rewrite run_solo_read. by destruct (evaluatePrivilegedGate _ acting now). Qed.

Definition sameMarkersAndAccounts (db db' : CeremonyDB) : Prop := mc_markers db' = mc_markers db ∧ mc_db db' = mc_db db.

#[export] Instance sameMarkersAndAccounts_preorder : PreOrder sameMarkersAndAccounts.
Proof. split; [done|]. intros ? ? ? [? ?] [? ?]. split; congruence. Qed.

Lemma mailAll_same kw tos subject : steps_in sameMarkersAndAccounts (mailAll kw tos subject).
Proof.
  induction tos as [|to tos IH]; [done|]. apply steps_in_bind; [|by intros []].
  apply steps_in_act. intros db. by destruct (kw_mail kw to).
Qed.

(** A completed merge was run by a survivor in a live AAL2 session that is not a recovery
    session and passes the quarantine gate, with an authentic donor proof for the very donor
    it named, another account, whose marker it spent; and what changed among the accounts is
    what [mergeAccounts] does. *)
Theorem confirm_merge_sound kw now rid auth ticket d db summary db' :
  run_solo (confirmMerge kw now rid auth ticket d) db = (Granted summary, db') →
  ∃ session jti ra, trustedSurvivor now auth session db ∧ d ≠ s_userId session ∧
    kw_verify kw now ticket = Some (d, jti) ∧
    is_Some (mc_markers db !! (DONOR_PROOF_IDENTIFIER, jti)) ∧ mc_markers db' !! (DONOR_PROOF_IDENTIFIER, jti) = None ∧
    run_solo (mergeAccounts now rid (kw_sub kw) (kw_conflict kw) (s_userId session) d) (mc_db db) = (Ok (summary, ra), mc_db db').
Proof.
  intros (session & Ha & Hl & Haal & Hr & H)%survivorSession_Granted.
  rewrite run_solo_bind, gateMerge_solo in H.
  destruct (evaluatePrivilegedGate _ _ now) eqn:Eg; [done|]. cbn [fst snd] in H. rewrite run_solo_bind in H.
  unfold verifyDonorProof in H. destruct (kw_verify kw now ticket) as [[donor jti]|] eqn:Ev; [|done].
  rewrite !run_solo_bind in H. cbn [run_solo act fst snd mret thread_ret] in H. unfold takeMarker in H.
  destruct (mc_markers db !! (DONOR_PROOF_IDENTIFIER, jti)) as [e|] eqn:Em; [|done]. cbn [fst snd] in H.
  case_bool_decide as Hd; [|done]. subst donor. cbn [negb] in H. destruct (decide (d = s_userId session)); [done|].
  rewrite !run_solo_read in H. case_bool_decide; [done|]. case_bool_decide; [done|]. rewrite run_solo_read, run_solo_bind in H.
  rewrite run_solo_zoom in H by done || by intros [].
  cbn [mc_db set_mc_markers] in H.
  destruct (run_solo (mergeAccounts _ _ _ _ _ _) (mc_db db)) as [[[sum ra]|err] m] eqn:Em2; [|done].
  cbn [fst snd] in H. rewrite !run_solo_bind in H. cbn [run_solo auditMerge write act fst snd mret thread_ret] in H.
  match type of H with context [run_solo (mailAll ?a ?b ?c) ?d0] =>
    pose proof (steps_in_run sameMarkersAndAccounts (mailAll a b c) d0 (mailAll_same a b c)) as [Hm Hdb];
    destruct (run_solo (mailAll a b c) d0) as [sent db1]
  end. cbn [fst snd] in *. destruct sent; [|done]. injection H as <- <-.
  exists session, jti, ra. rewrite Hm, Hdb. cbn. split_and!; try done.
  apply lookup_delete_eq.
Qed.

(** A link is mailed only on behalf of a trusted survivor, to a verified address of the
    donor it is bound to, which is another, live and unbanned account. *)
Theorem link_goes_to_donor kw now auth ip email token db db' :
  run_solo (startMerge kw now auth ip email token) db = (Granted true, db') →
  ∃ session d id verifiedAt row u, trustedSurvivor now auth session db ∧ d ≠ s_userId session ∧
    mc_addresses db !! id = Some (toLowerCase (trim email), Some verifiedAt) ∧
    mg_emails (mc_db db) !! id = Some row ∧ eo_userId row = d ∧
    mg_users (mc_db db) !! d = Some u ∧ mu_isBanned u = false ∧ mu_mergedIntoUserId u = None ∧
    mc_markers db' = <[(linkIdentifier (s_userId session) d, token) := now + MERGE_LINK_TTL_MS]> (mc_markers db) ∧
    mc_mails db' = mc_mails db ++ [(toLowerCase (trim email), "Confirm merging this account into another")].
Proof.
  intros (session & Ha & Hl & Haal & Hr & H)%survivorSession_Granted. rewrite run_solo_bind in H.
  unfold mergeLinkLimiter in H. cbn [run_solo act fst snd] in H.
  destruct (check _ _ _ ip now) as [verdict hits]. cbn [fst snd] in H. destruct (allowed verdict); [|done].
  cbn [negb] in H. rewrite run_solo_bind, gateMerge_solo in H.
  change (ceremonyPasskeys (s_userId session) (set_mc_hits hits db)) with (ceremonyPasskeys (s_userId session) db) in H.
  destruct (evaluatePrivilegedGate _ _ now) eqn:Eg; [done|]. cbn [fst snd] in H. cbn zeta in H.
  match type of H with context [negb (existsb ?f ?l)] => destruct (existsb f l) end; [|done]. cbn [negb] in H.
  rewrite run_solo_read in H. unfold resolveVerifiedUserIdByEmail in H. cbn [mc_db mc_addresses set_mc_hits] in H.
  destruct (head _) as [[id [address verifiedAt]]|] eqn:Eh; [|done]. cbn [mbind option_bind] in H.
  apply head_Some_elem_of, elem_of_map_to_list, map_lookup_filter_Some in Eh as [Hid Haddr]. cbn in Haddr. subst address.
  destruct (mg_emails (mc_db db) !! id) as [row|] eqn:Erow; [|done]. cbn [mbind option_bind] in H.
  destruct (mg_users (mc_db db) !! eo_userId row) as [u|] eqn:Eu; [|done]. cbn [mbind option_bind] in H.
  case_bool_decide as Hv; [done|]. destruct verifiedAt as [v|]; [|done].
  destruct (mu_isBanned u || bool_decide (mu_mergedIntoUserId u ≠ None)) eqn:Eb; [done|].
  apply orb_false_iff in Eb as [Hb Hmg%bool_decide_eq_false%dec_stable].
  destruct (decide (eo_userId row = s_userId session)); [done|].
  rewrite run_solo_bind in H. cbn [run_solo act fst snd] in H. unfold putMarker in H. cbn [mc_markers set_mc_hits] in H.
  destruct (mc_markers db !! _) eqn:Em; [done|]. cbn [fst snd negb] in H.
  rewrite run_solo_bind in H. unfold mailOne in H. cbn [run_solo act fst snd] in H.
  destruct (kw_mail kw _); [|done]. cbn in H. injection H as <-.
  exists session, (eo_userId row), id, v, row, u. cbn. split_and!; done.
Qed.

(** ** Witnesses *)
Module CeremonyDemo.

Definition world : CeremonyWorld :=
  {| kw_sign := fun d jti => Some (d +:+ "." +:+ jti);
     kw_verify := fun _ t => if decide (t = "d.j1") then Some ("d", "j1") else None;
     kw_mail := fun _ => true; kw_sub := Demo.sub; kw_conflict := Demo.calm |}.

Definition session : option Session :=
  Some {| s_userId := "s"; s_sessionGeneration := Some 3; s_aal := Some 2; s_recovered := false;
          s_auth_time := Some 0; s_cred := Some "k1" |}.

(** "s" asks to merge "d", whose address is verified. *)
Definition db : CeremonyDB :=
  {| mc_db := Demo.db; mc_passkeys := {["k1" := ("active", None); "k2" := ("quarantined", Some 99999)]};
     mc_addresses := {["e1" := ("s@x.org", Some 1); "e2" := ("d@x.org", Some 2)]};
     mc_markers := ∅; mc_audit := []; mc_mails := []; mc_hits := ∅ |}.

(** After the start and the click. *)
Definition proven : CeremonyDB :=
  (run_solo (_ ← startMerge world 10 session "ip" " D@x.org" "tok"; completeDonorLink world 20 "j1" "tok" "s" "d") db).2.

End CeremonyDemo.

Lemma merges_need_links_demo :
  size (mg_records (mc_db (pool_run [0; 0; 0; 0; 0; 0; 0; 1; 1; 1; 1; 2; 2; 2; 2; 2; 2; 2; 2; 2; 2; 2; 3; 3; 3; 3]%nat
    (handleCeremony CeremonyDemo.world 10 <$> [Start CeremonyDemo.session "ip" "d@x.org" "tok"; Complete "j1" "tok" "s" "d";
       Confirm "m1" CeremonyDemo.session "d.j1" "d"; Confirm "m2" CeremonyDemo.session "d.j1" "d"], CeremonyDemo.db)).2)) = 1%nat.
Proof. vm_compute. reflexivity. Qed.

Lemma confirm_merge_sound_witness : ∃ summary db',
  run_solo (confirmMerge CeremonyDemo.world 30 "m1" CeremonyDemo.session "d.j1" "d") CeremonyDemo.proven = (Granted summary, db') ∧
  mc_markers db' !! (DONOR_PROOF_IDENTIFIER, "j1") = None.
Proof.
  destruct (run_solo (confirmMerge CeremonyDemo.world 30 "m1" CeremonyDemo.session "d.j1" "d") CeremonyDemo.proven) as [r db'] eqn:E.
  destruct r as [summary|e|q|e|e]; try (vm_compute in E; discriminate).
  exists summary, db'. split; [reflexivity|].
  destruct (confirm_merge_sound CeremonyDemo.world 30 "m1" CeremonyDemo.session "d.j1" "d" CeremonyDemo.proven summary db' E)
    as (s & jti & ra & _ & _ & Hv & _ & Hm & _).
  vm_compute in Hv. injection Hv as <-. exact Hm.
Defined.

Lemma link_goes_to_donor_witness : ∃ db',
  run_solo (startMerge CeremonyDemo.world 10 CeremonyDemo.session "ip" " D@x.org" "tok") CeremonyDemo.db = (Granted true, db') ∧
  mc_mails db' = [("d@x.org", "Confirm merging this account into another")].
Proof.
  destruct (run_solo (startMerge CeremonyDemo.world 10 CeremonyDemo.session "ip" " D@x.org" "tok") CeremonyDemo.db) as [r db'] eqn:E.
  destruct r as [[]|e|q|e|e]; try (vm_compute in E; discriminate).
  exists db'. split; [reflexivity|].
  destruct (link_goes_to_donor CeremonyDemo.world 10 CeremonyDemo.session "ip" " D@x.org" "tok" CeremonyDemo.db db' E)
    as (s & d & id & v & row & u & _ & _ & _ & _ & _ & _ & _ & _ & _ & Hm). exact Hm.
Defined.
