(* ===== verification/AnonSeed.v ===== *)
(** * The enrollment of the private identity (server/anon-seed-actions.ts)

    The server's side of the anonymous seed: the enrollment row with its epoch, the wrapped
    blobs, and the actions on them. The verdict of the rate limiter and the instant of the
    request are arguments. A handler either throws ([Err]) or returns a value, which is itself
    a success or a refusal. *)

From S2P Require Import Prelude Threads RateLimit Session SignInOtp PairProtocol Credentials.

Open Scope Z_scope.
Open Scope minister_scope.

(** ** The database *)

Record SeedEnrollment := { se_enrollmentEpoch : Z; se_seedGeneratedAt : option Z; se_backupConfirmedAt : option Z }.

Record SeedBlob := { sb_ciphertext : Bytes; sb_iv : Bytes; sb_wrapVersion : Z }.

(** A relay session of device pairing. *)
Record PairRow := {
  pr_userId : string;
  pr_state : string;
  pr_sealedPayload : option string;
  pr_creatorSecretHash : string;
  pr_expiresAt : Z;
  pr_creatorIp : option string;
  pr_creatorUa : option string;
  pr_creatorCountry : option string;
  pr_creatorCity : option string;
  pr_sealerIp : option string;
  pr_sealerUa : option string;
}.

Record AuditRow := { ar_userId : string; ar_action : string; ar_createdAt : Z; ar_meta : list (string * string) }.

(** Enrollments by user, blobs by user and credential, relay sessions by id, the audit rows of
    these actions; the credential tables, which also hold users, addresses and mails sent. *)
Record SeedDB := {
  sd_cred : CredDB;
  sd_enrollments : gmap string SeedEnrollment;
  sd_blobs : gmap (string * string) SeedBlob;
  sd_pairs : gmap string PairRow;
  sd_audit : list AuditRow;
}.

Definition with_cred (c : CredDB) (db : SeedDB) : SeedDB :=
  {| sd_cred := c; sd_enrollments := sd_enrollments db; sd_blobs := sd_blobs db; sd_pairs := sd_pairs db; sd_audit := sd_audit db |}.
Definition with_enrollments (m : gmap string SeedEnrollment) (db : SeedDB) : SeedDB :=
  {| sd_cred := sd_cred db; sd_enrollments := m; sd_blobs := sd_blobs db; sd_pairs := sd_pairs db; sd_audit := sd_audit db |}.
Definition with_blobs (m : gmap (string * string) SeedBlob) (db : SeedDB) : SeedDB :=
  {| sd_cred := sd_cred db; sd_enrollments := sd_enrollments db; sd_blobs := m; sd_pairs := sd_pairs db; sd_audit := sd_audit db |}.
Definition with_pairs (m : gmap string PairRow) (db : SeedDB) : SeedDB :=
  {| sd_cred := sd_cred db; sd_enrollments := sd_enrollments db; sd_blobs := sd_blobs db; sd_pairs := m; sd_audit := sd_audit db |}.
Definition with_audit (r : AuditRow) (db : SeedDB) : SeedDB :=
  {| sd_cred := sd_cred db; sd_enrollments := sd_enrollments db; sd_blobs := sd_blobs db; sd_pairs := sd_pairs db; sd_audit := sd_audit db ++ [r] |}.

(** ** Results *)

Inductive AnonSeedStatus := none | pending_backup | active_seed.
Record AnonSeedState := { as_status : AnonSeedStatus; as_enrollmentEpoch : Z }.

(** The text of a refusal, or the message of the first issue of a failed parse. *)
Inductive SeedRefusal := Message (error : string) | FirstIssue.

Inductive SeedResult (A : Type) := SOk (a : A) | SErr (error : SeedRefusal).
Arguments SOk {A} a.
Arguments SErr {A} error.

Abbreviation seed_action A := (thread SeedDB (result ActionError (SeedResult A))).

Definition DISABLED_ERROR : string := "Private Identity is not enabled.".
Definition MAX_BLOBS_PER_USER : nat := 5.
Definition RESET_CONFIRM_PHRASE : string := "reset my anonymous key".
Definition REKEY_CONFIRM_PHRASE : string := "re-key my identity".
Definition REKEY_COOLDOWN_MS : Z := 7 * 24 * 60 * 60 * 1000.
Definition REKEY_RECENCY_SECS : Z := 5 * 60.

(** A quoted phrase. *)
Definition quoted (s : string) : string := String (Ascii.ascii_of_nat 34) s +:+ String (Ascii.ascii_of_nat 34) EmptyString.

Definition refuse {A} (error : string) : seed_action A := mret (Ok (SErr (Message error))).

Definition rateLimitGuard (verdict : RateLimitVerdict) : option string :=
  if allowed verdict then None
  else Some ("Too many requests. Wait " +:+ pretty (retryAfterSeconds verdict) +:+ "s and try again.").

Definition stateOf (row : option SeedEnrollment) : AnonSeedState :=
  match row with
  | None => {| as_status := none; as_enrollmentEpoch := 1 |}
  | Some r =>
      match se_seedGeneratedAt r with
      | None => {| as_status := none; as_enrollmentEpoch := se_enrollmentEpoch r |}
      | Some _ => {| as_status := match se_backupConfirmedAt r with None => pending_backup | Some _ => active_seed end;
                     as_enrollmentEpoch := se_enrollmentEpoch r |}
      end
  end.

(** [Buffer.from] ignores what it cannot read; the comparison with the re-encoding leaves the
    canonical spellings. *)
Definition decodeExactBytes (value : string) (expected : nat) (field : string) : result string Bytes :=
  let bad := Err (field +:+ " must be base64url of exactly " +:+ pretty expected +:+ " bytes") in
  match fromBase64Url value with
  | None => bad
  | Some buf => if negb (Nat.eqb (length buf) expected) || negb (bool_decide (toBase64Url buf = value)) then bad else Ok buf
  end.

(** ** Input *)

Definition CredentialId (s : string) : bool := Nat.leb (String.length s) 512 && BASE64URL_RE s.

Record PutBlobInput := { pb_credentialId : string; pb_ciphertext : string; pb_iv : string; pb_wrapVersion : option Z }.

Definition lengthIn (lo hi : nat) (s : string) : bool := Nat.leb lo (String.length s) && Nat.leb (String.length s) hi.

(** The parsed input, with the default of the wrap version. *)
Definition parsePutBlob (input : PutBlobInput) : option (string * string * string * Z) :=
  if CredentialId (pb_credentialId input) && lengthIn 1 128 (pb_ciphertext input) && lengthIn 1 64 (pb_iv input)
     && (default 1 (pb_wrapVersion input) =? 1)
  then Some (pb_credentialId input, pb_ciphertext input, pb_iv input, default 1 (pb_wrapVersion input))
  else None.

Definition phraseIs (phrase : option string) (expected : string) : bool :=
  bool_decide ((fun p => toLowerCase (trim p)) <$> phrase = Some expected).

(** ** Statements *)

(** The columns are 32-bit: an increment past them, or an update of an absent row, throws. *)
Definition bumpEpochAndPurge (userId : string) (db : SeedDB) : result ActionError SeedEnrollment * SeedDB :=
  match sd_enrollments db !! userId with
  | None => (Err (PlainError "record to update not found"), db)
  | Some row =>
      if 2147483647 <=? se_enrollmentEpoch row then (Err (PlainError "integer out of range"), db)
      else
        let row' := {| se_enrollmentEpoch := se_enrollmentEpoch row + 1; se_seedGeneratedAt := None; se_backupConfirmedAt := None |} in
        (Ok row', with_enrollments (<[userId := row']> (sd_enrollments db))
                    (with_blobs (filter (fun e => e.1.1 ≠ userId) (sd_blobs db)) db))
  end.

Definition upsertGenerated (now : Z) (userId : string) (db : SeedDB) : SeedEnrollment * SeedDB :=
  let row := match sd_enrollments db !! userId with
             | Some r => {| se_enrollmentEpoch := se_enrollmentEpoch r; se_seedGeneratedAt := Some now; se_backupConfirmedAt := se_backupConfirmedAt r |}
             | None => {| se_enrollmentEpoch := 1; se_seedGeneratedAt := Some now; se_backupConfirmedAt := None |}
             end in
  (row, with_enrollments (<[userId := row]> (sd_enrollments db)) db).

Definition updateConfirmed (now : Z) (userId : string) (db : SeedDB) : result ActionError SeedEnrollment * SeedDB :=
  match sd_enrollments db !! userId with
  | None => (Err (PlainError "record to update not found"), db)
  | Some r =>
      let row := {| se_enrollmentEpoch := se_enrollmentEpoch r; se_seedGeneratedAt := se_seedGeneratedAt r; se_backupConfirmedAt := Some now |} in
      (Ok row, with_enrollments (<[userId := row]> (sd_enrollments db)) db)
  end.

Definition blobsOf (userId : string) (db : SeedDB) : list (string * SeedBlob) :=
  map (fun e => (e.1.2, e.2)) (map_to_list (filter (fun e => e.1.1 = userId) (sd_blobs db))).

Definition deleteBlobs (userId credentialId : string) (db : SeedDB) : nat * SeedDB :=
  (match sd_blobs db !! (userId, credentialId) with Some _ => 1%nat | None => 0%nat end,
   with_blobs (delete (userId, credentialId) (sd_blobs db)) db).

(** The last successful re-key of a user after an instant. *)
Definition recentRekey (userId : string) (since : Z) (db : SeedDB) : option Z :=
  foldr (fun r acc =>
    if bool_decide (ar_userId r = userId) && bool_decide (ar_action r = "anon_seed.rekey") && (since <? ar_createdAt r)
    then Some (match acc with Some t => Z.max t (ar_createdAt r) | None => ar_createdAt r end) else acc) None (sd_audit db).

(** ** Actions *)

Section Actions.
Context (enabled : bool) (now : Z) (auth : option Session).

Definition auditSeed (userId action : string) (meta : list (string * string)) : thread SeedDB unit :=
  write (with_audit {| ar_userId := userId; ar_action := action; ar_createdAt := now; ar_meta := meta |}).

Definition sessionUser : thread SeedDB (result ActionError Session) :=
  read (fun db => requireSession auth (cu_flags <$> cd_users (sd_cred db))).

Definition findEnrollment (userId : string) : thread SeedDB (option SeedEnrollment) := read (fun db => sd_enrollments db !! userId).

Definition epochMeta (row : SeedEnrollment) : string * string := ("enrollmentEpoch", pretty (se_enrollmentEpoch row)).

Definition getAnonSeedState : seed_action AnonSeedState :=
  if negb enabled then refuse DISABLED_ERROR
  else
    session ←! sessionUser;
    row ← findEnrollment (s_userId session);
    mret (Ok (SOk (stateOf row))).

Definition beginAnonSeedEnrollment (verdict : RateLimitVerdict) : seed_action AnonSeedState :=
  if negb enabled then refuse DISABLED_ERROR
  else
    session ←! sessionUser;
    let userId := s_userId session in
    match rateLimitGuard verdict with
    | Some limited => refuse limited
    | None =>
        existing ← findEnrollment userId;
        if bool_decide (is_Some (existing ≫= se_seedGeneratedAt))
        then refuse "Private Identity already enrolled. Reset it before generating a new one."
        else
          row ← act (upsertGenerated now userId);
          _ ← auditSeed userId "anon_seed.generated" [epochMeta row];
          mret (Ok (SOk (stateOf (Some row))))
    end.

Definition confirmSeedBackup (verdict : RateLimitVerdict) : seed_action AnonSeedState :=
  if negb enabled then refuse DISABLED_ERROR
  else
    session ←! sessionUser;
    let userId := s_userId session in
    match rateLimitGuard verdict with
    | Some limited => refuse limited
    | None =>
        existing ← findEnrollment userId;
        if negb (bool_decide (is_Some (existing ≫= se_seedGeneratedAt)))
        then refuse "Generate a Private Identity before confirming its backup."
        else if bool_decide (is_Some (existing ≫= se_backupConfirmedAt)) then mret (Ok (SOk (stateOf existing)))
        else
          row ←! act (updateConfirmed now userId);
          _ ← auditSeed userId "anon_seed.backup_confirmed" [epochMeta row];
          mret (Ok (SOk (stateOf (Some row))))
    end.

(** The last statement of a put. *)
Definition storeBlob (userId credentialId : string) (blob : SeedBlob) (enrollment : SeedEnrollment) : seed_action unit :=
  _ ← write (fun db => with_blobs (<[(userId, credentialId) := blob]> (sd_blobs db)) db);
  _ ← auditSeed userId "anon_seed.blob_stored"
        [("credentialId", credentialId); ("wrapVersion", pretty (sb_wrapVersion blob)); epochMeta enrollment];
  mret (Ok (SOk tt)).

Definition putSeedBlob (verdict : RateLimitVerdict) (input : PutBlobInput) : seed_action unit :=
  if negb enabled then refuse DISABLED_ERROR
  else
    session ←! sessionUser;
    let userId := s_userId session in
    match rateLimitGuard verdict with
    | Some limited => refuse limited
    | None =>
        match parsePutBlob input with
        | None => mret (Ok (SErr FirstIssue))
        | Some (credentialId, ct, nonce, wrapVersion) =>
            match decodeExactBytes ct WRAP_CIPHERTEXT_BYTES "ciphertext" with
            | Err e => refuse e
            | Ok ciphertext =>
                match decodeExactBytes nonce WRAP_IV_BYTES "iv" with
                | Err e => refuse e
                | Ok iv =>
                    enrollment ← findEnrollment userId;
                    match enrollment with
                    | Some ({| se_backupConfirmedAt := Some _ |} as row) =>
                        let blob := {| sb_ciphertext := ciphertext; sb_iv := iv; sb_wrapVersion := wrapVersion |} in
                        existingForCred ← read (fun db => sd_blobs db !! (userId, credentialId));
                        match existingForCred with
                        | Some _ => storeBlob userId credentialId blob row
                        | None =>
                            count ← read (fun db => length (blobsOf userId db));
                            if Nat.leb MAX_BLOBS_PER_USER count
                            then refuse ("At most " +:+ pretty MAX_BLOBS_PER_USER +:+ " devices can store your Private Identity.")
                            else storeBlob userId credentialId blob row
                        end
                    | _ => refuse "Finish backing up your Private Identity before storing it."
                    end
                end
            end
        end
    end.

Definition getAnonPasskeyCredentialIds : seed_action (list string) :=
  if negb enabled then refuse DISABLED_ERROR
  else
    session ←! sessionUser;
    rows ← read (fun db => passkeysOf (s_userId session) (cd_passkeys (sd_cred db)));
    mret (Ok (SOk (map fst rows))).

Record SeedBlobView := { bv_credentialId : string; bv_ciphertext : string; bv_iv : string; bv_wrapVersion : Z; bv_enrollmentEpoch : Z }.

Definition getSeedBlobs : seed_action (list SeedBlobView) :=
  if negb enabled then refuse DISABLED_ERROR
  else
    session ←! sessionUser;
    enrollment ← findEnrollment (s_userId session);
    let enrollmentEpoch := from_option se_enrollmentEpoch 1 enrollment in
    rows ← read (blobsOf (s_userId session));
    mret (Ok (SOk (map (fun r => {| bv_credentialId := r.1; bv_ciphertext := toBase64Url (sb_ciphertext r.2); bv_iv := toBase64Url (sb_iv r.2);
                                     bv_wrapVersion := sb_wrapVersion r.2; bv_enrollmentEpoch := enrollmentEpoch |}) rows))).

Definition deleteSeedBlob (verdict : RateLimitVerdict) (credentialId : string) : seed_action unit :=
  if negb enabled then refuse DISABLED_ERROR
  else
    session ←! sessionUser;
    let userId := s_userId session in
    match rateLimitGuard verdict with
    | Some limited => refuse limited
    | None =>
        if negb (CredentialId credentialId) then refuse "Invalid credential id"
        else
          count ← act (deleteBlobs userId credentialId);
          _ ← (if Nat.ltb 0 count then auditSeed userId "anon_seed.blob_deleted" [("credentialId", credentialId)] else mret tt);
          mret (Ok (SOk tt))
    end.

Definition resetAnonSeed (verdict : RateLimitVerdict) (confirmPhrase : option string) : seed_action AnonSeedState :=
  if negb enabled then refuse DISABLED_ERROR
  else
    session ←! sessionUser;
    let userId := s_userId session in
    match rateLimitGuard verdict with
    | Some limited => refuse limited
    | None =>
        existing ← findEnrollment userId;
        if negb (bool_decide (is_Some (existing ≫= se_seedGeneratedAt))) then refuse "No Private Identity to reset."
        else
          let wasActive := bool_decide (is_Some (existing ≫= se_backupConfirmedAt)) in
          if wasActive && negb (phraseIs confirmPhrase RESET_CONFIRM_PHRASE)
          then refuse ("Type " +:+ quoted RESET_CONFIRM_PHRASE +:+ " to confirm — this permanently replaces your anonymous identity in every app.")
          else
            row ←! act (bumpEpochAndPurge userId);
            _ ← auditSeed userId "anon_seed.reset" [epochMeta row; ("wasActive", if wasActive then "true" else "false")];
            mret (Ok (SOk (stateOf (Some row))))
    end.

(** *** Re-key *)

Inductive RekeyResult :=
  | RekeyOk (state : AnonSeedState)
  | RekeyStepUp (error : string)
  | RekeyQuarantine (refusal : QuarantineRefusal)
  | RekeyRefused (error : string) (retryAt : option Z).

Definition recentAuth (session : Session) : bool :=
  match s_auth_time session with None => false | Some authTime => negb (REKEY_RECENCY_SECS <? now / 1000 - authTime) end.

(** The cooldown, and the mutation. *)
Definition rekeyNow (userId : string) : thread SeedDB (result ActionError RekeyResult) :=
  recent ← read (recentRekey userId (now - REKEY_COOLDOWN_MS));
  match recent with
  | Some t => mret (Ok (RekeyRefused "You re-keyed recently. For your security, re-keying is limited to once a week." (Some (t + REKEY_COOLDOWN_MS))))
  | None =>
      existing ← findEnrollment userId;
      if negb (bool_decide (is_Some (existing ≫= se_backupConfirmedAt)))
      then mret (Ok (RekeyRefused "You have no active Private Identity to re-key." None))
      else
        row ←! act (bumpEpochAndPurge userId);
        _ ← auditSeed userId "anon_seed.rekey" [epochMeta row];
        mret (Ok (RekeyOk (stateOf (Some row))))
  end.

Definition rekeyAnonSeed (verdict : RateLimitVerdict) (confirmPhrase : option string) : thread SeedDB (result ActionError RekeyResult) :=
  if negb enabled then mret (Ok (RekeyRefused DISABLED_ERROR None))
  else
    current ← read (fun db => getCurrentSession auth (cu_flags <$> cd_users (sd_cred db)));
    match current with
    | None => mret (Ok (RekeyRefused "Not signed in." None))
    | Some session =>
        let userId := s_userId session in
        match rateLimitGuard verdict with
        | Some limited => mret (Ok (RekeyRefused limited None))
        | None =>
            if default 0 (s_aal session) <? 2 then mret (Ok (RekeyStepUp "Re-keying requires signing in with a passkey first."))
            else if negb (recentAuth session)
            then mret (Ok (RekeyStepUp "Confirm it's you: re-authenticate with your passkey, then re-key within 5 minutes."))
            else if negb (phraseIs confirmPhrase REKEY_CONFIRM_PHRASE)
            then mret (Ok (RekeyRefused ("Type " +:+ quoted REKEY_CONFIRM_PHRASE +:+ " to confirm — this permanently replaces your anonymous identity in every app.") None))
            else
              refusal ← zoom sd_cred with_cred (gatePrivilegedAction now userId (s_cred session) anon_seed_rekey);
              match refusal with
              | Some r => mret (Ok (RekeyQuarantine r))
              | None => rekeyNow userId
              end
        end
    end.

End Actions.

(** ** Requests *)

Inductive SeedRequest :=
  | RqState | RqBegin | RqConfirm | RqPut (input : PutBlobInput) | RqCredentialIds | RqBlobs
  | RqDelete (credentialId : string) | RqReset (confirmPhrase : option string) | RqRekey (confirmPhrase : option string).

Record SeedCall := { sc_now : Z; sc_auth : option Session; sc_verdict : RateLimitVerdict; sc_request : SeedRequest }.

Inductive SeedResponse :=
  | RpState (r : result ActionError (SeedResult AnonSeedState)) | RpUnit (r : result ActionError (SeedResult unit))
  | RpIds (r : result ActionError (SeedResult (list string))) | RpBlobs (r : result ActionError (SeedResult (list SeedBlobView)))
  | RpRekey (r : result ActionError RekeyResult).

Definition answer {DB A B} (g : A → B) (t : thread DB A) : thread DB B := r ← t; mret (g r).

Definition serveSeed (enabled : bool) (c : SeedCall) : thread SeedDB SeedResponse :=
  let n := sc_now c in let a := sc_auth c in let v := sc_verdict c in
  match sc_request c with
  | RqState => answer RpState (getAnonSeedState enabled a)
  | RqBegin => answer RpState (beginAnonSeedEnrollment enabled n a v)
  | RqConfirm => answer RpState (confirmSeedBackup enabled n a v)
  | RqPut input => answer RpUnit (putSeedBlob enabled n a v input)
  | RqCredentialIds => answer RpIds (getAnonPasskeyCredentialIds enabled a)
  | RqBlobs => answer RpBlobs (getSeedBlobs enabled a)
  | RqDelete credentialId => answer RpUnit (deleteSeedBlob enabled n a v credentialId)
  | RqReset phrase => answer RpState (resetAnonSeed enabled n a v phrase)
  | RqRekey phrase => answer RpRekey (rekeyAnonSeed enabled n a v phrase)
  end.

(** ** What every action keeps *)

(** A row moves on: to a later epoch, or within its epoch without losing a timestamp. *)
Definition advances (r r' : SeedEnrollment) : Prop :=
  se_enrollmentEpoch r < se_enrollmentEpoch r' ∨
  (se_enrollmentEpoch r = se_enrollmentEpoch r' ∧ (is_Some (se_seedGeneratedAt r) → is_Some (se_seedGeneratedAt r')) ∧
   (is_Some (se_backupConfirmedAt r) → is_Some (se_backupConfirmedAt r'))).

#[export] Instance advances_preorder : PreOrder advances.
Proof.
  split; [intros r; right; naive_solver|]. intros a b c [H1|(E1 & G1 & B1)] [H2|(E2 & G2 & B2)]; [left; lia|left; lia|left; lia|].
  right. split; [congruence|naive_solver].
Qed.

(** What a blob looks like, and that its owner is enrolled. *)
Record seeds_ok (db : SeedDB) : Prop := {
  so_epoch : ∀ u r, sd_enrollments db !! u = Some r → 1 <= se_enrollmentEpoch r;
  so_blob : ∀ u c b, sd_blobs db !! (u, c) = Some b →
    length (sb_ciphertext b) = WRAP_CIPHERTEXT_BYTES ∧ length (sb_iv b) = WRAP_IV_BYTES ∧ sb_wrapVersion b = 1 ∧
    CredentialId c = true ∧ is_Some (sd_enrollments db !! u);
}.

(** Requests of the users of [S] make rows move on and touch no other user's. *)
Record seed_moves (S : string → Prop) (db db' : SeedDB) : Prop := {
  sm_pairs : sd_pairs db' = sd_pairs db;
  sm_enrollments : ∀ v, ¬ S v → sd_enrollments db' !! v = sd_enrollments db !! v;
  sm_blobs : ∀ v c, ¬ S v → sd_blobs db' !! (v, c) = sd_blobs db !! (v, c);
  sm_advances : ∀ v r, sd_enrollments db !! v = Some r → ∃ r', sd_enrollments db' !! v = Some r' ∧ advances r r';
  sm_audit : ∃ l, sd_audit db' = sd_audit db ++ l;
}.

#[export] Instance seed_moves_preorder S : PreOrder (seed_moves S).
Proof.
  split.
  - intros db. split; [done|done|done| |exists []; by rewrite app_nil_r]. intros v r Hr. exists r. by split.
  - intros a b c [P1 E1 B1 A1 [l1 L1]] [P2 E2 B2 A2 [l2 L2]].
    split; [congruence|intros; by rewrite E2, E1|intros; by rewrite B2, B1| |exists (l1 ++ l2); by rewrite L2, L1, app_assoc].
    intros v r Hr. destruct (A1 v r Hr) as (r1 & Hr1 & ?). destruct (A2 v r1 Hr1) as (r2 & ? & ?). exists r2. split; [done|by etrans].
Qed.

Lemma getCurrentSession_auth auth users session : getCurrentSession auth users = Some session → auth = Some session.
Proof.
  unfold getCurrentSession, loadSessionFlags. destruct auth as [s|]; [|done]. repeat (case_match; simplify_eq/=; try done).
Qed.

Section Keeps.
Context (S : string → Prop).
Abbreviation follow := (follows seeds_ok (seed_moves S) (fun _ => True)).

Lemma moves_audit r db : seeds_ok db → seeds_ok (with_audit r db) ∧ seed_moves S db (with_audit r db).
Proof.
  intros [H1 H2]. split; [by split|]. split; [done|done|done| |by eexists]. intros v x Hx. by exists x.
Qed.

Lemma same_audit (db db' : SeedDB) : sd_audit db' = sd_audit db → ∃ l, sd_audit db' = sd_audit db ++ l.
Proof. exists []. by rewrite app_nil_r. Qed.

Lemma moves_enroll u r db :
  S u → seeds_ok db → 1 <= se_enrollmentEpoch r → (∀ r0, sd_enrollments db !! u = Some r0 → advances r0 r) →
  seeds_ok (with_enrollments (<[u := r]> (sd_enrollments db)) db) ∧ seed_moves S db (with_enrollments (<[u := r]> (sd_enrollments db)) db).
Proof.
  intros Hu [H1 H2] Hr Hadv. split; split; simpl; [|intros v c b Hb|done| |done| |by apply (same_audit db)].
  - intros v x. rewrite lookup_insert_Some. intros [[<- <-]|[_ Hx]]; [done|by eapply H1].
  - destruct (H2 v c b Hb) as (? & ? & ? & ? & Hs). split_and!; [done..|]. rewrite lookup_insert. case_decide; [done|done].
  - intros v Hv. rewrite lookup_insert_ne; [done|]. congruence.
  - intros v x Hx. destruct (decide (u = v)) as [->|Hne].
    + exists r. rewrite lookup_insert_eq. split; [done|by apply Hadv].
    + exists x. rewrite lookup_insert_ne by done. by split.
Qed.

(** Blobs of a user of [S] may go, and those that come are well formed. *)
Lemma moves_blobs m db :
  seeds_ok db → (∀ u c b, m !! (u, c) = Some b → sd_blobs db !! (u, c) = Some b ∨ (S u ∧
    length (sb_ciphertext b) = WRAP_CIPHERTEXT_BYTES ∧ length (sb_iv b) = WRAP_IV_BYTES ∧ sb_wrapVersion b = 1 ∧ CredentialId c = true ∧
    is_Some (sd_enrollments db !! u))) → (∀ u c, ¬ S u → m !! (u, c) = sd_blobs db !! (u, c)) →
  seeds_ok (with_blobs m db) ∧ seed_moves S db (with_blobs m db).
Proof.
  intros [H1 H2] Hm Hk. split; split; simpl; try done.
  - intros u c b Hb. destruct (Hm u c b Hb) as [Hold|(_ & Hnew)]; [by apply H2|done].
  - intros v r Hr. by exists r.
  - by apply (same_audit db).
Qed.

Lemma follows_write_ {B} (db0 : SeedDB) (f : SeedDB → SeedDB) (k : unit → thread SeedDB B) :
  (∀ db, seeds_ok db → seed_moves S db0 db → seeds_ok (f db) ∧ seed_moves S db (f db)) → (∀ db, follow db (k tt)) →
  follow db0 (write f ≫= k).
Proof. intros Hf Hk db Hdb HR. destruct (Hf db Hdb HR). split_and!; [done|done|apply Hk]. Qed.

Lemma follow_audit {B} now u a meta db0 (k : unit → thread SeedDB B) : (∀ db, follow db (k tt)) → follow db0 (auditSeed now u a meta ≫= k).
Proof. intros Hk. apply follows_write_; [|done]. intros. by apply moves_audit. Qed.

Lemma follow_answer {A B} (g : A → B) db0 (t : thread SeedDB A) : follow db0 t → follow db0 (answer g t).
Proof. apply follows_map. Qed.

Lemma sessionUser_follow {A} auth db0 (k : Session → seed_action A) :
  (∀ session db, auth = Some session → follow db (k session)) → follow db0 (session ←! sessionUser auth; k session).
Proof.
  intros Hk. unfold sessionUser, tbind. apply follows_read; [apply _|]. intros db Hdb HR.
  destruct (requireSession auth (cu_flags <$> cd_users (sd_cred db))) as [session|e] eqn:E; [|done].
  apply Hk. unfold requireSession, getCurrentSession, loadSessionFlags in E. destruct auth as [s|]; [|done].
  repeat (case_match; simplify_eq/=; try done).
Qed.

Lemma bumpEpochAndPurge_moves u db : S u → seeds_ok db → seeds_ok (bumpEpochAndPurge u db).2 ∧ seed_moves S db (bumpEpochAndPurge u db).2.
Proof.
  intros Hu Hdb. unfold bumpEpochAndPurge. destruct (sd_enrollments db !! u) as [row|] eqn:E; [|by split].
  case_match; [by split|]. cbn [snd].
  set (m := filter (fun e => e.1.1 ≠ u) (sd_blobs db)).
  assert (seeds_ok (with_blobs m db) ∧ seed_moves S db (with_blobs m db)) as [H1 H2].
  { apply moves_blobs; [done| |].
    - intros v c b [Hb _]%map_lookup_filter_Some. by left.
    - intros v c Hv. unfold m. apply option_eq. intros b. rewrite map_lookup_filter_Some. split; [by intros []|]. intros Hb.
      split; [done|]. simpl. congruence. }
  pose proof (so_epoch _ Hdb u row E).
  destruct (moves_enroll u {| se_enrollmentEpoch := se_enrollmentEpoch row + 1; se_seedGeneratedAt := None; se_backupConfirmedAt := None |}
    (with_blobs m db) Hu H1 ltac:(simpl; lia)) as [H3 H4].
  { intros r0 Hr0. simpl in Hr0. simplify_eq. left. simpl. lia. }
  split; [exact H3|by etrans].
Qed.

Lemma bump_follow {A} u db0 (k : SeedEnrollment → thread SeedDB (result ActionError A)) :
  S u → (∀ row db, follow db (k row)) → follow db0 (row ←! act (bumpEpochAndPurge u); k row).
Proof.
  intros Hu Hk. apply follows_act. intros db Hdb HR. destruct (bumpEpochAndPurge_moves u db Hu Hdb). split_and!; [done|done|].
  destruct (bumpEpochAndPurge u db).1; [apply Hk|done].
Qed.

(** *** The handlers *)

Ltac follow_read := first [apply follows_read|unfold findEnrollment; apply follows_read]; [apply _|let d := fresh "rdb" in let h := fresh "Hrdb" in let r := fresh "HRr" in intros d h r].

Context (enabled : bool) (now : Z) (auth : option Session) (verdict : RateLimitVerdict).
Hypothesis HS : ∀ session, auth = Some session → S (s_userId session).

(** A write handler that runs for its session, past the limiter. *)
Ltac enter := case_match; [done|]; try (apply sessionUser_follow; let d := fresh "sdb" in intros session d ?); try (destruct (rateLimitGuard verdict); [done|]).

Lemma begin_follows db : follow db (beginAnonSeedEnrollment enabled now auth verdict).
Proof.
  unfold beginAnonSeedEnrollment. enter. follow_read. case_match; [done|].
  apply follows_act. intros db1 Hdb1 HR1.
  destruct (moves_enroll (s_userId session) (upsertGenerated now (s_userId session) db1).1 db1) as [HI1 HM1]; [by apply HS|done| | |].
  - unfold upsertGenerated. simpl. destruct (sd_enrollments db1 !! s_userId session) eqn:E; simpl; [by eapply so_epoch|lia].
  - intros r0 E. unfold upsertGenerated. simpl. rewrite E. right. simpl. naive_solver.
  - split_and!; [exact HI1|exact HM1|]. apply follow_audit. done.
Qed.

Lemma confirm_follows db : follow db (confirmSeedBackup enabled now auth verdict).
Proof.
  unfold confirmSeedBackup. enter. follow_read. case_match; [done|]. case_match; [done|].
  apply follows_act. intros db1 Hdb1 HR1. unfold updateConfirmed. destruct (sd_enrollments db1 !! s_userId session) as [r|] eqn:E; [|by split_and!].
  cbn [fst snd]. set (row := {| se_backupConfirmedAt := Some now |}).
  destruct (moves_enroll (s_userId session) row db1) as [HI1 HM1]; [by apply HS|done| | |].
  - simpl. by eapply so_epoch.
  - intros r0 Hr0. simplify_eq. right. simpl. naive_solver.
  - split_and!; [exact HI1|exact HM1|]. apply follow_audit. done.
Qed.

Lemma decodeExactBytes_length v n f b : decodeExactBytes v n f = Ok b → length b = n.
Proof.
  unfold decodeExactBytes. destruct (fromBase64Url v) as [buf|]; [|done]. destruct (Nat.eqb_spec (length buf) n); [|done].
  simpl. case_match; [done|]. intros. by simplify_eq.
Qed.

(** A blob that is well formed, for a user seen to be enrolled. *)
Lemma storeBlob_follows u c b row db0 :
  S u → length (sb_ciphertext b) = WRAP_CIPHERTEXT_BYTES → length (sb_iv b) = WRAP_IV_BYTES → sb_wrapVersion b = 1 → CredentialId c = true →
  is_Some (sd_enrollments db0 !! u) → follow db0 (storeBlob now u c b row).
Proof.
  intros Hu Hct Hiv Hv Hc Hrow. unfold storeBlob. apply follows_write_; [|intros db; by apply follow_audit].
  intros db Hdb HR. apply moves_blobs; [done| |].
  - intros u' c' b'. rewrite lookup_insert_Some. intros [[E <-]|[_ Hold]]; [|by left]. simplify_eq. right. split_and!; [done..|].
    destruct Hrow as [r Hr]. destruct (sm_advances _ _ _ HR _ _ Hr) as (r' & -> & _). done.
  - intros u' c' Hu'. rewrite lookup_insert_ne; [done|]. congruence.
Qed.

Lemma parsePutBlob_ok input c ct nonce v : parsePutBlob input = Some (c, ct, nonce, v) → CredentialId c = true ∧ v = 1.
Proof.
  unfold parsePutBlob. destruct (CredentialId (pb_credentialId input)) eqn:E; [|done]. simpl. case_match eqn:E2; [|done].
  intros. simplify_eq. split; [done|]. apply andb_true_iff in E2 as [_ E2]. by apply Z.eqb_eq.
Qed.

Lemma put_follows input db : follow db (putSeedBlob enabled now auth verdict input).
Proof.
  unfold putSeedBlob. enter. destruct (parsePutBlob input) as [[[[c ct] nonce] v]|] eqn:Ep; [|done].
  apply parsePutBlob_ok in Ep as [Hc ->].
  destruct (decodeExactBytes ct _ _) as [ciphertext|] eqn:Ect; [|done]. destruct (decodeExactBytes nonce _ _) as [iv|] eqn:Eiv; [|done].
  apply decodeExactBytes_length in Ect, Eiv. unfold findEnrollment. apply follows_read; [apply _|]. intros db1 Hdb1 HR1.
  destruct (sd_enrollments db1 !! s_userId session) as [[e g [t|]]|] eqn:Er; [|done|done].
  apply follows_read; [apply _|]. intros db2 Hdb2 HR2.
  assert (is_Some (sd_enrollments db2 !! s_userId session)) as Hs2 by (destruct (sm_advances _ _ _ HR2 _ _ Er) as (r' & -> & _); done).
  destruct (sd_blobs db2 !! _); [apply storeBlob_follows; try done; by apply HS|].
  apply follows_read; [apply _|]. intros db3 Hdb3 HR3. case_match; [done|]. apply storeBlob_follows; try done; [by apply HS|].
  destruct Hs2 as [r2 Hr2]. destruct (sm_advances _ _ _ HR3 _ _ Hr2) as (r' & -> & _). done.
Qed.

Lemma delete_follows c db : follow db (deleteSeedBlob enabled now auth verdict c).
Proof.
  unfold deleteSeedBlob. enter. case_match; [done|]. apply follows_act. intros db1 Hdb1 HR1. unfold deleteBlobs. cbn [fst snd].
  destruct (moves_blobs (delete (s_userId session, c) (sd_blobs db1)) db1) as [HI1 HM1]; [done| | |].
  - intros u' c' b' [_ Hb]%lookup_delete_Some. by left.
  - intros u' c' Hu'. rewrite lookup_delete_ne; [done|]. intros E. simplify_eq. by apply Hu', HS.
  - split_and!; [done|done|]. case_match; [apply follow_audit|]; done.
Qed.

Lemma reset_follows phrase db : follow db (resetAnonSeed enabled now auth verdict phrase).
Proof.
  unfold resetAnonSeed. enter. follow_read. case_match; [done|]. case_match; [done|]. apply bump_follow; [by apply HS|].
  intros row db'. by apply follow_audit.
Qed.

Lemma follow_gate {B} u acting a db0 (k : option QuarantineRefusal → thread SeedDB B) :
  (∀ r db, follow db (k r)) → follow db0 (zoom sd_cred with_cred (gatePrivilegedAction now u acting a) ≫= k).
Proof.
  intros Hk. unfold gatePrivilegedAction, evaluateForUser, Credentials.audit, read, write, act. cbn. intros db Hdb HR.
  assert (∀ c db, seeds_ok db → seeds_ok (with_cred c db) ∧ seed_moves S db (with_cred c db)) as Hw.
  { intros c db' [H1 H2]. split; [by split|]. split; [done|done|done| |by apply (same_audit db')]. intros v x Hx. by exists x. }
  destruct (Hw (sd_cred db) db Hdb) as [HI1 HM1]. split_and!; [done|done|].
  destruct (evaluatePrivilegedGate _ _ _); cbn; [|apply Hk]. intros db' Hdb' HR'. destruct (Hw (auditCred u "credential.quarantine_refused" (actionName a) (sd_cred db')) db' Hdb').
  split_and!; [done|done|apply Hk].
Qed.

Lemma rekey_follows phrase db : follow db (rekeyAnonSeed enabled now auth verdict phrase).
Proof.
  unfold rekeyAnonSeed. case_match; [done|]. apply follows_read; [apply _|]. intros db1 Hdb1 HR1.
  destruct (getCurrentSession auth _) as [session|] eqn:Es; [|done]. apply getCurrentSession_auth in Es.
  destruct (rateLimitGuard verdict); [done|]. do 3 (case_match; [done|]). apply follow_gate. intros [r|] db'; [done|].
  unfold rekeyNow. apply follows_read; [apply _|]. intros db2 Hdb2 HR2. case_match; [done|]. follow_read. case_match; [done|].
  apply bump_follow; [by apply HS|]. intros row db''. by apply follow_audit.
Qed.

Lemma reads_follow db :
  follow db (getAnonSeedState enabled auth) ∧ follow db (getAnonPasskeyCredentialIds enabled auth) ∧ follow db (getSeedBlobs enabled auth).
Proof.
  split_and!; [unfold getAnonSeedState|unfold getAnonPasskeyCredentialIds|unfold getSeedBlobs]; enter; repeat follow_read; done.
Qed.

End Keeps.

(** Everything a request does. *)
Lemma serveSeed_follows (S : string → Prop) enabled c db :
  (∀ session, sc_auth c = Some session → S (s_userId session)) →
  follows seeds_ok (seed_moves S) (fun _ => True) db (serveSeed enabled c).
Proof.
  intros HS. unfold serveSeed. destruct (reads_follow S enabled (sc_auth c) (sc_verdict c) db) as (H1 & H2 & H3).
  destruct (sc_request c); apply follow_answer; auto using begin_follows, confirm_follows, put_follows, delete_follows, reset_follows, rekey_follows.
Qed.


(** ** Re-keying *)

(** What a re-key has passed. *)
Record rekey_passed (now : Z) (auth : option Session) (verdict : RateLimitVerdict) (phrase : option string) (db : SeedDB) (user : string) : Prop := {
  rp_limit : allowed verdict = true;
  rp_session : ∃ session t, getCurrentSession auth (cu_flags <$> cd_users (sd_cred db)) = Some session ∧ s_userId session = user ∧
    2 <= default 0 (s_aal session) ∧ s_auth_time session = Some t ∧ now / 1000 - t <= REKEY_RECENCY_SECS ∧
    evaluatePrivilegedGate (gateRows user (sd_cred db)) (s_cred session) now = None;
  rp_phrase : phraseIs phrase REKEY_CONFIRM_PHRASE = true;
  rp_cooldown : ∀ r, r ∈ sd_audit db → ar_userId r = user → ar_action r = "anon_seed.rekey" → ar_createdAt r + REKEY_COOLDOWN_MS <= now;
  rp_active : ∃ row, sd_enrollments db !! user = Some row ∧ is_Some (se_backupConfirmedAt row);
}.

(** What a re-key leaves: the next epoch, nothing generated, no blob, and a dated record. *)
Record rekey_done (now : Z) (user : string) (db db' : SeedDB) : Prop := {
  rd_row : ∃ row, sd_enrollments db !! user = Some row ∧
    sd_enrollments db' = <[user := {| se_enrollmentEpoch := se_enrollmentEpoch row + 1; se_seedGeneratedAt := None; se_backupConfirmedAt := None |}]> (sd_enrollments db);
  rd_blobs : ∀ u c, sd_blobs db' !! (u, c) = if decide (u = user) then None else sd_blobs db !! (u, c);
  rd_audit : ∃ r, sd_audit db' = sd_audit db ++ [r] ∧ ar_userId r = user ∧ ar_action r = "anon_seed.rekey" ∧ ar_createdAt r = now;
}.

Lemma recentRekey_None user since db r :
  recentRekey user since db = None → r ∈ sd_audit db → ar_userId r = user → ar_action r = "anon_seed.rekey" → ar_createdAt r <= since.
Proof.
  unfold recentRekey. induction (sd_audit db) as [|x l IH]; simpl; [by intros _ ?%elem_of_nil|]. intros E Hin Hu Ha.
  apply elem_of_cons in Hin as [->|Hin].
  - rewrite !bool_decide_true in E by done. simpl in E. destruct (Z.ltb_spec since (ar_createdAt x)); [done|lia].
  - case_match; [done|]. by apply IH.
Qed.

Lemma bump_done user db row db' :
  bumpEpochAndPurge user db = (Ok row, db') →
  ∃ r, sd_enrollments db !! user = Some r ∧ sd_cred db' = sd_cred db ∧ sd_audit db' = sd_audit db ∧
    row = {| se_enrollmentEpoch := se_enrollmentEpoch r + 1; se_seedGeneratedAt := None; se_backupConfirmedAt := None |} ∧
    sd_enrollments db' = <[user := row]> (sd_enrollments db) ∧
    ∀ u c, sd_blobs db' !! (u, c) = if decide (u = user) then None else sd_blobs db !! (u, c).
Proof.
  unfold bumpEpochAndPurge. destruct (sd_enrollments db !! user) as [r|]; [|done]. case_match; [done|]. intros. simplify_eq.
  exists r. split_and!; [done..|]. intros u c. simpl. case_decide as Hu.
  - subst. apply map_lookup_filter_None. right. intros b _ []. done.
  - apply option_eq. intros b. rewrite map_lookup_filter_Some. naive_solver.
Qed.

Lemma run_gate_zoom now u acting db :
  evaluatePrivilegedGate (gateRows u (sd_cred db)) acting now = None →
  run_solo (zoom sd_cred with_cred (gatePrivilegedAction now u acting anon_seed_rekey)) db = (None, with_cred (sd_cred db) db).
Proof. intros E. unfold gatePrivilegedAction, evaluateForUser. cbn. by rewrite E. Qed.

Lemma run_gate_zoom_Some now u acting db r :
  evaluatePrivilegedGate (gateRows u (sd_cred db)) acting now = Some r →
  (run_solo (zoom sd_cred with_cred (gatePrivilegedAction now u acting anon_seed_rekey)) db).1 = Some r.
Proof. intros E. unfold gatePrivilegedAction, evaluateForUser. cbn. by rewrite E. Qed.

Lemma with_cred_id db : with_cred (sd_cred db) db = db.
Proof. by destruct db. Qed.

Lemma run_solo_act {DB A} (f : DB → A * DB) db : run_solo (act f) db = f db.
Proof. simpl. by destruct (f db). Qed.

Lemma rekeyNow_ok now user db st db' :
  run_solo (rekeyNow now user) db = (Ok (RekeyOk st), db') →
  recentRekey user (now - REKEY_COOLDOWN_MS) db = None ∧ (∃ row, sd_enrollments db !! user = Some row ∧ is_Some (se_backupConfirmedAt row)) ∧
  rekey_done now user db db'.
Proof.
  unfold rekeyNow. rewrite run_solo_read. destruct (recentRekey _ _ db) eqn:Er; [done|]. unfold findEnrollment. rewrite run_solo_read.
  case_bool_decide as Hc; [|done]. cbn [negb]. rewrite run_solo_tbind, run_solo_act.
  destruct (bumpEpochAndPurge user db) as [[row|] db1] eqn:Eb; [|done]. cbn [fst snd]. intros E. cbn in E. simplify_eq.
  apply bump_done in Eb as (r & Hr & Hcred & Haud & -> & Henr & Hbl). rewrite Hr in Hc. simpl in Hc. split; [done|]. split; [by exists r|].
  split; simpl.
  - by exists r.
  - done.
  - rewrite Haud. by eexists.
Qed.

Lemma rekey_ok enabled now auth verdict phrase db st db' :
  run_solo (rekeyAnonSeed enabled now auth verdict phrase) db = (Ok (RekeyOk st), db') →
  ∃ user, rekey_passed now auth verdict phrase db user ∧ rekey_done now user db db' ∧ s_userId <$> auth = Some user.
Proof.
  unfold rekeyAnonSeed. case_match; [done|]. rewrite run_solo_read. destruct (getCurrentSession auth _) as [session|] eqn:Es; [|done].
  unfold rateLimitGuard. destruct (allowed verdict) eqn:Ev; [|done]. destruct (Z.ltb_spec (default 0 (s_aal session)) 2); [done|].
  destruct (recentAuth now session) eqn:Er; [|done]. destruct (phraseIs phrase REKEY_CONFIRM_PHRASE) eqn:Ep; [|done]. cbn [negb].
  rewrite run_solo_bind. destruct (evaluatePrivilegedGate (gateRows (s_userId session) (sd_cred db)) (s_cred session) now) eqn:Eg.
  { erewrite run_gate_zoom_Some by done. done. }
  rewrite run_gate_zoom by done. cbn [fst snd]. rewrite with_cred_id. intros (Hrec & Hact & Hdone)%rekeyNow_ok.
  exists (s_userId session). split_and!; [|done|by rewrite (getCurrentSession_auth _ _ _ Es)]. split; [done| |done| |done].
  - unfold recentAuth in Er. destruct (s_auth_time session) as [t|] eqn:Et; [|done]. apply negb_true_iff, Z.ltb_ge in Er. by exists session, t.
  - intros r Hr Hu Ha. pose proof (recentRekey_None _ _ _ _ Hrec Hr Hu Ha). lia.
Qed.

(** Requests one after the other. *)
Definition serveSerially (enabled : bool) (calls : list SeedCall) (db : SeedDB) : SeedDB :=
  foldl (fun db c => (run_solo (serveSeed enabled c) db).2) db calls.

Lemma serially_appends enabled calls db : seeds_ok db → seeds_ok (serveSerially enabled calls db) ∧ ∃ l, sd_audit (serveSerially enabled calls db) = sd_audit db ++ l.
Proof.
  unfold serveSerially. revert db. induction calls as [|c calls IH]; intros db Hdb; cbn [foldl]; [split; [done|by apply same_audit]|].
  destruct (follows_solo seeds_ok (seed_moves (fun _ => True)) (fun _ => True) (serveSeed enabled c) db) as (H1 & H2 & _);
    [by apply serveSeed_follows|done|].
  destruct (IH _ H1) as (H3 & l & Hl). split; [done|]. destruct (sm_audit _ _ _ H2) as [l1 Hl1]. exists (l1 ++ l). by rewrite Hl, Hl1, app_assoc.
Qed.

Lemma serve_rekey_ok enabled c db st db' :
  run_solo (serveSeed enabled c) db = (RpRekey (Ok (RekeyOk st)), db') →
  ∃ phrase user, rekey_passed (sc_now c) (sc_auth c) (sc_verdict c) phrase db user ∧ rekey_done (sc_now c) user db db' ∧ s_userId <$> sc_auth c = Some user.
Proof.
  unfold serveSeed, answer. destruct (sc_request c) as [| | | | | | | |phrase]; rewrite run_solo_bind; cbn [run_solo mret thread_ret]; try done.
  intros E. injection E as E1 E2. exists phrase. apply (rekey_ok enabled _ _ _ _ _ st).
  by rewrite (surjective_pairing (run_solo _ db)), E1, E2.
Qed.


(** ** Examples *)

Definition aliceSession : Session :=
  {| s_userId := "alice"; s_sessionGeneration := Some 0; s_aal := Some 2; s_recovered := false; s_auth_time := Some 1000; s_cred := Some "pk" |}.

Definition aliceCred : CredDB :=
  {| cd_users := {[ "alice" := {| cu_flags := {| u_sessionGeneration := 0; u_isAdmin := false; u_isBanned := false; u_mergedIntoUserId := None;
                                                  u_setupCompletedAt := Some 0 |}; cu_email := Some "a@x.org" |} ]};
     cd_emails := ∅;
     cd_passkeys := {[ "pk" := {| pk_userId := "alice"; pk_label := None; pk_status := "active"; pk_quarantinedUntil := None; pk_addedAt := 0; pk_lastUsedAt := None |} ]};
     cd_badges := ∅; cd_markers := ∅; cd_audit := []; cd_mails := [] |}.

Definition seedDB (row : SeedEnrollment) (blobs : gmap (string * string) SeedBlob) : SeedDB :=
  {| sd_cred := aliceCred; sd_enrollments := {[ "alice" := row ]}; sd_blobs := blobs; sd_pairs := ∅; sd_audit := [] |}.

Definition aliceCall (rq : SeedRequest) : SeedCall :=
  {| sc_now := 1000000; sc_auth := Some aliceSession; sc_verdict := Verdict true 0; sc_request := rq |}.

Definition activeRow (epoch : Z) : SeedEnrollment := {| se_enrollmentEpoch := epoch; se_seedGeneratedAt := Some 1; se_backupConfirmedAt := Some 2 |}.
Definition pendingRow (epoch : Z) : SeedEnrollment := {| se_enrollmentEpoch := epoch; se_seedGeneratedAt := Some 1; se_backupConfirmedAt := None |}.

Definition putOf (credentialId : string) : SeedRequest :=
  RqPut {| pb_credentialId := credentialId; pb_ciphertext := toBase64Url (replicate 32 7); pb_iv := toBase64Url (replicate 12 7); pb_wrapVersion := None |}.

Definition rekeyCall : SeedRequest := RqRekey (Some " Re-key my identity ").

Lemma seedDB_ok epoch : 1 <= epoch → seeds_ok (seedDB (activeRow epoch) ∅).
Proof. intros He. split; simpl; [|by intros]. intros u r [<- <-]%lookup_singleton_Some. done. Qed.


Definition laterCall (rq : SeedRequest) : SeedCall :=
  {| sc_now := 1000000 + REKEY_COOLDOWN_MS;
     sc_auth := Some {| s_userId := "alice"; s_sessionGeneration := Some 0; s_aal := Some 2; s_recovered := false;
                        s_auth_time := Some ((1000000 + REKEY_COOLDOWN_MS) / 1000); s_cred := Some "pk" |};
     sc_verdict := Verdict true 0; sc_request := rq |}.


(** ** Where two requests overlap *)

(** Two re-keys that overlap both succeed: the limit of one a week is read before it is
    recorded. *)
Lemma rekeys_overlap :
  let run := pool_run [0; 1; 0; 1; 0; 1; 0; 1; 0; 1; 0; 1]%nat (map (serveSeed true) [aliceCall rekeyCall; aliceCall rekeyCall], seedDB (activeRow 1) ∅) in
  returned run.1 = [RpRekey (Ok (RekeyOk {| as_status := none; as_enrollmentEpoch := 2 |}));
                    RpRekey (Ok (RekeyOk {| as_status := none; as_enrollmentEpoch := 3 |}))].
Proof. vm_compute. reflexivity. Qed.

(** A put that overlaps a reset stores its blob after every blob was deleted, while nothing is
    enrolled. *)
Lemma put_survives_reset :
  let run := pool_run [0; 0; 0; 0; 1; 1; 1; 1; 0; 0]%nat
    (map (serveSeed true) [aliceCall (putOf "pk"); aliceCall (RqReset (Some RESET_CONFIRM_PHRASE))], seedDB (activeRow 1) ∅) in
  stateOf (sd_enrollments run.2 !! "alice") = {| as_status := none; as_enrollmentEpoch := 2 |} ∧ length (blobsOf "alice" run.2) = 1%nat.
Proof. vm_compute. split; reflexivity. Qed.

(** Two puts for new credentials that overlap exceed the cap. *)
Lemma cap_exceeded :
  let blob := {| sb_ciphertext := replicate 32 7; sb_iv := replicate 12 7; sb_wrapVersion := 1 |} in
  let four := list_to_map (map (fun c => (("alice", c), blob)) ["a"; "b"; "c"; "d"]) in
  let run := pool_run [0; 1; 0; 1; 0; 1; 0; 1; 0; 1; 0; 1]%nat (map (serveSeed true) [aliceCall (putOf "e"); aliceCall (putOf "f")], seedDB (activeRow 1) four) in
  length (blobsOf "alice" run.2) = 6%nat.
Proof. vm_compute. reflexivity. Qed.

(** A confirmation that overlaps a reset confirms the seed that is generated next: its
    enrollment is active although no backup of it was ever confirmed. *)
Lemma confirm_overlaps_reset :
  let db1 := (pool_run [0; 0; 1; 1; 1; 1; 0; 0]%nat
    (map (serveSeed true) [aliceCall RqConfirm; aliceCall (RqReset None)], seedDB (pendingRow 1) ∅)).2 in
  (run_solo (serveSeed true (aliceCall RqBegin)) db1).1 = RpState (Ok (SOk {| as_status := active_seed; as_enrollmentEpoch := 2 |})).
Proof. vm_compute. reflexivity. Qed.
