(* ===== verification/AnonPair.v ===== *)
(** * The relay of device pairing (server/anon-pair.ts, app/api/anon/pair)

    The four route handlers over the relay sessions: create, poll, seal and claim. SHA-256, the
    draws of session ids and creator secrets, the verdict of the rate limiter, mail egress and
    the instant of the request are parameters. *)

From S2P Require Import Prelude Threads RateLimit Session SignInOtp PairProtocol Credentials AnonSeed.

Open Scope Z_scope.
Open Scope minister_scope.

Definition PAIR_TTL_MS : Z := 3 * 60 * 1000.
Definition PAIR_SWEEP_GRACE_MS : Z := 60 * 60 * 1000.

(** ** The facts a scanner sees *)

Definition slice_join (n : nat) (sep : Ascii.ascii) (s : string) : string :=
  String.concat (String sep EmptyString) (take n (split_on sep s)).

Definition includesColon (s : string) : bool := negb (Nat.eqb (length (split_on ":"%char s)) 1).

(** An absent or empty address is falsy. *)
Definition sameNetwork (a b : option string) : bool :=
  match a, b with
  | Some a, Some b =>
      if bool_decide (a = "") || bool_decide (b = "") || bool_decide (a = "unknown") || bool_decide (b = "unknown") then false
      else if bool_decide (a = b) then true
      else
        match split_on "."%char a, split_on "."%char b with
        | [a0; a1; a2; _], [b0; b1; b2; _] => bool_decide (a0 = b0) && bool_decide (a1 = b1) && bool_decide (a2 = b2)
        | _, _ => if includesColon a && includesColon b then bool_decide (slice_join 3 ":"%char a = slice_join 3 ":"%char b) else false
        end
  | _, _ => false
  end.

Inductive PairState := waiting | sealed | claimed | expired | not_found.

Definition effectiveState (row : PairRow) (now : Z) : PairState :=
  if bool_decide (pr_state row = "waiting") && (pr_expiresAt row <=? now) then expired
  else if bool_decide (pr_state row = "waiting") then waiting
  else if bool_decide (pr_state row = "sealed") then sealed
  else if bool_decide (pr_state row = "claimed") then claimed
  else not_found.

(** ** Rows *)

Definition with_state (state : string) (payload : option string) (ip ua : option string) (row : PairRow) : PairRow :=
  {| pr_userId := pr_userId row; pr_state := state; pr_sealedPayload := payload; pr_creatorSecretHash := pr_creatorSecretHash row;
     pr_expiresAt := pr_expiresAt row; pr_creatorIp := pr_creatorIp row; pr_creatorUa := pr_creatorUa row;
     pr_creatorCountry := pr_creatorCountry row; pr_creatorCity := pr_creatorCity row; pr_sealerIp := ip; pr_sealerUa := ua |}.

(** [deleteMany] of the sessions that expired before an instant. *)
Definition sweepPairs (before : Z) (db : SeedDB) : SeedDB :=
  with_pairs (filter (fun e => ¬ pr_expiresAt e.2 < before) (sd_pairs db)) db.

(** [create]: the id is the primary key. *)
Definition insertPair (sessionId : string) (row : PairRow) (db : SeedDB) : result ActionError unit * SeedDB :=
  match sd_pairs db !! sessionId with
  | Some _ => (Err (PlainError "Unique constraint failed"), db)
  | None => (Ok tt, with_pairs (<[sessionId := row]> (sd_pairs db)) db)
  end.

(** The conditional update of a seal, and how many rows it changed. *)
Definition sealUpdate (now : Z) (sessionId sessionUserId payload : string) (ip ua : option string) (db : SeedDB) : nat * SeedDB :=
  match sd_pairs db !! sessionId with
  | Some row =>
      if bool_decide (pr_userId row = sessionUserId) && bool_decide (pr_state row = "waiting") && (now <? pr_expiresAt row)
      then (1%nat, with_pairs (<[sessionId := with_state "sealed" (Some payload) ip ua row]> (sd_pairs db)) db)
      else (0%nat, db)
  | None => (0%nat, db)
  end.

(** The conditional update of a claim. *)
Definition claimUpdate (sessionId : string) (db : SeedDB) : nat * SeedDB :=
  match sd_pairs db !! sessionId with
  | Some row =>
      if bool_decide (pr_state row = "sealed")
      then (1%nat, with_pairs (<[sessionId := with_state "claimed" None (pr_sealerIp row) (pr_sealerUa row) row]> (sd_pairs db)) db)
      else (0%nat, db)
  | None => (0%nat, db)
  end.

Record PairPeerFacts := { pf_country : option string; pf_city : option string; pf_sameNetworkAsYou : bool; pf_sameCountryAsYou : bool }.
Record PollPairResult := { pp_state : PairState; pp_expiresAt : option Z; pp_peer : option PairPeerFacts }.
Inductive SealPairResult := SealOk | SealRefused (reason : string).
Inductive ClaimPairResult := ClaimPending (state : PairState) | ClaimClaimed (payload : option string) | ClaimRefused (reason : string).
Record CreatePairResult := { cp_sessionId : string; cp_creatorSecret : string; cp_expiresAt : Z }.

(** ** The handlers *)

Section Relay.
Context (cw : CredWorld) (hashSecret : string → string) (now : Z).

(** The digests have one length, so the comparison is of the digests. *)
Definition secretMatches (presented storedHash : string) : bool := bool_decide (hashSecret presented = storedHash).

(** [sweeps] tells whether the best-effort sweep went through. *)
Definition createPairSession (userId : string) (ip ua country city : option string) (sessionId creatorSecret : string) (sweeps : bool) :
    thread SeedDB (result ActionError CreatePairResult) :=
  let expiresAt := now + PAIR_TTL_MS in
  _ ← write (if sweeps then sweepPairs (now - PAIR_SWEEP_GRACE_MS) else id);
  _ ←! act (insertPair sessionId
         {| pr_userId := userId; pr_state := "waiting"; pr_sealedPayload := None; pr_creatorSecretHash := hashSecret creatorSecret;
            pr_expiresAt := expiresAt; pr_creatorIp := ip; pr_creatorUa := ua; pr_creatorCountry := country; pr_creatorCity := city;
            pr_sealerIp := None; pr_sealerUa := None |});
  _ ← auditSeed now userId "anon.pair.created" [("sessionId", sessionId)];
  mret (Ok {| cp_sessionId := sessionId; cp_creatorSecret := creatorSecret; cp_expiresAt := expiresAt |}).

Definition sameCountry (a b : option string) : bool := match a, b with Some a, Some b => bool_decide (a = b) | _, _ => false end.

Definition pollPairSession (sessionId : string) (requesterIp requesterCountry : option string) : thread SeedDB PollPairResult :=
  row ← read (fun db => sd_pairs db !! sessionId);
  mret match row with
       | None => {| pp_state := not_found; pp_expiresAt := None; pp_peer := None |}
       | Some row =>
           {| pp_state := effectiveState row now; pp_expiresAt := Some (pr_expiresAt row);
              pp_peer := Some {| pf_country := pr_creatorCountry row; pf_city := pr_creatorCity row;
                                 pf_sameNetworkAsYou := sameNetwork (pr_creatorIp row) requesterIp;
                                 pf_sameCountryAsYou := sameCountry (pr_creatorCountry row) requesterCountry |} |}
       end.

(** Fail-open: a mail that cannot be sent ends the alert with an audit row. *)
Definition notifyDeviceAdded (userId sessionId : string) : thread SeedDB unit :=
  emails ← read (fun db => map (fun e => em_email e.2) (verifiedOf userId (cd_emails (sd_cred db))));
  sent ← zoom sd_cred with_cred (sendAll cw emails "A new device was added to your Private Identity");
  match sent with
  | Ok _ => mret tt
  | Err _ => auditSeed now userId "anon.pair.notify_failed" [("sessionId", sessionId)]
  end.

Definition sealPairSession (sessionId sessionUserId payload : string) (ip ua : option string) : thread SeedDB SealPairResult :=
  count ← act (sealUpdate now sessionId sessionUserId payload ip ua);
  if Nat.eqb count 1 then
    _ ← auditSeed now sessionUserId "anon.pair.sealed" [("sessionId", sessionId)];
    _ ← notifyDeviceAdded sessionUserId sessionId;
    mret SealOk
  else
    row ← read (fun db => sd_pairs db !! sessionId);
    match row with
    | None => mret (SealRefused "not_found")
    | Some row =>
        if negb (bool_decide (pr_userId row = sessionUserId)) then
          _ ← auditSeed now sessionUserId "anon.pair.cross_account_blocked" [("sessionId", sessionId)];
          mret (SealRefused "cross_account")
        else if pr_expiresAt row <=? now then mret (SealRefused "expired")
        else if negb (bool_decide (pr_state row = "waiting")) then mret (SealRefused "already_used")
        else mret (SealRefused "not_found")
    end.

Definition claimPairSession (sessionId sessionUserId creatorSecret : string) : thread SeedDB ClaimPairResult :=
  row ← read (fun db => sd_pairs db !! sessionId);
  match row with
  | None => mret (ClaimRefused "not_found")
  | Some row =>
      if negb (bool_decide (pr_userId row = sessionUserId)) then mret (ClaimRefused "forbidden")
      else if negb (secretMatches creatorSecret (pr_creatorSecretHash row)) then mret (ClaimRefused "bad_secret")
      else if bool_decide (pr_state row = "claimed") then mret (ClaimClaimed None)
      else if bool_decide (pr_state row = "waiting") then mret (ClaimPending (if pr_expiresAt row <=? now then expired else waiting))
      else
        count ← act (claimUpdate sessionId);
        match pr_sealedPayload row with
        | Some payload =>
            if Nat.eqb count 1 then
              _ ← auditSeed now sessionUserId "anon.pair.claimed" [("sessionId", sessionId)];
              mret (ClaimClaimed (Some payload))
            else mret (ClaimClaimed None)
        | None => mret (ClaimClaimed None)
        end
  end.

(** ** The routes *)

Context (env : environment) (enabled : bool).

Record RequestContext := { rc_ip : string; rc_ua : option string; rc_country : option string; rc_city : option string }.

(** [s || null] *)
Definition orNull (s : option string) : option string := match s with Some EmptyString => None | _ => s end.

Definition readContext (headers : string → option string) : RequestContext :=
  let country := orNull (trim <$> headers "cf-ipcountry") in
  {| rc_ip := clientIpFrom env headers;
     rc_ua := orNull (String.substring 0 512 <$> headers "user-agent");
     rc_country := match country with
                   | Some c => if bool_decide (c = "XX") || bool_decide (c = "T1") then None else Some c
                   | None => None
                   end;
     rc_city := orNull (trim <$> headers "cf-ipcity") |}.

Definition ipOrNull (ip : string) : option string := if bool_decide (ip = "unknown") then None else Some ip.

(** A JSON body with its status, or an error. *)
Inductive Reply (A : Type) := Json (body : A) | JsonError (error : string) (status : Z).

(** A request: its session, its headers, the verdict of the limiter, and its body, if it is
    JSON. *)
Record PairRequest (B : Type) := {
  rq_auth : option Session; rq_headers : string → option string; rq_verdict : RateLimitVerdict; rq_body : option B }.
Arguments rq_auth {B} _.
Arguments rq_headers {B} _.
Arguments rq_verdict {B} _.
Arguments rq_body {B} _.
Arguments Json {A} body.
Arguments JsonError {A} error status.

Definition pairSession (auth : option Session) : thread SeedDB (option Session) :=
  read (fun db => getCurrentSession auth (cu_flags <$> cd_users (sd_cred db))).

(** What every route checks first. *)
Definition route {A B} (rq : PairRequest B) (k : Session → RequestContext → thread SeedDB (result ActionError (Reply A))) :
    thread SeedDB (result ActionError (Reply A)) :=
  if negb enabled then mret (Ok (JsonError "not_enabled" 404))
  else
    current ← pairSession (rq_auth rq);
    match current with
    | None => mret (Ok (JsonError "not_signed_in" 401))
    | Some session =>
        let ctx := readContext (rq_headers rq) in
        if negb (allowed (rq_verdict rq)) then mret (Ok (JsonError "rate_limited" 429)) else k session ctx
    end.

Definition create_POST (rq : PairRequest unit) (sessionId creatorSecret : string) (sweeps : bool) : thread SeedDB (result ActionError (Reply CreatePairResult)) :=
  route rq (fun session ctx =>
    result ←! createPairSession (s_userId session) (ipOrNull (rc_ip ctx)) (rc_ua ctx) (rc_country ctx) (rc_city ctx) sessionId creatorSecret sweeps;
    mret (Ok (Json result))).

(** A field of the body that is absent or not a string is [None]. *)
Definition poll_POST (rq : PairRequest (option string)) : thread SeedDB (result ActionError (Reply PollPairResult)) :=
  route rq (fun session ctx =>
    match rq_body rq with
    | None => mret (Ok (JsonError "invalid_json" 400))
    | Some (Some sessionId) =>
        if negb (isValidSessionId sessionId) then mret (Ok (JsonError "invalid_body" 400))
        else
          result ← pollPairSession sessionId (ipOrNull (rc_ip ctx)) (rc_country ctx);
          mret (Ok (Json result))
    | Some None => mret (Ok (JsonError "invalid_body" 400))
    end).

Definition sealBody (body : option string * option string) : option (string * string) :=
  sessionId ← body.1; payload ← body.2;
  if isValidSessionId sessionId && Nat.eqb (String.length payload) PAIR_RELAY_BODY_B64_LEN && BASE64URL_RE payload
  then Some (sessionId, payload) else None.

Definition seal_POST (rq : PairRequest (option string * option string)) : thread SeedDB (result ActionError (Reply unit)) :=
  route rq (fun session ctx =>
    match rq_body rq with
    | None => mret (Ok (JsonError "invalid_json" 400))
    | Some body =>
        match sealBody body with
        | None => mret (Ok (JsonError "invalid_body" 400))
        | Some (sessionId, payload) =>
            result ← sealPairSession sessionId (s_userId session) payload (ipOrNull (rc_ip ctx)) (rc_ua ctx);
            mret (Ok match result with
                     | SealOk => Json tt
                     | SealRefused reason => JsonError reason (if bool_decide (reason = "cross_account") then 403 else 409)
                     end)
        end
    end).

Definition claimBody (body : option string * option string) : option (string * string) :=
  sessionId ← body.1; creatorSecret ← body.2;
  if isValidSessionId sessionId && lengthIn 1 128 creatorSecret && BASE64URL_RE creatorSecret then Some (sessionId, creatorSecret) else None.

Definition claim_POST (rq : PairRequest (option string * option string)) : thread SeedDB (result ActionError (Reply (PairState * option string))) :=
  route rq (fun session ctx =>
    match rq_body rq with
    | None => mret (Ok (JsonError "invalid_json" 400))
    | Some body =>
        match claimBody body with
        | None => mret (Ok (JsonError "invalid_body" 400))
        | Some (sessionId, creatorSecret) =>
            result ← claimPairSession sessionId (s_userId session) creatorSecret;
            mret (Ok match result with
                     | ClaimPending state => Json (state, None)
                     | ClaimClaimed payload => Json (claimed, payload)
                     | ClaimRefused reason =>
                         JsonError reason (if bool_decide (reason = "forbidden") then 403 else if bool_decide (reason = "bad_secret") then 401 else 404)
                     end)
        end
    end).

End Relay.

Arguments rq_auth {B} _.
Arguments rq_headers {B} _.
Arguments rq_verdict {B} _.
Arguments rq_body {B} _.
Arguments Json {A} body.
Arguments JsonError {A} error status.

(** ** Requests *)

Inductive AnonCall :=
  | CSeed (c : SeedCall)
  | CCreate (now : Z) (rq : PairRequest unit) (sessionId creatorSecret : string) (sweeps : bool)
  | CPoll (now : Z) (rq : PairRequest (option string))
  | CSeal (now : Z) (rq : PairRequest (option string * option string))
  | CClaim (now : Z) (rq : PairRequest (option string * option string)).

Inductive AnonReply :=
  | RSeed (r : SeedResponse)
  | RCreate (r : result ActionError (Reply CreatePairResult))
  | RPoll (r : result ActionError (Reply PollPairResult))
  | RSeal (r : result ActionError (Reply unit))
  | RClaim (r : result ActionError (Reply (PairState * option string))).

Section Serve.
Context (cw : CredWorld) (hashSecret : string → string) (env : environment) (enabled : bool).

Definition serveAnon (c : AnonCall) : thread SeedDB (AnonCall * AnonReply) :=
  match c with
  | CSeed s => answer (fun r => (c, RSeed r)) (serveSeed enabled s)
  | CCreate now rq sid secret sweeps => answer (fun r => (c, RCreate r)) (create_POST hashSecret now env enabled rq sid secret sweeps)
  | CPoll now rq => answer (fun r => (c, RPoll r)) (poll_POST now env enabled rq)
  | CSeal now rq => answer (fun r => (c, RSeal r)) (seal_POST cw now env enabled rq)
  | CClaim now rq => answer (fun r => (c, RClaim r)) (claim_POST hashSecret now env enabled rq)
  end.

(** ** What leaves relay sessions and users alone *)

Definition pairs_same (db db' : SeedDB) : Prop := sd_pairs db' = sd_pairs db ∧ cd_users (sd_cred db') = cd_users (sd_cred db).

#[export] Instance pairs_same_preorder : PreOrder pairs_same.
Proof using. split; [done|]. intros a b c [H1 H2] [H3 H4]. split; congruence. Qed.

Lemma sendAll_pairs tos subject : steps_in pairs_same (zoom sd_cred with_cred (sendAll cw tos subject)).
Proof using.
  induction tos as [|to tos IH]; [done|]. simpl. intros db. split; by destruct (cw_mail cw to).
Qed.

Lemma gate_pairs now u acting a : steps_in pairs_same (zoom sd_cred with_cred (gatePrivilegedAction now u acting a)).
Proof using. unfold gatePrivilegedAction, evaluateForUser. simpl. intros db. split; [done|]. by destruct (evaluatePrivilegedGate _ _ _). Qed.

Lemma bump_pairs u db : pairs_same db (bumpEpochAndPurge u db).2.
Proof using. unfold bumpEpochAndPurge. by repeat case_match. Qed.

Lemma confirmed_pairs now u db : pairs_same db (updateConfirmed now u db).2.
Proof using. unfold updateConfirmed. by repeat case_match. Qed.

Ltac pairs_walk := repeat first
  [ done | apply steps_in_ret | apply gate_pairs | apply sendAll_pairs | (apply steps_in_read; apply _)
  | (apply steps_in_act; intros; first [apply bump_pairs|apply confirmed_pairs|done]) | (apply steps_in_write; done)
  | (apply steps_in_bind; [|intros ?]) | case_match ].

Lemma serveSeed_pairs c : steps_in pairs_same (serveSeed enabled c).
Proof using.
  unfold serveSeed, answer, getAnonSeedState, beginAnonSeedEnrollment, confirmSeedBackup, putSeedBlob, storeBlob, getAnonPasskeyCredentialIds,
    getSeedBlobs, deleteSeedBlob, resetAnonSeed, rekeyAnonSeed, rekeyNow, sessionUser, findEnrollment, refuse, auditSeed, tbind.
  pairs_walk.
Qed.

Lemma notify_pairs now u sid : steps_in pairs_same (notifyDeviceAdded cw now u sid).
Proof using. unfold notifyDeviceAdded, auditSeed. pairs_walk. Qed.

Lemma audit_pairs now u a meta : steps_in pairs_same (auditSeed now u a meta).
Proof using. unfold auditSeed. pairs_walk. Qed.

Lemma poll_pairs now rq : steps_in pairs_same (poll_POST now env enabled rq).
Proof using. unfold poll_POST, route, pairSession, pollPairSession. pairs_walk. Qed.

(** ** Deposits and hand-overs *)

(** A deposit by an account into a session, and the creation of a session by an account with a
    secret, among requests. *)
Definition deposits (calls : list AnonCall) (sid user payload : string) : Prop :=
  ∃ now rq session, CSeal now rq ∈ calls ∧ rq_auth rq = Some session ∧ s_userId session = user ∧ rq_body rq ≫= sealBody = Some (sid, payload).

Definition creations (calls : list AnonCall) (sid user secret : string) : Prop :=
  ∃ now rq session sweeps, CCreate now rq sid secret sweeps ∈ calls ∧ rq_auth rq = Some session ∧ s_userId session = user.

(** Every session was created by its account with a secret of its own; it holds a payload while
    it is sealed and at no other time, and the payload was deposited by the same account. *)
Record pair_ok (D C : string → string → string → Prop) (sid : string) (row : PairRow) : Prop := {
  po_created : ∃ secret, C sid (pr_userId row) secret ∧ pr_creatorSecretHash row = hashSecret secret;
  po_state : (pr_state row = "waiting" ∧ pr_sealedPayload row = None) ∨
    (pr_state row = "sealed" ∧ ∃ p, pr_sealedPayload row = Some p ∧ D sid (pr_userId row) p) ∨
    (pr_state row = "claimed" ∧ pr_sealedPayload row = None);
}.

Definition relay_ok (D C : string → string → string → Prop) (db : SeedDB) : Prop :=
  ∀ sid row, sd_pairs db !! sid = Some row → pair_ok D C sid row.

Section Relayed.
Context (D C : string → string → string → Prop).
Abbreviation stay Q := (stays (relay_ok D C) Q).

Lemma relay_ok_same db db' : relay_ok D C db → pairs_same db db' → relay_ok D C db'.
Proof using. intros H [E _] sid row. rewrite E. apply H. Qed.

Lemma stay_then {A B} (Q : B → Prop) (t : thread SeedDB A) (k : A → thread SeedDB B) : steps_in pairs_same t → (∀ a, stay Q (k a)) → stay Q (t ≫= k).
Proof using.
  intros Ht Hk. apply stays_bind. eapply stays_impl; [|by apply (stays_frame _ pairs_same); [apply relay_ok_same|]]. done.
Qed.

Lemma relay_ok_insert sid row db : relay_ok D C db → pair_ok D C sid row → relay_ok D C (with_pairs (<[sid := row]> (sd_pairs db)) db).
Proof using. intros H Hr sid' row'. simpl. rewrite lookup_insert_Some. intros [[<- <-]|[_ Hx]]; [done|by apply H]. Qed.

Lemma relay_ok_sweep before db : relay_ok D C db → relay_ok D C (sweepPairs before db).
Proof using. intros H sid row. simpl. intros [Hx _]%map_lookup_filter_Some. by apply H. Qed.

Lemma stay_route {A B} (Q : result ActionError (Reply A) → Prop) (rq : PairRequest B) k :
  (∀ e n, Q (Ok (JsonError e n))) → (∀ session ctx, rq_auth rq = Some session → stay Q (k session ctx)) → stay Q (route env enabled rq k).
Proof using.
  intros HQ Hk. unfold route, pairSession. case_match; [apply HQ|]. intros db Hdb. split; [done|]. simpl.
  destruct (getCurrentSession _ _) as [session|] eqn:Es; [|apply HQ]. case_match; [apply HQ|]. apply Hk. by eapply getCurrentSession_auth.
Qed.

Lemma create_stays now rq sid secret sweeps :
  (∀ session, rq_auth rq = Some session → C sid (s_userId session) secret) →
  stay (fun _ => True) (create_POST hashSecret now env enabled rq sid secret sweeps).
Proof using.
  intros HC. unfold create_POST. apply stay_route; [done|]. intros session ctx Hs. unfold createPairSession. apply stays_tbind, stays_bind, stays_write.
  - intros db Hdb. destruct sweeps; [by apply relay_ok_sweep|done].
  - apply stays_tbind, stays_act. intros db Hdb. unfold insertPair. destruct (sd_pairs db !! sid); [done|]. split.
    + apply relay_ok_insert; [done|]. split; simpl; [exists secret; split; [by apply HC|done]|by left].
    + by apply stay_then; [apply audit_pairs|].
Qed.

Lemma seal_stays now rq :
  (∀ session sid p, rq_auth rq = Some session → rq_body rq ≫= sealBody = Some (sid, p) → D sid (s_userId session) p) →
  stay (fun _ => True) (seal_POST cw now env enabled rq).
Proof using.
  intros HD. unfold seal_POST. apply stay_route; [done|]. intros session ctx Hs. destruct (rq_body rq) as [body|] eqn:Eb; [|done].
  destruct (sealBody body) as [[sid p]|] eqn:Ep; [|done]. specialize (HD session sid p Hs Ep). unfold sealPairSession.
  apply stays_bind, stays_bind, stays_act. intros db Hdb. unfold sealUpdate. destruct (sd_pairs db !! sid) as [row|] eqn:Er.
  - case_match eqn:Ec; cbn [fst snd Nat.eqb].
    + split; [|by apply stay_then; [apply audit_pairs|]; intros; apply stay_then; [apply notify_pairs|]].
      apply andb_true_iff in Ec as [[Hu _]%andb_true_iff _]. apply bool_decide_eq_true in Hu. apply relay_ok_insert; [done|].
      destruct (Hdb sid row Er) as [Hc _]. split; simpl; [done|]. right. left. rewrite Hu. by eauto.
    + split; [done|]. intros db' Hdb'. split; [done|]. simpl. repeat (case_match; try done). all: by apply stay_then; [apply audit_pairs|].
  - split; [done|]. intros db' Hdb'. split; [done|]. simpl. repeat (case_match; try done). all: by apply stay_then; [apply audit_pairs|].
Qed.

(** What a claim hands over was deposited by the claimer's account, and the claimer presented
    the secret the session was created with, or one with its digest. *)
Definition handed_over (rq : PairRequest (option string * option string)) (r : result ActionError (Reply (PairState * option string))) : Prop :=
  ∀ state p, r = Ok (Json (state, Some p)) → ∃ session sid presented secret,
    rq_auth rq = Some session ∧ rq_body rq ≫= claimBody = Some (sid, presented) ∧ D sid (s_userId session) p ∧
    C sid (s_userId session) secret ∧ hashSecret presented = hashSecret secret.

Lemma claim_stays now rq : stay (handed_over rq) (claim_POST hashSecret now env enabled rq).
Proof using.
  unfold claim_POST. apply stay_route; [done|]. intros session ctx Hs. destruct (rq_body rq) as [body|] eqn:Eb; [|done].
  destruct (claimBody body) as [[sid presented]|] eqn:Ep; [|done]. unfold claimPairSession. apply stays_bind. intros db Hdb. split; [done|]. simpl.
  destruct (sd_pairs db !! sid) as [row|] eqn:Er; [|done]. destruct (Hdb sid row Er) as [(secret & HC & Hh) Hst].
  case_bool_decide as Hu; [|done]. simpl. destruct (secretMatches hashSecret presented _) eqn:Em; [|done]. apply bool_decide_eq_true in Em. simpl.
  case_bool_decide; [done|]. case_bool_decide; [done|]. destruct Hst as [[? _]|[(Hse & p & Hp & HD)|[? _]]]; [done| |done].
  intros db' Hdb'. simpl. split.
  - unfold claimUpdate. destruct (sd_pairs db' !! sid) as [row'|] eqn:Er'; [|done]. case_match; [|done]. simpl. apply relay_ok_insert; [done|].
    destruct (Hdb' sid row' Er') as [Hc _]. split; simpl; [done|by right; right].
  - rewrite Hp. destruct (claimUpdate sid db').1 as [|[|]]; simpl; [done| |done]. intros db'' Hdb''. split; [exact Hdb''|]. simpl.
    intros state p' E. simplify_eq. exists session, sid, presented, secret. rewrite Eb, <-Hu. split_and!; [done..|]. by rewrite Em.
Qed.

End Relayed.

Definition serve_post (D C : string → string → string → Prop) (x : AnonCall * AnonReply) : Prop :=
  match x with (CClaim _ rq, RClaim r) => handed_over D C rq r | _ => True end.

Lemma stays_answer {A B} (I : SeedDB → Prop) (g : A → B) (P : A → Prop) (Q : B → Prop) (t : thread SeedDB A) :
  (∀ a, P a → Q (g a)) → stays I P t → stays I Q (answer g t).
Proof using. intros H Ht. apply stays_bind. eapply stays_impl; [|exact Ht]. exact H. Qed.

Lemma serve_stays (D C : string → string → string → Prop) calls c :
  c ∈ calls → (∀ sid u p, deposits calls sid u p → D sid u p) → (∀ sid u s, creations calls sid u s → C sid u s) →
  stays (relay_ok D C) (serve_post D C) (serveAnon c).
Proof using.
  intros Hc HD HC. destruct c as [c|now rq sid secret sweeps|now rq|now rq|now rq]; cbn [serveAnon].
  - eapply stays_answer; [|eapply (stays_frame _ pairs_same); [apply relay_ok_same|apply serveSeed_pairs]]. done.
  - eapply stays_answer; [|apply create_stays]; [done|]. intros session Hs. apply HC. by exists now, rq, session, sweeps.
  - eapply stays_answer; [|eapply (stays_frame _ pairs_same); [apply relay_ok_same|apply poll_pairs]]. done.
  - eapply stays_answer; [|apply seal_stays]; [done|]. intros session sid p Hs Hp. apply HD. by exists now, rq, session.
  - eapply stays_answer; [|apply claim_stays]. done.
Qed.

(** *** A session's payload is a token *)

Section Once.
Context (sid : string).

(** One while the session is open, none after it was claimed or swept. *)
Definition unclaimed (db : SeedDB) : nat :=
  match sd_pairs db !! sid with
  | Some row => if bool_decide (pr_state row = "claimed") then 0 else 1
  | None => 0
  end.

Abbreviation pays := (fun (m : nat) (db : SeedDB) => m = unclaimed db).

(** Whether a reply hands the payload of the session over. *)
Definition handsOver (x : AnonCall * AnonReply) : nat :=
  match x with
  | (CClaim _ rq, RClaim (Ok (Json (_, Some _)))) => if decide (fst <$> (rq_body rq ≫= claimBody) = Some sid) then 1 else 0
  | _ => 0
  end.

Definition paid {A} (cost : A → nat) (a : A) (n : nat) : Prop := (cost a <= n)%nat.

Lemma pays_same m db db' : pays m db → pairs_same db db' → pays m db'.
Proof using. intros -> [E _]. unfold unclaimed. by rewrite E. Qed.

(** A handler that never hands it over. *)
Lemma uses_free {A} (cost : A → nat) (t : thread SeedDB A) :
  (∀ a, cost a = 0%nat) → steps_in (fun db db' => (unclaimed db' <= unclaimed db)%nat) t → uses pays (paid cost) 0 t.
Proof using.
  intros Hc. induction t as [a|f k IH]; simpl; intros Ht; [unfold paid; rewrite Hc; lia|].
  intros m db ->. destruct (Ht db) as [H1 H2]. exists (unclaimed (f db)), 0%nat. split_and!; [lia|done|by apply IH].
Qed.

Abbreviation less := (fun db db' : SeedDB => (unclaimed db' <= unclaimed db)%nat).

Lemma pairs_less {A} (t : thread SeedDB A) : steps_in pairs_same t → steps_in less t.
Proof using.
  induction t as [a|f k IH]; simpl; [done|]. intros Ht db. destruct (Ht db) as [[H1 _] H2]. split; [|by apply IH].
  unfold unclaimed. by rewrite H1.
Qed.

Lemma sweep_less before db : less db (sweepPairs before db).
Proof using.
  unfold unclaimed. simpl. destruct (filter _ (sd_pairs db) !! sid) as [row|] eqn:E; [|lia].
  apply map_lookup_filter_Some in E as [-> _]. done.
Qed.

Lemma insert_less sid' row db : sid' ≠ sid → less db (insertPair sid' row db).2.
Proof using. intros Hne. unfold insertPair, unclaimed. destruct (sd_pairs db !! sid'); [done|]. simpl. by rewrite lookup_insert_ne. Qed.

Lemma seal_less now sid' u p ip ua db : less db (sealUpdate now sid' u p ip ua db).2.
Proof using.
  unfold sealUpdate. destruct (sd_pairs db !! sid') as [row|] eqn:E; [|done]. case_match eqn:Ec; [|done]. unfold unclaimed. simpl.
  destruct (decide (sid' = sid)) as [->|Hs]; [|by rewrite lookup_insert_ne]. rewrite lookup_insert_eq, E. simpl.
  apply andb_true_iff in Ec as [[_ Hw]%andb_true_iff _]. apply bool_decide_eq_true in Hw. rewrite Hw. vm_compute. lia.
Qed.

Lemma route_less {A B} (rq : PairRequest B) (k : Session → RequestContext → thread SeedDB (result ActionError (Reply A))) :
  (∀ session ctx, steps_in less (k session ctx)) → steps_in less (route env enabled rq k).
Proof using.
  intros Hk. unfold route, pairSession. case_match; [done|]. intros db. split; [done|]. simpl. case_match; [|done]. case_match; [done|]. apply Hk.
Qed.

Lemma create_less now rq sid' secret sweeps : sid' ≠ sid → steps_in less (create_POST hashSecret now env enabled rq sid' secret sweeps).
Proof using.
  intros Hne. apply route_less. intros session ctx. unfold createPairSession. apply steps_in_bind; [|by intros [|]].
  apply steps_in_bind; [apply steps_in_write; intros db; destruct sweeps; [apply sweep_less|done]|]. intros _.
  apply steps_in_bind; [apply steps_in_act; intros db; by apply insert_less|]. intros [|]; [|done].
  apply steps_in_bind; [apply pairs_less, audit_pairs|done].
Qed.

Lemma seal_POST_less now rq : steps_in less (seal_POST cw now env enabled rq).
Proof using.
  apply route_less. intros session ctx. destruct (rq_body rq) as [body|]; [|done]. destruct (sealBody body) as [[sid' p]|]; [|done].
  apply steps_in_bind; [|done]. unfold sealPairSession. apply steps_in_bind; [apply steps_in_act; intros; apply seal_less|]. intros n. case_match.
  - apply steps_in_bind; [apply pairs_less, audit_pairs|]. intros _. apply steps_in_bind; [apply pairs_less, notify_pairs|done].
  - intros db. split; [done|]. simpl. by repeat (case_match; try done).
Qed.

Lemma uses_answer {A B} (cost : B → nat) (g : A → B) (t : thread SeedDB A) n :
  uses pays (paid (fun a => cost (g a))) n t → uses pays (paid cost) n (answer g t).
Proof using. intros Ht. apply uses_bind. eapply uses_impl; [|exact Ht]. done. Qed.

Lemma paid_zero {A} (cost : A → nat) (a : A) : cost a = 0%nat → uses pays (paid cost) 0 (mret a).
Proof using. simpl. unfold paid. lia. Qed.

Lemma route_uses {A B} (cost : result ActionError (Reply A) → nat) (rq : PairRequest B) k :
  (∀ e n, cost (Ok (JsonError e n)) = 0%nat) → (∀ session ctx, uses pays (paid cost) 0 (k session ctx)) → uses pays (paid cost) 0 (route env enabled rq k).
Proof using.
  intros Hc Hk. unfold route, pairSession. case_match; [by apply paid_zero|]. apply uses_read. intros m db _.
  case_match; [|by apply paid_zero]. case_match; [by apply paid_zero|apply Hk].
Qed.

(** The claim: the update that closes the session pays for the payload. *)
Definition claimCost (sid' : string) (r : ClaimPairResult) : nat :=
  match r with ClaimClaimed (Some _) => if decide (sid' = sid) then 1 else 0 | _ => 0 end.

Lemma claimUpdate_pays sid' db :
  ∃ n, (unclaimed (claimUpdate sid' db).2 + n <= unclaimed db)%nat ∧ ((claimUpdate sid' db).1 = 1%nat → sid' = sid → n = 1%nat).
Proof using.
  unfold claimUpdate. destruct (sd_pairs db !! sid') as [row|] eqn:E; [|by exists 0%nat; split; [simpl; lia|]].
  case_bool_decide as Hst; [|by exists 0%nat; split; [simpl; lia|]]. simpl. destruct (decide (sid' = sid)) as [->|Hne].
  - exists 1%nat. split; [|done]. unfold unclaimed. simpl. rewrite lookup_insert_eq, E. simpl. rewrite Hst. vm_compute. lia.
  - exists 0%nat. split; [|done]. unfold unclaimed. simpl. rewrite lookup_insert_ne by done. lia.
Qed.

Lemma claimPairSession_uses now sid' u presented : uses pays (paid (claimCost sid')) 0 (claimPairSession hashSecret now sid' u presented).
Proof using.
  unfold claimPairSession. apply uses_read. intros m db _. destruct (sd_pairs db !! sid') as [row|]; [|by apply paid_zero].
  do 4 (case_match; [by apply paid_zero|]). apply uses_act. intros m2 db2 ->. destruct (claimUpdate_pays sid' db2) as (n & Hle & Hn).
  exists (unclaimed (claimUpdate sid' db2).2), n. split_and!; [lia|done|]. destruct (pr_sealedPayload row); [|unfold paid; simpl; lia].
  destruct (Nat.eqb_spec (claimUpdate sid' db2).1 1) as [E1|]; [|unfold paid; simpl; lia].
  apply uses_write. intros m3 db3 ->. exists (unclaimed db3), n. split_and!; [lia|done|]. unfold paid. simpl.
  destruct (decide (sid' = sid)) as [Hs|]; [by rewrite (Hn E1 Hs)|lia].
Qed.

Lemma claim_uses c now rq : uses pays (paid (fun r => handsOver (CClaim c rq, RClaim r))) 0 (claim_POST hashSecret now env enabled rq).
Proof using.
  apply route_uses; [done|]. intros session ctx. destruct (rq_body rq) as [body|] eqn:Eb; [|by apply paid_zero].
  destruct (claimBody body) as [[sid' presented]|] eqn:Ep; [|by apply paid_zero].
  apply uses_bind. eapply uses_impl; [|apply claimPairSession_uses]. intros r n Hn. unfold paid in *. simpl in *.
  destruct r as [st|[p|]|e]; simpl in *; try lia. rewrite Eb. simpl. rewrite Ep. simpl.
  destruct (decide (Some sid' = Some sid)) as [E|]; [|lia]. by rewrite decide_True in Hn by congruence.
Qed.

Lemma serve_uses c : (∀ now rq s sweeps, c ≠ CCreate now rq sid s sweeps) → uses pays (paid handsOver) 0 (serveAnon c).
Proof using.
  intros Hc. destruct c as [c|now rq sid' secret sweeps|now rq|now rq|now rq]; cbn [serveAnon]; apply uses_answer.
  - apply uses_free; [done|]. apply pairs_less, serveSeed_pairs.
  - apply uses_free; [done|]. apply create_less. intros ->. by eapply Hc.
  - apply uses_free; [done|]. apply pairs_less, poll_pairs.
  - apply uses_free; [done|]. apply seal_POST_less.
  - apply claim_uses.
Qed.

End Once.

End Serve.

(** C12: the relay hands the sealed key of a session over at most once, whatever requests run
    and however they interleave; what it hands over was deposited into this session by a
    request of the same account, and went to a request of that account that presented the
    secret the session was created with (or another of the same digest). No session ever holds
    a deposit of another account. *)
Theorem relay_hands_over_once cw hashSecret env enabled (D0 C0 : string → string → string → Prop) calls sched sid db :
  relay_ok hashSecret D0 C0 db → (∀ now rq s sweeps, CCreate now rq sid s sweeps ∉ calls) →
  let run := pool_run sched (map (serveAnon cw hashSecret env enabled) calls, db) in
  let D sid u p := D0 sid u p ∨ deposits calls sid u p in
  let C sid u s := C0 sid u s ∨ creations calls sid u s in
  (sum_list (handsOver sid <$> returned run.1) <= 1)%nat ∧
  Forall (serve_post hashSecret D C) (returned run.1) ∧ relay_ok hashSecret D C run.2.
Proof.
  intros Hdb Hcalls run D C. split.
  - destruct (pool_accounts (fun m db => m = unclaimed sid db) (paid (handsOver sid)) (handsOver sid) (fun _ => True) sched
      (map (serveAnon cw hashSecret env enabled) calls) db (unclaimed sid db)) as (H & _); [by split|done| |].
    + apply Forall_forall. intros t (c & -> & Hc)%elem_of_map. apply serve_uses. intros now rq s sweeps ->. by eapply Hcalls.
    + etrans; [exact H|]. unfold unclaimed. repeat case_match; lia.
  - destruct (stays_pool (relay_ok hashSecret D C) (serve_post hashSecret D C) (map (serveAnon cw hashSecret env enabled) calls) sched db) as [H1 H2]; [| |done].
    + apply Forall_forall. intros t (c & -> & Hc)%elem_of_map. by apply (serve_stays cw hashSecret env enabled D C calls); [|right|right].
    + intros sid' row Hr. destruct (Hdb sid' row Hr) as [(s & Hs & Eh) Hst]. split; [exists s; split; [by left|done]|].
      destruct Hst as [?|[(? & p & ? & ?)|?]]; [by left| |by right; right]. right. left. split; [done|]. exists p. split; [done|by left].
Qed.

(** ** Examples *)

Definition exampleSid : string := toBase64Url (replicate 16 0).
Definition examplePayload : string := toBase64Url (replicate 64 5).

Definition exampleRow (user : string) (state : string) (payload : option string) : PairRow :=
  {| pr_userId := user; pr_state := state; pr_sealedPayload := payload; pr_creatorSecretHash := "#c2VjcmV0"; pr_expiresAt := 2000000;
     pr_creatorIp := Some "10.0.0.7"; pr_creatorUa := None; pr_creatorCountry := Some "CA"; pr_creatorCity := None; pr_sealerIp := None; pr_sealerUa := None |}.

Definition exampleRelay (row : PairRow) : SeedDB := with_pairs {[ exampleSid := row ]} (seedDB (activeRow 1) ∅).

Definition exampleRequest {B} (user : string) (body : B) : PairRequest B :=
  {| rq_auth := Some {| s_userId := user; s_sessionGeneration := Some 0; s_aal := Some 1; s_recovered := false; s_auth_time := None; s_cred := None |};
     rq_headers := fun _ => None; rq_verdict := Verdict true 0; rq_body := Some body |}.

Definition exampleWorld : CredWorld :=
  {| cw_mail := fun _ => false; cw_signVerify := fun _ _ => None; cw_verifyToken := fun _ _ => None; cw_nfkc := fun s => s |}.

Definition exampleHash (s : string) : string := "#" +:+ s.

Definition exampleCalls : list AnonCall :=
  [CSeal 1000000 (exampleRequest "alice" (Some exampleSid, Some examplePayload));
   CClaim 1000000 (exampleRequest "alice" (Some exampleSid, Some "c2VjcmV0"));
   CClaim 1000000 (exampleRequest "alice" (Some exampleSid, Some "c2VjcmV0"))].

Lemma relay_hands_over_once_witness :
  let run := pool_run ([0; 0; 0; 0; 0] ++ [1; 2; 1; 2; 1; 2; 1; 2; 1; 2])%nat
    (map (serveAnon exampleWorld exampleHash ∅ true) exampleCalls, exampleRelay (exampleRow "alice" "waiting" None)) in
  (sum_list (handsOver exampleSid <$> returned run.1) <= 1)%nat ∧ length (returned run.1) = 3%nat ∧
  sum_list (handsOver exampleSid <$> returned run.1) = 1%nat.
Proof.
  split; [|vm_compute; by split].
  refine (proj1 (relay_hands_over_once exampleWorld exampleHash ∅ true (fun _ _ _ => False)
    (fun sid u s => sid = exampleSid ∧ u = "alice" ∧ s = "c2VjcmV0") exampleCalls _ exampleSid _ _ _)).
  - intros sid row H. unfold exampleRelay in H. cbn [sd_pairs with_pairs] in H. apply lookup_singleton_Some in H as [<- <-]. split; [by exists "c2VjcmV0"|by left].
  - intros now rq s sweeps H. unfold exampleCalls in H. rewrite !elem_of_cons, elem_of_nil in H. by destruct H as [|[|[|]]].
Defined.

(** A deposit into another account's session is refused, and recorded. *)
Lemma cross_account_refused :
  let mallory := {| pr_userId := "mallory"; pr_state := "waiting"; pr_sealedPayload := None; pr_creatorSecretHash := "#c2VjcmV0"; pr_expiresAt := 2000000;
     pr_creatorIp := None; pr_creatorUa := None; pr_creatorCountry := None; pr_creatorCity := None; pr_sealerIp := None; pr_sealerUa := None |} in
  let run := run_solo (seal_POST exampleWorld 1000000 ∅ true (exampleRequest "alice" (Some exampleSid, Some examplePayload))) (exampleRelay mallory) in
  run.1 = Ok (JsonError "cross_account" 403) ∧ pr_sealedPayload <$> sd_pairs run.2 !! exampleSid = Some None ∧
  map ar_action (sd_audit run.2) = ["anon.pair.cross_account_blocked"].
Proof. vm_compute. done. Qed.
