(* ===== verification/Vault.v ===== *)
(** * The vault of a device (lib/anon-seed: vault.ts, root-store.ts, pair-client.ts)

    The module state of a browser page that holds the root seed, the on-device store, and the
    client's side of enrollment and pairing. The root lives in buffers that are zeroed in place:
    the vault's variable and an unfinished write to the store may name the same buffer, so the
    buffers are a heap. A step is what runs between two [await]s, or less. Storage, the passkey
    assertion and the password manager are parameters. *)

From S2P Require Import Prelude Threads RateLimit Session SignInOtp PairProtocol Credentials AnonSeed AnonPair.

Open Scope Z_scope.
Open Scope minister_scope.

Definition DEFAULT_ANON_EPOCH : Z := 1.
Definition ANON_FRAGMENT_PREFIX : string := "#minister_anon=v1.".
Definition PM_CREDENTIAL_ID : string := "Ministry Private Identity".
Definition MEMORY_ONLY_PREF_PREFIX : string := "minister.anon.memory-only.".

(** ** The state *)

(** [dv_seed] names a buffer; the store keeps a root and its epoch per user, local storage
    strings, the password manager a password per id. *)
Record Device := {
  dv_heap : list Bytes;
  dv_seed : option nat;
  dv_seedUserId : option string;
  dv_active : bool;
  dv_vaultEpoch : Z;
  dv_store : gmap string (Bytes * Z);
  dv_local : gmap string string;
  dv_passwords : gmap string string;
}.

Definition newDevice : Device :=
  {| dv_heap := []; dv_seed := None; dv_seedUserId := None; dv_active := false; dv_vaultEpoch := DEFAULT_ANON_EPOCH; dv_store := ∅;
     dv_local := ∅; dv_passwords := ∅ |}.

Definition with_store (m : gmap string (Bytes * Z)) (d : Device) : Device :=
  {| dv_heap := dv_heap d; dv_seed := dv_seed d; dv_seedUserId := dv_seedUserId d; dv_active := dv_active d; dv_vaultEpoch := dv_vaultEpoch d;
     dv_store := m; dv_local := dv_local d; dv_passwords := dv_passwords d |}.
Definition with_local (m : gmap string string) (d : Device) : Device :=
  {| dv_heap := dv_heap d; dv_seed := dv_seed d; dv_seedUserId := dv_seedUserId d; dv_active := dv_active d; dv_vaultEpoch := dv_vaultEpoch d;
     dv_store := dv_store d; dv_local := m; dv_passwords := dv_passwords d |}.
Definition with_passwords (m : gmap string string) (d : Device) : Device :=
  {| dv_heap := dv_heap d; dv_seed := dv_seed d; dv_seedUserId := dv_seedUserId d; dv_active := dv_active d; dv_vaultEpoch := dv_vaultEpoch d;
     dv_store := dv_store d; dv_local := dv_local d; dv_passwords := m |}.

(** Whether the device has IndexedDB and each request to it succeeds, the password API, and
    local storage. *)
Record Browser := { br_indexedDB : bool; br_idbWorks : bool; br_passwordCredential : bool; br_localStorage : bool }.

Inductive VaultError := Failure (message : string).

Abbreviation vault A := (thread Device (result VaultError A)).

(** The bytes of the seed, when it belongs to a user. *)
Definition seedOf (userId : string) (d : Device) : option Bytes :=
  if bool_decide (dv_seedUserId d = Some userId) then loc ← dv_seed d; dv_heap d !! loc else None.

(** [seed?.fill(0)] *)
Definition zeroed (heap : list Bytes) (loc : option nat) : list Bytes :=
  match loc with
  | Some l => alter (fun b => replicate (length b) 0) l heap
  | None => heap
  end.

Section Vault.
Context (w : SeedWorld) (br : Browser).

(** ** The store (root-store.ts) *)

Definition assertEpoch (epoch : Z) : bool := assertAadCounter epoch.

(** The bytes are copied once the database is open. *)
Definition putRoot (userId : string) (root : nat) (epoch : Z) : vault unit :=
  len ← read (fun d => length (default [] (dv_heap d !! root)));
  if negb (Nat.eqb len ROOT_SEED_BYTES) then mret (Err (Failure "root must be exactly 16 bytes"))
  else if negb (assertEpoch epoch) then mret (Err (Failure "epoch must be an integer >= 1"))
  else if bool_decide (userId = "") then mret (Err (Failure "userId must be non-empty"))
  else if negb (br_indexedDB br) then mret (Ok tt)
  else if negb (br_idbWorks br) then mret (Err (Failure "indexedDB write failed"))
  else
    _ ← write (fun d => with_store (<[userId := (default [] (dv_heap d !! root), epoch)]> (dv_store d)) d);
    mret (Ok tt).

Definition getRoot (userId : string) : vault (option (Bytes * Z)) :=
  if bool_decide (userId = "") then mret (Err (Failure "userId must be non-empty"))
  else if negb (br_indexedDB br) then mret (Ok None)
  else if negb (br_idbWorks br) then mret (Err (Failure "indexedDB request failed"))
  else read (fun d => Ok (dv_store d !! userId)).

(** The overwrite and the removal are one transaction. *)
Definition deleteRoot (userId : string) : vault unit :=
  if bool_decide (userId = "") then mret (Err (Failure "userId must be non-empty"))
  else if negb (br_indexedDB br) then mret (Ok tt)
  else if negb (br_idbWorks br) then mret (Err (Failure "indexedDB delete failed"))
  else _ ← write (fun d => with_store (delete userId (dv_store d)) d); mret (Ok tt).

(** ** Loading and dropping the seed *)

Definition persistRoot (userId : string) : thread Device unit :=
  held ← read (fun d => if bool_decide (dv_seedUserId d = Some userId) && dv_active d then (fun l => (l, dv_vaultEpoch d)) <$> dv_seed d else None);
  match held with
  | None => mret tt
  | Some (root, epoch) => _ ← putRoot userId root epoch; mret tt
  end.

Definition loadSeed (userId : string) (input : Bytes) (isActive : bool) (epoch : Z) (d : Device) : Device :=
  let heap := zeroed (dv_heap d) (dv_seed d) in
  {| dv_heap := heap ++ [input]; dv_seed := Some (length heap); dv_seedUserId := Some userId; dv_active := isActive; dv_vaultEpoch := epoch;
     dv_store := dv_store d; dv_local := dv_local d; dv_passwords := dv_passwords d |}.

Definition unlockVault (userId : string) (input : Bytes) (isActive : bool) (epoch : option Z) : vault unit :=
  if negb (Nat.eqb (length input) ROOT_SEED_BYTES) then mret (Err (Failure "root seed must be 16 bytes"))
  else
    _ ← write (loadSeed userId input isActive (default DEFAULT_ANON_EPOCH epoch));
    _ ← (if isActive then persistRoot userId else mret tt);
    mret (Ok tt).

Definition setActive (userId : string) (d : Device) : bool * Device :=
  if bool_decide (is_Some (dv_seed d)) && bool_decide (dv_seedUserId d = Some userId)
  then (true, {| dv_heap := dv_heap d; dv_seed := dv_seed d; dv_seedUserId := dv_seedUserId d; dv_active := true; dv_vaultEpoch := dv_vaultEpoch d;
                 dv_store := dv_store d; dv_local := dv_local d; dv_passwords := dv_passwords d |})
  else (false, d).

Definition markVaultActive (userId : string) : thread Device unit :=
  mine ← act (setActive userId);
  if (mine : bool) then persistRoot userId else mret tt.

Definition unlockFromStore (userId : string) : vault bool :=
  stored ←! getRoot userId;
  match stored with
  | None => mret (Ok false)
  | Some (root, epoch) => _ ←! unlockVault userId root true (Some epoch); mret (Ok true)
  end.

Definition dropSeed (d : Device) : Device :=
  {| dv_heap := zeroed (dv_heap d) (dv_seed d); dv_seed := None; dv_seedUserId := None; dv_active := false; dv_vaultEpoch := DEFAULT_ANON_EPOCH;
     dv_store := dv_store d; dv_local := dv_local d; dv_passwords := dv_passwords d |}.

Definition lockVault : thread Device unit := write dropSeed.

Definition purgeVault (userId : string) : thread Device unit := _ ← lockVault; _ ← deleteRoot userId; mret tt.

Definition isVaultReady (userId : string) (d : Device) : bool :=
  bool_decide (is_Some (dv_seed d)) && bool_decide (dv_seedUserId d = Some userId) && dv_active d.

(** ** Pairing *)

(** The bytes of the seed are read after the peer's key has been imported. *)
Definition sealRootToPeer (userId sessionId : string) (recipientPublicKey draw : Bytes) : vault string :=
  held ← read (fun d => if isVaultReady userId d then (fun l => (l, dv_vaultEpoch d)) <$> dv_seed d else None);
  match held with
  | None => mret (Err (Failure "vault is not ready: unlock your Private Identity on this device before pairing"))
  | Some (root, epoch) =>
      bytes ← read (fun d => default [] (dv_heap d !! root));
      mret match sealRoot w recipientPublicKey bytes userId sessionId epoch draw ≫= encodeRelayBody with
           | Some encoded => Ok encoded
           | None => Err (Failure "sealing failed")
           end
  end.

Definition receiveRootFromPeer (userId sessionId : string) (recipientKeyPair : KeyPair w) (relayBody : string) (epoch : Z) : vault unit :=
  match decodeRelayBody relayBody with
  | None => mret (Err (Failure "relay body"))
  | Some body =>
      match openRoot w recipientKeyPair body userId sessionId epoch with
      | None => mret (Err (Failure "open failed"))
      | Some root => unlockVault userId root true (Some epoch)
      end
  end.

(** ** Derivation *)

Definition deriveAppSecret (anonAppId userId : string) (epoch : Z) (d : Device) : result VaultError Bytes :=
  match seedOf userId d with
  | None => Err (Failure "vault is locked")
  | Some seed =>
      if negb (dv_active d) then Err (Failure "enrollment is not active")
      else if negb (epoch =? dv_vaultEpoch d)
      then Err (Failure ("epoch mismatch: this device holds an epoch-" +:+ pretty (dv_vaultEpoch d) +:+ " root but the server epoch is " +:+ pretty epoch))
      else match deriveAppSecretFromSeed w seed anonAppId epoch with Some secret => Ok secret | None => Err (Failure "derivation") end
  end.

Definition buildAnonFragment (perAppSecret : Bytes) : option string :=
  if negb (Nat.eqb (length perAppSecret) PER_APP_SECRET_BYTES) then None else Some (ANON_FRAGMENT_PREFIX +:+ toBase64Url perAppSecret).

Definition buildAnonRedirect (redirectTo anonAppId userId : string) (epoch : Z) (d : Device) : string :=
  match deriveAppSecret anonAppId userId epoch d with
  | Err _ => redirectTo
  | Ok secret => match buildAnonFragment secret with Some fragment => redirectTo +:+ fragment | None => redirectTo end
  end.

(** ** Typed and saved keys *)

Definition unlockWithSeedInput (userId input : string) (epoch : Z) : vault unit :=
  match decodeStringToSeed w input with
  | None => mret (Err (Failure "SeedCodecError"))
  | Some parsed => unlockVault userId parsed true (Some epoch)
  end.

Inductive PmSaveResult := pm_stored | pm_unsupported | pm_failed.

(** [stores] tells whether the password manager took the credential. *)
Definition savePasswordToManager (userId : string) (stores : bool) : thread Device PmSaveResult :=
  act (fun d =>
    match seedOf userId d with
    | None => (pm_failed, d)
    | Some seed =>
        if negb (br_passwordCredential br) then (pm_unsupported, d)
        else match encodeSeedToString w seed with
             | Some password => if stores then (pm_stored, with_passwords (<[PM_CREDENTIAL_ID := password]> (dv_passwords d)) d) else (pm_failed, d)
             | None => (pm_failed, d)
             end
    end).

Inductive PmAutofillResult := pm_unlocked | pm_no_support | pm_none.

(** [chosen] is the entry the user picked, if any. *)
Definition autofillFromPasswordManager (userId : string) (epoch : Z) (chosen : option string) : vault PmAutofillResult :=
  if negb (br_passwordCredential br) then mret (Ok pm_no_support)
  else
    password ← read (fun d => id ← chosen; dv_passwords d !! id);
    match password with
    | None => mret (Ok pm_none)
    | Some password => _ ←! unlockWithSeedInput userId password epoch; mret (Ok pm_unlocked)
    end.

Definition getSeedBackupString (userId : string) (d : Device) : option string := seed ← seedOf userId d; encodeSeedToString w seed.

(** ** The memory-only preference *)

Definition getMemoryOnlyPref (userId : string) (d : Device) : bool :=
  br_localStorage br && bool_decide (dv_local d !! (MEMORY_ONLY_PREF_PREFIX +:+ userId) = Some "1").

Definition setMemoryOnlyPref (userId : string) (value : bool) (d : Device) : Device :=
  if negb (br_localStorage br) then d
  else if value then with_local (<[MEMORY_ONLY_PREF_PREFIX +:+ userId := "1"]> (dv_local d)) d
  else with_local (delete (MEMORY_ONLY_PREF_PREFIX +:+ userId) (dv_local d)) d.

End Vault.

(** ** Devices and the server *)

Record World := { wd_db : SeedDB; wd_devices : gmap nat Device }.

Definition deviceAt (i : nat) (W : World) : Device := default newDevice (wd_devices W !! i).
Definition with_device (i : nat) (d : Device) (W : World) : World := {| wd_db := wd_db W; wd_devices := <[i := d]> (wd_devices W) |}.
Definition with_db (db : SeedDB) (W : World) : World := {| wd_db := db; wd_devices := wd_devices W |}.

Definition atDevice {A} (i : nat) (t : thread Device A) : thread World A := zoom (deviceAt i) (with_device i) t.
Definition atServer {A} (t : thread SeedDB A) : thread World A := zoom wd_db with_db t.

Abbreviation client A := (thread World (result VaultError A)).

(** A server action that throws rejects on the client. *)
Definition serverAction {A} (t : thread SeedDB (result ActionError A)) : client A :=
  r ← atServer t; mret (match r with Ok a => Ok a | Err _ => Err (Failure "server action") end).

(** ** The passkey assertion (prfAssert) *)

(** [navigator.credentials.get]: it throws, gives no usable credential, or an assertion with
    its id and the output of the PRF extension. *)
Inductive CredentialOutcome := GetThrows | GetNothing | GetAssertion (id : string) (prf : option Bytes).
Inductive PrfAssertOutcome := PrfOk (credentialId : string) (prfOutput : Bytes) | PrfCancelled | PrfUnsupported.

Definition prfAssert (get : list Bytes → CredentialOutcome) (credentialIds : list string) : PrfAssertOutcome :=
  match mapM fromBase64Url credentialIds with
  | None => PrfCancelled
  | Some allowCredentials =>
      match get allowCredentials with
      | GetThrows | GetNothing => PrfCancelled
      | GetAssertion id (Some prfOutput) => if negb (Nat.eqb (length prfOutput) PRF_OUTPUT_BYTES) then PrfUnsupported else PrfOk id prfOutput
      | GetAssertion id None => PrfUnsupported
      end
  end.

Inductive PasskeyEnrollResult := EnrollOk (credentialId : string) | EnrollRefused (reason : string).
Inductive PasskeyUnlockResult := UnlockOk | UnlockRefused (reason : string).

(** *** Answers of the server *)

Record ServerEnv := { sv_enabled : bool; sv_env : environment; sv_cred : CredWorld; sv_hash : string → string }.

Section Clients.
Context (w : SeedWorld) (br : Browser) (sv : ServerEnv) (here : nat).
(** The session the browser's requests carry, and their instant. *)
Context (auth : option Session) (now : Z).

(** *** Storing a wrapped copy *)

(** The vault's variable is read when the wrap starts, the bytes when it encrypts. *)
Definition wrapLoaded (prfOutput : Bytes) (aad : SeedWrapAad) (iv : Bytes) : client WrappedSeed :=
  held ← atDevice here (read dv_seed);
  match held with
  | None => mret (Err (Failure "TypeError"))
  | Some loc =>
      bytes ← atDevice here (read (fun d => default [] (dv_heap d !! loc)));
      mret (match wrapSeed w bytes prfOutput aad iv with Some wrapped => Ok wrapped | None => Err (Failure "wrap") end)
  end.

Definition enrollPasskeyBlob (userId : string) (verdict : RateLimitVerdict) (get : list Bytes → CredentialOutcome) (iv : Bytes) : client PasskeyEnrollResult :=
  loaded ← atDevice here (read (fun d => bool_decide (is_Some (dv_seed d)) && bool_decide (dv_seedUserId d = Some userId)));
  if negb loaded then mret (Ok (EnrollRefused "vault-locked"))
  else
    state ←! serverAction (getAnonSeedState (sv_enabled sv) auth);
    match state with
    | SErr _ => mret (Ok (EnrollRefused "server"))
    | SOk {| as_status := active_seed; as_enrollmentEpoch := enrollmentEpoch |} =>
        creds ←! serverAction (getAnonPasskeyCredentialIds (sv_enabled sv) auth);
        match creds with
        | SErr _ => mret (Ok (EnrollRefused "server"))
        | SOk [] => mret (Ok (EnrollRefused "no-passkeys"))
        | SOk ((_ :: _) as credentialIds) =>
            match prfAssert get credentialIds with
            | PrfCancelled => mret (Ok (EnrollRefused "cancelled"))
            | PrfUnsupported => mret (Ok (EnrollRefused "prf-unsupported"))
            | PrfOk credentialId prfOutput =>
                wrapped ←! wrapLoaded prfOutput
                  {| sa_userId := userId; sa_credentialId := credentialId; sa_wrapVersion := 1; sa_enrollmentEpoch := enrollmentEpoch |} iv;
                put ←! serverAction (putSeedBlob (sv_enabled sv) now auth verdict
                  {| pb_credentialId := credentialId; pb_ciphertext := toBase64Url (ws_ciphertext wrapped); pb_iv := toBase64Url (ws_iv wrapped);
                     pb_wrapVersion := Some 1 |});
                mret (Ok match put with SOk _ => EnrollOk credentialId | SErr _ => EnrollRefused "server" end)
            end
        end
    | SOk _ => mret (Ok (EnrollRefused "not-active"))
    end.

(** The bytes of a blob under its context. *)
Definition unwrapView (userId : string) (prfOutput : Bytes) (blob : SeedBlobView) : option Bytes :=
  ciphertext ← fromBase64Url (bv_ciphertext blob);
  iv ← fromBase64Url (bv_iv blob);
  unwrapSeed w {| ws_ciphertext := ciphertext; ws_iv := iv |} prfOutput
    {| sa_userId := userId; sa_credentialId := bv_credentialId blob; sa_wrapVersion := bv_wrapVersion blob; sa_enrollmentEpoch := bv_enrollmentEpoch blob |}.

Definition unlockWithPasskey (userId : string) (get : list Bytes → CredentialOutcome) : client PasskeyUnlockResult :=
  res ←! serverAction (getSeedBlobs (sv_enabled sv) auth);
  match res with
  | SErr _ => mret (Ok (UnlockRefused "server"))
  | SOk [] => mret (Ok (UnlockRefused "no-blobs"))
  | SOk ((_ :: _) as blobs) =>
      match prfAssert get (map bv_credentialId blobs) with
      | PrfCancelled => mret (Ok (UnlockRefused "cancelled"))
      | PrfUnsupported => mret (Ok (UnlockRefused "prf-unsupported"))
      | PrfOk credentialId prfOutput =>
          match head (filter (fun b => bv_credentialId b = credentialId) blobs) with
          | None => mret (Ok (UnlockRefused "mismatch"))
          | Some blob =>
              match unwrapView userId prfOutput blob with
              | None => mret (Ok (UnlockRefused "mismatch"))
              | Some unwrapped =>
                  r ← atDevice here (unlockVault br userId unwrapped true (Some (bv_enrollmentEpoch blob)));
                  mret (Ok match r with Ok _ => UnlockOk | Err _ => UnlockRefused "mismatch" end)
              end
          end
      end
  end.

(** *** Enrolling (components/anon-seed/enrollment-flow.tsx) *)

(** [generate]: the seed is a draw; the result is the backup string to show. *)
Definition generate (userId : string) (needsRestart : bool) (resetVerdict beginVerdict : RateLimitVerdict) (seed : Bytes) : client (result SeedRefusal string) :=
  _ ←! (if needsRestart then _ ←! serverAction (resetAnonSeed (sv_enabled sv) now auth resetVerdict None); mret (Ok tt) else mret (Ok tt));
  begun ←! serverAction (beginAnonSeedEnrollment (sv_enabled sv) now auth beginVerdict);
  match begun with
  | SErr e => mret (Ok (Err e))
  | SOk state =>
      match encodeSeedToString w seed with
      | None => mret (Err (Failure "SeedCodecError"))
      | Some seedString =>
          _ ←! atDevice here (unlockVault br userId seed false (Some (as_enrollmentEpoch state)));
          mret (Ok (Ok seedString))
      end
  end.

Definition submitConfirm (userId : string) (verdict : RateLimitVerdict) (seedString typed : string) : client (result SeedRefusal unit) :=
  if negb (bool_decide (trim typed = seedString))
  then mret (Ok (Err (Message "That doesn't match your Private Identity. Check your backup and try again.")))
  else
    confirmed ←! serverAction (confirmSeedBackup (sv_enabled sv) now auth verdict);
    match confirmed with
    | SErr e => mret (Ok (Err e))
    | SOk _ => _ ← atDevice here (markVaultActive br userId); mret (Ok (Ok tt))
    end.

(** *** Pairing (pair-client.ts) *)

(** A request that a handler throws on is answered without a readable body. *)
Definition postJson {A} (t : thread SeedDB (result ActionError (Reply A))) : thread World (Reply A) :=
  r ← atServer t; mret (match r with Ok reply => reply | Err _ => JsonError "" 500 end).

Record DisplaySession := {
  ds_sessionId : string; ds_creatorSecret : string; ds_expiresAt : Z; ds_qrText : string; ds_code : string; ds_keyPair : KeyPair w }.

Definition pairRequest {B} (headers : string → option string) (verdict : RateLimitVerdict) (body : B) : PairRequest B :=
  {| rq_auth := auth; rq_headers := headers; rq_verdict := verdict; rq_body := Some body |}.

Definition startDisplaySession (headers : string → option string) (verdict : RateLimitVerdict) (sessionId creatorSecret : string) (sweeps : bool)
    (keyPair : KeyPair w) : client DisplaySession :=
  res ← postJson (create_POST (sv_hash sv) now (sv_env sv) (sv_enabled sv) (pairRequest headers verdict tt) sessionId creatorSecret sweeps);
  match res with
  | JsonError _ status => mret (Err (Failure (if status =? 401 then "Sign in first." else "Could not start pairing. Try again.")))
  | Json created =>
      let publicKey := sw_publicKey w keyPair in
      match encodePairQr (cp_sessionId created) publicKey, derivePairCode w (cp_sessionId created) publicKey with
      | Some qrText, Some code =>
          mret (Ok {| ds_sessionId := cp_sessionId created; ds_creatorSecret := cp_creatorSecret created; ds_expiresAt := cp_expiresAt created;
                      ds_qrText := qrText; ds_code := code; ds_keyPair := keyPair |})
      | _, _ => mret (Err (Failure "PairProtocolError"))
      end
  end.

Inductive ClaimPoll := poll_waiting | poll_received | poll_expired | poll_error (message : string).

Definition pollForRoot (headers : string → option string) (verdict : RateLimitVerdict) (session : DisplaySession) (userId : string) (epoch : Z) :
    thread World ClaimPoll :=
  res ← postJson (claim_POST (sv_hash sv) now (sv_env sv) (sv_enabled sv)
          (pairRequest headers verdict (Some (ds_sessionId session), Some (ds_creatorSecret session))));
  match res with
  | JsonError _ _ => mret (poll_error "Pairing failed. Start again on both devices.")
  | Json (expired, _) => mret poll_expired
  | Json (claimed, Some payload) =>
      if bool_decide (payload = "") then mret poll_waiting
      else
        r ← atDevice here (receiveRootFromPeer w br userId (ds_sessionId session) (ds_keyPair session) payload epoch);
        mret (match r with Ok _ => poll_received | Err _ => poll_error "The received key failed verification. Start again." end)
  | Json _ => mret poll_waiting
  end.

Record ScannedQr := { sq_sessionId : string; sq_publicKey : Bytes; sq_code : string }.

Definition parseScannedQr (text : string) : option ScannedQr :=
  '(sessionId, publicKey) ← parsePairQr text;
  code ← derivePairCode w sessionId publicKey;
  Some {| sq_sessionId := sessionId; sq_publicKey := publicKey; sq_code := code |}.

Record PeerFacts := { fp_state : PairState; fp_country : option string; fp_city : option string; fp_sameNetworkAsYou : bool; fp_sameCountryAsYou : bool }.

Definition fetchPeerFacts (headers : string → option string) (verdict : RateLimitVerdict) (sessionId : string) : thread World (option PeerFacts) :=
  res ← postJson (poll_POST now (sv_env sv) (sv_enabled sv) (pairRequest headers verdict (Some sessionId)));
  mret match res with
       | JsonError _ _ => None
       | Json result =>
           Some {| fp_state := pp_state result; fp_country := pp_peer result ≫= pf_country; fp_city := pp_peer result ≫= pf_city;
                   fp_sameNetworkAsYou := from_option pf_sameNetworkAsYou false (pp_peer result);
                   fp_sameCountryAsYou := from_option pf_sameCountryAsYou false (pp_peer result) |}
       end.

Definition normalizeSealReason (raw : string) : string :=
  if bool_decide (raw ∈ ["cross_account"; "expired"; "already_used"; "not_found"]) then raw else "error".

Definition sealErrorCopy (reason : string) : string :=
  if bool_decide (reason = "cross_account") then
    "That code belongs to a different Ministry account. If you did not expect this, someone may be trying to take your key. Do not continue."
  else if bool_decide (reason = "expired") then "That code expired. Ask the other device to show a fresh one."
  else if bool_decide (reason = "already_used") then "That code was already used. Ask the other device to show a fresh one."
  else if bool_decide (reason = "not_found") then "That code is not valid. Make sure you scanned the code on your other device."
  else "Could not add the device. Try again.".

Inductive SealOutcome := SealSent | SealFailed (reason message : string).

(** Only the refusals of the relay carry a reason. *)
Definition sealToPeer (headers : string → option string) (verdict : RateLimitVerdict) (userId sessionId : string) (publicKey draw : Bytes) :
    thread World SealOutcome :=
  sealed ← atDevice here (sealRootToPeer w userId sessionId publicKey draw);
  match sealed with
  | Err _ => mret (SealFailed "vault" "Unlock your Private Identity on this device before adding another device.")
  | Ok payload =>
      res ← postJson (seal_POST (sv_cred sv) now (sv_env sv) (sv_enabled sv) (pairRequest headers verdict (Some sessionId, Some payload)));
      mret match res with
           | Json _ => SealSent
           | JsonError error _ => let reason := normalizeSealReason error in SealFailed reason (sealErrorCopy reason)
           end
  end.

End Clients.
