(* ===== verification/VaultProofs.v ===== *)
(** * What vaults promise

    Whose root a vault derives from and seals, under every interleaving of its operations; that
    pairing completes; and where the code does less than its comments say. *)

From S2P Require Import Prelude Threads RateLimit Session SignInOtp PairProtocol Credentials AnonSeed AnonPair Vault.

Open Scope Z_scope.
Open Scope minister_scope.

(** ** Operations on a device *)

Section Roots.
Context (w : SeedWorld) (br : Browser).

Inductive VaultOp :=
  | OpUnlock (userId : string) (input : Bytes) (isActive : bool) (epoch : option Z)
  | OpMark (userId : string)
  | OpFromStore (userId : string)
  | OpLock
  | OpPurge (userId : string)
  | OpReceive (userId sessionId : string) (recipientKeyPair : KeyPair w) (relayBody : string) (epoch : Z)
  | OpSeedInput (userId input : string) (epoch : Z)
  | OpSave (userId : string) (stores : bool)
  | OpSeal (userId sessionId : string) (recipientPublicKey draw : Bytes)
  | OpDerive (anonAppId userId : string) (epoch : Z)
  | OpRedirect (redirectTo anonAppId userId : string) (epoch : Z).

Inductive VaultReply :=
  | VSecret (anonAppId userId : string) (epoch : Z) (r : result VaultError Bytes)
  | VSealed (userId sessionId : string) (recipientPublicKey draw : Bytes) (r : result VaultError string)
  | VRedirect (redirectTo anonAppId userId : string) (epoch : Z) (target : string)
  | VDone.

Definition serveVault (op : VaultOp) : thread Device VaultReply :=
  match op with
  | OpUnlock u input isActive epoch => answer (fun _ => VDone) (unlockVault br u input isActive epoch)
  | OpMark u => answer (fun _ => VDone) (markVaultActive br u)
  | OpFromStore u => answer (fun _ => VDone) (unlockFromStore br u)
  | OpLock => answer (fun _ => VDone) lockVault
  | OpPurge u => answer (fun _ => VDone) (purgeVault br u)
  | OpReceive u sid kp body epoch => answer (fun _ => VDone) (receiveRootFromPeer w br u sid kp body epoch)
  | OpSeedInput u input epoch => answer (fun _ => VDone) (unlockWithSeedInput w br u input epoch)
  | OpSave u stores => answer (fun _ => VDone) (savePasswordToManager w br u stores)
  | OpSeal u sid pk draw => answer (VSealed u sid pk draw) (sealRootToPeer w u sid pk draw)
  | OpDerive app u epoch => answer (VSecret app u epoch) (read (deriveAppSecret w app u epoch))
  | OpRedirect to app u epoch => answer (VRedirect to app u epoch) (read (buildAnonRedirect w to app u epoch))
  end.

(** A root that one of the operations loads for a user at an epoch. *)
Definition loads (ops : list VaultOp) (u : string) (r : Bytes) (e : Z) : Prop :=
  (∃ isActive epoch, OpUnlock u r isActive epoch ∈ ops ∧ e = default DEFAULT_ANON_EPOCH epoch) ∨
  (∃ sid kp relayBody body, OpReceive u sid kp relayBody e ∈ ops ∧ decodeRelayBody relayBody = Some body ∧ openRoot w kp body u sid e = Some r) ∨
  (∃ input, OpSeedInput u input e ∈ ops ∧ decodeStringToSeed w input = Some r).

(** ** The invariant *)

Context (L : string → Bytes → Z → Prop).

(** A root of this user and epoch, or a buffer that was zeroed. *)
Definition genuine (u : string) (r : Bytes) (e : Z) : Prop := length r = ROOT_SEED_BYTES ∧ (L u r e ∨ r = replicate ROOT_SEED_BYTES 0).

Record vault_ok (d : Device) : Prop := {
  vo_seed : ∀ loc, dv_seed d = Some loc → ∃ u r, dv_seedUserId d = Some u ∧ dv_heap d !! loc = Some r ∧ genuine u r (dv_vaultEpoch d);
  vo_store : ∀ u r e, dv_store d !! u = Some (r, e) → genuine u r e;
}.

(** Buffers stay, and are only ever zeroed. *)
Definition buffers (d d' : Device) : Prop :=
  ∀ loc b, dv_heap d !! loc = Some b → ∃ b', dv_heap d' !! loc = Some b' ∧ (b' = b ∨ b' = replicate (length b) 0).

#[export] Instance buffers_preorder : PreOrder buffers.
Proof using.
  split; [intros d loc b Hb; exists b; auto|]. intros a b c H1 H2 loc x Hx. destruct (H1 loc x Hx) as (y & Hy & Ey).
  destruct (H2 loc y Hy) as (z & Hz & Ez). exists z. split; [done|]. destruct Ez as [-> | ->]; [done|]. right.
  destruct Ey as [->| ->]; [done|]. by rewrite length_replicate.
Qed.

Lemma buffers_same (d d' : Device) : dv_heap d' = dv_heap d → buffers d d'.
Proof using. intros E loc b Hb. exists b. rewrite E. auto. Qed.

Abbreviation follow := (follows vault_ok buffers).

Lemma follows_bind_any {A B} (Q : B → Prop) d0 (t : thread Device A) (k : A → thread Device B) :
  follow (fun a => ∀ d, follow Q d (k a)) d0 t → follow Q d0 (t ≫= k).
Proof using.
  revert d0. induction t as [a|f k' IH]; intros d0 Ht; [apply Ht|]. intros d Hd HR. destruct (Ht d Hd HR) as (? & ? & ?). split_and!; [done|done|]. by apply IH.
Qed.

Lemma follows_answer {A B} (g : A → B) (Q : B → Prop) d0 t : follow (fun a => Q (g a)) d0 t → follow Q d0 (answer g t).
Proof using. intros Ht. apply follows_bind_any. eapply follows_impl; [|exact Ht]. done. Qed.

Lemma follow_step {A} (Q : A → Prop) d0 (f : Device → A * Device) :
  (∀ d, vault_ok d → vault_ok (f d).2 ∧ buffers d (f d).2 ∧ Q (f d).1) → follow Q d0 (act f).
Proof using. intros H d Hd _. destruct (H d Hd) as (? & ? & ?). by split_and!. Qed.

Lemma zeroed_lookup heap loc l b : heap !! l = Some b → ∃ b', zeroed heap loc !! l = Some b' ∧ (b' = b ∨ b' = replicate (length b) 0).
Proof using.
  intros Hb. destruct loc as [k|]; simpl; [|by exists b; auto]. destruct (decide (k = l)) as [->|Hne].
  - rewrite list_lookup_alter_eq, Hb. simpl. eauto.
  - rewrite list_lookup_alter_ne by done. eauto.
Qed.

Lemma zeroed_length heap loc : length (zeroed heap loc) = length heap.
Proof using. destruct loc; simpl; [apply length_alter|done]. Qed.

Lemma loadSeed_ok u r a e d : genuine u r e → vault_ok d → vault_ok (loadSeed u r a e d) ∧ buffers d (loadSeed u r a e d).
Proof using.
  intros Hg [H1 H2]. split.
  - split; simpl; [|done]. intros loc E. injection E as <-. exists u, r. rewrite lookup_app_r, Nat.sub_diag by done. done.
  - intros loc b Hb. destruct (zeroed_lookup _ (dv_seed d) _ _ Hb) as (b' & Hb' & Eb). exists b'. simpl. split; [|done].
    by apply lookup_app_l_Some.
Qed.

Lemma dropSeed_ok d : vault_ok d → vault_ok (dropSeed d) ∧ buffers d (dropSeed d).
Proof using. intros [H1 H2]. split; [by split|]. intros loc b Hb. by apply zeroed_lookup. Qed.

(** The write of a buffer that held a genuine root. *)
Lemma putRoot_follows u loc e b d0 :
  dv_heap d0 !! loc = Some b → genuine u b e → follow (fun _ => True) d0 (putRoot br u loc e).
Proof using.
  intros Hb Hg. unfold putRoot. apply follows_read; [apply _|]. intros d Hd HR. do 5 (case_match; [done|]).
  apply follows_act. intros d1 Hd1 HR1. assert (buffers d0 d1) as H01 by (by etrans). destruct (H01 loc b Hb) as (b' & Hb' & Eb).
  assert (genuine u b' e) as Hg'.
  { destruct Hg as [Hl Hg]. destruct Eb as [-> | ->]; [by split|]. split; [by rewrite length_replicate|]. right. by rewrite Hl. }
  simpl. rewrite Hb'. simpl. split_and!; [|by apply buffers_same|done]. destruct Hd1 as [Hse Hst]. split; [done|]. simpl. intros u' r e'.
  rewrite lookup_insert_Some. intros [[<- E]|[_ Hx]]; [by simplify_eq|by apply Hst].
Qed.

Lemma persistRoot_follows u d0 : follow (fun _ => True) d0 (persistRoot br u).
Proof using.
  unfold persistRoot. apply follows_read; [apply _|]. intros d Hd HR. case_match eqn:E; [|done]. destruct p as [loc e].
  case_match eqn:Ec; [|done]. apply andb_true_iff in Ec as [Hu%bool_decide_eq_true _]. apply fmap_Some in E as (l & El & ?). simplify_eq.
  destruct (vo_seed d Hd l El) as (u' & r & Hu' & Hr & Hg). simplify_eq. apply follows_bind_any.
  eapply follows_impl; [|by eapply putRoot_follows]. done.
Qed.

Lemma unlockVault_follows u r a ep d0 :
  (length r = ROOT_SEED_BYTES → genuine u r (default DEFAULT_ANON_EPOCH ep)) → follow (fun _ => True) d0 (unlockVault br u r a ep).
Proof using.
  intros Hg. unfold unlockVault. destruct (Nat.eqb_spec (length r) ROOT_SEED_BYTES) as [Hl|]; [|done]. cbn [negb]. apply follows_act.
  intros d Hd HR. destruct (loadSeed_ok u r a (default DEFAULT_ANON_EPOCH ep) d (Hg Hl) Hd). split_and!; [done|done|].
  apply follows_bind_any. destruct a; [|done]. eapply follows_impl; [|apply persistRoot_follows]. done.
Qed.

Lemma markVaultActive_follows u d0 : follow (fun _ => True) d0 (markVaultActive br u).
Proof using.
  unfold markVaultActive. apply follows_act. intros d Hd HR. unfold setActive. case_match; simpl; [|by split_and!].
  split_and!; [|by apply buffers_same|apply persistRoot_follows]. destruct Hd as [Hse Hst]. by split.
Qed.

Lemma unlockFromStore_follows u d0 : follow (fun _ => True) d0 (unlockFromStore br u).
Proof using.
  unfold unlockFromStore, getRoot, tbind. case_match; [done|]. case_match; [done|]. case_match; [done|]. apply follows_read; [apply _|].
  intros d Hd HR. destruct (dv_store d !! u) as [[r e]|] eqn:E; [|done]. apply follows_bind_any. eapply follows_impl; [|apply unlockVault_follows].
  - by intros [|] _ d'.
  - intros _. by apply (vo_store d Hd).
Qed.

Lemma purgeVault_follows u d0 : follow (fun _ => True) d0 (purgeVault br u).
Proof using.
  unfold purgeVault, lockVault. apply follows_act. intros d Hd HR. destruct (dropSeed_ok d Hd). split_and!; [done|done|].
  unfold deleteRoot. do 3 (case_match; [done|]). apply follows_act. intros d1 Hd1 HR1. split_and!; [|by apply buffers_same|done].
  destruct Hd1 as [Hse Hst]. split; [done|]. simpl. intros u' r e [_ Hx]%lookup_delete_Some. by apply Hst.
Qed.

Lemma save_follows u stores d0 : follow (fun _ => True) d0 (savePasswordToManager w br u stores).
Proof using.
  unfold savePasswordToManager. apply follow_step. intros d Hd. assert (buffers d d) by done.
  repeat case_match; split_and!; try done; try (by apply buffers_same); by destruct Hd; split.
Qed.

(** *** What leaves the vault *)

(** A secret is derived from, and a payload seals, a genuine root of the user at the epoch; a
    redirect carries such a secret or nothing. *)
Definition secret_from (app u : string) (e : Z) (secret : Bytes) : Prop := ∃ r, genuine u r e ∧ deriveAppSecretFromSeed w r app e = Some secret.

Definition vault_post (x : VaultReply) : Prop :=
  match x with
  | VSecret app u e (Ok secret) => secret_from app u e secret
  | VSealed u sid pk draw (Ok payload) => ∃ r e, genuine u r e ∧ sealRoot w pk r u sid e draw ≫= encodeRelayBody = Some payload
  | VRedirect to app u e target =>
      target = to ∨ ∃ secret, secret_from app u e secret ∧ target = to +:+ ANON_FRAGMENT_PREFIX +:+ toBase64Url secret
  | _ => True
  end.

Lemma derive_genuine app u e d secret : vault_ok d → deriveAppSecret w app u e d = Ok secret → secret_from app u e secret.
Proof using.
  intros Hd. unfold deriveAppSecret, seedOf. case_bool_decide as Hu; [|done]. destruct (dv_seed d) as [loc|] eqn:El; [|done].
  destruct (vo_seed d Hd loc El) as (u' & r & Hu' & Hr & Hg). simplify_eq. cbn [mbind option_bind]. rewrite Hr. destruct (dv_active d); [|done].
  destruct (Z.eqb_spec e (dv_vaultEpoch d)) as [->|]; [|done]. cbn [negb].
  destruct (deriveAppSecretFromSeed w r app (dv_vaultEpoch d)) as [s|] eqn:Es; [|done]. intros E. injection E as <-. by exists r.
Qed.

Lemma redirect_genuine to app u e d : vault_ok d → vault_post (VRedirect to app u e (buildAnonRedirect w to app u e d)).
Proof using.
  intros Hd. simpl. unfold buildAnonRedirect. destruct (deriveAppSecret w app u e d) as [secret|] eqn:E; [|by left].
  unfold buildAnonFragment. case_match eqn:Ef; [|by left]. case_match; [done|]. simplify_eq. right. exists secret. split; [by eapply derive_genuine|done].
Qed.

Lemma seal_follows u sid pk draw d0 : follow (fun r => vault_post (VSealed u sid pk draw r)) d0 (sealRootToPeer w u sid pk draw).
Proof using.
  unfold sealRootToPeer. apply follows_read; [apply _|]. intros d Hd HR. case_match eqn:E; [|done]. destruct p as [loc e].
  case_match eqn:Er; [|done]. apply fmap_Some in E as (l & El & ?). simplify_eq. unfold isVaultReady in Er. rewrite !andb_true_iff in Er.
  destruct Er as [[_ Hu%bool_decide_eq_true] _]. destruct (vo_seed d Hd l El) as (u' & r & Hu' & Hr & Hg). simplify_eq.
  apply follows_read; [apply _|]. intros d1 Hd1 HR1. destruct (HR1 l r Hr) as (b & Hb & Eb). rewrite Hb. simpl.
  destruct (sealRoot w pk b u sid (dv_vaultEpoch d) draw ≫= encodeRelayBody) as [enc|] eqn:Es; [|done].
  exists b, (dv_vaultEpoch d). split; [|done]. destruct Hg as [Hl Hg]. destruct Eb as [-> | ->]; [by split|].
  split; [by rewrite length_replicate|]. right. by rewrite Hl.
Qed.

Lemma serveVault_follows ops op d0 : op ∈ ops → (∀ u r e, loads ops u r e → L u r e) → follow vault_post d0 (serveVault op).
Proof using.
  intros Hop HL. destruct op as [u r a ep|u|u| |u|u sid kp body e|u input e|u stores|u sid pk draw|app u e|to app u e]; cbn [serveVault]; apply follows_answer.
  - apply unlockVault_follows. intros Hl. split; [done|]. left. apply HL. left. by exists a, ep.
  - apply markVaultActive_follows.
  - apply unlockFromStore_follows.
  - apply follow_step. intros d Hd. simpl. by destruct (dropSeed_ok d Hd).
  - apply purgeVault_follows.
  - unfold receiveRootFromPeer. destruct (decodeRelayBody body) as [b|] eqn:Eb; [|done]. destruct (openRoot w kp b u sid e) as [r|] eqn:Eo; [|done].
    apply unlockVault_follows. intros Hl. split; [done|]. left. apply HL. right. left. by exists sid, kp, body, b.
  - unfold unlockWithSeedInput. destruct (decodeStringToSeed w input) as [r|] eqn:Es; [|done].
    apply unlockVault_follows. intros Hl. split; [done|]. left. apply HL. right. right. by exists input.
  - apply save_follows.
  - apply seal_follows.
  - apply follow_step. intros d Hd. split_and!; [done|done|]. simpl. destruct (deriveAppSecret w app u e d) eqn:E; [|done]. by eapply derive_genuine.
  - apply follow_step. intros d Hd. split_and!; [done|done|]. by apply redirect_genuine.
Qed.

End Roots.

Arguments OpUnlock {w}.
Arguments OpMark {w}.
Arguments OpFromStore {w}.
Arguments OpLock {w}.
Arguments OpDerive {w}.
Arguments OpSave {w}.

(** C26: however a page's operations on its vault interleave, and whatever order they come in:
    a per-app secret is derived for a user at an epoch only from a root that was loaded for this
    very user at this very epoch, or stored so; so is every payload sealed for another device,
    and the redirect of a sign-in either carries such a secret or is the plain address. The one
    exception is the buffer of zeros a dropped root leaves behind. *)
Theorem vault_never_crosses w br (L0 : string → Bytes → Z → Prop) (ops : list (VaultOp w)) sched d :
  vault_ok L0 d →
  let L u r e := L0 u r e ∨ loads w ops u r e in
  let run := pool_run sched (map (serveVault w br) ops, d) in
  vault_ok L run.2 ∧ Forall (vault_post w L) (returned run.1).
Proof.
  intros [Hs Ht] L run. assert (∀ u r e, genuine L0 u r e → genuine L u r e) as Hg by (intros u r e [Hl [H|H]]; split; auto; by left; left).
  destruct (follows_pool (vault_ok L) buffers (vault_post w L) (map (serveVault w br) ops) sched d) as (H1 & _ & H2); [| |done].
  - apply Forall_forall. intros t (op & -> & Hop)%elem_of_map. apply (serveVault_follows w br L ops); [done|]. intros. by right.
  - split; [|by intros u r e Hr%Ht; apply Hg]. intros loc E. destruct (Hs loc E) as (u & r & ? & ? & ?). exists u, r. auto.
Qed.

(** ** Where a device does less *)

Definition browser : Browser := {| br_indexedDB := true; br_idbWorks := true; br_passwordCredential := true; br_localStorage := true |}.

Lemma newDevice_ok L : vault_ok L newDevice.
Proof. split; [done|]. intros u r e. simpl. by rewrite lookup_empty. Qed.

Definition aliceRoot : Bytes := replicate 16 3.

Lemma vault_never_crosses_witness :
  Forall (vault_post toyWorld (fun u r e => False ∨ loads toyWorld [OpUnlock "alice" aliceRoot true (Some 2); OpDerive "demo-app" "alice" 2; OpDerive "demo-app" "bob" 2] u r e))
    (returned (pool_run [0; 0; 0; 0; 1; 2]%nat
       (map (serveVault toyWorld browser) [OpUnlock "alice" aliceRoot true (Some 2); OpDerive "demo-app" "alice" 2; OpDerive "demo-app" "bob" 2], newDevice)).1).
Proof. apply (vault_never_crosses toyWorld browser (fun _ _ _ => False)). apply newDevice_ok. Defined.

(** The store copies the bytes after the database has opened: a lock in between leaves sixteen
    zeros in it, which the next page loads as the user's active root and derives from. *)
Lemma lock_during_store :
  let d := (pool_run [0; 0; 0; 1; 0]%nat (map (serveVault toyWorld browser) [OpUnlock "alice" aliceRoot true (Some 2); OpLock], newDevice)).2 in
  dv_store d !! "alice" = Some (replicate 16 0, 2) ∧
  let run := run_solo (unlockFromStore browser "alice") d in
  run.1 = Ok true ∧ isVaultReady "alice" run.2 = true ∧ seedOf "alice" run.2 = Some (replicate 16 0).
Proof. vm_compute. done. Qed.

(** The password manager's entry is not kept per user: what one account saved unlocks another's
    vault. *)
Lemma password_entry_is_shared :
  let d0 := (run_solo (serveVault toyWorld browser (OpUnlock "alice" aliceRoot true (Some 1))) newDevice).2 in
  let d1 := (run_solo (serveVault toyWorld browser (OpSave "alice" true)) d0).2 in
  let run := run_solo (autofillFromPasswordManager toyWorld browser "bob" 1 (Some PM_CREDENTIAL_ID)) d1 in
  run.1 = Ok pm_unlocked ∧ isVaultReady "bob" run.2 = true ∧ seedOf "bob" run.2 = Some aliceRoot.
Proof. vm_compute. done. Qed.
