(* ===== verification/Pairing.v ===== *)
(** * Pairing two devices

    A device that holds the root seals it for one that does not, over the relay: whatever
    requests other parties send in between, the displaying device receives the root. And a
    device that missed a re-key. *)

From S2P Require Import Prelude Threads RateLimit Session SignInOtp PairProtocol Credentials AnonSeed AnonPair Vault VaultProofs.

Open Scope Z_scope.
Open Scope minister_scope.

(** ** Runs on a device and on the server *)

Lemma deviceAt_with i d W : deviceAt i (with_device i d W) = d.
Proof. unfold deviceAt, with_device. simpl. by rewrite lookup_insert_eq. Qed.

Lemma deviceAt_other i j d W : i ≠ j → deviceAt j (with_device i d W) = deviceAt j W.
Proof. intros H. unfold deviceAt, with_device. simpl. by rewrite lookup_insert_ne. Qed.

Lemma run_atDevice {A} i (t : thread Device A) W :
  (run_solo (atDevice i t) W).1 = (run_solo t (deviceAt i W)).1 ∧
  deviceAt i (run_solo (atDevice i t) W).2 = (run_solo t (deviceAt i W)).2 ∧
  wd_db (run_solo (atDevice i t) W).2 = wd_db W ∧ ∀ j, j ≠ i → deviceAt j (run_solo (atDevice i t) W).2 = deviceAt j W.
Proof.
  revert W. induction t as [a|f k IH]; intros W; [done|]. cbn [atDevice zoom run_solo].
  destruct (IH (deviceAt i W) (with_device i (f (deviceAt i W)) W)) as (H1 & H2 & H3 & H4). rewrite deviceAt_with in *.
  split_and!; [done|done|done|]. intros j Hj. unfold atDevice in *. rewrite H4, deviceAt_other by done. done.
Qed.

Lemma run_atServer {A} (t : thread SeedDB A) W : run_solo (atServer t) W = ((run_solo t (wd_db W)).1, with_db (run_solo t (wd_db W)).2 W).
Proof. unfold atServer. apply run_solo_zoom; [done|done|by intros []]. Qed.

Lemma run_postJson {A} (t : thread SeedDB (result ActionError (Reply A))) W reply db' :
  run_solo t (wd_db W) = (Ok reply, db') → run_solo (postJson t) W = (reply, with_db db' W).
Proof. intros E. unfold postJson. rewrite run_solo_bind, run_atServer, E. done. Qed.

(** ** The relay's side *)

Section Relay.
Context (sv : ServerEnv) (user sid : string).

(** A route for a signed-in user whom the limiter lets through. *)
Definition signed_in (auth : option Session) (db : SeedDB) : Prop :=
  ∃ session, getCurrentSession auth (cu_flags <$> cd_users (sd_cred db)) = Some session ∧ s_userId session = user.

Lemma run_route {A B} (rq : PairRequest B) (k : Session → RequestContext → thread SeedDB (result ActionError (Reply A))) db :
  sv_enabled sv = true → signed_in (rq_auth rq) db → allowed (rq_verdict rq) = true →
  ∃ session, s_userId session = user ∧
    run_solo (route (sv_env sv) (sv_enabled sv) rq k) db = run_solo (k session (readContext (sv_env sv) (rq_headers rq))) db.
Proof using.
  intros He (session & Es & Hu) Hv. exists session. split; [done|]. unfold route, pairSession. rewrite He. cbn [negb]. rewrite run_solo_read, Es, Hv. done.
Qed.

(** A deposit into a waiting session. *)
Lemma seal_deposits now rq payload row db :
  sv_enabled sv = true → signed_in (rq_auth rq) db → allowed (rq_verdict rq) = true → rq_body rq ≫= sealBody = Some (sid, payload) →
  sd_pairs db !! sid = Some row → pr_userId row = user → pr_state row = "waiting" → now < pr_expiresAt row →
  ∃ db' ip ua, run_solo (seal_POST (sv_cred sv) now (sv_env sv) (sv_enabled sv) rq) db = (Ok (Json tt), db') ∧
    sd_pairs db' !! sid = Some (with_state "sealed" (Some payload) ip ua row) ∧ cd_users (sd_cred db') = cd_users (sd_cred db).
Proof using.
  intros He Hs Hv Hb Hrow Hu Hw Hx. unfold seal_POST.
  set (k := fun session ctx => _). destruct (run_route rq k db He Hs Hv) as (session & Hsu & ->). subst k. cbv beta.
  destruct (rq_body rq) as [body|]; [|done]. simpl in Hb. rewrite Hb. rewrite run_solo_bind. unfold sealPairSession. rewrite run_solo_bind, run_solo_act.
  unfold sealUpdate. rewrite Hrow, Hu, Hsu, Hw, !bool_decide_true by done. destruct (Z.ltb_spec now (pr_expiresAt row)); [|lia]. cbn [andb fst snd Nat.eqb].
  set (ip := ipOrNull _). set (ua := rc_ua _). set (db1 := with_pairs _ db). rewrite !run_solo_bind.
  set (a := run_solo (auditSeed _ _ _ _) db1). set (n := run_solo (notifyDeviceAdded _ _ _ _) a.2).
  assert (pairs_same db1 n.2) as [Hp Hc].
  { transitivity a.2; [apply (steps_in_run pairs_same (auditSeed _ _ _ _)), audit_pairs|apply (steps_in_run pairs_same (notifyDeviceAdded _ _ _ _)), notify_pairs]. }
  exists n.2, ip, ua. split; [done|]. rewrite Hp, Hc. split; [|done]. simpl. by rewrite lookup_insert_eq.
Qed.

(** A claim of a sealed session. *)
Lemma claim_receives now rq presented payload row db :
  sv_enabled sv = true → signed_in (rq_auth rq) db → allowed (rq_verdict rq) = true → rq_body rq ≫= claimBody = Some (sid, presented) →
  sd_pairs db !! sid = Some row → pr_userId row = user → pr_state row = "sealed" → pr_sealedPayload row = Some payload →
  sv_hash sv presented = pr_creatorSecretHash row →
  ∃ db', run_solo (claim_POST (sv_hash sv) now (sv_env sv) (sv_enabled sv) rq) db = (Ok (Json (claimed, Some payload)), db').
Proof using.
  intros He Hs Hv Hb Hrow Hu Hst Hp Hh. unfold claim_POST.
  set (k := fun session ctx => _). destruct (run_route rq k db He Hs Hv) as (session & Hsu & ->). subst k. cbv beta.
  destruct (rq_body rq) as [body|]; [|done]. simpl in Hb. rewrite Hb, run_solo_bind. unfold claimPairSession. rewrite run_solo_read, Hrow, Hu, Hsu.
  unfold secretMatches. rewrite !(bool_decide_true (_ = _)) by done. cbn [negb]. rewrite Hst. change (bool_decide ("sealed" = "claimed")) with false.
  change (bool_decide ("sealed" = "waiting")) with false. cbn iota. rewrite run_solo_bind, run_solo_act. unfold claimUpdate. rewrite Hrow, Hst, Hp.
  change (bool_decide ("sealed" = "sealed")) with true. cbn [fst snd Nat.eqb]. by eexists.
Qed.

End Relay.

(** ** Bystanders *)

Section Bystanders.
Context (sv : ServerEnv) (sid : string) (row : PairRow) (users : gmap string CredUser).
Hypothesis Hsealed : pr_state row = "sealed".

(** Any request but a claim of this session by its account with its secret, and a sweep an hour
    after the session's end. *)
Definition bystander (c : AnonCall) : Prop :=
  match c with
  | CCreate now _ _ _ _ => now - PAIR_SWEEP_GRACE_MS <= pr_expiresAt row
  | CClaim _ rq => ∀ session presented, rq_auth rq = Some session → rq_body rq ≫= claimBody = Some (sid, presented) →
      s_userId session = pr_userId row → sv_hash sv presented ≠ pr_creatorSecretHash row
  | _ => True
  end.

Definition deposited (db : SeedDB) : Prop := sd_pairs db !! sid = Some row ∧ cd_users (sd_cred db) = users.

Abbreviation stay := (stays deposited (fun _ => True)).

Lemma deposited_same db db' : deposited db → pairs_same db db' → deposited db'.
Proof using. intros [H1 H2] [E1 E2]. split; congruence. Qed.

Lemma framed_stays {A} (t : thread SeedDB A) : steps_in pairs_same t → stay t.
Proof using. apply stays_frame, deposited_same. Qed.

Lemma deposited_then {A B} (t : thread SeedDB A) (k : A → thread SeedDB B) : stay t → (∀ a, stay (k a)) → stay (t ≫= k).
Proof using. intros Ht Hk. apply stays_bind. eapply stays_impl; [|exact Ht]. intros a _. apply Hk. Qed.

Lemma route_stays {A B} (rq : PairRequest B) (k : Session → RequestContext → thread SeedDB (result ActionError (Reply A))) :
  (∀ session ctx, rq_auth rq = Some session → stay (k session ctx)) → stay (route (sv_env sv) (sv_enabled sv) rq k).
Proof using.
  intros Hk. unfold route, pairSession. case_match; [done|]. intros db Hdb. split; [done|]. simpl.
  destruct (getCurrentSession _ _) as [session|] eqn:Es; [|done]. case_match; [done|]. apply Hk. by eapply getCurrentSession_auth.
Qed.

Lemma create_bystander now rq sid' secret sweeps :
  now - PAIR_SWEEP_GRACE_MS <= pr_expiresAt row → stay (create_POST (sv_hash sv) now (sv_env sv) (sv_enabled sv) rq sid' secret sweeps).
Proof using.
  intros Hnow. apply route_stays. intros session ctx _. apply deposited_then; [|by intros [|]]. unfold createPairSession.
  apply deposited_then; [|intros _; apply deposited_then; [|intros [|]; [|done]; apply deposited_then; [apply framed_stays, audit_pairs|done]]].
  - intros db [H1 H2]. split; [|done]. split; [|by destruct sweeps]. destruct sweeps; [|done]. simpl. apply map_lookup_filter_Some. split; [done|]. simpl. lia.
  - intros db [H1 H2]. split; [|done]. simpl. unfold insertPair. destruct (sd_pairs db !! sid') as [r'|] eqn:E; [done|]. split; [|done]. simpl.
    rewrite lookup_insert_ne; [done|]. intros ->. congruence.
Qed.

Lemma seal_bystander now rq : stay (seal_POST (sv_cred sv) now (sv_env sv) (sv_enabled sv) rq).
Proof using Hsealed.
  apply route_stays. intros session ctx _. destruct (rq_body rq) as [body|]; [|done]. destruct (sealBody body) as [[sid' p]|]; [|done].
  apply deposited_then; [|done]. unfold sealPairSession. apply deposited_then.
  - intros db [H1 H2]. split; [|done]. simpl. unfold sealUpdate. destruct (sd_pairs db !! sid') as [r'|] eqn:E; [|done]. case_match eqn:Ec; [|done].
    split; [|done]. simpl. rewrite lookup_insert_ne; [done|]. intros ->. rewrite H1 in E. injection E as <-. by rewrite Hsealed, andb_false_r in Ec.
  - intros n. case_match; [|intros db Hdb; split; [done|]; simpl; repeat (case_match; try done)].
    apply deposited_then; [apply framed_stays, audit_pairs|]. intros _. apply deposited_then; [apply framed_stays, notify_pairs|done].
Qed.

Lemma claim_bystander now rq : bystander (CClaim now rq) → stay (claim_POST (sv_hash sv) now (sv_env sv) (sv_enabled sv) rq).
Proof using.
  intros Hb. apply route_stays. intros session ctx Hs. destruct (rq_body rq) as [body|] eqn:Eb; [|done].
  destruct (claimBody body) as [[sid' presented]|] eqn:Ep; [|done]. apply deposited_then; [|done]. unfold claimPairSession.
  intros db [H1 H2]. split; [done|]. simpl. destruct (sd_pairs db !! sid') as [r'|] eqn:E; [|done].
  case_bool_decide as Hu; [|done]. destruct (secretMatches _ presented _) eqn:Em; [|done]. apply bool_decide_eq_true in Em. simpl.
  assert (sid' ≠ sid) as Hne.
  { intros ->. rewrite H1 in E. injection E as <-. simpl in Hb. rewrite Eb in Hb. eapply Hb; [done|done| |done]. done. }
  case_match; [done|]. case_match; [done|]. intros db' [H1' H2']. split.
  - simpl. unfold claimUpdate. destruct (sd_pairs db' !! sid'); [|done]. case_match; [|done]. split; [|done]. simpl. by rewrite lookup_insert_ne.
  - simpl. case_match; [|done]. by case_match.
Qed.

Lemma bystander_stays c : bystander c → stay (serveAnon (sv_cred sv) (sv_hash sv) (sv_env sv) (sv_enabled sv) c).
Proof using Hsealed.
  intros Hc. destruct c as [c|now rq sid' secret sweeps|now rq|now rq|now rq]; cbn [serveAnon]; (apply deposited_then; [|done]).
  - apply framed_stays, serveSeed_pairs.
  - by apply create_bystander.
  - apply framed_stays, poll_pairs.
  - apply seal_bystander.
  - by apply claim_bystander.
Qed.

Lemma bystanders_keep calls sched db :
  Forall bystander calls → deposited db → deposited (pool_run sched (map (serveAnon (sv_cred sv) (sv_hash sv) (sv_env sv) (sv_enabled sv)) calls, db)).2.
Proof using Hsealed.
  intros Hc Hdb. apply (stays_pool deposited (fun _ => True)); [|done]. apply Forall_forall. intros t (c & -> & Hin)%elem_of_map.
  apply bystander_stays. rewrite Forall_forall in Hc. by apply Hc.
Qed.

End Bystanders.

(** ** The devices' sides *)

Section Devices.
Context (w : SeedWorld) (br : Browser).

Definition stores (u : string) (e : Z) : bool := br_indexedDB br && br_idbWorks br && assertEpoch e && negb (bool_decide (u = "")).

Lemma unlockVault_loads u root e d :
  length root = ROOT_SEED_BYTES →
  ∃ d', run_solo (unlockVault br u root true (Some e)) d = (Ok tt, d') ∧ seedOf u d' = Some root ∧ isVaultReady u d' = true ∧ dv_vaultEpoch d' = e ∧
    (stores u e = true → dv_store d' !! u = Some (root, e)).
Proof using.
  intros Hl. unfold unlockVault. rewrite Hl, Nat.eqb_refl. cbn [negb from_option id]. rewrite run_solo_bind. set (d1 := (run_solo (write _) d).2).
  assert (d1 = loadSeed u root true e d) as E1 by done. clearbody d1.
  assert (dv_heap d1 !! length (zeroed (dv_heap d) (dv_seed d)) = Some root) as Hheap by (rewrite E1; simpl; by rewrite lookup_app_r, Nat.sub_diag).
  assert (seedOf u d1 = Some root ∧ isVaultReady u d1 = true ∧ dv_vaultEpoch d1 = e) as (H1 & H2 & H3).
  { unfold seedOf, isVaultReady. rewrite E1 in *. simpl in *. rewrite !bool_decide_true by done. done. }
  rewrite run_solo_bind. unfold persistRoot. rewrite run_solo_read.
  replace (if bool_decide (dv_seedUserId d1 = Some u) && dv_active d1 then _ else None) with (Some (length (zeroed (dv_heap d) (dv_seed d)), e))
    by (rewrite E1; simpl; by rewrite bool_decide_true).
  rewrite run_solo_bind. unfold putRoot. rewrite run_solo_read, Hheap. cbn [from_option id]. rewrite Hl, Nat.eqb_refl. cbn [negb]. unfold stores.
  destruct (assertEpoch e); cbn [negb]; [|exists d1; rewrite andb_false_r; by split_and!].
  destruct (bool_decide (u = "")); cbn [negb]; [exists d1; rewrite andb_false_r; by split_and!|].
  destruct (br_indexedDB br); cbn [negb]; [|by exists d1; split_and!]. destruct (br_idbWorks br); cbn [negb]; [|by exists d1; split_and!].
  rewrite run_solo_bind. eexists. split; [reflexivity|]. cbn. rewrite Hheap. cbn. split_and!; [done|done|done|]. intros _. by rewrite lookup_insert_eq.
Qed.

Lemma receive_loads u sid kp relayBody body root e d :
  decodeRelayBody relayBody = Some body → openRoot w kp body u sid e = Some root →
  ∃ d', run_solo (receiveRootFromPeer w br u sid kp relayBody e) d = (Ok tt, d') ∧ seedOf u d' = Some root ∧ isVaultReady u d' = true ∧
    dv_vaultEpoch d' = e ∧ (stores u e = true → dv_store d' !! u = Some (root, e)).
Proof using.
  intros Hb Ho. unfold receiveRootFromPeer. rewrite Hb, Ho. apply unlockVault_loads.
  unfold openRoot in Ho. case_match; [done|]. destruct (buildPairAad u sid e); [|done]. cbn [mbind option_bind] in Ho. destruct (sw_open _ _ _ _ _ _) as [r|]; [|done].
  cbn [mbind option_bind] in Ho. destruct (Nat.eqb_spec (length r) PAIR_ROOT_BYTES); [|done]. by simplify_eq/=.
Qed.

Lemma sealRootToPeer_ready u sid pk draw d root body :
  isVaultReady u d = true → seedOf u d = Some root → sealRoot w pk root u sid (dv_vaultEpoch d) draw = Some body → length body = PAIR_RELAY_BODY_BYTES →
  run_solo (sealRootToPeer w u sid pk draw) d = (Ok (toBase64Url body), d).
Proof using.
  intros Hr Hs Hb Hl. unfold sealRootToPeer. rewrite run_solo_read, Hr. unfold seedOf in Hs. case_bool_decide; [|done].
  destruct (dv_seed d) as [loc|]; [|done]. cbn in Hs. cbn [fmap option_fmap option_map]. rewrite run_solo_read, Hs. cbn [from_option id]. rewrite Hb.
  cbn [mbind option_bind]. unfold encodeRelayBody. by rewrite Hl, Nat.eqb_refl.
Qed.

End Devices.

Lemma relayBody_ok body : Forall is_byte body → length body = PAIR_RELAY_BODY_BYTES →
  decodeRelayBody (toBase64Url body) = Some body ∧ BASE64URL_RE (toBase64Url body) = true ∧ String.length (toBase64Url body) = PAIR_RELAY_BODY_B64_LEN ∧
  toBase64Url body ≠ "".
Proof.
  intros Hb Hl. assert (body ≠ []) as Hne by (by intros ->). pose proof (decodeExact_to body PAIR_RELAY_BODY_BYTES Hb Hne Hl) as Hd.
  split_and!; [done| |by rewrite toBase64Url_length, Hl|by apply toBase64Url_nonempty].
  unfold decodeExact in Hd. by destruct (BASE64URL_RE (toBase64Url body)).
Qed.

(** ** Pairing completes *)

(** Two devices of one account: the scanning one has an unlocked root, the displaying one a
    session that waits at the relay. *)
Record pairing_ready (w : SeedWorld) (sv : ServerEnv) (there : nat) (user : string) (ds : DisplaySession w) (root : Bytes) (row : PairRow)
    (scan display : option Session) (now : Z) (W : World) : Prop := {
  ry_enabled : sv_enabled sv = true;
  ry_scan : signed_in user scan (wd_db W);
  ry_display : signed_in user display (wd_db W);
  ry_vault : isVaultReady user (deviceAt there W) = true;
  ry_root : seedOf user (deviceAt there W) = Some root ∧ length root = PAIR_ROOT_BYTES ∧ Forall is_byte root;
  ry_context : is_Some (buildPairAad user (ds_sessionId w ds) (dv_vaultEpoch (deviceAt there W)));
  ry_body : claimBody (Some (ds_sessionId w ds), Some (ds_creatorSecret w ds)) = Some (ds_sessionId w ds, ds_creatorSecret w ds);
  ry_row : sd_pairs (wd_db W) !! ds_sessionId w ds = Some row;
  ry_owner : pr_userId row = user;
  ry_waiting : pr_state row = "waiting" ∧ now < pr_expiresAt row;
  ry_secret : pr_creatorSecretHash row = sv_hash sv (ds_creatorSecret w ds);
}.

(** C11: once a device with an unlocked root has scanned the code of a waiting session of the
    same account, its deposit succeeds, and whatever requests other parties send before the
    session is swept, in whatever interleaving, the next poll of the displaying device receives
    the root: its vault is ready with exactly this root at the epoch of the sender, and keeps it
    in the store where the device has one. *)
Theorem pairing_completes w `{!SeedWorldLaws w, !SeedWorldShapes w} br sv here there user ds root row scan display now W :
  pairing_ready w sv there user ds root row scan display now W →
  ∀ headers verdict draw calls sched later headers' verdict', allowed verdict = true → allowed verdict' = true →
  Forall (bystander sv (ds_sessionId w ds) row) calls →
  let epoch := dv_vaultEpoch (deviceAt there W) in
  let sent := run_solo (sealToPeer w sv there scan now headers verdict user (ds_sessionId w ds) (sw_publicKey w (ds_keyPair w ds)) draw) W in
  let relay := (pool_run sched (map (serveAnon (sv_cred sv) (sv_hash sv) (sv_env sv) (sv_enabled sv)) calls, wd_db sent.2)).2 in
  let received := run_solo (pollForRoot w br sv here display later headers' verdict' ds user epoch) (with_db relay sent.2) in
  sent.1 = SealSent ∧ received.1 = poll_received ∧ isVaultReady user (deviceAt here received.2) = true ∧
  seedOf user (deviceAt here received.2) = Some root ∧ dv_vaultEpoch (deviceAt here received.2) = epoch ∧
  (stores br user epoch = true → dv_store (deviceAt here received.2) !! user = Some (root, epoch)).
Proof.
  intros [He Hscan Hdisp Hvault (Hroot & Hlen & Hbytes) Hctx Hbody Hrow Howner [Hwait Hnow] Hsecret].
  intros headers verdict draw calls sched later headers' verdict' Hv Hv' Hcalls epoch sent relay received.
  destruct (sealRoot_some w (ds_keyPair w ds) root user (ds_sessionId w ds) epoch draw Hlen Hbytes Hctx) as (body & Hseal & Hbb & Hbl).
  destruct (relayBody_ok body Hbb Hbl) as (Hdec & Hre & Hblen & Hbne).
  destruct (run_atDevice there (sealRootToPeer w user (ds_sessionId w ds) (sw_publicKey w (ds_keyPair w ds)) draw) W) as (R1 & _ & R3 & _).
  rewrite (sealRootToPeer_ready w _ _ _ _ _ _ _ Hvault Hroot Hseal Hbl) in R1. cbn [fst] in R1.
  set (W1 := (run_solo (atDevice there _) W).2) in *.
  assert (isValidSessionId (ds_sessionId w ds) = true) as Hvalid.
  { unfold claimBody in Hbody. cbn [fst snd mbind option_bind] in Hbody. by destruct (isValidSessionId _). }
  destruct (seal_deposits sv user (ds_sessionId w ds) now (pairRequest scan headers verdict (Some (ds_sessionId w ds), Some (toBase64Url body)))
    (toBase64Url body) row (wd_db W1)) as (db1 & ip & ua & Erun & Hdep & Husers); try done; [by rewrite R3| |by rewrite R3|].
  { simpl. unfold sealBody. cbn [fst snd mbind option_bind]. by rewrite Hvalid, Hblen, Nat.eqb_refl, Hre. }
  assert (sent = (SealSent, with_db db1 W1)) as Hsent.
  { unfold sent, sealToPeer. rewrite run_solo_bind, R1. fold W1. rewrite run_solo_bind. by erewrite run_postJson by exact Erun. }
  set (row' := with_state "sealed" (Some (toBase64Url body)) ip ua row) in *.
  assert (deposited (ds_sessionId w ds) row' (cd_users (sd_cred (wd_db W))) relay) as [Hrow' Husers'].
  { unfold relay. rewrite Hsent. apply (bystanders_keep sv _ row'); [done|exact Hcalls|]. split; [done|]. simpl. by rewrite Husers, R3. }
  destruct (claim_receives sv user (ds_sessionId w ds) later
    (pairRequest display headers' verdict' (Some (ds_sessionId w ds), Some (ds_creatorSecret w ds))) (ds_creatorSecret w ds) (toBase64Url body) row' relay)
    as (db2 & Eclaim); try done.
  { destruct Hdisp as (session & Hs & Hsu). exists session. by rewrite Husers'. }
  destruct (run_atDevice here (receiveRootFromPeer w br user (ds_sessionId w ds) (ds_keyPair w ds) (toBase64Url body) epoch) (with_db db2 (with_db relay sent.2)))
    as (S1 & S2 & _ & _).
  destruct (receive_loads w br user (ds_sessionId w ds) (ds_keyPair w ds) (toBase64Url body) body root epoch (deviceAt here (with_db db2 (with_db relay sent.2)))) as (d' & Ed & Hd1 & Hd2 & Hd3 & Hd4);
    [exact Hdec|by eapply openRoot_seal|]. rewrite Ed in S1, S2. cbn [fst snd] in S1, S2.
  assert (received.1 = poll_received ∧ deviceAt here received.2 = d') as [Hr1 Hr2].
  { unfold received, pollForRoot. rewrite run_solo_bind. erewrite run_postJson by exact Eclaim. cbn [fst snd]. rewrite bool_decide_false by done.
    rewrite run_solo_bind, S1. split; [done|exact S2]. }
  rewrite Hsent, Hr2. by split_and!.
Qed.

(** ** Examples *)

Definition exampleServer : ServerEnv := {| sv_enabled := true; sv_env := ∅; sv_cred := exampleWorld; sv_hash := exampleHash |}.

Definition holder (epoch : Z) : Device := (run_solo (unlockVault browser "alice" aliceRoot true (Some epoch)) newDevice).2.

Definition exampleDisplay : DisplaySession toyWorld :=
  {| ds_sessionId := exampleSid; ds_creatorSecret := "c2VjcmV0"; ds_expiresAt := 2000000; ds_qrText := ""; ds_code := ""; ds_keyPair := (5 : KeyPair toyWorld) |}.

Definition pairingWorld : World := {| wd_db := exampleRelay (exampleRow "alice" "waiting" None); wd_devices := {[ 1%nat := holder 1 ]} |}.

Definition otherRequests : list AnonCall :=
  [CSeal 1000000 (exampleRequest "alice" (Some exampleSid, Some examplePayload)); CClaim 1000000 (exampleRequest "mallory" (Some exampleSid, Some "c2VjcmV0"));
   CCreate 1000000 (exampleRequest "alice" tt) exampleSid "YWJj" true].

Lemma pairing_completes_witness :
  let sent := run_solo (sealToPeer toyWorld exampleServer 1 (Some aliceSession) 1000000 (fun _ => None) (Verdict true 0) "alice" exampleSid
    (sw_publicKey toyWorld (5 : KeyPair toyWorld)) []) pairingWorld in
  let relay := (pool_run [0; 1; 2; 0; 1; 2; 0; 1; 2; 2]%nat (map (serveAnon exampleWorld exampleHash ∅ true) otherRequests, wd_db sent.2)).2 in
  let received := run_solo (pollForRoot toyWorld browser exampleServer 0 (Some aliceSession) 1900000 (fun _ => None) (Verdict true 0) exampleDisplay "alice" 1)
    (with_db relay sent.2) in
  received.1 = poll_received ∧ seedOf "alice" (deviceAt 0 received.2) = Some aliceRoot.
Proof.
  assert (pairing_ready toyWorld exampleServer 1 "alice" exampleDisplay aliceRoot (exampleRow "alice" "waiting" None) (Some aliceSession) (Some aliceSession)
    1000000 pairingWorld) as Hready.
  { split; try (vm_compute; reflexivity).
    - exists aliceSession. by vm_compute.
    - exists aliceSession. by vm_compute.
    - split_and!; [by vm_compute|done|]. apply Forall_replicate. unfold is_byte. lia.
    - vm_compute. by eexists.
    - by vm_compute. }
  destruct (pairing_completes toyWorld browser exampleServer 0 1 "alice" exampleDisplay aliceRoot (exampleRow "alice" "waiting" None) _ _ 1000000 pairingWorld Hready
    (fun _ => None) (Verdict true 0) [] otherRequests [0; 1; 2; 0; 1; 2; 0; 1; 2; 2]%nat 1900000 (fun _ => None) (Verdict true 0)) as (_ & H2 & _ & H4 & _);
    [done|done| |split; [exact H2|exact H4]].
  repeat constructor; simpl.
  - intros session presented E _. injection E as <-. done.
  - unfold PAIR_SWEEP_GRACE_MS. lia.
Defined.

(** ** A device that missed a re-key *)

(** The copy a device stores under a passkey is bound to the epoch the server reports, not to
    the epoch of the root it holds: a device with the root of an earlier epoch stores this root
    as one of the current epoch, and any device that unlocks with the passkey then holds it,
    ready to derive at the current epoch. *)
Lemma stale_root_is_rewrapped :
  let get := fun _ : list Bytes => GetAssertion "pk" (Some (replicate 32 9)) in
  let W := {| wd_db := seedDB (activeRow 2) ∅; wd_devices := {[ 1%nat := holder 1 ]} |} in
  let stored := run_solo (enrollPasskeyBlob toyWorld exampleServer 1 (Some aliceSession) 1000000 "alice" (Verdict true 0) get (replicate 12 4)) W in
  let opened := run_solo (unlockWithPasskey toyWorld browser exampleServer 2 (Some aliceSession) "alice" get) stored.2 in
  dv_vaultEpoch (deviceAt 1 W) = 1 ∧ stored.1 = Ok (EnrollOk "pk") ∧ opened.1 = Ok UnlockOk ∧
  seedOf "alice" (deviceAt 2 opened.2) = Some aliceRoot ∧ dv_vaultEpoch (deviceAt 2 opened.2) = 2 ∧ isVaultReady "alice" (deviceAt 2 opened.2) = true.
Proof. vm_compute. done. Qed.
